(* ===== verification/_CoqProject ===== *)
-Q . S2P
Prelude.v
Bytes.v
Bson.v
RawBson.v
BsonBuilder.v
Doubles.v
Decimals.v
BsonCompare.v
KeyDecoder.v
KeyString.v
KeyRoundTrip.v
ByteOrder.v
NumberOrder.v
KeyOrder.v
RecordId.v
MongoKey.v
TypeBits.v
KeyToBson.v
KeyRestored.v
MongoRecord.v
EloqUtil.v
TableSchema.v
TxService.v
MemTx.v
RecoveryUnit.v
UnitOfWork.v
CursorScan.v
PointReads.v
EloqIndex.v
IndexScan.v
RecordStore.v
StoreRows.v
CatalogStore.v
CatalogChanges.v
ResumeToken.v
BlobDecoder.v
WaitObject.v
LogService.v
DdlDecoder.v
ScanClient.v
ScanContract.v
ScanSource.v
FakeLogService.v
EventStream.v
Registry.v
ChangeStreamStage.v
ChangeStreamCursor.v
Changes.v
ResumeExact.v
StreamRefinement.v
ClientSession.v
