(* ===== verification/Prelude.v ===== *)
(** * EloqDoc: its change streams and its storage engine

    EloqDoc is a MongoDB server over a transactional store (src/src/mongo/db/modules/eloq). The store's
    redo log is kept by a log service in log groups; a change stream reads the logs of all groups, merges
    them by commit timestamp and reports each logged change as an event with a resume token. This
    library models that pipeline, from the bytes of the log to the replies of a client's cursor; the storage
    engine that writes what is logged, from the server's recovery unit, record stores, indexes and catalog down
    to the requests it sends to the transaction service; and the BSON and index-key code below both.

    ** The program

    A record of a log is a blob of changes of one transaction or a schema operation. [CdcScanClient]
    calls the log service, one call per group at a time; [CdcScanSource] buffers the pages and releases
    records in timestamp order; [CdcEventStream] decodes blobs ([CdcBlobDecoder]), logged keys
    (cdc_key_decoder) and schema operations (cdc_ddl_decoder) to events, skips what a resume token says
    was reported, and names the position after each event as a [CdcResumeToken]. The stage
    [DocumentSourceEloqChangeStream] opens a stream for a $changeStream specification; the server's
    pipeline, plan executor and cursor commands carry its events into batches. Callbacks and timers meet
    the waiting operation in [CdcWaitObject]; open streams are listed in [CdcStreamRegistry].

    On the side of the engine, [EloqRecoveryUnit] holds a transaction, the unit of work in it, the tables it has
    discovered and the catalog entries it has staged. [EloqCursor] reads a scan of the service in batches.
    [EloqIndex] and [EloqRecordStore] keep keys and documents as rows of tables, and their cursors walk over an
    [EloqCursor] which the end of a unit of work closes under them. [MongoTableSchema] is what a node builds
    from a table's image in the catalog; [EloqCatalogRecordStore] writes the catalog, by schema changes.

    ** The files

    Paths are below src/src/mongo, those that begin with base/cdc, base/eloq, cdc/ or eloq_ below
    src/src/mongo/db/modules/eloq/src.

    - [Prelude]: bytes, fixed-width integers, the error monad [result] with its notations, tactics.
    - [Bytes]: big-endian and native integers, byte order, hexadecimal.
    - [Bson], [RawBson], [BsonBuilder]: documents; bson/bson_validate.cpp and reading an object's bytes;
      bson/bsonobjbuilder.h. A document is the list of its elements.
    - [Doubles], [Decimals]: the operations on double, as bits, that the code uses; platform/decimal128.cpp
      over Intel's library, which is the record [IntelDecimal] with the laws [IEEEDecimal].
    - [BsonCompare]: base/compare_numbers.h, bson/bsonelement.cpp and bson/bsonobj.cpp (woCompare),
      bson/ordering.h.
    - [KeyDecoder], [KeyString]: base/cdc_key_decoder.cpp, which reads logged keys, and
      db/storage/key_string.cpp, which writes keys; [KeyRoundTrip] is that the one undoes the other,
      [ByteOrder], [NumberOrder] and [KeyOrder] that keys are in the order of their values.
    - [RecordId], [MongoKey]: db/record_id.h with the record ids at the end of index keys; base/eloq_key.h.
    - [TypeBits], [KeyToBson]: the type bits beside a key and the reading of a key with them (key_string.cpp);
      [KeyRestored] is that the two give a document back.
    - [MongoRecord], [EloqUtil], [TableSchema]: base/eloq_record.h, base/eloq_util.h with the errors of the
      transaction service, and base/eloq_table_schema.cpp.
    - [TxService]: the requests of the transaction service as a record, and its contract as classes; [MemTx]
      is a service in memory that keeps it.
    - [RecoveryUnit]: eloq_recovery_unit.cpp and eloq_cursor.cpp, as operations on a [World]: the service's
      state, the unit and the heap of cursors it may close. [UnitOfWork], [CursorScan] and [PointReads] prove
      the unit's transactions, scans and reads.
    - [EloqIndex], [RecordStore]: eloq_index.cpp and the record store of eloq_record_store.cpp; [IndexScan] and
      [StoreRows] prove what they return and leave.
    - [CatalogStore]: the catalog's record store and the schema changes of the recovery unit;
      [CatalogChanges] proves them.
    - [ResumeToken], [BlobDecoder], [DdlDecoder]: base/cdc_resume_token.cpp, base/cdc_blob_decoder.cpp,
      cdc/cdc_ddl_decoder.cpp.
    - [WaitObject]: cdc/cdc_wait_object.cpp as a transition system of its critical sections.
    - [LogService], [ScanContract]: the messages of the log service and its paging contract, a class;
      [ScanClient] (cdc/cdc_scan_client.cpp) and [ScanSource] (cdc/cdc_scan_source.cpp) are its client;
      [FakeLogService] (cdc/cdc_fake_log_service.cpp) is an instance of it.
    - [EventStream]: cdc/cdc_event_stream.cpp. [Registry]: cdc/cdc_stream_registry.cpp.
    - [ChangeStreamStage]: cdc/document_source_eloq_change_stream.cpp and the parsing of $changeStream.
      [ChangeStreamCursor]: db/exec/pipeline_proxy.cpp, db/query/plan_executor.cpp,
      db/commands/run_aggregate.cpp, db/commands/getmore_cmd.cpp and the responses they build.
    - [Changes]: the specification of a stream, with no fetching or skipping in it; [ResumeExact],
      [StreamRefinement] and [ClientSession] prove the stream, its refinement of the specification and
      what a client sees.

    Functions keep the names of the code. A state is a record, an operation a function that returns the
    new state (in the engine, of the state monad [St]); an error is a value of [result], where [InvariantFailure] stands for a failed invariant or
    unreachable code, so a theorem that an operation fails only with certain errors says that no invariant
    trips. Machine integers are [Z] with their wrap-around written out. Concurrency is interleaving:
    what another thread may do between two steps is a step of its own ([WaitObject]), or an answer of the
    environment at each reading of the clock ([ScanClient]).

    ** What is shown

    - Resuming: the events of a stream are, per log group, a prefix of the changes its opening token
      leaves, and each event's token leaves exactly the changes not yet reported
      ([StreamRefinement.resume_exact], [watermark_exact]); so do the tokens of a client's replies,
      whatever its batch sizes and stages ([ClientSession.client_resumes]); an invalidate is last
      and only for the watched collection ([invalidate_ends]).
    - Merging: releases are in order and complete up to the watermark ([ScanSource.released_in_order],
      [drained_watermark]), for any timing and paging the contract allows; a group that holds the others
      back is always fetched ([blocking_group_fetched]).
    - Progress: pulls, commands and waits return ([pull_returns], [session_answers], [next_returns],
      [WaitObject.due_wait_returns]) and retries back off ([ScanClient.no_tight_retry]).
    - Formats: tokens, blobs, BSON objects, index keys and index entries round-trip, and their readers
      refuse anything else with the documented errors ([ResumeToken.decode_iff_encode],
      [BlobDecoder.decodeBlob_encode_blob], [BsonBuilder.built_validates_and_reads],
      [RawBson.validated_reads], [MongoKey.logged_id_round_trip], [RecordId.index_entry_round_trip],
      [KeyDecoder.decodeLoggedIdKey_total]).
    - Order: two index keys are equal exactly when their values are the same up to number type
      ([KeyRoundTrip.keys_equal_iff]), and compare as their values do ([KeyOrder.keys_in_order]), bounds with a
      discriminator included ([exclusive_bounds]).
    - Rows: a record store is a map from ids to documents ([StoreRows.store_is_a_map]), and an index that is
      being built is kept up exactly ([index_kept_up]); the cursor of an index returns the entries between its
      bounds exactly, however its walk is cut up, and goes on ([IndexScan.index_cursor_exact],
      [index_cursor_goes_on], [seek_range_by_value]), with the values as they were indexed
      ([KeyRestored.stored_key_restored]); point and batch reads are right ([PointReads]).
    - Units of work are all or nothing ([UnitOfWork.unit_all_or_nothing]).
    - Catalog: an entry written is read back ([CatalogChanges.catalog_reads_back]), and schema images and
      changes keep the version of what they keep ([change_keeps_versions], [TableSchema.image_keeps_versions]);
      multikey paths are united and stored ([merge_unites], [paths_round_trip]).
    - Schema events: index and create events track the catalog (DdlDecoder). Bookkeeping:
      every call's closure runs once, every waiter is resumed once, every stream is counted once
      ([FakeLogService.closures_run_once], [WaitObject.resumed_exactly_once],
      [Registry.section_counts_every_stream]).

    ** Bounds and fuel

    Loops over data recurse on it, or take as fuel a bound of their rounds: the bytes left (decoders,
    validator), for which running out is [InvariantFailure] and is proved not to happen. Loops that wait
    for a deadline take fuel and return [None] while they still wait; the termination theorems give the
    fuel that is enough once the clock passes the deadline. The engine's loops over a scan take fuel too, and
    their theorems speak of the result all sufficient fuels give ([runs]). Retries are counted as in
    the code. Sizes are those of the code: keys shorter than
    2^16 bytes where they are serialized, parts of keys shorter than 2^31, at most 32 fields in a key whose
    order is proved, documents within the size limits of BSONObj.

    ** Parameters

    The transaction service ([TxService], with [TxLaws], [KvLaws] and [CatalogLaws]); the layout of schema
    images and what upstream code parses catalog metadata to ([ImageCodec], with [ImageLaws]); the keys an
    access method makes of a document ([IndexEntry]); the store handler ([StoreHandler]); the answers of the log service and the clock ([Env], with [ScanContract]), the schema catalog and the
    protobuf messages it stores, the document an update reads back, the parser generated from the IDL of
    $changeStream, the stages of the user's pipeline, and Intel's decimal library are parameters; the laws
    they are given are hypotheses or classes, each with an instance in a witness.

    ** Not modelled

    The transaction service and log service (the submodule data_substrate), and the engine's start-up and
    commands. Of the engine, bulk builders of indexes, statistics and sizes, and the catalog factory; the
    theorems on index cursors are for cursors that do not prefetch documents. Bthread, brpc, protobuf and
    other third-party code. Of KeyString, version V0; decimals are encoded and decoded
    here, but the round trip and the order of keys are proved for values without them, since they rest on
    arithmetic of Intel's library beyond the laws assumed. Of Decimal128, strings, powers and logarithms.
    Upstream server code off the path of a change stream: planner, replication, sharding, storage
    engines, commands, shell and tools. *)

From stdpp Require Export base list gmap numbers sorting.
From Stdlib Require Export ZArith Lia.
From Stdlib Require Import Strings.Byte.
From Stdlib Require Init.Byte.

#[global] Set Default Goal Selector "!".
#[global] Open Scope Z_scope.

(** ** Bytes

    A C++ [char] read through [unsigned char], and every string of the
    program (keys, namespaces, blobs, tokens), is a list of [byte]. *)

Abbreviation byte := Init.Byte.byte.
Abbreviation bytes := (list byte).

Definition byte_Z (b : byte) : Z := Z.of_N (Byte.to_N b).

Definition Z_byte (z : Z) : byte :=
  match Byte.of_N (Z.to_N (z mod 256)) with
  | Some b => b
  | None => Byte.x00
  end.

#[global] Instance byte_eq_dec : EqDecision byte := Byte.byte_eq_dec.

#[global] Program Instance byte_countable : Countable byte :=
  inj_countable Byte.to_N Byte.of_N _.
Next Obligation. intros b; apply Byte.of_to_N. Qed.

(** ** Machine integers *)

Definition u8_max : Z := 2 ^ 8 - 1.
Definition u16_max : Z := 2 ^ 16 - 1.
Definition u32_max : Z := 2 ^ 32 - 1.
Definition u64_max : Z := 2 ^ 64 - 1.

Definition wrap64 (z : Z) : Z := z mod 2 ^ 64.
Definition wrap32 (z : Z) : Z := z mod 2 ^ 32.

Definition is_u64 (z : Z) : Prop := 0 <= z < 2 ^ 64.
Definition is_u32 (z : Z) : Prop := 0 <= z < 2 ^ 32.
Definition is_u16 (z : Z) : Prop := 0 <= z < 2 ^ 16.

(** ** Errors

    The codes of [ErrorCodes] the change stream raises, whether thrown
    (uassert) or returned in a [Status]; [BSONObjInvalidSize] is location
    10334 of bsonobj.cpp, [Location] any other numbered assertion,
    [Interrupted] what an operation that was killed or ran out of time
    throws, [InvariantFailure] a failed [invariant] or
    [MONGO_UNREACHABLE], which aborts the process. *)

Inductive ErrorCode :=
| FailedToParse
| BadValue
| ChangeStreamHistoryLost
| ChangeStreamFatalError
| ChangeStreamStartNotReady
| CommandNotSupported
| InvalidOptions
| InvalidResumeToken
| InvalidNamespace
| BSONObjInvalidSize
| Overflow
| QueryFeatureNotAllowed
| CloseChangeStream
| Interrupted
| KeyTooLong
| WriteConflict
| DuplicateKey
| NotYetInitialized
| TransactionTooLarge
| CannotCreateIndex
| SnapshotUnavailable
| ExceededMemoryLimit
| TransactionCommitted
| NotMaster
| InternalError
| OperationFailed
| NamespaceNotFound
| NamespaceExists
| ClusterGatePaused
| ConflictingOperationInProgress
| UnknownError
| Location (code : Z)
| InvariantFailure.

#[global] Instance ErrorCode_eq_dec : EqDecision ErrorCode.
Proof. solve_decision. Defined.

Inductive result (A : Type) :=
| Ok (a : A)
| Err (e : ErrorCode).
Arguments Ok {A} a.
Arguments Err {A} e.

#[global] Instance result_eq_dec {A} `{EqDecision A} : EqDecision (result A).
Proof. solve_decision. Defined.

Definition rbind {A B} (m : result A) (f : A -> result B) : result B :=
  match m with
  | Ok a => f a
  | Err e => Err e
  end.

Declare Scope cdc_scope.
Delimit Scope cdc_scope with cdc.
#[global] Open Scope cdc_scope.

Notation "'let!' x := m 'in' k" := (rbind m (fun x => k))
  (at level 10, x pattern, m at level 100, k at level 200,
   format "'let!'  x  :=  m  'in' '//' k") : cdc_scope.

(** [uassert(code, cond)]: throws [code] unless [cond] holds. *)
Definition uassert (e : ErrorCode) (c : bool) : result unit :=
  if c then Ok tt else Err e.

Abbreviation invariant c := (uassert InvariantFailure c).

(** ** Automation *)

Create HintDb cdc discriminated.

Ltac invc H := inversion H; subst; clear H.

(** Case on every [match]/[if] of the goal or of [H], keeping the equations. *)
Ltac case_on x := let E := fresh "E" in destruct x eqn:E; try discriminate.

Ltac break_match :=
  match goal with
  | |- context [match ?x with _ => _ end] => case_on x
  end.

Ltac break_match_in H :=
  match type of H with
  | context [match ?x with _ => _ end] => case_on x
  end.

(** Turns boolean comparisons in the context into propositions. *)
Ltac boolprop :=
  repeat match goal with
  | H : _ && _ = true |- _ => apply andb_true_iff in H as [? ?]
  | H : _ || _ = false |- _ => apply orb_false_iff in H as [? ?]
  | H : negb _ = true |- _ => apply negb_true_iff in H
  | H : negb _ = false |- _ => apply negb_false_iff in H
  | H : (_ <=? _) = true |- _ => apply Z.leb_le in H
  | H : (_ <=? _) = false |- _ => apply Z.leb_gt in H
  | H : (_ <? _) = true |- _ => apply Z.ltb_lt in H
  | H : (_ <? _) = false |- _ => apply Z.ltb_ge in H
  | H : (_ =? _) = true |- _ => apply Z.eqb_eq in H
  | H : (_ =? _) = false |- _ => apply Z.eqb_neq in H
  | H : bool_decide _ = true |- _ => apply bool_decide_eq_true in H
  | H : bool_decide _ = false |- _ => apply bool_decide_eq_false in H
  end.

(** Inverts a successful chain of [let!]. *)
Ltac ok_inv H :=
  match type of H with
  | rbind ?m _ = Ok _ =>
      let E := fresh "E" in
      destruct m eqn:E; cbn [rbind] in H; [| discriminate]
  | Ok _ = Ok _ => injection H as ?; subst
  | Err _ = Ok _ => discriminate
  end.

Lemma rbind_Ok {A B} (m : result A) (f : A -> result B) b :
  rbind m f = Ok b <-> exists a, m = Ok a /\ f a = Ok b.
Proof.
  destruct m; cbn; naive_solver.
Qed.

Lemma rbind_assoc {A B C} (m : result A) (f : A -> result B) (g : B -> result C) :
  rbind (rbind m f) g = rbind m (fun a => rbind (f a) g).
Proof. by destruct m. Qed.

Lemma uassert_Ok e c u : uassert e c = Ok u <-> c = true.
Proof. unfold uassert. destruct c, u; naive_solver. Qed.

(** ** Facts about bytes *)

Lemma byte_Z_range b : 0 <= byte_Z b < 256.
Proof.
  unfold byte_Z. pose proof (Byte.to_N_bounded b). lia.
Qed.
#[global] Hint Resolve byte_Z_range : cdc.

Lemma Z_byte_Z b : Z_byte (byte_Z b) = b.
Proof.
  unfold Z_byte. rewrite Z.mod_small by apply byte_Z_range.
  unfold byte_Z. rewrite N2Z.id, Byte.of_to_N. reflexivity.
Qed.

Lemma byte_Z_byte z : byte_Z (Z_byte z) = z mod 256.
Proof.
  unfold Z_byte. pose proof (Z.mod_pos_bound z 256 ltac:(lia)) as Hb.
  destruct (Byte.of_N (Z.to_N (z mod 256))) as [b|] eqn:E.
  - apply Byte.to_of_N in E. unfold byte_Z. rewrite E. lia.
  - apply Byte.of_N_None_iff in E. lia.
Qed.

Lemma byte_Z_byte_small z : 0 <= z < 256 -> byte_Z (Z_byte z) = z.
Proof. intros. rewrite byte_Z_byte. apply Z.mod_small. lia. Qed.

#[global] Instance byte_Z_inj : Inj eq eq byte_Z.
Proof. intros a b H. rewrite <- (Z_byte_Z a), H. apply Z_byte_Z. Qed.
