(* ===== verification/Bytes.v ===== *)
(** * Byte strings: fixed-width integers, ordering, hexadecimal

    The codecs every wire format of the change stream is made of, written
    as the source writes them (shift and mask loops, or a [memcpy] of a
    native or byte-swapped integer), and the facts the components share:
    round trips, widths, and that big-endian keys compare as their numbers. *)

From S2P Require Import Prelude.

(** ** Big-endian integers *)

(** [appendBigEndian(out, value, bytes)]: the low [bytes] bytes of [value],
    most significant first. *)
Fixpoint appendBigEndian (value : Z) (n : nat) : bytes :=
  match n with
  | O => []
  | S n' => Z_byte (Z.land (Z.shiftr value (8 * Z.of_nat n')) 0xff)
            :: appendBigEndian value n'
  end.

(** One step of [value = (value << 8) | byte]. *)
Definition shift_in (acc : Z) (b : byte) : Z := Z.lor (Z.shiftl acc 8) (byte_Z b).

Definition readBigEndian (bs : bytes) : Z := foldl shift_in 0 bs.

(** ** Native (little-endian) integers

    Blob integers are written with a [reinterpret_cast] of the host value;
    the supported hosts are little-endian. *)

Fixpoint native (value : Z) (n : nat) : bytes :=
  match n with
  | O => []
  | S n' => Z_byte value :: native (Z.shiftr value 8) n'
  end.

Fixpoint readNativeBytes (bs : bytes) : Z :=
  match bs with
  | [] => 0
  | b :: bs' => byte_Z b + 256 * readNativeBytes bs'
  end.

(** ** Lexicographic order, [std::string::compare] *)

Fixpoint bytes_compare (a b : bytes) : comparison :=
  match a, b with
  | [], [] => Eq
  | [], _ :: _ => Lt
  | _ :: _, [] => Gt
  | x :: a', y :: b' =>
      match Z.compare (byte_Z x) (byte_Z y) with
      | Eq => bytes_compare a' b'
      | c => c
      end
  end.

Definition bytes_ltb (a b : bytes) : bool :=
  match bytes_compare a b with Lt => true | _ => false end.
Definition bytes_leb (a b : bytes) : bool :=
  match bytes_compare a b with Gt => false | _ => true end.
Definition bytes_eqb (a b : bytes) : bool := bool_decide (a = b).

Definition bytes_lt (a b : bytes) : Prop := bytes_ltb a b = true.

(** ** Sizes *)

Definition blen (bs : bytes) : Z := Z.of_nat (length bs).

(** ** Facts *)

Lemma blen_nonneg bs : 0 <= blen bs.
Proof. unfold blen. lia. Qed.
#[global] Hint Resolve blen_nonneg : cdc.

Lemma blen_app a b : blen (a ++ b) = blen a + blen b.
Proof. unfold blen. rewrite length_app. lia. Qed.

Lemma length_appendBigEndian v n : length (appendBigEndian v n) = n.
Proof. induction n; cbn; auto. Qed.

Lemma length_native v n : length (native v n) = n.
Proof. revert v; induction n; cbn; auto. Qed.

Lemma blen_native v n : blen (native v n) = Z.of_nat n.
Proof. unfold blen. by rewrite length_native. Qed.

Lemma shift_in_eq acc b : 0 <= acc -> shift_in acc b = 256 * acc + byte_Z b.
Proof.
  intros Ha. unfold shift_in.
  pose proof (byte_Z_range b) as Hb.
  pose proof (Z.add_lor_land (Z.shiftl acc 8) (byte_Z b)) as Hl.
  rewrite Z.shiftl_mul_pow2 in * by lia.
  enough (Z.land (acc * 2 ^ 8) (byte_Z b) = 0) by lia. clear Hl.
  apply Z.bits_inj'. intros i Hi. rewrite Z.land_spec, Z.bits_0.
  destruct (Z.lt_ge_cases i 8).
  - rewrite Z.mul_pow2_bits_low by lia. reflexivity.
  - replace (byte_Z b) with (byte_Z b mod 2 ^ 8) by (apply Z.mod_small; lia).
    rewrite Z.mod_pow2_bits_high by lia. apply andb_false_r.
Qed.

Lemma foldl_shift_in acc bs :
  0 <= acc ->
  foldl shift_in acc bs = acc * 256 ^ blen bs + readBigEndian bs.
Proof.
  unfold readBigEndian.
  assert (forall acc, 0 <= acc ->
    foldl shift_in acc bs = acc * 256 ^ blen bs + foldl shift_in 0 bs
    /\ 0 <= foldl shift_in 0 bs) as H; [|intros; apply H; auto].
  clear acc.
  induction bs as [|b bs IH]; intros acc Ha.
  { cbn [foldl]. change (blen []) with 0. lia. }
  cbn [foldl]. pose proof (byte_Z_range b).
  destruct (IH (shift_in acc b)) as [-> _]; [rewrite shift_in_eq; lia|].
  destruct (IH (shift_in 0 b)) as [-> Hn]; [rewrite shift_in_eq; lia|].
  rewrite !shift_in_eq by lia.
  replace (blen (b :: bs)) with (1 + blen bs) by (unfold blen; cbn; lia).
  rewrite Z.pow_add_r by (auto with cdc; lia).
  assert (0 <= 256 ^ blen bs) by (apply Z.pow_nonneg; lia).
  split; nia.
Qed.

Lemma readBigEndian_cons b bs :
  readBigEndian (b :: bs) = byte_Z b * 256 ^ blen bs + readBigEndian bs.
Proof.
  unfold readBigEndian at 1. cbn [foldl].
  pose proof (byte_Z_range b).
  rewrite foldl_shift_in; rewrite shift_in_eq by lia; lia.
Qed.

Lemma readBigEndian_app a b :
  readBigEndian (a ++ b) = readBigEndian a * 256 ^ blen b + readBigEndian b.
Proof.
  induction a as [|x a IH]; cbn [app].
  { cbn. lia. }
  rewrite !readBigEndian_cons, IH, blen_app, Z.pow_add_r by auto with cdc. lia.
Qed.

Lemma readBigEndian_range bs : 0 <= readBigEndian bs < 256 ^ blen bs.
Proof.
  induction bs as [|b bs IH].
  { split; reflexivity || discriminate. }
  rewrite readBigEndian_cons.
  replace (blen (b :: bs)) with (1 + blen bs) by (unfold blen; cbn; lia).
  rewrite Z.pow_add_r by (auto with cdc; lia).
  pose proof (byte_Z_range b). nia.
Qed.

Lemma land_255 z : Z.land z 0xff = z mod 256.
Proof. change 0xff with (Z.ones 8). rewrite Z.land_ones by lia. reflexivity. Qed.

Lemma readBigEndian_append v n :
  readBigEndian (appendBigEndian v n) = v mod 256 ^ Z.of_nat n.
Proof.
  induction n as [|n IH].
  { cbn. rewrite Z.mod_1_r. reflexivity. }
  cbn [appendBigEndian]. rewrite readBigEndian_cons, IH.
  unfold blen. rewrite length_appendBigEndian, land_255, byte_Z_byte.
  rewrite Zmod_mod, Z.shiftr_div_pow2 by lia.
  replace (2 ^ (8 * Z.of_nat n)) with (256 ^ Z.of_nat n)
    by (rewrite (Z.pow_mul_r 2 8); lia || reflexivity).
  rewrite Nat2Z.inj_succ, Z.pow_succ_r, (Z.mul_comm 256) by lia.
  assert (0 < 256 ^ Z.of_nat n) by (apply Z.pow_pos_nonneg; lia).
  rewrite Z.rem_mul_r by lia. lia.
Qed.

Lemma append_readBigEndian bs :
  appendBigEndian (readBigEndian bs) (length bs) = bs.
Proof.
  assert (forall k, 0 <= k ->
    appendBigEndian (k * 256 ^ blen bs + readBigEndian bs) (length bs) = bs) as H;
    [|apply (H 0); lia].
  induction bs as [|b bs IH]; intros k Hk; cbn [length appendBigEndian]; [reflexivity|].
  rewrite readBigEndian_cons.
  replace (blen (b :: bs)) with (1 + blen bs) by (unfold blen; cbn; lia).
  rewrite Z.pow_add_r, Z.pow_1_r by (auto with cdc; lia).
  pose proof (byte_Z_range b) as Hb.
  pose proof (readBigEndian_range bs) as Hr.
  f_equal.
  - rewrite land_255, Z.shiftr_div_pow2 by lia.
    replace (2 ^ (8 * Z.of_nat (length bs))) with (256 ^ blen bs)
      by (unfold blen; rewrite (Z.pow_mul_r 2 8); lia || reflexivity).
    replace (k * (256 * 256 ^ blen bs) + (byte_Z b * 256 ^ blen bs + readBigEndian bs))
      with (readBigEndian bs + (k * 256 + byte_Z b) * 256 ^ blen bs) by ring.
    rewrite Z.div_add, Z.div_small by lia.
    replace (0 + (k * 256 + byte_Z b)) with (byte_Z b + k * 256) by ring.
    rewrite Z.mod_add, Z.mod_small by lia. apply Z_byte_Z.
  - etrans; [|apply (IH (k * 256 + byte_Z b)); nia]. f_equal. ring.
Qed.

Lemma appendBigEndian_inj n a b :
  0 <= a < 256 ^ Z.of_nat n -> 0 <= b < 256 ^ Z.of_nat n ->
  appendBigEndian a n = appendBigEndian b n -> a = b.
Proof.
  intros Ha Hb H. apply (f_equal readBigEndian) in H.
  rewrite !readBigEndian_append, !Z.mod_small in H by lia. exact H.
Qed.

Lemma readNative_native v n :
  readNativeBytes (native v n) = v mod 256 ^ Z.of_nat n.
Proof.
  revert v; induction n as [|n IH]; intros v.
  { cbn. rewrite Z.mod_1_r. reflexivity. }
  cbn [native readNativeBytes]. rewrite byte_Z_byte, IH.
  rewrite Z.shiftr_div_pow2 by lia. change (2 ^ 8) with 256.
  rewrite Nat2Z.inj_succ, Z.pow_succ_r by lia.
  assert (0 < 256 ^ Z.of_nat n) by (apply Z.pow_pos_nonneg; lia).
  rewrite Z.rem_mul_r by lia. lia.
Qed.

Lemma readNative_range bs : 0 <= readNativeBytes bs < 256 ^ blen bs.
Proof.
  induction bs as [|b bs IH].
  { split; reflexivity || discriminate. }
  cbn [readNativeBytes].
  replace (blen (b :: bs)) with (1 + blen bs) by (unfold blen; cbn; lia).
  rewrite Z.pow_add_r by (auto with cdc; lia).
  pose proof (byte_Z_range b). nia.
Qed.

Lemma native_readNative bs : native (readNativeBytes bs) (length bs) = bs.
Proof.
  induction bs as [|b bs IH]; cbn [readNativeBytes native length]; [reflexivity|].
  pose proof (byte_Z_range b).
  f_equal.
  - rewrite <- (Z_byte_Z b) at 2. apply (inj byte_Z).
    rewrite !byte_Z_byte. replace (byte_Z b + 256 * readNativeBytes bs)
      with (byte_Z b + readNativeBytes bs * 256) by ring.
    apply Z.mod_add. lia.
  - rewrite Z.shiftr_div_pow2 by lia. change (2 ^ 8) with 256.
    replace (byte_Z b + 256 * readNativeBytes bs)
      with (byte_Z b + readNativeBytes bs * 256) by ring.
    rewrite Z.div_add, Z.div_small by lia. exact IH.
Qed.

(** *** The order on byte strings *)

Lemma bytes_compare_refl a : bytes_compare a a = Eq.
Proof. induction a; cbn; [|rewrite Z.compare_refl]; auto. Qed.

Lemma bytes_compare_eq a b : bytes_compare a b = Eq <-> a = b.
Proof.
  split; [|intros ->; apply bytes_compare_refl].
  revert b; induction a as [|x a IH]; intros [|y b]; cbn; try discriminate; auto.
  destruct (Z.compare_spec (byte_Z x) (byte_Z y)) as [E|E|E]; try discriminate.
  intros H. apply (inj byte_Z) in E. f_equal; auto.
Qed.

Lemma bytes_compare_antisym a b : bytes_compare b a = CompOpp (bytes_compare a b).
Proof.
  revert b; induction a as [|x a IH]; intros [|y b]; cbn; auto.
  rewrite (Z.compare_antisym (byte_Z x)). destruct (byte_Z x ?= byte_Z y)%Z; cbn; auto.
Qed.

Lemma bytes_lt_trans a b c : bytes_lt a b -> bytes_lt b c -> bytes_lt a c.
Proof.
  unfold bytes_lt, bytes_ltb.
  revert b c; induction a as [|x a IH]; intros [|y b] [|z c]; cbn; try discriminate; auto.
  destruct (Z.compare_spec (byte_Z x) (byte_Z y)) as [E|E|E]; try discriminate;
    destruct (Z.compare_spec (byte_Z y) (byte_Z z)) as [E'|E'|E']; try discriminate;
    destruct (Z.compare_spec (byte_Z x) (byte_Z z)) as [E''|E''|E''];
    try lia; eauto.
Qed.

Lemma bytes_lt_irrefl a : ~ bytes_lt a a.
Proof. unfold bytes_lt, bytes_ltb. rewrite bytes_compare_refl. discriminate. Qed.

Lemma bytes_leb_iff a b : bytes_leb a b = true <-> bytes_lt a b \/ a = b.
Proof.
  unfold bytes_leb, bytes_lt, bytes_ltb. rewrite <- bytes_compare_eq.
  destruct (bytes_compare a b); naive_solver.
Qed.

Lemma bytes_lt_asym a b : bytes_lt a b -> bytes_ltb b a = false.
Proof.
  unfold bytes_lt, bytes_ltb. rewrite (bytes_compare_antisym a b).
  destruct (bytes_compare a b); cbn; congruence.
Qed.

Lemma bytes_compare_app_eq p a b : bytes_compare (p ++ a) (p ++ b) = bytes_compare a b.
Proof. induction p; cbn; [|rewrite Z.compare_refl]; auto. Qed.

(** Equal-length prefixes decide the comparison as the numbers they spell. *)
Lemma bytes_compare_app_be a b x y :
  length a = length b ->
  bytes_compare (a ++ x) (b ++ y) =
    match Z.compare (readBigEndian a) (readBigEndian b) with
    | Eq => bytes_compare x y
    | c => c
    end.
Proof.
  revert b; induction a as [|p a IH]; intros [|q b] Hl; try discriminate; cbn [app].
  { cbn. reflexivity. }
  cbn [bytes_compare]. injection Hl as Hl. rewrite IH by auto.
  rewrite !readBigEndian_cons.
  assert (blen a = blen b) as <- by (unfold blen; lia).
  pose proof (readBigEndian_range a). pose proof (readBigEndian_range b) as Hb.
  replace (blen b) with (blen a) in Hb by (unfold blen; lia).
  assert (0 < 256 ^ blen a) by (apply Z.pow_pos_nonneg; auto with cdc; lia).
  destruct (Z.compare_spec (byte_Z p) (byte_Z q)) as [E|E|E].
  - rewrite E. destruct (Z.compare_spec (readBigEndian a) (readBigEndian b)) as [F|F|F].
    + rewrite F, Z.compare_refl. reflexivity.
    + rewrite (proj2 (Z.compare_lt_iff _ _)) by lia. reflexivity.
    + rewrite (proj2 (Z.compare_gt_iff _ _)) by lia. reflexivity.
  - rewrite (proj2 (Z.compare_lt_iff _ _)) by nia. reflexivity.
  - rewrite (proj2 (Z.compare_gt_iff _ _)) by nia. reflexivity.
Qed.

#[global] Arguments appendBigEndian : simpl never.
#[global] Arguments readBigEndian : simpl never.
#[global] Arguments native : simpl never.
#[global] Arguments readNativeBytes : simpl never.

(** Whether a bit is set. *)
Lemma land_bit a i : 0 <= i -> (Z.land a (Z.shiftl 1 i) =? 0) = negb (Z.testbit a i).
Proof.
  intros Hi. rewrite Z.shiftl_1_l. destruct (Z.testbit a i) eqn:Et; cbn [negb].
  - apply Z.eqb_neq. intros E. apply (f_equal (fun z => Z.testbit z i)) in E.
    by rewrite Z.land_spec, Z.pow2_bits_true, Et, Z.bits_0 in E by lia.
  - apply Z.eqb_eq, Z.bits_inj'. intros j Hj. rewrite Z.land_spec, Z.bits_0.
    destruct (decide (i = j)) as [<-|]; [by rewrite Et|]. by rewrite Z.pow2_bits_false, andb_false_r by lia.
Qed.
