(* ===== verification/Bson.v ===== *)
(** * BSON values

    The values the change stream builds and inspects: resume tokens, event
    documents, decoded document keys and catalog metadata. An object is its
    elements in order (src/mongo/bson/bsonobj.h); field lookup returns the
    first element of that name, as [BSONObj::getField] does. *)

From S2P Require Import Prelude Bytes.
From stdpp Require Export strings.

(** An ASCII string literal as bytes. *)
Definition lit (s : string) : bytes := String.list_byte_of_string s.
Arguments lit s%_string.

(** One constructor per [BSONType] that a decoded key, a token or an event can
    hold. A double is its IEEE bits, a decimal its two 64-bit words. *)
#[warnings="-register-all"]
Inductive bson :=
| BMinKey
| BMaxKey
| BNull
| BUndefined
| BBool (b : bool)
| BInt (z : Z)
| BLong (z : Z)
| BDouble (bits : Z)
| BDecimal (high low : Z)
| BString (s : bytes)
| BCode (s : bytes)
| BSymbol (s : bytes)
| BCodeWScope (s : bytes) (scope : list (bytes * bson))
| BBinData (subtype : Z) (data : bytes)
| BOID (oid : bytes)
| BDate (millis : Z)
| BTimestamp (ts : Z)
| BRegEx (pattern flags : bytes)
| BDBRef (ns oid : bytes)
| BObject (fields : list (bytes * bson))
| BArray (items : list (bytes * bson)).

Abbreviation Document := (list (bytes * bson)).

(** [BSONObj::getField]: the first element with that name, [None] for EOO. *)
Fixpoint getField (doc : Document) (name : bytes) : option bson :=
  match doc with
  | [] => None
  | (n, v) :: doc' => if bytes_eqb n name then Some v else getField doc' name
  end.

(** [BSONObj::nFields]. *)
Definition nFields (doc : Document) : Z := Z.of_nat (length doc).

(** ** Facts *)

Lemma bytes_eqb_eq a b : bytes_eqb a b = true <-> a = b.
Proof. apply bool_decide_eq_true. Qed.

Lemma bytes_eqb_refl a : bytes_eqb a a = true.
Proof. apply bytes_eqb_eq. reflexivity. Qed.

Lemma getField_cons_eq n v doc : getField ((n, v) :: doc) n = Some v.
Proof. cbn. rewrite bytes_eqb_refl. reflexivity. Qed.
