(* ===== verification/RawBson.v ===== *)
(** * Binary BSON: validation and reading

    [validateBSON] (src/mongo/bson/bson_validate.cpp) as the explicit machine over object frames
    the source is, and a reader of the tree that bytes hold, the meaning of [BSONObj(data)] here.
    What validates is shown to be readable in bounds; the loop is shown to end. [BsonBuilder]
    has the converse: what a builder wrote validates and reads back. *)

From S2P Require Import Prelude Bytes Bson.
#[local] Open Scope Z_scope.

(** ** Types of elements (bson/bsontypes.h) *)

Definition tMinKey : Z := -1.
Definition tEOO : Z := 0.
Definition tNumberDouble : Z := 1.
Definition tString : Z := 2.
Definition tObject : Z := 3.
Definition tArray : Z := 4.
Definition tBinData : Z := 5.
Definition tUndefined : Z := 6.
Definition tOID : Z := 7.
Definition tBool : Z := 8.
Definition tDate : Z := 9.
Definition tNULL : Z := 10.
Definition tRegEx : Z := 11.
Definition tDBRef : Z := 12.
Definition tCode : Z := 13.
Definition tSymbol : Z := 14.
Definition tCodeWScope : Z := 15.
Definition tNumberInt : Z := 16.
Definition tTimestamp : Z := 17.
Definition tNumberLong : Z := 18.
Definition tNumberDecimal : Z := 19.
Definition tMaxKey : Z := 127.

(** Two's complement readings of unsigned values. *)
Definition signed8 (z : Z) : Z := if z <? 2 ^ 7 then z else z - 2 ^ 8.
Definition signed32 (z : Z) : Z := if z <? 2 ^ 31 then z else z - 2 ^ 32.
Definition signed64 (z : Z) : Z := if z <? 2 ^ 63 then z else z - 2 ^ 64.

(** ** The buffer under validation *)

(** [Buffer]: what is left of the bytes from the position on; the position is kept to compute
    lengths. *)
Record Buffer := mkBuffer {
  b_rest : bytes;
  b_position : Z;
}.

(** [readNumber] of [n] bytes, unsigned. *)
Definition readNumber (n : nat) (b : Buffer) : option (Z * Buffer) :=
  if (length (b_rest b) <? n)%nat then None
  else Some (readNativeBytes (take n (b_rest b)),
             mkBuffer (drop n (b_rest b)) (b_position b + Z.of_nat n)).

(** The bytes before the first NUL, and those after it. *)
Fixpoint split_nul (s : bytes) : option (bytes * bytes) :=
  match s with
  | [] => None
  | c :: s' =>
      if bool_decide (c = Byte.x00) then Some ([], s')
      else match split_nul s' with
           | Some (a, r) => Some (c :: a, r)
           | None => None
           end
  end.

Definition readCString (b : Buffer) : option (bytes * Buffer) :=
  match split_nul (b_rest b) with
  | None => None
  | Some (s, r) => Some (s, mkBuffer r (b_position b + blen s + 1))
  end.

(** [skip]: false at or past the end, strictly. *)
Definition skip (n : Z) (b : Buffer) : option Buffer :=
  if blen (b_rest b) <=? n then None
  else Some (mkBuffer (drop (Z.to_nat n) (b_rest b)) (b_position b + n)).

Definition readUTF8String (b : Buffer) : option Buffer :=
  match readNumber 4 b with
  | None => None
  | Some (sz, b) =>
      let sz := signed32 sz in
      if sz <=? 0 then None else
      match skip (sz - 1) b with
      | None => None
      | Some b =>
          match readNumber 1 b with
          | None => None
          | Some (c, b) => if c =? 0 then Some b else None
          end
      end
  end.

(** ** The validation machine *)

Inductive VState := BeginObj | WithinObj | EndObj | BeginCodeWScope | EndCodeWScope.

Record Frame := mkFrame {
  f_start : Z;
  f_isCodeWithScope : bool;
  f_expectedSize : Z;
}.

(** [setStartPosition]: 31 bits of the position. *)
Definition startPosition (pos : Z) : Z := Z.land pos (2 ^ 31 - 1).

(** [validateElementInfo]: what the element leads to next, and the buffer after it. *)
Definition validateElementInfo (b : Buffer) : option (VState * Buffer) :=
  match readNumber 1 b with
  | None => None
  | Some (t, b) =>
      let type := signed8 t in
      if type =? tEOO then Some (EndObj, b) else
      match readCString b with
      | None => None
      | Some (_, b) =>
          let within o := match o with Some b => Some (WithinObj, b) | None => None end in
          if (type =? tMinKey) || (type =? tMaxKey) || (type =? tNULL) || (type =? tUndefined)
          then Some (WithinObj, b)
          else if type =? tOID then within (skip 12 b)
          else if type =? tNumberInt then within (skip 4 b)
          else if type =? tBool then
            match readNumber 1 b with
            | None => None
            | Some (v, b) => if (v =? 0) || (v =? 1) then Some (WithinObj, b) else None
            end
          else if (type =? tNumberDouble) || (type =? tNumberLong) || (type =? tTimestamp) || (type =? tDate)
          then within (skip 8 b)
          else if type =? tNumberDecimal then within (skip 16 b)
          else if type =? tDBRef then
            match readUTF8String b with None => None | Some b => within (skip 12 b) end
          else if type =? tRegEx then
            match readCString b with
            | None => None
            | Some (_, b) => match readCString b with None => None | Some (_, b) => Some (WithinObj, b) end
            end
          else if (type =? tCode) || (type =? tSymbol) || (type =? tString) then within (readUTF8String b)
          else if type =? tBinData then
            match readNumber 4 b with
            | None => None
            | Some (sz, b) =>
                let sz := signed32 sz in
                if (sz <? 0) || (sz =? 2 ^ 31 - 1) then None else within (skip (1 + sz) b)
            end
          else if type =? tCodeWScope then Some (BeginCodeWScope, b)
          else if (type =? tObject) || (type =? tArray) then Some (BeginObj, b)
          else None
      end
  end.

(** Whether the object or code-with-scope that ends here has the size its header says. *)
Definition length_matches (b : Buffer) (f : Frame) : bool :=
  signed32 (wrap32 (b_position b - f_start f)) =? f_expectedSize f.

(** One round of [validateBSONIterative]; [None] is an error, [Some None] the end. *)
Definition validate_round (maxDepth : Z) (state : VState) (frames : list Frame) (b : Buffer)
    : option (option (VState * list Frame * Buffer)) :=
  let within frames b :=
    match validateElementInfo b with
    | None => None
    | Some (next, b) => Some (Some (next, frames, b))
    end in
  match state with
  | BeginObj =>
      if maxDepth <? Z.of_nat (length frames) then None else
      match readNumber 4 b with
      | None => None
      | Some (sz, b') =>
          within (mkFrame (startPosition (b_position b)) false (signed32 sz) :: frames) b'
      end
  | WithinObj => within frames b
  | EndObj =>
      match frames with
      | [] => None
      | f :: frames' =>
          if negb (length_matches b f) then None else
          match frames' with
          | [] => Some None
          | f' :: _ =>
              Some (Some (if f_isCodeWithScope f' then EndCodeWScope else WithinObj, frames', b))
          end
      end
  | BeginCodeWScope =>
      match readNumber 4 b with
      | None => None
      | Some (sz, b') =>
          match readUTF8String b' with
          | None => None
          | Some b'' =>
              Some (Some (BeginObj,
                mkFrame (startPosition (b_position b)) true (signed32 sz) :: frames, b''))
          end
      end
  | EndCodeWScope =>
      match frames with
      | [] => None
      | f :: frames' =>
          if negb (length_matches b f) then None else
          match frames' with
          | [] => None
          | _ => Some (Some (WithinObj, frames', b))
          end
      end
  end.

(** The loop. A round consumes a byte or pops a frame, so twice the length and a little more
    rounds are enough. *)
Fixpoint validateBSONIterative (fuel : nat) (maxDepth : Z) (state : VState) (frames : list Frame)
    (b : Buffer) : bool :=
  match fuel with
  | O => false
  | S fuel =>
      match validate_round maxDepth state frames b with
      | None => false
      | Some None => true
      | Some (Some (state, frames, b)) => validateBSONIterative fuel maxDepth state frames b
      end
  end.

Definition validate_fuel (data : bytes) : nat := S (S (2 * length data)).

Definition validateBSON (maxDepth : Z) (data : bytes) : bool :=
  if blen data <? 5 then false
  else validateBSONIterative (validate_fuel data) maxDepth BeginObj [] (mkBuffer data 0).

(** ** Reading elements *)

(** The first [n] bytes and the rest. *)
Definition cut (n : nat) (s : bytes) : option (bytes * bytes) :=
  if (length s <? n)%nat then None else Some (take n s, drop n s).

(** A little-endian unsigned number of [n] bytes. *)
Definition le (n : nat) (s : bytes) : option (Z * bytes) :=
  match cut n s with Some (a, r) => Some (readNativeBytes a, r) | None => None end.

(** A length-prefixed, NUL-terminated string. *)
Definition read_string (s : bytes) : option (bytes * bytes) :=
  match le 4 s with
  | None => None
  | Some (sz, s) =>
      let sz := signed32 sz in
      if sz <=? 0 then None else
      match cut (Z.to_nat (sz - 1)) s with
      | None => None
      | Some (v, s) =>
          match s with
          | c :: s => if bool_decide (c = Byte.x00) then Some (v, s) else None
          | [] => None
          end
      end
  end.

(** Values that hold no other elements. *)
Definition read_scalar (type : Z) (s : bytes) : option (bson * bytes) :=
  let number n (mk : Z -> bson) := match le n s with Some (z, r) => Some (mk z, r) | None => None end in
  let string (mk : bytes -> bson) := match read_string s with Some (v, r) => Some (mk v, r) | None => None end in
  if type =? tMinKey then Some (BMinKey, s)
  else if type =? tMaxKey then Some (BMaxKey, s)
  else if type =? tNULL then Some (BNull, s)
  else if type =? tUndefined then Some (BUndefined, s)
  else if type =? tOID then match cut 12 s with Some (o, r) => Some (BOID o, r) | None => None end
  else if type =? tNumberInt then number 4%nat (fun z => BInt (signed32 z))
  else if type =? tBool then
    match le 1 s with
    | Some (v, r) => if v =? 0 then Some (BBool false, r) else if v =? 1 then Some (BBool true, r) else None
    | None => None
    end
  else if type =? tNumberDouble then number 8%nat BDouble
  else if type =? tNumberLong then number 8%nat (fun z => BLong (signed64 z))
  else if type =? tTimestamp then number 8%nat BTimestamp
  else if type =? tDate then number 8%nat (fun z => BDate (signed64 z))
  else if type =? tNumberDecimal then
    match le 8 s with
    | Some (low, r) => match le 8 r with Some (high, r) => Some (BDecimal high low, r) | None => None end
    | None => None
    end
  else if type =? tDBRef then
    match read_string s with
    | Some (ns, r) => match cut 12 r with Some (o, r) => Some (BDBRef ns o, r) | None => None end
    | None => None
    end
  else if type =? tRegEx then
    match split_nul s with
    | Some (p, r) => match split_nul r with Some (f, r) => Some (BRegEx p f, r) | None => None end
    | None => None
    end
  else if type =? tCode then string BCode
  else if type =? tSymbol then string BSymbol
  else if type =? tString then string BString
  else if type =? tBinData then
    match le 4 s with
    | Some (sz, r) =>
        let sz := signed32 sz in
        if sz <? 0 then None else
        match le 1 r with
        | Some (sub, r) => match cut (Z.to_nat sz) r with Some (d, r) => Some (BBinData sub d, r) | None => None end
        | None => None
        end
    | None => None
    end
  else None.

Section Nested.

(** How the elements of a nested object are read. *)
Context (elements : bytes -> option (Document * bytes)).

(** An object: its size, its elements, and the size checked against what was read. *)
Definition read_object_with (s : bytes) : option (Document * bytes) :=
  match le 4 s with
  | None => None
  | Some (sz, r) =>
      match elements r with
      | None => None
      | Some (doc, r) => if blen s - blen r =? signed32 sz then Some (doc, r) else None
      end
  end.

Definition read_value_with (type : Z) (s : bytes) : option (bson * bytes) :=
  if type =? tObject then
    match read_object_with s with Some (d, r) => Some (BObject d, r) | None => None end
  else if type =? tArray then
    match read_object_with s with Some (d, r) => Some (BArray d, r) | None => None end
  else if type =? tCodeWScope then
    match le 4 s with
    | None => None
    | Some (total, r) =>
        match read_string r with
        | None => None
        | Some (code, r) =>
            match read_object_with r with
            | None => None
            | Some (d, r) =>
                if blen s - blen r =? signed32 total then Some (BCodeWScope code d, r) else None
            end
        end
    end
  else read_scalar type s.
End Nested.

(** Elements up to the end of the object. Each element takes a byte at least, so the length of
    the bytes is enough fuel. *)
Fixpoint read_elements (fuel : nat) (s : bytes) : option (Document * bytes) :=
  match fuel with
  | O => None
  | S fuel =>
      match le 1 s with
      | None => None
      | Some (t, s) =>
          if signed8 t =? tEOO then Some ([], s) else
          match split_nul s with
          | None => None
          | Some (name, s) =>
              match read_value_with (read_elements fuel) (signed8 t) s with
              | None => None
              | Some (v, s) =>
                  match read_elements fuel s with
                  | None => None
                  | Some (doc, s) => Some ((name, v) :: doc, s)
                  end
              end
          end
      end
  end.

Definition read_object (fuel : nat) (s : bytes) : option (Document * bytes) :=
  read_object_with (read_elements fuel) s.

(** [BSONObj(data)], for bytes that hold an object: its elements. *)
Definition BSONObj (data : bytes) : option Document :=
  match read_object (length data) data with Some (doc, _) => Some doc | None => None end.

Definition BSONObjMaxUserSize : Z := 16 * 1024 * 1024.
Definition BSONObjMaxInternalSize : Z := BSONObjMaxUserSize + 16 * 1024.

(** [BSONObj::init] on a pointer to an object: its size is checked, its elements are not; bytes that
    are no object are outside what the source defines, an invariant here. *)
Definition BSONObj_init (data : bytes) : result Document :=
  let size := signed32 (readNativeBytes (take 4 data)) in
  let! _ := uassert BSONObjInvalidSize ((0 <? size) && (size <=? BSONObjMaxInternalSize)) in
  match BSONObj data with Some doc => Ok doc | None => Err InvariantFailure end.

(** * Facts *)

(** ** What reading consumes *)

Lemma cut_length n s a r : cut n s = Some (a, r) -> length s = (n + length r)%nat /\ length a = n.
Proof.
  unfold cut. destruct (Nat.ltb_spec (length s) n); [done|]. intros [= <- <-].
  rewrite length_drop, length_take. lia.
Qed.

Lemma le_length n s z r : le n s = Some (z, r) -> length s = (n + length r)%nat.
Proof.
  unfold le. destruct (cut n s) as [[a r']|] eqn:E; [|done]. intros [= _ <-].
  by apply cut_length in E as [? _].
Qed.

Lemma split_nul_length s a r : split_nul s = Some (a, r) -> length s = (S (length a) + length r)%nat.
Proof.
  revert a. induction s as [|c s IH]; intros a H; cbn in H; [done|].
  destruct (bool_decide (c = Byte.x00)); [injection H as <- <-; cbn; lia|].
  destruct (split_nul s) as [[a' r']|]; [|done]. injection H as <- <-. specialize (IH a' eq_refl). cbn. lia.
Qed.

Lemma read_string_length s v r : read_string s = Some (v, r) -> (length r < length s)%nat.
Proof.
  unfold read_string. destruct (le 4 s) as [[z s1]|] eqn:E; [|done]. apply le_length in E.
  destruct (signed32 z <=? 0); [done|].
  destruct (cut _ s1) as [[a s2]|] eqn:E2; [|done]. apply cut_length in E2 as [E2 _].
  destruct s2 as [|c s2]; [done|]. case_bool_decide; [|done]. intros [= _ <-]. cbn in *. lia.
Qed.

Ltac lengths :=
  repeat match goal with
  | H : cut _ _ = Some _ |- _ => apply cut_length in H as [? _]
  | H : le _ _ = Some _ |- _ => apply le_length in H
  | H : split_nul _ = Some _ |- _ => apply split_nul_length in H
  | H : read_string _ = Some _ |- _ => apply read_string_length in H
  end.

(** Opens the tests and reads a successful reading went through. *)
Ltac peel H :=
  repeat match type of H with
  | (if ?b then _ else _) = Some _ => destruct b
  | match ?x with Some _ => _ | None => _ end = Some _ =>
      let E := fresh "E" in destruct x as [[? ?]|] eqn:E; [|discriminate H]
  | None = Some _ => discriminate H
  end.

Lemma read_scalar_length type s v r : read_scalar type s = Some (v, r) -> (length r <= length s)%nat.
Proof.
  unfold read_scalar. intros H. peel H; injection H as _ <-; lengths; lia.
Qed.

Lemma read_object_with_spec elems s doc r :
  read_object_with elems s = Some (doc, r) <->
  exists sz s1, le 4 s = Some (sz, s1) /\ elems s1 = Some (doc, r) /\ blen s - blen r = signed32 sz.
Proof.
  unfold read_object_with. split.
  - destruct (le 4 s) as [[sz s1]|]; [|done]. destruct (elems s1) as [[d r']|] eqn:E; [|done].
    destruct (Z.eqb_spec (blen s - blen r') (signed32 sz)); [|done]. intros [= <- <-]. eauto 10.
  - intros (sz & s1 & -> & -> & E). by rewrite (proj2 (Z.eqb_eq _ _) E).
Qed.

(** Reading a value asks for nested elements only of shorter bytes. *)
Lemma read_value_with_mono elems elems' type s x :
  (forall s' y, (length s' < length s)%nat -> elems s' = Some y -> elems' s' = Some y) ->
  read_value_with elems type s = Some x -> read_value_with elems' type s = Some x.
Proof.
  intros He. unfold read_value_with.
  assert (forall s' y, (length s' <= length s)%nat ->
    read_object_with elems s' = Some y -> read_object_with elems' s' = Some y) as Ho.
  { intros s' [d r] Hl (sz & s1 & E1 & E2 & E3)%read_object_with_spec.
    apply read_object_with_spec. exists sz, s1. split_and!; [done| |done].
    apply He; [apply le_length in E1; lia|done]. }
  destruct (type =? tObject); [|destruct (type =? tArray); [|destruct (type =? tCodeWScope); [|done]]].
  1, 2: destruct (read_object_with elems s) as [[d r]|] eqn:E; [|done]; by rewrite (Ho s _ ltac:(lia) E).
  destruct (le 4 s) as [[t s1]|] eqn:E1; [|done]. destruct (read_string s1) as [[c s2]|] eqn:E2; [|done].
  destruct (read_object_with elems s2) as [[d r]|] eqn:E; [|done].
  lengths. by rewrite (Ho s2 _ ltac:(lia) E).
Qed.

Lemma read_value_with_length elems type s v r :
  (forall s' d r', elems s' = Some (d, r') -> (length r' < length s')%nat) ->
  read_value_with elems type s = Some (v, r) -> (length r <= length s)%nat.
Proof.
  intros He. unfold read_value_with.
  assert (forall s' d r', read_object_with elems s' = Some (d, r') -> (length r' < length s')%nat) as Ho.
  { intros s' d r' (sz & s1 & E1 & E2 & E3)%read_object_with_spec. apply He in E2. lengths. lia. }
  destruct (type =? tObject); [|destruct (type =? tArray); [|destruct (type =? tCodeWScope)]].
  1, 2: destruct (read_object_with elems s) as [[d r']|] eqn:E; [|done]; intros [= _ <-]; apply Ho in E; lia.
  - destruct (le 4 s) as [[t s1]|] eqn:E1; [|done]. destruct (read_string s1) as [[c s2]|] eqn:E2; [|done].
    destruct (read_object_with elems s2) as [[d r']|] eqn:E; [|done]. destruct (_ =? _); [|done].
    intros [= _ <-]. apply Ho in E. lengths. lia.
  - apply read_scalar_length.
Qed.

Lemma read_elements_length fuel s doc r :
  read_elements fuel s = Some (doc, r) -> (length r < length s)%nat.
Proof.
  revert s doc r. induction fuel as [|fuel IH]; intros s doc r H; [done|]. cbn [read_elements] in H.
  destruct (le 1 s) as [[t s1]|] eqn:E1; [|done].
  destruct (signed8 t =? tEOO); [injection H as _ <-; lengths; lia|].
  destruct (split_nul s1) as [[name s2]|] eqn:E2; [|done].
  destruct (read_value_with _ _ s2) as [[v s3]|] eqn:Ev; [|done].
  destruct (read_elements fuel s3) as [[doc' s4]|] eqn:Er; [|done]. injection H as _ <-.
  apply read_value_with_length in Ev; [|done]. apply IH in Er. lengths. lia.
Qed.

(** The fuel only has to reach the length of the bytes. *)
Lemma read_elements_fuel fuel fuel' s x :
  read_elements fuel s = Some x -> (length s <= fuel')%nat -> read_elements fuel' s = Some x.
Proof.
  revert fuel' s x. induction fuel as [|fuel IH]; intros fuel' s x H Hf; [done|].
  cbn [read_elements] in H. destruct (le 1 s) as [[t s1]|] eqn:E1; [|done].
  pose proof (le_length _ _ _ _ E1) as L1. destruct fuel' as [|fuel']; [lia|].
  cbn [read_elements]. rewrite E1. destruct (signed8 t =? tEOO); [done|].
  destruct (split_nul s1) as [[name s2]|] eqn:E2; [|done].
  pose proof (split_nul_length _ _ _ E2) as L2.
  destruct (read_value_with (read_elements fuel) _ s2) as [[v s3]|] eqn:Ev; [|done].
  rewrite (read_value_with_mono (read_elements fuel) (read_elements fuel') _ _ (v, s3)); [|eauto with lia|done].
  apply read_value_with_length in Ev; [|apply read_elements_length].
  destruct (read_elements fuel s3) as [[doc s4]|] eqn:Er; [|done].
  by rewrite (IH fuel' s3 _ Er ltac:(lia)).
Qed.

(** ** The validator's buffer and the reader *)

(** The buffer is a suffix of [n] bytes at its position. *)
Definition at_end (n : Z) (b : Buffer) : Prop :=
  0 <= b_position b /\ b_position b + blen (b_rest b) = n.

Lemma readNumber_le k b z b' n :
  readNumber k b = Some (z, b') -> at_end n b ->
  le k (b_rest b) = Some (z, b_rest b') /\ at_end n b'.
Proof.
  unfold readNumber, le, cut, at_end, blen. destruct (Nat.ltb_spec (length (b_rest b)) k); [done|].
  intros [= <- <-] Hn. cbn. split; [done|]. rewrite length_drop. lia.
Qed.

Lemma readCString_nul b a b' n :
  readCString b = Some (a, b') -> at_end n b ->
  split_nul (b_rest b) = Some (a, b_rest b') /\ at_end n b'.
Proof.
  unfold readCString, at_end. destruct (split_nul (b_rest b)) as [[x r]|] eqn:E; [|done].
  intros [= <- <-] Hn. split; [done|]. apply split_nul_length in E. unfold blen in *. cbn. lia.
Qed.

Lemma skip_cut k b b' n :
  skip k b = Some b' -> 0 <= k -> at_end n b ->
  (exists a, cut (Z.to_nat k) (b_rest b) = Some (a, b_rest b')) /\ at_end n b'.
Proof.
  unfold skip, cut, at_end, blen. destruct (Z.leb_spec (Z.of_nat (length (b_rest b))) k); [done|].
  intros [= <-] Hk Hn. cbn [b_rest b_position].
  destruct (Nat.ltb_spec (length (b_rest b)) (Z.to_nat k)); [lia|].
  split; [by eexists|]. rewrite length_drop. lia.
Qed.

Lemma le_one s z r : le 1 s = Some (z, r) -> exists c, s = c :: r /\ z = byte_Z c.
Proof.
  unfold le, cut. destruct s as [|c s]; [done|].
  cbn [length Nat.ltb Nat.leb take drop readNativeBytes]. intros [= <- <-]. exists c.
  rewrite drop_0. split; [done|].
  change (byte_Z c + 256 * 0 = byte_Z c). lia.
Qed.

Lemma readUTF8String_string b b' n :
  readUTF8String b = Some b' -> at_end n b ->
  (exists v, read_string (b_rest b) = Some (v, b_rest b')) /\ at_end n b'.
Proof.
  intros H Hn. unfold readUTF8String in H.
  destruct (readNumber 4 b) as [[sz b1]|] eqn:E1; [|done].
  destruct (readNumber_le _ _ _ _ n E1 Hn) as [L1 N1].
  destruct (Z.leb_spec (signed32 sz) 0) as [|Hsz]; [done|].
  destruct (skip (signed32 sz - 1) b1) as [b2|] eqn:E2; [|done].
  destruct (skip_cut _ _ _ n E2 ltac:(lia) N1) as [[a L2] N2].
  destruct (readNumber 1 b2) as [[c b3]|] eqn:E3; [|done].
  destruct (readNumber_le _ _ _ _ n E3 N2) as [L3 N3].
  destruct (Z.eqb_spec c 0) as [->|]; [|done]. injection H as <-. split; [|done].
  apply le_one in L3 as (x & Ex & Ez). exists a. unfold read_string. rewrite L1.
  rewrite (proj2 (Z.leb_gt _ _)) by done. rewrite L2, Ex, bool_decide_eq_true_2; [done|].
  apply byte_Z_inj. by rewrite <- Ez.
Qed.

(** Types whose values hold no elements. *)
Definition is_scalar (type : Z) : Prop := type <> tObject /\ type <> tArray /\ type <> tCodeWScope.

(** What one element is, for each state the validator goes to next. *)
Definition element_is (s : bytes) (next : VState) (rest : bytes) : Prop :=
  exists t s1, le 1 s = Some (t, s1) /\
  match next with
  | EndObj => signed8 t = tEOO /\ rest = s1
  | EndCodeWScope => False
  | _ =>
      signed8 t <> tEOO /\ exists name s2, split_nul s1 = Some (name, s2) /\
      match next with
      | WithinObj => is_scalar (signed8 t) /\ exists v, read_scalar (signed8 t) s2 = Some (v, rest)
      | BeginObj => (signed8 t = tObject \/ signed8 t = tArray) /\ rest = s2
      | _ => signed8 t = tCodeWScope /\ rest = s2
      end
  end.


Lemma cut_app n m s a r : cut (n + m) s = Some (a, r) ->
  exists a1 a2 r1, cut n s = Some (a1, r1) /\ cut m r1 = Some (a2, r).
Proof.
  unfold cut. destruct (Nat.ltb_spec (length s) (n + m)); [done|]. intros [= <- <-].
  destruct (Nat.ltb_spec (length s) n); [lia|].
  do 3 eexists. split; [done|]. rewrite length_drop.
  destruct (Nat.ltb_spec (length s - n) m); [lia|]. rewrite drop_drop. done.
Qed.

Lemma cut_le n s a r : cut n s = Some (a, r) -> le n s = Some (readNativeBytes a, r).
Proof. unfold le. intros ->. done. Qed.

(** [type] is one of the listed ones. *)
Ltac known type :=
  repeat match goal with
  | E : (_ || _) = true |- _ => apply orb_true_iff in E as [E|E]
  end;
  match goal with E : (type =? _) = true |- _ => apply Z.eqb_eq in E; subst type end.

(** The value of a known type from what was cut for it. *)
Ltac scalar_read :=
  split; [repeat split; discriminate|]; unfold read_scalar, le in *;
  repeat match goal with
  | H : context [Z.to_nat (Zpos ?p)] |- _ =>
      let m := eval compute in (Z.to_nat (Zpos p)) in change (Z.to_nat (Zpos p)) with m in H
  | H : ?f = Some _ |- context [?f] => rewrite H
  | H : (?x =? ?y) = _ |- context [?x =? ?y] => rewrite H
  | H : (?x <? ?y) = _ |- context [?x <? ?y] => rewrite H
  end; eexists; reflexivity.

(** One read of the validator's buffer in [H], and the reader's. *)
Ltac step_over H n :=
  match type of H with
  | context [skip ?k ?b] =>
      let E := fresh in
      destruct (skip k b) as [?|] eqn:E; [|discriminate H];
      apply (skip_cut _ _ _ n) in E as [[? ?] ?]; [|lia|assumption]
  | context [readNumber ?k ?b] =>
      let E := fresh in
      destruct (readNumber k b) as [[? ?]|] eqn:E; [|discriminate H];
      apply (readNumber_le _ _ _ _ n) in E as [? ?]; [|assumption]
  | context [readCString ?b] =>
      let E := fresh in
      destruct (readCString b) as [[? ?]|] eqn:E; [|discriminate H];
      apply (readCString_nul _ _ _ n) in E as [? ?]; [|assumption]
  | context [readUTF8String ?b] =>
      let E := fresh in
      destruct (readUTF8String b) as [?|] eqn:E; [|discriminate H];
      apply (readUTF8String_string _ _ n) in E as [[? ?] ?]; [|assumption]
  | (if ?x || ?y then _ else _) = Some _ => destruct x eqn:?, y eqn:?; cbn [orb] in H; try discriminate H
  end.

(** The validator's step over a value, as a step of the reader. *)
Definition steps_to (type : Z) (b : Buffer) (next : VState) (rest : bytes) : Prop :=
  match next with
  | WithinObj => is_scalar type /\ exists v, read_scalar type (b_rest b) = Some (v, rest)
  | BeginObj => (type = tObject \/ type = tArray) /\ rest = b_rest b
  | BeginCodeWScope => type = tCodeWScope /\ rest = b_rest b
  | _ => False
  end.

Lemma validateElementInfo_spec b next b' n :
  validateElementInfo b = Some (next, b') -> at_end n b ->
  element_is (b_rest b) next (b_rest b') /\ at_end n b'.
Proof.
  intros H Hn. unfold validateElementInfo in H.
  destruct (readNumber 1 b) as [[t b1]|] eqn:E1; [|done].
  destruct (readNumber_le _ _ _ _ n E1 Hn) as [L1 N1].
  destruct (Z.eqb_spec (signed8 t) tEOO) as [Et|Hne].
  { injection H as <- <-. split; [|done]. by exists t, (b_rest b1). }
  destruct (readCString b1) as [[name b2]|] eqn:E2; [|done].
  destruct (readCString_nul _ _ _ n E2 N1) as [L2 N2].
  enough (steps_to (signed8 t) b2 next (b_rest b') /\ at_end n b') as [Hs Hb].
  { split; [|done]. exists t, (b_rest b1). split; [done|].
    destruct next; try done; (split; [done|]); exists name, (b_rest b2); done. }
  revert H. clear -N2. generalize (signed8 t) as type. intros type H.
  repeat match type of H with
  | (if (type =? _) then _ else _) = Some _ => destruct (_ =? _) eqn:? in H
  | (if ((type =? _) || _) then _ else _) = Some _ => destruct ((_ || _)) eqn:? in H
  | (if (_ || (type =? _)) then _ else _) = Some _ => destruct ((_ || _)) eqn:? in H
  end; try done.
  all: known type.
  all: repeat step_over H n.
  all: injection H as <- <-; (split; [|assumption]); cbn [steps_to].
  all: try (split; [by auto|reflexivity]).
  all: try scalar_read.
  - match goal with C : cut _ _ = _ |- _ => apply (cut_app 8 8) in C as (a1 & a2 & r & C1 & C2) end.
    scalar_read.
  - match goal with C : cut (Z.to_nat (1 + ?k)) _ = _, K : (?k <? 0) = false |- _ =>
      rewrite (Z2Nat.inj_add 1 k) in C by first [discriminate|by apply Z.ltb_ge];
      apply (cut_app 1) in C as (a1 & a2 & r & C1 & C2) end.
    scalar_read.
Qed.

(** ** What the validator accepts is an object *)

(** The elements of bytes, with the fuel they need. *)
Definition elements (s : bytes) : option (Document * bytes) := read_elements (length s) s.

Lemma elements_end s t r : le 1 s = Some (t, r) -> signed8 t = tEOO -> elements s = Some ([], r).
Proof.
  intros E Et. unfold elements. pose proof (le_length _ _ _ _ E).
  destruct (length s); [lia|]. cbn [read_elements]. rewrite E, (proj2 (Z.eqb_eq _ _) Et). done.
Qed.

Lemma elements_cons s t s1 name s2 v s3 doc r :
  le 1 s = Some (t, s1) -> signed8 t <> tEOO -> split_nul s1 = Some (name, s2) ->
  read_value_with elements (signed8 t) s2 = Some (v, s3) -> elements s3 = Some (doc, r) ->
  elements s = Some ((name, v) :: doc, r).
Proof.
  intros E1 Et E2 E3 E4. unfold elements at 1.
  pose proof (le_length _ _ _ _ E1). pose proof (split_nul_length _ _ _ E2).
  destruct (length s) as [|fuel] eqn:El; [lia|]. cbn [read_elements].
  rewrite E1, (proj2 (Z.eqb_neq _ _) Et), E2.
  rewrite (read_value_with_mono elements (read_elements fuel) _ _ (v, s3)); [| |done].
  - apply read_value_with_length in E3; [|intros s' d r'; apply read_elements_length].
    by rewrite (read_elements_fuel _ fuel _ _ E4 ltac:(lia)).
  - intros s' y Hs Hy. eapply read_elements_fuel; [exact Hy|lia].
Qed.

Lemma read_scalar_value elems type s x :
  is_scalar type -> read_scalar type s = Some x -> read_value_with elems type s = Some x.
Proof.
  intros (H1 & H2 & H3) H. unfold read_value_with.
  by rewrite !(proj2 (Z.eqb_neq _ _)).
Qed.

Lemma startPosition_small pos : 0 <= pos < 2 ^ 31 -> startPosition pos = pos.
Proof.
  intros H. unfold startPosition. change (2 ^ 31 - 1) with (Z.ones 31).
  rewrite Z.land_ones, Z.mod_small by lia. done.
Qed.

Section Sound.

Context (maxDepth n : Z) (Hn : n < 2 ^ 31).

Abbreviation run := (fun fuel => validateBSONIterative fuel maxDepth).

(** The innermost frame is an object's. *)
Definition in_object (frames : list Frame) : Prop :=
  exists f fs, frames = f :: fs /\ f_isCodeWithScope f = false.

(** From the start of an object's elements the validator reads them to the object's end. *)
Definition within_sound (fuel : nat) : Prop :=
  forall frames b, in_object frames -> run fuel WithinObj frames b = true -> at_end n b ->
  exists fuel' doc b', (fuel' < fuel)%nat /\ elements (b_rest b) = Some (doc, b_rest b') /\
    at_end n b' /\ run fuel' EndObj frames b' = true.

(** What is left of the run after an object nested in [frames]. *)
Definition resumes (fuel : nat) (frames : list Frame) (b : Buffer) : Prop :=
  match frames with
  | [] => True
  | f :: _ => exists fuel', (fuel' < fuel)%nat /\
      run fuel' (if f_isCodeWithScope f then EndCodeWScope else WithinObj) frames b = true
  end.

Lemma signed32_wrap z : - 2 ^ 31 <= z < 2 ^ 31 -> signed32 (wrap32 z) = z.
Proof.
  intros H. unfold signed32, wrap32. destruct (Z.lt_ge_cases z 0) as [Hz|Hz].
  - replace (z mod 2 ^ 32) with (z + 2 ^ 32).
    + rewrite (proj2 (Z.ltb_ge _ _)) by lia. lia.
    + symmetry. rewrite <- (Z.mod_add z 1) by lia. apply Z.mod_small. lia.
  - rewrite Z.mod_small by lia. by rewrite (proj2 (Z.ltb_lt _ _)) by lia.
Qed.

Lemma matches_length b b' sz :
  at_end n b -> at_end n b' -> forall code,
  length_matches b' (mkFrame (startPosition (b_position b)) code sz) = true ->
  blen (b_rest b) - blen (b_rest b') = sz.
Proof.
  intros [P1 Q1] [P2 Q2] code H. unfold length_matches in H. cbn in H. apply Z.eqb_eq in H.
  rewrite startPosition_small in H by (unfold blen in *; lia).
  rewrite signed32_wrap in H by (unfold blen in *; lia). lia.
Qed.

Lemma new_in_object start size frames : in_object (mkFrame start false size :: frames).
Proof. do 2 eexists. done. Qed.

Lemma object_sound fuel frames b :
  within_sound fuel -> run fuel BeginObj frames b = true -> at_end n b ->
  exists doc b', read_object_with elements (b_rest b) = Some (doc, b_rest b') /\
    at_end n b' /\ resumes fuel frames b'.
Proof.
  intros IH H Hb. destruct fuel as [|fuel]; [done|].
  cbn [validateBSONIterative validate_round] in H.
  destruct (maxDepth <? _); [done|]. destruct (readNumber 4 b) as [[sz b1]|] eqn:E; [|done].
  destruct (readNumber_le _ _ _ _ _ E Hb) as [L1 N1].
  destruct (IH _ b1 (new_in_object _ _ _) H N1) as (fuel' & doc & b2 & Hf & Hd & N2 & H2).
  destruct fuel' as [|fuel']; [done|]. cbn [validateBSONIterative validate_round] in H2.
  destruct (length_matches b2 _) eqn:El; [|done]. cbn [negb] in H2.
  apply matches_length in El; [|done..].
  exists doc, b2. split_and!; [|done|].
  - apply read_object_with_spec. eauto.
  - destruct frames; [done|]. exists fuel'. split; [lia|done].
Qed.

Lemma code_sound fuel f fs b :
  (forall fuel', (fuel' <= fuel)%nat -> within_sound fuel') -> f_isCodeWithScope f = false ->
  run fuel BeginCodeWScope (f :: fs) b = true -> at_end n b ->
  exists v b' fuel', read_value_with elements tCodeWScope (b_rest b) = Some (v, b_rest b') /\
    at_end n b' /\ (fuel' < fuel)%nat /\ run fuel' WithinObj (f :: fs) b' = true.
Proof.
  intros IH Hf H Hb. destruct fuel as [|fuel]; [done|]. cbn [validateBSONIterative validate_round] in H.
  destruct (readNumber 4 b) as [[sz b1]|] eqn:E; [|done].
  destruct (readNumber_le _ _ _ _ _ E Hb) as [L1 N1].
  destruct (readUTF8String b1) as [b2|] eqn:E2; [|done].
  destruct (readUTF8String_string _ _ _ E2 N1) as [[code L2] N2].
  destruct (object_sound _ _ b2 (IH fuel ltac:(lia)) H N2) as (doc & b3 & Ho & N3 & fuel' & Hf' & H3).
  cbn [f_isCodeWithScope] in H3. destruct fuel' as [|fuel']; [done|].
  cbn [validateBSONIterative validate_round] in H3.
  destruct (length_matches b3 _) eqn:El; [|done]. cbn [negb] in H3.
  apply matches_length in El; [|done..].
  exists (BCodeWScope code doc), b3, fuel'. split_and!; [|done|lia|done].
  unfold read_value_with. cbn [Z.eqb tCodeWScope tObject tArray Pos.eqb].
  by rewrite L1, L2, Ho, (proj2 (Z.eqb_eq _ _) El).
Qed.

Lemma read_value_object elems type s d r :
  type = tObject \/ type = tArray -> read_object_with elems s = Some (d, r) ->
  exists v, read_value_with elems type s = Some (v, r).
Proof. intros [-> | ->] H; unfold read_value_with; rewrite H; by eexists. Qed.

Lemma within_sound_all fuel : within_sound fuel.
Proof.
  induction (lt_wf fuel) as [fuel _ IH]. intros frames b Hin H Hb.
  destruct fuel as [|fuel]; [done|]. cbn [validateBSONIterative validate_round] in H.
  destruct (validateElementInfo b) as [[next b1]|] eqn:E; [|done].
  destruct (validateElementInfo_spec _ _ _ _ E Hb) as [(t & s1 & L1 & Hel) N1].
  (* once the element's value is read, the rest of the elements are *)
  assert (forall name s2 v b2 fuel1, signed8 t <> tEOO -> split_nul s1 = Some (name, s2) ->
    read_value_with elements (signed8 t) s2 = Some (v, b_rest b2) -> at_end n b2 ->
    (fuel1 < S fuel)%nat -> run fuel1 WithinObj frames b2 = true ->
    exists fuel' doc b', (fuel' < S fuel)%nat /\ elements (b_rest b) = Some (doc, b_rest b') /\
      at_end n b' /\ run fuel' EndObj frames b' = true) as Hcons.
  { intros name s2 v b2 fuel1 Ht L2 Hv N2 Hf H2.
    destruct (IH fuel1 Hf frames b2 Hin H2 N2) as (fuel' & doc & b' & Hf' & Hd & N' & H').
    exists fuel', ((name, v) :: doc), b'. split_and!; [lia| |done|done].
    by eapply elements_cons. }
  destruct Hin as (f & fs & -> & Hf). destruct next; try done.
  - destruct Hel as (Ht & name & s2 & L2 & Hty & <-).
    destruct (object_sound fuel (f :: fs) b1) as (doc & b2 & Ho & N2 & fuel' & Hf' & Hr);
      [apply IH; lia|done|done|]. rewrite Hf in Hr.
    destruct (read_value_object _ _ _ _ _ Hty Ho) as [v Hv].
    by apply (Hcons name (b_rest b1) v b2 fuel'); [..|lia|].
  - destruct Hel as (Ht & name & s2 & L2 & Hty & v & Hv).
    apply (Hcons name s2 v b1 fuel); [done|done|by apply read_scalar_value|done|lia|done].
  - destruct Hel as [Ht <-]. exists fuel, [], b1. eauto using elements_end with lia.
  - destruct Hel as (Ht & name & s2 & L2 & Hty & <-).
    destruct (code_sound fuel f fs b1) as (v & b2 & fuel' & Hv & N2 & Hf' & Hr);
      [intros; apply IH; lia|done..|]. rewrite <- Hty in Hv.
    by apply (Hcons name (b_rest b1) v b2 fuel'); [..|lia|].
Qed.
End Sound.

Lemma validated_readable (maxDepth : Z) (data : bytes) :
  blen data < 2 ^ 31 -> validateBSON maxDepth data = true ->
  exists doc, BSONObj data = Some doc.
Proof.
  intros Hn H. unfold validateBSON in H. destruct (blen data <? 5); [done|].
  destruct (object_sound maxDepth (blen data) Hn (validate_fuel data) [] (mkBuffer data 0))
    as (doc & b' & Ho & _); [by apply within_sound_all|done|done|].
  exists doc. unfold BSONObj, read_object.
  apply read_object_with_spec in Ho as (sz & s1 & E1 & E2 & E3). cbn [b_rest] in *.
  pose proof (le_length _ _ _ _ E1) as L.
  rewrite (proj2 (read_object_with_spec _ _ doc (b_rest b'))); [done|].
  exists sz, s1. split_and!; [done| |done]. eapply read_elements_fuel; [exact E2|lia].
Qed.

(** C31. [validateBSON] protects [BSONObj]: bytes it accepts, up to the 2 GiB a BSON length can
    say, hold an object whose elements can all be read, with every length field consistent. *)
Theorem validated_reads (maxDepth : Z) (data : bytes) :
  blen data < 2 ^ 31 -> validateBSON maxDepth data = true ->
  exists doc, BSONObj data = Some doc.
Proof. apply validated_readable. Qed.

(** [{a: {b: "x"}, c: 7}] in bytes. *)
Definition ex_bytes : bytes :=
  map Z_byte [29; 0; 0; 0;  3; 97; 0;  14; 0; 0; 0;  2; 98; 0;  2; 0; 0; 0; 120; 0;  0;
    16; 99; 0;  7; 0; 0; 0;  0].

Lemma validated_reads_witness :
  validateBSON 200 ex_bytes = true /\
  BSONObj ex_bytes = Some [(lit "a", BObject [(lit "b", BString (lit "x"))]); (lit "c", BInt 7)] /\
  exists doc, BSONObj ex_bytes = Some doc.
Proof.
  split; [vm_compute; reflexivity|]. split; [vm_compute; reflexivity|].
  apply (validated_reads 200 ex_bytes); vm_compute; reflexivity.
Defined.

(** ** The validator's loop ends *)

(** A round consumes bytes or leaves a frame. *)
Definition validate_measure (frames : list Frame) (b : Buffer) : nat :=
  (2 * length (b_rest b) + length frames)%nat.

Lemma readNumber_shorter k b z b' :
  readNumber k b = Some (z, b') -> length (b_rest b) = (k + length (b_rest b'))%nat.
Proof.
  unfold readNumber. destruct (Nat.ltb_spec (length (b_rest b)) k); [done|]. intros [= _ <-]. cbn.
  rewrite length_drop. lia.
Qed.

Lemma readCString_shorter b a b' :
  readCString b = Some (a, b') -> (length (b_rest b') < length (b_rest b))%nat.
Proof.
  unfold readCString. destruct (split_nul _) as [[x r]|] eqn:E; [|done]. intros [= _ <-].
  lengths. cbn. lia.
Qed.

Lemma skip_shorter k b b' : skip k b = Some b' -> (length (b_rest b') <= length (b_rest b))%nat.
Proof. unfold skip. destruct (_ <=? _); [done|]. intros [= <-]. cbn. rewrite length_drop. lia. Qed.

Lemma readUTF8String_shorter b b' :
  readUTF8String b = Some b' -> (length (b_rest b') < length (b_rest b))%nat.
Proof.
  unfold readUTF8String. destruct (readNumber 4 b) as [[sz b1]|] eqn:E1; [|done].
  destruct (_ <=? 0); [done|]. destruct (skip _ b1) as [b2|] eqn:E2; [|done].
  destruct (readNumber 1 b2) as [[c b3]|] eqn:E3; [|done]. destruct (c =? 0); [|done]. intros [= <-].
  apply readNumber_shorter in E1, E3. apply skip_shorter in E2. lia.
Qed.

Lemma validateElementInfo_shorter b next b' :
  validateElementInfo b = Some (next, b') -> (length (b_rest b') < length (b_rest b))%nat.
Proof.
  intros H. unfold validateElementInfo in H.
  repeat match type of H with
  | context [readNumber ?k ?b] =>
      let E := fresh in destruct (readNumber k b) as [[? ?]|] eqn:E; [|discriminate H];
      apply readNumber_shorter in E
  | context [readCString ?b] =>
      let E := fresh in destruct (readCString b) as [[? ?]|] eqn:E; [|discriminate H];
      apply readCString_shorter in E
  | (if ?b then _ else _) = Some _ => destruct b; try discriminate H
  | context [skip ?k ?b] =>
      let E := fresh in destruct (skip k b) as [?|] eqn:E; [|discriminate H]; apply skip_shorter in E
  | context [readUTF8String ?b] =>
      let E := fresh in destruct (readUTF8String b) as [?|] eqn:E; [|discriminate H];
      apply readUTF8String_shorter in E
  end; injection H as _ <-; lia.
Qed.

Lemma validate_round_measure maxDepth state frames b state' frames' b' :
  validate_round maxDepth state frames b = Some (Some (state', frames', b')) ->
  (validate_measure frames' b' < validate_measure frames b)%nat.
Proof.
  unfold validate_measure. destruct state; cbn [validate_round]; intros H.
  - destruct (maxDepth <? _); [done|]. destruct (readNumber 4 b) as [[sz b1]|] eqn:E1; [|done].
    apply readNumber_shorter in E1. destruct (validateElementInfo b1) as [[st b2]|] eqn:E2; [|done].
    injection H as <- <- <-. apply validateElementInfo_shorter in E2. cbn. lia.
  - destruct (validateElementInfo b) as [[st b2]|] eqn:E2; [|done].
    injection H as <- <- <-. apply validateElementInfo_shorter in E2. cbn. lia.
  - destruct frames as [|f fs]; [done|]. destruct (negb _); [done|]. destruct fs; [done|].
    injection H as <- <- <-. cbn. lia.
  - destruct (readNumber 4 b) as [[sz b1]|] eqn:E1; [|done].
    destruct (readUTF8String b1) as [b2|] eqn:E2; [|done]. injection H as <- <- <-.
    apply readNumber_shorter in E1. apply readUTF8String_shorter in E2. cbn. lia.
  - destruct frames as [|f fs]; [done|]. destruct (negb _); [done|]. destruct fs; [done|].
    injection H as <- <- <-. cbn. lia.
Qed.

Lemma validate_enough fuel fuel' maxDepth state frames b :
  (validate_measure frames b < fuel)%nat -> (validate_measure frames b < fuel')%nat ->
  validateBSONIterative fuel maxDepth state frames b = validateBSONIterative fuel' maxDepth state frames b.
Proof.
  revert fuel' state frames b. induction fuel as [|fuel IH]; intros [|fuel'] state frames b H H'; try lia.
  cbn [validateBSONIterative].
  destruct (validate_round maxDepth state frames b) as [[[[st fs] b']|]|] eqn:E; [|done..].
  apply validate_round_measure in E. apply IH; lia.
Qed.

(** The validation loop ends within [validate_fuel] rounds on every input: however many more
    rounds it is given, it answers the same. *)
Theorem validateBSON_terminates (maxDepth : Z) (data : bytes) (rounds : nat) :
  (validate_fuel data <= rounds)%nat ->
  validateBSON maxDepth data =
    if blen data <? 5 then false
    else validateBSONIterative rounds maxDepth BeginObj [] (mkBuffer data 0).
Proof.
  intros H. unfold validateBSON. destruct (blen data <? 5); [done|].
  apply validate_enough; unfold validate_measure, validate_fuel in *; cbn [b_rest length]; lia.
Qed.

(** A truncated object: the loop says no, and says it however long it may run. *)
Lemma validateBSON_terminates_witness :
  validateBSON 200 (take 28 ex_bytes) = false /\
  validateBSON 200 (take 28 ex_bytes) =
    if blen (take 28 ex_bytes) <? 5 then false
    else validateBSONIterative 100 200 BeginObj [] (mkBuffer (take 28 ex_bytes) 0).
Proof.
  split; [vm_compute; reflexivity|].
  apply (validateBSON_terminates 200 (take 28 ex_bytes) 100). vm_compute. lia.
Defined.
