(* ===== verification/BsonBuilder.v ===== *)
(** * Building BSON: [BSONObjBuilder]

    The append operations of src/mongo/bson/bsonobjbuilder.h that write each type of element, and
    the object they build. What a builder wrote, validates ([RawBson.validateBSON]) and reads back
    as the same document. *)

From S2P Require Import Prelude Bytes Bson RawBson.
#[local] Open Scope Z_scope.

(** ** Appending elements

    A builder is the bytes of the elements appended so far; [_done] adds the object's size and
    end. *)

Definition appendStr (b s : bytes) : bytes := b ++ s ++ [Byte.x00].

(** An element's type and name. *)
Definition appendHeader (b : bytes) (type : Z) (fieldName : bytes) : bytes :=
  appendStr (b ++ [Z_byte type]) fieldName.

Definition appendNum (b : bytes) (z : Z) (width : nat) : bytes := b ++ native z width.

(** A string with its size, the NUL included. *)
Definition appendSized (b s : bytes) : bytes := appendStr (appendNum b (blen s + 1) 4) s.

Definition appendObject (b fieldName obj : bytes) : bytes := appendHeader b tObject fieldName ++ obj.
Definition appendArray (b fieldName obj : bytes) : bytes := appendHeader b tArray fieldName ++ obj.

Definition appendBool (b fieldName : bytes) (val : bool) : bytes :=
  appendNum (appendHeader b tBool fieldName) (if val then 1 else 0) 1.

Definition appendInt (b fieldName : bytes) (n : Z) : bytes :=
  appendNum (appendHeader b tNumberInt fieldName) n 4.

Definition appendDecimal (b fieldName : bytes) (high low : Z) : bytes :=
  appendNum (appendNum (appendHeader b tNumberDecimal fieldName) low 8) high 8.

Definition appendLong (b fieldName : bytes) (n : Z) : bytes :=
  appendNum (appendHeader b tNumberLong fieldName) n 8.

Definition appendDouble (b fieldName : bytes) (bits : Z) : bytes :=
  appendNum (appendHeader b tNumberDouble fieldName) bits 8.

Definition appendOID (b fieldName oid : bytes) : bytes := appendHeader b tOID fieldName ++ oid.

Definition appendDate (b fieldName : bytes) (millis : Z) : bytes :=
  appendNum (appendHeader b tDate fieldName) millis 8.

Definition appendTimestamp (b fieldName : bytes) (val : Z) : bytes :=
  appendNum (appendHeader b tTimestamp fieldName) val 8.

Definition appendRegex (b fieldName regex options : bytes) : bytes :=
  appendStr (appendStr (appendHeader b tRegEx fieldName) regex) options.

Definition appendCode (b fieldName code : bytes) : bytes :=
  appendSized (appendHeader b tCode fieldName) code.

Definition appendString (b fieldName str : bytes) : bytes :=
  appendSized (appendHeader b tString fieldName) str.

Definition appendSymbol (b fieldName symbol : bytes) : bytes :=
  appendSized (appendHeader b tSymbol fieldName) symbol.

Definition appendNull (b fieldName : bytes) : bytes := appendHeader b tNULL fieldName.
Definition appendMinKey (b fieldName : bytes) : bytes := appendHeader b tMinKey fieldName.
Definition appendMaxKey (b fieldName : bytes) : bytes := appendHeader b tMaxKey fieldName.
Definition appendUndefined (b fieldName : bytes) : bytes := appendHeader b tUndefined fieldName.

Definition appendDBRef (b fieldName ns oid : bytes) : bytes :=
  appendSized (appendHeader b tDBRef fieldName) ns ++ oid.

Definition appendBinData (b fieldName : bytes) (type : Z) (data : bytes) : bytes :=
  appendNum (appendNum (appendHeader b tBinData fieldName) (blen data) 4) type 1 ++ data.

Definition appendCodeWScope (b fieldName code scope : bytes) : bytes :=
  appendSized
    (appendNum (appendHeader b tCodeWScope fieldName) (4 + 4 + blen code + 1 + blen scope) 4)
    code ++ scope.

(** [_done]: the size in front, the EOO behind. *)
Definition builder_done (b : bytes) : bytes := native (4 + blen b + 1) 4 ++ b ++ [Byte.x00].

(** The element of a value, by its type; objects and arrays are built by a builder of their own. *)
Fixpoint append_field (v : bson) (b name : bytes) : bytes :=
  let obj (d : Document) := builder_done (foldl (fun b e => append_field e.2 b e.1) [] d) in
  match v with
  | BMinKey => appendMinKey b name
  | BMaxKey => appendMaxKey b name
  | BNull => appendNull b name
  | BUndefined => appendUndefined b name
  | BBool x => appendBool b name x
  | BInt z => appendInt b name z
  | BLong z => appendLong b name z
  | BDouble z => appendDouble b name z
  | BDecimal h l => appendDecimal b name h l
  | BString s => appendString b name s
  | BCode s => appendCode b name s
  | BSymbol s => appendSymbol b name s
  | BCodeWScope s d => appendCodeWScope b name s (obj d)
  | BBinData t x => appendBinData b name t x
  | BOID o => appendOID b name o
  | BDate z => appendDate b name z
  | BTimestamp z => appendTimestamp b name z
  | BRegEx p f => appendRegex b name p f
  | BDBRef ns o => appendDBRef b name ns o
  | BObject d => appendObject b name (obj d)
  | BArray d => appendArray b name (obj d)
  end.

(** The object a builder makes of a document. *)
Definition obj (d : Document) : bytes :=
  builder_done (foldl (fun b e => append_field e.2 b e.1) [] d).

(** [BSONObj::objsize] of a built object. *)
Definition objsize (d : Document) : Z := blen (obj d).

(** [binaryEqual]: the same bytes. *)
Definition binaryEqual (a b : Document) : bool := bytes_eqb (obj a) (obj b).

Definition removeField (d : Document) (name : bytes) : Document := filter (fun e => e.1 <> name) d.

(** The loop of [ItoA]: the decimal digits of a value, written from the last to the first. *)
Fixpoint itoa_digits (fuel : nat) (val : Z) (buf : bytes) : bytes :=
  match fuel with
  | O => buf
  | S fuel => if 0 <? val then itoa_digits fuel (val / 10) (Z_byte (val mod 10 + 48) :: buf) else buf
  end.

(** [ItoA]: an index in decimal, the name of an array's item. Below 1000 the table spells the same
    digits, and zero as one digit; 20 digits are enough for 64 bits. *)
Definition ItoA (i : nat) : bytes :=
  let val := Z.of_nat i in if val =? 0 then lit "0" else itoa_digits 20 val [].

(** [BSONObjBuilder::numStr]: the same digits, from its table of a hundred or printed. *)
Definition numStr (i : nat) : bytes := ItoA i.

(** ** Documents a builder can represent *)

(** A C string has no NUL inside. *)
Definition cstring (s : bytes) : Prop := Byte.x00 ∉ s.

Fixpoint wf_value (v : bson) : Prop :=
  let wf_doc (d : Document) := Forall (fun e => cstring e.1) d /\ foldr (fun e P => wf_value e.2 /\ P) True d in
  match v with
  | BMinKey | BMaxKey | BNull | BUndefined | BBool _ | BString _ | BCode _ | BSymbol _ => True
  | BInt z => - 2 ^ 31 <= z < 2 ^ 31
  | BLong z | BDate z => - 2 ^ 63 <= z < 2 ^ 63
  | BDouble z | BTimestamp z => 0 <= z < 2 ^ 64
  | BDecimal h l => 0 <= h < 2 ^ 64 /\ 0 <= l < 2 ^ 64
  | BBinData t _ => 0 <= t < 2 ^ 8
  | BOID o => length o = 12%nat
  | BRegEx p f => cstring p /\ cstring f
  | BDBRef _ o => length o = 12%nat
  | BCodeWScope _ d | BObject d | BArray d => wf_doc d
  end.

Definition wf_doc (d : Document) : Prop :=
  Forall (fun e => cstring e.1) d /\ foldr (fun e P => wf_value e.2 /\ P) True d.

(** How many frames the validator opens below an object. *)
Fixpoint value_depth (v : bson) : Z :=
  let doc_depth (d : Document) := foldr (fun e n => Z.max (value_depth e.2) n) 0 d in
  match v with
  | BObject d | BArray d => 1 + doc_depth d
  | BCodeWScope _ d => 2 + doc_depth d
  | _ => 0
  end.

Definition doc_depth (d : Document) : Z := foldr (fun e n => Z.max (value_depth e.2) n) 0 d.

(** * Facts *)

(** ** Induction on values *)

Section Induction.
Context (P : bson -> Prop)
  (Hscalar : forall v, match v with BObject _ | BArray _ | BCodeWScope _ _ => False | _ => True end -> P v)
  (Hcode : forall s d, Forall (fun e => P e.2) d -> P (BCodeWScope s d))
  (Hobject : forall d, Forall (fun e => P e.2) d -> P (BObject d))
  (Harray : forall d, Forall (fun e => P e.2) d -> P (BArray d)).

Lemma bson_nested_ind : forall v, P v.
Proof.
  fix IH 1. intros v.
  assert (forall d : Document, Forall (fun e => P e.2) d) as Hd.
  { fix IHd 1. intros [|[n x] d]; constructor; [apply IH|apply IHd]. }
  destruct v; first [apply Hcode, Hd|apply Hobject, Hd|apply Harray, Hd|apply Hscalar; exact I].
Qed.
End Induction.

(** ** What an element is made of *)

Definition type_of (v : bson) : Z :=
  match v with
  | BMinKey => tMinKey | BMaxKey => tMaxKey | BNull => tNULL | BUndefined => tUndefined
  | BBool _ => tBool | BInt _ => tNumberInt | BLong _ => tNumberLong | BDouble _ => tNumberDouble
  | BDecimal _ _ => tNumberDecimal | BString _ => tString | BCode _ => tCode | BSymbol _ => tSymbol
  | BCodeWScope _ _ => tCodeWScope | BBinData _ _ => tBinData | BOID _ => tOID | BDate _ => tDate
  | BTimestamp _ => tTimestamp | BRegEx _ _ => tRegEx | BDBRef _ _ => tDBRef
  | BObject _ => tObject | BArray _ => tArray
  end.

(** A string with its size, on its own. *)
Definition sized (s : bytes) : bytes := native (blen s + 1) 4 ++ s ++ [Byte.x00].

Definition value_bytes (v : bson) : bytes :=
  match v with
  | BMinKey | BMaxKey | BNull | BUndefined => []
  | BBool x => native (if x then 1 else 0) 1
  | BInt z => native z 4
  | BLong z | BDouble z | BDate z | BTimestamp z => native z 8
  | BDecimal h l => native l 8 ++ native h 8
  | BString s | BCode s | BSymbol s => sized s
  | BCodeWScope s d => native (4 + 4 + blen s + 1 + objsize d) 4 ++ sized s ++ obj d
  | BBinData t x => native (blen x) 4 ++ native t 1 ++ x
  | BOID o => o
  | BRegEx p f => p ++ [Byte.x00] ++ f ++ [Byte.x00]
  | BDBRef ns o => sized ns ++ o
  | BObject d | BArray d => obj d
  end.

Definition element_bytes (e : bytes * bson) : bytes :=
  Z_byte (type_of e.2) :: e.1 ++ Byte.x00 :: value_bytes e.2.

Definition doc_bytes (d : Document) : bytes := concat (map element_bytes d).

Lemma append_field_eq v b name : append_field v b name = b ++ element_bytes (name, v).
Proof.
  unfold element_bytes. destruct v; cbn [append_field value_bytes type_of fst snd];
    unfold appendMinKey, appendMaxKey, appendNull, appendUndefined, appendBool, appendInt, appendLong,
      appendDouble, appendDecimal, appendString, appendCode, appendSymbol, appendCodeWScope,
      appendBinData, appendOID, appendDate, appendTimestamp, appendRegex, appendDBRef, appendObject,
      appendArray, appendSized, appendNum, appendHeader, appendStr, sized, objsize, obj;
    rewrite <- ?app_assoc; reflexivity.
Qed.

Lemma foldl_append_field d b : foldl (fun b e => append_field e.2 b e.1) b d = b ++ doc_bytes d.
Proof.
  revert b. induction d as [|[n v] d IH]; intros b; cbn [foldl]; [by rewrite app_nil_r|].
  rewrite IH, append_field_eq, <- app_assoc. done.
Qed.

Lemma obj_eq d : obj d = native (objsize d) 4 ++ doc_bytes d ++ [Byte.x00].
Proof.
  unfold objsize, obj. rewrite foldl_append_field. unfold builder_done. cbn [app].
  rewrite !blen_app, blen_native. change (blen [Byte.x00]) with 1. do 2 f_equal. lia.
Qed.

Lemma objsize_eq d : objsize d = 5 + blen (doc_bytes d).
Proof.
  unfold objsize. rewrite obj_eq, !blen_app, blen_native. change (blen [Byte.x00]) with 1. lia.
Qed.

(** ** Reading back what was written *)

Lemma cut_exact n a r : length a = n -> cut n (a ++ r) = Some (a, r).
Proof.
  intros <-. unfold cut. rewrite length_app.
  destruct (Nat.ltb_spec (length a + length r) (length a)); [lia|].
  by rewrite take_app_length, drop_app_length.
Qed.

Lemma le_native n z r : le n (native z n ++ r) = Some (z mod 256 ^ Z.of_nat n, r).
Proof. unfold le. rewrite cut_exact by apply length_native. by rewrite readNative_native. Qed.

Lemma split_nul_cstring s r : cstring s -> split_nul (s ++ Byte.x00 :: r) = Some (s, r).
Proof.
  unfold cstring. induction s as [|c s IH]; intros H; cbn; [done|].
  rewrite bool_decide_eq_false_2 by (intros ->; apply H; set_solver).
  rewrite IH by set_solver. done.
Qed.

Lemma signed32_native z : - 2 ^ 31 <= z < 2 ^ 31 -> signed32 (z mod 256 ^ Z.of_nat 4) = z.
Proof. intros H. change (256 ^ Z.of_nat 4) with (2 ^ 32). by apply signed32_wrap. Qed.

Lemma signed64_native z : - 2 ^ 63 <= z < 2 ^ 63 -> signed64 (z mod 256 ^ Z.of_nat 8) = z.
Proof.
  intros H. change (256 ^ Z.of_nat 8) with (2 ^ 64). unfold signed64.
  destruct (Z.lt_ge_cases z 0) as [Hz|Hz].
  - replace (z mod 2 ^ 64) with (z + 2 ^ 64).
    + rewrite (proj2 (Z.ltb_ge _ _)) by lia. lia.
    + symmetry. rewrite <- (Z.mod_add z 1) by lia. apply Z.mod_small. lia.
  - rewrite Z.mod_small by lia. by rewrite (proj2 (Z.ltb_lt _ _)) by lia.
Qed.

Lemma signed8_type v : signed8 (type_of v mod 256) = type_of v.
Proof. by destruct v. Qed.

Lemma type_not_eoo v : type_of v <> tEOO.
Proof. by destruct v. Qed.

Lemma read_string_sized s r : blen s + 1 < 2 ^ 31 -> read_string (sized s ++ r) = Some (s, r).
Proof.
  intros H. unfold read_string, sized. rewrite <- !app_assoc, le_native.
  pose proof (blen_nonneg s). rewrite signed32_native by lia.
  rewrite (proj2 (Z.leb_gt _ _)) by lia. rewrite cut_exact by (unfold blen; lia). done.
Qed.

Lemma sized_length s : blen (sized s) = 5 + blen s.
Proof. unfold sized. rewrite !blen_app, blen_native. change (blen [Byte.x00]) with 1. lia. Qed.

(** Values with no elements inside. *)
Definition scalar (v : bson) : Prop :=
  match v with BObject _ | BArray _ | BCodeWScope _ _ => False | _ => True end.

Lemma scalar_type v : scalar v -> is_scalar (type_of v).
Proof. by destruct v. Qed.

Lemma read_scalar_written v r :
  scalar v -> wf_value v -> blen (value_bytes v) < 2 ^ 31 ->
  read_scalar (type_of v) (value_bytes v ++ r) = Some (v, r).
Proof.
  intros Hs Hv Hl. destruct v; try done; cbn [type_of value_bytes wf_value] in *; unfold read_scalar;
    rewrite <- ?app_assoc.
  - rewrite le_native. by destruct b.
  - rewrite le_native, signed32_native by lia. done.
  - rewrite !le_native, signed64_native by lia. done.
  - rewrite !le_native, (Z.mod_small bits) by lia. done.
  - rewrite !le_native, !Z.mod_small by lia. done.
  - rewrite read_string_sized by (rewrite sized_length in Hl; lia). done.
  - rewrite read_string_sized by (rewrite sized_length in Hl; lia). done.
  - rewrite read_string_sized by (rewrite sized_length in Hl; lia). done.
  - rewrite le_native. rewrite !blen_app, !blen_native in Hl. pose proof (blen_nonneg data).
    rewrite signed32_native, (proj2 (Z.ltb_ge _ _)), le_native, Z.mod_small by lia.
    rewrite (cut_exact (Z.to_nat (blen data)) data r) by (unfold blen; lia). done.
  - rewrite cut_exact by done. done.
  - rewrite !le_native, signed64_native by lia. done.
  - rewrite !le_native, (Z.mod_small ts) by lia. done.
  - destruct Hv as [Hp Hf]. cbn [app]. rewrite split_nul_cstring by done. cbv beta iota.
    rewrite split_nul_cstring by done. done.
  - rewrite blen_app, sized_length in Hl. pose proof (blen_nonneg oid).
    rewrite read_string_sized by lia. cbv beta iota. rewrite (cut_exact 12 oid r) by done. done.
Qed.

Lemma doc_bytes_cons n v d :
  doc_bytes ((n, v) :: d) = Z_byte (type_of v) :: n ++ Byte.x00 :: value_bytes v ++ doc_bytes d.
Proof.
  unfold doc_bytes. cbn [map concat]. unfold element_bytes. cbn [fst snd app].
  by rewrite <- app_assoc.
Qed.

Lemma le_type v r : le 1 (Z_byte (type_of v) :: r) = Some (type_of v mod 256, r).
Proof. change (Z_byte (type_of v) :: r) with (native (type_of v) 1 ++ r). apply le_native. Qed.

Lemma wf_doc_cons n v d : wf_doc ((n, v) :: d) <-> cstring n /\ wf_value v /\ wf_doc d.
Proof. unfold wf_doc. rewrite Forall_cons. cbn. tauto. Qed.

(** A value is read back wherever it is written. *)
Definition reads_back (v : bson) : Prop :=
  forall r, wf_value v -> blen (value_bytes v) < 2 ^ 31 ->
  read_value_with elements (type_of v) (value_bytes v ++ r) = Some (v, r).

Lemma elements_written d r :
  Forall (fun e => reads_back e.2) d -> wf_doc d -> blen (doc_bytes d) < 2 ^ 31 ->
  elements (doc_bytes d ++ Byte.x00 :: r) = Some (d, r).
Proof.
  induction d as [|[n v] d IH]; intros Hr Hd Hl.
  - by apply (elements_end _ 0).
  - apply wf_doc_cons in Hd as (Hn & Hv & Hd). apply Forall_cons in Hr as [Hr Hrs]. cbn in Hr.
    rewrite doc_bytes_cons in *. cbn [app]. unfold blen in Hl. cbn [length] in Hl.
    rewrite length_app in Hl. cbn [length] in Hl. rewrite length_app in Hl.
    eapply elements_cons.
    + apply le_type.
    + rewrite signed8_type. apply type_not_eoo.
    + rewrite <- app_assoc. cbn [app]. by apply split_nul_cstring.
    + rewrite signed8_type, <- app_assoc. apply Hr; [done|unfold blen; lia].
    + apply IH; [done..|unfold blen; lia].
Qed.

Lemma read_obj d r :
  Forall (fun e => reads_back e.2) d -> wf_doc d -> objsize d < 2 ^ 31 ->
  read_object_with elements (obj d ++ r) = Some (d, r).
Proof.
  intros Hr Hd Hl. pose proof (objsize_eq d) as Hs. pose proof (blen_nonneg (doc_bytes d)).
  apply read_object_with_spec. rewrite obj_eq, <- !app_assoc. do 2 eexists.
  split; [apply le_native|]. split; [apply elements_written; [done..|lia]|].
  rewrite signed32_native by lia. rewrite !blen_app, blen_native. change (blen [Byte.x00]) with 1. lia.
Qed.

Lemma all_read_back v : reads_back v.
Proof.
  induction v as [v Hs|s d IH|d IH|d IH] using bson_nested_ind; intros r Hv Hl.
  - apply read_scalar_value; [by apply scalar_type|]. by apply read_scalar_written.
  - cbn [type_of value_bytes] in *. rewrite !blen_app, blen_native, sized_length in Hl.
    fold (objsize d) in Hl. pose proof (blen_nonneg s). pose proof (objsize_eq d).
    pose proof (blen_nonneg (doc_bytes d)).
    unfold read_value_with. cbn [Z.eqb tCodeWScope tObject tArray Pos.eqb].
    rewrite <- !app_assoc, le_native, read_string_sized, read_obj by (done || lia).
    rewrite signed32_native, !blen_app, blen_native, sized_length by lia. fold (objsize d).
    by rewrite (proj2 (Z.eqb_eq _ _)) by lia.
  - cbn [type_of value_bytes] in *. unfold read_value_with. cbn [Z.eqb tObject Pos.eqb].
    by rewrite read_obj.
  - cbn [type_of value_bytes] in *. unfold read_value_with. cbn [Z.eqb tArray tObject Pos.eqb].
    by rewrite read_obj.
Qed.

Lemma read_back_all (d : Document) : Forall (fun e => reads_back e.2) d.
Proof. apply Forall_forall. intros e _. apply all_read_back. Qed.

Lemma BSONObj_obj d r : wf_doc d -> objsize d < 2 ^ 31 -> BSONObj (obj d ++ r) = Some d.
Proof.
  intros Hd Hl. pose proof (read_obj d r (read_back_all d) Hd Hl) as H.
  unfold BSONObj, read_object. apply read_object_with_spec in H as (sz & s1 & E1 & E2 & E3).
  pose proof (le_length _ _ _ _ E1).
  rewrite (proj2 (read_object_with_spec _ _ d r)); [done|].
  exists sz, s1. split_and!; [done| |done]. eapply read_elements_fuel; [exact E2|lia].
Qed.

(** ** What was written validates *)

Lemma readNumber_native n z r pos :
  readNumber n (mkBuffer (native z n ++ r) pos)
    = Some (z mod 256 ^ Z.of_nat n, mkBuffer r (pos + Z.of_nat n)).
Proof.
  unfold readNumber. cbn [b_rest b_position]. rewrite length_app, length_native.
  destruct (Nat.ltb_spec (n + length r) n); [lia|].
  by rewrite take_app_length', drop_app_length', readNative_native by by rewrite length_native.
Qed.

Lemma readCString_cstring s r pos :
  cstring s -> readCString (mkBuffer (s ++ Byte.x00 :: r) pos)
    = Some (s, mkBuffer r (pos + blen s + 1)).
Proof. intros H. unfold readCString. cbn [b_rest b_position]. by rewrite split_nul_cstring. Qed.

Lemma skip_exact k a r pos :
  blen a = k -> r <> [] -> skip k (mkBuffer (a ++ r) pos) = Some (mkBuffer r (pos + k)).
Proof.
  intros <- Hr. unfold skip, blen. cbn [b_rest b_position]. rewrite length_app.
  destruct r; [done|]. rewrite (proj2 (Z.leb_gt _ _)) by (cbn; lia).
  by rewrite Nat2Z.id, drop_app_length.
Qed.

Lemma readUTF8String_sized s r pos :
  blen s + 1 < 2 ^ 31 ->
  readUTF8String (mkBuffer (sized s ++ r) pos) = Some (mkBuffer r (pos + blen (sized s))).
Proof.
  intros H. pose proof (blen_nonneg s). unfold readUTF8String, sized.
  rewrite <- !app_assoc, readNumber_native, signed32_native by lia.
  rewrite (proj2 (Z.leb_gt _ _)) by lia. rewrite skip_exact by (done || lia).
  change ([Byte.x00] ++ r) with (native 0 1 ++ r). rewrite readNumber_native. cbn [Z.eqb].
  do 2 f_equal. rewrite !blen_app, blen_native. change (blen [Byte.x00]) with 1. lia.
Qed.

(** Decides the tests on a known type. *)
Ltac typed :=
  cbn [Z.eqb Pos.eqb orb tMinKey tMaxKey tNULL tUndefined tOID tNumberInt tBool tNumberDouble tNumberLong
    tTimestamp tDate tNumberDecimal tDBRef tRegEx tCode tSymbol tString tBinData tCodeWScope tObject tArray].

(** The first element of written elements, and what the validator makes of it. *)
Definition after_element (v : bson) : VState :=
  match v with
  | BObject _ | BArray _ => BeginObj
  | BCodeWScope _ _ => BeginCodeWScope
  | _ => WithinObj
  end.

(** The validator steps over scalar values, and stops at the start of others. *)
Definition stepped (v : bson) : bytes :=
  match after_element v with WithinObj => value_bytes v | _ => [] end.
Definition left_over (v : bson) : bytes :=
  match after_element v with WithinObj => [] | _ => value_bytes v end.

Lemma validateElementInfo_written n v r pos :
  cstring n -> wf_value v -> blen (value_bytes v) < 2 ^ 31 -> r <> [] ->
  validateElementInfo (mkBuffer (element_bytes (n, v) ++ r) pos)
    = Some (after_element v,
        mkBuffer (left_over v ++ r) (pos + 1 + (blen n + 1) + blen (stepped v))).
Proof.
  intros Hn Hv Hl Hr. unfold validateElementInfo, element_bytes. cbn [fst snd].
  change (Z_byte (type_of v) :: n ++ Byte.x00 :: value_bytes v)
    with (native (type_of v) 1 ++ n ++ Byte.x00 :: value_bytes v).
  rewrite <- !app_assoc, readNumber_native. change (256 ^ Z.of_nat 1) with 256.
  rewrite signed8_type, (proj2 (Z.eqb_neq _ _) (type_not_eoo v)). cbn [app].
  rewrite readCString_cstring by done.
  replace (pos + Z.of_nat 1 + blen n + 1) with (pos + 1 + (blen n + 1)) by lia.
  generalize (pos + 1 + (blen n + 1)) as pos'. intros pos'.
  unfold stepped, left_over.
  destruct v; cbn [type_of after_element value_bytes wf_value app] in *; typed;
    rewrite ?Z.add_0_r; try reflexivity; rewrite <- ?app_assoc.
  - rewrite readNumber_native. by destruct b.
  - by rewrite skip_exact by (done || by rewrite blen_native).
  - by rewrite skip_exact by (done || by rewrite blen_native).
  - by rewrite skip_exact by (done || by rewrite blen_native).
  - rewrite app_assoc. rewrite skip_exact; [by rewrite blen_app, !blen_native| |done].
    by rewrite blen_app, !blen_native.
  - by rewrite readUTF8String_sized by (rewrite sized_length in Hl; lia).
  - by rewrite readUTF8String_sized by (rewrite sized_length in Hl; lia).
  - by rewrite readUTF8String_sized by (rewrite sized_length in Hl; lia).
  - rewrite !blen_app, !blen_native in *. pose proof (blen_nonneg data).
    rewrite readNumber_native, signed32_native by lia.
    rewrite (proj2 (Z.ltb_ge _ _)), (proj2 (Z.eqb_neq _ _)) by lia. cbn [orb].
    rewrite app_assoc, skip_exact; [do 3 f_equal; lia| |done]. by rewrite blen_app, blen_native.
  - assert (blen oid = 12) by (unfold blen; lia). by rewrite (skip_exact 12 oid), H.
  - by rewrite skip_exact by (done || by rewrite blen_native).
  - by rewrite skip_exact by (done || by rewrite blen_native).
  - destruct Hv as [Hp Hf]. cbn [app]. rewrite readCString_cstring by done. cbv beta iota.
    rewrite <- app_assoc. cbn [app]. rewrite readCString_cstring by done. do 3 f_equal.
    rewrite blen_app. unfold blen. cbn [length]. rewrite length_app. cbn [length]. lia.
  - rewrite !blen_app, sized_length in *. pose proof (blen_nonneg oid).
    assert (blen oid = 12) as Ho by (unfold blen; lia).
    rewrite readUTF8String_sized by lia. rewrite (skip_exact 12 oid) by done.
    rewrite sized_length. do 3 f_equal. lia.
Qed.

(** Runs the validator as long as it takes. *)
Definition validates (maxDepth : Z) (state : VState) (frames : list Frame) (b : Buffer) : bool :=
  validateBSONIterative (S (validate_measure frames b)) maxDepth state frames b.

Lemma validates_step maxDepth state frames b state' frames' b' :
  validate_round maxDepth state frames b = Some (Some (state', frames', b')) ->
  validates maxDepth state frames b = validates maxDepth state' frames' b'.
Proof.
  intros H. unfold validates at 1. cbn [validateBSONIterative]. rewrite H.
  pose proof (validate_round_measure _ _ _ _ _ _ _ H). apply validate_enough; lia.
Qed.

Lemma validates_done maxDepth state frames b :
  validate_round maxDepth state frames b = Some None -> validates maxDepth state frames b = true.
Proof. intros H. unfold validates. cbn [validateBSONIterative]. by rewrite H. Qed.

(** A frame opened at [pos] for [len] bytes. *)
Lemma matches_written pos len code r :
  0 <= pos -> 0 <= len -> pos + len < 2 ^ 31 ->
  length_matches (mkBuffer r (pos + len)) (mkFrame (startPosition pos) code (signed32 (len mod 256 ^ Z.of_nat 4)))
    = true.
Proof.
  intros Hp Hl Hs. unfold length_matches. cbn [b_position f_start f_expectedSize].
  rewrite startPosition_small, signed32_wrap, signed32_native by lia. apply Z.eqb_eq. lia.
Qed.

(** A value written in an object the validator is within, is stepped over. *)
Definition steps_over (maxDepth : Z) (v : bson) : Prop :=
  forall n f fs r pos,
  cstring n -> wf_value v -> r <> [] -> f_isCodeWithScope f = false ->
  0 <= pos -> pos + blen (element_bytes (n, v) ++ r) < 2 ^ 31 ->
  Z.of_nat (length (f :: fs)) + value_depth v <= maxDepth + 1 ->
  validates maxDepth WithinObj (f :: fs) (mkBuffer (element_bytes (n, v) ++ r) pos)
    = validates maxDepth WithinObj (f :: fs) (mkBuffer r (pos + blen (element_bytes (n, v)))).

Lemma validates_within maxDepth frames frames' b b' :
  validate_round maxDepth BeginObj frames b = validate_round maxDepth WithinObj frames' b' ->
  validates maxDepth BeginObj frames b = validates maxDepth WithinObj frames' b'.
Proof.
  intros H. unfold validates. cbn [validateBSONIterative]. rewrite H.
  destruct (validate_round maxDepth WithinObj frames' b') as [[[[st fs] b2]|]|] eqn:E; [|done..].
  pose proof (validate_round_measure _ _ _ _ _ _ _ E).
  pose proof (validate_round_measure _ _ _ _ _ _ _ H). apply validate_enough; lia.
Qed.

Lemma value_depth_nonneg v : 0 <= value_depth v.
Proof.
  destruct v; cbn [value_depth]; try lia.
  all: match goal with |- context [foldr ?f 0 ?d] => assert (0 <= foldr f 0 d) end;
    [induction scope || induction fields || induction items; cbn; lia|lia].
Qed.

Lemma doc_depth_nonneg d : 0 <= doc_depth d.
Proof. unfold doc_depth. induction d; cbn; lia. Qed.

Lemma doc_depth_cons n v d : doc_depth ((n, v) :: d) = Z.max (value_depth v) (doc_depth d).
Proof. done. Qed.

Lemma element_cons n v d : doc_bytes ((n, v) :: d) = element_bytes (n, v) ++ doc_bytes d.
Proof. done. Qed.

Lemma elements_validate maxDepth d f fs r pos :
  Forall (fun e => steps_over maxDepth e.2) d -> wf_doc d -> f_isCodeWithScope f = false ->
  0 <= pos -> pos + blen (doc_bytes d ++ Byte.x00 :: r) < 2 ^ 31 ->
  Z.of_nat (length (f :: fs)) + doc_depth d <= maxDepth + 1 ->
  validates maxDepth WithinObj (f :: fs) (mkBuffer (doc_bytes d ++ Byte.x00 :: r) pos)
    = validates maxDepth EndObj (f :: fs) (mkBuffer r (pos + blen (doc_bytes d) + 1)).
Proof.
  revert pos. induction d as [|[n v] d IH]; intros pos Hst Hd Hf Hp Hl Hdep.
  - apply validates_step. cbn [validate_round]. unfold doc_bytes. cbn [map concat app].
    change (Byte.x00 :: r) with (native 0 1 ++ r). unfold validateElementInfo.
    rewrite readNumber_native. cbn [Z.eqb]. change (blen []) with 0. by rewrite Z.add_0_r.
  - apply Forall_cons in Hst as [Hv Hst]. apply wf_doc_cons in Hd as (Hn & Hwv & Hd). cbn [snd] in Hv.
    rewrite doc_depth_cons in Hdep. rewrite element_cons, <- app_assoc in *.
    rewrite blen_app in Hl. pose proof (blen_nonneg (element_bytes (n, v))).
    pose proof (blen_nonneg (doc_bytes d ++ Byte.x00 :: r)).
    rewrite Hv; [|done|done|by destruct (doc_bytes d)|done|lia|rewrite blen_app; lia|lia].
    rewrite IH by (done || lia). rewrite blen_app. do 2 f_equal. lia.
Qed.

(** Where the validator goes on after an object nested in [fs]. *)
Definition after_object (fs : list Frame) : VState :=
  match fs with f :: _ => if f_isCodeWithScope f then EndCodeWScope else WithinObj | [] => EndObj end.

Lemma obj_validates maxDepth d fs r pos :
  Forall (fun e => steps_over maxDepth e.2) d -> wf_doc d ->
  0 <= pos -> pos + blen (obj d ++ r) < 2 ^ 31 ->
  Z.of_nat (length fs) + doc_depth d <= maxDepth ->
  validates maxDepth BeginObj fs (mkBuffer (obj d ++ r) pos)
    = match fs with
      | [] => true
      | _ => validates maxDepth (after_object fs) fs (mkBuffer r (pos + objsize d))
      end.
Proof.
  intros Hst Hd Hp Hl Hdep. pose proof (doc_depth_nonneg d). pose proof (objsize_eq d) as Hs.
  pose proof (blen_nonneg (doc_bytes d)). pose proof (blen_nonneg r).
  rewrite blen_app in Hl. fold (objsize d) in Hl.
  rewrite obj_eq, <- !app_assoc.
  set (F := mkFrame (startPosition pos) false (signed32 (objsize d mod 256 ^ Z.of_nat 4))).
  rewrite (validates_within _ _ (F :: fs) _ (mkBuffer (doc_bytes d ++ Byte.x00 :: r) (pos + 4))).
  2: { cbn [validate_round]. rewrite (proj2 (Z.ltb_ge _ _)) by lia. by rewrite readNumber_native. }
  rewrite elements_validate;
    [|done|done|done|lia|rewrite blen_app; unfold blen in *; cbn [length]; lia|cbn [length]; lia].
  replace (pos + 4 + blen (doc_bytes d) + 1) with (pos + objsize d) by lia.
  assert (length_matches (mkBuffer r (pos + objsize d)) F = true) as Hm by (apply matches_written; lia).
  destruct fs as [|f fs].
  - apply validates_done. cbn [validate_round]. by rewrite Hm.
  - apply validates_step. cbn [validate_round]. by rewrite Hm.
Qed.

Lemma element_length n v : blen (element_bytes (n, v)) = 1 + (blen n + 1) + blen (value_bytes v).
Proof. unfold element_bytes, blen. cbn. rewrite length_app. cbn. lia. Qed.

(** The first round of an element in an object. *)
Lemma element_round maxDepth n v fs r pos :
  cstring n -> wf_value v -> blen (value_bytes v) < 2 ^ 31 -> r <> [] ->
  validates maxDepth WithinObj fs (mkBuffer (element_bytes (n, v) ++ r) pos)
    = validates maxDepth (after_element v) fs
        (mkBuffer (left_over v ++ r) (pos + 1 + (blen n + 1) + blen (stepped v))).
Proof.
  intros. apply validates_step. cbn [validate_round]. by rewrite validateElementInfo_written.
Qed.

Lemma code_validates maxDepth s d f fs r pos :
  Forall (fun e => steps_over maxDepth e.2) d -> wf_doc d -> f_isCodeWithScope f = false ->
  0 <= pos -> pos + blen (value_bytes (BCodeWScope s d) ++ r) < 2 ^ 31 ->
  Z.of_nat (length (f :: fs)) + value_depth (BCodeWScope s d) <= maxDepth + 1 ->
  validates maxDepth BeginCodeWScope (f :: fs) (mkBuffer (value_bytes (BCodeWScope s d) ++ r) pos)
    = validates maxDepth WithinObj (f :: fs) (mkBuffer r (pos + blen (value_bytes (BCodeWScope s d)))).
Proof.
  intros Hst Hd Hf Hp Hl Hdep. cbn [value_bytes value_depth] in *. fold (doc_depth d) in Hdep.
  rewrite <- !app_assoc in *. rewrite !blen_app, blen_native, sized_length in *. fold (objsize d) in *.
  pose proof (blen_nonneg s). pose proof (blen_nonneg r). pose proof (doc_depth_nonneg d).
  pose proof (objsize_eq d). pose proof (blen_nonneg (doc_bytes d)).
  set (len := 4 + 4 + blen s + 1 + objsize d).
  set (F := mkFrame (startPosition pos) true (signed32 (len mod 256 ^ Z.of_nat 4))).
  rewrite (validates_step _ _ _ _ BeginObj (F :: f :: fs) (mkBuffer (obj d ++ r) (pos + 9 + blen s))).
  2: { cbn [validate_round]. rewrite readNumber_native, readUTF8String_sized by lia.
       rewrite sized_length. do 4 f_equal. lia. }
  rewrite obj_validates by (done || (rewrite ?blen_app; fold (objsize d); cbn [length] in *; lia)).
  replace (pos + 9 + blen s + objsize d) with (pos + len) by (unfold len; lia).
  replace (pos + (Z.of_nat 4 + (5 + blen s + objsize d))) with (pos + len) by (unfold len; lia).
  apply validates_step. cbn [validate_round after_object f_isCodeWithScope F].
  unfold F. by rewrite matches_written by (unfold len; lia).
Qed.

Lemma all_step_over maxDepth v : steps_over maxDepth v.
Proof.
  induction v as [v Hs|s d IH|d IH|d IH] using bson_nested_ind; intros n f fs r pos Hn Hv Hr Hf Hp Hl Hdep;
    rewrite blen_app, element_length in Hl; pose proof (blen_nonneg r); pose proof (blen_nonneg n);
    (rewrite element_round by (done || lia)); rewrite element_length.
  - assert (after_element v = WithinObj) as Ha by by destruct v.
    unfold stepped, left_over. rewrite Ha. cbn [app]. do 2 f_equal. lia.
  - cbn [after_element left_over]. rewrite code_validates; [|done|done|done|..].
    + do 2 f_equal. change (blen (stepped (BCodeWScope s d))) with 0. lia.
    + change (blen (stepped (BCodeWScope s d))) with 0. lia.
    + change (blen (stepped (BCodeWScope s d))) with 0. rewrite blen_app. lia.
    + done.
  - change (left_over (BObject d)) with (obj d). change (blen (stepped (BObject d))) with 0.
    cbn [after_element value_bytes value_depth] in *. fold (doc_depth d) (objsize d) in *.
    rewrite obj_validates by (done || (rewrite ?blen_app; fold (objsize d); lia)).
    cbn [after_object]. rewrite Hf. do 2 f_equal. lia.
  - change (left_over (BArray d)) with (obj d). change (blen (stepped (BArray d))) with 0.
    cbn [after_element value_bytes value_depth] in *. fold (doc_depth d) (objsize d) in *.
    rewrite obj_validates by (done || (rewrite ?blen_app; fold (objsize d); lia)).
    cbn [after_object]. rewrite Hf. do 2 f_equal. lia.
Qed.

Lemma built_reads (maxDepth : Z) (d : Document) (r : bytes) :
  wf_doc d -> doc_depth d <= maxDepth -> blen (obj d ++ r) < 2 ^ 31 ->
  validateBSON maxDepth (obj d ++ r) = true /\ BSONObj (obj d ++ r) = Some d.
Proof.
  intros Hd Hdep Hl. pose proof (objsize_eq d). pose proof (blen_nonneg (doc_bytes d)).
  pose proof (blen_nonneg r). split.
  - unfold validateBSON. rewrite (proj2 (Z.ltb_ge _ _)) by (rewrite blen_app; fold (objsize d); lia).
    rewrite <- (obj_validates maxDepth d [] r 0); [|apply Forall_forall; intros; apply all_step_over
      |done|lia|lia|cbn [length]; lia].
    apply validate_enough; unfold validate_measure, validate_fuel; cbn [b_rest length]; lia.
  - apply BSONObj_obj; [done|]. rewrite blen_app in Hl. fold (objsize d) in Hl. lia.
Qed.

(** C32. What a builder wrote is BSON: the bytes [BSONObjBuilder] makes of a document within the
    depth limit pass [validateBSON], whatever follows them in the buffer, and read back as the
    document, element for element. *)
Theorem built_validates_and_reads (maxDepth : Z) (d : Document) (r : bytes) :
  wf_doc d -> doc_depth d <= maxDepth -> blen (obj d ++ r) < 2 ^ 31 ->
  validateBSON maxDepth (obj d ++ r) = true /\ BSONObj (obj d ++ r) = Some d.
Proof. apply built_reads. Qed.

(** Well-formedness of a given document. *)
Ltac wf_concrete :=
  unfold wf_doc, cstring; cbn;
  repeat match goal with
  | |- _ /\ _ => split
  | |- Forall _ (_ :: _) => constructor
  | |- Forall _ [] => constructor
  | |- cstring _ => unfold cstring
  | |- _ ∉ _ => apply (bool_decide_unpack _); vm_compute; exact I
  end; try exact I; try reflexivity; try lia.

(** A document with nesting, an array and code with scope, and two bytes after it. *)
Definition ex_doc : Document :=
  [(lit "_id", BOID (repeat Byte.x01 12));
   (lit "a", BArray [(lit "0", BInt (-1)); (lit "1", BObject [(lit "b", BNull)])]);
   (lit "f", BCodeWScope (lit "x+y") [(lit "y", BLong (2 ^ 40))])].

Lemma built_validates_and_reads_witness :
  validateBSON 200 (obj ex_doc ++ lit "zz") = true /\ BSONObj (obj ex_doc ++ lit "zz") = Some ex_doc.
Proof.
  apply (built_validates_and_reads 200 ex_doc (lit "zz")); [|vm_compute; discriminate|vm_compute; reflexivity].
  unfold ex_doc. wf_concrete.
Defined.
