(* ===== verification/Doubles.v ===== *)
(** * Doubles

    A double is its 64 bits; what the code computes with doubles is Stdlib's binary64 arithmetic. The
    facts: bits and numbers correspond, and an operation whose exact result is a double gives it. *)

From Stdlib Require Import Floats.SpecFloat.
From S2P Require Import Prelude Bytes.
#[local] Open Scope Z_scope.

Module Binary64.

Definition of_bits (b : Z) : spec_float :=
  let s := Z.testbit b 63 in
  let e := Z.land (Z.shiftr b 52) 0x7ff in
  let m := Z.land b (2 ^ 52 - 1) in
  if e =? 0 then
    match m with Zpos p => S754_finite s p (-1074) | _ => S754_zero s end
  else if e =? 2047 then
    (if m =? 0 then S754_infinity s else S754_nan)
  else match m + 2 ^ 52 with Zpos p => S754_finite s p (e - 1075) | _ => S754_nan end.

Definition sign_bit (s : bool) : Z := if s then 2 ^ 63 else 0.

Definition quiet_NaN : Z := 0x7ff8000000000000.
Definition infinity : Z := 0x7ff0000000000000.

Definition to_bits (f : spec_float) : Z :=
  match f with
  | S754_zero s => sign_bit s
  | S754_infinity s => sign_bit s + infinity
  | S754_nan => quiet_NaN
  | S754_finite s m e =>
      if Zpos m <? 2 ^ 52 then sign_bit s + Zpos m
      else sign_bit s + (e + 1075) * 2 ^ 52 + (Zpos m - 2 ^ 52)
  end.

(** [-bin]. *)
Definition opp (b : Z) : Z := Z.lxor b (2 ^ 63).

Definition mul (a b : Z) : Z := to_bits (SFmul 53 1024 (of_bits a) (of_bits b)).
Definition ltb (a b : Z) : bool := SFltb (of_bits a) (of_bits b).
Definition leb (a b : Z) : bool := SFleb (of_bits a) (of_bits b).
Definition eqb (a b : Z) : bool := SFeqb (of_bits a) (of_bits b).
Definition isnan (b : Z) : bool := match of_bits b with S754_nan => true | _ => false end.
Definition isfinite (b : Z) : bool := match of_bits b with S754_finite _ _ _ | S754_zero _ => true | _ => false end.

(** [static_cast<double>] of an unsigned integer, rounding to nearest. *)
Definition of_u64 (z : Z) : Z := to_bits (binary_normalize 53 1024 z 0 false).

(** [static_cast<uint64_t>] of a double that fits. *)
Definition to_u64 (b : Z) : Z :=
  match of_bits b with S754_finite false m e => Z.shiftl (Zpos m) e | _ => 0 end.

(** The same of a signed integer, and of a double that fits one. *)
Definition of_i64 (z : Z) : Z := if z <? 0 then opp (of_u64 (- z)) else of_u64 z.
Definition to_i64 (b : Z) : Z :=
  match of_bits b with S754_finite s m e => if s then - Z.shiftl (Zpos m) e else Z.shiftl (Zpos m) e | _ => 0 end.

(** [std::ldexp(1, k)] for a normal result. *)
Definition ldexp1 (k : Z) : Z := (k + 1023) * 2 ^ 52.

(** [std::numeric_limits<double>::min()] and [max()]. *)
Definition min_normal : Z := 2 ^ 52.
Definition max_finite : Z := infinity - 1.

(** [std::abs] and [std::max]. *)
Definition abs (b : Z) : Z := Z.land b (2 ^ 63 - 1).
Definition max (a b : Z) : Z := if ltb a b then b else a.

(** ** Bits and numbers *)

(** The mantissas and exponents of doubles. *)
Definition double (m e : Z) : Prop :=
  2 ^ 52 <= m < 2 ^ 53 /\ -1074 <= e <= 971 \/ 0 < m < 2 ^ 52 /\ e = -1074.

Lemma land_low b n : 0 <= n -> Z.land b (2 ^ n - 1) = b mod 2 ^ n.
Proof. intros. rewrite <- Z.land_ones, Z.ones_equiv by done. by rewrite Z.sub_1_r. Qed.

(** The fields of the bits. *)
Lemma bits_fields b : 0 <= b < 2 ^ 64 ->
  exists s x y, b = sign_bit s + x * 2 ^ 52 + y /\ 0 <= x < 2 ^ 11 /\ 0 <= y < 2 ^ 52 /\
    Z.testbit b 63 = s /\ Z.land (Z.shiftr b 52) 0x7ff = x /\ Z.land b (2 ^ 52 - 1) = y.
Proof.
  intros Hb. exists (Z.testbit b 63), (Z.land (Z.shiftr b 52) 0x7ff), (Z.land b (2 ^ 52 - 1)).
  change 0x7ff with (2 ^ 11 - 1). rewrite !land_low, Z.shiftr_div_pow2, Z.testbit_eqb by lia.
  pose proof (Z.div_mod b (2 ^ 52) ltac:(lia)). pose proof (Z.mod_pos_bound b (2 ^ 52) ltac:(lia)).
  pose proof (Z.div_mod (b / 2 ^ 52) (2 ^ 11) ltac:(lia)). pose proof (Z.mod_pos_bound (b / 2 ^ 52) (2 ^ 11) ltac:(lia)).
  rewrite Z.div_div in * by lia. change (2 ^ 52 * 2 ^ 11) with (2 ^ 63) in *.
  assert (0 <= b / 2 ^ 63 < 2) as Hs by (split; [apply Z.div_pos; lia|apply Z.div_lt_upper_bound; lia]).
  split_and!; try done; try lia. unfold sign_bit. destruct (Z.eqb_spec ((b / 2 ^ 63) mod 2) 1) as [E|E];
    rewrite Z.mod_small in E by lia; lia.
Qed.

Lemma field_bits s x y : 0 <= x < 2 ^ 11 -> 0 <= y < 2 ^ 52 ->
  let b := sign_bit s + x * 2 ^ 52 + y in
  0 <= b < 2 ^ 64 /\ Z.testbit b 63 = s /\ Z.land (Z.shiftr b 52) 0x7ff = x /\ Z.land b (2 ^ 52 - 1) = y.
Proof.
  intros Hx Hy b. assert (0 <= b < 2 ^ 64) as Hb by (unfold b, sign_bit; destruct s; lia). split; [done|].
  change 0x7ff with (2 ^ 11 - 1). rewrite !land_low, Z.shiftr_div_pow2, Z.testbit_eqb by lia.
  assert (b = y + (x + (if s then 2 ^ 11 else 0)) * 2 ^ 52) as E by (unfold b, sign_bit; destruct s; lia).
  assert (b = (x * 2 ^ 52 + y) + (if s then 1 else 0) * 2 ^ 63) as E' by (unfold b, sign_bit; destruct s; lia).
  split_and!.
  - rewrite E', Z.div_add, Z.div_small by lia. by destruct s.
  - rewrite E, Z.div_add, Z.div_small by lia. destruct s; [|rewrite Z.mod_small; lia].
    replace (0 + (x + 2 ^ 11)) with (x + 1 * 2 ^ 11) by lia. rewrite Z.mod_add, Z.mod_small by lia. done.
  - rewrite E, Z.mod_add, Z.mod_small by lia. done.
Qed.

Lemma of_bits_double b s m e : of_bits b = S754_finite s m e -> double (Zpos m) e.
Proof.
  unfold of_bits, double. rewrite land_low by lia. set (x := Z.land _ _).
  assert (0 <= x < 2 ^ 11) as Hx by (unfold x; change 0x7ff with (2 ^ 11 - 1); rewrite land_low by lia; apply Z.mod_pos_bound; lia).
  pose proof (Z.mod_pos_bound b (2 ^ 52) ltac:(lia)) as Hy. destruct (Z.eqb_spec x 0).
  - destruct (b mod 2 ^ 52) eqn:E; try done. intros [= <- <- <-]. right. lia.
  - destruct (Z.eqb_spec x 2047); [by destruct (_ =? 0)|].
    destruct (b mod 2 ^ 52 + 2 ^ 52) eqn:E; try done. intros [= <- <- <-]. left. lia.
Qed.

Lemma of_bits_to_bits s m e : double (Zpos m) e ->
  of_bits (to_bits (S754_finite s m e)) = S754_finite s m e /\ 0 <= to_bits (S754_finite s m e) < 2 ^ 64.
Proof.
  intros H. cbn [to_bits]. destruct (Z.ltb_spec (Zpos m) (2 ^ 52)) as [Hlt|Hge].
  - destruct H as [|[Hm ->]]; [lia|]. destruct (field_bits s 0 (Zpos m) ltac:(lia) ltac:(lia)) as (Hb & H1 & H2 & H3).
    replace (sign_bit s + 0 * 2 ^ 52 + Zpos m) with (sign_bit s + Zpos m) in * by lia.
    split; [|done]. unfold of_bits. by rewrite H1, H2, H3.
  - destruct H as [[Hm He]|]; [|lia].
    destruct (field_bits s (e + 1075) (Zpos m - 2 ^ 52) ltac:(lia) ltac:(lia)) as (Hb & H1 & H2 & H3).
    split; [|done]. unfold of_bits. rewrite H1, H2, H3.
    destruct (Z.eqb_spec (e + 1075) 0); [lia|]. destruct (Z.eqb_spec (e + 1075) 2047); [lia|].
    replace (Zpos m - 2 ^ 52 + 2 ^ 52) with (Zpos m) by lia. f_equal. lia.
Qed.

Lemma to_bits_of_bits b : 0 <= b < 2 ^ 64 -> of_bits b <> S754_nan -> to_bits (of_bits b) = b.
Proof.
  intros Hb Hn. destruct (bits_fields b Hb) as (s & x & y & E & Hx & Hy & H1 & H2 & H3).
  unfold of_bits in *. rewrite H1, H2, H3 in Hn |- *. clear H1 H2 H3. destruct (Z.eqb_spec x 0) as [->|Hx0].
  - destruct y as [|p|p]; cbn [to_bits]; [lia| |lia]. rewrite (proj2 (Z.ltb_lt _ _)) by lia. lia.
  - destruct (Z.eqb_spec x 2047) as [->|Hx1].
    + destruct (Z.eqb_spec y 0) as [Ey|]; [|done]. cbn [to_bits]. unfold infinity. lia.
    + destruct (y + 2 ^ 52) as [|p|p] eqn:Ey; try lia. cbn [to_bits]. rewrite (proj2 (Z.ltb_ge _ _)) by lia. lia.
Qed.

Lemma of_bits_ldexp1 k : -1022 <= k <= 1023 ->
  of_bits (ldexp1 k) = S754_finite false (2 ^ 52)%positive (k - 52) /\ double (2 ^ 52) (k - 52).
Proof.
  intros Hk. assert (double (2 ^ 52) (k - 52)) as Hd by (left; lia). split; [|done].
  destruct (of_bits_to_bits false (2 ^ 52)%positive (k - 52) Hd) as [H _].
  rewrite <- H at 1. f_equal. unfold ldexp1. cbn [to_bits]. rewrite (proj2 (Z.ltb_ge _ _)) by lia.
  unfold sign_bit. lia.
Qed.

(** ** Exact results *)

Lemma digits_log2 p : Zpos (digits2_pos p) = Z.log2 (Zpos p) + 1.
Proof.
  induction p as [p IH|p IH|]; cbn [digits2_pos]; [| |done]; rewrite Pos2Z.inj_succ, IH.
  - change (Zpos p~1) with (2 * Zpos p + 1). rewrite Z.log2_succ_double by lia. lia.
  - change (Zpos p~0) with (2 * Zpos p). rewrite Z.log2_double by lia. lia.
Qed.

Lemma fexp_double m e : double (Zpos m) e -> fexp 53 1024 (Z.log2 (Zpos m) + 1 + e) = e.
Proof.
  unfold fexp, emin. intros [[Hm He]|[Hm ->]].
  - assert (Z.log2 (Zpos m) = 52) by (apply Z.log2_unique; lia). lia.
  - assert (Z.log2 (Zpos m) < 52) by (apply Z.log2_lt_pow2; lia). lia.
Qed.

Lemma shr_1_double z : 0 <= z -> shr_1 (Build_shr_record (2 * z) false false) = Build_shr_record z false false.
Proof. destruct z; intros; done. Qed.

Lemma shr_iter p : forall z, 0 <= z ->
  SpecFloat.iter_pos shr_1 p (Build_shr_record (z * 2 ^ Zpos p) false false) = Build_shr_record z false false.
Proof.
  induction p as [p IH|p IH|]; intros z Hz; cbn [SpecFloat.iter_pos].
  - replace (z * 2 ^ Zpos p~1) with (2 * (z * 2 ^ Zpos p * 2 ^ Zpos p)).
    + assert (0 <= z * 2 ^ Zpos p) by (apply Z.mul_nonneg_nonneg; [done|apply Z.pow_nonneg; lia]).
      assert (0 <= z * 2 ^ Zpos p * 2 ^ Zpos p) by (apply Z.mul_nonneg_nonneg; [done|apply Z.pow_nonneg; lia]).
      by rewrite shr_1_double, IH, IH by done.
    + change (Zpos p~1) with (2 * Zpos p + 1). rewrite Z.pow_add_r, Z.pow_mul_r, Z.pow_1_r, Z.pow_2_r, Z.pow_mul_l by lia. ring.
  - replace (z * 2 ^ Zpos p~0) with (z * 2 ^ Zpos p * 2 ^ Zpos p).
    + assert (0 <= z * 2 ^ Zpos p) by (apply Z.mul_nonneg_nonneg; [done|apply Z.pow_nonneg; lia]). by rewrite IH, IH by done.
    + change (Zpos p~0) with (2 * Zpos p). rewrite Z.pow_mul_r, Z.pow_2_r, Z.pow_mul_l by lia. ring.
  - rewrite Z.pow_1_r, Z.mul_comm. by apply shr_1_double.
Qed.

(** A double, however it is written, rounds to itself. *)
Lemma round_exact s m e m' n : double (Zpos m') (e + n) -> 0 <= n -> Zpos m = Zpos m' * 2 ^ n ->
  binary_round_aux 53 1024 s (Zpos m) e loc_Exact = S754_finite s m' (e + n).
Proof.
  intros Hd Hn Em. pose proof (fexp_double _ _ Hd) as Hf.
  assert (shr_fexp 53 1024 (Zpos m) e loc_Exact = (Build_shr_record (Zpos m') false false, e + n)) as E1.
  { unfold shr_fexp. cbn [shr_record_of_loc]. unfold Zdigits2. rewrite digits_log2.
    assert (Z.log2 (Zpos m) = Z.log2 (Zpos m') + n) as -> by (rewrite Em, Z.log2_mul_pow2; lia).
    replace (Z.log2 (Zpos m') + n + 1 + e) with (Z.log2 (Zpos m') + 1 + (e + n)) by lia. rewrite Hf.
    replace (e + n - e) with n by lia. destruct n as [|p|p]; [| |lia].
    - cbn. rewrite Z.mul_1_r in Em. by rewrite Em, Z.add_0_r.
    - cbn [shr]. rewrite Em, shr_iter by lia. done. }
  unfold binary_round_aux. rewrite E1. cbn [shr_m loc_of_shr_record round_nearest_even].
  assert (shr_fexp 53 1024 (Zpos m') (e + n) loc_Exact = (Build_shr_record (Zpos m') false false, e + n)) as E2.
  { unfold shr_fexp. cbn [shr_record_of_loc]. unfold Zdigits2. rewrite digits_log2, Hf, Z.sub_diag. done. }
  rewrite E2. cbn [shr_m]. rewrite (proj2 (Z.leb_le _ _)); [done|]. destruct Hd as [|]; lia.
Qed.

(** Scaling by a power of two. *)
Lemma mul_ldexp1 b k s m e m' n : of_bits b = S754_finite s m e -> -1022 <= k <= 1023 ->
  double (Zpos m') (e + k - 52 + n) -> 0 <= n -> Zpos m * 2 ^ 52 = Zpos m' * 2 ^ n ->
  mul b (ldexp1 k) = to_bits (S754_finite s m' (e + k - 52 + n)).
Proof.
  intros Hb Hk Hd Hn Em. unfold mul. destruct (of_bits_ldexp1 k Hk) as [-> _]. rewrite Hb. cbn [SFmul].
  rewrite xorb_false_r. f_equal. replace (e + (k - 52)) with (e + k - 52) by lia. by apply round_exact.
Qed.

Lemma iter_xO p d : Zpos (Pos.iter xO p d) = Zpos p * 2 ^ Zpos d.
Proof.
  induction d as [|d IH] using Pos.peano_ind; [cbn; lia|].
  rewrite Pos.iter_succ, Pos2Z.inj_succ, Z.pow_succ_r by lia.
  rewrite Pos2Z.inj_xO, IH. ring.
Qed.

(** An integer of 53 bits or with as few significant ones, as a double. *)
Lemma of_u64_exact z m e : 0 < z -> double (Zpos m) e -> z * 2 ^ Z.max (- e) 0 = Zpos m * 2 ^ Z.max e 0 ->
  of_u64 z = to_bits (S754_finite false m e).
Proof.
  intros Hz Hd E. unfold of_u64. destruct z as [|p|p]; try lia. cbn [binary_normalize]. f_equal. unfold binary_round.
  pose proof (fexp_double _ _ Hd) as Hf. rewrite digits_log2, Z.add_0_r.
  assert (Z.log2 (Zpos p) = Z.log2 (Zpos m) + e) as El.
  { assert (Z.log2 (Zpos p) + Z.max (- e) 0 = Z.log2 (Zpos m) + Z.max e 0); [|lia].
    pose proof (f_equal Z.log2 E) as El. rewrite !Z.log2_mul_pow2 in El by lia. lia. }
  replace (Z.log2 (Zpos p) + 1) with (Z.log2 (Zpos m) + 1 + e) by lia. rewrite Hf. unfold shl_align.
  rewrite Z.sub_0_r. destruct e as [|d|d].
  - change (S754_finite false m 0) with (S754_finite false m (0 + 0)). apply (round_exact _ _ 0 _ 0); try done.
    change (2 ^ Z.max (- 0) 0) with 1 in E. change (2 ^ Z.max 0 0) with 1 in E. rewrite Z.pow_0_r. lia.
  - rewrite Z.max_r, Z.max_l, Z.pow_0_r, Z.mul_1_r in E by lia. exact (round_exact false p 0 m (Zpos d) Hd ltac:(lia) E).
  - rewrite Z.max_l, Z.max_r, Z.pow_0_r, Z.mul_1_r in E by lia.
    assert (double (Zpos m) (Zneg d + 0)) as Hd' by (by rewrite Z.add_0_r).
    pose proof (round_exact false (Pos.iter xO p d) (Zneg d) m 0 Hd' ltac:(lia)) as H.
    rewrite Z.add_0_r in H. apply H. rewrite iter_xO, Z.pow_0_r. change (- Zneg d) with (Zpos d) in E. lia.
Qed.

(** ** Magnitudes

    Positive doubles compare as their bits. *)

Definition magnitude (b : Z) : Prop := 0 <= b <= infinity.

(** What the bits of a magnitude are: zero, subnormal, normal or infinite. *)
Lemma of_bits_magnitude b : magnitude b ->
  b = 0 /\ of_bits b = S754_zero false \/
  b = infinity /\ of_bits b = S754_infinity false \/
  exists m e, of_bits b = S754_finite false m e /\ double (Zpos m) e /\
    b = (if Zpos m <? 2 ^ 52 then Zpos m else (e + 1075) * 2 ^ 52 + (Zpos m - 2 ^ 52)).
Proof.
  unfold magnitude, infinity. intros Hb. assert (of_bits b <> S754_nan /\ Z.testbit b 63 = false) as [Hn Hs].
  { destruct (bits_fields b ltac:(lia)) as (s & x & y & E & Hx & Hy & H1 & H2 & H3).
    assert (s = false) as -> by (destruct s; [change (sign_bit true) with (2 ^ 63) in E; lia|done]). split; [|done].
    unfold of_bits. rewrite H1, H2, H3. change (sign_bit false) with 0 in E. destruct (Z.eqb_spec x 0); [by destruct y|].
    destruct (Z.eqb_spec x 2047); [destruct (Z.eqb_spec y 0); [done|lia]|]. destruct (y + 2 ^ 52) eqn:Ey; try lia; done. }
  pose proof (to_bits_of_bits b ltac:(lia) Hn) as E. destruct (of_bits b) as [s|s| |s m e] eqn:Eb; [| |done|].
  - left. destruct s; [|by split]. rewrite <- E in Hb. vm_compute in Hb. by destruct Hb.
  - right. left. destruct s; [|by split]. rewrite <- E in Hb. vm_compute in Hb. by destruct Hb.
  - right. right. exists m, e. destruct s.
    { unfold of_bits in Eb. rewrite Hs in Eb. repeat case_match; done. }
    split_and!; [done|by eapply of_bits_double|]. rewrite <- E. unfold to_bits, sign_bit. case_match; lia.
Qed.

Lemma compare_cont_Eq p q : Pos.compare_cont Eq p q = (Zpos p ?= Zpos q).
Proof. done. Qed.

Lemma compare_magnitude a b : magnitude a -> magnitude b ->
  SFcompare (of_bits a) (of_bits b) = Some (a ?= b).
Proof.
  intros Ha Hb. assert (0 < infinity) by done.
  destruct (of_bits_magnitude a Ha) as [[Ea ->]|[[Ea ->]|(m & e & -> & Hd & Ea)]];
  destruct (of_bits_magnitude b Hb) as [[Eb ->]|[[Eb ->]|(m' & e' & -> & Hd' & Eb)]];
    cbn [SFcompare]; f_equal; symmetry;
    try (rewrite ?Z.compare_eq_iff, ?Z.compare_lt_iff, ?Z.compare_gt_iff;
         repeat match goal with H : context [if ?c then _ else _] |- _ => destruct c eqn:? end;
         unfold double, infinity in *; lia).
  rewrite compare_cont_Eq. unfold double in *.
  destruct (Z.ltb_spec (Zpos m) (2 ^ 52)), (Z.ltb_spec (Zpos m') (2 ^ 52)).
  all: destruct (Z.compare_spec e e') as [Ee|Ee|Ee];
    rewrite ?Z.compare_lt_iff, ?Z.compare_gt_iff; try lia.
  all: destruct (Z.compare_spec (Zpos m) (Zpos m')); rewrite ?Z.compare_eq_iff, ?Z.compare_lt_iff, ?Z.compare_gt_iff; lia.
Qed.

Lemma ltb_magnitude a b : magnitude a -> magnitude b -> ltb a b = (a <? b).
Proof. intros Ha Hb. unfold ltb, SFltb. by rewrite compare_magnitude. Qed.

Lemma leb_magnitude a b : magnitude a -> magnitude b -> leb a b = (a <=? b).
Proof. intros Ha Hb. unfold leb, SFleb, Z.leb. rewrite compare_magnitude by done. by destruct (a ?= b). Qed.

Lemma eqb_magnitude a b : magnitude a -> magnitude b -> eqb a b = (a =? b).
Proof.
  intros Ha Hb. unfold eqb, SFeqb. rewrite compare_magnitude by done.
  destruct (Z.compare_spec a b), (Z.eqb_spec a b); done || lia.
Qed.

(** ** Signs *)

Lemma land_top m : 0 <= m < 2 ^ 63 -> Z.land m (2 ^ 63) = 0.
Proof.
  intros Hm. apply Z.bits_inj'. intros i Hi. rewrite Z.land_spec, Z.bits_0.
  destruct (decide (i = 63)) as [->|]; [|by rewrite Z.pow2_bits_false, andb_false_r by lia].
  apply andb_false_iff. left. rewrite Z.testbit_eqb, Z.div_small by lia. done.
Qed.

Lemma opp_sign s m : 0 <= m < 2 ^ 63 -> opp (sign_bit s + m) = sign_bit (negb s) + m.
Proof.
  intros Hm. unfold opp. pose proof (Z.add_nocarry_lxor m (2 ^ 63) (land_top m Hm)) as E.
  destruct s; cbn [negb]; unfold sign_bit.
  - by rewrite Z.add_comm, E, Z.lxor_assoc, Z.lxor_nilpotent, Z.lxor_0_r.
  - rewrite Z.add_0_l, <- E. lia.
Qed.

Lemma of_bits_sign s m : 0 <= m < 2 ^ 63 ->
  of_bits (sign_bit s + m) = (if s then SFopp (of_bits m) else of_bits m).
Proof.
  intros Hm. destruct s; [|by rewrite Z.add_0_l].
  destruct (bits_fields m ltac:(lia)) as (s' & x & y & E & Hx & Hy & H1 & H2 & H3).
  assert (s' = false) as -> by (destruct s'; [change (sign_bit true) with (2 ^ 63) in E; lia|done]).
  destruct (field_bits true x y Hx Hy) as (_ & H1' & H2' & H3').
  rewrite <- Z.add_assoc in H1', H2', H3'. change (sign_bit false) with 0 in E. rewrite Z.add_0_l in E. rewrite <- E in H1', H2', H3'.
  unfold of_bits. rewrite H1, H2, H3, H1', H2', H3'. destruct (x =? 0); [by destruct y|].
  destruct (x =? 2047); [by destruct (y =? 0)|]. by destruct (y + 2 ^ 52).
Qed.

(** A number is a sign and a magnitude. *)
Lemma signed_magnitude b : 0 <= b < 2 ^ 64 -> of_bits b <> S754_nan ->
  exists s m, b = sign_bit s + m /\ magnitude m.
Proof.
  intros Hb Hn. destruct (bits_fields b Hb) as (s & x & y & E & Hx & Hy & H1 & H2 & H3).
  exists s, (x * 2 ^ 52 + y). split; [lia|]. unfold of_bits in Hn. rewrite H2, H3 in Hn. unfold magnitude, infinity.
  destruct (Z.eqb_spec x 0); [lia|]. destruct (Z.eqb_spec x 2047); [|lia]. destruct (Z.eqb_spec y 0); [lia|done].
Qed.

Lemma magnitude_small m : magnitude m -> 0 <= m < 2 ^ 63.
Proof. unfold magnitude, infinity. lia. Qed.

(** The sign of a number that is not zero. *)
Lemma ltb_sign s m : magnitude m -> 0 < m -> ltb (sign_bit s + m) 0 = s /\ ltb 0 (sign_bit s + m) = negb s.
Proof.
  intros Hm Hp. pose proof (of_bits_sign s m (magnitude_small _ Hm)) as E. unfold ltb. rewrite E.
  change (of_bits 0) with (S754_zero false).
  destruct (of_bits_magnitude m Hm) as [[-> _]|[[_ ->]|(p & e & -> & _)]]; [lia|by destruct s|by destruct s].
Qed.

(** ** Scaling tiny numbers *)

Lemma double_normal p e : double (Zpos p) e -> exists p' j, 0 <= j /\ Zpos p' = Zpos p * 2 ^ j /\
  2 ^ 52 <= Zpos p' < 2 ^ 53 /\ j = 52 - Z.log2 (Zpos p).
Proof.
  intros Hd. assert (Z.log2 (Zpos p) <= 52) as Hl.
  { enough (Z.log2 (Zpos p) < 53) by lia. apply Z.log2_lt_pow2; unfold double in Hd; lia. }
  pose proof (Z.log2_nonneg (Zpos p)). pose proof (Z.log2_spec (Zpos p) ltac:(lia)) as [H1 H2].
  set (l := Z.log2 (Zpos p)) in *. exists (Z.to_pos (Zpos p * 2 ^ (52 - l))), (52 - l).
  assert (2 ^ 52 = 2 ^ l * 2 ^ (52 - l)) as E by (rewrite <- Z.pow_add_r by lia; f_equal; lia).
  assert (0 < 2 ^ (52 - l)) by (apply Z.pow_pos_nonneg; lia). rewrite Z.pow_succ_r in H2 by lia.
  rewrite Z2Pos.id by lia. split_and!; [lia|done| |nia|lia]. rewrite E. by apply Z.mul_le_mono_nonneg_r; [lia|].
Qed.

Lemma scale_tiny m : 0 < m < ldexp1 (-255) ->
  exists w, mul m (ldexp1 256) = w /\ 0 <= w < 2 ^ 62 /\ mul w (ldexp1 (-256)) = m /\
    exists p e p' e', of_bits m = S754_finite false p e /\ of_bits w = S754_finite false p' e' /\
      -1074 <= e /\ -1074 <= e' /\ Zpos p' * 2 ^ (e' + 1074) = Zpos p * 2 ^ (e + 1074) * 2 ^ 256.
Proof.
  change (ldexp1 (-255)) with (768 * 2 ^ 52). intros Hm. assert (magnitude m) as Hmag by (unfold magnitude, infinity; lia).
  destruct (of_bits_magnitude m Hmag) as [[-> _]|[[-> _]|(p & e & Eb & Hd & Em)]]; [lia|unfold infinity in Hm; lia|].
  assert (to_bits (S754_finite false p e) = m) as Et by (rewrite <- Eb; apply to_bits_of_bits; [lia|by rewrite Eb]).
  destruct (double_normal p e Hd) as (p' & j & Hj & Ep & Hp & El). pose proof (Z.log2_nonneg (Zpos p)).
  assert (-1074 <= e /\ e - j < -307) as [He He'].
  { unfold double in Hd. destruct (Z.ltb_spec (Zpos p) (2 ^ 52)).
    - assert (Z.log2 (Zpos p) < 52) by (apply Z.log2_lt_pow2; lia). lia.
    - assert (Z.log2 (Zpos p) = 52) by (apply Z.log2_unique; lia). lia. }
  assert (double (Zpos p') (e + 256 - j)) as Hd' by (left; lia).
  exists (to_bits (S754_finite false p' (e + 256 - j))).
  destruct (of_bits_to_bits false p' _ Hd') as [Eb' Hr]. split_and!.
  - replace (e + 256 - j) with (e + 256 - 52 + (52 - j)) by lia.
    apply (mul_ldexp1 m 256 false p e p' (52 - j)); try done; try lia.
    + by replace (e + 256 - 52 + (52 - j)) with (e + 256 - j) by lia.
    + rewrite Ep, <- Z.mul_assoc, <- Z.pow_add_r by lia. do 2 f_equal. lia.
  - lia.
  - cbn [to_bits]. rewrite (proj2 (Z.ltb_ge _ _)) by lia. unfold sign_bit. lia.
  - rewrite <- Et. replace e with (e + 256 - j + -256 - 52 + (52 + j)) at 2 by lia.
    apply (mul_ldexp1 _ (-256) false p' _ p (52 + j)); try done; try lia.
    + by replace (e + 256 - j + -256 - 52 + (52 + j)) with e by lia.
    + rewrite Ep, <- Z.mul_assoc, <- Z.pow_add_r by lia. do 2 f_equal. lia.
  - exists p, e, p', (e + 256 - j). split_and!; try done; try lia.
    rewrite Ep, <- !Z.mul_assoc, <- !Z.pow_add_r by lia. do 2 f_equal. lia.
Qed.

(** ** Numbers from 1 to 2^63 *)

Lemma magnitude_finite p e : double (Zpos p) e -> magnitude (to_bits (S754_finite false p e)).
Proof.
  intros Hd. unfold magnitude, infinity. cbn [to_bits]. unfold double, sign_bit in *.
  destruct (Z.ltb_spec (Zpos p) (2 ^ 52)); lia.
Qed.

Lemma of_bits_middle m : ldexp1 0 <= m < ldexp1 63 ->
  exists p e, of_bits m = S754_finite false p e /\ to_bits (S754_finite false p e) = m /\
    2 ^ 52 <= Zpos p < 2 ^ 53 /\ -52 <= e <= 10.
Proof.
  change (ldexp1 0) with (1023 * 2 ^ 52). change (ldexp1 63) with (1086 * 2 ^ 52). intros Hm.
  assert (magnitude m) as Hmag by (unfold magnitude, infinity; lia).
  destruct (of_bits_magnitude m Hmag) as [[-> _]|[[-> _]|(p & e & Eb & Hd & Em)]]; [lia|unfold infinity in Hm; lia|].
  exists p, e. split; [done|]. split; [rewrite <- Eb; apply to_bits_of_bits; [lia|by rewrite Eb]|].
  unfold double in Hd. destruct (Z.ltb_spec (Zpos p) (2 ^ 52)); lia.
Qed.

(** The integer part, and the double it is. *)
Lemma integer_part p e : 2 ^ 52 <= Zpos p < 2 ^ 53 -> -52 <= e <= 10 ->
  let n := Z.shiftl (Zpos p) e in let q := Z.shiftl n (- e) in
  1 <= n < 2 ^ 63 /\ Z.log2 n = 52 + e /\ 2 ^ 52 <= q <= Zpos p /\ of_u64 n = to_bits (S754_finite false (Z.to_pos q) e).
Proof.
  intros Hp He n q. assert (Z.log2 (Zpos p) = 52) as Hl by (apply Z.log2_unique; lia).
  assert (2 ^ 52 <= q <= Zpos p /\ 1 <= n < 2 ^ 63 /\ n * 2 ^ Z.max (- e) 0 = q * 2 ^ Z.max e 0) as (Hq & Hn & E).
  { destruct (Z.le_gt_cases 0 e) as [Hge|Hlt].
    - assert (n = Zpos p * 2 ^ e) as En by (unfold n; by rewrite Z.shiftl_mul_pow2).
      assert (0 < 2 ^ e) by (apply Z.pow_pos_nonneg; lia).
      assert (q = Zpos p) as Eq by (unfold q; rewrite En, Z.shiftl_opp_r, Z.shiftr_div_pow2, Z.div_mul; lia).
      rewrite Eq, En. assert (2 ^ e <= 2 ^ 10) by (apply Z.pow_le_mono_r; lia).
      rewrite Z.max_r, Z.max_l by lia. split; [lia|]. split; [nia|]. by rewrite Z.mul_1_r.
    - assert (n = Zpos p / 2 ^ (- e)) as En by (unfold n; by rewrite <- Z.shiftr_opp_r, Z.shiftr_div_pow2 by lia).
      assert (0 < 2 ^ (- e)) by (apply Z.pow_pos_nonneg; lia).
      assert (q = n * 2 ^ (- e)) as Eq by (unfold q; by rewrite Z.shiftl_mul_pow2 by lia).
      assert (2 ^ 52 = 2 ^ (52 + e) * 2 ^ (- e)) as E52 by (rewrite <- Z.pow_add_r by lia; f_equal; lia).
      assert (0 < 2 ^ (52 + e)) by (apply Z.pow_pos_nonneg; lia).
      assert (2 ^ (52 + e) <= n) by (rewrite En; apply Z.div_le_lower_bound; lia).
      pose proof (Z.mul_div_le (Zpos p) (2 ^ (- e)) ltac:(lia)) as Hdiv. rewrite <- En in Hdiv.
      rewrite Z.max_l, Z.max_r, Z.pow_0_r by lia. rewrite Eq. split; [nia|]. split; [nia|lia]. }
  assert (Z.log2 q = 52) as Hlq by (apply Z.log2_unique; lia). split; [done|]. split.
  { pose proof (f_equal Z.log2 E) as El. rewrite !Z.log2_mul_pow2 in El by lia. lia. }
  split; [done|]. apply of_u64_exact; [lia|left; rewrite Z2Pos.id by lia; lia|by rewrite Z2Pos.id by lia].
Qed.

(** A number is its integer part or not. *)
Lemma integer_part_eqb m p e : magnitude m -> of_bits m = S754_finite false p e -> to_bits (S754_finite false p e) = m ->
  2 ^ 52 <= Zpos p < 2 ^ 53 -> -52 <= e <= 10 ->
  eqb (of_u64 (Z.shiftl (Zpos p) e)) m = (Z.shiftl (Z.shiftl (Zpos p) e) (- e) =? Zpos p).
Proof.
  intros Hm Eb Et Hp He. destruct (integer_part p e Hp He) as (_ & _ & Hq & ->). set (q := Z.shiftl _ (- e)) in *.
  assert (double (Zpos (Z.to_pos q)) e) as Hd by (left; rewrite Z2Pos.id; lia).
  rewrite eqb_magnitude by (done || by apply magnitude_finite). rewrite <- Et at 1.
  apply eq_true_iff_eq. rewrite !Z.eqb_eq. split; [|intros Eq; by rewrite Eq].
  intros Eq. apply (f_equal of_bits) in Eq. rewrite Et, Eb in Eq.
  destruct (of_bits_to_bits false _ _ Hd) as [E' _]. rewrite E' in Eq. injection Eq as Eq. rewrite <- Eq. lia.
Qed.

(** Scaling such a number until it is an integer, and back. *)
Lemma scale_fraction m p e k : of_bits m = S754_finite false p e -> to_bits (S754_finite false p e) = m ->
  2 ^ 52 <= Zpos p < 2 ^ 53 -> -52 <= e -> 0 <= e + k <= 10 -> 0 <= k ->
  to_u64 (mul m (ldexp1 k)) = Zpos p * 2 ^ (e + k) /\ mul (of_u64 (Zpos p * 2 ^ (e + k))) (ldexp1 (- k)) = m.
Proof.
  intros Eb Et Hp He Hk Hk0. assert (double (Zpos p) (e + k)) as Hd by (left; lia).
  destruct (of_bits_to_bits false p (e + k) Hd) as [E1 _]. split.
  - rewrite (mul_ldexp1 m k false p e p 52); try done; try lia; replace (e + k - 52 + 52) with (e + k) by lia; [|done].
    unfold to_u64. rewrite E1. apply Z.shiftl_mul_pow2. lia.
  - rewrite (of_u64_exact _ p (e + k)); [|apply Z.mul_pos_pos; [lia|apply Z.pow_pos_nonneg; lia]|done|].
    + rewrite (mul_ldexp1 _ (- k) false p (e + k) p 52); try done; try lia; replace (e + k + - k - 52 + 52) with e by lia; [done|].
      left; lia.
    + rewrite (Z.max_r (- (e + k))), Z.max_l by lia. lia.
Qed.

End Binary64.
