(* ===== verification/Decimals.v ===== *)
(** * Decimal128 (platform/decimal128.{h,cpp})

    The 128-bit decimal: its fields, and the constructor from a double, which rounds to exactly 15
    digits and asserts that it did. The Intel library below the class is the parameter [IntelDecimal]; [IEEEDecimal] is
    what IEEE 754-2008 says of the two operations the constructor is built on. *)

From Stdlib Require Import Floats.SpecFloat.
From S2P Require Import Prelude Bytes Doubles.
#[local] Open Scope Z_scope.

(** ** Decimals *)

(** A decimal's 64 high and 64 low bits. *)
Abbreviation Decimal := (Z * Z)%type.

Inductive RoundingPrecision := kRoundTo15Digits | kRoundTo34Digits.

Inductive RoundingMode :=
  kRoundTiesToEven | kRoundTowardNegative | kRoundTowardPositive | kRoundTowardZero | kRoundTiesToAway.

#[global] Instance RoundingPrecision_eq_dec : EqDecision RoundingPrecision.
Proof. solve_decision. Defined.

(** The library's operations; the second part of a result is the signaling flags. *)
Record IntelDecimal := {
  bid128_from_int32 : Z -> Decimal;
  bid128_from_int64 : Z -> Decimal;
  binary64_to_bid128 : Z -> RoundingMode -> Decimal;
  bid128_to_binary64 : Decimal -> RoundingMode -> Z * Z;
  bid128_quantize : Decimal -> Decimal -> RoundingMode -> Decimal * Z;
  bid128_isSigned : Decimal -> bool;
  bid128_isZero : Decimal -> bool;
  bid128_isNaN : Decimal -> bool;
  bid128_isInf : Decimal -> bool;
  bid128_isFinite : Decimal -> bool;
  bid128_add : Decimal -> Decimal -> RoundingMode -> Decimal * Z;
  bid128_sub : Decimal -> Decimal -> RoundingMode -> Decimal * Z;
  bid128_mul : Decimal -> Decimal -> RoundingMode -> Decimal * Z;
  bid128_quiet_equal : Decimal -> Decimal -> bool;
  bid128_quiet_less : Decimal -> Decimal -> bool;
  bid128_quiet_greater : Decimal -> Decimal -> bool;
}.

Module Decimal128.

Definition getCombinationField (d : Decimal) : Z := Z.land (Z.shiftr d.1 46) (2 ^ 17 - 1).

Definition kCombinationNonCanonical : Z := Z.shiftl 3 15.
Definition kCombinationInfinity : Z := Z.shiftl 0x1e 12.
Definition kMaxBiasedExponent : Z := 6143 + 6144.
Definition kExponentBias : Z := 6143 + 33.
Definition kCanonicalCoefficientHighFieldMask : Z := 2 ^ 49 - 1.

Definition getBiasedExponent (d : Decimal) : Z :=
  let combo := getCombinationField d in
  if combo <? kCombinationNonCanonical then Z.shiftr combo 3
  else if kCombinationInfinity <=? combo then kMaxBiasedExponent + 1
  else Z.land (Z.shiftr combo 1) (2 ^ 14 - 1).

Definition getCoefficientHigh (d : Decimal) : Z :=
  if getCombinationField d <? kCombinationNonCanonical then Z.land d.1 kCanonicalCoefficientHighFieldMask else 0.

Definition getCoefficientLow (d : Decimal) : Z :=
  if getCombinationField d <? kCombinationNonCanonical then d.2 else 0.

(** The constructor from parts. *)
Definition make (sign : bool) (exponent coefficientHigh coefficientLow : Z) : Decimal :=
  (wrap64 (Z.lor (Z.lor (Z.shiftl (if sign then 1 else 0) 63) (Z.shiftl exponent 49)) coefficientHigh),
   coefficientLow).

Definition isValid (sign : bool) (exponent coefficientHigh coefficientLow : Z) : bool :=
  if (0x1ed09bead87c0 <=? coefficientHigh)
     && (negb (coefficientHigh =? 0x1ed09bead87c0) || negb (coefficientLow =? 0x378d8e63ffffffff))
  then false
  else getBiasedExponent (make sign exponent coefficientHigh coefficientLow) =? exponent.

Definition negate (d : Decimal) : Decimal := (Z.lxor d.1 (2 ^ 63), d.2).

Definition kLargestNegativeExponentZero : Decimal := (0, 0).
Definition kNormalizedZero : Decimal := (Z.shiftl kExponentBias 49, 0).
Definition kPositiveNaN : Decimal := (Z.shiftl 0x7c 56, 0).

Definition kNoFlag : Z := 0x00.
Definition kOverflow : Z := 0x08.
Definition kInexact : Z := 0x20.
Definition hasFlag (signalingFlags f : Z) : bool := negb (Z.land signalingFlags f =? 0).

Section Library.

Context (L : IntelDecimal).

Definition isNegative (d : Decimal) : bool := bid128_isSigned L d.
Definition isZero (d : Decimal) : bool := bid128_isZero L d.
Definition isNaN (d : Decimal) : bool := bid128_isNaN L d.
Definition isInfinite (d : Decimal) : bool := bid128_isInf L d.
Definition isFinite (d : Decimal) : bool := bid128_isFinite L d.
Definition isEqual (d other : Decimal) : bool := bid128_quiet_equal L d other.
Definition isLess (d other : Decimal) : bool := bid128_quiet_less L d other.
Definition isGreater (d other : Decimal) : bool := bid128_quiet_greater L d other.

(** The operations, with the flags they signal. *)
Definition add (d other : Decimal) (mode : RoundingMode) : Decimal * Z := bid128_add L d other mode.
Definition subtract (d other : Decimal) (mode : RoundingMode) : Decimal * Z := bid128_sub L d other mode.
Definition multiply (d other : Decimal) (mode : RoundingMode) : Decimal * Z := bid128_mul L d other mode.
Definition quantize (d reference : Decimal) (mode : RoundingMode) : Decimal * Z := bid128_quantize L d reference mode.
Definition toDouble (d : Decimal) (mode : RoundingMode) : Z * Z := bid128_to_binary64 L d mode.

Definition normalize (d : Decimal) : Decimal := (add d kLargestNegativeExponentZero kRoundTiesToEven).1.

Definition of_int32 (int32Value : Z) : Decimal := bid128_from_int32 L int32Value.
Definition of_int64 (int64Value : Z) : Decimal := bid128_from_int64 L int64Value.

(** The binary exponent of a double that is finite and not zero: [frexp]'s less one. *)
Definition base2Exp (f : spec_float) : option Z :=
  match f with S754_finite _ m e => Some (e + Z.log2 (Zpos m)) | _ => None end.

(** The guess at the decimal exponent. *)
Definition base10Exp (base2Exp : Z) : Z :=
  let guess := Z.quot (base2Exp * 30103) (100 * 1000) in
  if base2Exp <? 0 then guess - 1 else guess.

Definition kSmallest15DigitInt : Z := 10 ^ 14.
Definition kLargest15DigitInt : Z := 10 ^ 15 - 1.

(** The constructor from a double. *)
Definition of_double (doubleValue : Z) (precision : RoundingPrecision) (mode : RoundingMode) : result Decimal :=
  let convertedDoubleValue := binary64_to_bid128 L doubleValue mode in
  match base2Exp (Binary64.of_bits doubleValue) with
  | None => Ok convertedDoubleValue
  | Some e2 =>
      if bool_decide (precision = kRoundTo34Digits) then Ok convertedDoubleValue
      else
        let e10 := base10Exp e2 in
        let d := (quantize convertedDoubleValue (make false (e10 - 14 + kExponentBias) 0 1) mode).1 in
        let d :=
          if kLargest15DigitInt <? getCoefficientLow d
          then (quantize convertedDoubleValue (make false (e10 - 13 + kExponentBias) 0 1) mode).1 else d in
        let! _ := invariant (getCoefficientHigh d =? 0) in
        let! _ := invariant (kSmallest15DigitInt <=? getCoefficientLow d) in
        let! _ := invariant (getCoefficientLow d <=? kLargest15DigitInt) in
        Ok d
  end.

End Library.

End Decimal128.


(** ** What IEEE 754-2008 says of the library *)

(** The integer [n / d] is rounded to, for a number of sign [s] of that magnitude. *)
Definition round_div (mode : RoundingMode) (s : bool) (n d : Z) : Z :=
  let q := n / d in
  let r := n mod d in
  let up :=
    match mode with
    | kRoundTiesToEven => (d <? 2 * r) || ((2 * r =? d) && Z.odd q)
    | kRoundTiesToAway => d <=? 2 * r
    | kRoundTowardZero => false
    | kRoundTowardNegative => s && (0 <? r)
    | kRoundTowardPositive => negb s && (0 <? r)
    end in
  if up then q + 1 else q.

(** The magnitude [m * 2^e * 10^k] as a fraction. *)
Definition num (m e k : Z) : Z := m * 2 ^ Z.max e 0 * 10 ^ Z.max k 0.
Definition den (e k : Z) : Z := 2 ^ Z.max (- e) 0 * 10 ^ Z.max (- k) 0.

(** The decimal [c * 10^q], and when there is one. *)
Definition dec (s : bool) (c q : Z) : Decimal :=
  Decimal128.make s (q + Decimal128.kExponentBias) (c / 2 ^ 64) (c mod 2 ^ 64).
Definition in_range (q : Z) : Prop := 0 <= q + Decimal128.kExponentBias <= Decimal128.kMaxBiasedExponent.
Definition representable (c q : Z) : Prop := 0 <= c < 10 ^ 34 /\ in_range q.

(** [convertFormat]: a double becomes the decimal of 34 digits it rounds to, or itself; [quantize]:
    a decimal becomes what it rounds to in units of the reference's last place. *)
Class IEEEDecimal (L : IntelDecimal) : Prop := {
  ieee_binary64 bits mode s m e :
    Binary64.of_bits bits = S754_finite s m e ->
    exists c q, binary64_to_bid128 L bits mode = dec s c q /\ representable c q /\
      c = round_div mode s (num (Zpos m) e (- q)) (den e (- q)) /\
      (10 ^ 33 <= c \/ c * den e (- q) = num (Zpos m) e (- q));
  ieee_quantize s c q s' c' q' mode :
    representable c q -> representable c' q' ->
    round_div mode s (num c 0 (q - q')) (den 0 (q - q')) < 10 ^ 34 ->
    (bid128_quantize L (dec s c q) (dec s' c' q') mode).1 =
      dec s (round_div mode s (num c 0 (q - q')) (den 0 (q - q'))) q';
}.

(** *** Rounding *)

Section Rounding.

Context (mode : RoundingMode) (s : bool).

Lemma round_near n d : 0 < d -> n / d <= round_div mode s n d <= n / d + 1 /\ (n mod d = 0 -> round_div mode s n d = n / d).
Proof.
  intros Hd. unfold round_div. pose proof (Z.mod_pos_bound n d Hd).
  split; [destruct mode; repeat case_match; lia|]. intros ->.
  rewrite (proj2 (Z.ltb_ge d (2 * 0))), (proj2 (Z.eqb_neq (2 * 0) d)), (proj2 (Z.leb_gt d (2 * 0))) by lia.
  by destruct mode; cbn; rewrite ?andb_false_r.
Qed.

(** Rounding stays within integers and moves by less than one. *)
Lemma round_bounds n d : 0 < d ->
  (forall k, k * d <= n -> k <= round_div mode s n d) /\ (forall k, n <= k * d -> round_div mode s n d <= k) /\
  n - d < round_div mode s n d * d < n + d.
Proof.
  intros Hd. destruct (round_near n d Hd) as [Hr Hx]. pose proof (Z.div_mod n d ltac:(lia)) as Hn.
  pose proof (Z.mod_pos_bound n d Hd). split_and!.
  - intros k Hk. pose proof (Z.div_le_lower_bound n d k). lia.
  - intros k Hk. destruct (decide (n mod d = 0)) as [E|E].
    + rewrite (Hx E). apply Z.div_le_upper_bound; lia.
    + pose proof (Z.div_lt_upper_bound n d k ltac:(lia)). nia.
  - nia.
  - destruct (decide (n mod d = 0)) as [E|E]; [rewrite (Hx E); nia|nia].
Qed.

Lemma round_frac n d n' d' : 0 < d -> 0 < d' -> n * d' = n' * d -> round_div mode s n d = round_div mode s n' d'.
Proof.
  intros Hd Hd' E.
  assert (n / d = n' / d') as Eq.
  { rewrite <- (Z.div_mul_cancel_r n d d'), <- (Z.div_mul_cancel_r n' d' d) by lia. by rewrite E, (Z.mul_comm d d'). }
  assert (n mod d * d' = n' mod d' * d) as Er.
  { rewrite (Z.mod_eq n d), (Z.mod_eq n' d') by lia. rewrite Eq. nia. }
  unfold round_div. rewrite Eq. set (r := n mod d) in *. set (r' := n' mod d') in *.
  assert ((d <? 2 * r) = (d' <? 2 * r')) as -> by (apply eq_true_iff_eq; rewrite !Z.ltb_lt; split; nia).
  assert ((2 * r =? d) = (2 * r' =? d')) as -> by (apply eq_true_iff_eq; rewrite !Z.eqb_eq; split; nia).
  assert ((d <=? 2 * r) = (d' <=? 2 * r')) as -> by (apply eq_true_iff_eq; rewrite !Z.leb_le; split; nia).
  assert ((0 <? r) = (0 <? r')) as -> by (apply eq_true_iff_eq; rewrite !Z.ltb_lt; split; nia). done.
Qed.

(** What rounds to ten times an integer or more rounds to the integer or more in units of ten. *)
Lemma round_coarser n d k : 0 < d -> 10 * k <= round_div mode s n d -> k <= round_div mode s n (10 * d).
Proof.
  intros Hd Hk.
  destruct (Z.le_gt_cases (k * (10 * d)) n) as [Hle|Hgt]; [by apply round_bounds; [lia|]|].
  pose proof (Z.div_mod n d ltac:(lia)) as Hn. pose proof (Z.mod_pos_bound n d Hd) as Hr.
  pose proof (Z.div_mod n (10 * d) ltac:(lia)) as Hn'. pose proof (Z.mod_pos_bound n (10 * d) ltac:(lia)) as Hr'.
  destruct (round_near n d Hd) as [Hnear _].
  assert (n / d = 10 * k - 1) as Eq by nia.
  assert (n / (10 * d) = k - 1) as Eq' by nia.
  assert (n mod (10 * d) = n mod d + 9 * d) as Er by nia.
  unfold round_div in *. rewrite Eq in Hk. rewrite Eq', Er. clear Hn Hn' Eq Eq' Er Hgt Hnear.
  set (r := n mod d) in *.
  rewrite (proj2 (Z.ltb_lt (10 * d) _)), (proj2 (Z.leb_le (10 * d) _)), (proj2 (Z.ltb_lt 0 (r + 9 * d))) by lia.
  destruct mode; cbn [orb] in *; rewrite ?andb_true_r; try lia; destruct s; cbn [andb negb] in *; lia.
Qed.

Definition directed : bool :=
  match mode with kRoundTowardNegative | kRoundTowardPositive | kRoundTowardZero => true | _ => false end.

Lemma round_directed : directed = true ->
  (forall n d, 0 < d -> round_div mode s n d = n / d) \/ (forall n d, 0 < d -> round_div mode s n d = (n + (d - 1)) / d).
Proof.
  intros H.
  assert (forall n d, 0 < d -> (if 0 <? n mod d then n / d + 1 else n / d) = (n + (d - 1)) / d) as Hup.
  { intros n d Hd. pose proof (Z.div_mod n d ltac:(lia)). pose proof (Z.mod_pos_bound n d Hd).
    destruct (Z.ltb_spec 0 (n mod d)).
    - apply (Z.div_unique _ _ _ (n mod d - 1)); lia.
    - apply (Z.div_unique _ _ _ (d - 1)); lia. }
  unfold directed in H. unfold round_div. destruct mode, s; try done; cbv zeta; cbn [andb negb]; first [left; by intros|right; exact Hup].
Qed.

(** Rounding in a direction and then more coarsely is rounding in that direction. *)
Lemma round_twice n d k : directed = true -> 0 < d -> 0 < k ->
  round_div mode s (round_div mode s n d * d) (k * d) = round_div mode s n (k * d).
Proof.
  intros H Hd Hk. destruct (round_directed H) as [E|E]; rewrite !E by nia.
  - rewrite (Z.mul_comm k d), <- !Z.div_div, Z.div_mul by lia. done.
  - rewrite (Z.mul_comm k d), <- !Z.div_div by lia. f_equal.
    replace ((n + (d - 1)) / d * d + (d * k - 1)) with ((d - 1) + ((n + (d - 1)) / d + (k - 1)) * d) by lia.
    replace (n + (d * k - 1)) with ((n + (d - 1)) + (k - 1) * d) by lia.
    rewrite !Z.div_add, (Z.div_small (d - 1) d) by lia. lia.
Qed.

End Rounding.


(** *** The fields of a decimal *)

Lemma lor_add a n b : 0 <= n -> 0 <= b < 2 ^ n -> Z.lor (Z.shiftl a n) b = a * 2 ^ n + b.
Proof.
  intros Hn Hb. rewrite <- Z.shiftl_mul_pow2 by done.
  pose proof (Z.add_lor_land (Z.shiftl a n) b) as H.
  assert (Z.land (Z.shiftl a n) b = 0) as E; [|lia].
  apply Z.bits_inj'. intros i Hi. rewrite Z.land_spec, Z.bits_0, Z.shiftl_spec by lia.
  destruct (Z.lt_ge_cases i n) as [Hlt|Hge]; [by rewrite Z.testbit_neg_r by lia|].
  apply andb_false_iff. right. destruct (decide (b = 0)) as [->|]; [apply Z.bits_0|].
  apply Z.bits_above_log2; [lia|]. enough (Z.log2 b < n) by lia. apply Z.log2_lt_pow2; lia.
Qed.

Lemma dec_high s c q : representable c q ->
  (dec s c q).1 = (if s then 1 else 0) * 2 ^ 63 + (q + Decimal128.kExponentBias) * 2 ^ 49 + c / 2 ^ 64 /\
  0 <= c / 2 ^ 64 < 2 ^ 49.
Proof.
  unfold representable, in_range, dec, Decimal128.make, Decimal128.kMaxBiasedExponent, Decimal128.kExponentBias.
  intros [Hc Hq]. set (h := c / 2 ^ 64). assert (0 <= h < 2 ^ 49) as Hh.
  { unfold h. split; [apply Z.div_pos; lia|]. apply Z.div_lt_upper_bound; lia. }
  split; [|done]. cbn [fst]. set (x := q + (6143 + 33)) in *.
  rewrite <- Z.lor_assoc, (lor_add x 49 h), lor_add by lia.
  unfold wrap64. rewrite Z.mod_small by (destruct s; lia). lia.
Qed.

Lemma dec_fields s c q : representable c q ->
  Decimal128.getCombinationField (dec s c q) < Decimal128.kCombinationNonCanonical /\
  Decimal128.getCoefficientHigh (dec s c q) = c / 2 ^ 64 /\ Decimal128.getCoefficientLow (dec s c q) = c mod 2 ^ 64.
Proof.
  intros Hr. destruct (dec_high s c q Hr) as [Eh Hh]. destruct Hr as [Hc Hq].
  unfold in_range, Decimal128.kMaxBiasedExponent, Decimal128.kExponentBias in *.
  assert (Decimal128.getCombinationField (dec s c q) < Decimal128.kCombinationNonCanonical) as Hlt.
  { unfold Decimal128.getCombinationField. rewrite Z.shiftr_div_pow2 by lia.
    change (2 ^ 17 - 1) with (Z.ones 17). rewrite Z.land_ones by lia. rewrite Eh.
    replace ((if s then 1 else 0) * 2 ^ 63 + (q + (6143 + 33)) * 2 ^ 49 + c / 2 ^ 64)
      with (c / 2 ^ 64 + ((if s then 1 else 0) * 2 ^ 17 + (q + (6143 + 33)) * 2 ^ 3) * 2 ^ 46) by (destruct s; lia).
    rewrite Z.div_add, (Z.add_comm ((if s then 1 else 0) * 2 ^ 17)), Z.add_assoc, Z.mod_add by lia.
    assert (0 <= c / 2 ^ 64 / 2 ^ 46 < 2 ^ 3) by (split; [apply Z.div_pos; lia|apply Z.div_lt_upper_bound; lia]).
    rewrite Z.mod_small by lia. change Decimal128.kCombinationNonCanonical with 98304. lia. }
  split; [done|]. unfold Decimal128.getCoefficientHigh, Decimal128.getCoefficientLow.
  rewrite (proj2 (Z.ltb_lt _ _) Hlt). split; [|done]. rewrite Eh.
  change Decimal128.kCanonicalCoefficientHighFieldMask with (Z.ones 49). rewrite Z.land_ones by lia.
  replace ((if s then 1 else 0) * 2 ^ 63 + (q + (6143 + 33)) * 2 ^ 49 + c / 2 ^ 64)
    with (c / 2 ^ 64 + ((if s then 1 else 0) * 2 ^ 14 + (q + (6143 + 33))) * 2 ^ 49) by (destruct s; lia).
  rewrite Z.mod_add by lia. by apply Z.mod_small.
Qed.


(** *** Magnitudes as integers

    In units so small that every double and every decimal is an integer of them. *)

Definition unit (k : Z) : Z := 2 ^ 1100 * 10 ^ (k + 7000).
Definition scaled (m e : Z) : Z := m * 2 ^ (e + 1100) * 10 ^ 7000.

Lemma pow_pos_10 k : 0 <= k -> 0 < 10 ^ k.
Proof. intros. apply Z.pow_pos_nonneg; lia. Qed.

Lemma unit_pos k : -7000 <= k -> 0 < unit k.
Proof. intros. unfold unit. apply Z.mul_pos_pos; [done|]. apply pow_pos_10. lia. Qed.

Lemma unit_add k j : -7000 <= k -> 0 <= j -> unit (k + j) = 10 ^ j * unit k.
Proof.
  intros. unfold unit. replace (k + j + 7000) with (j + (k + 7000)) by lia. rewrite Z.pow_add_r by lia.
  generalize (2 ^ 1100) as a, (10 ^ j) as b, (10 ^ (k + 7000)) as c. lia.
Qed.

Lemma binary_frac m e q : -1100 <= e -> -7000 <= q -> scaled m e * den e (- q) = num m e (- q) * unit q.
Proof.
  intros He Hq. unfold scaled, den, num, unit. rewrite Z.opp_involutive.
  assert (2 ^ (e + 1100) * 2 ^ Z.max (- e) 0 = 2 ^ Z.max e 0 * 2 ^ 1100) as H2 by (rewrite <- !Z.pow_add_r by lia; f_equal; lia).
  assert (10 ^ 7000 * 10 ^ Z.max q 0 = 10 ^ Z.max (- q) 0 * 10 ^ (q + 7000)) as H10
    by (rewrite <- !Z.pow_add_r by lia; f_equal; lia).
  revert H2 H10. generalize (10 ^ 7000) as a, (2 ^ 1100) as b. intros a b H2 H10.
  rewrite (Z.mul_shuffle1 (m * _)), H10, <- (Z.mul_assoc m), H2. ring.
Qed.

Lemma decimal_frac c q q' : -7000 <= q -> -7000 <= q' ->
  c * unit q * den 0 (q - q') = num c 0 (q - q') * unit q'.
Proof.
  intros Hq Hq'. unfold den, num, unit. rewrite !Z.max_id, Z.pow_0_r.
  assert (10 ^ (q + 7000) * 10 ^ Z.max (- (q - q')) 0 = 10 ^ Z.max (q - q') 0 * 10 ^ (q' + 7000)) as H10
    by (rewrite <- !Z.pow_add_r by lia; f_equal; lia).
  revert H10. generalize (2 ^ 1100) as b. intros b H10.
  transitivity (c * b * (10 ^ (q + 7000) * 10 ^ Z.max (- (q - q')) 0)); [ring|]. rewrite H10. ring.
Qed.

Lemma den_pos e k : 0 < den e k.
Proof. unfold den. apply Z.mul_pos_pos; [apply Z.pow_pos_nonneg; lia|apply pow_pos_10; lia]. Qed.

(** One, in those units. *)
Definition whole : Z := 2 ^ 1100 * 10 ^ 7000.

Lemma unit_whole k : -7000 <= k <= 0 -> unit k * 10 ^ (- k) = whole.
Proof.
  intros H. unfold unit. rewrite <- Z.mul_assoc, <- Z.pow_add_r by lia. unfold whole. do 2 f_equal. lia.
Qed.

Lemma scaled_whole e : -1100 <= e <= 0 -> scaled 1 e * 2 ^ (- e) = whole.
Proof.
  intros H. unfold scaled. rewrite Z.mul_1_l, Z.mul_shuffle0, <- Z.pow_add_r by lia. unfold whole. do 2 f_equal. lia.
Qed.

(** The guess is exact: [10^(base10Exp e) <= 2^e < 10^(base10Exp e + 1)] for the exponents of all
    doubles. It is checked from one exponent to the next, [p2] the power of two and [p10] the power of
    ten; [g] is the guess, or for negative exponents its opposite. *)
Fixpoint guesses (g : Z -> Z) (strict : bool) (bound : Z) (n : nat) (e b p2 p10 : Z) : bool :=
  match n with
  | O => true
  | S n =>
      (g e =? b) && (b <=? bound) && (if strict then (p10 <? p2) && (p2 <=? 10 * p10) else (p10 <=? p2) && (p2 <? 10 * p10)) &&
      if g (e + 1) =? b then guesses g strict bound n (e + 1) b (2 * p2) p10
      else guesses g strict bound n (e + 1) (b + 1) (2 * p2) (10 * p10)
  end.

Lemma guesses_hold g strict bound n : forall e b, 0 <= e -> 0 <= b -> guesses g strict bound n e b (2 ^ e) (10 ^ b) = true ->
  forall k, e <= k < e + Z.of_nat n -> 0 <= g k <= bound /\
    if strict then 10 ^ g k < 2 ^ k /\ 2 ^ k <= 10 ^ (g k + 1) else 10 ^ g k <= 2 ^ k /\ 2 ^ k < 10 ^ (g k + 1).
Proof.
  induction n as [|n IH]; intros e b He Hb H k Hk; [lia|]. cbn [guesses] in H.
  rewrite <- !(Z.pow_succ_r _ _ He), <- !(Z.pow_succ_r _ _ Hb), !andb_true_iff, Z.eqb_eq, Z.leb_le in H.
  destruct H as [[[Eg Hb2] Hc] Hn]. destruct (decide (k = e)) as [->|Hne].
  - rewrite Eg. split; [lia|]. destruct strict; rewrite andb_true_iff, ?Z.ltb_lt, ?Z.leb_le in Hc; exact Hc.
  - destruct (g (e + 1) =? b); [apply (IH (e + 1) b)|apply (IH (e + 1) (b + 1))]; try lia; exact Hn.
Qed.

Lemma guess_checked :
  guesses Decimal128.base10Exp false 308 1024 0 0 1 1 = true /\
  guesses (fun f => - Decimal128.base10Exp (- f) - 1) true 323 1074 1 0 2 1 = true.
Proof. split; vm_compute; reflexivity. Qed.

Lemma guess_exact e : -1074 <= e <= 1023 ->
  let b := Decimal128.base10Exp e in -324 <= b <= 308 /\ unit b <= scaled 1 e < unit (b + 1).
Proof.
  intros He b. destruct guess_checked as [C1 C2].
  assert (-324 <= b <= 308 /\ if 0 <=? e then (0 <= b /\ 10 ^ b <= 2 ^ e) /\ 2 ^ e < 10 ^ (b + 1)
          else (b < 0 /\ 2 ^ (- e) <= 10 ^ (- b)) /\ 10 ^ (- b - 1) < 2 ^ (- e)) as [Hb H].
  { destruct (Z.leb_spec 0 e).
    - destruct (guesses_hold _ _ _ _ 0 0 ltac:(lia) ltac:(lia) C1 e ltac:(lia)) as [H1 H2]. fold b in H1, H2. lia.
    - destruct (guesses_hold _ _ _ _ 1 0 ltac:(lia) ltac:(lia) C2 (- e) ltac:(lia)) as [H1 H2]. rewrite Z.opp_involutive in H1, H2.
      fold b in H1, H2. replace (- b - 1 + 1) with (- b) in H2 by lia. lia. }
  split; [lia|]. clear C1 C2.
  assert (forall k, 0 <= k + 7000 -> unit k = 2 ^ 1100 * 10 ^ (k + 7000)) as Hu by done.
  destruct (Z.leb_spec 0 e) as [Hpos|Hneg]; destruct H as [[Hb0 H1] H2].
  - rewrite !Hu by lia. unfold scaled. rewrite !(Z.pow_add_r 10), (Z.pow_add_r 2) by lia.
    rewrite !Z.pow_add_r in H2 by lia.
    assert (0 < 2 ^ 1100) as P2 by done. assert (0 < 10 ^ 7000) as P10 by (apply pow_pos_10; lia).
    revert P2 P10. generalize (2 ^ 1100) as a, (10 ^ 7000) as c. intros a c P2 P10.
    revert H1 H2. generalize (10 ^ b) as x, (2 ^ e) as y, (10 ^ 1) as z. intros x y z H1 H2.
    assert (0 < a * c) by nia. split; nia.
  - pose proof (unit_whole b ltac:(lia)) as E1. pose proof (unit_whole (b + 1) ltac:(lia)) as E2.
    replace (- (b + 1)) with (- b - 1) in E2 by lia. pose proof (scaled_whole e ltac:(lia)) as E3.
    pose proof (unit_pos b ltac:(lia)) as P1. pose proof (unit_pos (b + 1) ltac:(lia)) as P2.
    assert (0 < 2 ^ (- e)) as P3 by (apply Z.pow_pos_nonneg; lia).
    assert (0 < 10 ^ (- b - 1)) as P4 by (apply pow_pos_10; lia).
    revert E1 E2 E3 P1 P2 P3 P4 H1 H2. generalize whole as w, (unit b) as u, (unit (b + 1)) as u',
      (scaled 1 e) as x, (10 ^ (- b)) as p, (10 ^ (- b - 1)) as p', (2 ^ (- e)) as y.
    intros. split; nia.
Qed.


(** *** Fifteen digits *)

Lemma finite_bits bits s m e : Binary64.of_bits bits = S754_finite s m e ->
  -1074 <= e <= 971 /\ -1074 <= e + Z.log2 (Zpos m) <= 1023.
Proof.
  intros H. pose proof (Z.log2_nonneg (Zpos m)). destruct (Binary64.of_bits_double _ _ _ _ H) as [[Hm He]|[Hm ->]].
  - assert (Z.log2 (Zpos m) = 52) by (apply Z.log2_unique; lia). lia.
  - assert (Z.log2 (Zpos m) < 52) by (apply Z.log2_lt_pow2; lia). lia.
Qed.

Lemma scaled_between p e : -1074 <= e ->
  let e2 := e + Z.log2 (Zpos p) in scaled 1 e2 <= scaled (Zpos p) e < 2 * scaled 1 e2.
Proof.
  intros He e2. destruct (Z.log2_spec (Zpos p) ltac:(lia)) as [Hlo Hhi]. pose proof (Z.log2_nonneg (Zpos p)) as Hl.
  unfold scaled, e2. replace (e + Z.log2 (Z.pos p) + 1100) with (Z.log2 (Z.pos p) + (e + 1100)) by lia.
  rewrite Z.pow_succ_r in Hhi by done. rewrite Z.pow_add_r by lia.
  assert (0 < 2 ^ (e + 1100)) as P2 by (apply Z.pow_pos_nonneg; lia). assert (0 < 10 ^ 7000) as P10 by (apply pow_pos_10; lia).
  revert Hlo Hhi P2 P10. generalize (2 ^ Z.log2 (Z.pos p)) as l, (2 ^ (e + 1100)) as a, (10 ^ 7000) as c. intros.
  assert (0 < a * c) by nia. split; nia.
Qed.

Section FifteenDigits.

Context (L : IntelDecimal) `{!IEEEDecimal L} (mode : RoundingMode).
Context (bits : Z) (s : bool) (m : positive) (e : Z) (Hf : Binary64.of_bits bits = S754_finite s m e).

Abbreviation exact := (scaled (Zpos m) e).
Abbreviation b := (Decimal128.base10Exp (e + Z.log2 (Zpos m))).

Lemma magnitude : -324 <= b <= 308 /\ unit b <= exact < 20 * unit b.
Proof.
  destruct (finite_bits _ _ _ _ Hf) as [He He2]. destruct (guess_exact _ He2) as [Hb Hg]. split; [done|].
  pose proof (scaled_between m e ltac:(lia)) as Hs. cbn zeta in Hs. rewrite (unit_add b 1) in Hg by lia.
  change (10 ^ 1) with 10 in Hg. lia.
Qed.

(** The conversion to 34 digits. *)
Lemma converted : exists c q, binary64_to_bid128 L bits mode = dec s c q /\ representable c q /\
  unit b <= c * unit q <= 20 * unit b /\
  (c * unit q = exact \/ q <= b - 14 /\ c = round_div mode s exact (unit q)).
Proof.
  destruct (ieee_binary64 bits mode s m e Hf) as (c & q & Hc & Hr & Ec & Hx). exists c, q. split; [done|]. split; [done|].
  destruct magnitude as [Hb Hm]. destruct (finite_bits _ _ _ _ Hf) as [He _].
  assert (-6176 <= q) as Hq.
  { destruct Hr as [_ Hq]. unfold in_range, Decimal128.kExponentBias in Hq. lia. }
  pose proof (unit_pos q ltac:(lia)) as Pq. pose proof (unit_pos b ltac:(lia)) as Pb.
  pose proof (binary_frac (Zpos m) e q ltac:(lia) ltac:(lia)) as Hfr.
  rewrite (round_frac _ _ _ _ exact (unit q) (den_pos _ _) Pq (eq_sym Hfr)) in Ec.
  destruct (decide (c * unit q = exact)) as [E|E]; [split; [lia|by left]|].
  assert (10 ^ 33 <= c) as Hc33.
  { destruct Hx as [|Hx]; [done|]. exfalso. apply E. pose proof (den_pos e (- q)) as Pd. rewrite <- Hx in Hfr. nia. }
  destruct (round_bounds mode s exact (unit q) Pq) as (Hlo & Hhi & Hnear). rewrite <- Ec in *.
  assert (q <= b - 31) as Hqb.
  { destruct (Z.le_gt_cases q (b - 31)) as [|Hgt]; [done|exfalso].
    assert (unit q = 10 ^ (q - (b - 30)) * unit (b - 30)) as Eu by (rewrite <- unit_add by lia; f_equal; lia).
    assert (unit b = 10 ^ 30 * unit (b - 30)) as Eb by (rewrite <- unit_add by lia; f_equal; lia).
    pose proof (pow_pos_10 (q - (b - 30)) ltac:(lia)) as Pp. pose proof (unit_pos (b - 30) ltac:(lia)) as Pu.
    revert Eu Eb Pp Pu Hnear Hm Hc33. generalize (unit (b - 30)) as u, (10 ^ (q - (b - 30))) as p, (unit q) as uq, (unit b) as ub.
    intros. nia. }
  assert (unit b = 10 ^ (b - q) * unit q) as Eb by (rewrite <- unit_add by lia; f_equal; lia).
  split; [|right; split; [lia|done]].
  assert (10 ^ (b - q) <= c) by (apply Hlo; lia). assert (c <= 20 * 10 ^ (b - q)) by (apply Hhi; lia). nia.
Qed.

(** [quantize] to units of [10^q']. *)
Lemma quantized c q q' : representable c q -> in_range q' -> round_div mode s (c * unit q) (unit q') < 10 ^ 34 ->
  (Decimal128.quantize L (dec s c q) (Decimal128.make false (q' + Decimal128.kExponentBias) 0 1) mode).1 =
    dec s (round_div mode s (c * unit q) (unit q')) q'.
Proof.
  intros Hr Hq' Hlt. assert (-7000 <= q) as Hq by (destruct Hr as [_ Hr]; unfold in_range, Decimal128.kExponentBias in Hr; lia).
  assert (-7000 <= q') as Hq0 by (unfold in_range, Decimal128.kExponentBias in Hq'; lia).
  pose proof (decimal_frac c q q' Hq Hq0) as Hfr.
  pose proof (round_frac mode s _ _ _ _ (den_pos 0 (q - q')) (unit_pos q' Hq0) (eq_sym Hfr)) as Er.
  rewrite <- Er in Hlt |- *. apply (ieee_quantize s c q false 1 q' mode); [done|by split|done].
Qed.

(** The digits, and how they come from the double. *)
Definition fifteen (c q : Z) : Prop :=
  10 ^ 14 <= c < 10 ^ 15 /\ in_range q /\
  Z.abs (num (Zpos m) e (- q) - c * den e (- q)) <= 2 * den e (- q) /\
  (directed mode = true -> c = round_div mode s (num (Zpos m) e (- q)) (den e (- q))).

Lemma fifteen_of c q x q' : representable c q -> q' = b - 14 \/ q' = b - 13 ->
  (c * unit q = exact \/ q <= b - 14 /\ c = round_div mode s exact (unit q)) ->
  x = round_div mode s (c * unit q) (unit q') -> 10 ^ 14 <= x < 10 ^ 15 -> fifteen x q'.
Proof.
  intros Hr Hq' Hx -> H15. destruct magnitude as [Hb _]. destruct (finite_bits _ _ _ _ Hf) as [He _].
  assert (-6176 <= q) as Hq by (destruct Hr as [_ Hr]; unfold in_range, Decimal128.kExponentBias in Hr; lia).
  pose proof (unit_pos q ltac:(lia)) as Pq. pose proof (unit_pos q' ltac:(lia)) as Pq'.
  pose proof (binary_frac (Zpos m) e q' ltac:(lia) ltac:(lia)) as Hfr. pose proof (den_pos e (- q')) as Pd.
  split_and!; [lia|lia|unfold in_range, Decimal128.kExponentBias, Decimal128.kMaxBiasedExponent; lia| |].
  - assert (Z.abs (exact - c * unit q) <= unit q') as H1.
    { destruct Hx as [->|[Hle Ec]]; [lia|]. destruct (round_bounds mode s exact (unit q) Pq) as (_ & _ & Hn).
      rewrite <- Ec in Hn. assert (unit q' = 10 ^ (q' - q) * unit q) as E by (rewrite <- unit_add by lia; f_equal; lia).
      pose proof (pow_pos_10 (q' - q) ltac:(lia)) as Pp.
      assert (unit q <= unit q') by (rewrite E; revert Pp; generalize (10 ^ (q' - q)) as p; intros; nia). lia. }
    destruct (round_bounds mode s (c * unit q) (unit q') Pq') as (_ & _ & H2).
    set (y := round_div mode s (c * unit q) (unit q')) in *. set (x := c * unit q) in *. clearbody y x.
    assert (Z.abs (exact - y * unit q') <= 2 * unit q') as H3 by lia.
    assert ((num (Z.pos m) e (- q') - y * den e (- q')) * unit q' = (exact - y * unit q') * den e (- q')) as H4 by lia.
    apply (Z.mul_le_mono_pos_r _ _ (unit q')); [done|]. rewrite <- (Z.abs_eq (unit q')) at 1 by lia.
    rewrite <- Z.abs_mul, H4, Z.abs_mul, (Z.abs_eq (den _ _)) by lia. nia.
  - intros Hdir. rewrite (round_frac mode s (num _ _ _) _ exact (unit q') Pd Pq' (eq_sym Hfr)).
    destruct Hx as [->|[Hle Ec]]; [done|]. rewrite Ec at 1.
    replace (unit q') with (10 ^ (q' - q) * unit q) by (rewrite <- unit_add by lia; f_equal; lia).
    apply round_twice; [done|done|]. apply pow_pos_10. lia.
Qed.

Lemma of_double_15 : exists c q, Decimal128.of_double L bits kRoundTo15Digits mode = Ok (dec s c q) /\ fifteen c q.
Proof.
  destruct converted as (c & q & Hc & Hr & Hm & Hx). destruct magnitude as [Hb _].
  unfold Decimal128.of_double. rewrite Hf, Hc. cbn [Decimal128.base2Exp]. rewrite bool_decide_eq_false_2 by done.
  pose proof (unit_pos (b - 14) ltac:(lia)) as P14.
  assert (unit b = 10 ^ 14 * unit (b - 14)) as E14 by (rewrite <- unit_add by lia; f_equal; lia).
  assert (unit (b - 13) = 10 * unit (b - 14)) as E13 by (change 10 with (10 ^ 1); rewrite <- unit_add by lia; f_equal; lia).
  assert (forall k, -400 <= k <= 400 -> in_range k) as Hin
    by (intros k Hk; unfold in_range, Decimal128.kExponentBias, Decimal128.kMaxBiasedExponent; lia).
  set (c1 := round_div mode s (c * unit q) (unit (b - 14))). set (c2 := round_div mode s (c * unit q) (unit (b - 13))).
  assert (10 ^ 14 <= c1 <= 20 * 10 ^ 14) as H1.
  { destruct (round_bounds mode s (c * unit q) (unit (b - 14)) P14) as (Hlo & Hhi & _). split; [apply Hlo|apply Hhi]; lia. }
  assert (c2 <= 2 * 10 ^ 14) as H2.
  { destruct (round_bounds mode s (c * unit q) (unit (b - 13)) ltac:(lia)) as (_ & Hhi & _). apply Hhi. lia. }
  rewrite (quantized c q (b - 14) Hr ltac:(apply Hin; lia) ltac:(fold c1; lia)). fold c1.
  assert (forall x k, 0 <= x < 2 ^ 64 -> in_range k ->
    Decimal128.getCoefficientHigh (dec s x k) = 0 /\ Decimal128.getCoefficientLow (dec s x k) = x) as Hfield.
  { intros x k Hx' Hk. destruct (dec_fields s x k) as (_ & -> & ->); [split; [lia|done]|].
    rewrite Z.div_small, Z.mod_small by lia. done. }
  destruct (Hfield c1 (b - 14) ltac:(lia) ltac:(apply Hin; lia)) as [Eh1 El1]. rewrite El1.
  unfold Decimal128.kLargest15DigitInt, Decimal128.kSmallest15DigitInt.
  destruct (Z.ltb_spec (10 ^ 15 - 1) c1) as [Hbig|Hok].
  - assert (10 ^ 14 <= c2) as H3 by (unfold c2; rewrite E13; apply round_coarser; [done|fold c1; lia]).
    rewrite (quantized c q (b - 13) Hr ltac:(apply Hin; lia) ltac:(fold c2; lia)). fold c2.
    destruct (Hfield c2 (b - 13) ltac:(lia) ltac:(apply Hin; lia)) as [-> ->].
    rewrite (proj2 (Z.leb_le (10 ^ 14) c2)), (proj2 (Z.leb_le c2 (10 ^ 15 - 1))) by lia. cbn [rbind uassert Z.eqb].
    exists c2, (b - 13). split; [done|]. eapply fifteen_of; [done|by right|done|done|lia].
  - rewrite Eh1, El1, (proj2 (Z.leb_le (10 ^ 14) c1)), (proj2 (Z.leb_le c1 (10 ^ 15 - 1))) by lia. cbn [rbind uassert Z.eqb].
    exists c1, (b - 14). split; [done|]. eapply fifteen_of; [done|by left|done|done|lia].
Qed.

End FifteenDigits.


(** The constructor never trips an invariant. *)
Lemma of_double_ok L `{!IEEEDecimal L} bits precision mode : exists d, Decimal128.of_double L bits precision mode = Ok d.
Proof.
  destruct precision; [|unfold Decimal128.of_double; destruct (Decimal128.base2Exp _); by eexists].
  destruct (Binary64.of_bits bits) as [| | |s m e] eqn:Eb; [by eexists; unfold Decimal128.of_double; rewrite Eb..|].
  destruct (of_double_15 L mode bits s m e Eb) as (c & q & Hd & _). by exists (dec s c q).
Qed.

(** ** A reference library *)

Lemma dec_exponent s c q : representable c q -> Decimal128.getBiasedExponent (dec s c q) = q + Decimal128.kExponentBias.
Proof.
  intros Hr. destruct (dec_high s c q Hr) as [Eh Hh]. destruct (dec_fields s c q Hr) as [Hlt _].
  unfold Decimal128.getBiasedExponent. rewrite (proj2 (Z.ltb_lt _ _) Hlt). clear Hlt.
  destruct Hr as [_ Hq]. unfold in_range, Decimal128.kMaxBiasedExponent in Hq. unfold Decimal128.getCombinationField.
  set (x := q + Decimal128.kExponentBias) in *. rewrite !Z.shiftr_div_pow2 by lia.
  change (2 ^ 17 - 1) with (Z.ones 17). rewrite Z.land_ones by lia. rewrite Eh.
  replace ((if s then 1 else 0) * 2 ^ 63 + x * 2 ^ 49 + c / 2 ^ 64)
    with (c / 2 ^ 64 + ((if s then 1 else 0) * 2 ^ 17 + x * 2 ^ 3) * 2 ^ 46) by (destruct s; lia).
  rewrite Z.div_add, (Z.add_comm ((if s then 1 else 0) * 2 ^ 17)), Z.add_assoc, Z.mod_add by lia.
  assert (0 <= c / 2 ^ 64 / 2 ^ 46 < 2 ^ 3) by (split; [apply Z.div_pos; lia|apply Z.div_lt_upper_bound; lia]).
  rewrite Z.mod_small, Z.div_add, Z.div_small by lia. lia.
Qed.

Lemma dec_sign s c q : representable c q -> Z.testbit (dec s c q).1 63 = s.
Proof.
  intros Hr. destruct (dec_high s c q Hr) as [-> Hh]. destruct Hr as [_ Hq].
  unfold in_range, Decimal128.kMaxBiasedExponent in Hq.
  rewrite Z.testbit_eqb by lia. rewrite <- Z.add_assoc, Z.add_comm, Z.div_add, Z.div_small by lia. by destruct s.
Qed.

(** The two operations, computed as the standard says. *)
Definition ref_binary64 (bits : Z) (mode : RoundingMode) : Decimal :=
  match Binary64.of_bits bits with
  | S754_finite s m e =>
      let q := Decimal128.base10Exp (e + Z.log2 (Zpos m)) - 33 in
      let at_ q := round_div mode s (num (Zpos m) e (- q)) (den e (- q)) in
      if at_ q <? 10 ^ 34 then dec s (at_ q) q else dec s (at_ (q + 1)) (q + 1)
  | S754_zero s => dec s 0 0
  | S754_infinity s => ((if s then 0xf8 else 0x78) * 2 ^ 56, 0)
  | S754_nan => (0x7c * 2 ^ 56, 0)
  end.

Definition ref_quantize (d reference : Decimal) (mode : RoundingMode) : Decimal :=
  let s := Z.testbit d.1 63 in
  let c := Decimal128.getCoefficientHigh d * 2 ^ 64 + Decimal128.getCoefficientLow d in
  let k := Decimal128.getBiasedExponent d - Decimal128.getBiasedExponent reference in
  let c' := round_div mode s (num c 0 k) (den 0 k) in
  if c' <? 10 ^ 34 then dec s c' (Decimal128.getBiasedExponent reference - Decimal128.kExponentBias) else (0x7c * 2 ^ 56, 0).

(** With the other operations left as they come. *)
Definition ref_library : IntelDecimal := {|
  bid128_from_int32 v := dec (v <? 0) (Z.abs v) 0;
  bid128_from_int64 v := dec (v <? 0) (Z.abs v) 0;
  binary64_to_bid128 := ref_binary64;
  bid128_to_binary64 d _ := (0, Decimal128.kInexact);
  bid128_quantize d reference mode := (ref_quantize d reference mode, Decimal128.kInexact);
  bid128_isSigned d := Z.testbit d.1 63;
  bid128_isZero d := (Decimal128.getCoefficientHigh d =? 0) && (Decimal128.getCoefficientLow d =? 0);
  bid128_isNaN d := false;
  bid128_isInf d := false;
  bid128_isFinite d := true;
  bid128_add d _ _ := (d, Decimal128.kInexact);
  bid128_sub d _ _ := (d, Decimal128.kInexact);
  bid128_mul d _ _ := (d, Decimal128.kInexact);
  bid128_quiet_equal d other := bool_decide (d = other);
  bid128_quiet_less _ _ := false;
  bid128_quiet_greater _ _ := false;
|}.

#[global] Instance ref_library_ieee : IEEEDecimal ref_library.
Proof.
  split.
  - intros bits mode s m e Hf. cbn. unfold ref_binary64. rewrite Hf.
    destruct (magnitude bits s m e Hf) as [Hb Hm]. destruct (finite_bits _ _ _ _ Hf) as [He _].
    set (b := Decimal128.base10Exp _) in *. set (q := b - 33).
    set (at_ := fun q => round_div mode s (num (Zpos m) e (- q)) (den e (- q))).
    assert (forall k, -400 <= k <= 400 -> in_range k /\ at_ k = round_div mode s (scaled (Zpos m) e) (unit k)) as Hat.
    { intros k Hk. split; [unfold in_range, Decimal128.kExponentBias, Decimal128.kMaxBiasedExponent; lia|].
      apply round_frac; [apply den_pos|apply unit_pos; lia|]. symmetry. apply binary_frac; lia. }
    destruct (Hat q ltac:(lia)) as [Hq Eq]. destruct (Hat (q + 1) ltac:(lia)) as [Hq1 Eq1].
    pose proof (unit_pos q ltac:(lia)) as Pq.
    assert (unit b = 10 ^ 33 * unit q) as Eb by (rewrite <- unit_add by lia; f_equal; lia).
    assert (unit (q + 1) = 10 * unit q) as Eu by (rewrite unit_add by lia; f_equal).
    destruct (round_bounds mode s (scaled (Zpos m) e) (unit q) Pq) as (Hlo & _ & _).
    destruct (round_bounds mode s (scaled (Zpos m) e) (unit (q + 1)) ltac:(lia)) as (_ & Hhi & _).
    assert (10 ^ 33 <= at_ q) as H33 by (rewrite Eq; apply Hlo; lia).
    fold (at_ q). destruct (Z.ltb_spec (at_ q) (10 ^ 34)) as [Hlt|Hge].
    + exists (at_ q), q. split_and!; [done|split; [lia|done]|done|by left].
    + assert (10 ^ 33 <= at_ (q + 1)) as H1 by (rewrite Eq1, Eu; apply round_coarser; [done|rewrite <- Eq; lia]).
      assert (at_ (q + 1) <= 2 * 10 ^ 33) as H2 by (rewrite Eq1; apply Hhi; lia).
      exists (at_ (q + 1)), (q + 1). split_and!; [done|split; [lia|done]|done|by left].
  - intros s c q s' c' q' mode Hr Hr' Hlt. cbn. unfold ref_quantize.
    rewrite (dec_sign s c q Hr), (dec_exponent s c q Hr), (dec_exponent s' c' q' Hr').
    destruct (dec_fields s c q Hr) as (_ & -> & ->). rewrite (Z.mul_comm (c / 2 ^ 64)), <- Z.div_mod by lia.
    replace (q + Decimal128.kExponentBias - (q' + Decimal128.kExponentBias)) with (q - q') by lia.
    rewrite (proj2 (Z.ltb_lt _ _) Hlt). f_equal. lia.
Qed.

(** * Properties *)

(** Whatever double it is given and however it rounds, the constructor to 15 digits passes its
    three invariants. A number that is finite and not zero becomes a decimal of its sign with exactly
    15 digits, less than two units of the last digit away from it; rounded in a direction, it is the
    double itself rounded in that direction, although the code rounds to 34 digits first and quantizes
    a second time when its guess at the exponent was one too low. *)
Theorem double_to_fifteen_digits L {_ : IEEEDecimal L} bits mode :
  exists d, Decimal128.of_double L bits kRoundTo15Digits mode = Ok d /\
    forall s m e, Binary64.of_bits bits = S754_finite s m e ->
      exists c q, d = dec s c q /\ fifteen mode s m e c q.
Proof.
  destruct (Binary64.of_bits bits) as [z|z| |z p k] eqn:E.
  1-3: eexists; (split; [unfold Decimal128.of_double; by rewrite E|done]).
  destruct (of_double_15 L mode bits z p k E) as (c & q & Hd & H15). exists (dec z c q). split; [done|].
  intros s m e [= <- <- <-]. by exists c, q.
Qed.

(** 0.1, of which the nearest double is a little above it. *)
Lemma double_to_fifteen_digits_witness :
  exists c q, Decimal128.of_double ref_library 0x3fb999999999999a kRoundTo15Digits kRoundTowardPositive =
    Ok (dec false c q) /\ c = 100000000000001 /\ q = -15 /\ 10 ^ 14 <= c < 10 ^ 15.
Proof.
  destruct (double_to_fifteen_digits ref_library 0x3fb999999999999a kRoundTowardPositive) as (d & Hd & Hf).
  destruct (Hf false 7205759403792794%positive (-56) ltac:(vm_compute; reflexivity)) as (c & q & -> & H15 & _).
  exists 100000000000001, (-15). split_and!; try done; vm_compute; reflexivity.
Defined.
