(* ===== verification/BsonCompare.v ===== *)
(** * Comparing BSON (bson/bsonelement.cpp, bson/bsonobj.cpp, base/compare_numbers.h)

    [woCompare], the order of BSON values: by canonical type, then by field name where names count,
    then by value. The functions return an [int] of which only the sign is specified ([memcmp]'s),
    so a result here is a [comparison]. *)

From Stdlib Require Import Floats.SpecFloat.
From S2P Require Import Prelude Bytes Bson RawBson BsonBuilder Doubles Decimals.
#[local] Open Scope Z_scope.

(** [if (int c = ..) return c;]. *)
Definition lex (c d : comparison) : comparison := match c with Eq => d | _ => c end.

(** ** Numbers *)

Section Numbers.

Context (L : IntelDecimal).

Definition compareInts (lhs rhs : Z) : comparison := if lhs =? rhs then Eq else if lhs <? rhs then Lt else Gt.
Definition compareLongs (lhs rhs : Z) : comparison := if lhs =? rhs then Eq else if lhs <? rhs then Lt else Gt.

(** A NaN is equal to a NaN and less than any number. *)
Definition compareDoubles (lhs rhs : Z) : comparison :=
  if Binary64.eqb lhs rhs then Eq
  else if Binary64.ltb lhs rhs then Lt
  else if Binary64.ltb rhs lhs then Gt
  else if Binary64.isnan lhs then (if Binary64.isnan rhs then Eq else Lt)
  else Gt.

Definition kEndOfPreciseDoubles : Z := 2 ^ 53.
Definition kBoundOfLongRange : Z := Binary64.ldexp1 63.

Definition compareLongToDouble (lhs rhs : Z) : comparison :=
  if Binary64.isnan rhs then Gt
  else if (lhs <=? kEndOfPreciseDoubles) && (- kEndOfPreciseDoubles <=? lhs) then compareDoubles (Binary64.of_i64 lhs) rhs
  else if Binary64.leb kBoundOfLongRange rhs then Lt
  else if Binary64.ltb rhs (Binary64.opp kBoundOfLongRange) then Gt
  else compareLongs lhs (Binary64.to_i64 rhs).

Definition compareDoubleToLong (lhs rhs : Z) : comparison := CompOpp (compareLongToDouble rhs lhs).

Definition compareDecimals (lhs rhs : Decimal) : comparison :=
  if Decimal128.isGreater L lhs rhs then Gt
  else if Decimal128.isLess L lhs rhs then Lt
  else if Decimal128.isNaN L lhs then (if Decimal128.isNaN L rhs then Eq else Lt)
  else if Decimal128.isNaN L rhs then Gt
  else Eq.

Definition compareDecimalToInt (lhs : Decimal) (rhs : Z) : comparison := compareDecimals lhs (Decimal128.of_int32 L rhs).
Definition compareDecimalToLong (lhs : Decimal) (rhs : Z) : comparison := compareDecimals lhs (Decimal128.of_int64 L rhs).

Definition compareDecimalToDouble (lhs : Decimal) (rhs : Z) : result comparison :=
  let '(decToDouble, sigFlags) := Decimal128.toDouble L lhs kRoundTowardNegative in
  if Binary64.eqb decToDouble rhs then Ok (if Decimal128.hasFlag sigFlags Decimal128.kInexact then Gt else Eq)
  else if Binary64.ltb decToDouble rhs then Ok Lt
  else if Binary64.ltb rhs decToDouble then Ok Gt
  else if Decimal128.isNaN L lhs then Ok (if Binary64.isnan rhs then Eq else Lt)
  else let! _ := invariant (Binary64.isnan rhs) in Ok Gt.

(** The numeric cases of [compareElements]; the inverse comparisons are the negated ones. *)
Definition compareNumbers (l r : bson) : result comparison :=
  match l, r with
  | BInt a, BInt b => Ok (compareInts a b)
  | BInt a, BLong b => Ok (compareLongs a b)
  | BInt a, BDouble b => Ok (compareDoubles (Binary64.of_i64 a) b)
  | BInt a, BDecimal h l => Ok (CompOpp (compareDecimalToInt (h, l) a))
  | BLong a, BLong b => Ok (compareLongs a b)
  | BLong a, BInt b => Ok (compareLongs a b)
  | BLong a, BDouble b => Ok (compareLongToDouble a b)
  | BLong a, BDecimal h l => Ok (CompOpp (compareDecimalToLong (h, l) a))
  | BDouble a, BDouble b => Ok (compareDoubles a b)
  | BDouble a, BInt b => Ok (compareDoubles a (Binary64.of_i64 b))
  | BDouble a, BLong b => Ok (compareDoubleToLong a b)
  | BDouble a, BDecimal h l => let! c := compareDecimalToDouble (h, l) a in Ok (CompOpp c)
  | BDecimal h l, BDecimal h' l' => Ok (compareDecimals (h, l) (h', l'))
  | BDecimal h l, BInt b => Ok (compareDecimalToInt (h, l) b)
  | BDecimal h l, BLong b => Ok (compareDecimalToLong (h, l) b)
  | BDecimal h l, BDouble b => compareDecimalToDouble (h, l) b
  | _, _ => Err InvariantFailure
  end.

End Numbers.

(** ** Values *)

(** [canonicalizeBSONType]. *)
Definition canonicalType (v : bson) : Z :=
  match v with
  | BMinKey => -1
  | BMaxKey => 127
  | BUndefined => 0
  | BNull => 5
  | BDecimal _ _ | BDouble _ | BInt _ | BLong _ => 10
  | BString _ | BSymbol _ => 15
  | BObject _ => 20
  | BArray _ => 25
  | BBinData _ _ => 30
  | BOID _ => 35
  | BBool _ => 40
  | BDate _ => 45
  | BTimestamp _ => 47
  | BRegEx _ _ => 50
  | BDBRef _ _ => 55
  | BCode _ => 60
  | BCodeWScope _ _ => 65
  end.

(** [memcmp] of as many bytes. *)
Definition memcmp (a b : bytes) (n : nat) : comparison := bytes_compare (take n a) (take n b).

(** [compareElementStringValues]: the strings with their NULs. *)
Definition compareElementStringValues (l r : bytes) : comparison :=
  let lsz := (length l + 1)%nat in
  let rsz := (length r + 1)%nat in
  lex (memcmp (l ++ [Byte.x00]) (r ++ [Byte.x00]) (Nat.min lsz rsz)) (Nat.compare lsz rsz).

(** [StringData::compare]. *)
Definition StringData_compare (a b : bytes) : comparison :=
  lex (memcmp a b (Nat.min (length a) (length b))) (Nat.compare (length a) (length b)).

(** [BSONElement::woCompare] around the comparison of two values. *)
Definition compare_element (considerFieldName : bool) (l r : bytes * bson) (compareElements : result comparison)
    : result comparison :=
  let t := if type_of l.2 =? type_of r.2 then Eq else Z.compare (canonicalType l.2) (canonicalType r.2) in
  match lex t (if considerFieldName then StringData_compare l.1 r.1 else Eq) with
  | Eq => compareElements
  | c => Ok c
  end.

(** [Ordering::get], for a field below 32, and [Ordering::descending]. *)
Definition Ordering_get (bits i : Z) : Z := if Z.land (Z.shiftl 1 i) bits =? 0 then 1 else -1.
Definition Ordering_descending (bits mask : Z) : Z := Z.land bits mask.

Abbreviation Comparator := (option (bytes -> bytes -> comparison)).

Section Values.

Context (L : IntelDecimal).

(** [compareElements], of values of one canonical type; [comparator] is the collation of strings,
    if there is one. *)
Fixpoint compareElements (l r : bson) (comparator : Comparator) : result comparison :=
  let fix compareFields (d d' : Document) (comparator : Comparator) : result comparison :=
    match d, d' with
    | [], [] => Ok Eq
    | [], _ => Ok Lt
    | _, [] => Ok Gt
    | (n, v) :: d, (n', v') :: d' =>
        let! x := compare_element true (n, v) (n', v') (compareElements v v' comparator) in
        match x with Eq => compareFields d d' comparator | _ => Ok x end
    end in
  match l with
  | BUndefined | BNull | BMaxKey | BMinKey => Ok (Z.compare (canonicalType l) (canonicalType r))
  | BInt _ | BLong _ | BDouble _ | BDecimal _ _ => compareNumbers L l r
  | _ =>
      match l, r with
      | BBool a, BBool b => Ok (Z.compare (if a then 1 else 0) (if b then 1 else 0))
      | BTimestamp a, BTimestamp b => Ok (compareLongs a b)
      | BDate a, BDate b => Ok (compareLongs a b)
      | BOID a, BOID b => Ok (memcmp a b 12)
      | BCode a, BCode b => Ok (compareElementStringValues a b)
      | (BString a | BSymbol a), (BString b | BSymbol b) =>
          Ok (match comparator with Some compare => compare a b | None => compareElementStringValues a b end)
      | BObject d, BObject d' => compareFields d d' comparator
      | BArray d, BArray d' => compareFields d d' comparator
      | BDBRef ns oid, BDBRef ns' oid' =>
          let a := native (blen ns + 1) 4 ++ ns ++ [Byte.x00] ++ oid in
          let b := native (blen ns' + 1) 4 ++ ns' ++ [Byte.x00] ++ oid' in
          Ok (lex (Nat.compare (length a) (length b)) (memcmp a b (length a)))
      | BBinData t x, BBinData t' x' =>
          Ok (lex (Nat.compare (length x) (length x')) (memcmp (Z_byte t :: x) (Z_byte t' :: x') (length x + 1)))
      | BRegEx p f, BRegEx p' f' => Ok (lex (bytes_compare p p') (bytes_compare f f'))
      | BCodeWScope code d, BCodeWScope code' d' =>
          match StringData_compare code code' with Eq => compareFields d d' None | c => Ok c end
      | _, _ => Err InvariantFailure
      end
  end.

(** [BSONElement::woCompare]. *)
Definition woCompareElement (l r : bytes * bson) (considerFieldName : bool) (comparator : Comparator) : result comparison :=
  compare_element considerFieldName l r (compareElements l.2 r.2 comparator).

(** [BSONElement::number]: the value as a double, zero if it is no number. *)
Definition number (e : bson) : Z :=
  match e with
  | BDouble b => b
  | BInt z | BLong z => Binary64.of_i64 z
  | BDecimal h l => (Decimal128.toDouble L (h, l) kRoundTiesToEven).1
  | _ => 0
  end.

(** [Ordering::make]: bit [n] is set if the key pattern's field [n] is descending. *)
Fixpoint make_loop (obj : Document) (b n : Z) : result Z :=
  match obj with
  | [] => Ok b
  | (_, e) :: obj =>
      let! _ := uassert (Location 13103) (n <=? 31) in
      make_loop obj (if Binary64.ltb (number e) 0 then Z.lor b (Z.shiftl 1 n) else b) (n + 1)
  end.
Definition Ordering_make (obj : Document) : result Z := make_loop obj 0 0.

(** [BSONObj::woCompare] with an [Ordering], of which a field is a bit. *)
Fixpoint woCompareFrom (obj r : Document) (mask : Z) (o : Z) (considerFieldName : bool) (comparator : Comparator)
    : result comparison :=
  match obj, r with
  | [], [] => Ok Eq
  | [], _ => Ok Lt
  | _, [] => Ok Gt
  | e :: obj, e' :: r =>
      let! x := woCompareElement e e' considerFieldName comparator in
      let x := if negb (Ordering_descending o mask =? 0) then CompOpp x else x in
      match x with
      | Eq => woCompareFrom obj r (wrap32 (Z.shiftl mask 1)) o considerFieldName comparator
      | _ => Ok x
      end
  end.
Definition woCompare (obj r : Document) (o : Z) (considerFieldName : bool) (comparator : Comparator) : result comparison :=
  woCompareFrom obj r 1 o considerFieldName comparator.

(** [compareObjects], and so [BSONObj::woCompare], with a key pattern. *)
Fixpoint compareObjects (firstObj secondObj idxKey : Document) (considerFieldName : bool) (comparator : Comparator)
    : result comparison :=
  match firstObj, secondObj with
  | [], [] => Ok Eq
  | [], _ => Ok Lt
  | _, [] => Ok Gt
  | l :: firstObj, r :: secondObj =>
      let! x := woCompareElement l r considerFieldName comparator in
      let x := match idxKey with (_, k) :: _ => if Binary64.ltb (number k) 0 then CompOpp x else x | [] => x end in
      match x with
      | Eq => compareObjects firstObj secondObj (tail idxKey) considerFieldName comparator
      | _ => Ok x
      end
  end.

End Values.
