(* ===== verification/KeyDecoder.v ===== *)
(** * Decoding logged keys (base/cdc_key_decoder.{h,cpp})

    A delete's document key comes from the logged KeyString alone, without its type bits. The
    decoder reads a value of every KeyString V1 format; numbers come back in the narrowest type
    that holds them. *)

From S2P Require Import Prelude Bytes Bson RawBson BsonBuilder Doubles Decimals.
#[local] Open Scope Z_scope.

(** ** The reader

    A [BufReader] is the bytes from its position to its end. *)

Module Key.

Abbreviation BufReader := bytes.

(** [skip]: the bytes skipped; past the end it throws. *)
Definition skip (n : Z) (r : BufReader) : result (bytes * BufReader) :=
  if blen r <? n then Err Overflow else Ok (take (Z.to_nat n) r, drop (Z.to_nat n) r).

(** [~] on one byte. *)
Definition flip (b : byte) : byte := Z_byte (255 - byte_Z b).

(** [memcpyFlipBits], or a plain copy. *)
Definition flip_if (inverted : bool) (s : bytes) : bytes := if inverted then map flip s else s.

(** [readType<uint8_t>]. *)
Definition readByte (inverted : bool) (r : BufReader) : result (Z * BufReader) :=
  let! (s, r) := skip 1 r in Ok (readBigEndian (flip_if inverted s), r).

(** [endian::bigToNative(readType<T>(..))] for a [T] of [n] bytes. *)
Definition readBig (n : Z) (inverted : bool) (r : BufReader) : result (Z * BufReader) :=
  let! (s, r) := skip n r in Ok (readBigEndian (flip_if inverted s), r).

(** What precedes the first byte [c], and what follows it. *)
Fixpoint split_at (c : byte) (s : bytes) : option (bytes * bytes) :=
  match s with
  | [] => None
  | b :: s =>
      if bool_decide (b = c) then Some ([], s)
      else match split_at c s with Some (p, r) => Some (b :: p, r) | None => None end
  end.

Definition readCString (r : BufReader) : result (bytes * BufReader) :=
  match split_at Byte.x00 r with Some x => Ok x | None => Err BadValue end.

(** The loop of [readCStringWithNuls]: each 0xFF after a terminator is a NUL of the string. *)
Fixpoint nuls_loop (fuel : nat) (scratch : bytes) (r : BufReader) : result (bytes * BufReader) :=
  match fuel, r with
  | S fuel, b :: r' =>
      if bool_decide (b = Byte.xff) then
        let! (next, r) := readCString r' in
        nuls_loop fuel (scratch ++ [Byte.x00] ++ next) r
      else Ok (scratch, r)
  | _, _ => Ok (scratch, r)
  end.

Definition readCStringWithNuls (r : BufReader) : result (bytes * BufReader) :=
  let! (initial, r) := readCString r in nuls_loop (length r) initial r.

Definition readInvertedCString (r : BufReader) : result (bytes * BufReader) :=
  match split_at Byte.xff r with Some (s, r) => Ok (map flip s, r) | None => Err BadValue end.

(** The loop of [readInvertedCStringWithNuls]: its parts, inverted, 0xFF between them. *)
Fixpoint inverted_nuls_loop (fuel : nat) (out : bytes) (r : BufReader) : result (bytes * BufReader) :=
  match fuel, r with
  | S fuel, b :: r' =>
      if bool_decide (b = Byte.x00) then
        match split_at Byte.xff r' with
        | Some (next, r) => inverted_nuls_loop fuel (out ++ [Byte.xff] ++ next) r
        | None => Err BadValue
        end
      else Ok (out, r)
  | _, _ => Ok (out, r)
  end.

Definition readInvertedCStringWithNuls (r : BufReader) : result (bytes * BufReader) :=
  match split_at Byte.xff r with
  | None => Err BadValue
  | Some (first, r) =>
      let! (out, r) := inverted_nuls_loop (length r) first r in Ok (map flip out, r)
  end.

Definition readString (inverted : bool) (r : BufReader) : result (bytes * BufReader) :=
  if inverted then readInvertedCStringWithNuls r else readCStringWithNuls r.

Definition readName (inverted : bool) (r : BufReader) : result (bytes * BufReader) :=
  if inverted then readInvertedCString r else readCString r.

(** ** Type bytes *)

Definition kMinKey : Z := 10.
Definition kUndefined : Z := 15.
Definition kNullish : Z := 20.
Definition kNumeric : Z := 30.
Definition kStringLike : Z := 60.
Definition kObject : Z := 70.
Definition kArray : Z := 80.
Definition kBinData : Z := 90.
Definition kOID : Z := 100.
Definition kBool : Z := 110.
Definition kDate : Z := 120.
Definition kTimestamp : Z := 130.
Definition kRegEx : Z := 140.
Definition kDBRef : Z := 150.
Definition kCode : Z := 160.
Definition kCodeWithScope : Z := 170.
Definition kMaxKey : Z := 240.

Definition kNumericNaN : Z := kNumeric + 0.
Definition kNumericNegativeLargeMagnitude : Z := kNumeric + 1.
Definition kNumericNegative8ByteInt : Z := kNumeric + 2.
Definition kNumericNegative1ByteInt : Z := kNumeric + 9.
Definition kNumericNegativeSmallMagnitude : Z := kNumeric + 10.
Definition kNumericZero : Z := kNumeric + 11.
Definition kNumericPositiveSmallMagnitude : Z := kNumeric + 12.
Definition kNumericPositive1ByteInt : Z := kNumeric + 13.
Definition kNumericPositive8ByteInt : Z := kNumeric + 20.
Definition kNumericPositiveLargeMagnitude : Z := kNumeric + 21.

Definition kBoolFalse : Z := kBool + 0.
Definition kBoolTrue : Z := kBool + 1.

Definition numBytesForInt (ctype : Z) : Z :=
  if kNumericPositive1ByteInt <=? ctype then ctype - kNumericPositive1ByteInt + 1
  else kNumericNegative1ByteInt - ctype + 1.

Definition kEnd : Z := 4.
Definition kLess : Z := 1.
Definition kGreater : Z := 254.

Definition kDCMEqualToDouble : Z := 0.
Definition kDCMEqualToDoubleRoundedUpTo15Digits : Z := 2.
Definition kDCMHasContinuationLargerThanDoubleRoundedUpTo15Digits : Z := 3.

Definition kMaxIntForDouble : Z := 2 ^ 53.

(** The smallest integer type that holds the value. *)
Definition appendCanonicalInt (value : Z) : bson :=
  if (- 2 ^ 31 <=? value) && (value <=? 2 ^ 31 - 1) then BInt value else BLong value.

(** ** Numbers *)

Section Numbers.

Context (L : IntelDecimal).

Definition readDecimalContinuation (inverted : bool) (num : Decimal) (r : BufReader)
    : result (Decimal * BufReader) :=
  let! (continuation, r) := readBig 8 inverted r in
  let num := Decimal128.normalize L num in
  let sign := Decimal128.isNegative L num in
  let exponent := Decimal128.getBiasedExponent num in
  let! _ := uassert BadValue (Decimal128.isValid sign exponent 0 continuation) in
  let '(sum, flags) := Decimal128.add L num (Decimal128.make sign exponent 0 continuation) kRoundTiesToEven in
  let! _ := uassert BadValue (negb (Decimal128.hasFlag flags Decimal128.kInexact)) in
  Ok (sum, r).

Definition BDec (isNegative : bool) (d : Decimal) : bson :=
  let d := if isNegative then Decimal128.negate d else d in BDecimal d.1 d.2.

Definition BDbl (isNegative : bool) (bin : Z) : bson :=
  BDouble (if isNegative then Binary64.opp bin else bin).

(** A number of 2^63 or more in magnitude; [inverted] and [isNegative] as the switch sets them. *)
Definition readLarge (inverted isNegative : bool) (r : BufReader) : result (bson * BufReader) :=
  let! (encoded, r) := readBig 8 inverted r in
  if negb (Z.testbit encoded 63) then
    let hasDecimalContinuation := Z.testbit encoded 0 in
    let bin := Z.lor (Z.shiftr encoded 1) (2 ^ 62) in
    let bin := if isNegative then Binary64.opp bin else bin in
    if negb hasDecimalContinuation then Ok (BDouble bin, r)
    else
      let mode := if isNegative then kRoundTowardNegative else kRoundTowardPositive in
      let! dec := Decimal128.of_double L bin kRoundTo34Digits mode in
      let! (dec, r) := readDecimalContinuation inverted dec r in
      Ok (BDecimal dec.1 dec.2, r)
  else if encoded =? u64_max then
    Ok (BDbl isNegative Binary64.infinity, r)
  else
    let highbits := Z.land encoded (2 ^ 63 - 1) in
    let! (lowbits, r) := readBig 8 inverted r in
    Ok (BDec isNegative (highbits, lowbits), r).

(** [tinyDoubleDownshiftAsDecimal]. *)
Definition tinyDoubleDownshiftAsDecimal : result Decimal :=
  Decimal128.of_double L (Binary64.ldexp1 (-256)) kRoundTo34Digits kRoundTowardZero.

(** A number below one in magnitude. *)
Definition readSmall (inverted isNegative : bool) (r : BufReader) : result (bson * BufReader) :=
  let! (encoded, r) := readBig 8 inverted r in
  let selector := Z.shiftr encoded 62 in
  if selector =? 0 then
    let! (lowbits, r) := readBig 8 inverted r in
    Ok (BDec isNegative (encoded, lowbits), r)
  else if selector <=? 2 then
    let hasDecimalContinuation := Z.testbit encoded 0 in
    let scaledBin := Z.shiftr (encoded - 2 ^ 62) 1 in
    let bin := Binary64.mul scaledBin (Binary64.ldexp1 (-256)) in
    if negb hasDecimalContinuation then Ok (BDbl isNegative bin, r)
    else
      let! dec :=
        if Binary64.ltb scaledBin (Binary64.mul Binary64.min_normal (Binary64.ldexp1 256)) then
          let! scaledDec := Decimal128.of_double L scaledBin kRoundTo34Digits kRoundTowardZero in
          let! factor := tinyDoubleDownshiftAsDecimal in
          Ok (Decimal128.multiply L scaledDec factor kRoundTowardZero).1
        else Decimal128.of_double L bin kRoundTo34Digits kRoundTowardPositive in
      let! (dec, r) := readDecimalContinuation inverted dec r in
      Ok (BDec isNegative dec, r)
  else
    let dcm := Z.land encoded 3 in
    let bin := Z.shiftr encoded 2 in
    if dcm =? kDCMEqualToDouble then Ok (BDbl isNegative bin, r)
    else if dcm =? kDCMEqualToDoubleRoundedUpTo15Digits then
      let! dec := Decimal128.of_double L bin kRoundTo15Digits kRoundTowardPositive in
      Ok (BDec isNegative dec, r)
    else
      let! dec := Decimal128.of_double L bin kRoundTo34Digits kRoundTowardPositive in
      let! (dec, r) := readDecimalContinuation inverted dec r in
      Ok (BDec isNegative dec, r).

(** [kInvPow256]. *)
Definition kInvPow256 (k : Z) : Z := Binary64.ldexp1 (- 8 * k).

(** An integer part of one to eight bytes, and its fraction if it has one. *)
Definition readInteger (ctype : Z) (inverted isNegative : bool) (r : BufReader) : result (bson * BufReader) :=
  let! (encodedIntegerPart, r) := readBig (numBytesForInt ctype) inverted r in
  let haveFractionalPart := Z.testbit encodedIntegerPart 0 in
  let integerPart := Z.shiftr encodedIntegerPart 1 in
  if negb haveFractionalPart then
    Ok (appendCanonicalInt (if isNegative then - integerPart else integerPart), r)
  else
    let fracBytes := 8 - numBytesForInt ctype in
    let! (fraction, r) := readBig fracBytes inverted r in
    let encodedFraction := wrap64 (Z.lor (Z.shiftl integerPart (8 * fracBytes)) fraction) in
    let bin := Binary64.mul (Binary64.of_u64 (Z.ldiff encodedFraction 3)) (kInvPow256 fracBytes) in
    let dcm := if negb (fracBytes =? 0) then Z.land encodedFraction 3
               else kDCMHasContinuationLargerThanDoubleRoundedUpTo15Digits in
    if dcm =? kDCMEqualToDouble then Ok (BDbl isNegative bin, r)
    else if dcm =? kDCMEqualToDoubleRoundedUpTo15Digits then
      let! dec := Decimal128.of_double L bin kRoundTo15Digits kRoundTowardPositive in
      Ok (BDec isNegative dec, r)
    else
      let! dec := if kMaxIntForDouble <? integerPart then Ok (Decimal128.of_int64 L integerPart)
                  else Decimal128.of_double L bin kRoundTo34Digits kRoundTowardPositive in
      let! (dec, r) := readDecimalContinuation inverted dec r in
      Ok (BDec isNegative dec, r).

Definition between (lo x hi : Z) : bool := (lo <=? x) && (x <=? hi).

(** The numeric cases of the switch; a negative number is the positive format, inverted. *)
Definition readNumeric (ctype : Z) (inverted : bool) (r : BufReader) : option (result (bson * BufReader)) :=
  if ctype =? kNumericNaN then Some (Ok (BDouble Binary64.quiet_NaN, r))
  else if ctype =? kNumericZero then Some (Ok (BInt 0, r))
  else if ctype =? kNumericNegativeLargeMagnitude then Some (readLarge (negb inverted) true r)
  else if ctype =? kNumericPositiveLargeMagnitude then Some (readLarge inverted false r)
  else if ctype =? kNumericNegativeSmallMagnitude then Some (readSmall (negb inverted) true r)
  else if ctype =? kNumericPositiveSmallMagnitude then Some (readSmall inverted false r)
  else if between kNumericNegative8ByteInt ctype kNumericNegative1ByteInt then
    Some (readInteger ctype (negb inverted) true r)
  else if between kNumericPositive1ByteInt ctype kNumericPositive8ByteInt then
    Some (readInteger ctype inverted false r)
  else None.

End Numbers.

(** ** Values *)

Section Values.

Context (L : IntelDecimal).

(** The cases of the switch that hold no other value; [None] for those that do. *)
Definition readScalar (ctype : Z) (inverted : bool) (r : BufReader) : option (result (bson * BufReader)) :=
  if ctype =? kMinKey then Some (Ok (BMinKey, r))
  else if ctype =? kMaxKey then Some (Ok (BMaxKey, r))
  else if ctype =? kNullish then Some (Ok (BNull, r))
  else if ctype =? kUndefined then Some (Ok (BUndefined, r))
  else if ctype =? kBoolTrue then Some (Ok (BBool true, r))
  else if ctype =? kBoolFalse then Some (Ok (BBool false, r))
  else if ctype =? kDate then
    Some (let! (z, r) := readBig 8 inverted r in Ok (BDate (signed64 (Z.lxor z (2 ^ 63))), r))
  else if ctype =? kTimestamp then
    Some (let! (z, r) := readBig 8 inverted r in Ok (BTimestamp z, r))
  else if ctype =? kOID then
    Some (let! (o, r) := skip 12 r in Ok (BOID (flip_if inverted o), r))
  else if ctype =? kStringLike then
    Some (let! (s, r) := readString inverted r in Ok (BString s, r))
  else if ctype =? kCode then
    Some (let! (s, r) := readString inverted r in Ok (BCode s, r))
  else if ctype =? kBinData then
    Some (let! (size, r) := readByte inverted r in
          let! (size, r) := if size =? 0xff then readBig 4 inverted r else Ok (size, r) in
          let! (subType, r) := readByte inverted r in
          let! (data, r) := skip size r in
          Ok (BBinData subType (flip_if inverted data), r))
  else if ctype =? kRegEx then
    Some (let! (pattern, r) := readName inverted r in
          let! (flags, r) := readName inverted r in
          Ok (BRegEx pattern flags, r))
  else if ctype =? kDBRef then
    Some (let! (size, r) := readBig 4 inverted r in
          let! (ns, r) := skip size r in
          let! (oid, r) := skip 12 r in
          Ok (BDBRef (flip_if inverted ns) (flip_if inverted oid), r))
  else readNumeric L ctype inverted r.

(** [toBsonValueCanonical]. A level of nesting takes a byte at least and two calls, so twice the
    bytes left are enough fuel ([values_read]). *)
Fixpoint toBsonValueCanonical (fuel : nat) (ctype : Z) (inverted : bool) (r : BufReader)
    : result (bson * BufReader) :=
  match fuel with
  | O => Err InvariantFailure
  | S fuel =>
      match readScalar ctype inverted r with
      | Some x => x
      | None =>
          if ctype =? kObject then
            let! (d, r) := toBsonFields fuel inverted r in Ok (BObject d, r)
          else if ctype =? kArray then
            let! (d, r) := toBsonItems fuel 0 inverted r in Ok (BArray d, r)
          else if ctype =? kCodeWithScope then
            let! (code, r) := readString inverted r in
            let! (scope, r) := toBsonFields fuel inverted r in
            Ok (BCodeWScope code scope, r)
          else Err BadValue
      end
  end
(** [toBsonCanonical] of a nested object: a generic type byte, a name and a value, until a zero. *)
with toBsonFields (fuel : nat) (inverted : bool) (r : BufReader) : result (Document * BufReader) :=
  match fuel with
  | O => Err InvariantFailure
  | S fuel =>
      let! (generic, r) := readByte inverted r in
      if generic =? 0 then Ok ([], r)
      else
        let! (name, r) := readName inverted r in
        let! (ctype, r) := readByte inverted r in
        let! (v, r) := toBsonValueCanonical fuel ctype inverted r in
        let! (d, r) := toBsonFields fuel inverted r in
        Ok ((name, v) :: d, r)
  end
(** The items of an array, numbered from [index], until a zero. *)
with toBsonItems (fuel : nat) (index : nat) (inverted : bool) (r : BufReader) : result (Document * BufReader) :=
  match fuel with
  | O => Err InvariantFailure
  | S fuel =>
      let! (elemType, r) := readByte inverted r in
      if elemType =? 0 then Ok ([], r)
      else
        let! (v, r) := toBsonValueCanonical fuel elemType inverted r in
        let! (d, r) := toBsonItems fuel (S index) inverted r in
        Ok ((numStr index, v) :: d, r)
  end.

(** [CdcKeyDecoder::toBsonCanonical]: the values of a key, field [i] inverted if [descending i]. *)
Fixpoint key_loop (fuel : nat) (descending : Z -> bool) (i : Z) (r : BufReader) : result Document :=
  match r with
  | [] => Ok []
  | _ =>
      match fuel with
      | O => Err InvariantFailure
      | S fuel' =>
          let invert := descending i in
          let! (ctype, r) := readByte invert r in
          let! (ctype, r) :=
            if (ctype =? kLess) || (ctype =? kGreater) then readByte invert r else Ok (ctype, r) in
          if ctype =? kEnd then Ok []
          else
            let! (v, r) := toBsonValueCanonical (2 * length r + 2) ctype invert r in
            let! d := key_loop fuel' descending (i + 1) r in
            Ok (([], v) :: d)
      end
  end.

Definition toBsonCanonical (descending : Z -> bool) (key : bytes) : result Document :=
  key_loop (length key) descending 0 key.

Definition decodeIdKey (keyString : bytes) : result Document :=
  let! decoded := toBsonCanonical (fun _ => false) keyString in
  match decoded with
  | [(_, value)] => Ok [(lit "_id", value)]
  | _ => Err BadValue
  end.

(** [decodeLoggedIdKey]: the document and the KeyString bytes. *)
Definition decodeLoggedIdKey (loggedKey : bytes) : result (Document * bytes) :=
  let! _ := uassert BadValue (2 <=? blen loggedKey) in
  let len := readNativeBytes (take 2 loggedKey) in
  let! _ := uassert BadValue (len <=? blen loggedKey - 2) in
  let keyString := take (Z.to_nat len) (drop 2 loggedKey) in
  let! d := decodeIdKey keyString in
  Ok (d, keyString).

End Values.

(** ** Every key decodes or is refused *)

(** The errors a key is refused with. *)
Definition key_error (e : ErrorCode) : Prop := e = BadValue \/ e = Overflow.

(** A reading step: it moves forward by [n] bytes at least, or is refused. *)
Definition reads {A} (n : nat) (r : BufReader) (x : result (A * BufReader)) : Prop :=
  match x with Ok (_, r') => (length r' + n <= length r)%nat | Err e => key_error e end.

Lemma reads_weaken {A} n m r (x : result (A * BufReader)) : (m <= n)%nat -> reads n r x -> reads m r x.
Proof. unfold reads. destruct x as [[a r']|e]; [lia|done]. Qed.

Lemma reads_bind {A B} n m r (x : result (A * BufReader)) (f : A * BufReader -> result (B * BufReader)) :
  reads n r x -> (forall a r', (length r' + n <= length r)%nat -> reads m r' (f (a, r'))) ->
  reads (n + m) r (rbind x f).
Proof.
  unfold reads. destruct x as [[a r']|e]; [|done]. intros H Hf. cbn. specialize (Hf a r' H).
  destruct (f (a, r')) as [[b r'']|e]; [lia|done].
Qed.

Lemma reads_Ok {A} r (a : A) : reads 0 r (Ok (a, r)).
Proof. cbn. lia. Qed.

Lemma reads_Err {A} n r e : key_error e -> reads (A:=A) n r (Err e).
Proof. done. Qed.

Lemma skip_reads n r : 0 <= n -> reads (Z.to_nat n) r (skip n r).
Proof.
  intros Hn. unfold skip, reads, blen. destruct (Z.ltb_spec (Z.of_nat (length r)) n); [by right|].
  rewrite length_drop. lia.
Qed.

Lemma skip_reads_any n r : reads 0 r (skip n r).
Proof.
  unfold skip, reads. destruct (blen r <? n); [by right|]. rewrite length_drop. lia.
Qed.

Lemma split_at_length c s p r : split_at c s = Some (p, r) -> (length r + 1 <= length s)%nat.
Proof.
  revert p r. induction s as [|b s IH]; intros p r; cbn; [done|].
  case_bool_decide; [intros [= <- <-]; lia|]. destruct (split_at c s) as [[p' r']|]; [|done].
  intros [= <- <-]. specialize (IH _ _ eq_refl). lia.
Qed.

Lemma reads0_bind {A B} r (x : result (A * BufReader)) (f : A * BufReader -> result (B * BufReader)) :
  reads 0 r x -> (forall a r', (length r' <= length r)%nat -> reads 0 r' (f (a, r'))) -> reads 0 r (rbind x f).
Proof. intros Hx Hf. apply (reads_bind 0 0); [done|]. intros a r' Hr. apply Hf. lia. Qed.

Lemma uassert_reads {A} r c (k : result (A * BufReader)) :
  reads 0 r k -> reads 0 r (let! _ := uassert BadValue c in k).
Proof. intros H. destruct c; [done|by left]. Qed.

Lemma readBig_reads n inverted r : 0 <= n -> reads (Z.to_nat n) r (readBig n inverted r).
Proof.
  intros Hn. unfold readBig. rewrite <- (Nat.add_0_r (Z.to_nat n)). apply reads_bind; [by apply skip_reads|].
  intros a r' _. apply reads_Ok.
Qed.

Lemma readByte_reads inverted r : reads 1 r (readByte inverted r).
Proof. exact (readBig_reads 1 inverted r ltac:(lia)). Qed.

Lemma readCString_reads r : reads 1 r (readCString r).
Proof. unfold readCString. destruct (split_at _ r) as [[p r']|] eqn:E; [by apply split_at_length in E|by left]. Qed.

Lemma readInvertedCString_reads r : reads 1 r (readInvertedCString r).
Proof.
  unfold readInvertedCString. destruct (split_at _ r) as [[p r']|] eqn:E; [by apply split_at_length in E|by left].
Qed.

Lemma readName_reads inverted r : reads 1 r (readName inverted r).
Proof. destruct inverted; [apply readInvertedCString_reads|apply readCString_reads]. Qed.

Lemma nuls_loop_reads fuel scratch r : reads 0 r (nuls_loop fuel scratch r).
Proof.
  revert scratch r. induction fuel as [|fuel IH]; intros scratch [|b r]; cbn [nuls_loop]; try apply reads_Ok.
  case_bool_decide; [|apply reads_Ok].
  pose proof (readCString_reads r) as Hr. destruct (readCString r) as [[s r']|e]; [|done]. cbn [rbind].
  specialize (IH (scratch ++ [Byte.x00] ++ s) r'). unfold reads in *. cbn [length].
  destruct (nuls_loop _ _ _) as [[? ?]|]; [lia|done].
Qed.

Lemma inverted_nuls_loop_reads fuel out r : reads 0 r (inverted_nuls_loop fuel out r).
Proof.
  revert out r. induction fuel as [|fuel IH]; intros out [|b r]; cbn [inverted_nuls_loop]; try apply reads_Ok.
  case_bool_decide; [|apply reads_Ok].
  destruct (split_at _ r) as [[s r']|] eqn:E; [|by left]. apply split_at_length in E.
  specialize (IH (out ++ [Byte.xff] ++ s) r'). unfold reads in *. cbn [length].
  destruct (inverted_nuls_loop _ _ _) as [[? ?]|]; [lia|done].
Qed.

Lemma readString_reads inverted r : reads 1 r (readString inverted r).
Proof.
  destruct inverted; unfold readString.
  - unfold readInvertedCStringWithNuls. destruct (split_at _ r) as [[s r']|] eqn:E; [|by left].
    apply split_at_length in E. pose proof (inverted_nuls_loop_reads (length r') s r') as H.
    destruct (inverted_nuls_loop _ _ _) as [[? ?]|]; [|done]. cbn in *. lia.
  - unfold readCStringWithNuls. apply (reads_bind 1 0); [apply readCString_reads|].
    intros a r' _. apply nuls_loop_reads.
Qed.

(** Steps through a reading function: each read moves forward or is refused. *)
Ltac reads_steps :=
  repeat match goal with
  | |- reads 0 _ (rbind (uassert BadValue _) _) => apply uassert_reads
  | |- context [Decimal128.of_double ?L ?b ?p ?m] => let d := fresh "d" in let E := fresh "E" in destruct (of_double_ok L b p m) as [d E]; rewrite E; clear E
  | |- reads 0 _ (rbind (Ok _) _) => cbn [rbind]
  | |- reads 0 _ (rbind (if ?b then _ else _) _) => destruct b
  | |- reads 0 _ (rbind _ _) => apply reads0_bind; [|intros ? ? ?]
  | |- reads 0 _ (Ok _) => apply reads_Ok
  | |- reads 0 _ (Err BadValue) => by left
  | |- reads 0 _ (readBig _ _ _) => eapply (reads_weaken _ 0); [lia|apply readBig_reads; try lia]
  | |- reads 0 _ (readByte _ _) => eapply (reads_weaken _ 0); [|apply readByte_reads]; lia
  | |- reads 0 _ (readString _ _) => eapply (reads_weaken _ 0); [|apply readString_reads]; lia
  | |- reads 0 _ (readName _ _) => eapply (reads_weaken _ 0); [|apply readName_reads]; lia
  | |- reads 0 _ (skip _ _) => apply skip_reads_any
  | |- reads 0 _ (let '(_, _) := ?x in _) => destruct x
  | |- reads 0 _ (if ?b then _ else _) => destruct b
  end.

Section Total.

Context (L : IntelDecimal) `{!IEEEDecimal L}.

Lemma readDecimalContinuation_reads inverted num r : reads 0 r (readDecimalContinuation L inverted num r).
Proof. unfold readDecimalContinuation. reads_steps. Qed.

Lemma readLarge_reads inverted neg r : reads 0 r (readLarge L inverted neg r).
Proof.
  unfold readLarge. reads_steps; try apply readDecimalContinuation_reads.
Qed.

Lemma readSmall_reads inverted neg r : reads 0 r (readSmall L inverted neg r).
Proof. unfold readSmall. reads_steps; try apply readDecimalContinuation_reads. Qed.

Lemma readInteger_reads ctype inverted neg r :
  1 <= numBytesForInt ctype <= 8 -> reads 0 r (readInteger L ctype inverted neg r).
Proof. intros Hn. unfold readInteger. reads_steps; try apply readDecimalContinuation_reads. Qed.

Lemma between_spec lo x hi : between lo x hi = true <-> lo <= x <= hi.
Proof. unfold between. rewrite andb_true_iff, !Z.leb_le. done. Qed.

Lemma int_bytes ctype :
  between kNumericNegative8ByteInt ctype kNumericNegative1ByteInt = true \/
  between kNumericPositive1ByteInt ctype kNumericPositive8ByteInt = true -> 1 <= numBytesForInt ctype <= 8.
Proof.
  rewrite !between_spec. unfold numBytesForInt, kNumericPositive1ByteInt, kNumericPositive8ByteInt,
    kNumericNegative1ByteInt, kNumericNegative8ByteInt, kNumeric.
  destruct (Z.leb_spec (30 + 13) ctype); lia.
Qed.

Lemma readNumeric_reads ctype inverted r x : readNumeric L ctype inverted r = Some x -> reads 0 r x.
Proof.
  unfold readNumeric. intros H.
  repeat match type of H with
  | (if ?b then _ else _) = _ => destruct b eqn:?; [injection H as <-|]
  end; try apply reads_Ok; try apply readLarge_reads; try apply readSmall_reads; try done.
  - apply readInteger_reads, int_bytes. by left.
  - apply readInteger_reads, int_bytes. by right.
Qed.

Lemma readScalar_reads ctype inverted r x : readScalar L ctype inverted r = Some x -> reads 0 r x.
Proof.
  unfold readScalar. intros H.
  repeat match type of H with
  | (if ?b then _ else _) = _ => destruct b; [injection H as <-|]
  end; try (by eapply readNumeric_reads); reads_steps.
Qed.

(** With twice the bytes left as fuel, a value is read or refused. *)
Lemma values_read fuel :
  (forall ctype inverted r, (2 * length r + 2 <= fuel)%nat -> reads 0 r (toBsonValueCanonical L fuel ctype inverted r)) /\
  (forall inverted r, (2 * length r + 1 <= fuel)%nat -> reads 0 r (toBsonFields L fuel inverted r)) /\
  (forall index inverted r, (2 * length r + 1 <= fuel)%nat -> reads 0 r (toBsonItems L fuel index inverted r)).
Proof.
  induction fuel as [|fuel (IHv & IHf & IHi)]; [split_and!; intros; lia|]. split_and!.
  - intros ctype inverted r Hf. cbn [toBsonValueCanonical].
    destruct (readScalar L ctype inverted r) as [x|] eqn:E; [by eapply readScalar_reads|].
    reads_steps; (apply IHf || apply IHi); lia.
  - intros inverted r Hf. cbn [toBsonFields].
    apply (reads_weaken 1 0); [lia|]. apply (reads_bind 1 0); [apply readByte_reads|]. intros g r1 H1.
    reads_steps; (apply IHv || apply IHf); lia.
  - intros index inverted r Hf. cbn [toBsonItems].
    apply (reads_weaken 1 0); [lia|]. apply (reads_bind 1 0); [apply readByte_reads|]. intros g r1 H1.
    reads_steps; (apply IHv || apply IHi); lia.
Qed.

Lemma key_loop_total fuel descending i r :
  (length r <= fuel)%nat ->
  match key_loop L fuel descending i r with Ok _ => True | Err e => key_error e end.
Proof.
  revert i r. induction fuel as [|fuel IH]; intros i r Hf; destruct r as [|b r]; cbn [key_loop]; try done.
  { cbn in Hf. lia. }
  pose proof (readByte_reads (descending i) (b :: r)) as H1.
  destruct (readByte (descending i) (b :: r)) as [[ctype r1]|e]; [|done]. cbn [rbind].
  set (m := if _ || _ then _ else _).
  assert (reads 0 r1 m) as H2 by (unfold m; reads_steps).
  destruct m as [[ctype' r2]|e]; [|done]. cbn [rbind]. destruct (ctype' =? kEnd); [done|].
  pose proof (proj1 (values_read (2 * length r2 + 2)) ctype' (descending i) r2 ltac:(lia)) as H3.
  destruct (toBsonValueCanonical L _ _ _ r2) as [[v r3]|e]; [|done]. cbn [rbind].
  unfold reads in *. specialize (IH (i + 1) r3 ltac:(lia)).
  by destruct (key_loop L fuel descending (i + 1) r3).
Qed.

(** C33. Whatever bytes a log entry holds as its key, decoding it ends: with the document [{_id: v}]
    of one value [v], read from the KeyString its length prefix delimits, or refused with BadValue or
    Overflow. It never trips an invariant and never runs out of fuel, so a malformed key fails its
    stream and not the process. *)
Theorem decodeLoggedIdKey_total loggedKey :
  match decodeLoggedIdKey L loggedKey with
  | Ok (d, keyString) =>
      (exists v, d = [(lit "_id", v)]) /\
      exists rest, loggedKey = native (blen keyString) 2 ++ keyString ++ rest
  | Err e => key_error e
  end.
Proof.
  unfold decodeLoggedIdKey, decodeIdKey, toBsonCanonical.
  destruct (Z.leb_spec 2 (blen loggedKey)) as [H2|]; [cbn [uassert rbind]|by left].
  set (n := readNativeBytes _). destruct (Z.leb_spec n (blen loggedKey - 2)) as [Hn|]; [cbn [uassert rbind]|by left].
  set (k := take _ _). pose proof (key_loop_total (length k) (fun _ => false) 0 k ltac:(lia)) as Hk.
  destruct (key_loop L _ _ 0 k) as [[|[m v] [|]]|e]; cbn [rbind]; try done; try by left.
  split; [by eexists|]. exists (drop (Z.to_nat n) (drop 2 loggedKey)).
  pose proof (readNative_range (take 2 loggedKey)) as Hr. fold n in Hr. unfold k, blen in *.
  rewrite length_take, length_drop, take_drop, Nat.min_l, Z2Nat.id by lia.
  unfold n. replace 2%nat with (length (take 2 loggedKey)) at 2 by (rewrite length_take; lia).
  by rewrite native_readNative, take_drop.
Qed.

End Total.

(** A logged key of the decimal 0.100000000000001, whose KeyString is the double 0.1 and the marker
    of its 15 digits. *)
Definition ex_logged_key : bytes := map Z_byte [10; 0; 42; 0xfe; 0xe6; 0x66; 0x66; 0x66; 0x66; 0x66; 0x6a; 4].

Lemma decodeLoggedIdKey_total_witness :
  exists d k, decodeLoggedIdKey ref_library ex_logged_key = Ok (d, k) /\
    d = [(lit "_id", BDec false (dec false 100000000000001 (-15)))] /\
    exists rest, ex_logged_key = native (blen k) 2 ++ k ++ rest.
Proof.
  pose proof (decodeLoggedIdKey_total ref_library ex_logged_key) as H.
  destruct (decodeLoggedIdKey ref_library ex_logged_key) as [[d k]|] eqn:E; [|vm_compute in E; discriminate E].
  exists d, k. split; [done|]. split; [vm_compute in E; injection E as <- <-; vm_compute; reflexivity|apply H].
Defined.

End Key.
