(* ===== verification/KeyString.v ===== *)
(** * KeyString V1 (db/storage/key_string.cpp)

    The index key of a document: the values of its fields as bytes that compare the way the values
    do. The logged key of a record is the KeyString of its [_id]. The type bits, which KeyString
    keeps beside its buffer, are no part of the bytes and are left out. *)

From S2P Require Import Prelude Bytes Bson RawBson BsonBuilder Doubles Decimals KeyDecoder.
Import KeyDecoder.Key.
#[local] Open Scope Z_scope.

(** ** The encoder *)

Inductive Discriminator := kInclusive | kExclusiveBefore | kExclusiveAfter.

Definition kDCMHasContinuationLessThanDoubleRoundedUpTo15Digits : Z := 1.

(** First double that isn't an int64. *)
Definition kMinLargeDouble : Z := Binary64.ldexp1 63.
Definition kTiniestDoubleWith2BitDCM : Z := Binary64.ldexp1 (-255).
Definition kTinyDoubleExponentUpshiftFactor : Z := Binary64.ldexp1 256.
Definition one : Z := Binary64.ldexp1 0.

(** [kPow256]. *)
Definition kPow256 (k : Z) : Z := Binary64.ldexp1 (8 * k).

Definition countLeadingZeros64 (v : Z) : Z := if v =? 0 then 64 else 63 - Z.log2 v.

Definition bsonTypeToGenericKeyStringType (v : bson) : Z :=
  match v with
  | BMinKey => kMinKey
  | BNull => kNullish
  | BUndefined => kUndefined
  | BDecimal _ _ | BDouble _ | BInt _ | BLong _ => kNumeric
  | BString _ | BSymbol _ => kStringLike
  | BObject _ => kObject
  | BArray _ => kArray
  | BBinData _ _ => kBinData
  | BOID _ => kOID
  | BBool _ => kBool
  | BDate _ => kDate
  | BTimestamp _ => kTimestamp
  | BRegEx _ _ => kRegEx
  | BDBRef _ _ => kDBRef
  | BCode _ => kCode
  | BCodeWScope _ _ => kCodeWithScope
  | BMaxKey => kMaxKey
  end.

(** [_append] of a byte, and of an integer in big-endian order. *)
Definition append8 (z : Z) (invert : bool) : bytes := flip_if invert [Z_byte z].
Definition append_be (n : nat) (z : Z) (invert : bool) : bytes := flip_if invert (appendBigEndian z n).

(** [_appendStringLike]: a NUL becomes 00 FF, and a 00 ends the string. *)
Fixpoint stringLike_loop (fuel : nat) (str : bytes) : bytes :=
  match fuel, split_at Byte.x00 str with
  | S fuel, Some (part, rest) => part ++ [Byte.x00; Byte.xff] ++ stringLike_loop fuel rest
  | _, _ => str ++ [Byte.x00]
  end.
Definition appendStringLike (str : bytes) (invert : bool) : bytes :=
  flip_if invert (stringLike_loop (length str) str).

Definition appendBinData (type : Z) (data : bytes) (invert : bool) : bytes :=
  append8 kBinData invert ++
  (if blen data <? 0xff then append8 (blen data) invert
   else append8 0xff invert ++ append_be 4 (blen data) invert) ++
  append8 type invert ++ flip_if invert data.

Definition appendRegex (pattern flags : bytes) (invert : bool) : bytes :=
  append8 kRegEx invert ++ flip_if invert pattern ++ append8 0 invert ++ flip_if invert flags ++ append8 0 invert.

(** A C string ends at its first NUL. *)
Definition c_str (s : bytes) : bytes := match split_at Byte.x00 s with Some (p, _) => p | None => s end.

Definition appendDBRef (ns oid : bytes) (invert : bool) : bytes :=
  append8 kDBRef invert ++ append_be 4 (blen ns) invert ++ flip_if invert ns ++ flip_if invert oid.

(** *** Numbers *)

Definition appendPreshiftedIntegerPortion (value : Z) (isNegative invert : bool) : bytes :=
  let bytesNeeded := (64 - countLeadingZeros64 value + 7) / 8 in
  append8 (if isNegative then kNumericNegative1ByteInt - (bytesNeeded - 1)
           else kNumericPositive1ByteInt + (bytesNeeded - 1)) invert ++
  append_be (Z.to_nat bytesNeeded) value (xorb isNegative invert).

Definition appendLargeDouble (value dcm : Z) (invert : bool) : result bytes :=
  let! _ := invariant (negb (dcm =? kDCMEqualToDoubleRoundedUpTo15Digits)) in
  let positive := Binary64.ltb 0 value in
  let encoded :=
    if Binary64.isfinite value then
      Z.lor (Z.ldiff (wrap64 (Z.shiftl value 1)) (2 ^ 63)) (if dcm =? kDCMEqualToDouble then 0 else 1)
    else u64_max in
  Ok (append8 (if positive then kNumericPositiveLargeMagnitude else kNumericNegativeLargeMagnitude) invert ++
      append_be 8 encoded (if positive then invert else negb invert)).

Definition appendSmallDouble (value dcm : Z) (invert : bool) : result bytes :=
  let isNegative := Binary64.ltb value 0 in
  let magnitude := if isNegative then Binary64.opp value else value in
  let! encoded :=
    if Binary64.leb kTiniestDoubleWith2BitDCM magnitude then Ok (Z.lor (wrap64 (Z.shiftl magnitude 2)) dcm)
    else
      let! _ := invariant (negb (dcm =? kDCMEqualToDoubleRoundedUpTo15Digits)) in
      let magnitude := Binary64.mul magnitude kTinyDoubleExponentUpshiftFactor in
      let encoded := Z.lor (wrap64 (Z.shiftl magnitude 1)) (if dcm =? kDCMEqualToDouble then 0 else 1) in
      Ok (wrap64 (encoded + 2 ^ 62)) in
  Ok (append8 (if isNegative then kNumericNegativeSmallMagnitude else kNumericPositiveSmallMagnitude) invert ++
      append_be 8 encoded (xorb isNegative invert)).

Definition appendDoubleWithoutTypeBits (num dcm : Z) (invert : bool) : result bytes :=
  let isNegative := Binary64.ltb num 0 in
  let magnitude := if isNegative then Binary64.opp num else num in
  if negb (Binary64.leb one magnitude) then
    if Binary64.ltb 0 magnitude then appendSmallDouble num dcm invert
    else if Binary64.eqb num 0 then Ok (append8 kNumericZero invert)
    else
      let! _ := invariant (Binary64.isnan num) in
      Ok (append8 kNumericNaN invert)
  else if Binary64.ltb magnitude kMinLargeDouble then
    let integerPart := Binary64.to_u64 magnitude in
    if Binary64.eqb (Binary64.of_u64 integerPart) magnitude && (dcm =? kDCMEqualToDouble) then
      Ok (appendPreshiftedIntegerPortion (wrap64 (Z.shiftl integerPart 1)) isNegative invert)
    else
      let fractionalBytes := countLeadingZeros64 (wrap64 (Z.shiftl integerPart 1)) / 8 in
      let ctype := if isNegative then kNumericNegative8ByteInt + fractionalBytes
                   else kNumericPositive8ByteInt - fractionalBytes in
      let encoding := Binary64.to_u64 (Binary64.mul magnitude (kPow256 fractionalBytes)) in
      let encoding := wrap64 (encoding + wrap64 (Z.shiftl (integerPart + 1) (fractionalBytes * 8))) in
      let! _ := invariant (Z.land encoding 3 =? 0) in
      Ok (append8 ctype invert ++ append_be 8 (Z.lor encoding dcm) (xorb isNegative invert))
  else appendLargeDouble num dcm invert.

Definition appendInteger (num : Z) (invert : bool) : result bytes :=
  if num =? - 2 ^ 63 then appendLargeDouble (Binary64.opp (Binary64.ldexp1 63)) kDCMEqualToDouble invert
  else if num =? 0 then Ok (append8 kNumericZero invert)
  else
    let isNegative := num <? 0 in
    Ok (appendPreshiftedIntegerPortion (wrap64 (Z.shiftl (Z.abs num) 1)) isNegative invert).

(** *** Decimals *)

Section Decimals.

Context (L : IntelDecimal).

Definition kTinyDoubleExponentUpshiftFactorAsDecimal : result Decimal :=
  Decimal128.of_double L (Binary64.ldexp1 256) kRoundTo34Digits kRoundTowardZero.
Definition kTinyDoubleExponentDownshiftFactorAsDecimal : result Decimal :=
  Decimal128.of_double L (Binary64.ldexp1 (-256)) kRoundTo34Digits kRoundTowardZero.

Definition appendTinyDecimalWithoutTypeBits (dec : Decimal) (bin : Z) (invert : bool) : result bytes :=
  let isNegative := Decimal128.isNegative L dec in
  let magnitude := if isNegative then Decimal128.negate dec else dec in
  let ctype := append8 (if isNegative then kNumericNegativeSmallMagnitude else kNumericPositiveSmallMagnitude) invert in
  if Binary64.eqb bin 0 then
    let '(hi, lo) := Decimal128.normalize L magnitude in
    let! _ := invariant (Z.land hi (Z.shiftl 3 62) =? 0) in
    Ok (ctype ++ append_be 8 hi (xorb isNegative invert) ++ append_be 8 lo (xorb isNegative invert))
  else
    let! upshift := kTinyDoubleExponentUpshiftFactorAsDecimal in
    let! downshift := kTinyDoubleExponentDownshiftFactorAsDecimal in
    let scaledDec := (Decimal128.multiply L magnitude upshift kRoundTowardZero).1 in
    let scaledBin := (Decimal128.toDouble L scaledDec kRoundTowardZero).1 in
    let scaledBin := Binary64.max scaledBin (Binary64.mul (Binary64.abs bin) kTinyDoubleExponentUpshiftFactor) in
    let encoded := wrap64 (Z.lor (wrap64 (Z.shiftl scaledBin 1)) 1 + 2 ^ 62) in
    let! storedVal := Decimal128.of_double L scaledBin kRoundTo34Digits kRoundTowardZero in
    let storedVal := (Decimal128.multiply L storedVal downshift kRoundTowardZero).1 in
    let storedVal := (Decimal128.add L storedVal Decimal128.kLargestNegativeExponentZero kRoundTiesToEven).1 in
    let decDiff := (Decimal128.subtract L magnitude storedVal kRoundTiesToEven).1 in
    Ok (ctype ++ append_be 8 encoded (xorb isNegative invert) ++
        append_be 8 (Decimal128.getCoefficientLow decDiff) (xorb isNegative invert)).

Definition appendHugeDecimalWithoutTypeBits (dec : Decimal) (invert : bool) : bytes :=
  let isNegative := Decimal128.isNegative L dec in
  let '(hi, lo) := Decimal128.normalize L (if isNegative then Decimal128.negate dec else dec) in
  append8 (if isNegative then kNumericNegativeLargeMagnitude else kNumericPositiveLargeMagnitude) invert ++
  append_be 8 (Z.lor hi (2 ^ 63)) (xorb isNegative invert) ++ append_be 8 lo (xorb isNegative invert).

(** What is stored of a decimal that is no double and within the range of doubles: its bytes, and
    the value they stand for when a decimal continuation is to follow. *)
Definition appendInexactDecimal (dec : Decimal) (bin : Z) (invert : bool) : result (bytes * option Decimal) :=
  let isNegative := Decimal128.isNegative L dec in
  let absBin := Binary64.abs bin in
  let roundAwayFromZero := if isNegative then kRoundTowardNegative else kRoundTowardPositive in
  if Binary64.leb kMinLargeDouble absBin then
    let! s := appendLargeDouble bin kDCMHasContinuationLargerThanDoubleRoundedUpTo15Digits invert in
    let! storedValue := Decimal128.of_double L bin kRoundTo34Digits roundAwayFromZero in
    Ok (s, Some storedValue)
  else if Binary64.ltb absBin kTiniestDoubleWith2BitDCM then
    let! s := appendSmallDouble bin kDCMHasContinuationLargerThanDoubleRoundedUpTo15Digits invert in
    let! storedValue := Decimal128.of_double L bin kRoundTo34Digits roundAwayFromZero in
    Ok (s, Some storedValue)
  else if Binary64.leb (Binary64.ldexp1 53) absBin then
    let '(truncated, signalingFlags) := Decimal128.quantize L dec Decimal128.kNormalizedZero kRoundTowardZero in
    let integerPart := signed64 (Decimal128.getCoefficientLow truncated) in
    let hasFraction := Decimal128.hasFlag signalingFlags Decimal128.kInexact in
    let isNegative := Decimal128.isNegative L truncated in
    let has8bytes := 2 ^ 55 <=? integerPart in
    let preshifted := wrap64 (Z.shiftl integerPart 1) in
    let s := appendPreshiftedIntegerPortion (Z.lor preshifted (if hasFraction then 1 else 0)) isNegative invert in
    if negb hasFraction then Ok (s, None)
    else
      let s := if has8bytes then s
               else s ++ append8 kDCMHasContinuationLargerThanDoubleRoundedUpTo15Digits (xorb isNegative invert) in
      Ok (s, Some (Decimal128.make isNegative Decimal128.kExponentBias 0 (wrap64 integerPart)))
  else if (Decimal128.getCoefficientHigh dec =? 0) && (Decimal128.getCoefficientLow dec <? 10 ^ 15) then
    let! s := appendDoubleWithoutTypeBits bin kDCMEqualToDoubleRoundedUpTo15Digits invert in
    Ok (s, None)
  else
    let! decFromBin := Decimal128.of_double L bin kRoundTo15Digits roundAwayFromZero in
    if Decimal128.isEqual L decFromBin dec then
      let! s := appendDoubleWithoutTypeBits bin kDCMEqualToDoubleRoundedUpTo15Digits invert in
      Ok (s, None)
    else
      let dcm := if xorb (Decimal128.isLess L dec decFromBin) isNegative
                 then kDCMHasContinuationLessThanDoubleRoundedUpTo15Digits
                 else kDCMHasContinuationLargerThanDoubleRoundedUpTo15Digits in
      let! s := appendDoubleWithoutTypeBits bin dcm invert in
      let! storedValue := Decimal128.of_double L bin kRoundTo34Digits roundAwayFromZero in
      Ok (s, Some storedValue).

Definition appendNumberDecimal (dec : Decimal) (invert : bool) : result bytes :=
  let isNegative := Decimal128.isNegative L dec in
  if Decimal128.isZero L dec then Ok (append8 kNumericZero invert)
  else if Decimal128.isNaN L dec then Ok (append8 kNumericNaN invert)
  else if Decimal128.isInfinite L dec then
    Ok (append8 (if isNegative then kNumericNegativeLargeMagnitude else kNumericPositiveLargeMagnitude) invert ++
        append_be 8 u64_max (xorb isNegative invert))
  else
    let '(bin, signalingFlags) := Decimal128.toDouble L dec kRoundTowardZero in
    if negb (Decimal128.hasFlag signalingFlags Decimal128.kInexact) &&
       negb (Decimal128.hasFlag signalingFlags Decimal128.kOverflow)
    then appendDoubleWithoutTypeBits bin kDCMEqualToDouble invert
    else if Binary64.ltb (Binary64.abs bin) Binary64.min_normal then appendTinyDecimalWithoutTypeBits dec bin invert
    else if Binary64.leb Binary64.max_finite (Binary64.abs bin) then Ok (appendHugeDecimalWithoutTypeBits dec invert)
    else
      let! (s, storedValue) := appendInexactDecimal dec bin invert in
      match storedValue with
      | None => Ok s
      | Some storedValue =>
          let! _ := invariant (negb (Decimal128.isNaN L storedValue)) in
          let storedValue := Decimal128.normalize L storedValue in
          let decDiff := (Decimal128.subtract L dec storedValue kRoundTiesToEven).1 in
          let! _ := invariant (eqb (Decimal128.isNegative L decDiff) (Decimal128.isNegative L dec) ||
                               Decimal128.isZero L decDiff) in
          let! _ := invariant (Decimal128.getBiasedExponent decDiff =? Decimal128.getBiasedExponent storedValue) in
          let! _ := invariant (Decimal128.getCoefficientHigh decDiff =? 0) in
          Ok (s ++ append_be 8 (Decimal128.getCoefficientLow decDiff) (xorb isNegative invert))
      end.

(** *** Values *)

(** [_appendBsonValue]; an object's elements are a generic type byte, the name and the value, an
    array's only values, and a zero ends both. *)
Fixpoint appendBsonValue (elem : bson) (invert : bool) : result bytes :=
  let appendBson (obj : Document) :=
    foldr (fun e k =>
             let! v := appendBsonValue e.2 invert in
             let! rest := k in
             Ok (append8 (bsonTypeToGenericKeyStringType e.2) invert ++ flip_if invert (e.1 ++ [Byte.x00]) ++ v ++ rest))
          (Ok (append8 0 invert)) obj in
  match elem with
  | BMinKey | BMaxKey | BNull | BUndefined => Ok (append8 (bsonTypeToGenericKeyStringType elem) invert)
  | BDouble num => appendDoubleWithoutTypeBits num kDCMEqualToDouble invert
  | BString s => Ok (append8 kStringLike invert ++ appendStringLike s invert)
  | BObject d => let! s := appendBson d in Ok (append8 kObject invert ++ s)
  | BArray d =>
      let! s := foldr (fun e k => let! v := appendBsonValue e.2 invert in let! rest := k in Ok (v ++ rest))
                      (Ok (append8 0 invert)) d in
      Ok (append8 kArray invert ++ s)
  | BBinData type data => Ok (appendBinData type data invert)
  | BOID oid => Ok (append8 kOID invert ++ flip_if invert oid)
  | BBool b => Ok (append8 (if b then kBoolTrue else kBoolFalse) invert)
  | BDate millis => Ok (append8 kDate invert ++ append_be 8 (Z.lxor (wrap64 millis) (2 ^ 63)) invert)
  | BRegEx pattern flags => Ok (appendRegex pattern flags invert)
  | BDBRef ns oid => Ok (appendDBRef (c_str ns) oid invert)
  | BSymbol s => Ok (append8 kStringLike invert ++ appendStringLike s invert)
  | BCode s => Ok (append8 kCode invert ++ appendStringLike s invert)
  | BCodeWScope code scope =>
      let! s := appendBson scope in
      Ok (append8 kCodeWithScope invert ++ appendStringLike code invert ++ s)
  | BInt z | BLong z => appendInteger z invert
  | BTimestamp ts => Ok (append8 kTimestamp invert ++ append_be 8 ts invert)
  | BDecimal high low => appendNumberDecimal (high, low) invert
  end.

(** [_appendAllElementsForIndexing]: the values of the fields, field [i] inverted if [descending i];
    a field name that begins with l or g sets the discriminator. *)
Fixpoint appendElements (elems : Document) (i : Z) (descending : Z -> bool) (discriminator : Discriminator) : result bytes :=
  match elems with
  | [] =>
      Ok (match discriminator with
          | kExclusiveBefore => append8 kLess false
          | kExclusiveAfter => append8 kGreater false
          | kInclusive => []
          end ++ append8 kEnd false)
  | (name, elem) :: elems' =>
      let! v := appendBsonValue elem (descending i) in
      let! discriminator :=
        match name with
        | [] => Ok discriminator
        | ch :: _ =>
            let! _ := invariant (bool_decide (ch = Byte.x6c) || bool_decide (ch = Byte.x67)) in
            let! _ := invariant (match elems' with [] => true | _ => false end) in
            Ok (if bool_decide (ch = Byte.x6c) then kExclusiveBefore else kExclusiveAfter)
        end in
      let! rest := appendElements elems' (i + 1) descending discriminator in
      Ok (v ++ rest)
  end.

(** [resetToKey]. *)
Definition resetToKey (obj : Document) (descending : Z -> bool) (discriminator : Discriminator) : result bytes :=
  appendElements obj 0 descending discriminator.

End Decimals.
