(* ===== verification/KeyRoundTrip.v ===== *)
(** * Keys round-trip

    What [KeyString] writes of a document, the key decoder of the change stream reads back: the
    values, up to what a key does not tell apart. *)

From Stdlib Require Import Floats.SpecFloat.
From S2P Require Import Prelude Bytes Bson RawBson BsonBuilder Doubles Decimals KeyDecoder KeyString.
Import KeyDecoder.Key.
#[local] Open Scope Z_scope.

(** ** What a key does not tell apart *)

(** The integer a double is, when it is one below 2^63 in magnitude. *)
Definition int_value (f : spec_float) : option Z :=
  match f with
  | S754_zero _ => Some 0
  | S754_finite s m e =>
      let n := Z.shiftl (Zpos m) e in
      if (Z.shiftl n (- e) =? Zpos m) && (n <? 2 ^ 63) then Some (if s then - n else n) else None
  | _ => None
  end.

Definition canonical_double (bits : Z) : bson :=
  if Binary64.isnan bits then BDouble Binary64.quiet_NaN
  else match int_value (Binary64.of_bits bits) with Some z => appendCanonicalInt z | None => BDouble bits end.

(** Numbers of a value are one, whatever their type; so are strings and symbols; the names of an
    array's items are their positions. *)
Fixpoint canonical (v : bson) : bson :=
  let canonical_doc (d : Document) := map (fun e => (e.1, canonical e.2)) d in
  match v with
  | BInt z | BLong z =>
      if z =? - 2 ^ 63 then BDouble (Binary64.opp (Binary64.ldexp1 63)) else appendCanonicalInt z
  | BDouble bits => canonical_double bits
  | BSymbol s => BString s
  | BDBRef ns oid => BDBRef (c_str ns) oid
  | BObject d => BObject (canonical_doc d)
  | BArray d => BArray (imap (fun i v => (numStr i, v)) (map (fun e => canonical e.2) d))
  | BCodeWScope code d => BCodeWScope code (canonical_doc d)
  | _ => v
  end.

(** Values without decimals, whose parts have sizes that fit an [int]. *)
Fixpoint keyable (v : bson) : Prop :=
  match v with
  | BDecimal _ _ => False
  | BBinData _ x => blen x < 2 ^ 31
  | BDBRef ns _ => blen ns < 2 ^ 31
  | BObject d | BArray d | BCodeWScope _ d => foldr (fun e P => keyable e.2 /\ P) True d
  | _ => True
  end.

(** ** Reading what was written *)

Lemma flip_flip b : flip (flip b) = b.
Proof.
  unfold flip. apply (inj byte_Z). pose proof (byte_Z_range b). rewrite byte_Z_byte, byte_Z_byte.
  rewrite (Z.mod_small (255 - byte_Z b)) by lia. rewrite Z.mod_small by lia. lia.
Qed.

Lemma flip_inj a b : flip a = flip b -> a = b.
Proof. intros H. by rewrite <- (flip_flip a), H, flip_flip. Qed.

Lemma map_flip_flip s : map flip (map flip s) = s.
Proof. rewrite map_map. induction s as [|b s IH]; cbn; [done|]. by rewrite flip_flip, IH. Qed.

Lemma flip_if_twice i s : flip_if i (flip_if i s) = s.
Proof. destruct i; [apply map_flip_flip|done]. Qed.

Lemma length_flip_if i s : length (flip_if i s) = length s.
Proof. destruct i; cbn; [apply length_map|done]. Qed.

Lemma flip_if_app i a b : flip_if i (a ++ b) = flip_if i a ++ flip_if i b.
Proof. destruct i; cbn; [apply map_app|done]. Qed.

Lemma skip_app i s r : skip (blen s) (flip_if i s ++ r) = Ok (flip_if i s, r).
Proof.
  unfold skip, blen. rewrite length_app, length_flip_if.
  rewrite (proj2 (Z.ltb_ge _ _)), Nat2Z.id by lia.
  by rewrite take_app_length', drop_app_length' by by rewrite length_flip_if.
Qed.

Lemma readBig_append n z i r : readBig (Z.of_nat n) i (append_be n z i ++ r) = Ok (z mod 256 ^ Z.of_nat n, r).
Proof.
  unfold readBig, append_be. replace (Z.of_nat n) with (blen (appendBigEndian z n)) at 1
    by (unfold blen; by rewrite length_appendBigEndian).
  rewrite skip_app. cbn [rbind]. by rewrite flip_if_twice, readBigEndian_append.
Qed.

Lemma readBig8 z i r : 0 <= z < 2 ^ 64 -> readBig 8 i (append_be 8 z i ++ r) = Ok (z, r).
Proof. intros Hz. rewrite (readBig_append 8). by rewrite Z.mod_small by (change (256 ^ Z.of_nat 8) with (2 ^ 64); lia). Qed.

Lemma readByte_append z i r : 0 <= z < 256 -> readByte i (append8 z i ++ r) = Ok (z, r).
Proof.
  intros Hz. unfold readByte, append8. change 1 with (blen [Z_byte z]). rewrite skip_app. cbn [rbind].
  rewrite flip_if_twice. unfold readBigEndian. cbn [foldl]. rewrite shift_in_eq, byte_Z_byte, Z.mod_small by lia. done.
Qed.

(** The byte that ends a string, and the byte that would go on with it. *)
Definition nul (i : bool) : byte := if i then Byte.xff else Byte.x00.
Definition ends (i : bool) (r : bytes) : Prop := head r <> Some (if i then Byte.x00 else Byte.xff).

Lemma split_at_app c s r : c ∉ s -> split_at c (s ++ c :: r) = Some (s, r).
Proof.
  induction s as [|b s IH]; intros H; cbn; [by rewrite bool_decide_eq_true_2|].
  rewrite bool_decide_eq_false_2 by (intros ->; apply H; set_solver). by rewrite IH by set_solver.
Qed.

Lemma nul_not_in i s : cstring s -> nul i ∉ flip_if i s.
Proof.
  intros H. destruct i; [|done]. cbn. intros (b & E & Hb)%list_elem_of_fmap. apply H.
  change Byte.xff with (flip Byte.x00) in E. apply flip_inj in E. by subst b.
Qed.

Lemma split_flipped i s r : cstring s -> split_at (nul i) (flip_if i (s ++ [Byte.x00]) ++ r) = Some (flip_if i s, r).
Proof.
  intros H. rewrite flip_if_app, <- app_assoc. replace (flip_if i [Byte.x00] ++ r) with (nul i :: r) by by destruct i.
  by apply split_at_app, nul_not_in.
Qed.

Lemma readName_append i s r : cstring s -> readName i (flip_if i (s ++ [Byte.x00]) ++ r) = Ok (s, r).
Proof.
  intros H. pose proof (split_flipped i s r H) as E.
  destruct i; unfold readName, readInvertedCString, readCString; cbn [nul flip_if] in *; rewrite E; [|done].
  by rewrite map_flip_flip.
Qed.

(** *** Strings, whose NULs are written as 00 FF *)

Lemma split_at_spec c s :
  match split_at c s with Some (p, q) => s = p ++ c :: q /\ c ∉ p | None => c ∉ s end.
Proof.
  induction s as [|b s IH]; cbn; [set_solver|]. case_bool_decide as E; [subst; set_solver|].
  destruct (split_at c s) as [[p q]|]; [destruct IH as [-> ?]; split; [done|]|]; set_solver.
Qed.

Lemma stringLike_split n s : (length s <= n)%nat ->
  cstring s /\ stringLike_loop n s = s ++ [Byte.x00] \/
  exists n' p q, n = S n' /\ s = p ++ Byte.x00 :: q /\ cstring p /\ (length q <= n')%nat /\
    stringLike_loop n s = p ++ [Byte.x00; Byte.xff] ++ stringLike_loop n' q.
Proof.
  intros Hn. pose proof (split_at_spec Byte.x00 s) as H. destruct n as [|n].
  - left. destruct s; [|cbn in Hn; lia]. split; [unfold cstring; set_solver|done].
  - cbn [stringLike_loop]. destruct (split_at Byte.x00 s) as [[p q]|]; [right|by left].
    destruct H as [-> Hp]. rewrite length_app in Hn. cbn [length] in Hn. exists n, p, q. split_and!; done || lia.
Qed.

Lemma nuls_stop fuel scratch r : ends false r -> nuls_loop fuel scratch r = Ok (scratch, r).
Proof.
  intros H. destruct fuel, r as [|b r]; try done. cbn [nuls_loop]. rewrite bool_decide_eq_false_2; [done|].
  intros ->. by apply H.
Qed.

Lemma inverted_nuls_stop fuel out r : ends true r -> inverted_nuls_loop fuel out r = Ok (out, r).
Proof.
  intros H. destruct fuel, r as [|b r]; try done. cbn [inverted_nuls_loop]. rewrite bool_decide_eq_false_2; [done|].
  intros ->. by apply H.
Qed.

(** A string, written and split at its first terminator, is read to its end by the loop. *)
Lemma nuls_written n s : (length s <= n)%nat -> forall r, ends false r ->
  exists p r', split_at Byte.x00 (stringLike_loop n s ++ r) = Some (p, r') /\
    forall scratch fuel, (length r' <= fuel)%nat -> nuls_loop fuel (scratch ++ p) r' = Ok (scratch ++ s, r).
Proof.
  revert s. induction n as [|n IH]; intros s Hn r Hr;
    destruct (stringLike_split _ s Hn) as [[Hs ->]|(n' & p & q & En & -> & Hp & Hq & ->)]; try done.
  1-2: exists s, r; rewrite <- app_assoc; split; [by apply split_at_app|]; intros; by apply nuls_stop.
  injection En as <-. destruct (IH q Hq r Hr) as (p1 & r1 & E1 & E2).
  exists p, (Byte.xff :: stringLike_loop n q ++ r). split; [rewrite <- !app_assoc; by apply split_at_app|].
  intros scratch fuel Hf. apply split_at_length in E1 as Hl. destruct fuel as [|fuel]; cbn [length] in Hf; [lia|].
  cbn [nuls_loop]. rewrite bool_decide_eq_true_2 by done. unfold readCString. rewrite E1. cbn [rbind].
  replace ((scratch ++ p) ++ [Byte.x00] ++ p1) with ((scratch ++ p ++ [Byte.x00]) ++ p1) by by rewrite <- !app_assoc.
  rewrite E2 by lia. by rewrite <- !app_assoc.
Qed.

Lemma inverted_nuls_written n s : (length s <= n)%nat -> forall r, ends true r ->
  exists p r', split_at Byte.xff (map flip (stringLike_loop n s) ++ r) = Some (p, r') /\
    forall out fuel, (length r' <= fuel)%nat ->
      inverted_nuls_loop fuel (out ++ p) r' = Ok (out ++ map flip s, r).
Proof.
  revert s. induction n as [|n IH]; intros s Hn r Hr;
    destruct (stringLike_split _ s Hn) as [[Hs ->]|(n' & p & q & En & -> & Hp & Hq & ->)]; try done.
  1-2: exists (map flip s), r; split; [exact (split_flipped true s r Hs)|]; intros; by apply inverted_nuls_stop.
  injection En as <-. destruct (IH q Hq r Hr) as (p1 & r1 & E1 & E2).
  exists (map flip p), (Byte.x00 :: map flip (stringLike_loop n q) ++ r). split.
  { rewrite !map_app, <- !app_assoc. apply (split_at_app Byte.xff), (nul_not_in true), Hp. }
  intros out fuel Hf. apply split_at_length in E1 as Hl. destruct fuel as [|fuel]; cbn [length] in Hf; [lia|].
  cbn [inverted_nuls_loop]. rewrite bool_decide_eq_true_2 by done. rewrite E1.
  replace ((out ++ map flip p) ++ [Byte.xff] ++ p1) with ((out ++ map flip p ++ [Byte.xff]) ++ p1) by by rewrite <- !app_assoc.
  rewrite E2 by lia. by rewrite map_app, <- !app_assoc.
Qed.

Lemma readString_append i s r : ends i r -> readString i (appendStringLike s i ++ r) = Ok (s, r).
Proof.
  intros Hr. unfold appendStringLike. destruct i; cbn [readString flip_if].
  - destruct (inverted_nuls_written (length s) s ltac:(done) r Hr) as (p & r' & E1 & E2).
    unfold readInvertedCStringWithNuls. rewrite E1, (E2 []) by done. cbn [rbind app]. by rewrite map_flip_flip.
  - destruct (nuls_written (length s) s ltac:(done) r Hr) as (p & r' & E1 & E2).
    unfold readCStringWithNuls, readCString. rewrite E1. cbn [rbind]. by rewrite (E2 []) by done.
Qed.


(** *** Numbers *)

Section Numbers.

Context (L : IntelDecimal).

(** The bytes of a number, and what is read from them. *)
Definition reads_number (v : bson) (i : bool) (s : bytes) : Prop :=
  exists c s', s = append8 c i ++ s' /\ kNumericNaN <= c <= kNumericPositiveLargeMagnitude /\
    forall r, readNumeric L c i (s' ++ r) = Some (Ok (v, r)).

(** The type byte of an integer part of [k] bytes. *)
Definition int_type (neg : bool) (k : Z) : Z :=
  if neg then kNumericNegative1ByteInt - (k - 1) else kNumericPositive1ByteInt + (k - 1).

Lemma readNumeric_int neg k i r : 1 <= k <= 8 ->
  readNumeric L (int_type neg k) i r = Some (readInteger L (int_type neg k) (xorb neg i) neg r) /\
  numBytesForInt (int_type neg k) = k /\ kNumericNaN <= int_type neg k <= kNumericPositiveLargeMagnitude.
Proof.
  intros Hk. assert (k = 1 \/ k = 2 \/ k = 3 \/ k = 4 \/ k = 5 \/ k = 6 \/ k = 7 \/ k = 8) as Hc by lia.
  destruct neg; destruct_or! Hc; subst k; cbn [xorb]; (split; [reflexivity|split; [reflexivity|split; discriminate]]).
Qed.

Lemma bytes_needed v : 0 < v < 2 ^ 64 ->
  let k := (64 - countLeadingZeros64 v + 7) / 8 in 1 <= k <= 8 /\ v < 256 ^ k.
Proof.
  intros Hv k. set (l := Z.log2 v).
  assert (k = (l + 8) / 8) as Ek.
  { unfold k, countLeadingZeros64. rewrite (proj2 (Z.eqb_neq _ _)) by lia. fold l. f_equal. lia. }
  assert (0 <= l < 64) as Hl by (unfold l; split; [apply Z.log2_nonneg|apply Z.log2_lt_pow2; lia]).
  pose proof (Z.div_mod (l + 8) 8 ltac:(lia)). pose proof (Z.mod_pos_bound (l + 8) 8 ltac:(lia)). rewrite <- Ek in *.
  split; [lia|]. change 256 with (2 ^ 8). rewrite <- Z.pow_mul_r by lia. apply Z.log2_lt_pow2; lia.
Qed.

Lemma wrap64_double n : 0 <= n < 2 ^ 63 -> wrap64 (Z.shiftl n 1) = 2 * n.
Proof. intros. unfold wrap64. rewrite Z.shiftl_mul_pow2, Z.mod_small; lia. Qed.

(** An integer. *)
Lemma preshifted_read (n : Z) (neg i : bool) : 0 < n < 2 ^ 63 ->
  reads_number (appendCanonicalInt (if neg then - n else n)) i
    (appendPreshiftedIntegerPortion (wrap64 (Z.shiftl n 1)) neg i).
Proof.
  intros Hn. rewrite wrap64_double by lia. unfold appendPreshiftedIntegerPortion.
  destruct (bytes_needed (2 * n) ltac:(lia)) as [Hk Hv]. set (k := (64 - countLeadingZeros64 (2 * n) + 7) / 8) in *.
  exists (int_type neg k), (append_be (Z.to_nat k) (2 * n) (xorb neg i)). split; [done|].
  split; [by apply (readNumeric_int neg k i [])|]. intros r. destruct (readNumeric_int neg k i
    (append_be (Z.to_nat k) (2 * n) (xorb neg i) ++ r) Hk) as (-> & Eb & _).
  unfold readInteger. rewrite Eb. replace k with (Z.of_nat (Z.to_nat k)) at 1 by lia. rewrite readBig_append.
  rewrite Z2Nat.id, Z.mod_small by lia. cbn [rbind].
  rewrite Z.testbit_even_0, Z.shiftr_div_pow2 by lia. cbn [negb]. change (2 ^ 1) with 2.
  by rewrite (Z.mul_comm 2 n), Z.div_mul by lia.
Qed.

(** A number of 2^63 or more in magnitude. *)
Lemma isfinite_sign s m : Binary64.magnitude m ->
  Binary64.isfinite (Binary64.sign_bit s + m) = negb (m =? Binary64.infinity).
Proof.
  intros Hm. unfold Binary64.isfinite. rewrite Binary64.of_bits_sign by by apply Binary64.magnitude_small.
  destruct (Binary64.of_bits_magnitude m Hm) as [[-> ->]|[[-> ->]|(p & e & -> & Hd & Em)]]; [by destruct s..|].
  rewrite (proj2 (Z.eqb_neq _ _)); [by destruct s|].
  destruct (Z.ltb_spec (Zpos p) (2 ^ 52)); unfold Binary64.double, Binary64.infinity in *; lia.
Qed.

Lemma BDbl_sign s m : 0 <= m < 2 ^ 63 -> BDbl s m = BDouble (Binary64.sign_bit s + m).
Proof.
  intros Hm. unfold BDbl. destruct s; [|done]. f_equal.
  rewrite <- (Z.add_0_l m) at 1. apply (Binary64.opp_sign false m Hm).
Qed.

Lemma large_bits s m : 2 ^ 62 <= m < 2 ^ 63 ->
  Z.ldiff (wrap64 (Z.shiftl (Binary64.sign_bit s + m) 1)) (2 ^ 63) = 2 * (m - 2 ^ 62).
Proof.
  intros Hm. assert (wrap64 (Z.shiftl (Binary64.sign_bit s + m) 1) = 2 * (m - 2 ^ 62) + 2 ^ 63) as ->.
  { unfold wrap64. rewrite Z.shiftl_mul_pow2 by lia. change (2 ^ 1) with 2. destruct s; unfold Binary64.sign_bit.
    - replace ((2 ^ 63 + m) * 2) with (2 * m + 1 * 2 ^ 64) by lia. rewrite Z.mod_add, Z.mod_small by lia. lia.
    - rewrite Z.mod_small by lia. lia. }
  pose proof (Binary64.land_top (2 * (m - 2 ^ 62)) ltac:(lia)) as E.
  rewrite Z.add_nocarry_lxor, (Z.lxor_lor _ _ E) by exact E. apply Z.bits_inj'. intros n Hn.
  apply (f_equal (fun z => Z.testbit z n)) in E. rewrite Z.land_spec, Z.bits_0 in E.
  rewrite Z.ldiff_spec, Z.lor_spec. revert E. by destruct (Z.testbit (2 * _) n), (Z.testbit (2 ^ 63) n).
Qed.

Lemma large_read s m i : Binary64.magnitude m -> Binary64.ldexp1 63 <= m ->
  exists bs, appendLargeDouble (Binary64.sign_bit s + m) kDCMEqualToDouble i = Ok bs /\
    reads_number (BDouble (Binary64.sign_bit s + m)) i bs.
Proof.
  intros Hm Hl. pose proof (Binary64.magnitude_small m Hm). change (Binary64.ldexp1 63) with (2 ^ 62 + 62 * 2 ^ 52) in Hl.
  unfold appendLargeDouble. destruct (Binary64.ltb_sign s m Hm ltac:(lia)) as [_ ->].
  rewrite isfinite_sign by done. cbn [invariant rbind kDCMEqualToDouble kDCMEqualToDoubleRoundedUpTo15Digits Z.eqb negb].
  eexists. split; [done|]. set (enc := if negb (m =? _) then _ else _).
  assert (0 <= enc < 2 ^ 64 /\ forall r, readLarge L (xorb s i) s (append_be 8 enc (xorb s i) ++ r) = Ok (BDouble (Binary64.sign_bit s + m), r)) as [_ Hr].
  { unfold enc. destruct (Z.eqb_spec m Binary64.infinity) as [->|Hfin]; cbn [negb].
    - split; [done|]. intros r. unfold readLarge. rewrite readBig8 by done. cbn [rbind].
      change (Z.testbit u64_max 63) with true. rewrite Z.eqb_refl. cbn [negb]. by rewrite BDbl_sign.
    - rewrite large_bits, Z.lor_0_r by lia. split; [lia|]. intros r. unfold readLarge. rewrite readBig8 by lia. cbn [rbind].
      rewrite Z.testbit_eqb, Z.div_small, Z.testbit_even_0 by lia. cbn [negb Z.eqb].
      rewrite Z.shiftr_div_pow2, (Z.mul_comm 2), Z.div_mul by lia.
      assert (Z.lor (m - 2 ^ 62) (2 ^ 62) = m) as ->
        by (rewrite Z.lor_comm; change (2 ^ 62) with (Z.shiftl 1 62) at 1; rewrite lor_add by lia; lia).
      by rewrite <- BDbl_sign by lia. }
  exists (if s then kNumericNegativeLargeMagnitude else kNumericPositiveLargeMagnitude), (append_be 8 enc (xorb s i)).
  split; [by destruct s|]. split; [by destruct s|]. intros r. specialize (Hr r). rewrite <- Hr. by destruct s.
Qed.

(** A number below one in magnitude. *)
Lemma abs_sign (s : bool) m : 0 <= m < 2 ^ 63 ->
  (if s then Binary64.opp (Binary64.sign_bit s + m) else Binary64.sign_bit s + m) = m.
Proof. intros Hm. destruct s; [rewrite Binary64.opp_sign by done|]; unfold Binary64.sign_bit; cbn; lia. Qed.

Lemma wrap_shiftl m k : 0 <= k -> 0 <= m * 2 ^ k < 2 ^ 64 -> wrap64 (Z.shiftl m k) = m * 2 ^ k.
Proof. intros. unfold wrap64. by rewrite Z.shiftl_mul_pow2, Z.mod_small. Qed.

(** The magnitudes of small numbers, as they are stored. *)
Definition stored_small (m enc : Z) : Prop :=
  0 <= enc < 2 ^ 64 /\
  forall s i r, readSmall L i s (append_be 8 enc i ++ r) = Ok (BDouble (Binary64.sign_bit s + m), r).

Lemma stored_small_normal m : 768 * 2 ^ 52 <= m < 1023 * 2 ^ 52 -> stored_small m (m * 2 ^ 2).
Proof.
  intros Hm. split; [lia|]. intros s i r. unfold readSmall. rewrite readBig8 by lia. cbn [rbind].
  assert (Z.shiftr (m * 2 ^ 2) 62 = 3) as ->.
  { rewrite Z.shiftr_div_pow2 by lia. symmetry. apply (Z.div_unique _ _ _ (m * 2 ^ 2 - 3 * 2 ^ 62)); lia. }
  cbn [Z.eqb Z.leb Z.compare Pos.compare Pos.compare_cont]. rewrite (Binary64.land_low _ 2), Z.mod_mul by lia.
  rewrite Z.shiftr_div_pow2, Z.div_mul by lia. by rewrite <- BDbl_sign by lia.
Qed.

Lemma stored_small_tiny m w : 0 <= m < 2 ^ 63 -> 0 <= w < 2 ^ 62 -> Binary64.mul w (Binary64.ldexp1 (-256)) = m ->
  stored_small m (w * 2 ^ 1 + 2 ^ 62).
Proof.
  intros Hm Hw Ew. split; [lia|]. intros s i r. unfold readSmall. rewrite readBig8 by lia. cbn [rbind].
  assert (1 <= Z.shiftr (w * 2 ^ 1 + 2 ^ 62) 62 <= 2) as Hs.
  { rewrite Z.shiftr_div_pow2, Z.add_comm by lia. split; [apply Z.div_le_lower_bound; lia|].
    enough ((2 ^ 62 + w * 2 ^ 1) / 2 ^ 62 < 3) by lia. apply Z.div_lt_upper_bound; lia. }
  rewrite (proj2 (Z.eqb_neq _ _)), (proj2 (Z.leb_le _ _)) by lia.
  replace (w * 2 ^ 1 + 2 ^ 62) with (2 * (w + 2 ^ 61)) at 1 by lia. rewrite Z.testbit_even_0. cbn [negb].
  replace (w * 2 ^ 1 + 2 ^ 62 - 2 ^ 62) with (w * 2 ^ 1) by lia.
  rewrite Z.shiftr_div_pow2, Z.div_mul, Ew by lia. by rewrite <- BDbl_sign by lia.
Qed.

Lemma small_read s m i : 0 < m < Binary64.ldexp1 0 ->
  exists bs, appendSmallDouble (Binary64.sign_bit s + m) kDCMEqualToDouble i = Ok bs /\
    reads_number (BDouble (Binary64.sign_bit s + m)) i bs.
Proof.
  change (Binary64.ldexp1 0) with (1023 * 2 ^ 52). intros Hm.
  assert (Binary64.magnitude m) as Hmag by (unfold Binary64.magnitude, Binary64.infinity; lia).
  unfold appendSmallDouble. destruct (Binary64.ltb_sign s m Hmag ltac:(lia)) as [-> _]. rewrite abs_sign by lia.
  rewrite Binary64.leb_magnitude by done. change kTiniestDoubleWith2BitDCM with (768 * 2 ^ 52). cbn [invariant rbind].
  set (enc := if _ <=? _ then _ else _).
  assert (exists z, enc = Ok z /\ stored_small m z) as (z & -> & _ & Hr).
  { unfold enc. destruct (Z.leb_spec (768 * 2 ^ 52) m).
    - exists (m * 2 ^ 2). rewrite wrap_shiftl, Z.lor_0_r by lia. split; [done|]. apply stored_small_normal; lia.
    - destruct (Binary64.scale_tiny m) as (w & E & Hw & Ew & _); [change (Binary64.ldexp1 (-255)) with (768 * 2 ^ 52); lia|].
      exists (w * 2 ^ 1 + 2 ^ 62). unfold kTinyDoubleExponentUpshiftFactor. cbn [invariant rbind Z.eqb negb kDCMEqualToDouble kDCMEqualToDoubleRoundedUpTo15Digits].
      rewrite E, wrap_shiftl, Z.lor_0_r by lia. unfold wrap64 at 1. rewrite Z.mod_small by lia. split; [done|].
      apply stored_small_tiny; done || lia. }
  cbn [rbind]. eexists. split; [done|].
  exists (if s then kNumericNegativeSmallMagnitude else kNumericPositiveSmallMagnitude), (append_be 8 z (xorb s i)).
  split; [done|]. split; [by destruct s|]. intros r. specialize (Hr s (xorb s i) r). rewrite <- Hr. by destruct s.
Qed.

(** A number with a fraction. *)
Lemma appendBigEndian_split v k n :
  appendBigEndian v (k + n) = appendBigEndian (v / 256 ^ Z.of_nat n) k ++ appendBigEndian v n.
Proof.
  induction k as [|k IH]; [done|]. cbn [Nat.add]. unfold appendBigEndian; fold appendBigEndian.
  rewrite IH. cbn [app]. do 3 f_equal. rewrite !Z.shiftr_div_pow2 by lia.
  replace (256 ^ Z.of_nat n) with (2 ^ (8 * Z.of_nat n)) by (by rewrite Z.pow_mul_r by lia).
  rewrite Z.div_div by (try apply Z.pow_nonzero; try apply Z.pow_pos_nonneg; lia).
  rewrite <- Z.pow_add_r by lia. do 2 f_equal. lia.
Qed.

(** The eight bytes [2n + 1] and [x], a fraction of [f] bytes, are read as the two. *)
Lemma readInteger_split (neg : bool) (f n x : Z) (i : bool) (r : bytes) :
  1 <= f <= 7 -> 0 <= x < 2 ^ (8 * f) -> 0 <= n -> 2 * n + 1 < 2 ^ (8 * (8 - f)) ->
  let E := n * 2 ^ (8 * f) + x in
  let bin := Binary64.mul (Binary64.of_u64 (Z.ldiff E 3)) (kInvPow256 f) in
  Z.land E 3 = 0 ->
  readInteger L (int_type neg (8 - f)) i neg (append_be 8 ((2 * n + 1) * 2 ^ (8 * f) + x) i ++ r) = Ok (BDbl neg bin, r).
Proof.
  intros Hf Hx Hn Hn' E bin HE. unfold readInteger. destruct (readNumeric_int neg (8 - f) i [] ltac:(lia)) as (_ & -> & _).
  set (z := (2 * n + 1) * 2 ^ (8 * f) + x). assert (0 < 2 ^ (8 * f)) by (apply Z.pow_pos_nonneg; lia).
  assert (256 ^ f = 2 ^ (8 * f)) as E256 by (by rewrite Z.pow_mul_r by lia).
  assert (256 ^ (8 - f) = 2 ^ (8 * (8 - f))) as E256' by (by rewrite Z.pow_mul_r by lia).
  assert (append_be 8 z i = append_be (Z.to_nat (8 - f)) (2 * n + 1) i ++ append_be (Z.to_nat f) z i) as ->.
  { unfold append_be. rewrite <- flip_if_app. f_equal. replace 8%nat with (Z.to_nat (8 - f) + Z.to_nat f)%nat at 1 by lia.
    rewrite appendBigEndian_split, Z2Nat.id, E256 by lia. do 2 f_equal. unfold z.
    rewrite Z.div_add_l, Z.div_small by lia. lia. }
  rewrite <- app_assoc. replace (8 - f) with (Z.of_nat (Z.to_nat (8 - f))) at 1 by lia.
  rewrite readBig_append, Z2Nat.id, E256', Z.mod_small by lia. cbn [rbind].
  rewrite (Z.add_comm (2 * n)), (Z.add_b2z_double_bit0 true n : Z.testbit (1 + 2 * n) 0 = true). cbn [negb].
  replace (8 - (8 - f)) with f by lia. replace f with (Z.of_nat (Z.to_nat f)) at 1 by lia.
  rewrite readBig_append, Z2Nat.id, E256 by lia. cbn [rbind].
  assert (z mod 2 ^ (8 * f) = x) as -> by (unfold z; rewrite Z.add_comm, Z.mod_add, Z.mod_small; lia).
  assert (Z.shiftr (1 + 2 * n) 1 = n) as ->.
  { rewrite Z.shiftr_div_pow2 by lia. symmetry. apply (Z.div_unique _ _ _ 1); lia. }
  rewrite lor_add by lia. fold E. assert (0 <= E < 2 ^ 64) as HE'.
  { unfold E. split; [nia|]. replace (2 ^ 64) with (2 ^ (8 * (8 - f)) * 2 ^ (8 * f)) by (rewrite <- Z.pow_add_r by lia; f_equal; lia). nia. }
  unfold wrap64. rewrite Z.mod_small by lia. rewrite HE, (proj2 (Z.eqb_neq f 0)) by lia. done.
Qed.

Lemma fractional_bytes p e : 2 ^ 52 <= Zpos p < 2 ^ 53 -> -52 <= e < 0 ->
  let n := Z.shiftl (Zpos p) e in
  exists f, countLeadingZeros64 (wrap64 (Z.shiftl n 1)) / 8 = f /\ 1 <= f <= 7 /\ 3 <= e + 8 * f <= 10.
Proof.
  intros Hp He n. destruct (Binary64.integer_part p e Hp ltac:(lia)) as (Hn & Hl & _). fold n in Hn, Hl.
  exists ((10 - e) / 8). rewrite wrap64_double by lia. unfold countLeadingZeros64.
  rewrite (proj2 (Z.eqb_neq _ _)), Z.log2_double, Hl by lia. split; [f_equal; lia|].
  pose proof (Z.div_mod (10 - e) 8 ltac:(lia)). pose proof (Z.mod_pos_bound (10 - e) 8 ltac:(lia)). lia.
Qed.

(** What is stored of a number with a fraction: its integer part, doubled and odd, and the rest. *)
Lemma fraction_parts p e f : 2 ^ 52 <= Zpos p < 2 ^ 53 -> -52 <= e < 0 -> 1 <= f <= 7 -> 3 <= e + 8 * f <= 10 ->
  let n := Z.shiftl (Zpos p) e in let E := Zpos p * 2 ^ (e + 8 * f) in let x := E - n * 2 ^ (8 * f) in
  0 <= x < 2 ^ (8 * f) /\ 2 * n + 1 < 2 ^ (8 * (8 - f)) /\ Z.land E 3 = 0 /\ 0 <= E < 2 ^ 63 /\
  wrap64 (E + wrap64 (Z.shiftl (n + 1) (f * 8))) = (2 * n + 1) * 2 ^ (8 * f) + x /\
  Z.land ((2 * n + 1) * 2 ^ (8 * f) + x) 3 = 0.
Proof.
  intros Hp He Hf Hk n E x. destruct (Binary64.integer_part p e Hp ltac:(lia)) as (Hn & Hl & _). fold n in Hn, Hl.
  assert (n = Zpos p / 2 ^ (- e)) as En by (unfold n; by rewrite <- Z.shiftr_opp_r, Z.shiftr_div_pow2 by lia).
  assert (2 ^ (8 * f) = 2 ^ (e + 8 * f) * 2 ^ (- e)) as E8 by (rewrite <- Z.pow_add_r by lia; f_equal; lia).
  assert (0 < 2 ^ (- e)) by (apply Z.pow_pos_nonneg; lia). assert (0 < 2 ^ (e + 8 * f)) by (apply Z.pow_pos_nonneg; lia).
  pose proof (Z.div_mod (Zpos p) (2 ^ (- e)) ltac:(lia)) as Hdm. pose proof (Z.mod_pos_bound (Zpos p) (2 ^ (- e)) ltac:(lia)) as Hmod.
  rewrite <- En in Hdm. set (y := Zpos p mod 2 ^ (- e)) in *.
  assert (x = y * 2 ^ (e + 8 * f)) as Ex by (unfold x, E; rewrite E8; nia).
  assert (0 <= x < 2 ^ (8 * f)) as Hx by (rewrite Ex, E8; nia).
  assert (2 ^ (e + 8 * f) <= 2 ^ 10) by (apply Z.pow_le_mono_r; lia).
  assert (0 <= E < 2 ^ 63) as HE by (unfold E; nia).
  assert (n < 2 ^ (53 + e)) as Hn2 by (apply Z.log2_lt_pow2; lia).
  assert (2 * (n + 1) * 2 ^ (8 * f) <= 2 ^ 64) as Hfit.
  { replace (2 ^ 64) with (2 * 2 ^ (53 + e) * 2 ^ (10 - e)) by (rewrite <- Z.pow_succ_r, <- Z.pow_add_r by lia; f_equal; lia).
    assert (2 ^ (8 * f) <= 2 ^ (10 - e)) by (apply Z.pow_le_mono_r; lia). nia. }
  assert (Z.land (2 ^ (e + 8 * f)) 3 = 0 /\ exists c, 2 ^ (e + 8 * f) = c * 2 ^ 2) as [_ [c Hc]].
  { assert (2 ^ (e + 8 * f) = 2 ^ (e + 8 * f - 2) * 2 ^ 2) as Ec by (rewrite <- Z.pow_add_r by lia; f_equal; lia).
    split; [|by eexists]. rewrite Ec, (Binary64.land_low _ 2), Z.mod_mul by lia. done. }
  assert (E + (n + 1) * 2 ^ (8 * f) = (2 * n + 1) * 2 ^ (8 * f) + x) as Es by (unfold x; lia).
  split_and!; try done; try lia.
  - replace (2 ^ 64) with (2 ^ (8 * (8 - f)) * 2 ^ (8 * f)) in Hfit by (rewrite <- Z.pow_add_r by lia; f_equal; lia). nia.
  - unfold E. rewrite Hc, Z.mul_assoc, (Binary64.land_low _ 2), Z.mod_mul by lia. done.
  - rewrite (Z.mul_comm f 8), wrap_shiftl by nia. rewrite <- Es. unfold wrap64. apply Z.mod_small. nia.
  - rewrite Ex, E8, Hc. replace ((2 * n + 1) * (c * 2 ^ 2 * 2 ^ (- e)) + y * (c * 2 ^ 2)) with (((2 * n + 1) * c * 2 ^ (- e) + y * c) * 2 ^ 2) by ring.
    rewrite (Binary64.land_low _ 2), Z.mod_mul by lia. done.
Qed.

Lemma fraction_read s m i p e : Binary64.of_bits m = S754_finite false p e -> Binary64.to_bits (S754_finite false p e) = m ->
  2 ^ 52 <= Zpos p < 2 ^ 53 -> -52 <= e < 0 -> 0 <= m < 2 ^ 63 ->
  let n := Z.shiftl (Zpos p) e in
  let f := countLeadingZeros64 (wrap64 (Z.shiftl n 1)) / 8 in
  let enc := wrap64 (Binary64.to_u64 (Binary64.mul m (kPow256 f)) + wrap64 (Z.shiftl (n + 1) (f * 8))) in
  Z.land enc 3 = 0 /\
  reads_number (BDouble (Binary64.sign_bit s + m)) i
    (append8 (if s then kNumericNegative8ByteInt + f else kNumericPositive8ByteInt - f) i ++
     append_be 8 (Z.lor enc kDCMEqualToDouble) (xorb s i)).
Proof.
  intros Eb Et Hp He Hm n f enc. destruct (fractional_bytes p e Hp He) as (f' & Ef & Hf & Hk). fold n f in Ef. subst f'.
  destruct (fraction_parts p e f Hp He Hf Hk) as (Hx & Hn' & HE & HEr & Ew & Ew3). fold n in Hx, Hn', HE, HEr, Ew, Ew3.
  destruct (Binary64.scale_fraction m p e (8 * f) Eb Et Hp ltac:(lia) ltac:(lia) ltac:(lia)) as [E1 E2].
  unfold enc, kPow256. rewrite E1, Ew, Z.lor_0_r. split; [done|].
  assert ((if s then kNumericNegative8ByteInt + f else kNumericPositive8ByteInt - f) = int_type s (8 - f)) as ->
    by (destruct s; unfold int_type, kNumericNegative8ByteInt, kNumericPositive8ByteInt, kNumericNegative1ByteInt, kNumericPositive1ByteInt; lia).
  destruct (Binary64.integer_part p e Hp ltac:(lia)) as (Hn & _). fold n in Hn.
  eexists _, _. split; [done|]. split; [by apply (readNumeric_int s (8 - f) i [] ltac:(lia))|]. intros r.
  destruct (readNumeric_int s (8 - f) i (append_be 8 ((2 * n + 1) * 2 ^ (8 * f) + (Zpos p * 2 ^ (e + 8 * f) - n * 2 ^ (8 * f))) (xorb s i) ++ r) ltac:(lia)) as (-> & _).
  rewrite readInteger_split by (done || lia || by replace (n * 2 ^ (8 * f) + _) with (Zpos p * 2 ^ (e + 8 * f)) by lia).
  replace (n * 2 ^ (8 * f) + _) with (Zpos p * 2 ^ (e + 8 * f)) by lia.
  assert (Z.ldiff (Zpos p * 2 ^ (e + 8 * f)) 3 = Zpos p * 2 ^ (e + 8 * f)) as ->.
  { rewrite <- (Z.lor_ldiff_and (Zpos p * 2 ^ (e + 8 * f)) 3) at 2. by rewrite HE, Z.lor_0_r. }
  unfold kInvPow256. replace (- 8 * f) with (- (8 * f)) by lia. rewrite E2. by rewrite BDbl_sign.
Qed.

(** Every double. *)
Lemma canonical_sign s m p e : Binary64.of_bits m = S754_finite false p e -> 0 <= m < 2 ^ 63 ->
  canonical_double (Binary64.sign_bit s + m) =
    (let n := Z.shiftl (Zpos p) e in
     if (Z.shiftl n (- e) =? Zpos p) && (n <? 2 ^ 63) then appendCanonicalInt (if s then - n else n)
     else BDouble (Binary64.sign_bit s + m)).
Proof.
  intros Eb Hm. unfold canonical_double, Binary64.isnan. rewrite Binary64.of_bits_sign, Eb by done.
  destruct s; cbn [SFopp negb int_value]; by destruct (_ && _).
Qed.

Lemma append_middle_double s m i p e : Binary64.of_bits m = S754_finite false p e -> Binary64.to_bits (S754_finite false p e) = m ->
  2 ^ 52 <= Zpos p < 2 ^ 53 -> -52 <= e <= 10 -> Binary64.ldexp1 0 <= m < Binary64.ldexp1 63 ->
  let n := Z.shiftl (Zpos p) e in
  if Z.shiftl n (- e) =? Zpos p then
    appendDoubleWithoutTypeBits (Binary64.sign_bit s + m) kDCMEqualToDouble i
      = Ok (appendPreshiftedIntegerPortion (wrap64 (Z.shiftl n 1)) s i) /\
    canonical_double (Binary64.sign_bit s + m) = appendCanonicalInt (if s then - n else n)
  else
    e < 0 /\ canonical_double (Binary64.sign_bit s + m) = BDouble (Binary64.sign_bit s + m) /\
    let f := countLeadingZeros64 (wrap64 (Z.shiftl n 1)) / 8 in
    let enc := wrap64 (Binary64.to_u64 (Binary64.mul m (kPow256 f)) + wrap64 (Z.shiftl (n + 1) (f * 8))) in
    Z.land enc 3 = 0 ->
    appendDoubleWithoutTypeBits (Binary64.sign_bit s + m) kDCMEqualToDouble i =
      Ok (append8 (if s then kNumericNegative8ByteInt + f else kNumericPositive8ByteInt - f) i ++
          append_be 8 (Z.lor enc kDCMEqualToDouble) (xorb s i)).
Proof.
  intros Eb Et Hp He Hm n. assert (Binary64.magnitude m) as Hmag by (rewrite <- Et; apply Binary64.magnitude_finite; left; lia).
  pose proof (Binary64.magnitude_small m Hmag) as Hsm. rewrite (canonical_sign s m p e Eb Hsm).
  destruct (Binary64.integer_part p e Hp He) as (Hn & _ & Hq & _). fold n in Hn, Hq |- *. cbv zeta.
  unfold appendDoubleWithoutTypeBits. destruct (Binary64.ltb_sign s m Hmag) as [-> _].
  { change (Binary64.ldexp1 0) with (1023 * 2 ^ 52) in Hm. lia. }
  rewrite abs_sign by done. unfold one, kMinLargeDouble.
  rewrite (Binary64.leb_magnitude (Binary64.ldexp1 0) m), (Binary64.ltb_magnitude m (Binary64.ldexp1 63)) by (done || split; done).
  rewrite (proj2 (Z.leb_le (Binary64.ldexp1 0) m)), (proj2 (Z.ltb_lt m (Binary64.ldexp1 63))) by lia. cbn [negb].
  assert (Binary64.to_u64 m = n) as -> by (unfold Binary64.to_u64; by rewrite Eb).
  rewrite (Binary64.integer_part_eqb m p e Hmag Eb Et Hp He : Binary64.eqb (Binary64.of_u64 n) m = (Z.shiftl n (- e) =? Zpos p)). rewrite (proj2 (Z.ltb_lt n _)) by lia.
  change (kDCMEqualToDouble =? kDCMEqualToDouble) with true. rewrite !andb_true_r.
  destruct (Z.eqb_spec (Z.shiftl n (- e)) (Zpos p)) as [E|E]; [done|]. split; [|split; [done|]].
  { destruct (Z.lt_ge_cases e 0); [done|]. exfalso. apply E. unfold n. rewrite Z.shiftl_opp_r, Z.shiftl_mul_pow2, Z.shiftr_div_pow2 by lia.
    apply Z.div_mul. apply Z.pow_nonzero; lia. }
  intros H3. by rewrite H3.
Qed.

Lemma middle_read s m i : Binary64.ldexp1 0 <= m < Binary64.ldexp1 63 ->
  exists bs, appendDoubleWithoutTypeBits (Binary64.sign_bit s + m) kDCMEqualToDouble i = Ok bs /\
    reads_number (canonical_double (Binary64.sign_bit s + m)) i bs.
Proof.
  intros Hm. destruct (Binary64.of_bits_middle m Hm) as (p & e & Eb & Et & Hp & He).
  pose proof (append_middle_double s m i p e Eb Et Hp He Hm) as H. cbv zeta in H.
  destruct (_ =? _).
  - destruct H as [-> ->]. eexists. split; [done|].
    apply preshifted_read. destruct (Binary64.integer_part p e Hp He) as (Hn & _). lia.
  - destruct H as (He' & -> & H). assert (0 <= m < 2 ^ 63) as Hm63.
    { change (Binary64.ldexp1 0) with (1023 * 2 ^ 52) in Hm. change (Binary64.ldexp1 63) with (1086 * 2 ^ 52) in Hm. lia. }
    destruct (fraction_read s m i p e Eb Et Hp ltac:(lia) Hm63) as [H3 Hr].
    eexists. split; [exact (H H3)|exact Hr].
Qed.

Lemma one_magnitude : Binary64.magnitude one.
Proof. split; done. Qed.

(** The other doubles: zeros, small and large ones, and no number. *)
Lemma append_small_double s m i : 0 < m < Binary64.ldexp1 0 ->
  appendDoubleWithoutTypeBits (Binary64.sign_bit s + m) kDCMEqualToDouble i
    = appendSmallDouble (Binary64.sign_bit s + m) kDCMEqualToDouble i /\
  canonical_double (Binary64.sign_bit s + m) = BDouble (Binary64.sign_bit s + m).
Proof.
  change (Binary64.ldexp1 0) with (1023 * 2 ^ 52). intros Hm.
  assert (Binary64.magnitude m) as Hmag by (unfold Binary64.magnitude, Binary64.infinity; lia). split.
  - unfold appendDoubleWithoutTypeBits. destruct (Binary64.ltb_sign s m Hmag ltac:(lia)) as [-> _].
    rewrite abs_sign by lia. rewrite (Binary64.leb_magnitude one m one_magnitude Hmag).
    change one with (1023 * 2 ^ 52). rewrite (proj2 (Z.leb_gt _ _)) by lia. cbn [negb].
    by rewrite (Binary64.ltb_magnitude 0 m), (proj2 (Z.ltb_lt _ _)) by (done || lia || split; done).
  - destruct (Binary64.of_bits_magnitude m Hmag) as [[-> _]|[[-> _]|(p & e & Eb & Hd & Em)]]; [lia|unfold Binary64.infinity in Hm; lia|].
    rewrite (canonical_sign s m p e Eb ltac:(lia)). cbv zeta.
    assert (Z.shiftl (Zpos p) e = 0) as ->; [|by rewrite Z.shiftl_0_l].
    assert (e < 0 /\ Z.log2 (Zpos p) < - e) as [He Hl].
    { unfold Binary64.double in Hd. destruct (Z.ltb_spec (Zpos p) (2 ^ 52)).
      - assert (Z.log2 (Zpos p) < 52) by (apply Z.log2_lt_pow2; lia). lia.
      - assert (Z.log2 (Zpos p) = 52) by (apply Z.log2_unique; lia). lia. }
    rewrite <- Z.shiftr_opp_r, Z.shiftr_div_pow2 by lia. apply Z.div_small. split; [lia|].
    apply Z.log2_lt_pow2; lia.
Qed.

Lemma append_large_double s m i : Binary64.magnitude m -> Binary64.ldexp1 63 <= m ->
  appendDoubleWithoutTypeBits (Binary64.sign_bit s + m) kDCMEqualToDouble i
    = appendLargeDouble (Binary64.sign_bit s + m) kDCMEqualToDouble i /\
  canonical_double (Binary64.sign_bit s + m) = BDouble (Binary64.sign_bit s + m).
Proof.
  intros Hmag Hm. pose proof (Binary64.magnitude_small m Hmag) as Hsm.
  change (Binary64.ldexp1 63) with (1086 * 2 ^ 52) in Hm. split.
  - unfold appendDoubleWithoutTypeBits. destruct (Binary64.ltb_sign s m Hmag ltac:(lia)) as [-> _].
    rewrite abs_sign by lia. rewrite (Binary64.leb_magnitude one m one_magnitude Hmag).
    change one with (1023 * 2 ^ 52). rewrite (proj2 (Z.leb_le _ m)) by lia. cbn [negb].
    rewrite (Binary64.ltb_magnitude m kMinLargeDouble Hmag ltac:(split; done)).
    change kMinLargeDouble with (1086 * 2 ^ 52). by rewrite (proj2 (Z.ltb_ge _ _)) by lia.
  - destruct (Binary64.of_bits_magnitude m Hmag) as [[-> _]|[[-> E]|(p & e & Eb & Hd & Em)]]; [lia|by destruct s|].
    rewrite (canonical_sign s m p e Eb ltac:(lia)). cbv zeta.
    rewrite (proj2 (Z.ltb_ge (Z.shiftl (Zpos p) e) _)); [by rewrite andb_false_r|].
    unfold Binary64.double in Hd. destruct (Z.ltb_spec (Zpos p) (2 ^ 52)); [lia|].
    rewrite Z.shiftl_mul_pow2 by lia. assert (2 ^ 11 <= 2 ^ e) by (apply Z.pow_le_mono_r; lia). nia.
Qed.

Lemma append_nan bits i : Binary64.isnan bits = true ->
  appendDoubleWithoutTypeBits bits kDCMEqualToDouble i = Ok (append8 kNumericNaN i).
Proof.
  intros En. unfold appendDoubleWithoutTypeBits. rewrite En. unfold Binary64.isnan in En.
  assert (forall x, Binary64.ltb bits x = false /\ Binary64.leb x bits = false /\ Binary64.eqb bits x = false /\ Binary64.ltb x bits = false) as H.
  { intros x. unfold Binary64.ltb, Binary64.leb, Binary64.eqb, SFltb, SFleb, SFeqb.
    destruct (Binary64.of_bits bits); try done. by destruct (Binary64.of_bits x). }
  destruct (H 0) as (-> & _ & -> & ->). by destruct (H one) as (_ & -> & _).
Qed.

Lemma double_read bits i : 0 <= bits < 2 ^ 64 ->
  exists bs, appendDoubleWithoutTypeBits bits kDCMEqualToDouble i = Ok bs /\ reads_number (canonical_double bits) i bs.
Proof.
  intros Hb. assert (Binary64.of_bits bits = S754_nan \/ Binary64.of_bits bits <> S754_nan) as [En|Hn]
    by (destruct (Binary64.of_bits bits); first [by left|by right]).
  - rewrite append_nan by (unfold Binary64.isnan; by rewrite En). unfold canonical_double, Binary64.isnan. rewrite En.
    eexists. split; [done|]. exists kNumericNaN, []. split; [by rewrite app_nil_r|]. by split.
  - destruct (Binary64.signed_magnitude bits Hb Hn) as (s & m & -> & Hmag).
    destruct (decide (m = 0)) as [->|Hm0].
    { exists (append8 kNumericZero i). destruct s; (split; [reflexivity|]); exists kNumericZero, [];
        (split; [by rewrite app_nil_r|by split]). }
    pose proof (Binary64.magnitude_small m Hmag) as Hsm.
    destruct (Z.lt_ge_cases m (Binary64.ldexp1 0)) as [H1|H1].
    { destruct (append_small_double s m i ltac:(lia)) as [-> ->]. apply small_read. lia. }
    destruct (Z.lt_ge_cases m (Binary64.ldexp1 63)) as [H2|H2]; [by apply middle_read|].
    destruct (append_large_double s m i Hmag H2) as [-> ->]. by apply large_read.
Qed.

Lemma integer_read z i : - 2 ^ 63 <= z < 2 ^ 63 ->
  exists bs, appendInteger z i = Ok bs /\ reads_number (canonical (BLong z)) i bs.
Proof.
  intros Hz. unfold appendInteger. cbn [canonical]. destruct (Z.eqb_spec z (- 2 ^ 63)) as [->|H1].
  - change (Binary64.opp (Binary64.ldexp1 63)) with (Binary64.sign_bit true + Binary64.ldexp1 63). by apply large_read.
  - destruct (Z.eqb_spec z 0) as [->|H2].
    + exists (append8 kNumericZero i). split; [done|]. exists kNumericZero, []. split; [by rewrite app_nil_r|by split].
    + eexists. split; [done|]. replace (appendCanonicalInt z) with (appendCanonicalInt (if z <? 0 then - Z.abs z else Z.abs z))
        by (f_equal; destruct (Z.ltb_spec z 0); lia). apply preshifted_read. lia.
Qed.

End Numbers.

(** *** Values *)

Section Values.

Context (L : IntelDecimal).

(** A value is written as a type byte and what follows it, and is read back from where it is. *)
Definition reads_key (v : bson) (i : bool) : Prop :=
  exists c s, appendBsonValue L v i = Ok (append8 c i ++ s) /\ kMinKey <= c <= kMaxKey /\
    forall fuel r, ends i r -> (2 * length s + 2 <= fuel)%nat -> toBsonValueCanonical L fuel c i (s ++ r) = Ok (canonical v, r).

Lemma ends_append8 i j c r : 1 <= c <= 254 -> ends i (append8 c j ++ r).
Proof.
  intros Hc. assert (byte_Z (Z_byte c) = c) as E by (rewrite byte_Z_byte, Z.mod_small; lia).
  assert (byte_Z (flip (Z_byte c)) = 255 - c) as E' by (unfold flip; rewrite E, byte_Z_byte, Z.mod_small; lia).
  unfold ends, append8.
  destruct i, j; cbn [flip_if map app head]; intros [= H]; apply (f_equal byte_Z) in H; rewrite ?E, ?E' in H;
    change (byte_Z Byte.xff) with 255 in H; change (byte_Z Byte.x00) with 0 in H; lia.
Qed.

Lemma ends_zero i r : ends i (append8 0 i ++ r).
Proof. by destruct i. Qed.

(** The types that hold no other value. *)
Lemma scalar_key v i c s : appendBsonValue L v i = Ok (append8 c i ++ s) -> kMinKey <= c <= kMaxKey ->
  (forall r, ends i r -> readScalar L c i (s ++ r) = Some (Ok (canonical v, r))) -> reads_key v i.
Proof.
  intros E Hc H. exists c, s. split_and!; [done|lia..|]. intros [|fuel] r Hr Hf; [lia|].
  cbn [toBsonValueCanonical]. by rewrite H.
Qed.

Lemma number_key v i s : appendBsonValue L v i = Ok s -> reads_number L (canonical v) i s -> reads_key v i.
Proof.
  intros E (c & s' & -> & Hc & H). eapply scalar_key; [exact E| |].
  - unfold kMinKey, kMaxKey, kNumericNaN, kNumericPositiveLargeMagnitude, kNumeric in *. lia.
  - intros r _. rewrite <- H. unfold kNumericNaN, kNumericPositiveLargeMagnitude, kNumeric in Hc. unfold readScalar.
    rewrite !(proj2 (Z.eqb_neq c _)) by (unfold kMinKey, kMaxKey, kNullish, kUndefined, kBoolTrue, kBoolFalse, kBool, kDate,
      kTimestamp, kOID, kStringLike, kCode, kBinData, kRegEx, kDBRef; lia). done.
Qed.

Lemma lxor_top x : 0 <= x < 2 ^ 64 -> 0 <= Z.lxor x (2 ^ 63) < 2 ^ 64.
Proof.
  intros Hx. set (m := x mod 2 ^ 63). pose proof (Z.mod_pos_bound x (2 ^ 63) ltac:(lia)) as Hm. fold m in Hm.
  assert (exists s, x = Binary64.sign_bit s + m) as [s E].
  { destruct (Z.lt_ge_cases x (2 ^ 63)).
    - exists false. unfold m. rewrite Z.mod_small by lia. done.
    - exists true. unfold m. rewrite <- (Z.mod_unique x (2 ^ 63) 1 (x - 2 ^ 63)) by lia. unfold Binary64.sign_bit. lia. }
  replace (Z.lxor x (2 ^ 63)) with (Binary64.opp (Binary64.sign_bit s + m)) by (unfold Binary64.opp; by rewrite <- E). rewrite Binary64.opp_sign by done. destruct s; unfold Binary64.sign_bit; cbn [negb]; lia.
Qed.

Lemma readBig4 z i r : 0 <= z < 2 ^ 31 -> readBig 4 i (append_be 4 z i ++ r) = Ok (z, r).
Proof. intros Hz. rewrite (readBig_append 4). by rewrite Z.mod_small by (change (256 ^ Z.of_nat 4) with (2 ^ 32); lia). Qed.

Lemma c_str_shorter s : blen (c_str s) <= blen s.
Proof.
  unfold c_str. pose proof (split_at_spec Byte.x00 s) as H. destruct (split_at _ s) as [[p q]|]; [|done].
  destruct H as [-> _]. rewrite blen_app. pose proof (blen_nonneg (Byte.x00 :: q)). lia.
Qed.

Lemma binData_key t x i : 0 <= t < 2 ^ 8 -> blen x < 2 ^ 31 -> reads_key (BBinData t x) i.
Proof.
  intros Ht Hx. pose proof (blen_nonneg x). eapply scalar_key; [reflexivity|done|]. intros r _.
  change (readScalar L kBinData i) with (fun r => Some (let! (size, r) := readByte i r in
    let! (size, r) := if size =? 0xff then readBig 4 i r else Ok (size, r) in
    let! (subType, r) := readByte i r in let! (data, r) := skip size r in Ok (BBinData subType (flip_if i data), r))).
  cbv beta. rewrite <- !app_assoc. do 2 f_equal. destruct (Z.ltb_spec (blen x) 0xff) as [Hl|Hl].
  - rewrite readByte_append by lia. cbn [rbind]. rewrite (proj2 (Z.eqb_neq _ _)) by lia. cbn [rbind].
    rewrite readByte_append by lia. cbn [rbind]. rewrite skip_app. cbn [rbind]. by rewrite flip_if_twice.
  - rewrite <- app_assoc, readByte_append by lia. cbn [rbind Z.eqb Pos.eqb]. rewrite readBig4 by lia. cbn [rbind].
    rewrite readByte_append by lia. cbn [rbind]. rewrite skip_app. cbn [rbind]. by rewrite flip_if_twice.
Qed.

Lemma dbref_key ns o i : length o = 12%nat -> blen ns < 2 ^ 31 -> reads_key (BDBRef ns o) i.
Proof.
  intros Ho Hn. pose proof (c_str_shorter ns). pose proof (blen_nonneg (c_str ns)). eapply scalar_key; [reflexivity|done|]. intros r _.
  change (readScalar L kDBRef i) with (fun r => Some (let! (size, r) := readBig 4 i r in
    let! (ns, r) := skip size r in let! (oid, r) := skip 12 r in Ok (BDBRef (flip_if i ns) (flip_if i oid), r))).
  cbv beta. rewrite <- !app_assoc. do 2 f_equal. rewrite readBig4 by lia. cbn [rbind]. rewrite skip_app. cbn [rbind].
  replace 12 with (blen o) by (unfold blen; lia). rewrite skip_app. cbn [rbind]. by rewrite !flip_if_twice.
Qed.

Lemma scalar_keys v i : scalar v -> wf_value v -> keyable v -> reads_key v i.
Proof.
  intros Hs Hv Hk. destruct v; try done; cbn [wf_value keyable] in Hv, Hk.
  - by apply (scalar_key _ _ kMinKey []); [by destruct i| |].
  - by apply (scalar_key _ _ kMaxKey []); [by destruct i| |].
  - by apply (scalar_key _ _ kNullish []); [by destruct i| |].
  - by apply (scalar_key _ _ kUndefined []); [by destruct i| |].
  - destruct b; [by apply (scalar_key _ _ kBoolTrue []); [by destruct i| |]|by apply (scalar_key _ _ kBoolFalse []); [by destruct i| |]].
  - destruct (integer_read L z i ltac:(lia)) as (bs & E & H). by apply (number_key _ _ bs).
  - destruct (integer_read L z i ltac:(lia)) as (bs & E & H). by apply (number_key _ _ bs).
  - destruct (double_read L bits i ltac:(lia)) as (bs & E & H). by apply (number_key _ _ bs).
  - eapply scalar_key; [reflexivity|done|]. intros r Hr.
    change (readScalar L kStringLike i) with (fun r => Some (let! (s, r) := readString i r in Ok (BString s, r))).
    cbv beta. by rewrite readString_append.
  - eapply scalar_key; [reflexivity|done|]. intros r Hr.
    change (readScalar L kCode i) with (fun r => Some (let! (s, r) := readString i r in Ok (BCode s, r))).
    cbv beta. by rewrite readString_append.
  - eapply scalar_key; [reflexivity|done|]. intros r Hr.
    change (readScalar L kStringLike i) with (fun r => Some (let! (s, r) := readString i r in Ok (BString s, r))).
    cbv beta. by rewrite readString_append.
  - by apply binData_key.
  - eapply scalar_key; [reflexivity|done|]. intros r Hr.
    change (readScalar L kOID i) with (fun r => Some (let! (o, r) := skip 12 r in Ok (BOID (flip_if i o), r))).
    cbv beta. replace 12 with (blen oid) by (unfold blen; lia). rewrite skip_app. cbn [rbind]. by rewrite flip_if_twice.
  - eapply scalar_key; [reflexivity|done|]. intros r Hr.
    change (readScalar L kDate i) with (fun r => Some (let! (z, r) := readBig 8 i r in Ok (BDate (signed64 (Z.lxor z (2 ^ 63))), r))).
    cbv beta. pose proof (Z.mod_pos_bound millis (2 ^ 64) ltac:(lia)).
    rewrite readBig8 by (apply lxor_top; unfold wrap64; lia). cbn [rbind].
    rewrite Z.lxor_assoc, Z.lxor_nilpotent, Z.lxor_0_r. unfold wrap64. change (2 ^ 64) with (256 ^ Z.of_nat 8). by rewrite signed64_native by lia.
  - eapply scalar_key; [reflexivity|done|]. intros r Hr.
    change (readScalar L kTimestamp i) with (fun r => Some (let! (z, r) := readBig 8 i r in Ok (BTimestamp z, r))).
    cbv beta. by rewrite readBig8.
  - destruct Hv as [Hp Hf]. apply (scalar_key _ _ kRegEx (flip_if i (pattern ++ [Byte.x00]) ++ flip_if i (flags ++ [Byte.x00]))); [|done|].
    { cbn [appendBsonValue]. unfold appendRegex, append8. rewrite !flip_if_app, <- !app_assoc. done. }
    intros r Hr.
    change (readScalar L kRegEx i) with (fun r => Some (let! (pattern, r) := readName i r in let! (flags, r) := readName i r in Ok (BRegEx pattern flags, r))).
    cbv beta. rewrite <- app_assoc, readName_append by done. cbn [rbind]. by rewrite readName_append.
  - by apply dbref_key.
Qed.

(** The fields of an object, and the items of an array. *)
Definition fields_key (d : Document) (i : bool) : result bytes :=
  foldr (fun e k =>
           let! v := appendBsonValue L e.2 i in
           let! rest := k in
           Ok (append8 (bsonTypeToGenericKeyStringType e.2) i ++ flip_if i (e.1 ++ [Byte.x00]) ++ v ++ rest))
        (Ok (append8 0 i)) d.

Definition items_key (d : Document) (i : bool) : result bytes :=
  foldr (fun e k => let! v := appendBsonValue L e.2 i in let! rest := k in Ok (v ++ rest)) (Ok (append8 0 i)) d.

Lemma generic_type v : kMinKey <= bsonTypeToGenericKeyStringType v <= kMaxKey.
Proof. destruct v; split; discriminate. Qed.

Lemma length_append8 c i : length (append8 c i) = 1%nat.
Proof. unfold append8. by rewrite length_flip_if. Qed.

Lemma fields_read d i : Forall (fun e => reads_key e.2 i) d -> Forall (fun e => cstring e.1) d ->
  exists s, fields_key d i = Ok s /\ (forall r, ends i (s ++ r)) /\
    forall fuel r, (2 * length s + 1 <= fuel)%nat ->
      toBsonFields L fuel i (s ++ r) = Ok (map (fun e => (e.1, canonical e.2)) d, r).
Proof.
  induction d as [|[n v] d IH]; intros Hr Hn.
  - exists (append8 0 i). split; [done|]. split; [intros; apply ends_zero|]. intros [|fuel] r Hf; [lia|].
    cbn [toBsonFields]. by rewrite readByte_append by lia.
  - apply Forall_cons in Hr as [(c & s & Ev & Hc & Hv) Hr]. apply Forall_cons in Hn as [Hn Hns]. cbn [fst snd] in *.
    destruct (IH Hr Hns) as (t & Et & He & Ht). unfold fields_key in *. cbn [foldr fst snd]. rewrite Ev, Et. cbn [rbind].
    pose proof (generic_type v) as Hg. unfold kMinKey, kMaxKey in Hg, Hc. eexists. split; [done|]. split.
    { intros r. rewrite <- !app_assoc. apply ends_append8. lia. }
    intros [|fuel] r Hf; [lia|]. rewrite !length_app, !length_append8, length_flip_if in Hf.
    cbn [toBsonFields]. rewrite <- !app_assoc, readByte_append by lia. cbn [rbind].
    rewrite (proj2 (Z.eqb_neq _ 0)) by lia. rewrite readName_append by done. cbn [rbind].
    rewrite readByte_append by lia. cbn [rbind]. rewrite Hv by (done || apply He || lia). cbn [rbind].
    rewrite Ht by lia. done.
Qed.

Lemma items_read d i : Forall (fun e => reads_key e.2 i) d ->
  exists s, items_key d i = Ok s /\ (1 <= length s)%nat /\ (forall r, ends i (s ++ r)) /\
    forall fuel k r, (2 * length s + 1 <= fuel)%nat ->
      toBsonItems L fuel k i (s ++ r) = Ok (imap (fun j v => (numStr (k + j), v)) (map (fun e => canonical e.2) d), r).
Proof.
  induction d as [|[n v] d IH]; intros Hr.
  - exists (append8 0 i). split; [done|]. split; [by rewrite length_append8|]. split; [intros; apply ends_zero|].
    intros [|fuel] k r Hf; [lia|]. cbn [toBsonItems]. by rewrite readByte_append by lia.
  - apply Forall_cons in Hr as [(c & s & Ev & Hc & Hv) Hr]. cbn [snd] in *.
    destruct (IH Hr) as (t & Et & Hl & He & Ht). unfold items_key in *. cbn [foldr snd]. rewrite Ev, Et. cbn [rbind].
    unfold kMinKey, kMaxKey in Hc. eexists. split; [done|]. split; [rewrite !length_app; lia|]. split.
    { intros r. rewrite <- !app_assoc. apply ends_append8. lia. }
    intros [|fuel] k r Hf; [lia|]. rewrite !length_app, !length_append8 in Hf.
    cbn [toBsonItems]. rewrite <- !app_assoc, readByte_append by lia. cbn [rbind].
    rewrite (proj2 (Z.eqb_neq _ 0)) by lia. rewrite Hv by (done || apply He || lia). cbn [rbind].
    rewrite Ht by lia. cbn [rbind map imap]. rewrite Nat.add_0_r. do 3 f_equal. apply imap_ext. intros j x _.
    cbn. by rewrite Nat.add_succ_r.
Qed.

Lemma keyable_doc (d : Document) : foldr (fun e P => keyable e.2 /\ P) True d <-> Forall (fun e : bytes * bson => keyable e.2) d.
Proof. induction d as [|e d IH]; cbn; [done|]. rewrite Forall_cons, IH. done. Qed.

Lemma wf_values (d : Document) : foldr (fun e P => wf_value e.2 /\ P) True d <-> Forall (fun e : bytes * bson => wf_value e.2) d.
Proof. induction d as [|e d IH]; cbn; [done|]. rewrite Forall_cons, IH. done. Qed.

Lemma doc_reads (d : Document) i : Forall (fun e => forall i, wf_value e.2 -> keyable e.2 -> reads_key e.2 i) d ->
  foldr (fun e P => wf_value e.2 /\ P) True d -> foldr (fun e P => keyable e.2 /\ P) True d ->
  Forall (fun e => reads_key e.2 i) d.
Proof.
  rewrite wf_values, keyable_doc, !Forall_forall. intros IH Hw Hk e He. by apply IH; [|apply Hw|apply Hk].
Qed.

(** Every value is read back as what a key tells of it. *)
Lemma values_key v : forall i, wf_value v -> keyable v -> reads_key v i.
Proof.
  induction v as [v Hs|s d IH|d IH|d IH] using bson_nested_ind; intros i Hw Hk; [by apply scalar_keys|..];
    cbn [wf_value keyable] in Hw, Hk; destruct Hw as [Hn Hw]; pose proof (doc_reads d i IH Hw Hk) as Hr.
  - destruct (fields_read d i Hr Hn) as (t & Et & He & Ht). exists kCodeWithScope, (appendStringLike s i ++ t).
    split; [cbn [appendBsonValue]; fold (fields_key d i); by rewrite Et|]. split; [done|]. intros [|fuel] r _ Hf; [lia|].
    rewrite length_app in Hf. cbn [toBsonValueCanonical]. change (readScalar L kCodeWithScope i) with (fun _ : BufReader => @None (result (bson * BufReader))).
    cbv beta iota. cbn [Z.eqb Pos.eqb kCodeWithScope kObject kArray]. rewrite <- app_assoc, readString_append by apply He. cbn [rbind].
    by rewrite Ht by lia.
  - destruct (fields_read d i Hr Hn) as (t & Et & He & Ht). exists kObject, t.
    split; [cbn [appendBsonValue]; fold (fields_key d i); by rewrite Et|]. split; [done|]. intros [|fuel] r _ Hf; [lia|].
    cbn [toBsonValueCanonical]. change (readScalar L kObject i) with (fun _ : BufReader => @None (result (bson * BufReader))).
    cbv beta iota. cbn [Z.eqb Pos.eqb kObject]. by rewrite Ht by lia.
  - destruct (items_read d i Hr) as (t & Et & _ & He & Ht). exists kArray, t.
    split; [cbn [appendBsonValue]; fold (items_key d i); by rewrite Et|]. split; [done|]. intros [|fuel] r _ Hf; [lia|].
    cbn [toBsonValueCanonical]. change (readScalar L kArray i) with (fun _ : BufReader => @None (result (bson * BufReader))).
    cbv beta iota. cbn [Z.eqb Pos.eqb kObject kArray]. by rewrite Ht by lia.
Qed.

(** *** Keys *)

(** The fields an index key is made of: their names are empty. *)
Definition key_fields (obj : Document) : Prop :=
  Forall (fun e => e.1 = [] /\ wf_value e.2 /\ keyable e.2) obj.

(** A round of the key loop: the end of the key, or a value. *)
Lemma key_loop_end fuel descending k r : descending k = false ->
  key_loop L (S fuel) descending k (append8 kEnd false ++ r) = Ok [].
Proof.
  intros Hd. set (x := append8 kEnd false ++ r).
  assert (readByte false x = Ok (kEnd, r)) as E by exact (readByte_append kEnd false r ltac:(done)).
  destruct x as [|b x]; [discriminate|]. cbn [key_loop]. rewrite Hd, E. done.
Qed.

Lemma key_loop_value fuel descending k c s r : kMinKey <= c <= kMaxKey ->
  key_loop L (S fuel) descending k (append8 c (descending k) ++ s ++ r) =
    (let! (v, r) := toBsonValueCanonical L (2 * length (s ++ r) + 2) c (descending k) (s ++ r) in
     let! d := key_loop L fuel descending (k + 1) r in Ok (([], v) :: d)).
Proof.
  unfold kMinKey, kMaxKey. intros Hc. set (x := append8 c (descending k) ++ s ++ r).
  assert (readByte (descending k) x = Ok (c, s ++ r)) as E by (apply readByte_append; lia).
  destruct x as [|b x]; [discriminate|]. cbn [key_loop]. rewrite E. cbn [rbind].
  rewrite (proj2 (Z.eqb_neq c kLess)), (proj2 (Z.eqb_neq c kGreater)) by (unfold kLess, kGreater; lia). cbn [orb rbind].
  rewrite (proj2 (Z.eqb_neq c kEnd)) by (unfold kEnd; lia). done.
Qed.

Lemma elements_read obj : forall descending k, key_fields obj -> descending (k + nFields obj) = false ->
  exists key, appendElements L obj k descending kInclusive = Ok key /\ (forall j r, ends j (key ++ r)) /\
    forall fuel r, (length key <= fuel)%nat ->
      key_loop L fuel descending k (key ++ r) = Ok (map (fun e => ([], canonical e.2)) obj).
Proof.
  unfold nFields. induction obj as [|[n v] obj IH]; intros descending k Hw Hd.
  - exists (append8 kEnd false). split; [done|]. split; [intros j r; by apply ends_append8|].
    intros [|fuel] r Hf; [cbn in Hf; lia|]. rewrite Z.add_0_r in Hd. by apply key_loop_end.
  - apply Forall_cons in Hw as [(Hn & Hv & Hk) Hw]. cbn [fst snd] in *. subst n.
    destruct (values_key v (descending k) Hv Hk) as (c & s & Ev & Hc & Hr).
    destruct (IH descending (k + 1) Hw) as (key & Ek & He & Hl); [rewrite <- Hd; f_equal; cbn [length]; lia|].
    cbn [appendElements]. rewrite Ev. cbn [rbind]. rewrite Ek. cbn [rbind]. eexists. split; [done|].
    split; [intros; rewrite <- !app_assoc; apply ends_append8; unfold kMinKey, kMaxKey in Hc; lia|].
    intros [|fuel] r Hf; rewrite !length_app, length_append8 in Hf; [lia|]. rewrite <- !app_assoc.
    rewrite key_loop_value, Hr by (done || rewrite length_app; lia). cbn [rbind]. by rewrite Hl by lia.
Qed.

(** A key determines its values up to [canonical], whatever follows it. *)
Lemma key_read obj descending : key_fields obj -> descending (nFields obj) = false ->
  exists key, resetToKey L obj descending kInclusive = Ok key /\
    forall r, toBsonCanonical L descending (key ++ r) = Ok (map (fun e => ([], canonical e.2)) obj).
Proof.
  intros Hw Hd. unfold resetToKey, toBsonCanonical.
  destruct (elements_read obj descending 0 Hw Hd) as (key & Ek & _ & Hl). exists key. split; [exact Ek|].
  intros r. rewrite Hl; [done|]. rewrite length_app. lia.
Qed.

(** *** What is not told apart has one key *)

Lemma append_canonical_int z i : appendBsonValue L (appendCanonicalInt z) i = appendInteger z i.
Proof. unfold appendCanonicalInt. by destruct (_ && _). Qed.

Lemma append_signed (n : Z) (s i : bool) : 0 < n < 2 ^ 63 ->
  appendInteger (if s then - n else n) i = Ok (appendPreshiftedIntegerPortion (wrap64 (Z.shiftl n 1)) s i).
Proof.
  intros Hn. unfold appendInteger. rewrite (proj2 (Z.eqb_neq _ (- 2 ^ 63))), (proj2 (Z.eqb_neq _ 0)) by (destruct s; lia).
  replace (Z.abs (if s then - n else n)) with n by (destruct s; lia).
  by replace ((if s then - n else n) <? 0) with s by (symmetry; destruct s; [apply Z.ltb_lt|apply Z.ltb_ge]; lia).
Qed.

Lemma double_canonical bits i : 0 <= bits < 2 ^ 64 ->
  appendBsonValue L (canonical_double bits) i = appendBsonValue L (BDouble bits) i.
Proof.
  intros Hb. destruct (Binary64.isnan bits) eqn:En.
  - unfold canonical_double. rewrite En. cbn [appendBsonValue]. by rewrite !append_nan.
  - assert (Binary64.of_bits bits <> S754_nan) as Hn by (unfold Binary64.isnan in En; by destruct (Binary64.of_bits bits)).
    destruct (Binary64.signed_magnitude bits Hb Hn) as (s & m & -> & Hmag). cbn [appendBsonValue].
    destruct (decide (m = 0)) as [->|Hm0]; [by destruct s|]. pose proof (Binary64.magnitude_small m Hmag).
    destruct (Z.lt_ge_cases m (Binary64.ldexp1 0)) as [H1|H1].
    { by destruct (append_small_double s m i ltac:(lia)) as [_ ->]. }
    destruct (Z.lt_ge_cases m (Binary64.ldexp1 63)) as [H2|H2]; [|by destruct (append_large_double s m i Hmag H2) as [_ ->]].
    destruct (Binary64.of_bits_middle m ltac:(lia)) as (p & e & Eb & Et & Hp & He).
    pose proof (append_middle_double s m i p e Eb Et Hp He ltac:(lia)) as Hc. cbv zeta in Hc.
    destruct (_ =? _); [|by destruct Hc as (_ & -> & _)]. destruct Hc as [-> ->]. rewrite append_canonical_int. apply append_signed.
    destruct (Binary64.integer_part p e Hp He) as (Hn' & _). lia.
Qed.

Lemma c_str_c_str s : c_str (c_str s) = c_str s.
Proof.
  unfold c_str at 1. pose proof (split_at_spec Byte.x00 (c_str s)) as H. destruct (split_at _ (c_str s)) as [[p q]|]; [|done].
  destruct H as [E _]. exfalso. unfold c_str in E. pose proof (split_at_spec Byte.x00 s) as H.
  destruct (split_at _ s) as [[p' q']|]; [destruct H as [_ H]|]; rewrite E in H; set_solver.
Qed.

Lemma generic_canonical v : bsonTypeToGenericKeyStringType (canonical v) = bsonTypeToGenericKeyStringType v.
Proof.
  assert (forall z, bsonTypeToGenericKeyStringType (appendCanonicalInt z) = kNumeric) as H
    by (intros z; unfold appendCanonicalInt; by destruct (_ && _)).
  destruct v; try done; cbn [canonical]; try (by destruct (_ =? _)).
  unfold canonical_double. destruct (Binary64.isnan bits); [done|]. by destruct (int_value _).
Qed.

(** An array's values without their names. *)
Lemma items_imap (f : nat -> bson -> bytes) (l : list bson) i :
  items_key (imap (fun j v => (f j v, v)) l) i = items_key (map (fun v => ([], v)) l) i.
Proof.
  revert f. induction l as [|v l IH]; intros f; [done|]. cbn [imap map]. unfold items_key in *. cbn [foldr snd].
  change (imap _ l) with (imap (fun j v => (f (S j) v, v)) l). by rewrite (IH (fun j => f (S j))).
Qed.

Lemma nested_canonical d i : Forall (fun e => forall i, wf_value e.2 -> appendBsonValue L (canonical e.2) i = appendBsonValue L e.2 i) d ->
  foldr (fun e P => wf_value e.2 /\ P) True d ->
  fields_key (map (fun e => (e.1, canonical e.2)) d) i = fields_key d i /\
  items_key (imap (fun j v => (numStr j, v)) (map (fun e => canonical e.2) d)) i = items_key d i.
Proof.
  intros IH Hw. rewrite (items_imap (fun j _ => numStr j)). rewrite map_map. unfold fields_key, items_key.
  induction d as [|[n v] d IHd]; [done|]. apply Forall_cons in IH as [Hv IH]. cbn [foldr fst snd map] in *.
  destruct Hw as [Hwv Hw]. destruct (IHd IH Hw) as [E1 E2]. by rewrite Hv, generic_canonical, E1, E2.
Qed.

(** A value and its canonical form have one key. *)
Lemma key_canonical v : forall i, wf_value v -> appendBsonValue L (canonical v) i = appendBsonValue L v i.
Proof.
  induction v as [v Hs|s d IH|d IH|d IH] using bson_nested_ind; intros i Hw.
  - destruct v; try done; cbn [canonical wf_value] in *.
    + destruct (Z.eqb_spec z (- 2 ^ 63)) as [->|]; [lia|apply append_canonical_int].
    + destruct (Z.eqb_spec z (- 2 ^ 63)) as [->|]; [reflexivity|apply append_canonical_int].
    + by apply double_canonical.
    + cbn [appendBsonValue]. by rewrite c_str_c_str.
  - destruct (nested_canonical d i IH (proj2 Hw)) as [E _]. unfold fields_key in E. cbn [canonical appendBsonValue]. by rewrite E.
  - destruct (nested_canonical d i IH (proj2 Hw)) as [E _]. unfold fields_key in E. cbn [canonical appendBsonValue]. by rewrite E.
  - destruct (nested_canonical d i IH (proj2 Hw)) as [_ E]. unfold items_key in E. cbn [canonical appendBsonValue]. by rewrite E.
Qed.

Lemma elements_canonical obj : forall descending k, key_fields obj ->
  appendElements L (map (fun e => ([], canonical e.2)) obj) k descending kInclusive = appendElements L obj k descending kInclusive.
Proof.
  induction obj as [|[n v] obj IH]; intros descending k Hw; [done|].
  apply Forall_cons in Hw as [(Hn & Hv & Hk) Hw]. cbn [fst snd] in *. subst n. cbn [map snd appendElements].
  rewrite key_canonical by done. cbn [rbind]. by rewrite IH.
Qed.

(** Two documents have the same index key exactly when they are the same up to what a key does
    not tell apart: the type of a number, the sign of a zero, the bits of a NaN, strings and symbols,
    and the names of array items. So equal keys never hide two different [_id]s, and an [_id] has one
    key however its numbers are typed. *)
Theorem keys_equal_iff obj obj' descending :
  key_fields obj -> key_fields obj' -> descending (nFields obj) = false -> descending (nFields obj') = false ->
  resetToKey L obj descending kInclusive = resetToKey L obj' descending kInclusive <->
  map (fun e => canonical e.2) obj = map (fun e => canonical e.2) obj'.
Proof.
  intros Hw Hw' Hd Hd'. split; intros E.
  - destruct (key_read obj descending Hw Hd) as (key & Ek & Hr). destruct (key_read obj' descending Hw' Hd') as (key' & Ek' & Hr').
    rewrite E, Ek' in Ek. injection Ek as ->. specialize (Hr []). rewrite Hr' in Hr. injection Hr as Hr.
    apply (f_equal (map snd)) in Hr. rewrite !map_map in Hr. symmetry. exact Hr.
  - unfold resetToKey. rewrite <- (elements_canonical obj), <- (elements_canonical obj') by done.
    f_equal. apply (f_equal (map (fun v => ([] : bytes, v)))) in E. rewrite !map_map in E. exact E.
Qed.

End Values.


(** The double 4 and the long 4 as items of arrays with different names, a symbol and a string; the
    first field is descending. *)
Definition ex_key_a : Document := [([], BArray [(lit "0", BDouble (Binary64.ldexp1 2))]); ([], BSymbol (lit "x"))].
Definition ex_key_b : Document := [([], BArray [(lit "z", BLong 4)]); ([], BString (lit "x"))].

Lemma ex_key_fields : key_fields ex_key_a /\ key_fields ex_key_b.
Proof.
  unfold key_fields, ex_key_a, ex_key_b. split; repeat constructor; cbn; try done; unfold cstring;
    apply (bool_decide_unpack _); vm_compute; exact I.
Qed.

Lemma keys_equal_iff_witness :
  resetToKey ref_library ex_key_a (fun i => i =? 0) kInclusive = resetToKey ref_library ex_key_b (fun i => i =? 0) kInclusive.
Proof.
  apply (keys_equal_iff ref_library ex_key_a ex_key_b (fun i => i =? 0)); [apply ex_key_fields|apply ex_key_fields|reflexivity..].
Defined.
