(* ===== verification/ByteOrder.v ===== *)
(** * The order of the bytes of keys

    [KeyString::compare] and what it says of the parts of keys: a part is before another when their
    first difference lies within both, so that what follows does not matter; a string needs to be
    followed by something else than FF. *)

From S2P Require Import Prelude Bytes Bson RawBson BsonBuilder Doubles Decimals BsonCompare KeyDecoder KeyString KeyRoundTrip.
Import KeyDecoder.Key.
#[local] Open Scope Z_scope.

(** [KeyString::compare]. *)
Definition KeyString_compare (a b : bytes) : comparison :=
  let min := Nat.min (length a) (length b) in
  lex (memcmp a b min) (Nat.compare (length a) (length b)).

(** ** Byte strings that differ within both *)

(** The first difference of [a] and [b] is a byte of both, less in [a]. *)
Definition before (a b : bytes) : Prop :=
  exists q x y t t', a = q ++ x :: t /\ b = q ++ y :: t' /\ byte_Z x < byte_Z y.

(** [a] and [b] are equal or differ within, as [c] says. *)
Definition ordx (c : comparison) (a b : bytes) : Prop :=
  match c with Eq => a = b | Lt => before a b | Gt => before b a end.

(** The same when something else than FF follows both. *)
Definition goes (r : bytes) : Prop := exists b t, r = b :: t /\ b <> Byte.xff.
Definition ord (c : comparison) (a b : bytes) : Prop :=
  match c with
  | Eq => a = b
  | Lt => forall r r', goes r -> goes r' -> before (a ++ r) (b ++ r')
  | Gt => forall r r', goes r -> goes r' -> before (b ++ r') (a ++ r)
  end.

Lemma before_app a b r r' : before a b -> before (a ++ r) (b ++ r').
Proof. intros (q & x & y & t & t' & -> & -> & H). exists q, x, y, (t ++ r), (t' ++ r'). by rewrite <- !app_assoc. Qed.

Lemma before_prefix q a b : before a b -> before (q ++ a) (q ++ b).
Proof. intros (p & x & y & t & t' & -> & -> & H). exists (q ++ p), x, y, t, t'. by rewrite <- !app_assoc. Qed.

Lemma before_head x y t t' : byte_Z x < byte_Z y -> before (x :: t) (y :: t').
Proof. intros H. by exists [], x, y, t, t'. Qed.

Lemma before_compare a b : before a b -> bytes_compare a b = Lt.
Proof.
  intros (q & x & y & t & t' & -> & -> & H). rewrite bytes_compare_app_eq. cbn. by rewrite (proj2 (Z.compare_lt_iff _ _) H).
Qed.

Lemma byte_Z_flip x : byte_Z (flip x) = 255 - byte_Z x.
Proof. unfold flip. pose proof (byte_Z_range x). rewrite byte_Z_byte, Z.mod_small; lia. Qed.

Lemma before_flip a b : before a b -> before (map flip b) (map flip a).
Proof.
  intros (q & x & y & t & t' & -> & -> & H). exists (map flip q), (flip y), (flip x), (map flip t'), (map flip t).
  rewrite !map_app. split_and!; [done..|]. rewrite !byte_Z_flip. lia.
Qed.

(** Bytes of one length. *)
Lemma ordx_bytes a b : length a = length b -> ordx (bytes_compare a b) a b.
Proof.
  revert b. induction a as [|x a IH]; intros [|y b] Hl; try done. injection Hl as Hl. cbn [bytes_compare].
  destruct (Z.compare_spec (byte_Z x) (byte_Z y)) as [E|E|E]; [|by apply before_head..].
  apply (inj byte_Z) in E. subst y. specialize (IH b Hl). unfold ordx in *.
  destruct (bytes_compare a b); [by subst b|by apply (before_prefix [x])..].
Qed.

Lemma ordx_be n z z' : 0 <= z < 256 ^ Z.of_nat n -> 0 <= z' < 256 ^ Z.of_nat n ->
  ordx (z ?= z') (appendBigEndian z n) (appendBigEndian z' n).
Proof.
  intros Hz Hz'. assert (length (appendBigEndian z n) = length (appendBigEndian z' n)) as Hl by by rewrite !length_appendBigEndian.
  pose proof (ordx_bytes _ _ Hl) as H. pose proof (bytes_compare_app_be _ _ [] [] Hl) as E.
  rewrite !app_nil_r, !readBigEndian_append, !Z.mod_small in E by lia. rewrite E in H. by destruct (z ?= z').
Qed.

Lemma ordx_byte c c' : 0 <= c < 256 -> 0 <= c' < 256 -> ordx (c ?= c') (append8 c false) (append8 c' false).
Proof.
  intros Hc Hc'. pose proof (ordx_bytes [Z_byte c] [Z_byte c'] eq_refl) as H. cbn [bytes_compare] in H.
  rewrite !byte_Z_byte, !Z.mod_small in H by lia. unfold append8. cbn [flip_if]. by destruct (c ?= c').
Qed.

(** Sequences. *)
Lemma ordx_app c1 c2 a b a' b' : ordx c1 a b -> ordx c2 a' b' -> ordx (lex c1 c2) (a ++ a') (b ++ b').
Proof.
  unfold ordx. destruct c1; cbn [lex].
  - intros -> H. destruct c2; [by rewrite H|by apply before_prefix..].
  - intros H _. by apply before_app.
  - intros H _. by apply before_app.
Qed.

Lemma ordx_ord c a b : ordx c a b -> ord c a b.
Proof. unfold ordx, ord. destruct c; [done|..]; intros H r r' _ _; by apply before_app. Qed.

Lemma ordx_ord_app c1 c2 a b a' b' : ordx c1 a b -> ord c2 a' b' -> ord (lex c1 c2) (a ++ a') (b ++ b').
Proof.
  unfold ordx, ord. destruct c1; cbn [lex].
  - intros -> H. destruct c2; [by rewrite H|..]; intros r r' Hr Hr'; rewrite <- !app_assoc; by apply before_prefix, H.
  - intros H _ r r' _ _. rewrite <- !app_assoc. by apply before_app.
  - intros H _ r r' _ _. rewrite <- !app_assoc. by apply before_app.
Qed.

Lemma ord_app c1 c2 a b a' b' : ord c1 a b -> ord c2 a' b' -> (forall r, goes (a' ++ r)) -> (forall r, goes (b' ++ r)) ->
  ord (lex c1 c2) (a ++ a') (b ++ b').
Proof.
  unfold ord. intros H1 H2 Ha Hb. destruct c1; cbn [lex].
  - subst b. destruct c2; [by rewrite H2|..]; intros r r' Hr Hr'; rewrite <- !app_assoc; by apply before_prefix, H2.
  - intros r r' _ _. rewrite <- !app_assoc. by apply H1.
  - intros r r' _ _. rewrite <- !app_assoc. by apply H1.
Qed.

(** ** The comparisons of the code *)

Lemma lex_Eq_r c : lex c Eq = c.
Proof. by destruct c. Qed.

(** Comparing a common prefix and then the lengths is comparing. *)
Lemma compare_min a b : lex (memcmp a b (Nat.min (length a) (length b))) (Nat.compare (length a) (length b)) = bytes_compare a b.
Proof.
  unfold memcmp. revert b. induction a as [|x a IH]; intros [|y b]; try done. cbn [length Nat.min take bytes_compare Nat.compare].
  specialize (IH b). by destruct (byte_Z x ?= byte_Z y).
Qed.

Lemma StringData_compare_eq a b : StringData_compare a b = bytes_compare a b.
Proof. apply compare_min. Qed.

Lemma KeyString_compare_eq a b : KeyString_compare a b = bytes_compare a b.
Proof. apply compare_min. Qed.

Lemma bytes_compare_nul a b : bytes_compare (a ++ [Byte.x00]) (b ++ [Byte.x00]) = bytes_compare a b.
Proof.
  revert b. induction a as [|x a IH]; intros [|y b]; cbn [app bytes_compare]; [done|..].
  - change (byte_Z Byte.x00) with 0. pose proof (byte_Z_range y). destruct (Z.compare_spec 0 (byte_Z y)); [by destruct b|done|lia].
  - change (byte_Z Byte.x00) with 0. pose proof (byte_Z_range x). destruct (Z.compare_spec (byte_Z x) 0); [by destruct a|lia|done].
  - by rewrite IH.
Qed.

Lemma compareElementStringValues_eq a b : compareElementStringValues a b = bytes_compare a b.
Proof.
  unfold compareElementStringValues. rewrite <- bytes_compare_nul, <- compare_min. by rewrite !length_app.
Qed.


(** ** Names and strings *)

Lemma byte_Z_nul x : x <> Byte.x00 -> 0 < byte_Z x.
Proof.
  intros H. pose proof (byte_Z_range x). destruct (decide (byte_Z x = 0)) as [E|]; [|lia].
  change 0 with (byte_Z Byte.x00) in E. by apply (inj byte_Z) in E.
Qed.

Lemma ordx_name s s' : cstring s -> cstring s' -> ordx (bytes_compare s s') (s ++ [Byte.x00]) (s' ++ [Byte.x00]).
Proof.
  unfold cstring. revert s'. induction s as [|x s IH]; intros [|y s'] Hs Hs'; cbn [bytes_compare app].
  - done.
  - apply before_head, byte_Z_nul. set_solver.
  - apply before_head, byte_Z_nul. set_solver.
  - destruct (Z.compare_spec (byte_Z x) (byte_Z y)) as [E|E|E]; [|by apply before_head..].
    apply (inj byte_Z) in E. subst y. specialize (IH s' ltac:(set_solver) ltac:(set_solver)). unfold ordx in *.
    destruct (bytes_compare s s'); [by rewrite IH|by apply (before_prefix [x])..].
Qed.

(** A string as it is written: 00 FF for a NUL. *)
Definition escaped (s : bytes) : bytes := flat_map (fun b => if bool_decide (b = Byte.x00) then [Byte.x00; Byte.xff] else [b]) s.

Lemma escaped_cstring s : cstring s -> escaped s = s.
Proof.
  unfold cstring. induction s as [|b s IH]; intros H; [done|]. unfold escaped. cbn [flat_map].
  rewrite bool_decide_eq_false_2 by set_solver. cbn [app]. f_equal. apply IH. set_solver.
Qed.

Lemma stringLike_escaped n s : (length s <= n)%nat -> stringLike_loop n s = escaped s ++ [Byte.x00].
Proof.
  revert s. induction n as [|n IH]; intros s Hn;
    destruct (stringLike_split _ s Hn) as [[Hs ->]|(n' & p & q & En & -> & Hp & Hq & ->)]; try done.
  1-2: by rewrite escaped_cstring.
  injection En as <-. rewrite IH by done. unfold escaped at 2. rewrite flat_map_app. fold (escaped p). rewrite (escaped_cstring p) by done.
  cbn [flat_map]. rewrite bool_decide_eq_true_2 by done. fold (escaped q). cbn [app]. rewrite <- !app_assoc. cbn [app]. done.
Qed.

(** What follows a string that has ended is before what goes on with it. *)
Lemma goes_before r y s r' : goes r -> before ([Byte.x00] ++ r) (escaped (y :: s) ++ [Byte.x00] ++ r').
Proof.
  intros (b & t & -> & Hb). unfold escaped. cbn [flat_map]. case_bool_decide as E; cbn [app].
  - apply (before_prefix [Byte.x00]), before_head. change (byte_Z Byte.xff) with 255. pose proof (byte_Z_range b).
    destruct (decide (byte_Z b = 255)) as [E'|]; [|lia]. change 255 with (byte_Z Byte.xff) in E'. by apply (inj byte_Z) in E'.
  - by apply before_head, byte_Z_nul.
Qed.

Lemma ord_string s s' : ord (bytes_compare s s') (escaped s ++ [Byte.x00]) (escaped s' ++ [Byte.x00]).
Proof.
  revert s'. induction s as [|x s IH]; intros [|y s']; cbn [bytes_compare].
  - done.
  - intros r r' Hr Hr'. rewrite <- !app_assoc. by apply (goes_before r).
  - intros r r' Hr Hr'. rewrite <- !app_assoc. by apply (goes_before r').
  - destruct (Z.compare_spec (byte_Z x) (byte_Z y)) as [E|E|E].
    + apply (inj byte_Z) in E. subst y. specialize (IH s'). unfold escaped in *. cbn [flat_map].
      set (h := if bool_decide _ then _ else _). rewrite <- !app_assoc.
      pose proof (ordx_ord_app Eq (bytes_compare s s') h h _ _ eq_refl IH) as H. done.
    + apply ordx_ord. unfold escaped. cbn [flat_map]. pose proof (byte_Z_range x).
      do 2 case_bool_decide; subst; cbn [app]; first [by apply before_head|change (byte_Z Byte.x00) with 0 in E; lia].
    + apply ordx_ord. unfold escaped. cbn [flat_map]. pose proof (byte_Z_range y).
      do 2 case_bool_decide; subst; cbn [app]; first [by apply before_head|change (byte_Z Byte.x00) with 0 in E; lia].
Qed.

Lemma ord_stringLike s s' : ord (bytes_compare s s') (appendStringLike s false) (appendStringLike s' false).
Proof. unfold appendStringLike. cbn [flip_if]. rewrite !stringLike_escaped by done. apply ord_string. Qed.
