(* ===== verification/NumberOrder.v ===== *)
(** * Numbers are ordered as their keys

    Integers and doubles have one order, that of their values. The comparisons of
    base/compare_numbers.h compute it, and the bytes that KeyString writes for a number are in it. *)

From Stdlib Require Import Floats.SpecFloat.
From S2P Require Import Prelude Bytes Bson RawBson BsonBuilder Doubles Decimals BsonCompare KeyDecoder KeyString KeyRoundTrip ByteOrder.
Import KeyDecoder.Key.
#[local] Open Scope Z_scope.

(** ** The value of a number

    As a multiple of the least positive double, infinities beyond the finite and what is no number
    below all. *)

Definition unit_value : Z := 2 ^ 1074.
Definition infinite_value : Z := 2 ^ 2098.

Definition signed (s : bool) (z : Z) : Z := if s then - z else z.

Definition value (f : spec_float) : Z :=
  match f with
  | S754_nan => - infinite_value - 1
  | S754_infinity s => signed s infinite_value
  | S754_zero _ => 0
  | S754_finite s m e => signed s (Zpos m * 2 ^ (e + 1074))
  end.

Definition number_value (v : bson) : Z :=
  match v with
  | BInt z | BLong z => z * unit_value
  | BDouble b => value (Binary64.of_bits b)
  | _ => 0
  end.

Lemma finite_value m e : Binary64.double (Zpos m) e -> 0 < Zpos m * 2 ^ (e + 1074) < infinite_value.
Proof.
  intros Hd. assert (-1074 <= e <= 971 /\ Zpos m < 2 ^ 53) as [He Hm] by (unfold Binary64.double in Hd; lia).
  assert (0 < 2 ^ (e + 1074)) by (apply Z.pow_pos_nonneg; lia). split; [lia|].
  replace infinite_value with (2 ^ 53 * 2 ^ (2045 - (e + 1074)) * 2 ^ (e + 1074))
    by (unfold infinite_value; rewrite <- !Z.pow_add_r by lia; f_equal; lia).
  assert (0 < 2 ^ (2045 - (e + 1074))) by (apply Z.pow_pos_nonneg; lia).
  apply Z.mul_lt_mono_pos_r; [done|]. clear Hd. nia.
Qed.

Lemma value_smaller m e m' e' : Binary64.double (Zpos m) e -> Binary64.double (Zpos m') e' -> e < e' ->
  Zpos m * 2 ^ (e + 1074) < Zpos m' * 2 ^ (e' + 1074).
Proof.
  intros Hd Hd' He. assert (-1074 <= e /\ Zpos m < 2 ^ 53 /\ 2 ^ 52 <= Zpos m') as (Hl & Hm & Hm') by (unfold Binary64.double in *; lia).
  assert (0 < 2 ^ (e + 1074)) by (apply Z.pow_pos_nonneg; lia).
  replace (2 ^ (e' + 1074)) with (2 * 2 ^ (e' - e - 1) * 2 ^ (e + 1074))
    by (rewrite <- Z.pow_succ_r, <- Z.pow_add_r by lia; f_equal; lia).
  assert (0 < 2 ^ (e' - e - 1)) by (apply Z.pow_pos_nonneg; lia). rewrite Z.mul_assoc.
  apply Z.mul_lt_mono_pos_r; [done|]. clear Hd Hd'. nia.
Qed.

Lemma value_compare m e m' e' : Binary64.double (Zpos m) e -> Binary64.double (Zpos m') e' ->
  (Zpos m * 2 ^ (e + 1074) ?= Zpos m' * 2 ^ (e' + 1074)) = match e ?= e' with Eq => Zpos m ?= Zpos m' | c => c end.
Proof.
  intros Hd Hd'. destruct (Z.compare_spec e e') as [->|He|He].
  - rewrite <- Zmult_compare_compat_r; [done|]. apply Z.lt_gt, Z.pow_pos_nonneg; [lia|]. unfold Binary64.double in Hd'. lia.
  - by apply Z.compare_lt_iff, value_smaller.
  - by apply Z.compare_gt_iff, value_smaller.
Qed.

(** Comparing doubles is comparing their values. *)
Definition double_float (f : spec_float) : Prop := match f with S754_finite _ m e => Binary64.double (Zpos m) e | _ => True end.

Lemma of_bits_double_float b : double_float (Binary64.of_bits b).
Proof. destruct (Binary64.of_bits b) eqn:E; try done. by apply Binary64.of_bits_double in E. Qed.

(** The bounds of the values of the doubles in the context. *)
Ltac value_bounds :=
  assert (0 < infinite_value) by done;
  repeat match goal with H : Binary64.double (Zpos _) _ |- _ => pose proof (finite_value _ _ H); revert H end; intros.

Lemma SFcompare_value f g : double_float f -> double_float g -> f <> S754_nan -> g <> S754_nan ->
  SFcompare f g = Some (value f ?= value g).
Proof.
  intros Hf Hg Nf Ng.
  destruct f as [s|s| |s m e], g as [s'|s'| |s' m' e']; try done; cbn [double_float value] in *; value_bounds;
    generalize dependent infinite_value; intros inf; intros; destruct s, s'; cbn [SFcompare signed]; f_equal; symmetry;
    rewrite ?Z.compare_eq_iff, ?Z.compare_lt_iff, ?Z.compare_gt_iff; try lia.
  - rewrite Z.compare_opp, value_compare, Binary64.compare_cont_Eq by done. rewrite (Z.compare_antisym e e'), (Z.compare_antisym (Zpos m) (Zpos m')).
    by destruct (e ?= e').
  - rewrite value_compare by done. by destruct (e ?= e').
Qed.

Lemma not_nan b : Binary64.isnan b = false -> Binary64.of_bits b <> S754_nan.
Proof. unfold Binary64.isnan. by destruct (Binary64.of_bits b). Qed.

Lemma nan_value b : Binary64.isnan b = true -> value (Binary64.of_bits b) = - infinite_value - 1.
Proof. unfold Binary64.isnan. by destruct (Binary64.of_bits b). Qed.

Lemma value_above b : Binary64.isnan b = false -> - infinite_value <= value (Binary64.of_bits b) <= infinite_value.
Proof.
  intros H. apply not_nan in H. pose proof (of_bits_double_float b) as Hd.
  destruct (Binary64.of_bits b) as [s|s| |s m e]; [| |done|]; cbn [value double_float] in *; value_bounds;
    generalize dependent infinite_value; intros; unfold signed; try destruct s; lia.
Qed.

Lemma nan_compare b f : Binary64.isnan b = true -> SFcompare (Binary64.of_bits b) f = None /\ SFcompare f (Binary64.of_bits b) = None.
Proof. unfold Binary64.isnan. destruct (Binary64.of_bits b); try done. by destruct f. Qed.

Lemma compareDoubles_value a b : compareDoubles a b = (value (Binary64.of_bits a) ?= value (Binary64.of_bits b)).
Proof.
  unfold compareDoubles, Binary64.eqb, Binary64.ltb, SFeqb, SFltb.
  destruct (Binary64.isnan a) eqn:Ea; [|destruct (Binary64.isnan b) eqn:Eb].
  - destruct (nan_compare a (Binary64.of_bits b) Ea) as [-> ->]. rewrite (nan_value a Ea).
    destruct (Binary64.isnan b) eqn:Eb; [by rewrite (nan_value b Eb), Z.compare_refl|].
    symmetry. apply Z.compare_lt_iff. pose proof (value_above b Eb). lia.
  - destruct (nan_compare b (Binary64.of_bits a) Eb) as [-> ->]. rewrite (nan_value b Eb).
    symmetry. apply Z.compare_gt_iff. pose proof (value_above a Ea). lia.
  - apply not_nan in Ea, Eb. pose proof (of_bits_double_float a). pose proof (of_bits_double_float b).
    rewrite !SFcompare_value by assumption. rewrite (Z.compare_antisym (value (Binary64.of_bits a)) (value (Binary64.of_bits b))).
    by destruct (_ ?= _).
Qed.

(** *** Integers and doubles *)

Lemma unit_value_pos : 0 < unit_value.
Proof. done. Qed.

Lemma unit_infinite : 2 ^ 64 * unit_value < infinite_value.
Proof. done. Qed.

Lemma bound_value : value (Binary64.of_bits kBoundOfLongRange) = 2 ^ 63 * unit_value.
Proof. done. Qed.

Lemma one_value : value (Binary64.of_bits (1023 * 2 ^ 52)) = unit_value.
Proof. done. Qed.

Lemma value_scaled m e z : - 1074 <= e -> z * 2 ^ Z.max (- e) 0 = Zpos m * 2 ^ Z.max e 0 ->
  Zpos m * 2 ^ (e + 1074) = z * unit_value.
Proof.
  intros He E. unfold unit_value. destruct (Z.le_gt_cases 0 e).
  - rewrite Z.max_r, Z.max_l, Z.mul_1_r in E by lia. rewrite E, <- Z.mul_assoc, <- Z.pow_add_r by lia. done.
  - rewrite Z.max_l, Z.max_r, Z.mul_1_r in E by lia. rewrite <- E, <- Z.mul_assoc, <- Z.pow_add_r by lia. do 2 f_equal. lia.
Qed.

Lemma of_u64_value z : 0 < z <= 2 ^ 53 ->
  exists m, Binary64.of_u64 z = m /\ Binary64.magnitude m /\ value (Binary64.of_bits m) = z * unit_value.
Proof.
  intros Hz. assert (exists m e, Binary64.double (Zpos m) e /\ z * 2 ^ Z.max (- e) 0 = Zpos m * 2 ^ Z.max e 0) as (m & e & Hd & E).
  { destruct (decide (z = 2 ^ 53)) as [->|Hn]; [by exists (2 ^ 52)%positive, 1; split; [left|]|].
    destruct z as [|p|p]; try lia. assert (Binary64.double (Zpos p) (-1074)) as Hd by (unfold Binary64.double; lia).
    destruct (Binary64.double_normal p _ Hd) as (p' & j & Hj & Ep & Hp & El). pose proof (Z.log2_nonneg (Zpos p)).
    exists p', (- j). split; [left; lia|]. rewrite Z.max_l, Z.max_r by lia. rewrite Z.opp_involutive. lia. }
  exists (Binary64.to_bits (S754_finite false m e)). split; [apply Binary64.of_u64_exact; lia || done|].
  split; [by apply Binary64.magnitude_finite|]. rewrite (proj1 (Binary64.of_bits_to_bits false m e Hd)).
  cbn [value signed]. apply value_scaled; [|done]. unfold Binary64.double in Hd. lia.
Qed.

Lemma value_opp m : Binary64.magnitude m -> value (Binary64.of_bits (Binary64.opp m)) = - value (Binary64.of_bits m).
Proof.
  intros Hm. pose proof (Binary64.magnitude_small m Hm). pose proof (Binary64.opp_sign false m ltac:(done)) as E.
  change (Binary64.sign_bit false) with 0 in E. rewrite Z.add_0_l in E. rewrite E. cbn [negb]. rewrite Binary64.of_bits_sign by done.
  by destruct (Binary64.of_bits_magnitude m Hm) as [[_ ->]|[[_ ->]|(p & e & -> & _)]].
Qed.

Lemma of_i64_value z : - 2 ^ 53 <= z <= 2 ^ 53 -> value (Binary64.of_bits (Binary64.of_i64 z)) = z * unit_value.
Proof.
  intros Hz. unfold Binary64.of_i64. destruct (Z.ltb_spec z 0).
  - destruct (of_u64_value (- z) ltac:(lia)) as (m & -> & Hm & E). rewrite value_opp by done. rewrite E. lia.
  - destruct (decide (z = 0)) as [->|]; [done|]. by destruct (of_u64_value z ltac:(lia)) as (m & -> & Hm & E).
Qed.

Lemma unit_up e : 0 <= e -> 2 ^ (e + 1074) = 2 ^ e * unit_value.
Proof. intros. unfold unit_value. by rewrite Z.pow_add_r by lia. Qed.

Lemma unit_down e : -1074 <= e <= 0 -> unit_value = 2 ^ (- e) * 2 ^ (e + 1074).
Proof. intros. unfold unit_value. rewrite <- Z.pow_add_r by lia. f_equal. lia. Qed.

#[local] Opaque unit_value infinite_value.

(** A double below 2^63 in magnitude, truncated, is itself or below 2^53. *)
Lemma to_i64_value b : Binary64.isnan b = false -> - 2 ^ 63 * unit_value <= value (Binary64.of_bits b) < 2 ^ 63 * unit_value ->
  let t := Binary64.to_i64 b in
  t * unit_value = value (Binary64.of_bits b) \/
  - 2 ^ 53 < t < 2 ^ 53 /\ - 2 ^ 53 * unit_value < value (Binary64.of_bits b) < 2 ^ 53 * unit_value.
Proof.
  intros Hn Hb. apply not_nan in Hn. unfold Binary64.to_i64. pose proof (of_bits_double_float b) as Hd.
  pose proof unit_infinite. pose proof unit_value_pos.
  destruct (Binary64.of_bits b) as [s|s| |s m e]; [by left| |done|]; cbn [value double_float] in *.
  { destruct s; cbn [signed] in Hb; lia. }
  assert (-1074 <= e /\ Zpos m < 2 ^ 53) as [He Hm] by (unfold Binary64.double in Hd; lia).
  destruct (Z.le_gt_cases 0 e) as [Hge|Hlt].
  - left. rewrite Z.shiftl_mul_pow2, unit_up by lia. destruct s; cbn [signed]; lia.
  - right. rewrite <- (Z.opp_involutive e), Z.shiftl_opp_r, Z.shiftr_div_pow2, Z.opp_involutive by lia.
    assert (0 < 2 ^ (- e)) by (apply Z.pow_pos_nonneg; lia).
    assert (0 <= Zpos m / 2 ^ (- e) < 2 ^ 53) as Ht by (split; [apply Z.div_pos; lia|apply Z.div_lt_upper_bound; nia]).
    assert (0 < Zpos m * 2 ^ (e + 1074) < 2 ^ 53 * unit_value) as Hv.
    { rewrite (unit_down e) by lia. assert (0 < 2 ^ (e + 1074)) by (apply Z.pow_pos_nonneg; lia). clear Hb Hd. nia. }
    destruct s; cbn [signed]; lia.
Qed.

Lemma ltb_value a b : Binary64.isnan a = false -> Binary64.isnan b = false ->
  Binary64.ltb a b = (value (Binary64.of_bits a) <? value (Binary64.of_bits b)) /\
  Binary64.leb a b = (value (Binary64.of_bits a) <=? value (Binary64.of_bits b)).
Proof.
  intros Ha Hb. apply not_nan in Ha, Hb. pose proof (of_bits_double_float a). pose proof (of_bits_double_float b).
  unfold Binary64.ltb, Binary64.leb, SFltb, SFleb, Z.ltb, Z.leb. rewrite SFcompare_value by assumption.
  destruct (value (Binary64.of_bits a) ?= value (Binary64.of_bits b)); split; reflexivity.
Qed.

Lemma compareLongs_compare a b : compareLongs a b = (a ?= b).
Proof. unfold compareLongs. destruct (Z.eqb_spec a b) as [->|]; [by rewrite Z.compare_refl|]. unfold Z.ltb. destruct (Z.compare_spec a b); done || lia. Qed.

Lemma compare_units a b : (a * unit_value ?= b * unit_value) = (a ?= b).
Proof. symmetry. apply Zmult_compare_compat_r. pose proof unit_value_pos. lia. Qed.

Lemma compareLongToDouble_value z b : - 2 ^ 63 <= z < 2 ^ 63 ->
  compareLongToDouble z b = (z * unit_value ?= value (Binary64.of_bits b)).
Proof.
  intros Hz. pose proof unit_infinite. pose proof unit_value_pos. assert (- 2 ^ 63 * unit_value <= z * unit_value < 2 ^ 63 * unit_value) by nia.
  unfold compareLongToDouble, kEndOfPreciseDoubles. destruct (Binary64.isnan b) eqn:En.
  { rewrite nan_value by done. symmetry. apply Z.compare_gt_iff. lia. }
  destruct ((z <=? 2 ^ 53) && (- 2 ^ 53 <=? z)) eqn:Es.
  { apply andb_true_iff in Es as [?%Z.leb_le ?%Z.leb_le]. rewrite compareDoubles_value, of_i64_value by lia. done. }
  apply andb_false_iff in Es. rewrite !Z.leb_gt in Es.
  rewrite (proj2 (ltb_value kBoundOfLongRange b eq_refl En)), bound_value.
  destruct (Z.leb_spec (2 ^ 63 * unit_value) (value (Binary64.of_bits b))); [symmetry; apply Z.compare_lt_iff; lia|].
  rewrite (proj1 (ltb_value b (Binary64.opp kBoundOfLongRange) En eq_refl)), value_opp, bound_value by done.
  destruct (Z.ltb_spec (value (Binary64.of_bits b)) (- (2 ^ 63 * unit_value))); [symmetry; apply Z.compare_gt_iff; lia|].
  rewrite compareLongs_compare. destruct (to_i64_value b En ltac:(lia)) as [<-|[Ht Hv]]; [by rewrite compare_units|].
  destruct Es as [Es|Es].
  - rewrite (proj2 (Z.compare_gt_iff z _)) by lia. symmetry. apply Z.compare_gt_iff. nia.
  - rewrite (proj2 (Z.compare_lt_iff z _)) by lia. symmetry. apply Z.compare_lt_iff. nia.
Qed.

(** The numeric cases of the comparison, decimals apart. *)
Definition is_number (v : bson) : bool := match v with BInt _ | BLong _ | BDouble _ => true | _ => false end.

Lemma compareNumbers_value L v w : is_number v = true -> is_number w = true -> wf_value v -> wf_value w ->
  compareNumbers L v w = Ok (number_value v ?= number_value w).
Proof.
  intros Nv Nw Hv Hw. destruct v, w; try done; cbn [wf_value] in Hv, Hw; cbn [compareNumbers number_value]; f_equal;
    rewrite ?compare_units, ?compareDoubles_value, ?of_i64_value, ?compareLongToDouble_value by lia;
    try reflexivity; try apply compareLongs_compare.
  unfold compareDoubleToLong. by rewrite compareLongToDouble_value, <- Z.compare_antisym by lia.
Qed.

(** ** The bytes of a positive number

    A rank, from which its type byte is made, and what follows the type byte. *)

Lemma value_magnitude a b : Binary64.magnitude a -> Binary64.magnitude b ->
  (value (Binary64.of_bits a) ?= value (Binary64.of_bits b)) = (a ?= b).
Proof.
  intros Ha Hb. pose proof (Binary64.compare_magnitude a b Ha Hb) as E.
  assert (forall m, Binary64.magnitude m -> Binary64.of_bits m <> S754_nan) as Hn.
  { intros m Hm. by destruct (Binary64.of_bits_magnitude m Hm) as [[_ ->]|[[_ ->]|(p & e & -> & _)]]. }
  apply Hn in Ha, Hb. pose proof (of_bits_double_float a). pose proof (of_bits_double_float b).
  rewrite SFcompare_value in E by assumption. apply (inj Some) in E. exact E.
Qed.

(** Magnitudes below one and from 2^63 on: the eight bytes of an encoding of the double. *)
Definition fixed_key (m r enc : Z) : Prop :=
  (768 * 2 ^ 52 <= m < 1023 * 2 ^ 52 /\ r = 0 /\ enc = m * 2 ^ 2) \/
  (0 < m < 768 * 2 ^ 52 /\ r = 0 /\ exists w, Binary64.magnitude w /\ w < 2 ^ 62 /\
     value (Binary64.of_bits w) = value (Binary64.of_bits m) * 2 ^ 256 /\ enc = w * 2 ^ 1 + 2 ^ 62) \/
  (1086 * 2 ^ 52 <= m < Binary64.infinity /\ r = 9 /\ enc = 2 * (m - 2 ^ 62)) \/
  (m = Binary64.infinity /\ r = 9 /\ enc = u64_max).

Lemma fixed_key_range m r enc : fixed_key m r enc -> Binary64.magnitude m /\ 0 <= enc < 2 ^ 64.
Proof.
  unfold fixed_key, Binary64.magnitude, Binary64.infinity, u64_max.
  intros [(H & -> & ->)|[(H & -> & w & Hw & Hw' & _ & ->)|[(H & -> & ->)|(-> & -> & ->)]]]; lia.
Qed.

Lemma fixed_key_lt m r enc m' r' enc' : fixed_key m r enc -> fixed_key m' r' enc' -> m < m' ->
  r < r' \/ r = r' /\ enc < enc'.
Proof.
  intros H H' Hlt. unfold fixed_key, Binary64.infinity in *.
  destruct H as [(H & -> & ->)|[(H & -> & w & Hw & Hw' & Ew & ->)|[(H & -> & ->)|(-> & -> & ->)]]];
  destruct H' as [(H' & -> & ->)|[(H' & -> & w' & Hv & Hv' & Ew' & ->)|[(H' & -> & ->)|(-> & -> & ->)]]];
    unfold u64_max; try lia.
  right. split; [done|]. assert (w < w') as Hww; [|lia]. apply (proj1 (Z.compare_lt_iff _ _)). rewrite <- value_magnitude by done.
  rewrite Ew, Ew'. apply (proj2 (Z.compare_lt_iff _ _)), Z.mul_lt_mono_pos_r; [done|]. apply (proj1 (Z.compare_lt_iff _ _)).
  rewrite value_magnitude by (unfold Binary64.magnitude, Binary64.infinity; lia). by apply (proj2 (Z.compare_lt_iff _ _)).
Qed.

Lemma fixed_key_eq m r enc r' enc' : fixed_key m r enc -> fixed_key m r' enc' -> r = r' /\ enc = enc'.
Proof.
  intros H H'. unfold fixed_key, Binary64.infinity in *.
  destruct H as [(H & -> & ->)|[(H & -> & w & Hw & Hw' & Ew & ->)|[(H & -> & ->)|(-> & -> & ->)]]];
  destruct H' as [(H' & -> & ->)|[(H' & -> & w' & Hv & Hv' & Ew' & ->)|[(H' & -> & ->)|(H' & -> & ->)]]];
    try lia.
  split; [done|]. assert (w = w') as Hww; [|lia]. apply Z.compare_eq_iff. rewrite <- value_magnitude by done.
  rewrite Ew, Ew'. apply Z.compare_refl.
Qed.

(** Magnitudes between: the integer part, doubled, in as many bytes as it takes, odd when a fraction follows in the rest of
    the eight bytes. *)
Definition bytesNeeded (v : Z) : Z := (64 - countLeadingZeros64 v + 7) / 8.

Lemma bytesNeeded_mono v w : 0 < v <= w -> bytesNeeded v <= bytesNeeded w.
Proof.
  intros H. unfold bytesNeeded, countLeadingZeros64. rewrite !(proj2 (Z.eqb_neq _ 0)) by lia.
  apply Z.div_le_mono; [lia|]. pose proof (Z.log2_le_mono v w ltac:(lia)). lia.
Qed.

Definition middle_key (X r : Z) (p : bytes) (n x : Z) : Prop :=
  0 < n < 2 ^ 63 /\ r = bytesNeeded (2 * n) /\ 0 <= x < 256 ^ (8 - r) /\
  X * 256 ^ (8 - r) = (n * 256 ^ (8 - r) + x) * unit_value /\
  p = (if x =? 0 then appendBigEndian (2 * n) (Z.to_nat r)
       else appendBigEndian (2 * n + 1) (Z.to_nat r) ++ appendBigEndian x (Z.to_nat (8 - r))).

Lemma middle_key_range X r p n x : middle_key X r p n x ->
  1 <= r <= 8 /\ 2 * n + 1 < 256 ^ r /\ 0 < 256 ^ (8 - r) /\ n * unit_value <= X < (n + 1) * unit_value.
Proof.
  intros (Hn & Er & Hx & EX & _). destruct (bytes_needed (2 * n) ltac:(lia)) as [Hk Hv]. fold (bytesNeeded (2 * n)) in Hk, Hv.
  rewrite <- Er in Hk, Hv. assert (0 < 256 ^ (8 - r)) by (apply Z.pow_pos_nonneg; lia). pose proof unit_value_pos.
  split; [lia|]. split.
  - replace r with (Z.succ (r - 1)) in Hv |- * by lia. rewrite Z.pow_succ_r in * by lia. lia.
  - split; [done|]. split; nia.
Qed.

Lemma be_before k a b : 0 <= a < b -> b < 256 ^ Z.of_nat k -> before (appendBigEndian a k) (appendBigEndian b k).
Proof. intros Ha Hb. pose proof (ordx_be k a b ltac:(lia) ltac:(lia)) as H. by rewrite (proj2 (Z.compare_lt_iff a b)) in H by lia. Qed.

(** The bytes begin with the integer part, doubled, plus one if there is a fraction. *)
Lemma middle_key_form X r p n x : middle_key X r p n x ->
  exists s, p = appendBigEndian (2 * n + (if x =? 0 then 0 else 1)) (Z.to_nat r) ++ s.
Proof.
  intros (_ & _ & _ & _ & ->). destruct (x =? 0); [|by eexists]. exists []. by rewrite app_nil_r, Z.add_0_r.
Qed.

Lemma middle_key_lt X r p n x Y q t n' x' : middle_key X r p n x -> middle_key Y q t n' x' -> X < Y -> r < q \/ r = q /\ before p t.
Proof.
  intros H H' Hlt. destruct (middle_key_range _ _ _ _ _ H) as (Hr & Hf & HF & HX), (middle_key_range _ _ _ _ _ H') as (Hr' & Hf' & _ & HY).
  pose proof unit_value_pos. destruct (middle_key_form _ _ _ _ _ H) as [s Es], (middle_key_form _ _ _ _ _ H') as [s' Es'].
  destruct H as (Hn & Er & Hx & EX & Ep), H' as (Hn' & Eq & Hx' & EY & Et).
  assert (n <= n') as Hnn by nia. pose proof (bytesNeeded_mono (2 * n) (2 * n') ltac:(lia)) as Hm.
  rewrite <- Er, <- Eq in Hm. destruct (Z.lt_ge_cases r q); [by left|right]. assert (r = q) as Erq by lia. split; [done|].
  rewrite <- Erq in Hf', Hx', EY, Et, Es'. set (F := 256 ^ (8 - r)) in *.
  assert (n * F + x < n' * F + x') as Hsum by nia.
  destruct (Z.lt_ge_cases n n') as [Hn1|Hn1].
  - rewrite Es, Es'. apply before_app, be_before; rewrite ?Z2Nat.id by lia; destruct (x =? 0), (x' =? 0); lia.
  - assert (n' = n) as -> by lia. rewrite Ep, Et. rewrite (proj2 (Z.eqb_neq x' 0)) by lia. destruct (Z.eqb_spec x 0).
    + rewrite <- (app_nil_r (appendBigEndian (2 * n) _)). apply before_app, be_before; rewrite ?Z2Nat.id; lia.
    + apply before_prefix, be_before; rewrite ?Z2Nat.id by lia; fold F; lia.
Qed.

Lemma middle_key_eq X r p n x q t n' x' : middle_key X r p n x -> middle_key X q t n' x' -> r = q /\ p = t.
Proof.
  intros H H'. destruct (middle_key_range _ _ _ _ _ H) as (Hr & Hf & HF & HX), (middle_key_range _ _ _ _ _ H') as (_ & _ & _ & HY).
  pose proof unit_value_pos. destruct H as (Hn & Er & Hx & EX & Ep), H' as (Hn' & Eq & Hx' & EY & Et).
  assert (n = n') as <- by nia. assert (r = q) as <- by congruence. split; [done|]. set (F := 256 ^ (8 - r)) in *.
  assert (x = x') as <- by nia. congruence.
Qed.

Inductive coded (X r : Z) (p : bytes) : Prop :=
  | coded_fixed m enc : X = value (Binary64.of_bits m) -> fixed_key m r enc -> p = appendBigEndian enc 8 -> coded X r p
  | coded_middle n x : middle_key X r p n x -> coded X r p.

(** The rank tells the magnitude. *)
Lemma value_le a b : Binary64.magnitude a -> Binary64.magnitude b -> a <= b -> value (Binary64.of_bits a) <= value (Binary64.of_bits b).
Proof. intros Ha Hb H. unfold Z.le. rewrite value_magnitude by done. exact H. Qed.

Lemma value_lt a b : Binary64.magnitude a -> Binary64.magnitude b ->
  value (Binary64.of_bits a) < value (Binary64.of_bits b) <-> a < b.
Proof. intros Ha Hb. unfold Z.lt. by rewrite value_magnitude. Qed.

Lemma fixed_key_value m r enc : fixed_key m r enc ->
  r = 0 /\ 0 < value (Binary64.of_bits m) < unit_value \/ r = 9 /\ 2 ^ 63 * unit_value <= value (Binary64.of_bits m).
Proof.
  intros H. destruct (fixed_key_range _ _ _ H) as [Hm _]. assert (Binary64.magnitude 0) as H0 by done.
  assert (r = 0 /\ 0 < m < 1023 * 2 ^ 52 \/ r = 9 /\ 1086 * 2 ^ 52 <= m) as [[-> Hb]|[-> Hb]].
  { unfold fixed_key, Binary64.infinity in H. destruct H as [H|[(H & E & _)|[H|H]]]; lia. }
  - left. split; [done|]. rewrite <- one_value. change 0 with (value (Binary64.of_bits 0)).
    rewrite !value_lt by (unfold Binary64.magnitude, Binary64.infinity in *; lia). done.
  - right. split; [done|]. rewrite <- bound_value. apply value_le; [done|done|]. exact Hb.
Qed.

Lemma coded_value X r p : coded X r p ->
  0 < X /\ (r = 0 /\ X < unit_value \/ 1 <= r <= 8 /\ unit_value <= X < 2 ^ 63 * unit_value \/ r = 9 /\ 2 ^ 63 * unit_value <= X).
Proof.
  pose proof unit_value_pos as Hu. intros [m enc -> H _|n x H].
  - apply fixed_key_value in H. lia.
  - destruct (middle_key_range _ _ _ _ _ H) as (Hr & _ & _ & HX). destruct H as (Hn & _). split; [nia|]. right. left. split; [done|]. nia.
Qed.

Lemma coded_lt X r p Y q t : coded X r p -> coded Y q t -> X < Y -> r < q \/ r = q /\ before p t.
Proof.
  intros H H' Hlt. pose proof (coded_value _ _ _ H). pose proof (coded_value _ _ _ H').
  destruct H as [m enc EX H ->|n x H], H' as [m' enc' EY H' ->|n' x' H']; 
    [|apply fixed_key_value in H; apply middle_key_range in H'; lia|apply fixed_key_value in H'; apply middle_key_range in H; lia|
     by eapply middle_key_lt].
  destruct (fixed_key_range _ _ _ H) as [Hm He], (fixed_key_range _ _ _ H') as [Hm' He']. rewrite EX, EY, value_lt in Hlt by done.
  destruct (fixed_key_lt _ _ _ _ _ _ H H' Hlt) as [|[-> Hl]]; [by left|right]. split; [done|]. apply be_before; [lia|]. change (256 ^ Z.of_nat 8) with (2 ^ 64). lia.
Qed.

Lemma coded_eq X r p q t : coded X r p -> coded X q t -> r = q /\ p = t.
Proof.
  intros H H'. pose proof (coded_value _ _ _ H). pose proof (coded_value _ _ _ H').
  destruct H as [m enc EX H ->|n x H], H' as [m' enc' EY H' ->|n' x' H']; 
    [|apply fixed_key_value in H; apply middle_key_range in H'; lia|apply fixed_key_value in H'; apply middle_key_range in H; lia|
     by eapply middle_key_eq].
  destruct (fixed_key_range _ _ _ H) as [Hm He], (fixed_key_range _ _ _ H') as [Hm' He'].
  assert (m = m') as <-. { apply Z.compare_eq_iff. rewrite <- value_magnitude by done. rewrite <- EX, <- EY. apply Z.compare_refl. }
  by destruct (fixed_key_eq _ _ _ _ _ H H') as [-> ->].
Qed.

(** ** The bytes of a number *)

Definition number_type (s : bool) (r : Z) : Z := if s then 40 - r else 42 + r.

Definition number_bytes (s : bool) (r : Z) (p : bytes) : bytes := append8 (number_type s r) false ++ flip_if s p.

Lemma flip_if_xorb s i a : flip_if (xorb s i) a = flip_if i (flip_if s a).
Proof. destruct s, i; try done. cbn. by rewrite map_flip_flip. Qed.

Lemma number_bytes_flip s r p i : flip_if i (number_bytes s r p) = append8 (number_type s r) i ++ flip_if (xorb s i) p.
Proof. unfold number_bytes, append8. by rewrite flip_if_app, flip_if_xorb. Qed.

Lemma middle_int n : 0 < n < 2 ^ 63 ->
  middle_key (n * unit_value) (bytesNeeded (2 * n)) (appendBigEndian (2 * n) (Z.to_nat (bytesNeeded (2 * n)))) n 0.
Proof.
  intros Hn. destruct (bytes_needed (2 * n) ltac:(lia)) as [Hk _]. fold (bytesNeeded (2 * n)) in Hk.
  assert (0 < 256 ^ (8 - bytesNeeded (2 * n))) by (apply Z.pow_pos_nonneg; lia). split_and!; try done; lia.
Qed.

Lemma preshifted_bytes s n i : 0 < n < 2 ^ 63 ->
  appendPreshiftedIntegerPortion (wrap64 (Z.shiftl n 1)) s i =
    flip_if i (number_bytes s (bytesNeeded (2 * n)) (appendBigEndian (2 * n) (Z.to_nat (bytesNeeded (2 * n))))).
Proof.
  intros Hn. rewrite wrap64_double by lia. rewrite number_bytes_flip. unfold appendPreshiftedIntegerPortion, append_be.
  fold (bytesNeeded (2 * n)). unfold number_type, kNumericNegative1ByteInt, kNumericPositive1ByteInt, kNumeric. do 2 f_equal.
  destruct s; lia.
Qed.

Lemma large_bytes s m : Binary64.magnitude m -> Binary64.ldexp1 63 <= m ->
  exists enc, fixed_key m 9 enc /\
    forall i, appendLargeDouble (Binary64.sign_bit s + m) kDCMEqualToDouble i = Ok (flip_if i (number_bytes s 9 (appendBigEndian enc 8))).
Proof.
  intros Hm Hl. pose proof (Binary64.magnitude_small m Hm). change (Binary64.ldexp1 63) with (1086 * 2 ^ 52) in Hl.
  exists (if m =? Binary64.infinity then u64_max else 2 * (m - 2 ^ 62)). split.
  - unfold fixed_key. destruct (Z.eqb_spec m Binary64.infinity) as [->|]; [by right; right; right|].
    right. right. left. unfold Binary64.magnitude in Hm. split_and!; done || lia.
  - intros i. rewrite number_bytes_flip. unfold appendLargeDouble. destruct (Binary64.ltb_sign s m Hm ltac:(lia)) as [_ ->].
    rewrite isfinite_sign by done. cbn [invariant rbind kDCMEqualToDouble kDCMEqualToDoubleRoundedUpTo15Digits Z.eqb negb].
    unfold append_be. rewrite Z.lor_0_r, large_bits by lia. destruct (m =? Binary64.infinity), s, i; done.
Qed.

Lemma small_bytes s m : 0 < m < Binary64.ldexp1 0 ->
  exists enc, fixed_key m 0 enc /\
    forall i, appendSmallDouble (Binary64.sign_bit s + m) kDCMEqualToDouble i = Ok (flip_if i (number_bytes s 0 (appendBigEndian enc 8))).
Proof.
  change (Binary64.ldexp1 0) with (1023 * 2 ^ 52). intros Hm.
  assert (Binary64.magnitude m) as Hmag by (unfold Binary64.magnitude, Binary64.infinity; lia).
  assert (exists enc, fixed_key m 0 enc /\
    (if Binary64.leb kTiniestDoubleWith2BitDCM m then Ok (Z.lor (wrap64 (Z.shiftl m 2)) kDCMEqualToDouble)
     else let! _ := invariant (negb (kDCMEqualToDouble =? kDCMEqualToDoubleRoundedUpTo15Digits)) in
       let magnitude := Binary64.mul m kTinyDoubleExponentUpshiftFactor in
       let encoded := Z.lor (wrap64 (Z.shiftl magnitude 1)) (if kDCMEqualToDouble =? kDCMEqualToDouble then 0 else 1) in
       Ok (wrap64 (encoded + 2 ^ 62))) = Ok enc) as (enc & Hk & Ee).
  { rewrite Binary64.leb_magnitude by done. change kTiniestDoubleWith2BitDCM with (768 * 2 ^ 52).
    destruct (Z.leb_spec (768 * 2 ^ 52) m).
    - exists (m * 2 ^ 2). split; [left; lia|]. by rewrite wrap_shiftl, Z.lor_0_r by lia.
    - destruct (Binary64.scale_tiny m) as (w & E & Hw & _ & p & e & p' & e' & Ep & Ep' & _ & _ & Ev); [change (Binary64.ldexp1 (-255)) with (768 * 2 ^ 52); lia|].
      exists (w * 2 ^ 1 + 2 ^ 62). split.
      + right. left. split; [lia|]. split; [done|]. exists w. unfold Binary64.magnitude, Binary64.infinity.
        split_and!; try lia. rewrite Ep, Ep'. exact Ev.
      + cbn [invariant rbind Z.eqb negb kDCMEqualToDouble kDCMEqualToDoubleRoundedUpTo15Digits]. unfold kTinyDoubleExponentUpshiftFactor.
        rewrite E, wrap_shiftl, Z.lor_0_r by lia. unfold wrap64. by rewrite Z.mod_small by lia. }
  exists enc. split; [done|]. intros i. unfold appendSmallDouble. destruct (Binary64.ltb_sign s m Hmag ltac:(lia)) as [-> _].
  rewrite abs_sign by lia. cbv zeta in Ee |- *. rewrite Ee. cbn [rbind]. by rewrite number_bytes_flip.
Qed.

Lemma appendBigEndian_mod v n : appendBigEndian v n = appendBigEndian (v mod 256 ^ Z.of_nat n) n.
Proof.
  rewrite <- readBigEndian_append. rewrite <- (append_readBigEndian (appendBigEndian v n)) at 1. by rewrite length_appendBigEndian.
Qed.

Lemma bytesNeeded_fraction v : 0 < v < 2 ^ 64 -> bytesNeeded v = 8 - countLeadingZeros64 v / 8.
Proof.
  intros Hv. unfold bytesNeeded. set (c := countLeadingZeros64 v).
  pose proof (Z.div_mod c 8 ltac:(lia)). pose proof (Z.mod_pos_bound c 8 ltac:(lia)).
  symmetry. apply (Z.div_unique _ _ _ (7 - c mod 8)); lia.
Qed.

(** A number with a fraction. *)
Lemma fraction_bytes s m p e : Binary64.of_bits m = S754_finite false p e -> Binary64.to_bits (S754_finite false p e) = m ->
  2 ^ 52 <= Zpos p < 2 ^ 53 -> -52 <= e < 0 ->
  let n := Z.shiftl (Zpos p) e in
  Z.shiftl n (- e) <> Zpos p ->
  let f := countLeadingZeros64 (wrap64 (Z.shiftl n 1)) / 8 in
  let enc := wrap64 (Binary64.to_u64 (Binary64.mul m (kPow256 f)) + wrap64 (Z.shiftl (n + 1) (f * 8))) in
  exists x, middle_key (value (Binary64.of_bits m)) (8 - f) (appendBigEndian enc 8) n x /\ Z.land enc 3 = 0 /\
    number_type s (8 - f) = (if s then kNumericNegative8ByteInt + f else kNumericPositive8ByteInt - f).
Proof.
  intros Eb Et Hp He n Hne f enc. destruct (fractional_bytes p e Hp He) as (f' & Ef & Hf & Hk). fold n f in Ef. subst f'.
  destruct (fraction_parts p e f Hp He Hf Hk) as (Hx & Hn' & HE & HEr & Ew & Ew3). fold n in Hx, Hn', HE, HEr, Ew, Ew3.
  destruct (Binary64.scale_fraction m p e (8 * f) Eb Et Hp ltac:(lia) ltac:(lia) ltac:(lia)) as [E1 _].
  destruct (Binary64.integer_part p e Hp ltac:(lia)) as (Hn & _). fold n in Hn.
  assert (enc = (2 * n + 1) * 2 ^ (8 * f) + (Zpos p * 2 ^ (e + 8 * f) - n * 2 ^ (8 * f))) as Ee by (unfold enc, kPow256; rewrite E1; exact Ew).
  set (x := Zpos p * 2 ^ (e + 8 * f) - n * 2 ^ (8 * f)) in *. exists x. rewrite Ee.
  assert (256 ^ f = 2 ^ (8 * f)) as E256 by (by rewrite Z.pow_mul_r by lia).
  assert (0 < 2 ^ (8 * f)) by (apply Z.pow_pos_nonneg; lia).
  split; [|split; [exact Ew3|destruct s; unfold number_type, kNumericNegative8ByteInt, kNumericPositive8ByteInt, kNumeric; lia]].
  split; [lia|]. split; [unfold f; rewrite wrap64_double by lia; symmetry; apply bytesNeeded_fraction; lia|].
  replace (8 - (8 - f)) with f by lia. rewrite E256. split; [done|]. split.
  - rewrite Eb. cbn [value signed]. unfold x. rewrite (unit_down e) by lia.
    replace (2 ^ (8 * f)) with (2 ^ (e + 8 * f) * 2 ^ (- e)) by (rewrite <- Z.pow_add_r by lia; f_equal; lia). ring.
  - rewrite (proj2 (Z.eqb_neq x 0)).
    + replace 8%nat with (Z.to_nat (8 - f) + Z.to_nat f)%nat at 1 by lia. rewrite appendBigEndian_split, Z2Nat.id, E256 by lia.
      rewrite Z.div_add_l, Z.div_small, Z.add_0_r by lia. f_equal. rewrite appendBigEndian_mod. f_equal.
      rewrite Z2Nat.id, E256, Z.add_comm, Z.mod_add, Z.mod_small by lia. done.
    + intros E0. apply Hne. rewrite Z.shiftl_mul_pow2 by lia. unfold x in E0.
      replace (2 ^ (8 * f)) with (2 ^ (- e) * 2 ^ (e + 8 * f)) in E0 by (rewrite <- Z.pow_add_r by lia; f_equal; lia).
      assert (0 < 2 ^ (e + 8 * f)) by (apply Z.pow_pos_nonneg; lia). nia.
Qed.

(** The bytes of a number, not inverted. *)
Inductive keyed (V : Z) (a : bytes) : Prop :=
  | keyed_nan : V = - infinite_value - 1 -> a = append8 kNumericNaN false -> keyed V a
  | keyed_zero : V = 0 -> a = append8 kNumericZero false -> keyed V a
  | keyed_signed s X r p : V = signed s X -> X <= infinite_value -> coded X r p -> a = number_bytes s r p -> keyed V a.

Lemma value_sign s m : Binary64.magnitude m ->
  value (Binary64.of_bits (Binary64.sign_bit s + m)) = signed s (value (Binary64.of_bits m)).
Proof.
  intros Hm. pose proof (Binary64.magnitude_small m Hm). destruct s; [|done]. rewrite <- value_opp by done.
  pose proof (Binary64.opp_sign false m ltac:(done)) as E. change (Binary64.sign_bit false) with 0 in E. rewrite Z.add_0_l in E.
  by rewrite E.
Qed.

Lemma value_finite m : Binary64.magnitude m -> value (Binary64.of_bits m) <= infinite_value.
Proof. intros Hm. apply (value_le m Binary64.infinity); [done|done|]. by destruct Hm. Qed.

Lemma double_keyed bits : 0 <= bits < 2 ^ 64 -> exists a, keyed (value (Binary64.of_bits bits)) a /\
  forall i, appendDoubleWithoutTypeBits bits kDCMEqualToDouble i = Ok (flip_if i a).
Proof.
  intros Hb. destruct (Binary64.isnan bits) eqn:En.
  { exists (append8 kNumericNaN false). split; [by apply keyed_nan; [apply nan_value|]|]. intros i. by rewrite append_nan. }
  apply not_nan in En. destruct (Binary64.signed_magnitude bits Hb En) as (s & m & -> & Hm). rewrite value_sign by done.
  destruct (decide (m = 0)) as [->|Hm0].
  { exists (append8 kNumericZero false). split; [apply keyed_zero; by destruct s|]. intros i. by destruct s. }
  pose proof (Binary64.magnitude_small m Hm) as Hsm. pose proof (value_finite m Hm) as Hv.
  destruct (Z.lt_ge_cases m (Binary64.ldexp1 0)) as [H1|H1].
  { destruct (small_bytes s m ltac:(lia)) as (enc & Hk & E). exists (number_bytes s 0 (appendBigEndian enc 8)). split.
    - apply (keyed_signed _ _ s (value (Binary64.of_bits m)) 0 (appendBigEndian enc 8)); try done. by apply (coded_fixed _ _ _ m enc).
    - intros i. rewrite <- E. apply append_small_double. lia. }
  destruct (Z.lt_ge_cases m (Binary64.ldexp1 63)) as [H2|H2]; cycle 1.
  { destruct (large_bytes s m Hm H2) as (enc & Hk & E). exists (number_bytes s 9 (appendBigEndian enc 8)). split.
    - apply (keyed_signed _ _ s (value (Binary64.of_bits m)) 9 (appendBigEndian enc 8)); try done. by apply (coded_fixed _ _ _ m enc).
    - intros i. rewrite <- E. by apply append_large_double. }
  destruct (Binary64.of_bits_middle m ltac:(done)) as (p & e & Eb & Et & Hp & He).
  pose proof (fun i => append_middle_double s m i p e Eb Et Hp He ltac:(done)) as H. cbv zeta in H.
  destruct (Binary64.integer_part p e Hp He) as (Hn & _). set (n := Z.shiftl (Zpos p) e) in *.
  destruct (Z.eqb_spec (Z.shiftl n (- e)) (Zpos p)) as [E|E].
  - exists (number_bytes s (bytesNeeded (2 * n)) (appendBigEndian (2 * n) (Z.to_nat (bytesNeeded (2 * n))))). split.
    + apply (keyed_signed _ _ s (n * unit_value) (bytesNeeded (2 * n)) (appendBigEndian (2 * n) (Z.to_nat (bytesNeeded (2 * n))))); [|..|done].
      * f_equal. rewrite Eb. cbn [value signed]. apply value_scaled; [lia|]. destruct (Z.le_gt_cases 0 e).
        -- rewrite Z.max_r, Z.max_l by lia. unfold n. rewrite Z.shiftl_mul_pow2 by lia. lia.
        -- rewrite Z.max_l, Z.max_r by lia. rewrite Z.shiftl_mul_pow2 in E by lia. lia.
      * pose proof unit_infinite. pose proof unit_value_pos. nia.
      * apply (coded_middle _ _ _ n 0), middle_int. lia.
    + intros i. destruct (H i) as [-> _]. by rewrite preshifted_bytes by lia.
  - assert (e < 0) as He' by apply (H false). destruct (fraction_bytes s m p e Eb Et Hp ltac:(lia) E) as (x & Hk & H3 & Hty).
    fold n in Hk, H3, Hty. eexists (number_bytes s _ _). split.
    + eapply keyed_signed; [done|done|by apply (coded_middle _ _ _ n x Hk)|done].
    + intros i. destruct (H i) as (_ & _ & ->); [|done]. rewrite number_bytes_flip, Hty. unfold append_be. by rewrite Z.lor_0_r.
Qed.

Lemma integer_keyed z : - 2 ^ 63 <= z < 2 ^ 63 -> exists a, keyed (z * unit_value) a /\ forall i, appendInteger z i = Ok (flip_if i a).
Proof.
  intros Hz. unfold appendInteger. destruct (Z.eqb_spec z (- 2 ^ 63)) as [->|H1].
  { change (Binary64.opp (Binary64.ldexp1 63)) with (Binary64.sign_bit true + Binary64.ldexp1 63).
    destruct (large_bytes true (Binary64.ldexp1 63) ltac:(done) ltac:(done)) as (enc & Hk & E).
    exists (number_bytes true 9 (appendBigEndian enc 8)). split; [|exact E].
    apply (keyed_signed _ _ true (value (Binary64.of_bits (Binary64.ldexp1 63))) 9 (appendBigEndian enc 8)); [|by apply value_finite| |done].
    - change (Binary64.ldexp1 63) with kBoundOfLongRange. rewrite bound_value. unfold signed. lia.
    - by apply (coded_fixed _ _ _ (Binary64.ldexp1 63) enc). }
  destruct (Z.eqb_spec z 0) as [->|H2]; [by exists (append8 kNumericZero false); split; [apply keyed_zero|]|].
  set (n := Z.abs z). exists (number_bytes (z <? 0) (bytesNeeded (2 * n)) (appendBigEndian (2 * n) (Z.to_nat (bytesNeeded (2 * n))))). split.
  - apply (keyed_signed _ _ (z <? 0) (n * unit_value) (bytesNeeded (2 * n)) (appendBigEndian (2 * n) (Z.to_nat (bytesNeeded (2 * n))))); [| |apply (coded_middle _ _ _ n 0), middle_int; lia|done].
    + unfold signed. destruct (Z.ltb_spec z 0); unfold n; lia.
    + pose proof unit_infinite. pose proof unit_value_pos. nia.
  - intros i. by rewrite preshifted_bytes by lia.
Qed.

Lemma number_keyed L v : is_number v = true -> wf_value v ->
  exists a, keyed (number_value v) a /\ forall i, appendBsonValue L v i = Ok (flip_if i a).
Proof.
  intros Hv Hw. destruct v; try done; cbn [wf_value] in Hw; cbn [appendBsonValue number_value].
  - apply integer_keyed. lia.
  - apply integer_keyed. lia.
  - by apply double_keyed.
Qed.

(** ** The order *)

Lemma coded_rank X r p : coded X r p -> 0 <= r <= 9.
Proof. intros H. apply coded_value in H. lia. Qed.

(** Numbers of one sign. *)
Lemma signed_lt (s : bool) X r p Y q t : coded X r p -> coded Y q t -> X < Y ->
  if s then before (number_bytes s q t) (number_bytes s r p) else before (number_bytes s r p) (number_bytes s q t).
Proof.
  intros H H' Hlt. pose proof (coded_rank _ _ _ H). pose proof (coded_rank _ _ _ H'). unfold number_bytes.
  destruct (coded_lt _ _ _ _ _ _ H H' Hlt) as [Hr|[-> Hb]].
  - destruct s; apply before_app, before_head; cbn [number_type]; rewrite !byte_Z_byte_small; lia.
  - destruct s; apply before_prefix; cbn [flip_if]; [by apply before_flip|done].
Qed.

(** The type byte of a number, by its sign. *)
Lemma keyed_head V a : keyed V a -> exists c t, a = Z_byte c :: t /\ 30 <= c <= 51 /\
  (V = - infinite_value - 1 /\ c = 30 \/ - infinite_value <= V < 0 /\ 31 <= c <= 40 \/ V = 0 /\ c = 41 \/ 0 < V /\ 42 <= c).
Proof.
  assert (0 < infinite_value) as Hi by done.
  intros [-> -> | -> -> |s X r p -> Hx H ->].
  - exists 30, []. split; [done|]. lia.
  - exists 41, []. split; [done|]. lia.
  - exists (number_type s r), (flip_if s p). split; [done|]. pose proof (coded_rank _ _ _ H). apply coded_value in H as [H _].
    destruct s; cbn [number_type signed]; lia.
Qed.

Lemma keyed_lt V a W b : keyed V a -> keyed W b -> V < W -> before a b.
Proof.
  assert (0 < infinite_value) as Hi by done. intros Ha Hb Hlt. destruct (keyed_head _ _ Ha) as (c & t & Ea & Hc & HV), (keyed_head _ _ Hb) as (c' & t' & Eb & Hc' & HW).
  destruct (Z.lt_ge_cases c c') as [Hcc|Hcc]; [rewrite Ea, Eb; apply before_head; rewrite !byte_Z_byte_small; lia|]. clear Ea Eb.
  destruct Ha as [-> -> | -> -> |s X r p -> Hx H ->]; [lia..|]. destruct Hb as [-> -> | -> -> |s' Y q u -> Hy H' ->]; [lia..|].
  pose proof (proj1 (coded_value _ _ _ H)). pose proof (proj1 (coded_value _ _ _ H')).
  destruct s, s'; cbn [signed] in *; [|lia..|].
  - apply (signed_lt true Y q u X r p); done || lia.
  - apply (signed_lt false X r p Y q u); done || lia.
Qed.

Lemma keyed_eq V a b : keyed V a -> keyed V b -> a = b.
Proof.
  assert (0 < infinite_value) as Hi by done. intros Ha Hb. destruct (keyed_head _ _ Ha) as (c & t & _ & Hc & HV), (keyed_head _ _ Hb) as (c' & t' & _ & Hc' & HW).
  destruct Ha as [EV -> |EV -> |s X r p EV Hx H ->], Hb as [EW -> |EW -> |s' Y q u EW Hy H' ->]; try done; try lia.
  1-4: (try apply coded_value in H); (try apply coded_value in H'); unfold signed in *; repeat case_match; lia.
  pose proof (proj1 (coded_value _ _ _ H)). pose proof (proj1 (coded_value _ _ _ H')).
  assert (s = s' /\ X = Y) as [<- <-] by (destruct s, s'; unfold signed in *; split; done || lia).
  by destruct (coded_eq _ _ _ _ _ H H') as [-> ->].
Qed.

Lemma keyed_ordx V a W b : keyed V a -> keyed W b -> ordx (V ?= W) a b.
Proof.
  intros Ha Hb. destruct (Z.compare_spec V W) as [<-|Hlt|Hlt]; [by eapply keyed_eq|by eapply keyed_lt..].
Qed.
