(* ===== verification/KeyOrder.v ===== *)
(** * Keys are ordered as their documents

    [KeyString::compare] of two keys is [BSONObj::woCompare] of the documents they were made of:
    comparing bytes, ascending and descending fields mixed, is comparing values. *)

From S2P Require Import Prelude Bytes Bson RawBson BsonBuilder Doubles Decimals BsonCompare KeyDecoder KeyString KeyRoundTrip ByteOrder NumberOrder.
Import KeyDecoder.Key.
#[local] Open Scope Z_scope.

(** Values whose keys are in their order: a reference's namespace is a C string, and an array's items
    are named by their positions. *)
Fixpoint ordinary (v : bson) : Prop :=
  let values (d : Document) := foldr (fun e P => ordinary e.2 /\ P) True d in
  match v with
  | BDBRef ns _ => cstring ns
  | BArray d => map fst d = imap (fun i _ => numStr i) d /\ values d
  | BObject d | BCodeWScope _ d => values d
  | _ => True
  end.

Definition sortable (v : bson) : Prop := wf_value v /\ keyable v /\ ordinary v.

Section Values.

Context (L : IntelDecimal).

(** ** The bytes of a value, not inverted *)

Definition key_of (v : bson) (a : bytes) : Prop := forall i, appendBsonValue L v i = Ok (flip_if i a).
Definition fields_of (d : Document) (a : bytes) : Prop := forall i, fields_key L d i = Ok (flip_if i a).
Definition items_of (d : Document) (a : bytes) : Prop := forall i, items_key L d i = Ok (flip_if i a).

(** The type byte of a value is its generic one, and more for numbers and booleans. *)
Definition extra (v : bson) : Z :=
  match v with BInt _ | BLong _ | BDouble _ | BDecimal _ _ => 21 | BBool _ => 1 | _ => 0 end.
Definition type_byte (v : bson) (c : Z) : Prop :=
  bsonTypeToGenericKeyStringType v <= c <= bsonTypeToGenericKeyStringType v + extra v.

Lemma type_byte_range v c : type_byte v c -> 10 <= c <= 240.
Proof. unfold type_byte. destruct v; cbn; unfold kMinKey, kMaxKey, kNullish, kUndefined, kNumeric, kStringLike, kObject, kArray, kBinData, kOID, kBool, kDate, kTimestamp, kRegEx, kDBRef, kCode, kCodeWithScope; lia. Qed.

Lemma goes_cons c s r : 0 <= c < 255 -> goes ((append8 c false ++ s) ++ r).
Proof.
  intros Hc. exists (Z_byte c), (s ++ r). split; [done|]. intros E. apply (f_equal byte_Z) in E.
  rewrite byte_Z_byte_small in E by lia. change (byte_Z Byte.xff) with 255 in E. lia.
Qed.

Lemma number_type_byte v : is_number v = true -> wf_value v -> exists c s, key_of v (append8 c false ++ s) /\ type_byte v c.
Proof.
  intros Hn Hw. destruct (number_keyed L v Hn Hw) as (a & Ha & E). destruct (keyed_head _ _ Ha) as (c & t & -> & Hc & _).
  exists c, t. split; [exact E|]. unfold type_byte. destruct v; try done; cbn; unfold kNumeric; lia.
Qed.

(** The other values that hold no value: their type bytes, and what follows. *)
Definition scalar_byte (v : bson) : Z :=
  match v with BBool b => if b then kBoolTrue else kBoolFalse | _ => bsonTypeToGenericKeyStringType v end.

Definition scalar_part (v : bson) : bytes :=
  match v with
  | BString s | BSymbol s | BCode s => appendStringLike s false
  | BBinData t x =>
      (if blen x <? 0xff then append8 (blen x) false else append8 0xff false ++ append_be 4 (blen x) false) ++ append8 t false ++ x
  | BOID o => o
  | BDate z => append_be 8 (Z.lxor (wrap64 z) (2 ^ 63)) false
  | BTimestamp z => append_be 8 z false
  | BRegEx p f => (p ++ [Byte.x00]) ++ f ++ [Byte.x00]
  | BDBRef ns oid => append_be 4 (blen (c_str ns)) false ++ c_str ns ++ oid
  | _ => []
  end.

Lemma append8_flip c i : append8 c i = flip_if i (append8 c false).
Proof. done. Qed.

Lemma scalar_key_of v : scalar v -> keyable v -> is_number v = false ->
  key_of v (append8 (scalar_byte v) false ++ scalar_part v) /\ type_byte v (scalar_byte v).
Proof.
  intros Hs Hk En. split.
  - intros i. rewrite flip_if_app, <- append8_flip. destruct v; try done; cbn [scalar_byte scalar_part appendBsonValue]; f_equal.
    1-5: by destruct i.
    + unfold appendBinData. f_equal. rewrite !flip_if_app. f_equal. by destruct (_ <? _); rewrite ?flip_if_app.
    + unfold appendRegex. f_equal. rewrite !flip_if_app, <- !app_assoc. done.
    + unfold appendDBRef. f_equal. by rewrite !flip_if_app.
  - destruct v as [| | | |b| | | | | | | | | | | | | | | |]; try done. by destruct b.
Qed.

(** Values that hold others. *)
Definition has_key (v : bson) : Prop := exists c s, key_of v (append8 c false ++ s) /\ type_byte v c.

Lemma fields_of_cons n v d a f : key_of v a -> fields_of d f ->
  fields_of ((n, v) :: d) (append8 (bsonTypeToGenericKeyStringType v) false ++ (n ++ [Byte.x00]) ++ a ++ f).
Proof.
  intros Ha Hf i. specialize (Hf i). unfold fields_key in *. cbn [foldr fst snd]. rewrite Ha, Hf. cbn [rbind].
  by rewrite !flip_if_app, <- !append8_flip.
Qed.

Lemma items_of_cons n v d a f : key_of v a -> items_of d f -> items_of ((n, v) :: d) (a ++ f).
Proof. intros Ha Hf i. specialize (Hf i). unfold items_key in *. cbn [foldr snd]. rewrite Ha, Hf. cbn [rbind]. by rewrite flip_if_app. Qed.

Lemma generic_range v : 10 <= bsonTypeToGenericKeyStringType v <= 240.
Proof. exact (generic_type v). Qed.

Lemma has_fields (d : Document) : Forall (fun e => has_key e.2) d -> exists f, fields_of d f /\ forall r, goes (f ++ r).
Proof.
  induction d as [|[n v] d IH]; intros H.
  - exists (append8 0 false). split; [done|]. intros r. by exists Byte.x00, r.
  - apply Forall_cons in H as [(c & s & Ha & _) H]. destruct (IH H) as (f & Hf & _). eexists.
    split; [by apply (fields_of_cons n v d _ _ Ha Hf)|]. intros r. pose proof (generic_range v). apply goes_cons. lia.
Qed.

Lemma has_items (d : Document) : Forall (fun e => has_key e.2) d -> exists f, items_of d f /\ forall r, goes (f ++ r).
Proof.
  induction d as [|[n v] d IH]; intros H.
  - exists (append8 0 false). split; [done|]. intros r. by exists Byte.x00, r.
  - apply Forall_cons in H as [(c & s & Ha & Hc) H]. destruct (IH H) as (f & Hf & _). eexists.
    split; [by apply (items_of_cons n v d _ _ Ha Hf)|]. intros r. apply type_byte_range in Hc. rewrite <- app_assoc. apply goes_cons. lia.
Qed.

Lemma object_key d f : fields_of d f -> key_of (BObject d) (append8 kObject false ++ f).
Proof. intros Hf i. cbn [appendBsonValue]. specialize (Hf i). unfold fields_key in Hf. rewrite Hf. cbn [rbind]. by rewrite flip_if_app, <- append8_flip. Qed.

Lemma array_key d f : items_of d f -> key_of (BArray d) (append8 kArray false ++ f).
Proof. intros Hf i. cbn [appendBsonValue]. specialize (Hf i). unfold items_key in Hf. rewrite Hf. cbn [rbind]. by rewrite flip_if_app, <- append8_flip. Qed.

Lemma scope_key code d f : fields_of d f -> key_of (BCodeWScope code d) (append8 kCodeWithScope false ++ appendStringLike code false ++ f).
Proof.
  intros Hf i. cbn [appendBsonValue]. specialize (Hf i). unfold fields_key in Hf. rewrite Hf. cbn [rbind].
  by rewrite !flip_if_app, <- append8_flip.
Qed.

Lemma scalar_has_key v : scalar v -> wf_value v -> keyable v -> has_key v.
Proof.
  intros Hs Hw Hk. destruct (is_number v) eqn:En; [by apply number_type_byte|].
  exists (scalar_byte v), (scalar_part v). by apply scalar_key_of.
Qed.

Lemma value_has_key v : wf_value v -> keyable v -> has_key v.
Proof.
  induction v as [v Hs|s d IH|d IH|d IH] using bson_nested_ind; intros Hw Hk; [by apply scalar_has_key|..];
    cbn [wf_value keyable] in Hw, Hk; destruct Hw as [_ Hw]; rewrite wf_values in Hw; rewrite keyable_doc in Hk;
    (assert (Forall (fun e => has_key e.2) d) as Hd by (rewrite Forall_forall in *; intros e He; by apply IH; [|apply Hw|apply Hk])).
  - destruct (has_fields d Hd) as (f & Hf & _). exists kCodeWithScope, (appendStringLike s false ++ f). split; [by apply scope_key|done].
  - destruct (has_fields d Hd) as (f & Hf & _). exists kObject, f. split; [by apply object_key|done].
  - destruct (has_items d Hd) as (f & Hf & _). exists kArray, f. split; [by apply array_key|done].
Qed.

(** ** Comparing values that hold no value *)

Lemma canonical_generic v w :
  (canonicalType v ?= canonicalType w) = (bsonTypeToGenericKeyStringType v ?= bsonTypeToGenericKeyStringType w).
Proof. destruct v, w; reflexivity. Qed.

Lemma type_canonical v w :
  (if type_of v =? type_of w then Eq else canonicalType v ?= canonicalType w) = (canonicalType v ?= canonicalType w).
Proof. destruct v, w; reflexivity. Qed.

Lemma generic_gap v w : bsonTypeToGenericKeyStringType v < bsonTypeToGenericKeyStringType w ->
  bsonTypeToGenericKeyStringType v + extra v < bsonTypeToGenericKeyStringType w.
Proof. destruct v, w; intros H; first [discriminate H|reflexivity]. Qed.

Lemma ord_prefix c p a b : ord c a b -> ord c (p ++ a) (p ++ b).
Proof. intros H. exact (ordx_ord_app Eq c p p a b eq_refl H). Qed.

Lemma ordx_prefix c p a b : ordx c a b -> ordx c (p ++ a) (p ++ b).
Proof. intros H. exact (ordx_app Eq c p p a b eq_refl H). Qed.

Lemma memcmp_all a b n : length a = n -> length b = n -> memcmp a b n = bytes_compare a b.
Proof. intros Ha Hb. unfold memcmp. by rewrite !take_ge by lia. Qed.

Lemma ordx_append_be n z z' : 0 <= z < 256 ^ Z.of_nat n -> 0 <= z' < 256 ^ Z.of_nat n ->
  ordx (z ?= z') (append_be n z false) (append_be n z' false).
Proof. apply ordx_be. Qed.

Lemma date_bits z : - 2 ^ 63 <= z < 2 ^ 63 -> Z.lxor (wrap64 z) (2 ^ 63) = z + 2 ^ 63.
Proof.
  intros Hz. change (Z.lxor (wrap64 z) (2 ^ 63)) with (Binary64.opp (wrap64 z)). unfold wrap64. destruct (Z.lt_ge_cases z 0).
  - replace (z mod 2 ^ 64) with (Binary64.sign_bit true + (z + 2 ^ 63)).
    + rewrite Binary64.opp_sign by lia. done.
    + apply (Z.mod_unique _ _ (-1)); unfold Binary64.sign_bit; lia.
  - rewrite Z.mod_small by lia. pose proof (Binary64.opp_sign false z ltac:(lia)) as E. change (Binary64.sign_bit false) with 0 in E.
    rewrite Z.add_0_l in E. rewrite E. change (Binary64.sign_bit (negb false)) with (2 ^ 63). lia.
Qed.

Lemma blen_compare a b : (blen a ?= blen b) = Nat.compare (length a) (length b).
Proof. unfold blen. by rewrite Nat2Z.inj_compare. Qed.

(** The length of binary data, in one byte or in five. *)
Definition length_bytes (n : Z) : bytes := if n <? 0xff then append8 n false else append8 0xff false ++ append_be 4 n false.

Lemma ordx_length n n' : 0 <= n < 2 ^ 31 -> 0 <= n' < 2 ^ 31 -> ordx (n ?= n') (length_bytes n) (length_bytes n').
Proof.
  intros Hn Hn'. unfold length_bytes. destruct (Z.ltb_spec n 0xff), (Z.ltb_spec n' 0xff).
  - apply ordx_byte; lia.
  - rewrite (proj2 (Z.compare_lt_iff _ _)) by lia. apply before_head. rewrite !byte_Z_byte_small; lia.
  - rewrite (proj2 (Z.compare_gt_iff _ _)) by lia. apply before_head. rewrite !byte_Z_byte_small; lia.
  - apply ordx_prefix, ordx_append_be; change (256 ^ Z.of_nat 4) with (2 ^ 32); lia.
Qed.

Lemma binData_ordx t x t' x' : 0 <= t < 2 ^ 8 -> 0 <= t' < 2 ^ 8 -> blen x < 2 ^ 31 -> blen x' < 2 ^ 31 ->
  ordx (lex (Nat.compare (length x) (length x')) (memcmp (Z_byte t :: x) (Z_byte t' :: x') (length x + 1)))
    (scalar_part (BBinData t x)) (scalar_part (BBinData t' x')).
Proof.
  intros Ht Ht' Hx Hx'. pose proof (blen_nonneg x). pose proof (blen_nonneg x'). rewrite <- blen_compare.
  cbn [scalar_part]. fold (length_bytes (blen x)) (length_bytes (blen x')). pose proof (ordx_length (blen x) (blen x') ltac:(lia) ltac:(lia)) as Hl.
  destruct (Z.compare_spec (blen x) (blen x')) as [E|E|E]; cbn [lex] in *; [|by apply before_app..].
  rewrite E. apply ordx_prefix. assert (length x = length x') as El by (unfold blen in E; lia).
  rewrite memcmp_all by (cbn [length]; lia). apply (ordx_bytes (Z_byte t :: x) (Z_byte t' :: x')). cbn [length]. lia.
Qed.

Lemma c_str_cstring s : cstring s -> c_str s = s.
Proof.
  intros H. unfold c_str. pose proof (split_at_spec Byte.x00 s) as E. destruct (split_at _ s) as [[p q]|]; [|done].
  destruct E as [-> _]. exfalso. apply H. set_solver.
Qed.

Lemma dbref_ordx ns o ns' o' : cstring ns -> cstring ns' -> length o = 12%nat -> length o' = 12%nat -> blen ns < 2 ^ 31 -> blen ns' < 2 ^ 31 ->
  let a := native (blen ns + 1) 4 ++ ns ++ [Byte.x00] ++ o in
  let b := native (blen ns' + 1) 4 ++ ns' ++ [Byte.x00] ++ o' in
  ordx (lex (Nat.compare (length a) (length b)) (memcmp a b (length a))) (scalar_part (BDBRef ns o)) (scalar_part (BDBRef ns' o')).
Proof.
  intros Hn Hn' Ho Ho' Hl Hl' a b. pose proof (blen_nonneg ns). pose proof (blen_nonneg ns'). cbn [scalar_part]. rewrite !c_str_cstring by done.
  assert (Nat.compare (length a) (length b) = (blen ns ?= blen ns')) as ->.
  { rewrite <- blen_compare. unfold a, b. rewrite !blen_app, !blen_native. unfold blen. rewrite Ho, Ho'.
    destruct (Z.compare_spec (Z.of_nat (length ns)) (Z.of_nat (length ns'))); rewrite ?Z.compare_eq_iff, ?Z.compare_lt_iff, ?Z.compare_gt_iff; lia. }
  pose proof (ordx_append_be 4 (blen ns) (blen ns')) as Hb. change (256 ^ Z.of_nat 4) with (2 ^ 32) in Hb.
  specialize (Hb ltac:(lia) ltac:(lia)). destruct (Z.compare_spec (blen ns) (blen ns')) as [E|E|E]; cbn [lex]; [|by apply before_app..].
  assert (length ns = length ns') as El by (unfold blen in E; lia). unfold a, b. rewrite E. apply ordx_prefix.
  rewrite memcmp_all by (rewrite !length_app, ?Ho, ?Ho'; cbn [length]; lia). rewrite bytes_compare_app_eq.
  pose proof (ordx_app _ _ _ _ _ _ (ordx_bytes ns ns' El) (ordx_bytes o o' ltac:(lia))) as H'.
  assert (forall x y u w, length x = length y -> bytes_compare (x ++ u) (y ++ w) = lex (bytes_compare x y) (bytes_compare u w)) as Hc.
  { induction x as [|c x IH]; intros [|c' y] u w Hxy; try done. cbn [app bytes_compare]. injection Hxy as Hxy. rewrite IH by done. by destruct (byte_Z c ?= byte_Z c'). }
  rewrite Hc, (bytes_compare_app_eq [Byte.x00]) by done. exact H'.
Qed.

(** Two values of one type, by the bytes after the type byte. *)
Lemma parts_order v w : scalar v -> scalar w -> is_number v = false -> sortable v -> sortable w -> canonicalType v = canonicalType w ->
  exists c, compareElements L v w None = Ok c /\
    ord c (append8 (scalar_byte v) false ++ scalar_part v) (append8 (scalar_byte w) false ++ scalar_part w).
Proof.
  intros Hs Hs' En (Hv & Hk & Ho) (Hw & Hk' & Ho') Et.
  destruct v, w; try done; cbn [wf_value keyable ordinary] in Hv, Hw, Hk, Hk', Ho, Ho';
    eexists; (split; [reflexivity|]); cbn [scalar_byte]; try (apply ordx_ord; reflexivity).
  1: apply ordx_ord; destruct b, b0; first [reflexivity|by apply before_head].
  all: apply ord_prefix; cbn [scalar_part]; rewrite ?compareElementStringValues_eq, ?compareLongs_compare; try apply ord_stringLike; apply ordx_ord.
  - by apply binData_ordx.
  - rewrite memcmp_all by done. apply ordx_bytes. congruence.
  - rewrite !date_bits by done. replace (millis ?= millis0) with (millis + 2 ^ 63 ?= millis0 + 2 ^ 63).
    + apply ordx_append_be; change (256 ^ Z.of_nat 8) with (2 ^ 64); lia.
    + destruct (Z.compare_spec millis millis0); rewrite ?Z.compare_eq_iff, ?Z.compare_lt_iff, ?Z.compare_gt_iff; lia.
  - by apply ordx_append_be.
  - destruct Hv, Hw. apply ordx_app; by apply ordx_name.
  - by apply dbref_ordx.
Qed.

(** The order of two values, and of their keys. *)
Definition orders (v w : bson) : Prop :=
  exists c a b, key_of v a /\ key_of w b /\ woCompareElement L ([], v) ([], w) false None = Ok c /\ ord c a b.

Lemma woCompareElement_eq v w : woCompareElement L ([], v) ([], w) false None =
  match canonicalType v ?= canonicalType w with Eq => compareElements L v w None | c => Ok c end.
Proof. unfold woCompareElement, compare_element. cbn [snd fst]. rewrite type_canonical. by destruct (canonicalType v ?= _). Qed.

(** Values of different types. *)
Lemma types_order v w : has_key v -> has_key w -> canonicalType v <> canonicalType w -> orders v w.
Proof.
  intros (c & s & Ha & Hc) (c' & s' & Hb & Hc') Hne. pose proof (type_byte_range _ _ Hc). pose proof (type_byte_range _ _ Hc').
  exists (canonicalType v ?= canonicalType w), (append8 c false ++ s), (append8 c' false ++ s'). split; [done|]. split; [done|].
  rewrite woCompareElement_eq. split; [destruct (Z.compare_spec (canonicalType v) (canonicalType w)); done|].
  assert ((canonicalType v ?= canonicalType w) <> Eq) as He by (by rewrite Z.compare_eq_iff).
  rewrite canonical_generic in *. unfold type_byte in *. apply ordx_ord.
  destruct (Z.compare_spec (bsonTypeToGenericKeyStringType v) (bsonTypeToGenericKeyStringType w)) as [E|E|E]; [done|..];
    apply before_head; rewrite !byte_Z_byte_small by lia; apply generic_gap in E; lia.
Qed.

Lemma scalars_order v w : scalar v -> scalar w -> sortable v -> sortable w -> orders v w.
Proof.
  intros Hs Hs' Hv Hw. pose proof Hv as (Hv1 & Hv2 & _). pose proof Hw as (Hw1 & Hw2 & _).
  destruct (decide (canonicalType v = canonicalType w)) as [Et|]; [|by apply types_order; [apply scalar_has_key..|]].
  assert (woCompareElement L ([], v) ([], w) false None = compareElements L v w None) as Ec by (by rewrite woCompareElement_eq, Et, Z.compare_refl).
  unfold orders. rewrite Ec. destruct (is_number v) eqn:En.
  - assert (is_number w = true) as En' by (destruct v, w; done).
    destruct (number_keyed L v En Hv1) as (a & Ha & Ea), (number_keyed L w En' Hw1) as (b & Hb & Eb).
    exists (number_value v ?= number_value w), a, b. split; [exact Ea|]. split; [exact Eb|]. split.
    + rewrite <- (compareNumbers_value L) by done. by destruct v.
    + apply ordx_ord. by apply keyed_ordx.
  - assert (is_number w = false) as En' by (destruct v, w; done).
    destruct (parts_order v w Hs Hs' En Hv Hw Et) as (c & E & Ho).
    exists c, (append8 (scalar_byte v) false ++ scalar_part v), (append8 (scalar_byte w) false ++ scalar_part w).
    split; [by apply scalar_key_of|]. split; [by apply scalar_key_of|]. by split.
Qed.

(** ** Comparing the values that hold others *)

(** The loop of [compareObjects] over two objects. *)
Fixpoint fields_compare (d d' : Document) : result comparison :=
  match d, d' with
  | [], [] => Ok Eq
  | [], _ => Ok Lt
  | _, [] => Ok Gt
  | (n, v) :: d, (n', v') :: d' =>
      let! x := compare_element true (n, v) (n', v') (compareElements L v v' None) in
      match x with Eq => fields_compare d d' | _ => Ok x end
  end.

Lemma object_compare d d' : compareElements L (BObject d) (BObject d') None = fields_compare d d'.
Proof.
  cbn [compareElements]. revert d'. induction d as [|[n v] d IH]; intros [|[n' v'] d']; try reflexivity.
  cbn [fields_compare]. destruct (compare_element _ _ _ _) as [[]|]; [|reflexivity..]. apply IH.
Qed.

Lemma array_compare d d' : compareElements L (BArray d) (BArray d') None = fields_compare d d'.
Proof. rewrite <- object_compare. reflexivity. Qed.

Lemma scope_compare s d s' d' : compareElements L (BCodeWScope s d) (BCodeWScope s' d') None =
  match bytes_compare s s' with Eq => fields_compare d d' | c => Ok c end.
Proof. rewrite <- object_compare, <- StringData_compare_eq. reflexivity. Qed.

(** An element of each: their types, their names and their values. *)
Lemma fields_compare_cons n v d n' v' d' c r : woCompareElement L ([], v) ([], v') false None = Ok c ->
  fields_compare d d' = Ok r ->
  fields_compare ((n, v) :: d) ((n', v') :: d') =
    Ok (lex (canonicalType v ?= canonicalType v') (lex (bytes_compare n n') (lex c r))).
Proof.
  rewrite woCompareElement_eq. intros Ec Er. cbn [fields_compare]. unfold compare_element. cbn [fst snd].
  rewrite type_canonical, StringData_compare_eq. destruct (canonicalType v ?= canonicalType v'); [|done..]. cbn [lex].
  destruct (bytes_compare n n'); [|done..]. rewrite Ec. cbn [rbind lex]. by destruct c.
Qed.

(** The end of an object, and an element. *)
Lemma end_before c s : 0 < c < 256 -> before (append8 0 false) (append8 c false ++ s).
Proof. intros Hc. apply (before_head (Z_byte 0)). rewrite !byte_Z_byte_small; lia. Qed.

Definition orders_all (v : bson) : Prop := sortable v -> forall w, sortable w -> orders v w.
Definition sortables (d : Document) : Prop := Forall (fun e : bytes * bson => sortable e.2) d.

Lemma sortables_keys d : sortables d -> Forall (fun e : bytes * bson => has_key e.2) d.
Proof. intros H. eapply Forall_impl; [exact H|]. intros e (Hw & Hk & _). by apply value_has_key. Qed.

Lemma fields_go d f : sortables d -> fields_of d f -> forall r, goes (f ++ r).
Proof.
  intros Hs Hf. destruct (has_fields d) as (g & Hg & Hgo); [by apply sortables_keys|]. specialize (Hf false). rewrite (Hg false) in Hf.
  by injection Hf as <-.
Qed.

Lemma items_go d f : sortables d -> items_of d f -> forall r, goes (f ++ r).
Proof.
  intros Hs Hf. destruct (has_items d) as (g & Hg & Hgo); [by apply sortables_keys|]. specialize (Hf false). rewrite (Hg false) in Hf.
  by injection Hf as <-.
Qed.

Lemma fields_order (d : Document) : Forall (fun e => orders_all e.2) d -> forall d' : Document, sortables d -> sortables d' ->
  Forall (fun e => cstring e.1) d -> Forall (fun e => cstring e.1) d' ->
  exists c f f', fields_of d f /\ fields_of d' f' /\ fields_compare d d' = Ok c /\ ord c f f'.
Proof.
  induction d as [|[n v] d IH]; intros Hall d' Hs Hs' Hn Hn'.
  - destruct d' as [|[n' v'] d']; [by exists Eq, (append8 0 false), (append8 0 false)|].
    destruct (has_fields d') as (f & Hf & _); [apply sortables_keys; by apply Forall_cons in Hs' as []|].
    apply Forall_cons in Hs' as [(Hw & Hk & _) _]. destruct (value_has_key v' Hw Hk) as (c & s & Ha & _).
    exists Lt, (append8 0 false). eexists. split; [done|]. split; [by apply (fields_of_cons n' v' d' _ _ Ha Hf)|]. split; [done|].
    apply (ordx_ord Lt), end_before. pose proof (generic_range v'). lia.
  - apply Forall_cons in Hall as [Hv Hall], Hs as [Hsv Hs], Hn as [Hnv Hn]. cbn [fst snd] in *. destruct d' as [|[n' v'] d'].
    + destruct (has_fields d) as (f & Hf & _); [by apply sortables_keys|]. destruct Hsv as (Hw & Hk & _).
      destruct (value_has_key v Hw Hk) as (c & s & Ha & _). exists Gt. eexists _, (append8 0 false).
      split; [by apply (fields_of_cons n v d _ _ Ha Hf)|]. split; [done|]. split; [done|].
      apply (ordx_ord Gt), end_before. pose proof (generic_range v). lia.
    + apply Forall_cons in Hs' as [Hsv' Hs'], Hn' as [Hnv' Hn']. cbn [fst snd] in *.
      destruct (IH Hall d' Hs Hs' Hn Hn') as (r & f & f' & Hf & Hf' & Er & Hr).
      destruct (Hv Hsv v' Hsv') as (c & a & b & Ha & Hb & Ec & Hc).
      eexists _, _, _. split; [by apply (fields_of_cons n v d _ _ Ha Hf)|]. split; [by apply (fields_of_cons n' v' d' _ _ Hb Hf')|].
      split; [by apply fields_compare_cons|]. rewrite canonical_generic. pose proof (generic_range v). pose proof (generic_range v').
      apply ordx_ord_app; [apply ordx_byte; lia|]. apply ordx_ord_app; [by apply ordx_name|].
      apply ord_app; [done..|by apply (fields_go d)|by apply (fields_go d')].
Qed.

(** The items of two arrays, at the same positions. *)
Definition positions (k : nat) (d : Document) : Prop := map fst d = imap (fun i _ => numStr (k + i)) d.

Lemma positions_cons k n v d : positions k ((n, v) :: d) -> n = numStr k /\ positions (S k) d.
Proof.
  unfold positions. cbn [map imap fst]. intros [= E H]. rewrite Nat.add_0_r in E. split; [done|]. rewrite H. apply imap_ext. intros i x _. cbn.
  by rewrite Nat.add_succ_r.
Qed.

Lemma items_order (d : Document) : Forall (fun e => orders_all e.2) d -> forall k (d' : Document), sortables d -> sortables d' ->
  positions k d -> positions k d' ->
  exists c f f', items_of d f /\ items_of d' f' /\ fields_compare d d' = Ok c /\ ord c f f'.
Proof.
  induction d as [|[n v] d IH]; intros Hall k d' Hs Hs' Hn Hn'.
  - destruct d' as [|[n' v'] d']; [by exists Eq, (append8 0 false), (append8 0 false)|].
    destruct (has_items d') as (f & Hf & _); [apply sortables_keys; by apply Forall_cons in Hs' as []|].
    apply Forall_cons in Hs' as [(Hw & Hk & _) _]. destruct (value_has_key v' Hw Hk) as (c & s & Ha & Hc%type_byte_range).
    exists Lt, (append8 0 false). eexists. split; [done|]. split; [by apply (items_of_cons n' v' d' _ _ Ha Hf)|]. split; [done|].
    rewrite <- app_assoc. apply (ordx_ord Lt), end_before. lia.
  - apply Forall_cons in Hall as [Hv Hall], Hs as [Hsv Hs]. apply positions_cons in Hn as [-> Hn]. cbn [fst snd] in *. destruct d' as [|[n' v'] d'].
    + destruct (has_items d) as (f & Hf & _); [by apply sortables_keys|]. destruct Hsv as (Hw & Hk & _).
      destruct (value_has_key v Hw Hk) as (c & s & Ha & Hc%type_byte_range). exists Gt. eexists _, (append8 0 false).
      split; [by apply (items_of_cons (numStr k) v d _ _ Ha Hf)|]. split; [done|]. split; [done|].
      rewrite <- app_assoc. apply (ordx_ord Gt), end_before. lia.
    + apply Forall_cons in Hs' as [Hsv' Hs']. apply positions_cons in Hn' as [-> Hn']. cbn [fst snd] in *.
      destruct (IH Hall (S k) d' Hs Hs' Hn Hn') as (r & f & f' & Hf & Hf' & Er & Hr).
      destruct (Hv Hsv v' Hsv') as (c & a & b & Ha & Hb & Ec & Hc).
      exists (lex c r), (a ++ f), (b ++ f'). split; [by apply items_of_cons|]. split; [by apply items_of_cons|]. split.
      * rewrite (fields_compare_cons _ _ _ _ _ _ c r Ec Er), bytes_compare_refl. cbn [lex]. f_equal. rewrite woCompareElement_eq in Ec.
        destruct (canonicalType v ?= canonicalType v'); [done|by injection Ec as <-..].
      * apply ord_app; [done..|by apply (items_go d)|by apply (items_go d')].
Qed.

Lemma ordinary_doc (d : Document) : foldr (fun e P => ordinary e.2 /\ P) True d <-> Forall (fun e : bytes * bson => ordinary e.2) d.
Proof. induction d as [|e d IH]; cbn; [done|]. rewrite Forall_cons, IH. done. Qed.

Lemma sortables_of (d : Document) : foldr (fun e P => wf_value e.2 /\ P) True d -> foldr (fun e P => keyable e.2 /\ P) True d ->
  foldr (fun e P => ordinary e.2 /\ P) True d -> sortables d.
Proof.
  rewrite wf_values, keyable_doc, ordinary_doc. unfold sortables. rewrite !Forall_forall. intros Hw Hk Ho e He.
  split; [by apply Hw|]. split; [by apply Hk|by apply Ho].
Qed.

Lemma same_type_order v w c a b : canonicalType v = canonicalType w -> compareElements L v w None = Ok c ->
  key_of v a -> key_of w b -> ord c a b -> orders v w.
Proof. intros Et Ec Ha Hb Ho. exists c, a, b. split_and!; try done. by rewrite woCompareElement_eq, Et, Z.compare_refl. Qed.

(** Any two values are in the order of their keys. *)
Lemma values_order v : orders_all v.
Proof.
  assert (forall v w, sortable v -> sortable w -> canonicalType v <> canonicalType w -> orders v w) as Hne.
  { intros v' w' (Hv1 & Hv2 & _) (Hw1 & Hw2 & _) Hne. apply types_order; [by apply value_has_key..|done]. }
  induction v as [v Hs|s d IH|d IH|d IH] using bson_nested_ind; intros Hv w Hw.
  - destruct (decide (canonicalType v = canonicalType w)); [|by apply Hne]. apply scalars_order; try done. by destruct v, w.
  - destruct w as [| | | | | | | | | | | |s' d'| | | | | | | |]; try by apply Hne.
    destruct Hv as ([Hn Hv1] & Hv2 & Hv3), Hw as ([Hn' Hw1] & Hw2 & Hw3).
    pose proof (sortables_of d Hv1 Hv2 Hv3) as Hd. pose proof (sortables_of d' Hw1 Hw2 Hw3) as Hd'.
    destruct (fields_order d IH d' Hd Hd' Hn Hn') as (c & f & f' & Hf & Hf' & Ec & Ho).
    eapply (same_type_order _ _ (lex (bytes_compare s s') c)); [reflexivity| |by apply scope_key..|].
    + rewrite scope_compare. by destruct (bytes_compare s s').
    + apply ord_prefix, ord_app; [apply ord_stringLike|done|by apply (fields_go d)|by apply (fields_go d')].
  - destruct w as [| | | | | | | | | | | | | | | | | | |d'|]; try by apply Hne.
    destruct Hv as ([Hn Hv1] & Hv2 & Hv3), Hw as ([Hn' Hw1] & Hw2 & Hw3).
    destruct (fields_order d IH d' (sortables_of d Hv1 Hv2 Hv3) (sortables_of d' Hw1 Hw2 Hw3) Hn Hn') as (c & f & f' & Hf & Hf' & Ec & Ho).
    eapply (same_type_order _ _ c); [reflexivity|by rewrite object_compare|by apply object_key..|by apply ord_prefix].
  - destruct w as [| | | | | | | | | | | | | | | | | | | |d']; try by apply Hne.
    destruct Hv as ([_ Hv1] & Hv2 & [Hn Hv3]), Hw as ([_ Hw1] & Hw2 & [Hn' Hw3]).
    destruct (items_order d IH 0 d' (sortables_of d Hv1 Hv2 Hv3) (sortables_of d' Hw1 Hw2 Hw3) Hn Hn') as (c & f & f' & Hf & Hf' & Ec & Ho).
    eapply (same_type_order _ _ c); [reflexivity|by rewrite array_compare|by apply array_key..|by apply ord_prefix].
Qed.

(** ** Documents *)

(** The fields of an index key: their names are empty. *)
Definition sortable_key (obj : Document) : Prop := Forall (fun e => e.1 = [] /\ sortable e.2) obj.

(** A value in the order of its field, with what follows it. *)
Lemma ord_compare c a b i r r' : ord c a b -> goes (flip_if i r) -> goes (flip_if i r') ->
  bytes_compare (flip_if i a ++ r) (flip_if i b ++ r') =
    match (if i then CompOpp c else c) with Eq => bytes_compare r r' | c => c end.
Proof.
  intros Ho Hr Hr'. assert (forall x y, before x y -> bytes_compare (flip_if i x) (flip_if i y) = (if i then Gt else Lt)) as Hb.
  { intros x y H. destruct i; cbn [flip_if]; [|by apply before_compare]. by rewrite bytes_compare_antisym, before_compare by by apply before_flip. }
  rewrite <- (flip_if_twice i r), <- (flip_if_twice i r') at 1. rewrite <- !flip_if_app. destruct c; cbn [ord] in Ho.
  - subst b. rewrite !flip_if_app, bytes_compare_app_eq, !flip_if_twice. by destruct i.
  - rewrite Hb by by apply Ho. by destruct i.
  - rewrite bytes_compare_antisym, Hb by by apply Ho. by destruct i.
Qed.

(** What follows a value in a key is another value or the end, of which no byte is 00 or FF. *)
Lemma goes_flip i j c s : 1 <= c <= 254 -> goes (flip_if i (flip_if j (append8 c false) ++ s)).
Proof.
  intros Hc. destruct (decide (i = j)) as [<-|Hij].
  - rewrite flip_if_app, flip_if_twice. pose proof (goes_cons c (flip_if i s) [] ltac:(lia)) as H. by rewrite app_nil_r in H.
  - rewrite flip_if_app. exists (flip (Z_byte c)), (flip_if i s). split; [by destruct i, j|].
    intros E. apply (f_equal byte_Z) in E. rewrite byte_Z_flip, byte_Z_byte_small in E by lia. change (byte_Z Byte.xff) with 255 in E. lia.
Qed.

(** The bytes that end a key. *)
Definition terminator (D : Discriminator) : bytes :=
  match D with kExclusiveBefore => append8 kLess false | kExclusiveAfter => append8 kGreater false | kInclusive => [] end ++
  append8 kEnd false.

(** Where a key with a discriminator is among those that begin with its fields, of which [rest] is left. *)
Definition bound_compare (D : Discriminator) (rest : Document) : comparison :=
  match D with
  | kExclusiveBefore => Lt
  | kExclusiveAfter => Gt
  | kInclusive => match rest with [] => Eq | _ => Lt end
  end.

Fixpoint woCompareBound (D : Discriminator) (obj r : Document) (i : Z) (descending : Z -> bool) : result comparison :=
  match obj, r with
  | [], _ => Ok (bound_compare D r)
  | _, [] => Ok Gt
  | e :: obj, e' :: r =>
      let! x := woCompareElement L e e' false None in
      let x := if descending i then CompOpp x else x in
      match x with Eq => woCompareBound D obj r (i + 1) descending | _ => Ok x end
  end.

(** The end of a key, and another key from there. *)
Lemma terminator_compare D j c r s : 10 <= c <= 240 ->
  bytes_compare (terminator D ++ r) (flip_if j (append8 c false) ++ s) = (match D with kExclusiveAfter => Gt | _ => Lt end).
Proof.
  intros Hc. assert (exists b, flip_if j (append8 c false) = [Z_byte b] /\ 10 <= b <= 245) as (b & -> & Hb).
  { destruct j; [|by exists c; split; [|lia]]. exists (255 - c). split; [|lia]. unfold append8. cbn. f_equal.
    apply (inj byte_Z). rewrite byte_Z_flip, !byte_Z_byte_small; lia. }
  destruct D; cbn [terminator app append8 flip_if bytes_compare]; rewrite (byte_Z_byte_small b) by lia;
    change (byte_Z (Z_byte kLess)) with 1; change (byte_Z (Z_byte kGreater)) with 254; change (byte_Z (Z_byte kEnd)) with 4.
  all: first [rewrite (proj2 (Z.compare_lt_iff _ _)) by lia|rewrite (proj2 (Z.compare_gt_iff _ _)) by lia]; done.
Qed.

Lemma terminator_goes D i : goes (flip_if i (terminator D)).
Proof.
  destruct D; cbn [terminator]; rewrite ?app_nil_l.
  - pose proof (goes_flip i false kEnd [] ltac:(done)) as H. by rewrite app_nil_r in H.
  - exact (goes_flip i false kLess (append8 kEnd false) ltac:(done)).
  - exact (goes_flip i false kGreater (append8 kEnd false) ltac:(done)).
Qed.

Lemma goes_app a r : goes a -> goes (a ++ r).
Proof. intros (b & t & -> & Hb). by exists b, (t ++ r). Qed.

(** The key of the fields from one on, and how it compares; a bound compares alike with the entries that
    have the key in front. *)
Lemma elements_key obj k descending D : sortable_key obj -> exists key, appendElements L obj k descending D = Ok key /\
  (forall i, goes (flip_if i key)) /\
  match obj with
  | [] => key = terminator D
  | _ => exists j c s, key = flip_if j (append8 c false) ++ s /\ 10 <= c <= 240
  end.
Proof.
  revert k. induction obj as [|[n v] obj IH]; intros k Hs.
  - exists (terminator D). split; [by destruct D|]. split; [intros; apply terminator_goes|done].
  - apply Forall_cons in Hs as [[En (Hw & Hk & _)] Hs]. cbn [fst snd] in *. subst n. destruct (IH (k + 1) Hs) as (key & Ek & _).
    destruct (value_has_key v Hw Hk) as (c & s & Ha & Hc%type_byte_range). exists (flip_if (descending k) (append8 c false ++ s) ++ key).
    split; [cbn [appendElements]; rewrite Ha; cbn [rbind]; by rewrite Ek|]. rewrite flip_if_app, <- app_assoc. split; [|by eauto 10].
    intros i. apply goes_flip. lia.
Qed.

Lemma elements_order D obj : sortable_key obj -> forall obj' k descending, sortable_key obj' ->
  exists key key', appendElements L obj k descending D = Ok key /\ appendElements L obj' k descending kInclusive = Ok key' /\
    forall r, (D = kInclusive -> r = []) -> woCompareBound D obj obj' k descending = Ok (bytes_compare key (key' ++ r)).
Proof.
  induction obj as [|[n v] obj IH]; intros Hs obj' k descending Hs'.
  - destruct (elements_key obj' k descending kInclusive Hs') as (key' & Ek' & _ & Hk'). exists (terminator D), key'.
    split; [by destruct D|]. split; [done|]. intros r Hr. destruct obj' as [|[n' v'] obj']; [subst key'; destruct D; [by rewrite Hr|done..]|].
    destruct Hk' as (j & c & s & -> & Hc). rewrite <- (app_nil_r (terminator D)), <- app_assoc, terminator_compare by done. by destruct D.
  - destruct obj' as [|[n' v'] obj'].
    { destruct (elements_key _ k descending D Hs) as (key & Ek & _ & j & c & s & -> & Hc). eexists _, (terminator kInclusive).
      split; [done|]. split; [done|]. intros r _. by rewrite bytes_compare_antisym, terminator_compare. }
    apply Forall_cons in Hs as [[En Hsv] Hs], Hs' as [[En' Hsv'] Hs']. cbn [fst snd] in *. subst n n'.
    destruct (IH Hs obj' (k + 1) descending Hs') as (key & key' & Ek & Ek' & Ec).
    destruct (values_order v Hsv v' Hsv') as (c & a & b & Ha & Hb & Ew & Ho).
    exists (flip_if (descending k) a ++ key), (flip_if (descending k) b ++ key').
    split; [cbn [appendElements]; rewrite Ha; cbn [rbind]; by rewrite Ek|].
    split; [cbn [appendElements]; rewrite Hb; cbn [rbind]; by rewrite Ek'|].
    destruct (elements_key obj (k + 1) descending D Hs) as (x & Ex & Hx & _), (elements_key obj' (k + 1) descending kInclusive Hs') as (y & Ey & Hy & _).
    rewrite Ek in Ex. rewrite Ek' in Ey. injection Ex as <-. injection Ey as <-.
    intros r Hr. rewrite <- app_assoc, (ord_compare c a b); [|done..|rewrite flip_if_app; by apply goes_app].
    cbn [woCompareBound]. rewrite Ew. cbn [rbind]. rewrite (Ec r Hr). by destruct (if descending k then _ else _).
Qed.

Lemma woCompareBound_exclusive D obj r : D <> kInclusive -> (length obj <= length r)%nat -> forall i descending,
  woCompareBound D obj r i descending =
    (let! c := woCompareBound kInclusive obj (take (length obj) r) i descending in
     Ok (match c with Eq => bound_compare D r | _ => c end)).
Proof.
  intros HD. revert r. induction obj as [|e obj IH]; intros r Hl i descending; [by destruct r|].
  destruct r as [|e' r]; cbn [length] in Hl; [lia|]. cbn [length take woCompareBound].
  destruct (woCompareElement L e e' false None) as [x|]; [|done]. cbn [rbind].
  assert (forall r r', bound_compare D r = bound_compare D r') as Hb by (intros; by destruct D).
  destruct (if descending i then _ else _); [|done..]. rewrite IH by lia. destruct (woCompareBound kInclusive _ _ _ _) as [[]|]; try done.
  cbn [rbind]. by rewrite (Hb r (e' :: r)).
Qed.

(** ** Orderings *)

Definition descending_of (o : Z) (i : Z) : bool := Ordering_get o i =? -1.

Lemma get_testbit o i : 0 <= i -> descending_of o i = Z.testbit o i.
Proof.
  intros Hi. unfold descending_of, Ordering_get. rewrite Z.land_comm, land_bit by done. by destruct (Z.testbit o i).
Qed.

Lemma descending_mask o i : 0 <= i -> negb (Ordering_descending o (2 ^ i) =? 0) = descending_of o i.
Proof.
  intros Hi. unfold Ordering_descending, descending_of, Ordering_get. rewrite Z.shiftl_1_l, Z.land_comm. by destruct (_ =? 0).
Qed.

Lemma next_mask i : 0 <= i < 31 -> wrap32 (Z.shiftl (2 ^ i) 1) = 2 ^ (i + 1).
Proof.
  intros Hi. unfold wrap32. rewrite Z.shiftl_mul_pow2, <- Z.pow_add_r by lia. apply Z.mod_small. split; [apply Z.pow_nonneg; lia|].
  apply Z.pow_lt_mono_r; lia.
Qed.

(** Comparing with an ordering is comparing with the directions it holds, in keys of at most 32 fields. *)
Lemma woCompareFrom_bound o obj : forall r i, 0 <= i -> i + nFields obj <= 32 ->
  woCompareFrom L obj r (2 ^ i) o false None = woCompareBound kInclusive obj r i (descending_of o).
Proof.
  unfold nFields. induction obj as [|e obj IH]; intros [|e' r] i Hi Hl; try done. cbn [woCompareBound woCompareFrom].
  destruct (woCompareElement L e e' false None) as [x|]; [|done]. cbn [rbind]. rewrite descending_mask by done.
  destruct (if descending_of o i then _ else _); [|done..]. cbn [length] in Hl. destruct (decide (i < 31)).
  - rewrite next_mask by lia. apply IH; lia.
  - destruct obj; [by destruct r|cbn [length] in Hl; lia].
Qed.

(** The bits of an ordering are the signs of the key pattern. *)
Definition descending_field (pattern : Document) (i : nat) : bool :=
  match pattern !! i with Some e => Binary64.ltb (number L e.2) 0 | None => false end.

Lemma make_loop_bits pattern : forall b n o, make_loop L pattern b (Z.of_nat n) = Ok o ->
  (forall i, (n <= i)%nat -> Z.testbit b (Z.of_nat i) = false) ->
  (forall i, (i < n)%nat -> Z.testbit o (Z.of_nat i) = Z.testbit b (Z.of_nat i)) /\
  forall i, Z.testbit o (Z.of_nat (n + i)) = descending_field pattern i.
Proof.
  induction pattern as [|[x e] pattern IH]; intros b n o Eo Hb; cbn [make_loop] in Eo.
  - injection Eo as <-. split; [done|]. intros i. apply Hb. lia.
  - apply rbind_Ok in Eo as (u & _ & Eo). replace (Z.of_nat n + 1) with (Z.of_nat (S n)) in Eo by lia.
    set (b' := if Binary64.ltb _ _ then _ else _) in Eo.
    assert (forall i, Z.testbit b' (Z.of_nat i) = (if decide (i = n) then Binary64.ltb (number L e) 0 else Z.testbit b (Z.of_nat i))) as Hb'.
    { intros i. unfold b'. rewrite Z.shiftl_1_l. destruct (Binary64.ltb (number L e) 0); destruct (decide (i = n)) as [->|].
      - rewrite Z.lor_spec, Z.pow2_bits_true by lia. apply orb_true_r.
      - rewrite Z.lor_spec, Z.pow2_bits_false by lia. apply orb_false_r.
      - apply Hb. lia.
      - done. }
    destruct (IH b' (S n) o Eo) as [H1 H2]; [intros i Hi; rewrite Hb', decide_False by lia; apply Hb; lia|]. split.
    + intros i Hi. rewrite H1, Hb', decide_False by lia. done.
    + intros [|i]; [|rewrite Nat.add_succ_r; exact (H2 i)]. rewrite Nat.add_0_r, H1, Hb', decide_True by lia. done.
Qed.

Lemma compareObjects_bound pattern o obj : Ordering_make L pattern = Ok o -> forall r i,
  compareObjects L obj r (drop i pattern) false None = woCompareBound kInclusive obj r (Z.of_nat i) (descending_of o).
Proof.
  intros Eo. destruct (make_loop_bits pattern 0 0 o Eo) as [_ Hbits]; [intros; apply Z.bits_0|].
  induction obj as [|e obj IH]; intros [|e' r] i; try done. cbn [woCompareBound compareObjects].
  destruct (woCompareElement L e e' false None) as [x|]; [|done]. cbn [rbind]. rewrite get_testbit, (Hbits i : Z.testbit o (Z.of_nat i) = _) by lia.
  assert (match drop i pattern with (_, k) :: _ => if Binary64.ltb (number L k) 0 then CompOpp x else x | [] => x end =
          (if descending_field pattern i then CompOpp x else x)) as ->.
  { unfold descending_field. pose proof (lookup_drop pattern i 0) as E. rewrite Nat.add_0_r in E. rewrite <- E.
    by destruct (drop i pattern) as [|[y k] q]. }
  destruct (if descending_field pattern i then _ else _); [|done..]. replace (Z.of_nat i + 1) with (Z.of_nat (S i)) by lia.
  rewrite <- IH. f_equal. rewrite <- (Nat.add_1_r i), <- drop_drop. by destruct (drop i pattern).
Qed.


Lemma bounds_of o obj obj' r : sortable_key obj -> sortable_key obj' -> nFields obj <= 32 -> (length obj <= length obj')%nat ->
  exists before after key' c, resetToKey L obj (descending_of o) kExclusiveBefore = Ok before /\
    resetToKey L obj (descending_of o) kExclusiveAfter = Ok after /\ resetToKey L obj' (descending_of o) kInclusive = Ok key' /\
    woCompare L obj (take (length obj) obj') o false None = Ok c /\
    KeyString_compare before (key' ++ r) = (match c with Eq => Lt | _ => c end) /\
    KeyString_compare after (key' ++ r) = (match c with Eq => Gt | _ => c end).
Proof.
  intros Hs Hs' H32 Hl. destruct (elements_order kExclusiveBefore obj Hs obj' 0 (descending_of o) Hs') as (kb & key' & Eb & Ek & Hb).
  destruct (elements_order kExclusiveAfter obj Hs obj' 0 (descending_of o) Hs') as (ka & key'' & Ea & Ek' & Ha).
  rewrite Ek in Ek'. injection Ek' as <-. specialize (Ha r ltac:(done)). specialize (Hb r ltac:(done)). rewrite woCompareBound_exclusive in Ha, Hb by done.
  rewrite (woCompareFrom_bound o obj _ 0 ltac:(done) H32 : woCompare L obj _ o false None = _).
  destruct (woCompareBound kInclusive obj _ 0 _) as [c|]; [|discriminate]. exists kb, ka, key', c.
  rewrite !KeyString_compare_eq. cbn [rbind] in Ha, Hb. injection Ha as <-. injection Hb as <-. by split_and!; try done; destruct c.
Qed.

(** A key with a discriminator is a bound among the keys with as many fields or more, and among the
    index entries that have a record id [r] after such a key: the one made with [kExclusiveBefore] is before,
    and the one made with [kExclusiveAfter] after, all those whose first fields equal its own, and both
    compare with the others as their fields do. *)
Theorem exclusive_bounds o obj obj' r : sortable_key obj -> sortable_key obj' -> nFields obj <= 32 -> (length obj <= length obj')%nat ->
  exists before after key' c, resetToKey L obj (descending_of o) kExclusiveBefore = Ok before /\
    resetToKey L obj (descending_of o) kExclusiveAfter = Ok after /\ resetToKey L obj' (descending_of o) kInclusive = Ok key' /\
    woCompare L obj (take (length obj) obj') o false None = Ok c /\
    KeyString_compare before (key' ++ r) = (match c with Eq => Lt | _ => c end) /\
    KeyString_compare after (key' ++ r) = (match c with Eq => Gt | _ => c end).
Proof. apply bounds_of. Qed.

End Values.

(** The double 2.5 and the long 2 in an object, and strings of which one has a NUL; the first field is
    descending. *)
Definition ex_sort_a : Document :=
  [([], BObject [(lit "x", BDouble (Binary64.ldexp1 1 + 2 ^ 50))]); ([], BString (lit "a" ++ [Byte.x00]))].
Definition ex_sort_b : Document := [([], BObject [(lit "x", BLong 2)]); ([], BString (lit "a"))].
Definition ex_sort_prefix : Document := [([], BObject [(lit "x", BDouble (Binary64.ldexp1 1))])].
Definition ex_pattern : Document := [(lit "a", BInt (-1)); (lit "b", BInt 1)].

Lemma ex_sort_fields : sortable_key ex_sort_a /\ sortable_key ex_sort_b /\ sortable_key ex_sort_prefix.
Proof.
  unfold sortable_key, sortable, ex_sort_a, ex_sort_b, ex_sort_prefix. split_and!; repeat constructor; cbn; try done; unfold cstring;
    apply (bool_decide_unpack _); vm_compute; exact I.
Qed.


Lemma exclusive_bounds_witness :
  exists before after key' c,
    resetToKey ref_library ex_sort_prefix (descending_of 1) kExclusiveBefore = Ok before /\
    resetToKey ref_library ex_sort_prefix (descending_of 1) kExclusiveAfter = Ok after /\
    resetToKey ref_library ex_sort_b (descending_of 1) kInclusive = Ok key' /\
    woCompare ref_library ex_sort_prefix (take (length ex_sort_prefix) ex_sort_b) 1 false None = Ok c /\
    KeyString_compare before (key' ++ lit "id") = (match c with Eq => Lt | _ => c end) /\
    KeyString_compare after (key' ++ lit "id") = (match c with Eq => Gt | _ => c end).
Proof.
  apply (exclusive_bounds ref_library 1 ex_sort_prefix ex_sort_b (lit "id")); [apply ex_sort_fields|apply ex_sort_fields|vm_compute; discriminate|].
  cbn. lia.
Defined.


(** A reference's namespace is taken as a C string: with a NUL in it, its key is that of the part before,
    and references that differ after it have one key. *)
Definition ex_ref (c : bytes) : Document := [([], BDBRef (lit "a" ++ [Byte.x00] ++ c) (repeat Byte.x01 12))].

Lemma dbref_keys_collide :
  resetToKey ref_library (ex_ref (lit "b")) (descending_of 0) kInclusive = resetToKey ref_library (ex_ref (lit "c")) (descending_of 0) kInclusive /\
  woCompare ref_library (ex_ref (lit "b")) (ex_ref (lit "c")) 0 false None = Ok Lt.
Proof. vm_compute. by split. Qed.
