(* ===== verification/RecordId.v ===== *)
(** * Record ids (db/record_id.h) and keys that carry them (db/storage/key_string.cpp)

    A record id of the engine is the packed key of the record's [_id]. An entry of a secondary index
    is a KeyString with the record id at its end, written so that it is found from the end. *)

From S2P Require Import Prelude Bytes Bson RawBson BsonBuilder Doubles Decimals KeyDecoder KeyString KeyRoundTrip.
Import KeyDecoder.Key.
#[local] Open Scope Z_scope.

(** ** Record ids *)

Definition kSmallStrMaxSize : Z := 22.
Definition kBigStrMaxSize : Z := 8 * 1024 * 1024.

Inductive RecordId :=
| kNull
| kLong (repr : Z)
| kSmallStr (s : bytes)
| kBigStr (s : bytes).

#[global] Instance RecordId_eq_dec : EqDecision RecordId.
Proof. solve_decision. Defined.

(** The constructor from a string, and [setValue]. *)
Definition RecordId_of_str (data : bytes) : result RecordId :=
  let! _ := invariant (0 <? blen data) in
  if blen data <=? kSmallStrMaxSize then Ok (kSmallStr data)
  else if blen data <=? kBigStrMaxSize then Ok (kBigStr data)
  else Err InvariantFailure.

Definition isLong (r : RecordId) : bool := match r with kLong _ => true | _ => false end.
Definition isStr (r : RecordId) : bool := match r with kSmallStr _ | kBigStr _ => true | _ => false end.
Definition repr (r : RecordId) : Z := match r with kLong z => z | _ => 0 end.
Definition isNull (r : RecordId) : bool := match r with kNull => true | kLong z => z =? 0 | _ => false end.
Definition isNormal (r : RecordId) : bool := match r with kNull => false | _ => true end.

Definition getLong (r : RecordId) : result Z :=
  match r with kNull => Ok 0 | kLong z => Ok z | _ => Err InvariantFailure end.

Definition getSmallStrNoCheck (s : bytes) : result bytes :=
  let! _ := invariant (0 <? blen s) in let! _ := invariant (blen s <=? kSmallStrMaxSize) in Ok s.
Definition getBigStrNoCheck (s : bytes) : result bytes :=
  let! _ := invariant (kSmallStrMaxSize <? blen s) in let! _ := invariant (blen s <=? kBigStrMaxSize) in Ok s.

Definition getStringView (r : RecordId) : result bytes :=
  match r with
  | kSmallStr s => getSmallStrNoCheck s
  | kBigStr s => getBigStrNoCheck s
  | _ => Err InvariantFailure
  end.

(** [compare]: null first; longs and strings are compared with their like. *)
Definition RecordId_compare (lhs rhs : RecordId) : result comparison :=
  match lhs, rhs with
  | kNull, kNull => Ok Eq
  | kNull, _ => Ok Lt
  | _, kNull => Ok Gt
  | kLong z, _ => let! z' := getLong rhs in Ok (z ?= z')
  | kSmallStr s, _ => let! s := getSmallStrNoCheck s in let! s' := getStringView rhs in Ok (bytes_compare s s')
  | kBigStr s, _ => let! s := getBigStrNoCheck s in let! s' := getStringView rhs in Ok (bytes_compare s s')
  end.

(** ** Writing a record id *)

(** [_appendRecordIdLong]. *)
Definition appendRecordIdLong (val : Z) : result bytes :=
  let! raw := if val <? 0 then let! _ := invariant (val =? - 2 ^ 63) in Ok 0 else Ok val in
  let bitsNeeded := 64 - countLeadingZeros64 raw in
  let extraBytesNeeded := if bitsNeeded <=? 10 then 0 else (bitsNeeded - 10 + 7) / 8 in
  let firstByte := Z.lor (Z.shiftl extraBytesNeeded 5) (Z.shiftr raw (5 + extraBytesNeeded * 8)) in
  let lastByte := Z.lor (Z.shiftl raw 3) extraBytesNeeded in
  Ok (append8 firstByte false ++ append_be (Z.to_nat extraBytesNeeded) (Z.shiftr raw 5) false ++ append8 lastByte false).

Definition kRecordIdStrEncodedSizeMaxBytes : nat := 4.

(** The seven bits of byte [k] of a size, and the highest byte that is not zero. *)
Definition size_byte (size : Z) (k : nat) : Z := Z.land (Z.shiftr size (Z.of_nat k * 7)) 0x7f.
Fixpoint highestSizeByte (size : Z) (k : nat) : nat :=
  match k with
  | O => O
  | S k => if size_byte size k =? 0 then highestSizeByte size k else k
  end.

(** The size of a string id; all its bytes but the first are continued. *)
Definition encodedSize (size : Z) : bytes :=
  Z_byte (size_byte size 0) ::
  map (fun k => Z_byte (Z.lor (size_byte size k) 0x80)) (seq 1 (highestSizeByte size kRecordIdStrEncodedSizeMaxBytes)).

(** [_appendRecordIdStr]. *)
Definition appendRecordIdStr (str : bytes) : result bytes :=
  let! _ := invariant (0 <? blen str) in
  let! _ := invariant (blen str <=? kBigStrMaxSize) in
  Ok (str ++ encodedSize (blen str)).

Definition appendRecordId (loc : RecordId) : result bytes :=
  match loc with
  | kNull => Err InvariantFailure
  | kLong rid => appendRecordIdLong rid
  | kSmallStr s => let! sv := getSmallStrNoCheck s in appendRecordIdStr sv
  | kBigStr s => let! sv := getBigStrNoCheck s in appendRecordIdStr sv
  end.

(** [resetToKey] of an index entry. *)
Definition resetToEntry (L : IntelDecimal) (obj : Document) (descending : Z -> bool) (recordId : RecordId) : result bytes :=
  let! key := appendElements L obj 0 descending kInclusive in
  let! rid := appendRecordId recordId in
  Ok (key ++ rid).

(** ** Reading it from the end *)

(** The bytes of the size, read from the end of the buffer, given in reverse; past its beginning a
    byte is read that cannot keep the invariants below. *)
Fixpoint size_bytes (sizeByteId : nat) (buffer : bytes) : result (list Z) :=
  match buffer with
  | [] => Err InvariantFailure
  | b :: buffer =>
      let! _ := invariant (sizeByteId <? kRecordIdStrEncodedSizeMaxBytes)%nat in
      if Z.testbit (byte_Z b) 7 then
        let! rest := size_bytes (S sizeByteId) buffer in Ok (Z.land (byte_Z b) 0x7f :: rest)
      else Ok [byte_Z b]
  end.

Fixpoint ridSize (sizes : list Z) : Z :=
  match sizes with
  | [] => 0
  | s :: sizes => Z.shiftl s (Z.of_nat (length sizes) * 7) + ridSize sizes
  end.

Definition decodeRecordIdStrAtEnd (buffer : bytes) : result RecordId :=
  let! _ := invariant (0 <? blen buffer) in
  let! sizes := size_bytes 0 (rev buffer) in
  let numSegments := Z.of_nat (length sizes) in
  let size := ridSize sizes in
  let! _ := invariant (size + numSegments <=? blen buffer) in
  RecordId_of_str (take (Z.to_nat size) (drop (Z.to_nat (blen buffer - size - numSegments)) buffer)).

(** [decodeRecordId]: the number between its two counted ends. *)
Fixpoint readExtraBytes (n : nat) (repr : Z) (r : BufReader) : result (Z * BufReader) :=
  match n with
  | O => Ok (repr, r)
  | S n => let! (b, r) := readByte false r in readExtraBytes n (Z.lor (wrap64 (Z.shiftl repr 8)) b) r
  end.

Definition decodeRecordId (r : BufReader) : result (RecordId * BufReader) :=
  let! (firstByte, r) := readByte false r in
  let numExtraBytes := Z.shiftr firstByte 5 in
  let! (repr, r) := readExtraBytes (Z.to_nat numExtraBytes) (Z.land firstByte 0x1f) r in
  let! (lastByte, r) := readByte false r in
  let! _ := invariant (Z.land lastByte 7 =? numExtraBytes) in
  Ok (kLong (signed64 (Z.lor (wrap64 (Z.shiftl repr 5)) (Z.shiftr lastByte 3))), r).

Definition decodeRecordIdAtEnd (buffer : bytes) : result RecordId :=
  let! _ := invariant (2 <=? blen buffer) in
  let lastByte := match rev buffer with b :: _ => byte_Z b | [] => 0 end in
  let ridSize := 2 + Z.land lastByte 7 in
  let! _ := invariant (ridSize <=? blen buffer) in
  let! (rid, _) := decodeRecordId (drop (Z.to_nat (blen buffer - ridSize)) buffer) in
  Ok rid.

(** ** Facts *)

(** *** String ids *)

Lemma size_byte_eq n k : 0 <= n -> size_byte n k = (n / 128 ^ Z.of_nat k) mod 128.
Proof.
  intros Hn. unfold size_byte. change 0x7f with (2 ^ 7 - 1). rewrite Binary64.land_low, Z.shiftr_div_pow2 by lia.
  rewrite (Z.mul_comm _ 7), Z.pow_mul_r by lia. done.
Qed.

Lemma size_byte_range n k : 0 <= n -> 0 <= size_byte n k < 128.
Proof. intros Hn. rewrite size_byte_eq by done. apply Z.mod_pos_bound. lia. Qed.

Lemma highest_covers n k : 0 <= n -> (1 <= k)%nat -> n < 128 ^ Z.of_nat k -> n < 128 ^ (Z.of_nat (highestSizeByte n k) + 1).
Proof.
  intros Hn Hk Hlt. induction k as [|[|k] IH]; [lia| |].
  - cbn [highestSizeByte]. by destruct (_ =? 0).
  - cbn [highestSizeByte] in *. destruct (Z.eqb_spec (size_byte n (S k)) 0) as [E|E]; [|by replace (Z.of_nat (S k) + 1) with (Z.of_nat (S (S k))) by lia].
    apply IH; [lia|]. rewrite size_byte_eq in E by done. rewrite Nat2Z.inj_succ, Z.pow_succ_r in Hlt by lia.
    assert (0 < 128 ^ Z.of_nat (S k)) by (apply Z.pow_pos_nonneg; lia).
    rewrite Z.mod_small in E; [|split; [apply Z.div_pos; lia|apply Z.div_lt_upper_bound; lia]].
    pose proof (Z.div_mod n (128 ^ Z.of_nat (S k)) ltac:(lia)). pose proof (Z.mod_pos_bound n (128 ^ Z.of_nat (S k)) ltac:(lia)). lia.
Qed.

Lemma highest_below n k : (1 <= k)%nat -> (highestSizeByte n k < k)%nat.
Proof. induction k as [|k IH]; [lia|]. intros _. cbn. destruct (_ =? 0); [|lia]. destruct k; [cbn; lia|]. specialize (IH ltac:(lia)). lia. Qed.

Lemma land_7f x : 0 <= x < 128 -> Z.testbit x 7 = false.
Proof. intros Hx. rewrite Z.testbit_eqb, Z.div_small by lia. done. Qed.

Lemma continued_byte x : 0 <= x < 128 -> Z.lor x 0x80 = x + 128.
Proof. intros Hx. rewrite Z.lor_comm. pose proof (lor_add 1 7 x ltac:(lia) ltac:(lia)) as E. change (Z.shiftl 1 7) with 0x80 in E. lia. Qed.

(** The size bytes, read from the end. *)
Lemma size_bytes_written n r h : forall k, 0 <= n -> (k + h < 4)%nat ->
  size_bytes k (map (fun j => Z_byte (Z.lor (size_byte n j) 0x80)) (rev (seq 1 h)) ++ Z_byte (size_byte n 0) :: r)
    = Ok (map (size_byte n) (rev (seq 0 (S h)))).
Proof.
  induction h as [|h IH]; intros k Hn Hk.
  - pose proof (size_byte_range n 0 Hn). cbn [seq rev map app size_bytes].
    rewrite (proj2 (Nat.ltb_lt k _)) by (unfold kRecordIdStrEncodedSizeMaxBytes; lia). cbn [invariant rbind].
    rewrite byte_Z_byte, Z.mod_small, land_7f by lia. done.
  - rewrite !(seq_S (S h)), (seq_S h 1), !rev_app_distr. cbn [rev app map size_bytes Nat.add].
    pose proof (size_byte_range n (S h) Hn).
    rewrite (proj2 (Nat.ltb_lt k _)) by (unfold kRecordIdStrEncodedSizeMaxBytes; lia). cbn [invariant rbind].
    rewrite continued_byte, byte_Z_byte, Z.mod_small by lia.
    assert (Z.testbit (size_byte n (S h) + 128) 7 = true) as ->.
    { rewrite Z.testbit_eqb by lia. replace (size_byte n (S h) + 128) with (size_byte n (S h) + 1 * 2 ^ 7) by lia.
      by rewrite Z.div_add, Z.div_small by lia. }
    rewrite IH by lia. cbn [rbind]. do 3 f_equal. change 0x7f with (2 ^ 7 - 1). rewrite Binary64.land_low by lia.
    replace (size_byte n (S h) + 128) with (size_byte n (S h) + 1 * 2 ^ 7) by lia. by rewrite Z.mod_add, Z.mod_small by lia.
Qed.

Lemma ridSize_digits n h : 0 <= n -> ridSize (map (size_byte n) (rev (seq 0 h))) = n mod 128 ^ Z.of_nat h.
Proof.
  intros Hn. induction h as [|h IH]; [by rewrite Z.mod_1_r|].
  rewrite seq_S, rev_app_distr. cbn [rev app map ridSize Nat.add]. rewrite IH, length_map, length_rev, length_seq.
  rewrite Z.shiftl_mul_pow2, size_byte_eq by lia. replace (2 ^ (Z.of_nat h * 7)) with (128 ^ Z.of_nat h)
    by (rewrite Z.mul_comm, Z.pow_mul_r by lia; done).
  assert (0 < 128 ^ Z.of_nat h) by (apply Z.pow_pos_nonneg; lia).
  rewrite Nat2Z.inj_succ, Z.pow_succ_r, (Z.mul_comm 128), Z.rem_mul_r by lia. lia.
Qed.

Lemma decode_appended_str key str : 0 < blen str <= kBigStrMaxSize ->
  exists bs, appendRecordIdStr str = Ok bs /\ decodeRecordIdStrAtEnd (key ++ bs) = RecordId_of_str str.
Proof.
  unfold kBigStrMaxSize. intros Hs. unfold appendRecordIdStr, kBigStrMaxSize.
  rewrite (proj2 (Z.ltb_lt 0 _)), (proj2 (Z.leb_le _ _)) by lia. cbn [invariant rbind]. eexists. split; [done|].
  set (n := blen str) in *. unfold encodedSize, kRecordIdStrEncodedSizeMaxBytes.
  pose proof (highest_below n 4 ltac:(lia)) as Hh. pose proof (highest_covers n 4 ltac:(lia) ltac:(lia) ltac:(cbn; lia)) as Hc.
  set (h := highestSizeByte n 4) in *. unfold decodeRecordIdStrAtEnd.
  set (enc := _ :: map _ _). assert (length enc = S h) as El by (unfold enc; cbn; by rewrite length_map, length_seq).
  assert (blen (key ++ str ++ enc) = blen key + n + Z.of_nat (S h)) as Eb by (rewrite !blen_app; unfold blen at 3; lia).
  pose proof (blen_nonneg key). rewrite (proj2 (Z.ltb_lt 0 _)) by lia. cbn [invariant rbind].
  assert (rev (key ++ str ++ enc) = map (fun j => Z_byte (Z.lor (size_byte n j) 0x80)) (rev (seq 1 h)) ++ Z_byte (size_byte n 0) :: rev (key ++ str)) as ->.
  { rewrite app_assoc, rev_app_distr. unfold enc. cbn [rev]. rewrite <- app_assoc, map_rev. done. }
  rewrite size_bytes_written by lia. cbn [rbind]. rewrite ridSize_digits, length_map, length_rev, length_seq by lia.
  rewrite Nat2Z.inj_succ, Z.mod_small by lia. rewrite Eb, (proj2 (Z.leb_le _ _)) by lia. cbn [invariant rbind].
  f_equal. replace (Z.to_nat _) with (length str) by (unfold n, blen; lia).
  replace (Z.to_nat _) with (length key) by (unfold n, blen; lia). by rewrite drop_app_length, take_app_length.
Qed.

(** *** Long ids *)

Lemma extra_bytes v : 0 <= v < 2 ^ 63 ->
  let bits := 64 - countLeadingZeros64 v in
  let e := if bits <=? 10 then 0 else (bits - 10 + 7) / 8 in 0 <= e <= 7 /\ v < 2 ^ (10 + 8 * e).
Proof.
  intros Hv bits e. unfold countLeadingZeros64 in bits.
  assert (0 <= bits <= 63 /\ v < 2 ^ bits) as [Hb Hlt].
  { unfold bits. destruct (Z.eqb_spec v 0) as [->|]; [done|].
    pose proof (Z.log2_nonneg v). assert (Z.log2 v < 63) by (apply Z.log2_lt_pow2; lia).
    split; [lia|]. apply Z.log2_lt_pow2; lia. }
  assert (0 <= e <= 7 /\ bits <= 10 + 8 * e) as [He Hbe].
  { unfold e. destruct (Z.leb_spec bits 10); [lia|]. pose proof (Z.div_mod (bits - 10 + 7) 8 ltac:(lia)).
    pose proof (Z.mod_pos_bound (bits - 10 + 7) 8 ltac:(lia)). lia. }
  split; [done|]. eapply Z.lt_le_trans; [exact Hlt|]. apply Z.pow_le_mono_r; lia.
Qed.

Lemma append_be_cons n z : append_be (S n) z false = append8 (z / 256 ^ Z.of_nat n mod 256) false ++ append_be n z false.
Proof.
  unfold append_be, append8. cbn [flip_if]. unfold appendBigEndian; fold appendBigEndian. cbn [app]. do 2 f_equal.
  rewrite land_255, Z.shiftr_div_pow2, Z.pow_mul_r by lia. done.
Qed.

Lemma readExtraBytes_written n z r : forall repr, 0 <= repr -> repr * 256 ^ Z.of_nat n + z mod 256 ^ Z.of_nat n < 2 ^ 64 ->
  readExtraBytes n repr (append_be n z false ++ r) = Ok (repr * 256 ^ Z.of_nat n + z mod 256 ^ Z.of_nat n, r).
Proof.
  induction n as [|n IH]; intros repr Hr Hlt.
  - cbn [readExtraBytes]. change (256 ^ Z.of_nat 0) with 1. rewrite Z.mod_1_r. do 2 f_equal. lia.
  - rewrite append_be_cons, <- app_assoc. cbn [readExtraBytes]. set (b := z / 256 ^ Z.of_nat n mod 256) in *.
    pose proof (Z.mod_pos_bound (z / 256 ^ Z.of_nat n) 256 ltac:(lia)) as Hb. fold b in Hb.
    rewrite readByte_append by lia. cbn [rbind].
    assert (0 < 256 ^ Z.of_nat n) by (apply Z.pow_pos_nonneg; lia).
    rewrite Nat2Z.inj_succ, Z.pow_succ_r, (Z.mul_comm 256), Z.rem_mul_r in Hlt |- * by lia. fold b in Hlt |- *.
    pose proof (Z.mod_pos_bound z (256 ^ Z.of_nat n) ltac:(lia)).
    assert (wrap64 (Z.shiftl repr 8) = repr * 256) as ->.
    { unfold wrap64. rewrite Z.shiftl_mul_pow2 by lia. apply Z.mod_small. nia. }
    replace (repr * 256) with (Z.shiftl repr 8) by (by rewrite Z.shiftl_mul_pow2 by lia).
    rewrite (lor_add repr 8 b) by lia. rewrite IH by (try nia; lia). do 2 f_equal. ring.
Qed.

Lemma append8_mod a b : a mod 256 = b mod 256 -> append8 a false = append8 b false.
Proof. intros E. unfold append8. cbn [flip_if]. f_equal. apply (inj byte_Z). by rewrite !byte_Z_byte. Qed.

(** The parts of a long id: the count [e] and five bits, [e] bytes, five bits and the count. *)
Definition long_parts (z e : Z) : bytes :=
  append8 (e * 2 ^ 5 + z / 2 ^ (5 + e * 8)) false ++ append_be (Z.to_nat e) (z / 2 ^ 5) false ++
  append8 (z mod 32 * 8 + e) false.

Lemma first_bits z e : 0 <= z < 2 ^ (10 + 8 * e) -> 0 <= e -> 0 <= z / 2 ^ (5 + e * 8) < 2 ^ 5.
Proof.
  intros Hz He. assert (0 < 2 ^ (5 + e * 8)) by (apply Z.pow_pos_nonneg; lia).
  split; [apply Z.div_pos; lia|]. apply Z.div_lt_upper_bound; [lia|]. rewrite <- Z.pow_add_r by lia.
  replace (5 + e * 8 + 5) with (10 + 8 * e) by lia. lia.
Qed.

Lemma appendRecordIdLong_eq z : 0 <= z < 2 ^ 63 ->
  exists e, 0 <= e <= 7 /\ z < 2 ^ (10 + 8 * e) /\ appendRecordIdLong z = Ok (long_parts z e).
Proof.
  intros Hz. destruct (extra_bytes z Hz) as [He Hlt]. unfold appendRecordIdLong.
  set (bits := 64 - countLeadingZeros64 z) in *. set (e := if bits <=? 10 then 0 else (bits - 10 + 7) / 8) in *.
  exists e. split_and!; [lia..|]. rewrite (proj2 (Z.ltb_ge z 0)) by lia. cbn [rbind]. fold bits e.
  pose proof (first_bits z e ltac:(lia) ltac:(lia)). unfold long_parts.
  rewrite !Z.shiftr_div_pow2, lor_add, lor_add by lia. do 3 f_equal. apply append8_mod.
  pose proof (Z.div_mod z 32 ltac:(lia)) as Hd. pose proof (Z.mod_pos_bound z 32 ltac:(lia)).
  replace (z * 2 ^ 3 + e) with (z mod 32 * 8 + e + z / 32 * 256) by lia. by rewrite Z.mod_add by lia.
Qed.

Lemma last_bits z e : 0 <= e <= 7 ->
  0 <= z mod 32 * 8 + e < 256 /\ Z.land (z mod 32 * 8 + e) 7 = e /\ Z.shiftr (z mod 32 * 8 + e) 3 = z mod 32.
Proof.
  intros He. pose proof (Z.mod_pos_bound z 32 ltac:(lia)). split; [lia|]. change 7 with (2 ^ 3 - 1). change 8 with (2 ^ 3).
  rewrite Binary64.land_low, Z.shiftr_div_pow2 by lia. split.
  - rewrite Z.add_comm, Z.mod_add, Z.mod_small by lia. done.
  - rewrite Z.div_add_l, Z.div_small by lia. lia.
Qed.

Lemma decodeRecordId_parts z e r : 0 <= z < 2 ^ 63 -> 0 <= e <= 7 -> z < 2 ^ (10 + 8 * e) ->
  decodeRecordId (long_parts z e ++ r) = Ok (kLong z, r).
Proof.
  intros Hz He Hlt. destruct (last_bits z e He) as (Hl & El7 & El3). pose proof (first_bits z e ltac:(lia) ltac:(lia)) as Hf.
  unfold long_parts, decodeRecordId. rewrite <- !app_assoc, readByte_append by lia. cbn [rbind].
  assert (Z.shiftr (e * 2 ^ 5 + z / 2 ^ (5 + e * 8)) 5 = e) as ->.
  { rewrite Z.shiftr_div_pow2 by lia. rewrite Z.div_add_l, (Z.div_small (z / _)) by lia. lia. }
  assert (Z.land (e * 2 ^ 5 + z / 2 ^ (5 + e * 8)) 0x1f = z / 2 ^ (5 + e * 8)) as ->.
  { change 0x1f with (2 ^ 5 - 1). rewrite Binary64.land_low by lia. rewrite Z.add_comm, Z.mod_add, Z.mod_small by lia. done. }
  assert (z / 2 ^ (5 + e * 8) * 256 ^ e + (z / 2 ^ 5) mod 256 ^ e = z / 2 ^ 5) as Emid.
  { assert (256 ^ e = 2 ^ (e * 8)) as -> by (rewrite Z.mul_comm, Z.pow_mul_r by lia; done).
    rewrite Z.pow_add_r, <- Z.div_div by (try apply Z.pow_nonzero; try apply Z.pow_pos_nonneg; lia).
    rewrite Z.mul_comm. symmetry. apply Z.div_mod. apply Z.pow_nonzero; lia. }
  assert (0 <= z / 2 ^ 5 < 2 ^ 58) by (split; [apply Z.div_pos; lia|apply Z.div_lt_upper_bound; lia]).
  rewrite readExtraBytes_written by (rewrite ?Z2Nat.id by lia; lia). rewrite Z2Nat.id, Emid by lia. cbn [rbind].
  rewrite readByte_append by lia. cbn [rbind]. rewrite El7, Z.eqb_refl, El3. cbn [invariant rbind]. do 3 f_equal.
  rewrite wrap_shiftl by lia. pose proof (Z.mod_pos_bound z 32 ltac:(lia)).
  rewrite <- (Z.shiftl_mul_pow2 (z / 2 ^ 5)), lor_add by lia. unfold signed64. pose proof (Z.div_mod z 32 ltac:(lia)).
  change (2 ^ 5) with 32. rewrite (proj2 (Z.ltb_lt _ _)) by lia. lia.
Qed.

Lemma decode_appended_long key z : 0 <= z < 2 ^ 63 ->
  exists bs, appendRecordIdLong z = Ok bs /\ decodeRecordIdAtEnd (key ++ bs) = Ok (kLong z).
Proof.
  intros Hz. destruct (appendRecordIdLong_eq z Hz) as (e & He & Hlt & ->). eexists. split; [done|].
  destruct (last_bits z e He) as (Hl & El7 & _). unfold decodeRecordIdAtEnd.
  assert (blen (long_parts z e) = 2 + e) as Ep.
  { unfold long_parts, append_be. cbn [flip_if]. unfold blen. rewrite !length_app, !length_append8, length_appendBigEndian. lia. }
  pose proof (blen_nonneg key). rewrite blen_app, Ep, (proj2 (Z.leb_le 2 _)) by lia. cbn [invariant rbind].
  assert (exists bs, rev (key ++ long_parts z e) = Z_byte (z mod 32 * 8 + e) :: bs) as [bs ->].
  { unfold long_parts. rewrite !app_assoc, rev_app_distr. by eexists. }
  rewrite byte_Z_byte, Z.mod_small, El7, (proj2 (Z.leb_le (2 + e) _)) by lia. cbn [invariant rbind].
  replace (Z.to_nat (blen key + (2 + e) - (2 + e))) with (length key) by (unfold blen; lia).
  rewrite drop_app_length, <- (app_nil_r (long_parts z e)), decodeRecordId_parts by lia. done.
Qed.

(** *** Ids and entries *)

(** The ids that can be stored. *)
Definition valid_id (r : RecordId) : Prop :=
  match r with
  | kNull => False
  | kLong z => 0 <= z < 2 ^ 63
  | kSmallStr s => 0 < blen s <= kSmallStrMaxSize
  | kBigStr s => kSmallStrMaxSize < blen s <= kBigStrMaxSize
  end.

Lemma RecordId_of_str_spec data :
  match RecordId_of_str data with
  | Ok r => 0 < blen data <= kBigStrMaxSize /\ valid_id r /\ isStr r = true /\ getStringView r = Ok data
  | Err e => e = InvariantFailure /\ ~ 0 < blen data <= kBigStrMaxSize
  end.
Proof.
  unfold RecordId_of_str, kSmallStrMaxSize, kBigStrMaxSize. destruct (Z.ltb_spec 0 (blen data)); [|cbn; split; [done|lia]].
  cbn [invariant rbind]. destruct (Z.leb_spec (blen data) 22) as [Hs|Hs]; [|destruct (Z.leb_spec (blen data) (8 * 1024 * 1024)) as [Hb|Hb]].
  - cbn [valid_id isStr getStringView]. unfold getSmallStrNoCheck, kSmallStrMaxSize.
    rewrite (proj2 (Z.ltb_lt _ _)), (proj2 (Z.leb_le _ _)) by lia. split_and!; done || lia.
  - cbn [valid_id isStr getStringView]. unfold getBigStrNoCheck, kSmallStrMaxSize, kBigStrMaxSize.
    rewrite (proj2 (Z.ltb_lt _ _)), (proj2 (Z.leb_le _ _)) by lia. split_and!; done || lia.
  - split; [done|lia].
Qed.

Lemma valid_str r : valid_id r -> isStr r = true ->
  exists s, getStringView r = Ok s /\ 0 < blen s <= kBigStrMaxSize /\ RecordId_of_str s = Ok r /\ appendRecordId r = appendRecordIdStr s.
Proof.
  unfold valid_id, RecordId_of_str, kSmallStrMaxSize, kBigStrMaxSize. destruct r as [|z|s|s]; intros Hv Hs; try done;
    cbn [getStringView appendRecordId]; unfold getSmallStrNoCheck, getBigStrNoCheck, kSmallStrMaxSize, kBigStrMaxSize; exists s.
  - rewrite !(proj2 (Z.ltb_lt _ _)), !(proj2 (Z.leb_le _ _)) by lia. split_and!; done || lia.
  - rewrite (proj2 (Z.ltb_lt 22 _)), (proj2 (Z.ltb_lt 0 _)), (proj2 (Z.leb_gt _ 22)), (proj2 (Z.leb_le _ (8 * _ * _))) by lia.
    split_and!; done || lia.
Qed.

(** An entry of a secondary index holds its values and its record id, and both come back: from
    the bytes of [KeyString(obj, ordering, recordId)] the decoder reads the values, and the record id
    is found from the end, a long one by its count and a string one by its size, up to 8 MB. *)
Theorem index_entry_round_trip L obj descending rid :
  key_fields obj -> descending (nFields obj) = false -> valid_id rid ->
  exists key, resetToEntry L obj descending rid = Ok key /\
    toBsonCanonical L descending key = Ok (map (fun e => ([], canonical e.2)) obj) /\
    (if isLong rid then decodeRecordIdAtEnd key else decodeRecordIdStrAtEnd key) = Ok rid.
Proof.
  intros Hw Hd Hv. destruct (key_read L obj descending Hw Hd) as (key & Ek & Hr). unfold resetToEntry.
  unfold resetToKey in Ek. rewrite Ek. cbn [rbind]. destruct (isStr rid) eqn:Es.
  - destruct (valid_str rid Hv Es) as (s & _ & Hs & Eof & ->).
    destruct (decode_appended_str key s Hs) as (bs & -> & Ed). cbn [rbind]. exists (key ++ bs).
    split_and!; [done|apply Hr|]. rewrite Ed, Eof. by destruct rid.
  - destruct rid as [|z|s|s]; try done. cbn [valid_id appendRecordId isLong] in *.
    destruct (decode_appended_long key z Hv) as (bs & -> & Ed). cbn [rbind]. exists (key ++ bs). split_and!; [done|apply Hr|done].
Qed.

(** A descending field, and an id of 23 bytes. *)
Definition ex_entry_id : RecordId := kBigStr (repeat Byte.x41 23).

Lemma index_entry_round_trip_witness :
  exists key, resetToEntry ref_library ex_key_a (fun i => i =? 0) ex_entry_id = Ok key /\
    decodeRecordIdStrAtEnd key = Ok ex_entry_id.
Proof.
  destruct (index_entry_round_trip ref_library ex_key_a (fun i => i =? 0) ex_entry_id) as (key & E & _ & H).
  - apply ex_key_fields.
  - reflexivity.
  - split; [reflexivity|discriminate].
  - exists key. split; [exact E|exact H].
Defined.

(** What is read from the end of a buffer. *)
Lemma size_bytes_length k buffer sizes : size_bytes k buffer = Ok sizes -> (1 <= length sizes <= 4 - k)%nat.
Proof.
  revert k sizes. induction buffer as [|b buffer IH]; intros k sizes; cbn [size_bytes]; [done|].
  destruct (Nat.ltb_spec k kRecordIdStrEncodedSizeMaxBytes) as [Hk|]; [|done]. unfold kRecordIdStrEncodedSizeMaxBytes in Hk.
  cbn [invariant rbind]. destruct (Z.testbit _ 7); [|intros [= <-]; cbn; lia].
  destruct (size_bytes (S k) buffer) as [rest|] eqn:E; [|done]. cbn [rbind]. intros [= <-]. apply IH in E. cbn [length]. lia.
Qed.

Lemma ridSize_nonneg k buffer sizes : size_bytes k buffer = Ok sizes -> 0 <= ridSize sizes.
Proof.
  revert k sizes. induction buffer as [|b buffer IH]; intros k sizes; cbn [size_bytes]; [done|].
  destruct (k <? _)%nat; [|done]. cbn [invariant rbind]. pose proof (byte_Z_range b).
  destruct (Z.testbit _ 7).
  - destruct (size_bytes (S k) buffer) as [rest|] eqn:E; [|done]. cbn [rbind]. intros [= <-]. cbn [ridSize]. apply IH in E.
    assert (0 <= Z.land (byte_Z b) 127) by (apply Z.land_nonneg; lia).
    assert (0 <= Z.shiftl (Z.land (byte_Z b) 127) (Z.of_nat (length rest) * 7)) by (apply Z.shiftl_nonneg; lia). lia.
  - intros [= <-]. cbn [ridSize length]. change (Z.of_nat 0 * 7) with 0. rewrite Z.shiftl_0_r. lia.
Qed.

