(* ===== verification/MongoKey.v ===== *)
(** * Keys of the store (base/eloq_key.{h,cpp})

    A [MongoKey] is the packed key the transaction service orders and logs records by: the bytes of
    a KeyString, or of a record id. The two infinities are objects of their own, told by address. *)

From S2P Require Import Prelude Bytes Bson RawBson BsonBuilder Doubles Decimals KeyDecoder KeyString KeyRoundTrip RecordId.
Import KeyDecoder.Key.
#[local] Open Scope Z_scope.

Module MongoKey.

(** The object [NegativeInfinity()] points to, the one [PositiveInfinity()] points to, or another. *)
Inductive t :=
| neg_inf
| pos_inf
| key (packed_key : bytes).

Inductive KeyType := NegativeInf | PositiveInf | Normal.

(** The infinities' own packed keys are empty. *)
Definition packed_key (k : t) : bytes := match k with key s => s | _ => [] end.

Definition Type_ (k : t) : KeyType :=
  match k with neg_inf => NegativeInf | pos_inf => PositiveInf | key _ => Normal end.

(** The constructors. The [assert(false)] on long ids, which the engine never makes, is not part of
    a release build. *)
Definition of_KeyString (ks : bytes) : t := key ks.
Definition of_RecordId (rid : RecordId) : result t :=
  if isLong rid then let! native := getLong rid in Ok (key (appendBigEndian (wrap64 native) 8))
  else let! s := getStringView rid in Ok (key s).
Definition SetPackedKey (rid : RecordId) : result t :=
  let! _ := invariant (negb (isLong rid)) in
  let! s := getStringView rid in Ok (key s).
Definition ToRecordId (k : t) (is_long : bool) : result RecordId :=
  if is_long then
    let! _ := invariant (blen (packed_key k) =? 8) in
    Ok (kLong (signed64 (readBigEndian (packed_key k))))
  else RecordId_of_str (packed_key k).

Definition PackedNegativeInfinity : t := key [Byte.x00].
Definition PackedPositiveInfinity : t := key (repeat Byte.xff 127).

(** [operator==]. *)
Definition eqb (lhs rhs : t) : bool :=
  match lhs, rhs with
  | neg_inf, neg_inf | pos_inf, pos_inf => true
  | key s, key s' => bytes_eqb s s'
  | _, _ => false
  end.

(** [operator<], in the order of its tests. *)
Definition ltb (lhs rhs : t) : bool :=
  match lhs with
  | neg_inf => match rhs with neg_inf => false | _ => true end
  | pos_inf => false
  | key s =>
      match rhs with
      | neg_inf => false
      | pos_inf => true
      | key s' => bytes_ltb s s'
      end
  end.

(** [operator<=]. *)
Definition leb (lhs rhs : t) : bool := negb (ltb rhs lhs).

(** [static_cast<uint16_t>]. *)
Definition wrap16 (z : Z) : Z := z mod 2 ^ 16.

(** [Serialize(std::vector<char>&, size_t&)]: the buffer is resized to end with the key; the offset
    moves by the length as written. *)
Definition Serialize_at (k : t) (buf : bytes) (offset : nat) : bytes * nat :=
  let len := wrap16 (blen (packed_key k)) in
  let buf := take offset (buf ++ repeat Byte.x00 (offset - length buf)) in
  (buf ++ native len 2 ++ packed_key k, (offset + 2 + Z.to_nat len)%nat).

(** [Serialize(std::string&)]: appended. *)
Definition Serialize (k : t) (str : bytes) : bytes :=
  let len := wrap16 (blen (packed_key k)) in
  str ++ native len 2 ++ take (Z.to_nat len) (packed_key k).

Definition SerializedLength (k : t) : Z := 2 + blen (packed_key k).

(** [Deserialize]: the key at the offset, and the offset after it. *)
Definition Deserialize (buf : bytes) (offset : nat) : t * nat :=
  let len := readNativeBytes (take 2 (drop offset buf)) in
  (key (take (Z.to_nat len) (drop (offset + 2) buf)), (offset + 2 + Z.to_nat len)%nat).

(** [PosInInterval]: before, within or after, as 0, 1/2 and 1; here in halves. *)
Definition PosInInterval (k min_key max_key : t) : Z :=
  if leb k min_key then 0 else if leb max_key k then 2 else 1.

(** ** Facts *)

Lemma bytes_ltb_irrefl s : bytes_ltb s s = false.
Proof. unfold bytes_ltb. by rewrite bytes_compare_refl. Qed.

Lemma bytes_total s s' : bytes_ltb s s' = false -> bytes_ltb s' s = false -> s = s'.
Proof.
  unfold bytes_ltb. rewrite (bytes_compare_antisym s s'). destruct (bytes_compare s s') eqn:E; try done.
  intros _ _. by apply bytes_compare_eq.
Qed.

(** The order of the store: [operator<] is a strict total order of the keys for which
    [operator==] is equality and [operator<=] less or equal, with the negative infinity
    below every key and the positive one above, and packed keys between them by their bytes. *)
Theorem key_order (a b c : t) :
  ltb a a = false /\ (ltb a b = true -> ltb b c = true -> ltb a c = true) /\
  (eqb a b = true <-> a = b) /\ (ltb a b = true \/ a = b \/ ltb b a = true) /\
  (leb a b = true <-> ltb a b = true \/ a = b) /\
  leb neg_inf a = true /\ leb a pos_inf = true /\ (forall s s', ltb (key s) (key s') = true <-> bytes_lt s s').
Proof.
  assert (ltb a b = true \/ a = b \/ ltb b a = true) as Ht.
  { destruct a as [| |s], b as [| |s']; cbn; auto.
    destruct (bytes_ltb s s') eqn:E1; [by left|right]. destruct (bytes_ltb s' s) eqn:E2; [by right|left]. f_equal. by apply bytes_total. }
  assert (ltb a a = false) as Hi by (destruct a; cbn; [done..|apply bytes_ltb_irrefl]).
  split_and!; try done.
  - destruct a as [| |s], b as [| |s'], c as [| |s'']; cbn; try done. apply bytes_lt_trans.
  - destruct a as [| |s], b as [| |s']; cbn; try by split. rewrite bytes_eqb_eq. split; [by intros ->|by intros [= ->]].
  - unfold leb. rewrite negb_true_iff. split.
    + intros H. destruct Ht as [?|[?|H']]; [by left|by right|congruence].
    + intros [H| ->]; [|done]. destruct a as [| |s], b as [| |s']; cbn in *; try done. by apply bytes_lt_asym.
  - by destruct a.
Qed.

(** A key that fits the length is read back where it was written. *)
Lemma serialize_fits k str : blen (packed_key k) < 2 ^ 16 ->
  Serialize k str = str ++ native (blen (packed_key k)) 2 ++ packed_key k /\
  Deserialize (Serialize k str) (length str) = (key (packed_key k), length (Serialize k str)).
Proof.
  intros Hl. pose proof (blen_nonneg (packed_key k)). unfold Serialize, wrap16. rewrite Z.mod_small by lia.
  assert (Z.to_nat (blen (packed_key k)) = length (packed_key k)) as En by (unfold blen; lia).
  rewrite En, take_ge by lia. split; [done|]. unfold Deserialize. rewrite drop_app_length.
  rewrite take_app_length' by by rewrite length_native. rewrite readNative_native, Z.mod_small by (cbn; lia).
  rewrite <- drop_drop, drop_app_length, drop_app_length' by by rewrite length_native.
  rewrite En, take_ge by lia. f_equal. rewrite !length_app, length_native. lia.
Qed.



(** A longer key is not: its length is written modulo 65536, and what is read back is cut short. *)
Lemma long_key_truncated s : 2 ^ 16 <= blen s ->
  fst (Deserialize (Serialize (key s) []) 0) <> key s /\
  (snd (Serialize_at (key s) [] 0) < length (fst (Serialize_at (key s) [] 0)))%nat.
Proof.
  intros Hs. unfold Serialize, Serialize_at, Deserialize, wrap16. cbn [packed_key app fst snd].
  pose proof (Z.mod_pos_bound (blen s) (2 ^ 16) ltac:(lia)) as Hm. set (len := blen s mod 2 ^ 16) in *.
  rewrite drop_0, take_app_length' by by rewrite length_native. rewrite readNative_native, Z.mod_small by (cbn; lia). split.
  - intros [= H]. apply (f_equal length) in H. rewrite length_take in H. unfold blen in *. lia.
  - rewrite !length_app, length_native. cbn [length Nat.sub repeat take app]. unfold blen in *. lia.
Qed.

End MongoKey.
