(* ===== verification/TypeBits.v ===== *)
(** * Type bits (KeyString::TypeBits of db/storage/key_string.{h,cpp})

    What a key leaves out of its bytes so that 1 and 1.0 compare equal: which type each number and
    string had, as bits beside the key. A stream of bits is appended one at a time, stored in one of
    three formats, and read back one at a time. Version V1. *)

From S2P Require Import Prelude Bytes Bson RawBson BsonBuilder Doubles Decimals KeyDecoder KeyString KeyRoundTrip.
Import KeyDecoder.Key.
#[local] Open Scope Z_scope.

Module TypeBits.

Definition kMaxBytesNeeded : Z := 127.
Definition kStoredDecimalExponentBits : nat := 6.
Definition kStoredDecimalExponentMask : Z := 2 ^ 6 - 1.

Definition kString : Z := 0x0.
Definition kSymbol : Z := 0x1.
Definition kInt : Z := 0x0.
Definition kLong : Z := 0x1.
Definition kDouble : Z := 0x2.
Definition kDecimal : Z := 0x3.
Definition kSpecialZeroPrefix : Z := 0x3.
Definition kNegativeDoubleZero : Z := 0x3.
Definition kV1NegativeDoubleZero : Z := 0x18.
Definition kDecimalZero0xxx : Z := 0x1a.
Definition kDecimalZero5xxx : Z := 0x1f.

(** [_curBit], [_isAllZeros], the size byte without its high bit, and the data bytes. *)
Record t := mk {
  curBit : Z;
  isAllZeros : bool;
  sizeByte : Z;
  buf : list Z;
}.

Definition reset : t := mk 0 true 0 [0].

Definition byte_at (buf : list Z) (i : Z) : Z := default 0 (buf !! Z.to_nat (i - 1)).
Definition set_byte (buf : list Z) (i v : Z) : list Z := take (Z.to_nat (i - 1)) buf ++ v :: drop (Z.to_nat i) buf.

(** ** Appending *)

Definition appendBit (oneOrZero : Z) (tb : t) : result t :=
  let isAllZeros := if oneOrZero =? 1 then false else isAllZeros tb in
  let byte := (curBit tb / 8 + 1) mod 256 in
  let offsetInByte := curBit tb mod 8 in
  if offsetInByte =? 0 then
    let! _ := uassert KeyTooLong (byte <? kMaxBytesNeeded) in
    Ok (mk (curBit tb + 1) isAllZeros byte (set_byte (buf tb) byte oneOrZero))
  else
    Ok (mk (curBit tb + 1) isAllZeros (sizeByte tb)
           (set_byte (buf tb) byte (Z.lor (byte_at (buf tb) byte) (Z.shiftl oneOrZero offsetInByte)))).

(** The bits of [value] below [n], the highest first. *)
Fixpoint appendBits (n : nat) (value : Z) (tb : t) : result t :=
  match n with
  | O => Ok tb
  | S n => let! tb := appendBit (Z.land (Z.shiftr value (Z.of_nat n)) 1) tb in appendBits n value tb
  end.

(** [appendNumberInt], [appendNumberLong], [appendNumberDouble] and [appendNumberDecimal]. *)
Definition appendNumeric (type : Z) (tb : t) : result t := appendBits 2 type tb.

Definition appendZero (zeroType : Z) (tb : t) : result t :=
  if zeroType <=? kDouble then appendBits 2 zeroType tb
  else if zeroType =? kNegativeDoubleZero then appendBits 5 kV1NegativeDoubleZero tb
  else
    let! _ := invariant ((kDecimalZero0xxx <=? zeroType) && (zeroType <=? kDecimalZero5xxx)) in
    appendBits 5 zeroType tb.

Definition appendDecimalZero (whichZero : Z) (tb : t) : result t :=
  let! _ := invariant (Z.shiftr whichZero 12 <=? kDecimalZero5xxx - kDecimalZero0xxx) in
  let! tb := appendZero (Z.shiftr whichZero 12 + kDecimalZero0xxx) tb in
  appendBits 12 whichZero tb.

Definition appendDecimalExponent (storedExponentBits : Z) (tb : t) : result t :=
  let! _ := invariant (storedExponentBits <? 2 ^ 6) in
  appendBits kStoredDecimalExponentBits storedExponentBits tb.

(** ** Storing *)

Definition getSize (tb : t) : Z :=
  if isAllZeros tb then 1
  else if (sizeByte tb =? 1) && negb (Z.testbit (byte_at (buf tb) 1) 7) then 1
  else sizeByte tb + 1.

(** [getBuffer], [getSize] bytes of it. *)
Definition getBuffer (tb : t) : bytes :=
  if getSize tb =? 1 then [Z_byte (byte_at (buf tb) 1)]
  else Z_byte (Z.lor 0x80 (sizeByte tb)) :: map Z_byte (take (Z.to_nat (sizeByte tb)) (buf tb)).

Definition resetFromBuffer (tb : t) (r : BufReader) : result (t * BufReader) :=
  match r with
  | [] => Ok (reset, r)
  | _ =>
      let! (firstByte, r) := readByte false r in
      if negb (Z.land firstByte 0x80 =? 0) then
        let remainingBytes := Z.land firstByte 0x7f in
        let! (data, r) := skip remainingBytes r in
        Ok (mk (curBit tb) false remainingBytes (map byte_Z data ++ drop (length data) (buf tb)), r)
      else if firstByte =? 0 then Ok (reset, r)
      else Ok (mk (curBit tb) false 1 (set_byte (buf tb) 1 firstByte), r)
  end.

(** ** Reading

    A [Reader]: the type bits and its [_curBit]. *)

Definition readBit (tb : t) (cur : Z) : result (Z * Z) :=
  if isAllZeros tb then Ok (0, cur)
  else
    let byte := (cur / 8 + 1) mod 256 in
    let offsetInByte := cur mod 8 in
    let! _ := uassert (Location 50615) (byte <=? sizeByte tb) in
    Ok (if Z.land (byte_at (buf tb) byte) (Z.shiftl 1 offsetInByte) =? 0 then 0 else 1, cur + 1).

(** [res = (res << 1) | readBit()], [n] times. *)
Fixpoint readBits (n : nat) (tb : t) (res cur : Z) : result (Z * Z) :=
  match n with
  | O => Ok (res, cur)
  | S n => let! (b, cur) := readBit tb cur in readBits n tb (Z.lor (Z.shiftl res 1) b) cur
  end.

Definition readStringLike (tb : t) (cur : Z) : result (Z * Z) := readBit tb cur.
Definition readNumeric (tb : t) (cur : Z) : result (Z * Z) := readBits 2 tb 0 cur.

Definition readZero (tb : t) (cur : Z) : result (Z * Z) :=
  let! (res, cur) := readNumeric tb cur in
  let! (res, cur) := if res =? kSpecialZeroPrefix then readBits 3 tb res cur else Ok (res, cur) in
  Ok (if res =? kV1NegativeDoubleZero then kNegativeDoubleZero else res, cur).

Definition readDecimalZero (zeroType : Z) (tb : t) (cur : Z) : result (Z * Z) :=
  let! (whichZero, cur) := readBits 12 tb (wrap32 (zeroType - kDecimalZero0xxx)) cur in Ok (wrap32 whichZero, cur).

Definition readDecimalExponent (tb : t) (cur : Z) : result (Z * Z) := readBits kStoredDecimalExponentBits tb 0 cur.

(** ** The bits appended are the bits read *)

(** The type bits after [bs] were appended. *)
Record holds (tb : t) (bs : list bool) : Prop := {
  h_curBit : curBit tb = Z.of_nat (length bs);
  h_fits : (length bs <= 1008)%nat;
  h_zeros : isAllZeros tb = forallb negb bs;
  h_size : sizeByte tb = (Z.of_nat (length bs) + 7) / 8;
  h_length : Z.of_nat (length (buf tb)) = Z.max 1 (sizeByte tb);
  h_bytes : Forall (fun b => 0 <= b < 256) (buf tb);
  h_bits : forall i, 0 <= i -> Z.testbit (byte_at (buf tb) (i / 8 + 1)) (i mod 8) = default false (bs !! Z.to_nat i);
}.

Lemma reset_holds : holds reset [].
Proof.
  split; try done; try (cbn; lia); [by repeat constructor|]. intros i Hi. rewrite lookup_nil. unfold byte_at. cbn [buf reset].
  destruct (Z.to_nat (i / 8 + 1 - 1)); cbn; apply Z.bits_0.
Qed.

Lemma byte_at_set l i j v : 1 <= i <= Z.of_nat (length l) + 1 -> 1 <= j ->
  byte_at (set_byte l i v) j = if j =? i then v else byte_at l j.
Proof.
  intros Hi Hj. unfold byte_at, set_byte. destruct (Z.eqb_spec j i) as [->|Hne].
  - rewrite lookup_app_r by (rewrite length_take; lia). rewrite length_take.
    replace (Z.to_nat (i - 1) - _)%nat with 0%nat by lia. done.
  - destruct (decide (j < i)).
    + rewrite lookup_app_l by (rewrite length_take; lia). by rewrite lookup_take_lt by lia.
    + rewrite lookup_app_r, length_take by (rewrite length_take; lia).
      replace (Z.to_nat (j - 1) - Z.to_nat (i - 1) `min` length l)%nat with (S (Z.to_nat (j - 1) - Z.to_nat i)) by lia.
      assert (forall (x : Z) l k, (x :: l) !! S k = l !! k) as -> by done. rewrite lookup_drop. do 2 f_equal. lia.
Qed.

Lemma length_set_byte l i v : 1 <= i <= Z.of_nat (length l) + 1 -> Z.of_nat (length (set_byte l i v)) = Z.max i (Z.of_nat (length l)).
Proof. intros Hi. unfold set_byte. rewrite length_app, length_take. cbn [length]. rewrite length_drop. lia. Qed.

Lemma lookup_snoc (bs : list bool) b i : default false ((bs ++ [b]) !! i) = if decide (i = length bs) then b else default false (bs !! i).
Proof.
  destruct (decide (i = length bs)) as [->|]; [by rewrite lookup_app_r, Nat.sub_diag by lia|].
  destruct (decide (i < length bs)%nat); [by rewrite lookup_app_l|].
  rewrite (lookup_ge_None_2 (bs ++ [b])) by (rewrite length_app; cbn; lia). by rewrite lookup_ge_None_2 by lia.
Qed.

Lemma testbit_b2z b k : 0 <= k -> Z.testbit (Z.b2z b) k = (if k =? 0 then b else false).
Proof.
  intros Hk. destruct (Z.eqb_spec k 0) as [->|]; [apply Z.b2z_bit0|]. destruct b; [|apply Z.bits_0].
  apply (Z.pow2_bits_false 0). lia.
Qed.

Lemma forallb_snoc bs b : forallb negb (bs ++ [b]) = forallb negb bs && negb b.
Proof. rewrite forallb_app. cbn. by rewrite andb_true_r. Qed.

(** One more bit: a byte with it, in the place of the last one or after it. *)
Lemma holds_snoc tb bs b v : holds tb bs -> (length bs < 1008)%nat -> 0 <= v < 256 ->
  let n := Z.of_nat (length bs) in
  (forall k, 0 <= k < 8 -> Z.testbit v k = if k =? n mod 8 then b else (if n mod 8 =? 0 then false else Z.testbit (byte_at (buf tb) (n / 8 + 1)) k)) ->
  holds (mk (n + 1) (forallb negb (bs ++ [b])) (n / 8 + 1) (set_byte (buf tb) (n / 8 + 1) v)) (bs ++ [b]).
Proof.
  intros [Hc Hf Hz Hs Hl Hb Hbits] Hlt Hv n Hvb. assert (0 <= n) as Hn by lia. fold n in Hs.
  pose proof (Z.div_mod n 8 ltac:(lia)) as Hdm. pose proof (Z.mod_pos_bound n 8 ltac:(lia)) as Hm.
  assert ((n + 8) / 8 = n / 8 + 1) as E8 by (symmetry; apply (Z.div_unique _ _ _ (n mod 8)); lia).
  assert (n / 8 <= sizeByte tb <= n / 8 + 1) by (rewrite Hs, <- E8; split; apply Z.div_le_mono; lia).
  split; cbn [curBit isAllZeros sizeByte buf]; rewrite ?length_app; cbn [length]; try done; try lia.
  - rewrite <- E8. f_equal. lia.
  - rewrite length_set_byte by lia. lia.
  - unfold set_byte. apply Forall_app. split; [by apply Forall_take|]. constructor; [lia|by apply Forall_drop].
  - intros i Hi. assert (0 <= i / 8) by (apply Z.div_pos; lia). pose proof (Z.mod_pos_bound i 8 ltac:(lia)).
    pose proof (Z.div_mod i 8 ltac:(lia)). rewrite byte_at_set by lia. rewrite lookup_snoc.
    destruct (Z.eqb_spec (i / 8 + 1) (n / 8 + 1)) as [Ei|Ei]; cycle 1.
    { rewrite decide_False, Hbits by (done || intros E; apply Ei; do 2 f_equal; lia). done. }
    rewrite Hvb by lia. destruct (Z.eqb_spec (i mod 8) (n mod 8)) as [Em|Em]; [by rewrite decide_True by lia|].
    rewrite decide_False by lia. destruct (Z.eqb_spec (n mod 8) 0); [by rewrite lookup_ge_None_2 by lia|].
    replace (n / 8 + 1) with (i / 8 + 1) by lia. by apply Hbits.
Qed.

Lemma lor_bit_byte x b k : 0 <= x < 256 -> 0 <= k < 8 -> 0 <= Z.lor x (Z.shiftl (Z.b2z b) k) < 256.
Proof.
  intros Hx Hk. assert (0 <= Z.shiftl (Z.b2z b) k < 2 ^ 8) as Hs.
  { rewrite Z.shiftl_mul_pow2 by lia. assert (2 ^ k <= 2 ^ 7) by (apply Z.pow_le_mono_r; lia).
    assert (0 < 2 ^ k) by (apply Z.pow_pos_nonneg; lia). destruct b; cbn [Z.b2z]; nia. }
  change 256 with (2 ^ 8) in *. rewrite <- (Z.mod_small x (2 ^ 8)), <- (Z.mod_small (Z.shiftl _ _) (2 ^ 8)) by lia.
  rewrite <- !Z.land_ones, <- Z.land_lor_distr_l, Z.land_ones by lia. apply Z.mod_pos_bound. lia.
Qed.

Lemma byte_at_range tb bs i : holds tb bs -> 0 <= byte_at (buf tb) i < 256.
Proof.
  intros H. unfold byte_at. destruct (buf tb !! _) as [x|] eqn:Ex; cbn; [|lia]. exact (Forall_lookup_1 _ _ _ _ (h_bytes _ _ H) Ex).
Qed.

Lemma appendBit_holds b tb bs : holds tb bs ->
  if decide (length bs < 1008)%nat then exists tb', appendBit (Z.b2z b) tb = Ok tb' /\ holds tb' (bs ++ [b])
  else appendBit (Z.b2z b) tb = Err KeyTooLong.
Proof.
  intros H. pose proof (h_curBit _ _ H) as Hc. pose proof (h_fits _ _ H). pose proof (h_size _ _ H) as Hs.
  pose proof (byte_at_range tb bs (Z.of_nat (length bs) / 8 + 1) H) as Hr.
  set (n := Z.of_nat (length bs)) in *. assert (0 <= n <= 1008) as Hn by lia.
  pose proof (Z.div_mod n 8 ltac:(lia)). pose proof (Z.mod_pos_bound n 8 ltac:(lia)).
  assert ((n / 8 + 1) mod 256 = n / 8 + 1) as Eb by (apply Z.mod_small; lia).
  assert ((if Z.b2z b =? 1 then false else isAllZeros tb) = forallb negb (bs ++ [b])) as Ez.
  { rewrite forallb_snoc, (h_zeros _ _ H). destruct b; cbn; [by rewrite andb_false_r|by rewrite andb_true_r]. }
  unfold appendBit. rewrite Ez, Hc, Eb. unfold kMaxBytesNeeded. destruct (Z.eqb_spec (n mod 8) 0) as [E0|E0].
  - destruct (decide (length bs < 1008)%nat); [|by assert (n = 1008) as -> by lia].
    rewrite (proj2 (Z.ltb_lt (n / 8 + 1) 127)) by lia. cbn [uassert rbind]. eexists. split; [done|].
    apply holds_snoc; [done|done|by destruct b|]. intros k Hk. fold n. by rewrite testbit_b2z, E0 by lia.
  - rewrite decide_True by lia. eexists. split; [done|].
    assert (sizeByte tb = n / 8 + 1) as -> by (rewrite Hs; symmetry; apply (Z.div_unique _ _ _ (n mod 8 - 1)); lia).
    apply holds_snoc; [done|lia|apply lor_bit_byte; lia|]. intros k Hk. fold n. rewrite (proj2 (Z.eqb_neq _ 0) E0), Z.lor_spec, Z.shiftl_spec by lia.
    destruct (Z.eqb_spec k (n mod 8)) as [->|Hkn].
    + rewrite (h_bits _ _ H n), lookup_ge_None_2, Z.sub_diag by lia. apply Z.b2z_bit0.
    + destruct (Z.lt_ge_cases (k - n mod 8) 0); [by rewrite (Z.testbit_neg_r _ (k - _)), orb_false_r by lia|].
      rewrite testbit_b2z, (proj2 (Z.eqb_neq (k - _) 0)) by lia. apply orb_false_r.
Qed.

(** What a step of the encoder appends: these bits, or too many. *)
Definition appends (f : t -> result t) (new : list bool) : Prop := forall tb bs, holds tb bs ->
  if decide (length (bs ++ new) <= 1008)%nat then exists tb', f tb = Ok tb' /\ holds tb' (bs ++ new) else f tb = Err KeyTooLong.

Lemma appends_nil : appends Ok [].
Proof. intros tb bs H. rewrite app_nil_r, decide_True by apply (h_fits _ _ H). by eexists. Qed.

Lemma appends_bind f g a b : appends f a -> appends g b -> appends (fun tb => let! tb := f tb in g tb) (a ++ b).
Proof.
  intros Hf Hg tb bs H. specialize (Hf tb bs H). rewrite app_assoc. destruct (decide (length (bs ++ a) <= 1008)%nat) as [Hl|Hl].
  - destruct Hf as (tb' & -> & H'). exact (Hg tb' (bs ++ a) H').
  - rewrite decide_False; [by rewrite Hf|]. rewrite length_app. lia.
Qed.

Lemma appends_ext f g new : (forall tb, f tb = g tb) -> appends f new -> appends g new.
Proof. intros E H tb bs Hh. rewrite <- !E. by apply H. Qed.

Lemma appendBit_appends b : appends (appendBit (Z.b2z b)) [b].
Proof.
  intros tb bs H. pose proof (appendBit_holds b tb bs H) as Ha. rewrite length_app. cbn [length].
  destruct (decide (length bs < 1008)%nat); [rewrite decide_True by lia|rewrite decide_False by lia]; exact Ha.
Qed.

Fixpoint value_bits (n : nat) (value : Z) : list bool :=
  match n with O => [] | S n => Z.testbit value (Z.of_nat n) :: value_bits n value end.

Lemma land_one z n : 0 <= n -> Z.land (Z.shiftr z n) 1 = Z.b2z (Z.testbit z n).
Proof.
  intros Hn. change 1 with (Z.ones 1). rewrite Z.land_ones, Z.shiftr_div_pow2 by lia. change (2 ^ 1) with 2.
  by rewrite <- Z.testbit_spec' by lia.
Qed.

Lemma appendBits_appends n value : appends (appendBits n value) (value_bits n value).
Proof.
  induction n as [|n IH]; [apply appends_nil|]. cbn [value_bits]. change (?b :: ?l) with ([b] ++ l).
  apply (appends_ext (fun tb => let! tb := appendBit (Z.b2z (Z.testbit value (Z.of_nat n))) tb in appendBits n value tb)).
  - intros tb. cbn [appendBits]. by rewrite land_one by lia.
  - apply appends_bind; [apply appendBit_appends|done].
Qed.

(** The bits a reader is to read next. *)
Definition offers (tb : t) (cur : Z) (bs : list bool) : Prop :=
  if isAllZeros tb then forallb negb bs = true
  else 0 <= cur /\ sizeByte tb <= 127 /\ cur + Z.of_nat (length bs) <= 8 * sizeByte tb /\
    forall i b, bs !! i = Some b -> Z.testbit (byte_at (buf tb) ((cur + Z.of_nat i) / 8 + 1)) ((cur + Z.of_nat i) mod 8) = b.

Lemma readBit_offers tb cur b bs : offers tb cur (b :: bs) -> exists cur', readBit tb cur = Ok (Z.b2z b, cur') /\ offers tb cur' bs.
Proof.
  unfold offers, readBit. destruct (isAllZeros tb).
  - cbn [forallb]. intros [Hb Hbs]%andb_true_iff. exists cur. split; [by destruct b|done].
  - intros (Hc & Hs & Hl & Hbits). cbn [length] in Hl. exists (cur + 1). pose proof (Z.div_mod cur 8 ltac:(lia)). pose proof (Z.mod_pos_bound cur 8 ltac:(lia)).
    assert (0 <= cur / 8) by (apply Z.div_pos; lia).
    rewrite (Z.mod_small (cur / 8 + 1) 256) by lia. rewrite (proj2 (Z.leb_le _ (sizeByte tb))) by lia. cbn [uassert rbind]. split.
    + rewrite land_bit by lia. pose proof (Hbits 0%nat b eq_refl) as E. rewrite Z.add_0_r in E. rewrite E. by destruct b.
    + split_and!; [lia..|]. intros i x Hi. pose proof (Hbits (S i) x Hi) as E.
      by replace (cur + 1 + Z.of_nat i) with (cur + Z.of_nat (S i)) by lia.
Qed.

Lemma readBits_offers n v tb bs : forall res cur, 0 <= res -> offers tb cur (value_bits n v ++ bs) ->
  exists cur', readBits n tb res cur = Ok (res * 2 ^ Z.of_nat n + v mod 2 ^ Z.of_nat n, cur') /\ offers tb cur' bs.
Proof.
  induction n as [|n IH]; intros res cur Hr Ho.
  - exists cur. split; [|done]. cbn [readBits]. rewrite Z.mul_1_r, Z.mod_1_r, Z.add_0_r. done.
  - cbn [value_bits app] in Ho. destruct (readBit_offers _ _ _ _ Ho) as (cur1 & E1 & Ho1). cbn [readBits]. rewrite E1. cbn [rbind].
    assert (Z.lor (Z.shiftl res 1) (Z.b2z (Z.testbit v (Z.of_nat n))) = 2 * res + Z.b2z (Z.testbit v (Z.of_nat n))) as ->.
    { rewrite lor_add by (destruct (Z.testbit v _); cbn; lia). lia. }
    destruct (IH (2 * res + Z.b2z (Z.testbit v (Z.of_nat n))) cur1) as (cur2 & E2 & Ho2); [destruct (Z.testbit _ _); cbn; lia|done|].
    exists cur2. split; [|done]. rewrite E2. f_equal. f_equal. rewrite Nat2Z.inj_succ, Z.pow_succ_r by lia.
    assert (0 < 2 ^ Z.of_nat n) by (apply Z.pow_pos_nonneg; lia).
    rewrite (Z.mul_comm 2 (2 ^ _)), Z.rem_mul_r by lia. rewrite <- Z.testbit_spec' by lia. lia.
Qed.

Lemma readBits_value n v tb bs cur : 0 <= v < 2 ^ Z.of_nat n -> offers tb cur (value_bits n v ++ bs) ->
  exists cur', readBits n tb 0 cur = Ok (v, cur') /\ offers tb cur' bs.
Proof.
  intros Hv Ho. destruct (readBits_offers n v tb bs 0 cur ltac:(lia) Ho) as (cur' & -> & H). exists cur'. split; [|done].
  by rewrite Z.mod_small, Z.mul_0_l by lia.
Qed.

Lemma holds_offers tb bs : holds tb bs -> offers tb 0 bs.
Proof.
  intros [Hc Hf Hz Hs Hl Hb Hbits]. unfold offers. rewrite Hz. destruct (forallb negb bs) eqn:Ez; [done|].
  pose proof (Z.div_mod (Z.of_nat (length bs) + 7) 8 ltac:(lia)). pose proof (Z.mod_pos_bound (Z.of_nat (length bs) + 7) 8 ltac:(lia)).
  split_and!; [lia..|]. intros i b Hi. rewrite Z.add_0_l, Hbits by lia. by rewrite Nat2Z.id, Hi.
Qed.

(** A byte is determined by its bits. *)
Lemma byte_zero x : 0 <= x < 256 -> (forall k, 0 <= k < 8 -> Z.testbit x k = false) -> x = 0.
Proof.
  intros Hx Hk. apply Z.bits_inj'. intros k Hk'. rewrite Z.bits_0. destruct (Z.lt_ge_cases k 8); [by apply Hk|].
  rewrite <- (Z.mod_small x (2 ^ 8)) by lia. apply Z.mod_pow2_bits_high. lia.
Qed.

Lemma zeros_byte tb bs : holds tb bs -> forallb negb bs = true -> byte_at (buf tb) 1 = 0.
Proof.
  intros H Hz. apply byte_zero; [by eapply byte_at_range|]. intros k Hk. pose proof (h_bits _ _ H k ltac:(lia)) as E.
  rewrite Z.div_small, Z.mod_small in E by lia. change (0 + 1) with 1 in E. rewrite E. destruct (bs !! Z.to_nat k) as [b|] eqn:Eb; [|done].
  rewrite forallb_forall in Hz. specialize (Hz b). destruct b; [|done]. discriminate Hz. apply list_elem_of_In. by eapply list_elem_of_lookup_2.
Qed.

Lemma readByte_cons b r : readByte false (b :: r) = Ok (byte_Z b, r).
Proof. pose proof (readByte_append (byte_Z b) false r (byte_Z_range b)) as H. unfold append8 in H. by rewrite Z_byte_Z in H. Qed.

Lemma offers_bytes tb bs cur' size l : holds tb bs -> forallb negb bs = false -> sizeByte tb = size ->
  (forall i, 1 <= i <= size -> byte_at l i = byte_at (buf tb) i) -> offers (mk cur' false size l) 0 bs.
Proof.
  intros H Hz <- Hi. pose proof (holds_offers _ _ H) as Ho. unfold offers in *. rewrite (h_zeros _ _ H), Hz in Ho. cbn [isAllZeros sizeByte buf].
  destruct Ho as (_ & Hs & Hl & Hb). split_and!; [lia..|]. intros i b Ei. rewrite Hi; [by apply Hb|].
  apply lookup_lt_Some in Ei as Hlt. pose proof (Z.div_mod (0 + Z.of_nat i) 8 ltac:(lia)). pose proof (Z.mod_pos_bound (0 + Z.of_nat i) 8 ltac:(lia)). lia.
Qed.

(** What is stored of type bits is read back as the same bits. *)
Lemma stored_offers tb bs tb0 r : holds tb bs ->
  exists tb', resetFromBuffer tb0 (getBuffer tb ++ r) = Ok (tb', r) /\ offers tb' 0 bs.
Proof.
  intros H. pose proof (byte_at_range tb bs 1 H) as Hr. unfold getBuffer, getSize. rewrite (h_zeros _ _ H).
  pose proof (h_size _ _ H) as Hs. pose proof (h_fits _ _ H).
  pose proof (Z.div_mod (Z.of_nat (length bs) + 7) 8 ltac:(lia)). pose proof (Z.mod_pos_bound (Z.of_nat (length bs) + 7) 8 ltac:(lia)).
  destruct (forallb negb bs) eqn:Ez.
  { rewrite Z.eqb_refl, (zeros_byte _ _ H Ez). exists reset. split; [|exact Ez].
    cbn [app resetFromBuffer]. by rewrite readByte_cons. }
  assert (0 < sizeByte tb <= 126) as Hsize by (destruct bs; [done|cbn [length] in *; lia]).
  destruct ((sizeByte tb =? 1) && negb (Z.testbit (byte_at (buf tb) 1) 7)) eqn:Ec.
  - apply andb_true_iff in Ec as [E1%Z.eqb_eq E7%negb_true_iff]. rewrite Z.eqb_refl. cbn [app resetFromBuffer].
    rewrite readByte_cons, byte_Z_byte_small by lia. cbn [rbind]. change (Z.land ?x 0x80) with (Z.land x (Z.shiftl 1 7)). rewrite land_bit, E7 by lia. cbn [negb].
    destruct (Z.eqb_spec (byte_at (buf tb) 1) 0) as [E0|E0].
    + exfalso. assert (forallb negb bs = true); [|congruence]. apply forallb_forall. intros b Hb.
      apply list_elem_of_In, list_elem_of_lookup_1 in Hb as [i Hi]. apply lookup_lt_Some in Hi as Hlt. pose proof (h_bits _ _ H (Z.of_nat i) ltac:(lia)) as E.
      rewrite Z.div_small in E by lia. change (0 + 1) with 1 in E. rewrite E0, Z.bits_0, Nat2Z.id, Hi in E. cbn in E. by subst b.
    + eexists. split; [done|]. apply (offers_bytes tb bs); [done..|]. intros i Hi. assert (i = 1) as -> by lia. done.
  - rewrite (proj2 (Z.eqb_neq (sizeByte tb + 1) 1)) by lia. cbn [app resetFromBuffer]. rewrite readByte_cons. cbn [rbind].
    assert (Z.lor 128 (sizeByte tb) = 128 + sizeByte tb) as ->.
    { exact (lor_add 1 7 (sizeByte tb) ltac:(lia) ltac:(lia)). }
    rewrite byte_Z_byte_small by lia. change (Z.land ?x 0x80) with (Z.land x (Z.shiftl 1 7)). rewrite land_bit by lia.
    assert (Z.testbit (128 + sizeByte tb) 7 = true) as ->.
    { rewrite Z.testbit_true by lia. replace ((128 + sizeByte tb) / 2 ^ 7) with 1; [done|]. apply (Z.div_unique _ _ _ (sizeByte tb)); lia. }
    cbn [negb]. assert (Z.land (128 + sizeByte tb) 127 = sizeByte tb) as ->.
    { change 127 with (Z.ones 7). rewrite Z.land_ones by lia. symmetry. apply (Z.mod_unique _ _ 1); lia. }
    pose proof (h_length _ _ H) as Hl. set (data := map Z_byte (take _ (buf tb))).
    assert (sizeByte tb = blen data) as Ed by (unfold data, blen; rewrite length_map, length_take; lia).
    rewrite Ed, (skip_app false data r : skip (blen data) (data ++ r) = _). cbn [rbind]. eexists. split; [done|]. apply (offers_bytes tb bs); [done..|].
    intros i Hi. unfold byte_at. cbn [flip_if]. rewrite lookup_app_l by (rewrite length_map; unfold blen in *; lia).
    unfold data. rewrite map_map, list_lookup_fmap, lookup_take_lt by lia.
    destruct (buf tb !! Z.to_nat (i - 1)) as [x|] eqn:Ex; [|done]. cbn. apply byte_Z_byte_small. exact (Forall_lookup_1 _ _ _ _ (h_bytes _ _ H) Ex).
Qed.

End TypeBits.
