(* ===== verification/KeyToBson.v ===== *)
(** * Keys back to documents (db/storage/key_string.cpp)

    An index entry is a key and its type bits; a cursor over an index makes the indexed values of them
    again. The encoder's part of the type bits, and the decoder that reads a key with them. *)

From S2P Require Import Prelude Bytes Bson RawBson BsonBuilder Doubles Decimals KeyDecoder KeyString TypeBits.
Import KeyDecoder.Key.
#[local] Open Scope Z_scope.

Section ToBson.

Context (L : IntelDecimal).

(** ** The type bits of a document *)

(** [_appendNumberDouble]. *)
Definition appendNumberDoubleTypes (num : Z) (tb : TypeBits.t) : result TypeBits.t :=
  if Binary64.eqb num 0 && Z.testbit num 63 then TypeBits.appendZero TypeBits.kNegativeDoubleZero tb
  else TypeBits.appendNumeric TypeBits.kDouble tb.

(** [_appendNumberDecimal]. *)
Definition appendNumberDecimalTypes (dec : Decimal) (tb : TypeBits.t) : result TypeBits.t :=
  if Decimal128.isZero L dec then
    let zeroExp := Decimal128.getBiasedExponent dec in
    let zeroExp := if Decimal128.isNegative L dec then zeroExp + Decimal128.kMaxBiasedExponent + 1 else zeroExp in
    TypeBits.appendDecimalZero zeroExp tb
  else if Decimal128.isNaN L dec || Decimal128.isInfinite L dec then TypeBits.appendNumeric TypeBits.kDecimal tb
  else
    let! tb := TypeBits.appendNumeric TypeBits.kDecimal tb in
    TypeBits.appendDecimalExponent (Z.land (Decimal128.getBiasedExponent dec) TypeBits.kStoredDecimalExponentMask) tb.

(** [_appendBsonValue], the values in an object or array in their order. *)
Fixpoint appendTypes (elem : bson) (tb : TypeBits.t) : result TypeBits.t :=
  let appendAll (d : Document) := foldr (fun e k tb => let! tb := appendTypes e.2 tb in k tb) Ok d in
  match elem with
  | BDouble num => appendNumberDoubleTypes num tb
  | BInt _ => TypeBits.appendNumeric TypeBits.kInt tb
  | BLong _ => TypeBits.appendNumeric TypeBits.kLong tb
  | BDecimal high low => appendNumberDecimalTypes (high, low) tb
  | BString _ => TypeBits.appendBit TypeBits.kString tb
  | BSymbol _ => TypeBits.appendBit TypeBits.kSymbol tb
  | BObject d | BArray d | BCodeWScope _ d => appendAll d tb
  | _ => Ok tb
  end.

Definition appendAllTypes (obj : Document) : TypeBits.t -> result TypeBits.t :=
  foldr (fun e k tb => let! tb := appendTypes e.2 tb in k tb) Ok obj.

(** [resetToKey]: the key's bytes and its type bits. *)
Definition resetToKeyAndTypes (obj : Document) (descending : Z -> bool) : result (bytes * TypeBits.t) :=
  let! key := resetToKey L obj descending kInclusive in
  let! tb := appendAllTypes obj TypeBits.reset in
  Ok (key, tb).

(** ** Readers

    Unlike the change stream's, they throw at the end of the buffer where they look for what may
    follow a string. *)

Definition peek (r : BufReader) : result byte := match r with b :: _ => Ok b | [] => Err Overflow end.

Definition ks_readCString (r : BufReader) : result (bytes * BufReader) :=
  match split_at Byte.x00 r with Some x => Ok x | None => Err (Location 50816) end.

Fixpoint ks_nuls_loop (fuel : nat) (scratch : bytes) (r : BufReader) : result (bytes * BufReader) :=
  let! b := peek r in
  if bool_decide (b = Byte.xff) then
    match fuel with
    | O => Err InvariantFailure
    | S fuel =>
        let! (nextPart, r) := ks_readCString (tail r) in
        ks_nuls_loop fuel (scratch ++ [Byte.x00] ++ nextPart) r
    end
  else Ok (scratch, r).

Definition ks_readCStringWithNuls (r : BufReader) : result (bytes * BufReader) :=
  let! (initial, r) := ks_readCString r in ks_nuls_loop (length r) initial r.

Definition ks_readInvertedCString (r : BufReader) : result (bytes * BufReader) :=
  match split_at Byte.xff r with Some (s, r) => Ok (map flip s, r) | None => Err (Location 50817) end.

Fixpoint ks_inverted_nuls_loop (fuel : nat) (out : bytes) (r : BufReader) : result (bytes * BufReader) :=
  match split_at Byte.xff r with
  | None => Err (Location 50820)
  | Some (part, r) =>
      let out := out ++ part in
      let! b := peek r in
      if bool_decide (b = Byte.x00) then
        match fuel with
        | O => Err InvariantFailure
        | S fuel => ks_inverted_nuls_loop fuel (out ++ [Byte.xff]) (tail r)
        end
      else Ok (out, r)
  end.

Definition ks_readInvertedCStringWithNuls (r : BufReader) : result (bytes * BufReader) :=
  let! (out, r) := ks_inverted_nuls_loop (length r) [] r in Ok (map flip out, r).

Definition ks_readString (inverted : bool) (r : BufReader) : result (bytes * BufReader) :=
  if inverted then ks_readInvertedCStringWithNuls r else ks_readCStringWithNuls r.

Definition ks_readName (inverted : bool) (r : BufReader) : result (bytes * BufReader) :=
  if inverted then ks_readInvertedCString r else ks_readCString r.

(** ** Numbers *)

Definition ks_readDecimalContinuation (inverted : bool) (num : Decimal) (r : BufReader) : result (Decimal * BufReader) :=
  let! (continuation, r) := readBig 8 inverted r in
  let num := Decimal128.normalize L num in
  let sign := Decimal128.isNegative L num in
  let exponent := Decimal128.getBiasedExponent num in
  let! _ := uassert (Location 50850) (Decimal128.isValid sign exponent 0 continuation) in
  let '(sum, flags) := Decimal128.add L num (Decimal128.make sign exponent 0 continuation) kRoundTiesToEven in
  let! _ := uassert (Location 50815) (negb (Decimal128.hasFlag flags Decimal128.kInexact)) in
  Ok (sum, r).

(** [adjustDecimalExponent]: the exponent whose low bits are stored, by an exact shift of the coefficient. *)
Definition adjustDecimalExponent (tb : TypeBits.t) (cur : Z) (num : Decimal) : result (Decimal * Z) :=
  let kMaxExpAdjust := 33 in
  let kMaxExpIncrementForZeroHighCoefficient := 19 in
  let! _ := uassert (Location 50829) (negb (Decimal128.isZero L num)) in
  let origExp := Decimal128.getBiasedExponent num in
  let! (storedBits, cur) := TypeBits.readDecimalExponent tb cur in
  let highExp := Z.lor (Z.ldiff origExp TypeBits.kStoredDecimalExponentMask) storedBits in
  let highExp := if highExp <? origExp then highExp + 2 ^ 6 else highExp in
  if highExp =? origExp then Ok (num, cur)
  else
    let! num :=
      if (highExp <=? origExp + kMaxExpAdjust)
         && (negb (Decimal128.getCoefficientHigh num =? 0) || (highExp <=? origExp + kMaxExpIncrementForZeroHighCoefficient))
      then
        let! _ := uassert (Location 50845) (Decimal128.isValid false highExp 0 0) in
        let '(quantized, flags) := Decimal128.quantize L num (Decimal128.make false highExp 0 1) kRoundTiesToEven in
        let! _ := uassert (Location 50813) (flags =? Decimal128.kNoFlag) in
        Ok quantized
      else
        let lowExp := wrap32 (highExp - 2 ^ 6) in
        let! _ := uassert (Location 50814)
                    ((wrap32 (origExp - kMaxExpAdjust) <=? lowExp) && Decimal128.isValid false lowExp 0 0) in
        Ok (Decimal128.add L num (Decimal128.make false lowExp 0 0) kRoundTiesToEven).1 in
    let! _ := uassert (Location 50830)
                (Z.land (Decimal128.getBiasedExponent num) TypeBits.kStoredDecimalExponentMask =?
                 Z.land highExp TypeBits.kStoredDecimalExponentMask) in
    Ok (num, cur).

Definition BDec128 (d : Decimal) : bson := BDecimal d.1 d.2.

(** The end of the large magnitudes: [bin] with its sign, and whether a decimal continuation follows. *)
Definition largeNumber (tb : TypeBits.t) (originalType bin : Z) (hasDecimalContinuation inverted isNegative : bool) (r : BufReader) (cur : Z)
    : result (bson * BufReader * Z) :=
  if originalType =? TypeBits.kDouble then Ok (BDouble bin, r, cur)
  else if originalType =? TypeBits.kLong then
    let! _ := uassert (Location 50821) (Binary64.eqb bin (Binary64.opp (Binary64.ldexp1 63))) in
    Ok (BLong (- 2 ^ 63), r, cur)
  else
    let! _ := uassert (Location 50826) (originalType =? TypeBits.kDecimal) in
    let roundAwayFromZero := if isNegative then kRoundTowardNegative else kRoundTowardPositive in
    let! dec := Decimal128.of_double L bin kRoundTo34Digits roundAwayFromZero in
    let! (dec, r) := if hasDecimalContinuation then ks_readDecimalContinuation inverted dec r else Ok (dec, r) in
    let! (dec, cur) := if Decimal128.isFinite L dec then adjustDecimalExponent tb cur dec else Ok (dec, cur) in
    Ok (BDec128 dec, r, cur).

(** The large magnitudes; [inverted] and [isNegative] as the switch sets them. *)
Definition toBsonLarge (tb : TypeBits.t) (inverted isNegative : bool) (r : BufReader) (cur : Z) : result (bson * BufReader * Z) :=
  let! (originalType, cur) := TypeBits.readNumeric tb cur in
  let! (encoded, r) := readBig 8 inverted r in
  if negb (Z.testbit encoded 63) then
    let hasDecimalContinuation := Z.testbit encoded 0 in
    let bin := Z.lor (Z.shiftr encoded 1) (2 ^ 62) in
    largeNumber tb originalType (if isNegative then Binary64.opp bin else bin) hasDecimalContinuation inverted isNegative r cur
  else if encoded =? u64_max then
    largeNumber tb originalType (if isNegative then Binary64.opp Binary64.infinity else Binary64.infinity) false inverted isNegative r cur
  else
    let! _ := uassert (Location 50818) (originalType =? TypeBits.kDecimal) in
    let! (lowbits, r) := readBig 8 inverted r in
    let dec := (Z.ldiff encoded (2 ^ 63), lowbits) in
    let dec := if isNegative then Decimal128.negate dec else dec in
    let! (dec, cur) := if Decimal128.isFinite L dec then adjustDecimalExponent tb cur dec else Ok (dec, cur) in
    Ok (BDec128 dec, r, cur).

(** The end of the decimals: the exponent adjusted, the sign put back first. *)
Definition signedDecimal (tb : TypeBits.t) (isNegative : bool) (dec : Decimal) (r : BufReader) (cur : Z) : result (bson * BufReader * Z) :=
  let! (dec, cur) := adjustDecimalExponent tb cur (if isNegative then Decimal128.negate dec else dec) in
  Ok (BDec128 dec, r, cur).

(** The magnitudes below one. *)
Definition toBsonSmall (tb : TypeBits.t) (inverted isNegative : bool) (r : BufReader) (cur : Z) : result (bson * BufReader * Z) :=
  let! (originalType, cur) := TypeBits.readNumeric tb cur in
  let! (encoded, r) := readBig 8 inverted r in
  let selector := Z.shiftr encoded 62 in
  if selector =? 0 then
    let! (lowbits, r) := readBig 8 inverted r in
    let! (dec, cur) := adjustDecimalExponent tb cur (encoded, lowbits) in
    Ok (BDec128 (if isNegative then Decimal128.negate dec else dec), r, cur)
  else if selector <=? 2 then
    let hasDecimalContinuation := Z.testbit encoded 0 in
    let scaledBin := Z.shiftr (encoded - 2 ^ 62) 1 in
    let bin := Binary64.mul scaledBin (Binary64.ldexp1 (-256)) in
    if originalType =? TypeBits.kDouble then
      let! _ := uassert (Location 50822) (negb hasDecimalContinuation) in
      Ok (BDbl isNegative bin, r, cur)
    else
      let! _ := uassert (Location 50823) ((originalType =? TypeBits.kDecimal) && hasDecimalContinuation) in
      let! dec :=
        if Binary64.ltb scaledBin (Binary64.mul Binary64.min_normal kTinyDoubleExponentUpshiftFactor) then
          let! scaledDec := Decimal128.of_double L scaledBin kRoundTo34Digits kRoundTowardZero in
          let! factor := kTinyDoubleExponentDownshiftFactorAsDecimal L in
          Ok (Decimal128.multiply L scaledDec factor kRoundTowardZero).1
        else Decimal128.of_double L bin kRoundTo34Digits kRoundTowardPositive in
      let! (dec, r) := ks_readDecimalContinuation inverted dec r in
      signedDecimal tb isNegative dec r cur
  else
    let dcm := Z.land encoded 3 in
    let bin := Z.shiftr encoded 2 in
    if originalType =? TypeBits.kDouble then
      let! _ := uassert (Location 50824) (dcm =? kDCMEqualToDouble) in
      Ok (BDbl isNegative bin, r, cur)
    else
      let! _ := uassert (Location 50825) (originalType =? TypeBits.kDecimal) in
      let precision := if dcm =? kDCMEqualToDoubleRoundedUpTo15Digits then kRoundTo15Digits else kRoundTo34Digits in
      let! dec := Decimal128.of_double L bin precision kRoundTowardPositive in
      let! (dec, r) :=
        if (dcm =? kDCMEqualToDoubleRoundedUpTo15Digits) || (dcm =? kDCMEqualToDouble) then Ok (dec, r)
        else ks_readDecimalContinuation inverted dec r in
      signedDecimal tb isNegative dec r cur.

(** The integers of one to eight bytes, and numbers with a fraction. *)
Definition toBsonInteger (tb : TypeBits.t) (ctype : Z) (inverted isNegative : bool) (r : BufReader) (cur : Z) : result (bson * BufReader * Z) :=
  let! (originalType, cur) := TypeBits.readNumeric tb cur in
  let! (encodedIntegerPart, r) := readBig (numBytesForInt ctype) inverted r in
  let haveFractionalPart := Z.testbit encodedIntegerPart 0 in
  let integerPart := Z.shiftr encodedIntegerPart 1 in
  if negb haveFractionalPart then
    let integerPart := if isNegative then - integerPart else integerPart in
    if originalType =? TypeBits.kDouble then Ok (BDouble (Binary64.of_i64 integerPart), r, cur)
    else if originalType =? TypeBits.kInt then Ok (BInt (signed32 (wrap32 integerPart)), r, cur)
    else if originalType =? TypeBits.kLong then Ok (BLong integerPart, r, cur)
    else
      let! (dec, cur) := adjustDecimalExponent tb cur (Decimal128.of_int64 L integerPart) in
      Ok (BDec128 dec, r, cur)
  else
    let fracBytes := 8 - numBytesForInt ctype in
    let! (fraction, r) := readBig fracBytes inverted r in
    let encodedFraction := wrap64 (Z.lor (Z.shiftl integerPart (8 * fracBytes)) fraction) in
    let bin := Binary64.mul (Binary64.of_u64 (Z.ldiff encodedFraction 3)) (kInvPow256 fracBytes) in
    if originalType =? TypeBits.kDouble then Ok (BDbl isNegative bin, r, cur)
    else
      let dcm := if negb (fracBytes =? 0) then Z.land encodedFraction 3
                 else kDCMHasContinuationLargerThanDoubleRoundedUpTo15Digits in
      let! _ := uassert (Location 50810) (originalType =? TypeBits.kDecimal) in
      if dcm =? kDCMEqualToDoubleRoundedUpTo15Digits then
        let! dec := Decimal128.of_double L bin kRoundTo15Digits kRoundTowardPositive in
        signedDecimal tb isNegative dec r cur
      else if dcm =? kDCMEqualToDouble then
        let! dec := Decimal128.of_double L bin kRoundTo34Digits kRoundTowardPositive in
        signedDecimal tb isNegative dec r cur
      else
        let! dec := if kMaxIntForDouble <? integerPart then Ok (Decimal128.of_int64 L integerPart)
                    else Decimal128.of_double L bin kRoundTo34Digits kRoundTowardPositive in
        let! (dec, r) := ks_readDecimalContinuation inverted dec r in
        signedDecimal tb isNegative dec r cur.

(** Zeros and what is no number. *)
Definition toBsonZero (tb : TypeBits.t) (r : BufReader) (cur : Z) : result (bson * BufReader * Z) :=
  let! (zeroType, cur) := TypeBits.readZero tb cur in
  if zeroType =? TypeBits.kDouble then Ok (BDouble 0, r, cur)
  else if zeroType =? TypeBits.kInt then Ok (BInt 0, r, cur)
  else if zeroType =? TypeBits.kLong then Ok (BLong 0, r, cur)
  else if zeroType =? TypeBits.kNegativeDoubleZero then Ok (BDouble (2 ^ 63), r, cur)
  else
    let! (whichZero, cur) := TypeBits.readDecimalZero zeroType tb cur in
    let isNegative := Decimal128.kMaxBiasedExponent <? whichZero in
    let biasedExponent := if isNegative then whichZero - (Decimal128.kMaxBiasedExponent + 1) else whichZero in
    let! _ := uassert (Location 50846) (Decimal128.isValid isNegative biasedExponent 0 0) in
    Ok (BDec128 (Decimal128.make isNegative biasedExponent 0 0), r, cur).

Definition toBsonNaN (tb : TypeBits.t) (r : BufReader) (cur : Z) : result (bson * BufReader * Z) :=
  let! (type, cur) := TypeBits.readNumeric tb cur in
  if type =? TypeBits.kDouble then Ok (BDouble Binary64.quiet_NaN, r, cur)
  else
    let! _ := uassert (Location 50819) (type =? TypeBits.kDecimal) in
    Ok (BDec128 Decimal128.kPositiveNaN, r, cur).

(** The numbers: [None] for a type byte of none. A negative one is inverted. *)
Definition toBsonNumeric (tb : TypeBits.t) (ctype : Z) (inverted : bool) (r : BufReader) (cur : Z)
    : option (result (bson * BufReader * Z)) :=
  if ctype =? kNumericNaN then Some (toBsonNaN tb r cur)
  else if ctype =? kNumericZero then Some (toBsonZero tb r cur)
  else if ctype =? kNumericNegativeLargeMagnitude then Some (toBsonLarge tb (negb inverted) true r cur)
  else if ctype =? kNumericPositiveLargeMagnitude then Some (toBsonLarge tb inverted false r cur)
  else if ctype =? kNumericNegativeSmallMagnitude then Some (toBsonSmall tb (negb inverted) true r cur)
  else if ctype =? kNumericPositiveSmallMagnitude then Some (toBsonSmall tb inverted false r cur)
  else if (kNumericNegative8ByteInt <=? ctype) && (ctype <=? kNumericNegative1ByteInt) then
    Some (toBsonInteger tb ctype (negb inverted) true r cur)
  else if (kNumericPositive1ByteInt <=? ctype) && (ctype <=? kNumericPositive8ByteInt) then
    Some (toBsonInteger tb ctype inverted false r cur)
  else None.

(** The branches of [toBsonValue] that read no type bits and no other value. *)
Definition toBsonPlain (ctype : Z) (inverted : bool) (r : BufReader) : option (result (bson * BufReader)) :=
  if ctype =? kMinKey then Some (Ok (BMinKey, r))
  else if ctype =? kMaxKey then Some (Ok (BMaxKey, r))
  else if ctype =? kNullish then Some (Ok (BNull, r))
  else if ctype =? kUndefined then Some (Ok (BUndefined, r))
  else if ctype =? kBoolTrue then Some (Ok (BBool true, r))
  else if ctype =? kBoolFalse then Some (Ok (BBool false, r))
  else if ctype =? kDate then
    Some (let! (z, r) := readBig 8 inverted r in Ok (BDate (signed64 (Z.lxor z (2 ^ 63))), r))
  else if ctype =? kTimestamp then
    Some (let! (z, r) := readBig 8 inverted r in Ok (BTimestamp z, r))
  else if ctype =? kOID then
    Some (let! (o, r) := skip 12 r in Ok (BOID (flip_if inverted o), r))
  else if ctype =? kCode then
    Some (let! (s, r) := ks_readString inverted r in Ok (BCode s, r))
  else if ctype =? kBinData then
    Some (let! (size, r) := readByte inverted r in
          let! (size, r) := if size =? 0xff then readBig 4 inverted r else Ok (size, r) in
          let! (subType, r) := readByte inverted r in
          let! (data, r) := skip size r in
          Ok (BBinData subType (flip_if inverted data), r))
  else if ctype =? kRegEx then
    Some (let! (pattern, r) := ks_readName inverted r in
          let! (flags, r) := ks_readName inverted r in
          Ok (BRegEx pattern flags, r))
  else if ctype =? kDBRef then
    Some (let! (size, r) := readBig 4 inverted r in
          let! (ns, r) := skip size r in
          let! (oid, r) := skip 12 r in
          Ok (BDBRef (flip_if inverted ns) (flip_if inverted oid), r))
  else None.

Definition toBsonStringLike (tb : TypeBits.t) (inverted : bool) (r : BufReader) (cur : Z) : result (bson * BufReader * Z) :=
  let! (originalType, cur) := TypeBits.readStringLike tb cur in
  if originalType =? TypeBits.kString then
    let! (s, r) := ks_readString inverted r in Ok (BString s, r, cur)
  else
    let! _ := uassert (Location (if inverted then 50827 else 50828)) (originalType =? TypeBits.kSymbol) in
    let! (s, r) := ks_readString inverted r in Ok (BSymbol s, r, cur).

(** ** Values

    [toBsonValue]; the fuel as in [toBsonValueCanonical]. *)
Fixpoint toBsonValue (fuel : nat) (tb : TypeBits.t) (ctype : Z) (inverted : bool) (r : BufReader) (cur : Z)
    : result (bson * BufReader * Z) :=
  match fuel with
  | O => Err InvariantFailure
  | S fuel =>
      match toBsonPlain ctype inverted r, toBsonNumeric tb ctype inverted r cur with
      | Some x, _ => let! (v, r) := x in Ok (v, r, cur)
      | None, Some x => x
      | None, None =>
          if ctype =? kStringLike then toBsonStringLike tb inverted r cur
          else if ctype =? kObject then
            let! (d, r, cur) := toBson_fields fuel tb inverted r cur in Ok (BObject d, r, cur)
          else if ctype =? kArray then
            let! (d, r, cur) := toBson_items fuel tb 0 inverted r cur in Ok (BArray d, r, cur)
          else if ctype =? kCodeWithScope then
            let! (code, r) := ks_readString inverted r in
            let! (scope, r, cur) := toBson_fields fuel tb inverted r cur in
            Ok (BCodeWScope code scope, r, cur)
          else Err (Location 50811)
      end
  end
with toBson_fields (fuel : nat) (tb : TypeBits.t) (inverted : bool) (r : BufReader) (cur : Z)
    : result (Document * BufReader * Z) :=
  match fuel with
  | O => Err InvariantFailure
  | S fuel =>
      let! (generic, r) := readByte inverted r in
      if generic =? 0 then Ok ([], r, cur)
      else
        let! (name, r) := ks_readName inverted r in
        let! (ctype, r) := readByte inverted r in
        let! (v, r, cur) := toBsonValue fuel tb ctype inverted r cur in
        let! (d, r, cur) := toBson_fields fuel tb inverted r cur in
        Ok ((name, v) :: d, r, cur)
  end
with toBson_items (fuel : nat) (tb : TypeBits.t) (index : nat) (inverted : bool) (r : BufReader) (cur : Z)
    : result (Document * BufReader * Z) :=
  match fuel with
  | O => Err InvariantFailure
  | S fuel =>
      let! (elemType, r) := readByte inverted r in
      if elemType =? 0 then Ok ([], r, cur)
      else
        let! (v, r, cur) := toBsonValue fuel tb elemType inverted r cur in
        let! (d, r, cur) := toBson_items fuel tb (S index) inverted r cur in
        Ok ((numStr index, v) :: d, r, cur)
  end.

(** [toBsonSafe]. *)
Fixpoint toBson_loop (fuel : nat) (tb : TypeBits.t) (descending : Z -> bool) (i : Z) (r : BufReader) (cur : Z) : result Document :=
  match r with
  | [] => Ok []
  | _ =>
      match fuel with
      | O => Err InvariantFailure
      | S fuel' =>
          let invert := descending i in
          let! (ctype, r) := readByte invert r in
          let! (ctype, r) :=
            if (ctype =? kLess) || (ctype =? kGreater) then readByte invert r else Ok (ctype, r) in
          if ctype =? kEnd then Ok []
          else
            let! (v, r, cur) := toBsonValue (2 * length r + 2) tb ctype invert r cur in
            let! d := toBson_loop fuel' tb descending (i + 1) r cur in
            Ok (([], v) :: d)
      end
  end.

Definition toBsonSafe (tb : TypeBits.t) (descending : Z -> bool) (key : bytes) : result Document :=
  toBson_loop (length key) tb descending 0 key 0.

End ToBson.
