(* ===== verification/KeyRestored.v ===== *)
(** * Keys and type bits restore documents

    What an index stores of a document, the key's bytes and its type bits, gives the document back: not
    only up to what a key leaves out ([KeyRoundTrip]), but with the type of every number and string. *)

From Stdlib Require Import Floats.SpecFloat.
From S2P Require Import Prelude Bytes Bson RawBson BsonBuilder Doubles Decimals KeyDecoder KeyString KeyRoundTrip TypeBits KeyToBson.
Import KeyDecoder.Key.
#[local] Open Scope Z_scope.

(** ** What is not restored

    The bits of a NaN, a DBRef's name past a NUL and the names of an array's items. *)
Fixpoint restored (v : bson) : bson :=
  let restored_doc (d : Document) := map (fun e => (e.1, restored e.2)) d in
  match v with
  | BDouble bits => if Binary64.isnan bits then BDouble Binary64.quiet_NaN else v
  | BDBRef ns oid => BDBRef (c_str ns) oid
  | BObject d => BObject (restored_doc d)
  | BArray d => BArray (imap (fun i v => (numStr i, v)) (map (fun e => restored e.2) d))
  | BCodeWScope code d => BCodeWScope code (restored_doc d)
  | _ => v
  end.

(** The type bits of a value. *)
Fixpoint types (v : bson) : list bool :=
  let all_types (d : Document) := foldr (fun e bs => types e.2 ++ bs) [] d in
  match v with
  | BInt _ => TypeBits.value_bits 2 TypeBits.kInt
  | BLong _ => TypeBits.value_bits 2 TypeBits.kLong
  | BDouble bits => if bits =? 2 ^ 63 then TypeBits.value_bits 5 TypeBits.kV1NegativeDoubleZero
                    else TypeBits.value_bits 2 TypeBits.kDouble
  | BString _ => [false]
  | BSymbol _ => [true]
  | BObject d | BArray d | BCodeWScope _ d => all_types d
  | _ => []
  end.

Definition all_types (d : Document) : list bool := foldr (fun e bs => types e.2 ++ bs) [] d.

(** ** The encoder appends them *)

Section Restored.

Context (L : IntelDecimal).

Lemma negative_zero bits : 0 <= bits < 2 ^ 64 -> Binary64.eqb bits 0 && Z.testbit bits 63 = (bits =? 2 ^ 63).
Proof.
  intros Hb. destruct (Z.eqb_spec bits (2 ^ 63)) as [->|Hne]; [done|]. apply andb_false_iff.
  assert (Binary64.of_bits bits = S754_nan \/ Binary64.of_bits bits <> S754_nan) as [En|Hn]
    by (destruct (Binary64.of_bits bits); first [by left|by right]).
  { left. unfold Binary64.eqb. by rewrite En. }
  destruct (Binary64.signed_magnitude bits Hb Hn) as (s & m & -> & Hm). pose proof (Binary64.magnitude_small m Hm).
  destruct s; unfold Binary64.sign_bit in *; cycle 1.
  { right. rewrite Z.add_0_l, Z.testbit_eqb, Z.div_small by lia. done. }
  left. unfold Binary64.eqb. pose proof (Binary64.of_bits_sign true m ltac:(done)) as E. unfold Binary64.sign_bit in E. rewrite E.
  destruct (Binary64.of_bits_magnitude m Hm) as [[-> _]|[[_ ->]|(p & e & -> & _)]]; [lia|done..].
Qed.

Lemma appendAll_appends (d : Document) : Forall (fun e => TypeBits.appends (appendTypes L e.2) (types e.2)) d ->
  TypeBits.appends (foldr (fun e k tb => let! tb := appendTypes L e.2 tb in k tb) Ok d) (all_types d).
Proof.
  induction d as [|e d IH]; intros H; [apply TypeBits.appends_nil|]. apply Forall_cons in H as [He Hd].
  cbn [foldr all_types]. apply (TypeBits.appends_bind (appendTypes L e.2)); [done|by apply IH].
Qed.

Lemma appendTypes_appends v : wf_value v -> keyable v -> TypeBits.appends (appendTypes L v) (types v).
Proof.
  induction v as [v Hs|c d IH|d IH|d IH] using bson_nested_ind; intros Hw Hk.
  - destruct v; try done; cbn [types]; try apply TypeBits.appends_nil; try apply (TypeBits.appendBits_appends 2).
    + cbn [wf_value] in Hw. apply (TypeBits.appends_ext (appendNumberDoubleTypes bits)); [done|].
      unfold appendNumberDoubleTypes. rewrite negative_zero by done. destruct (_ =? _); apply TypeBits.appendBits_appends.
    + apply (TypeBits.appendBit_appends false).
    + apply (TypeBits.appendBit_appends true).
  - apply appendAll_appends. destruct Hw as [_ Hw]. cbn [keyable] in Hk. rewrite wf_values, keyable_doc, !Forall_forall in *. eauto.
  - apply appendAll_appends. destruct Hw as [_ Hw]. cbn [keyable] in Hk. rewrite wf_values, keyable_doc, !Forall_forall in *. eauto.
  - apply appendAll_appends. destruct Hw as [_ Hw]. cbn [keyable] in Hk. rewrite wf_values, keyable_doc, !Forall_forall in *. eauto.
Qed.

(** ** Strings *)

Lemma nuls_agree fuel : forall scratch r out r', (length r <= fuel)%nat -> nuls_loop fuel scratch r = Ok (out, r') -> r' <> [] ->
  ks_nuls_loop fuel scratch r = Ok (out, r').
Proof.
  induction fuel as [|fuel IH]; intros scratch [|b r] out r' Hl E Hr; cbn [length] in Hl; try lia; try (by injection E as _ <-).
  cbn [nuls_loop] in E. cbn [ks_nuls_loop peek rbind]. case_bool_decide; [|exact E]. unfold readCString in E. unfold ks_readCString. cbn [tail].
  destruct (split_at Byte.x00 r) as [[p r1]|] eqn:Es; [|done]. cbn [rbind] in *. apply split_at_length in Es. apply IH; [lia|done..].
Qed.

Lemma inverted_nuls_agree fuel : forall out p r r1 fuel' res r', split_at Byte.xff r = Some (p, r1) ->
  (length r1 <= fuel)%nat -> (length r1 <= fuel')%nat -> inverted_nuls_loop fuel (out ++ p) r1 = Ok (res, r') -> r' <> [] ->
  ks_inverted_nuls_loop fuel' out r = Ok (res, r').
Proof.
  induction fuel as [|fuel IH]; intros out p r [|b r1] fuel' res r' Es Hl Hl' E Hr; cbn [length] in *; try lia; try (by injection E as _ <-).
  cbn [inverted_nuls_loop] in E. destruct fuel' as [|fuel']; [lia|]. cbn [ks_inverted_nuls_loop]. rewrite Es. cbn [peek rbind]. case_bool_decide; [|exact E].
  cbn [tail]. destruct (split_at Byte.xff r1) as [[p2 r2]|] eqn:E2; [|done]. apply split_at_length in E2 as Hl2.
  apply (IH _ p2 r1 r2); [done|lia|lia| |done]. by rewrite <- app_assoc.
Qed.

Lemma readString_agree i r s r' : readString i r = Ok (s, r') -> r' <> [] -> ks_readString i r = Ok (s, r').
Proof.
  destruct i; cbn [readString ks_readString].
  - unfold readInvertedCStringWithNuls, ks_readInvertedCStringWithNuls. destruct (split_at Byte.xff r) as [[p r1]|] eqn:Es; [|done].
    destruct (inverted_nuls_loop _ p r1) as [[out r2]|] eqn:E; [|done]. cbn [rbind]. intros [= <- <-] Hr. apply split_at_length in Es as Hl.
    rewrite (inverted_nuls_agree _ [] p r r1 (length r) out r2 Es) by (done || lia). done.
  - unfold readCStringWithNuls, ks_readCStringWithNuls, readCString, ks_readCString. destruct (split_at Byte.x00 r) as [[p r1]|]; [|done]. cbn [rbind].
    intros E Hr. by apply nuls_agree.
Qed.

Lemma readName_agree i r s r' : readName i r = Ok (s, r') -> ks_readName i r = Ok (s, r').
Proof. destruct i; cbn; unfold readInvertedCString, ks_readInvertedCString, readCString, ks_readCString; by destruct (split_at _ r) as [[]|]. Qed.

(** ** Numbers *)

Lemma canonical_int_inj y z : appendCanonicalInt y = appendCanonicalInt z -> y = z.
Proof. unfold appendCanonicalInt. destruct (_ && _), (_ && _); by intros [= ->]. Qed.

(** An integer that a double was is that double again. *)
Lemma of_i64_canonical bits z : 0 <= bits < 2 ^ 64 -> bits <> 2 ^ 63 -> canonical_double bits = appendCanonicalInt z ->
  Binary64.of_i64 z = bits.
Proof.
  intros Hb Hz H. assert (Binary64.of_bits bits = S754_nan \/ Binary64.of_bits bits <> S754_nan) as [En|Hn]
    by (destruct (Binary64.of_bits bits); first [by left|by right]).
  { exfalso. revert H. unfold canonical_double, Binary64.isnan, appendCanonicalInt. rewrite En. by destruct (_ && _). }
  destruct (Binary64.signed_magnitude bits Hb Hn) as (s & m & -> & Hm). pose proof (Binary64.magnitude_small m Hm) as Hsm.
  destruct (Binary64.of_bits_magnitude m Hm) as [[-> _]|[[-> E]|(p & e & Eb & Hd & _)]].
  - destruct s; [by unfold Binary64.sign_bit in Hz|]. apply (canonical_int_inj 0 z) in H as <-. reflexivity.
  - exfalso. revert H. unfold canonical_double, Binary64.isnan, appendCanonicalInt. rewrite Binary64.of_bits_sign, E by done.
    destruct s; cbn [SFopp int_value]; by destruct (_ && _).
  - rewrite (canonical_sign s m p e Eb Hsm) in H. cbv zeta in H. set (n := Z.shiftl (Zpos p) e) in *.
    destruct (Z.eqb_spec (Z.shiftl n (- e)) (Zpos p)) as [Ep|]; [destruct (Z.ltb_spec n (2 ^ 63)) as [Hl|]|]; cbn [andb] in H;
      [|exfalso; revert H; unfold appendCanonicalInt; by destruct (_ && _)..].
    apply canonical_int_inj in H as <-. assert (Binary64.of_u64 n = m) as Em.
    { rewrite <- (Binary64.to_bits_of_bits m), Eb by (lia || by rewrite Eb). apply Binary64.of_u64_exact; [|done|].
      - destruct (Z.lt_ge_cases 0 n); [done|]. assert (n = 0) as E0 by (assert (0 <= n) by (apply Z.shiftl_nonneg; lia); lia).
        rewrite E0, Z.shiftl_0_l in Ep. lia.
      - destruct (Z.lt_ge_cases e 0).
        + rewrite Z.max_l, Z.max_r, Z.pow_0_r, Z.mul_1_r, <- Z.shiftl_mul_pow2 by lia. done.
        + rewrite Z.max_r, Z.max_l, Z.pow_0_r, Z.mul_1_r by lia. unfold n. by rewrite Z.shiftl_mul_pow2 by lia. }
    assert (0 <= n) by (apply Z.shiftl_nonneg; lia). unfold Binary64.of_i64. destruct s.
    + destruct (Z.ltb_spec (- n) 0); [|assert (n = 0) as E0 by lia; rewrite E0, Z.shiftl_0_l in Ep; lia].
      rewrite Z.opp_involutive, Em. exact (Binary64.opp_sign false m Hsm).
    + rewrite (proj2 (Z.ltb_ge _ _)), Em by lia. unfold Binary64.sign_bit. lia.
Qed.

Definition is_number (v : bson) : Prop := match v with BInt _ | BLong _ | BDouble _ => True | _ => False end.

Definition type_of_number (v : bson) : Z :=
  match v with BInt _ => TypeBits.kInt | BLong _ => TypeBits.kLong | _ => TypeBits.kDouble end.

(** The numbers whose place in a key is their own. *)
Definition ordinary_number (v : bson) : Prop := v <> BDouble (2 ^ 63) /\ v <> BLong (- 2 ^ 63).

Lemma number_types v : is_number v -> ordinary_number v -> types v = TypeBits.value_bits 2 (type_of_number v).
Proof.
  intros Hv [H1 _]. destruct v; try done. cbn [types]. destruct (Z.eqb_spec bits (2 ^ 63)) as [->|]; done.
Qed.

Lemma read_number_type v tb cur bs : is_number v -> ordinary_number v -> TypeBits.offers tb cur (types v ++ bs) ->
  exists cur', TypeBits.readNumeric tb cur = Ok (type_of_number v, cur') /\ TypeBits.offers tb cur' bs.
Proof.
  intros Hv Ho H. rewrite number_types in H by done. apply (TypeBits.readBits_value 2 (type_of_number v)); [|done]. by destruct v.
Qed.

(** What an ordinary number is when it was read as a double, or as an integer. *)
Lemma canonical_is_double v bin : is_number v -> ordinary_number v -> wf_value v -> canonical v = BDouble bin ->
  type_of_number v = TypeBits.kDouble /\ restored v = BDouble bin.
Proof.
  intros Hv [_ H2] Hw. destruct v; try done; cbn [canonical wf_value] in *.
  - rewrite (proj2 (Z.eqb_neq _ _)) by lia. unfold appendCanonicalInt. by destruct (_ && _).
  - destruct (Z.eqb_spec z (- 2 ^ 63)) as [->|]; [done|]. unfold appendCanonicalInt. by destruct (_ && _).
  - intros H. split; [done|]. cbn [restored]. unfold canonical_double in H. destruct (Binary64.isnan bits); [done|].
    destruct (int_value _); [unfold appendCanonicalInt in H; by destruct (_ && _)|done].
Qed.

Lemma canonical_is_int v z : is_number v -> ordinary_number v -> wf_value v -> canonical v = appendCanonicalInt z ->
  restored v = (if type_of_number v =? TypeBits.kDouble then BDouble (Binary64.of_i64 z)
                else if type_of_number v =? TypeBits.kInt then BInt (signed32 (wrap32 z)) else BLong z).
Proof.
  intros Hv [H1 H2] Hw. destruct v; try done; cbn [canonical wf_value type_of_number] in *.
  - rewrite (proj2 (Z.eqb_neq _ _)) by lia. intros <-%canonical_int_inj. cbn. by rewrite signed32_wrap by lia.
  - destruct (Z.eqb_spec z0 (- 2 ^ 63)) as [->|]; [done|]. by intros <-%canonical_int_inj.
  - intros H. cbn. rewrite (of_i64_canonical bits z) by (done || congruence). unfold canonical_double in H.
    destruct (Binary64.isnan bits); [|done]. unfold appendCanonicalInt in H. by destruct (_ && _).
Qed.

(** No number but a decimal is read as one. *)
Lemma canonical_not_decimal v h l : is_number v -> canonical v <> BDecimal h l.
Proof.
  intros Hv. destruct v; try done; cbn [canonical]; unfold canonical_double, appendCanonicalInt.
  - destruct (_ =? _); [done|]. by destruct (_ && _).
  - destruct (_ =? _); [done|]. by destruct (_ && _).
  - destruct (Binary64.isnan bits); [done|]. destruct (int_value _) as [z|]; [by destruct (_ && _)|done].
Qed.

(** How a number is read with its type bits, given how it is read without. *)
Definition restores (v : bson) (x : result (bson * BufReader)) (y : TypeBits.t -> Z -> result (bson * BufReader * Z)) : Prop :=
  forall r tb cur bs, x = Ok (canonical v, r) -> TypeBits.offers tb cur (types v ++ bs) ->
    exists cur', y tb cur = Ok (restored v, r, cur') /\ TypeBits.offers tb cur' bs.

Ltac refute_decimal Hv H := exfalso; revert H; unfold BDec; cbv zeta; intros [= H _]; symmetry in H; by apply (canonical_not_decimal _ _ _ Hv) in H.

Lemma large_restores v i s r0 : is_number v -> ordinary_number v -> wf_value v ->
  restores v (readLarge L i s r0) (fun tb cur => toBsonLarge L tb i s r0 cur).
Proof.
  intros Hv Ho Hw r tb cur bs H Hb. destruct (read_number_type v tb cur bs Hv Ho Hb) as (cur' & Et & Hb').
  exists cur'. split; [|done]. unfold toBsonLarge. rewrite Et. cbn [rbind]. unfold readLarge in H.
  destruct (readBig 8 i r0) as [[enc r1]|]; [|done]. cbn [rbind] in *. destruct (negb (Z.testbit enc 63)).
  - destruct (Z.testbit enc 0); cbn [negb] in H.
    + destruct (Decimal128.of_double _ _ _ _) as [dec|]; [|done]. cbn [rbind] in H.
      destruct (readDecimalContinuation _ _ _ _) as [[dec' r2]|]; [|done]. cbn [rbind] in H. refute_decimal Hv H.
    + injection H as H <-. symmetry in H. destruct (canonical_is_double _ _ Hv Ho Hw H) as [-> ->]. done.
  - destruct (enc =? u64_max).
    + injection H as H <-. symmetry in H. destruct (canonical_is_double _ _ Hv Ho Hw H) as [-> ->]. done.
    + destruct (readBig 8 i r1) as [[low r2]|]; [|done]. cbn [rbind] in H. refute_decimal Hv H.
Qed.

Lemma small_restores v i s r0 : is_number v -> ordinary_number v -> wf_value v ->
  restores v (readSmall L i s r0) (fun tb cur => toBsonSmall L tb i s r0 cur).
Proof.
  intros Hv Ho Hw r tb cur bs H Hb. destruct (read_number_type v tb cur bs Hv Ho Hb) as (cur' & Et & Hb').
  exists cur'. split; [|done]. unfold toBsonSmall. rewrite Et. cbn [rbind]. unfold readSmall in H.
  destruct (readBig 8 i r0) as [[enc r1]|]; [|done]. cbn [rbind] in *. destruct (Z.shiftr enc 62 =? 0).
  { destruct (readBig 8 i r1) as [[low r2]|]; [|done]. cbn [rbind] in H. refute_decimal Hv H. }
  destruct (Z.shiftr enc 62 <=? 2).
  - destruct (Z.testbit enc 0); cbn [negb] in H.
    + match type of H with rbind ?x _ = _ => destruct x as [dec|]; [|done] end. cbn [rbind] in H.
      destruct (readDecimalContinuation _ _ _ _) as [[dec' r2]|]; [|done]. cbn [rbind] in H. refute_decimal Hv H.
    + injection H as H <-. symmetry in H. destruct (canonical_is_double _ _ Hv Ho Hw H) as [-> ->]. done.
  - destruct (Z.land enc 3 =? kDCMEqualToDouble).
    + injection H as H <-. symmetry in H. destruct (canonical_is_double _ _ Hv Ho Hw H) as [-> ->]. done.
    + destruct (_ =? kDCMEqualToDoubleRoundedUpTo15Digits).
      * destruct (Decimal128.of_double _ _ _ _) as [dec|]; [|done]. cbn [rbind] in H. refute_decimal Hv H.
      * destruct (Decimal128.of_double _ _ _ _) as [dec|]; [|done]. cbn [rbind] in H.
        destruct (readDecimalContinuation _ _ _ _) as [[dec' r2]|]; [|done]. cbn [rbind] in H. refute_decimal Hv H.
Qed.

Lemma integer_restores v c i s r0 : is_number v -> ordinary_number v -> wf_value v ->
  restores v (readInteger L c i s r0) (fun tb cur => toBsonInteger L tb c i s r0 cur).
Proof.
  intros Hv Ho Hw r tb cur bs H Hb. destruct (read_number_type v tb cur bs Hv Ho Hb) as (cur' & Et & Hb').
  exists cur'. split; [|done]. unfold toBsonInteger. rewrite Et. cbn [rbind]. unfold readInteger in H.
  destruct (readBig (numBytesForInt c) i r0) as [[enc r1]|]; [|done]. cbn [rbind] in *. destruct (Z.testbit enc 0); cbn [negb] in *.
  - destruct (readBig (8 - numBytesForInt c) i r1) as [[f r2]|]; [|done]. cbn [rbind] in *.
    match type of H with (if ?b then _ else _) = _ => destruct b end.
    + injection H as H <-. symmetry in H. destruct (canonical_is_double _ _ Hv Ho Hw H) as [-> ->]. done.
    + match type of H with (if ?b then _ else _) = _ => destruct b end.
      * destruct (Decimal128.of_double _ _ _ _) as [dec|]; [|done]. cbn [rbind] in H. refute_decimal Hv H.
      * match type of H with rbind ?x _ = _ => destruct x as [dec|]; [|done] end. cbn [rbind] in H.
        destruct (readDecimalContinuation _ _ _ _) as [[dec' r3]|]; [|done]. cbn [rbind] in H. refute_decimal Hv H.
  - injection H as H <-. symmetry in H. rewrite (canonical_is_int _ _ Hv Ho Hw H). by destruct v.
Qed.

Lemma zero_restores v r tb cur bs : is_number v -> ordinary_number v -> wf_value v -> canonical v = BInt 0 ->
  TypeBits.offers tb cur (types v ++ bs) ->
  exists cur', toBsonZero tb r cur = Ok (restored v, r, cur') /\ TypeBits.offers tb cur' bs.
Proof.
  intros Hv Ho Hw H Hb. destruct (read_number_type v tb cur bs Hv Ho Hb) as (cur' & Et & Hb').
  exists cur'. split; [|done]. unfold toBsonZero, TypeBits.readZero. rewrite Et. cbn [rbind].
  rewrite (canonical_is_int v 0 Hv Ho Hw H). by destruct v.
Qed.

Lemma numeric_restores v c i r0 r tb cur bs : is_number v -> ordinary_number v -> wf_value v ->
  readNumeric L c i r0 = Some (Ok (canonical v, r)) -> TypeBits.offers tb cur (types v ++ bs) ->
  exists cur', toBsonNumeric L tb c i r0 cur = Some (Ok (restored v, r, cur')) /\ TypeBits.offers tb cur' bs.
Proof.
  intros Hv Ho Hw H Hb. unfold readNumeric in H. unfold toBsonNumeric. fold (between kNumericNegative8ByteInt c kNumericNegative1ByteInt).
  fold (between kNumericPositive1ByteInt c kNumericPositive8ByteInt).
  destruct (c =? kNumericNaN).
  { apply (inj Some) in H. injection H as H <-. symmetry in H. destruct (canonical_is_double _ _ Hv Ho Hw H) as [Et Er].
    destruct (read_number_type v tb cur bs Hv Ho Hb) as (cur' & E & Hb'). exists cur'. split; [|done]. unfold toBsonNaN. by rewrite E, Et, Er. }
  destruct (c =? kNumericZero).
  { apply (inj Some) in H. injection H as H <-. symmetry in H. destruct (zero_restores v r0 tb cur bs Hv Ho Hw H Hb) as (cur' & E & Hb').
    exists cur'. by rewrite E. }
  repeat match type of H with (if ?b then _ else _) = _ => destruct b end; [..|done]; apply (inj Some) in H;
    (edestruct large_restores as (cur' & E & Hb'); [exact Hv|exact Ho|exact Hw|exact H|exact Hb|]) ||
    (edestruct small_restores as (cur' & E & Hb'); [exact Hv|exact Ho|exact Hw|exact H|exact Hb|]) ||
    (edestruct integer_restores as (cur' & E & Hb'); [exact Hv|exact Ho|exact Hw|exact H|exact Hb|]);
    exists cur'; rewrite E; done.
Qed.

(** A number is written at some type byte, and restored from there. *)
Definition number_restores (v : bson) (i : bool) (s : bytes) : Prop :=
  exists c s', s = append8 c i ++ s' /\ kNumericNaN <= c <= kNumericPositiveLargeMagnitude /\
    forall r tb cur bs, TypeBits.offers tb cur (types v ++ bs) ->
      exists cur', toBsonNumeric L tb c i (s' ++ r) cur = Some (Ok (restored v, r, cur')) /\ TypeBits.offers tb cur' bs.

Lemma ordinary_restores v i s : is_number v -> ordinary_number v -> wf_value v -> reads_number L (canonical v) i s -> number_restores v i s.
Proof.
  intros Hv Ho Hw (c & s' & -> & Hc & Hr). exists c, s'. split; [done|]. split; [done|]. intros r tb cur bs Hb.
  exact (numeric_restores v c i (s' ++ r) r tb cur bs Hv Ho Hw (Hr r) Hb).
Qed.

Lemma negative_zero_restores i : number_restores (BDouble (2 ^ 63)) i (append8 kNumericZero i).
Proof.
  exists kNumericZero, []. split; [by rewrite app_nil_r|]. split; [done|]. intros r tb cur bs Hb.
  change (types (BDouble (2 ^ 63))) with (TypeBits.value_bits 2 3 ++ TypeBits.value_bits 3 0) in Hb. rewrite <- app_assoc in Hb.
  destruct (TypeBits.readBits_value 2 3 _ _ _ ltac:(done) Hb) as (cur1 & E1 & Hb1).
  destruct (TypeBits.readBits_offers 3 0 tb bs 3 cur1 ltac:(done) Hb1) as (cur2 & E2 & Hb2).
  exists cur2. split; [|done]. change (Some (toBsonZero tb r cur) = Some (Ok (BDouble (2 ^ 63), r, cur2))).
  unfold toBsonZero, TypeBits.readZero, TypeBits.readNumeric. rewrite E1. cbn [rbind]. change (3 =? TypeBits.kSpecialZeroPrefix) with true. cbv iota.
  by rewrite E2.
Qed.

Lemma min_long_restores i : exists s, appendInteger (- 2 ^ 63) i = Ok s /\ number_restores (BLong (- 2 ^ 63)) i s.
Proof.
  eexists. split; [reflexivity|]. exists kNumericNegativeLargeMagnitude. eexists. split; [reflexivity|]. split; [done|].
  intros r tb cur bs Hb. destruct (TypeBits.readBits_value 2 1 tb bs cur ltac:(done) Hb) as (cur' & E & Hb'). exists cur'. split; [|done].
  change (toBsonNumeric L tb kNumericNegativeLargeMagnitude i) with (fun r cur => Some (toBsonLarge L tb (negb i) true r cur)). cbv beta.
  unfold toBsonLarge, TypeBits.readNumeric. rewrite E. cbn [rbind]. rewrite readBig8 by done. reflexivity.
Qed.

Lemma numbers_restored v i : is_number v -> wf_value v -> exists s, appendBsonValue L v i = Ok s /\ number_restores v i s.
Proof.
  intros Hv Hw. destruct v; try done; cbn [wf_value] in Hw.
  - destruct (integer_read L z i ltac:(lia)) as (s & E & H). exists s. split; [exact E|]. by apply ordinary_restores.
  - destruct (decide (z = - 2 ^ 63)) as [->|Hne]; [exact (min_long_restores i)|].
    destruct (integer_read L z i ltac:(lia)) as (s & E & H). exists s. split; [exact E|]. apply ordinary_restores; try done. split; congruence.
  - destruct (decide (bits = 2 ^ 63)) as [->|Hne].
    { exists (append8 kNumericZero i). split; [reflexivity|apply negative_zero_restores]. }
    destruct (double_read L bits i Hw) as (s & E & H). exists s. split; [exact E|]. apply ordinary_restores; try done. split; congruence.
Qed.

(** ** Values *)

(** [reads_key], with type bits. *)
Definition restores_key (v : bson) (i : bool) : Prop :=
  exists c s, appendBsonValue L v i = Ok (append8 c i ++ s) /\ kMinKey <= c <= kMaxKey /\
    forall fuel r tb cur bs, ends i r -> r <> [] -> (2 * length s + 2 <= fuel)%nat -> TypeBits.offers tb cur (types v ++ bs) ->
      exists cur', toBsonValue L fuel tb c i (s ++ r) cur = Ok (restored v, r, cur') /\ TypeBits.offers tb cur' bs.

(** The values that have no type bits and hold no other value. *)
Definition plain (v : bson) : Prop :=
  match v with
  | BInt _ | BLong _ | BDouble _ | BDecimal _ _ | BString _ | BSymbol _ | BObject _ | BArray _ | BCodeWScope _ _ => False
  | _ => True
  end.

Lemma readNumeric_not_plain c i r0 w r : readNumeric L c i r0 = Some (Ok (w, r)) -> ~ plain w.
Proof.
  intros H Hw. unfold readNumeric in H.
  assert (forall z, ~ plain (appendCanonicalInt z)) as Hi by (intros z; unfold appendCanonicalInt; destruct (_ && _); intros []).
  repeat match type of H with (if ?b then _ else _) = _ => destruct b end; try done; apply Some_inj in H; try (by injection H as <- _);
    unfold readLarge, readSmall, readInteger in H;
    repeat match type of H with
           | rbind ?x _ = _ => destruct x as [?|]; [cbn [rbind] in H|done]
           | context [let '(_, _) := ?p in _] => destruct p
           | (if ?b then _ else _) = _ => destruct b
           end; injection H as <- _; first [exact Hw|exact (Hi _ Hw)].
Qed.

Lemma plain_agree c i x w r : readScalar L c i x = Some (Ok (w, r)) -> plain w -> r <> [] -> toBsonPlain c i x = Some (Ok (w, r)).
Proof.
  intros H Hw Hr. unfold readScalar in H. unfold toBsonPlain.
  do 9 (match type of H with (if ?b then _ else _) = _ => destruct b; [exact H|] end).
  destruct (c =? kStringLike). { apply (inj Some) in H. destruct (readString i x) as [[s r1]|]; [|done]. cbn [rbind] in H. by injection H as <- _. }
  destruct (c =? kCode).
  { apply (inj Some) in H. destruct (readString i x) as [[s r1]|] eqn:E; [|done]. cbn [rbind] in H. injection H as <- <-.
    by rewrite (readString_agree _ _ _ _ E Hr). }
  destruct (c =? kBinData); [exact H|]. destruct (c =? kRegEx).
  { apply (inj Some) in H. destruct (readName i x) as [[p r1]|] eqn:E1; [|done]. cbn [rbind] in H.
    destruct (readName i r1) as [[f r2]|] eqn:E2; [|done]. cbn [rbind] in H. injection H as <- <-.
    rewrite (readName_agree _ _ _ _ E1). cbn [rbind]. by rewrite (readName_agree _ _ _ _ E2). }
  destruct (c =? kDBRef); [exact H|]. by apply readNumeric_not_plain in H.
Qed.

Lemma plain_value fuel c i x w r : toBsonValueCanonical L fuel c i x = Ok (w, r) -> plain w -> r <> [] -> toBsonPlain c i x = Some (Ok (w, r)).
Proof.
  intros H Hw Hr. destruct fuel as [|fuel]; [done|]. cbn [toBsonValueCanonical] in H. destruct (readScalar L c i x) as [y|] eqn:E.
  - apply plain_agree; [|done..]. by rewrite E, H.
  - repeat match type of H with (if ?b then _ else _) = _ => destruct b end; try done;
      repeat match type of H with rbind ?x _ = _ => destruct x as [[? ?]|]; [cbn [rbind] in H|done] end; by injection H as <- _.
Qed.

Lemma plain_restores v i : plain v -> wf_value v -> keyable v -> restores_key v i.
Proof.
  intros Hp Hw Hk. assert (canonical v = restored v /\ plain (canonical v) /\ types v = [] /\ scalar v) as (Ec & Hc & Et & Hs) by by destruct v.
  destruct (scalar_keys L v i Hs Hw Hk) as (c & s & E & Hr & H). exists c, s. split; [done|]. split; [done|].
  intros [|fuel] r tb cur bs He Hn Hf Hb; [lia|]. exists cur. rewrite Et in Hb. split; [|done]. cbn [toBsonValue].
  rewrite (plain_value (2 * length s + 2) c i (s ++ r) (canonical v) r) by (done || by apply H). by rewrite Ec.
Qed.

Lemma number_restores_key v i : is_number v -> wf_value v -> restores_key v i.
Proof.
  intros Hv Hw. destruct (numbers_restored v i Hv Hw) as (bs & E & c & s & -> & Hc & H). exists c, s. split; [done|].
  unfold kNumericNaN, kNumericPositiveLargeMagnitude, kNumeric in Hc. split; [unfold kMinKey, kMaxKey; lia|].
  intros [|fuel] r tb cur tbs He Hn Hf Hb; [lia|]. destruct (H r tb cur tbs Hb) as (cur' & E' & Hb'). exists cur'. split; [|done].
  cbn [toBsonValue]. replace (toBsonPlain c i (s ++ r)) with (@None (result (bson * BufReader))); [by rewrite E'|].
  unfold toBsonPlain. by rewrite !(proj2 (Z.eqb_neq c _)) by (unfold kMinKey, kMaxKey, kNullish, kUndefined, kBoolTrue, kBoolFalse, kBool, kDate,
    kTimestamp, kOID, kCode, kBinData, kRegEx, kDBRef; lia).
Qed.

Lemma string_restores s (sym i : bool) : restores_key (if sym then BSymbol s else BString s) i.
Proof.
  exists kStringLike, (appendStringLike s i). split; [by destruct sym|]. split; [done|]. intros [|fuel] r tb cur bs He Hn Hf Hb; [lia|].
  assert (TypeBits.offers tb cur (sym :: bs)) as Hb' by by destruct sym. destruct (TypeBits.readBit_offers _ _ _ _ Hb') as (cur' & E & Hb2).
  exists cur'. split; [|done]. change (toBsonStringLike tb i (appendStringLike s i ++ r) cur = Ok (restored (if sym then BSymbol s else BString s), r, cur')).
  unfold toBsonStringLike, TypeBits.readStringLike. rewrite E. cbn [rbind].
  rewrite (readString_agree i _ s r) by (done || by apply readString_append). by destruct sym.
Qed.

Lemma append8_nonempty c i r : append8 c i ++ r <> [].
Proof. by destruct i. Qed.

(** The fields of an object, and the items of an array. *)
Lemma fields_restored d i : Forall (fun e => restores_key e.2 i) d -> Forall (fun e => cstring e.1) d ->
  exists s, fields_key L d i = Ok s /\ (forall r, ends i (s ++ r) /\ s ++ r <> []) /\
    forall fuel r tb cur bs, (2 * length s + 1 <= fuel)%nat -> TypeBits.offers tb cur (all_types d ++ bs) ->
      exists cur', toBson_fields L fuel tb i (s ++ r) cur = Ok (map (fun e => (e.1, restored e.2)) d, r, cur') /\ TypeBits.offers tb cur' bs.
Proof.
  induction d as [|[n v] d IH]; intros Hr Hn.
  - exists (append8 0 i). split; [done|]. split; [intros; split; [apply ends_zero|apply append8_nonempty]|].
    intros [|fuel] r tb cur bs Hf Hb; [lia|]. exists cur. split; [|done]. cbn [toBson_fields]. by rewrite readByte_append by lia.
  - apply Forall_cons in Hr as [(c & s & Ev & Hc & Hv) Hr]. apply Forall_cons in Hn as [Hn Hns]. cbn [fst snd] in *.
    destruct (IH Hr Hns) as (t & Et & He & Ht). unfold fields_key in *. cbn [foldr fst snd]. rewrite Ev, Et. cbn [rbind].
    pose proof (generic_type v) as Hg. unfold kMinKey, kMaxKey in Hg, Hc. eexists. split; [done|]. split.
    { intros r. rewrite <- !app_assoc. split; [apply ends_append8; lia|apply append8_nonempty]. }
    intros [|fuel] r tb cur bs Hf Hb; [lia|]. rewrite !length_app, !length_append8, length_flip_if in Hf.
    cbn [toBson_fields]. rewrite <- !app_assoc, readByte_append by lia. cbn [rbind].
    rewrite (proj2 (Z.eqb_neq _ 0)) by lia. rewrite (readName_agree i _ n _ (readName_append i n _ Hn)). cbn [rbind].
    rewrite readByte_append by lia. cbn [rbind]. cbn [all_types foldr snd] in Hb. rewrite <- app_assoc in Hb.
    destruct (Hv fuel (t ++ r) tb cur _ (proj1 (He r)) (proj2 (He r)) ltac:(lia) Hb) as (cur1 & -> & Hb1). cbn [rbind].
    destruct (Ht fuel r tb cur1 bs ltac:(lia) Hb1) as (cur2 & -> & Hb2). by exists cur2.
Qed.

Lemma items_restored d i : Forall (fun e => restores_key e.2 i) d ->
  exists s, items_key L d i = Ok s /\ (forall r, ends i (s ++ r) /\ s ++ r <> []) /\
    forall fuel k r tb cur bs, (2 * length s + 1 <= fuel)%nat -> TypeBits.offers tb cur (all_types d ++ bs) ->
      exists cur', toBson_items L fuel tb k i (s ++ r) cur =
        Ok (imap (fun j v => (numStr (k + j), v)) (map (fun e => restored e.2) d), r, cur') /\ TypeBits.offers tb cur' bs.
Proof.
  induction d as [|[n v] d IH]; intros Hr.
  - exists (append8 0 i). split; [done|]. split; [intros; split; [apply ends_zero|apply append8_nonempty]|].
    intros [|fuel] k r tb cur bs Hf Hb; [lia|]. exists cur. split; [|done]. cbn [toBson_items]. by rewrite readByte_append by lia.
  - apply Forall_cons in Hr as [(c & s & Ev & Hc & Hv) Hr]. cbn [snd] in *.
    destruct (IH Hr) as (t & Et & He & Ht). unfold items_key in *. cbn [foldr snd]. rewrite Ev, Et. cbn [rbind].
    unfold kMinKey, kMaxKey in Hc. eexists. split; [done|]. split.
    { intros r. rewrite <- !app_assoc. split; [apply ends_append8; lia|apply append8_nonempty]. }
    intros [|fuel] k r tb cur bs Hf Hb; [lia|]. rewrite !length_app, !length_append8 in Hf.
    cbn [toBson_items]. rewrite <- !app_assoc, readByte_append by lia. cbn [rbind]. rewrite (proj2 (Z.eqb_neq _ 0)) by lia.
    cbn [all_types foldr snd] in Hb. rewrite <- app_assoc in Hb.
    destruct (Hv fuel (t ++ r) tb cur _ (proj1 (He r)) (proj2 (He r)) ltac:(lia) Hb) as (cur1 & -> & Hb1). cbn [rbind].
    destruct (Ht fuel (S k) r tb cur1 bs ltac:(lia) Hb1) as (cur2 & -> & Hb2). exists cur2. split; [|done].
    cbn [rbind map imap]. rewrite Nat.add_0_r. do 4 f_equal. apply imap_ext. intros j x _. cbn. by rewrite Nat.add_succ_r.
Qed.

Lemma doc_restores (d : Document) i : Forall (fun e => forall i, wf_value e.2 -> keyable e.2 -> restores_key e.2 i) d ->
  foldr (fun e P => wf_value e.2 /\ P) True d -> foldr (fun e P => keyable e.2 /\ P) True d -> Forall (fun e => restores_key e.2 i) d.
Proof.
  rewrite wf_values, keyable_doc, !Forall_forall. intros IH Hw Hk e He. by apply IH; [|apply Hw|apply Hk].
Qed.

Lemma values_restored v : forall i, wf_value v -> keyable v -> restores_key v i.
Proof.
  induction v as [v Hs|s d IH|d IH|d IH] using bson_nested_ind; intros i Hw Hk.
  { destruct v; try done; try (by apply plain_restores); try (by apply number_restores_key);
      [exact (string_restores _ false i)|exact (string_restores _ true i)]. }
  all: cbn [wf_value keyable] in Hw, Hk; destruct Hw as [Hn Hw]; pose proof (doc_restores d i IH Hw Hk) as Hr.
  - destruct (fields_restored d i Hr Hn) as (t & Et & He & Ht). exists kCodeWithScope, (appendStringLike s i ++ t).
    split; [cbn [appendBsonValue]; fold (fields_key L d i); by rewrite Et|]. split; [done|]. intros [|fuel] r tb cur bs _ _ Hf Hb; [lia|].
    rewrite length_app in Hf. destruct (Ht fuel r tb cur bs ltac:(lia) Hb) as (cur' & E & Hb'). exists cur'. split; [|done].
    rewrite <- app_assoc. change (toBsonValue L (S fuel) tb kCodeWithScope i ?x cur) with
      (let! (code, r) := ks_readString i x in let! (scope, r, cur) := toBson_fields L fuel tb i r cur in Ok (BCodeWScope code scope, r, cur)).
    rewrite (readString_agree i _ s (t ++ r)) by (apply readString_append, He || apply He). cbn [rbind]. by rewrite E.
  - destruct (fields_restored d i Hr Hn) as (t & Et & He & Ht). exists kObject, t.
    split; [cbn [appendBsonValue]; fold (fields_key L d i); by rewrite Et|]. split; [done|]. intros [|fuel] r tb cur bs _ _ Hf Hb; [lia|].
    destruct (Ht fuel r tb cur bs ltac:(lia) Hb) as (cur' & E & Hb'). exists cur'. split; [|done].
    change (toBsonValue L (S fuel) tb kObject i ?x cur) with (let! (d, r, cur) := toBson_fields L fuel tb i x cur in Ok (BObject d, r, cur)). by rewrite E.
  - destruct (items_restored d i Hr) as (t & Et & He & Ht). exists kArray, t.
    split; [cbn [appendBsonValue]; fold (items_key L d i); by rewrite Et|]. split; [done|]. intros [|fuel] r tb cur bs _ _ Hf Hb; [lia|].
    destruct (Ht fuel 0%nat r tb cur bs ltac:(lia) Hb) as (cur' & E & Hb'). exists cur'. split; [|done].
    change (toBsonValue L (S fuel) tb kArray i ?x cur) with (let! (d, r, cur) := toBson_items L fuel tb 0 i x cur in Ok (BArray d, r, cur)). by rewrite E.
Qed.

(** ** Keys *)

Lemma toBson_loop_end fuel tb descending k r cur : descending k = false ->
  toBson_loop L (S fuel) tb descending k (append8 kEnd false ++ r) cur = Ok [].
Proof.
  intros Hd. set (x := append8 kEnd false ++ r).
  assert (readByte false x = Ok (kEnd, r)) as E by exact (readByte_append kEnd false r ltac:(done)).
  destruct x as [|b x]; [discriminate|]. cbn [toBson_loop]. rewrite Hd, E. done.
Qed.

Lemma toBson_loop_value fuel tb descending k c s r cur : kMinKey <= c <= kMaxKey ->
  toBson_loop L (S fuel) tb descending k (append8 c (descending k) ++ s ++ r) cur =
    (let! (v, r, cur) := toBsonValue L (2 * length (s ++ r) + 2) tb c (descending k) (s ++ r) cur in
     let! d := toBson_loop L fuel tb descending (k + 1) r cur in Ok (([], v) :: d)).
Proof.
  unfold kMinKey, kMaxKey. intros Hc. set (x := append8 c (descending k) ++ s ++ r).
  assert (readByte (descending k) x = Ok (c, s ++ r)) as E by (apply readByte_append; lia).
  destruct x as [|b x]; [discriminate|]. cbn [toBson_loop]. rewrite E. cbn [rbind].
  rewrite (proj2 (Z.eqb_neq c kLess)), (proj2 (Z.eqb_neq c kGreater)) by (unfold kLess, kGreater; lia). cbn [orb rbind].
  rewrite (proj2 (Z.eqb_neq c kEnd)) by (unfold kEnd; lia). done.
Qed.

Lemma elements_restored obj : forall descending k, key_fields obj -> descending (k + nFields obj) = false ->
  exists key, appendElements L obj k descending kInclusive = Ok key /\ (forall j r, ends j (key ++ r) /\ key ++ r <> []) /\
    forall fuel r tb cur bs, (length key <= fuel)%nat -> TypeBits.offers tb cur (all_types obj ++ bs) ->
      toBson_loop L fuel tb descending k (key ++ r) cur = Ok (map (fun e => ([], restored e.2)) obj).
Proof.
  unfold nFields. induction obj as [|[n v] obj IH]; intros descending k Hw Hd.
  - exists (append8 kEnd false). split; [done|]. split; [intros j r; split; [by apply ends_append8|apply append8_nonempty]|].
    intros [|fuel] r tb cur bs Hf _; [cbn in Hf; lia|]. rewrite Z.add_0_r in Hd. by apply toBson_loop_end.
  - apply Forall_cons in Hw as [(Hn & Hv & Hk) Hw]. cbn [fst snd] in *. subst n.
    destruct (values_restored v (descending k) Hv Hk) as (c & s & Ev & Hc & Hr).
    destruct (IH descending (k + 1) Hw) as (key & Ek & He & Hl); [rewrite <- Hd; f_equal; cbn [length]; lia|].
    cbn [appendElements]. rewrite Ev. cbn [rbind]. rewrite Ek. cbn [rbind]. eexists. split; [done|].
    split; [intros; rewrite <- !app_assoc; split; [apply ends_append8; unfold kMinKey, kMaxKey in Hc; lia|apply append8_nonempty]|].
    intros [|fuel] r tb cur bs Hf Hb; rewrite !length_app, length_append8 in Hf; [lia|]. rewrite <- !app_assoc.
    cbn [all_types foldr snd] in Hb. rewrite <- app_assoc in Hb. rewrite toBson_loop_value by done.
    destruct (Hr (2 * length (s ++ key ++ r) + 2)%nat (key ++ r) tb cur (all_types obj ++ bs) (proj1 (He _ r)) (proj2 (He false r))) as (cur' & -> & Hb');
      [rewrite !length_app; lia|exact Hb|]. cbn [rbind]. by rewrite (Hl fuel r tb cur' bs) by (done || lia).
Qed.

Lemma all_types_appends obj : key_fields obj -> TypeBits.appends (appendAllTypes L obj) (all_types obj).
Proof.
  intros H. apply appendAll_appends. eapply Forall_impl; [exact H|]. intros e (_ & Hw & Hk). by apply appendTypes_appends.
Qed.

(** The key and the type bits of a document give it back, from wherever the type bits are read, whatever
    follows the key; a document with more than 1,008 type bits has none. *)
Lemma key_restored obj descending : key_fields obj -> descending (nFields obj) = false ->
  exists key, resetToKey L obj descending kInclusive = Ok key /\
    if decide (length (all_types obj) <= 1008)%nat then
      exists tb, resetToKeyAndTypes L obj descending = Ok (key, tb) /\ TypeBits.holds tb (all_types obj) /\
        forall tb' r, TypeBits.offers tb' 0 (all_types obj) ->
          toBsonSafe L tb' descending (key ++ r) = Ok (map (fun e => ([], restored e.2)) obj)
    else resetToKeyAndTypes L obj descending = Err KeyTooLong.
Proof.
  intros Hw Hd. destruct (elements_restored obj descending 0 Hw Hd) as (key & Ek & _ & Hl). exists key. split; [exact Ek|].
  unfold resetToKeyAndTypes. change (resetToKey L obj descending kInclusive) with (appendElements L obj 0 descending kInclusive). rewrite Ek. cbn [rbind].
  pose proof (all_types_appends obj Hw _ _ TypeBits.reset_holds) as Ha. cbn [app] in Ha. destruct (decide _); [|by rewrite Ha].
  destruct Ha as (tb & -> & Hh). exists tb. split; [done|]. split; [done|]. intros tb' r Hb. unfold toBsonSafe.
  apply (Hl _ _ _ _ []); [rewrite length_app; lia|by rewrite app_nil_r].
Qed.


End Restored.

