(* ===== verification/MongoRecord.v ===== *)
(** * Records of the store (base/eloq_record.{h,cpp})

    What a key of the transaction service holds: a payload, which is a document, the record id of a
    unique index entry, or nothing, and the type bits of the key that the KeyString left out. *)

From S2P Require Import Prelude Bytes Bson RawBson KeyDecoder RecordId TypeBits.
Import KeyDecoder.Key.
#[local] Open Scope Z_scope.

Module MongoRecord.

Record t := mk {
  encoded_blob : bytes;
  unpack_info : bytes;
}.

#[global] Instance t_eq_dec : EqDecision t.
Proof. solve_decision. Defined.

Definition empty : t := mk [] [].

Definition Length (r : t) : Z := blen (encoded_blob r) + blen (unpack_info r).
Definition SetEncodedBlob (blob : bytes) (r : t) : t := mk blob (unpack_info r).
Definition SetUnpackInfo (unpack : bytes) (r : t) : t := mk (encoded_blob r) unpack.

(** [ToRecordId]; the [assert(false)] on long ids is not part of a release build. *)
Definition ToRecordId (is_long : bool) (r : t) : result RecordId :=
  if is_long then
    let! _ := invariant (blen (encoded_blob r) =? 8) in
    Ok (kLong (signed64 (readBigEndian (encoded_blob r))))
  else RecordId_of_str (encoded_blob r).

(** A length is a [size_t] in the byte order of the machine. *)
Definition sized (s : bytes) : bytes := native (blen s) 8 ++ s.

(** [Serialize(std::vector<char>&, size_t&)]: the buffer is resized to end with the record. *)
Definition Serialize_at (r : t) (buf : bytes) (offset : nat) : bytes * nat :=
  let buf := take offset (buf ++ repeat Byte.x00 (offset - length buf)) in
  let buf := buf ++ sized (unpack_info r) ++ sized (encoded_blob r) in (buf, length buf).

(** [Serialize(std::string&)]. *)
Definition Serialize (r : t) (str : bytes) : bytes := str ++ sized (unpack_info r) ++ sized (encoded_blob r).

Definition SerializedLength (r : t) : Z := 8 * 2 + blen (unpack_info r) + blen (encoded_blob r).

(** A length and as many bytes, at [offset]. *)
Definition readSized (buf : bytes) (offset : nat) : bytes * nat :=
  let len := Z.to_nat (readNativeBytes (take 8 (drop offset buf))) in
  (take len (drop (offset + 8) buf), offset + 8 + len)%nat.

Definition Deserialize (buf : bytes) (offset : nat) : t * nat :=
  let (unpack, offset) := readSized buf offset in
  let (blob, offset) := readSized buf offset in (mk blob unpack, offset).

(** The type bits of a key, as every writer of the engine stores them: only when they tell something. *)
Definition setTypeBits (typeBits : TypeBits.t) (r : t) : t :=
  if TypeBits.isAllZeros typeBits then r else SetUnpackInfo (TypeBits.getBuffer typeBits) r.

(** ** Facts *)

Lemma length_sized s : Z.of_nat (length (sized s)) = 8 + blen s.
Proof. unfold sized, blen. rewrite length_app, length_native. lia. Qed.

Lemma readSized_sized pre s post : blen s < 2 ^ 64 ->
  readSized (pre ++ sized s ++ post) (length pre) = (s, (length pre + length (sized s))%nat).
Proof.
  intros Hs. pose proof (blen_nonneg s). unfold readSized, sized. rewrite drop_app_length, <- app_assoc.
  rewrite take_app_length' by by rewrite length_native. rewrite readNative_native.
  change (256 ^ Z.of_nat 8) with (2 ^ 64). rewrite Z.mod_small by lia.
  rewrite <- drop_drop, drop_app_length, drop_app_length' by by rewrite length_native.
  unfold blen. rewrite Nat2Z.id, take_app_length, length_app, length_native. f_equal. lia.
Qed.

(** What is serialized is read back where it was written, and nothing else is read. *)
Lemma deserialize_serialize r str post : blen (unpack_info r) < 2 ^ 64 -> blen (encoded_blob r) < 2 ^ 64 ->
  Deserialize (Serialize r str ++ post) (length str) = (r, length (Serialize r str)) /\
  Z.of_nat (length (Serialize r str)) = Z.of_nat (length str) + SerializedLength r.
Proof.
  intros Hu Hb. split.
  - unfold Deserialize, Serialize. rewrite <- !app_assoc, readSized_sized by done.
    replace (str ++ sized (unpack_info r) ++ sized (encoded_blob r) ++ post)
      with ((str ++ sized (unpack_info r)) ++ sized (encoded_blob r) ++ post) by by rewrite <- !app_assoc.
    rewrite <- length_app, readSized_sized by done. rewrite !length_app. destruct r. f_equal. cbn. lia.
  - unfold Serialize, SerializedLength. rewrite !length_app, !Nat2Z.inj_add, !length_sized. lia.
Qed.

(** The two serializations are one. *)
Lemma serialize_at_end r buf : Serialize_at r buf (length buf) = (Serialize r buf, length (Serialize r buf)).
Proof. unfold Serialize_at, Serialize. rewrite Nat.sub_diag. cbn [repeat]. by rewrite app_nil_r, firstn_all. Qed.

Lemma setTypeBits_blob tb r : encoded_blob (setTypeBits tb r) = encoded_blob r.
Proof. unfold setTypeBits. by destruct (TypeBits.isAllZeros tb). Qed.

(** The type bits an entry was stored with are read back from it, whatever its payload. *)
Lemma stored_type_bits tb bs tb0 blob : TypeBits.holds tb bs ->
  exists tb', TypeBits.resetFromBuffer tb0 (unpack_info (setTypeBits tb (mk blob []))) = Ok (tb', []) /\ TypeBits.offers tb' 0 bs.
Proof.
  intros H. unfold setTypeBits. destruct (TypeBits.isAllZeros tb) eqn:Ez.
  - exists TypeBits.reset. split; [done|]. change (forallb negb bs = true). by rewrite <- (TypeBits.h_zeros _ _ H).
  - destruct (TypeBits.stored_offers tb bs tb0 [] H) as (tb' & E & Ho). rewrite app_nil_r in E. by exists tb'.
Qed.

End MongoRecord.
