(* ===== verification/EloqUtil.v ===== *)
(** * Names, errors and keys of the engine (base/eloq_util.{h,cpp})

    The names of tables, the errors and record states the transaction service answers with, how the
    engine reports errors to the server, and the helpers on keys. *)

From S2P Require Import Prelude Bytes Bson RawBson BsonBuilder KeyDecoder RecordId MongoKey MongoRecord.
#[local] Open Scope Z_scope.

(** ** Names, errors and records *)

Inductive TableType := Primary | Secondary | UniqueSecondary.
Record TableName := mkTableName { tn_name : bytes; tn_type : TableType }.

#[global] Instance TableType_eq_dec : EqDecision TableType.
Proof. solve_decision. Defined.
#[global] Instance TableName_eq_dec : EqDecision TableName.
Proof. solve_decision. Defined.

#[global] Instance TableType_countable : Countable TableType.
Proof.
  refine (inj_countable' (fun t => match t with Primary => 0%nat | Secondary => 1%nat | UniqueSecondary => 2%nat end)
    (fun n => match n with 0%nat => Primary | 1%nat => Secondary | _ => UniqueSecondary end) _). by intros [].
Defined.
#[global] Instance TableName_countable : Countable TableName.
Proof. refine (inj_countable' (fun t => (tn_name t, tn_type t)) (fun p => mkTableName p.1 p.2) _). by intros []. Defined.

(** The codes the engine names, and the others. *)
Inductive TxErrorCode :=
| NO_ERROR
| WRITE_WRITE_CONFLICT
| OCC_BREAK_REPEATABLE_READ
| DEAD_LOCK_ABORT
| GET_RANGE_ID_ERROR
| SI_R4W_ERR_KEY_WAS_UPDATED
| UPSERT_TABLE_ACQUIRE_WRITE_INTENT_FAIL
| TX_INIT_FAIL
| WRITE_SET_BYTES_COUNT_EXCEED_ERR
| DUPLICATE_KEY
| UNIQUE_CONSTRAINT
| CAL_ENGINE_DEFINED_CONSTRAINT
| READ_WRITE_CONFLICT
| OUT_OF_MEMORY
| TX_REQUEST_TO_COMMITTED_ABORTED_TX
| TRANSACTION_NODE_NOT_LEADER
| INTERNAL_ERR_TIMEOUT
| LOG_SERVICE_UNREACHABLE
| WRITE_LOG_FAIL
| DATA_STORE_ERROR
| NG_TERM_CHANGED
| REQUEST_LOST
| UPSERT_TABLE_PREPARE_FAIL
| REQUESTD_TABLE_NOT_EXISTS
| CLUSTER_GATED
| READ_CATALOG_FAIL
| OTHER_TX_ERROR (code : Z).

#[global] Instance TxErrorCode_eq_dec : EqDecision TxErrorCode.
Proof. solve_decision. Defined.

Definition is_ok (e : TxErrorCode) : bool := match e with NO_ERROR => true | _ => false end.

Inductive RecordStatus := Normal | Deleted | Unknown | OtherStatus (code : Z).

#[global] Instance RecordStatus_eq_dec : EqDecision RecordStatus.
Proof. solve_decision. Defined.

Definition is_normal (s : RecordStatus) : bool := match s with Normal => true | _ => false end.

Inductive OperationType := Insert | Update | Delete | CreateTable | DropTable | AddIndex | DropIndex.

#[global] Instance OperationType_eq_dec : EqDecision OperationType.
Proof. solve_decision. Defined.

Record ScanBatchTuple := mkTuple {
  key_ : MongoKey.t;
  record_ : MongoRecord.t;
  status_ : RecordStatus;
  cce_addr_ : Z;
  version_ts_ : Z;
}.

(** ** Errors as the server reports them

    A [Status] is a value; an exception ends the operation. The conflicts leave as the exception
    [WriteConflictException], which is no [Status]. *)

Abbreviation Status := (result unit).

Definition uassertStatusOK (s : Status) : result unit := s.

Definition ThrowIfWriteConflict (txErr : TxErrorCode) : result unit :=
  match txErr with
  | WRITE_WRITE_CONFLICT | OCC_BREAK_REPEATABLE_READ | DEAD_LOCK_ABORT | GET_RANGE_ID_ERROR
  | SI_R4W_ERR_KEY_WAS_UPDATED | UPSERT_TABLE_ACQUIRE_WRITE_INTENT_FAIL => Err WriteConflict
  | _ => Ok tt
  end.

Definition TxErrorCodeToMongoStatus (txErr : TxErrorCode) : result Status :=
  match txErr with
  | NO_ERROR => Ok (Ok tt)
  | _ =>
      let! _ := ThrowIfWriteConflict txErr in
      Ok (Err match txErr with
              | TX_INIT_FAIL => NotYetInitialized
              | WRITE_SET_BYTES_COUNT_EXCEED_ERR => TransactionTooLarge
              | DUPLICATE_KEY => DuplicateKey
              | UNIQUE_CONSTRAINT | CAL_ENGINE_DEFINED_CONSTRAINT => CannotCreateIndex
              | READ_WRITE_CONFLICT => SnapshotUnavailable
              | OUT_OF_MEMORY => ExceededMemoryLimit
              | TX_REQUEST_TO_COMMITTED_ABORTED_TX => TransactionCommitted
              | TRANSACTION_NODE_NOT_LEADER => NotMaster
              | INTERNAL_ERR_TIMEOUT | LOG_SERVICE_UNREACHABLE | WRITE_LOG_FAIL | DATA_STORE_ERROR
              | NG_TERM_CHANGED | REQUEST_LOST => InternalError
              | UPSERT_TABLE_PREPARE_FAIL => OperationFailed
              | REQUESTD_TABLE_NOT_EXISTS => NamespaceNotFound
              | CLUSTER_GATED => ClusterGatePaused
              | _ => UnknownError
              end)
  end.

(** ** Keys of documents *)

Definition hasFieldNames (obj : Document) : bool := existsb (fun e => negb (bytes_eqb e.1 [])) obj.

Definition stripFieldNames (query : Document) : Document :=
  if hasFieldNames query then map (fun e => ([], e.2)) query else query.

Definition getIdBSONObjWithoutFieldName (obj : Document) : result Document :=
  match getField obj (lit "_id") with
  | Some e => Ok [([], e)]
  | None => Err InvariantFailure
  end.

Definition MaxKeySize : Z := 1024.

Definition checkKeySize (key : Document) : Status :=
  if MaxKeySize <=? objsize key then Err KeyTooLong else Ok tt.
