(* ===== verification/TableSchema.v ===== *)
(** * Schemas of tables (base/eloq_table_schema.{h,cpp})

    The multikey paths of an index and how they are stored, the schema of an index key, the entries
    an index build makes of a document, and the timestamps a table's schema image records. How a key
    generator takes keys out of a document ([IndexAccessMethod::getKeys]) and a filter expression
    matches one, how a catalog entry is parsed, and how the store's part of an image reads are
    arguments. *)

From S2P Require Import Prelude Bytes Bson RawBson BsonBuilder Decimals BsonCompare KeyDecoder KeyString KeyOrder RecordId TypeBits KeyToBson.
From S2P Require Import MongoKey MongoRecord EloqUtil.
#[local] Open Scope Z_scope.

(** ** Multikey paths

    For each field of the key pattern, the components of its path that are arrays: a [std::set<size_t>],
    kept as its elements in ascending order. *)

Abbreviation MultikeyPaths := (list (list nat)).

Module MultiKeyPaths.

Fixpoint set_insert (x : nat) (s : list nat) : list nat * bool :=
  match s with
  | [] => ([x], true)
  | y :: s' =>
      if (x <? y)%nat then (x :: s, true)
      else if (x =? y)%nat then (s, false)
      else let (s', inserted) := set_insert x s' in (y :: s', inserted)
  end.

(** [operator<] of two sets: lexicographic. *)
Fixpoint set_ltb (a b : list nat) : bool :=
  match a, b with
  | _, [] => false
  | [], _ :: _ => true
  | x :: a, y :: b => if (x <? y)%nat then true else if (y <? x)%nat then false else set_ltb a b
  end.

(** [std::includes]. *)
Fixpoint includes (first1 first2 : MultikeyPaths) : bool :=
  match first2, first1 with
  | [], _ => true
  | _, [] => false
  | b :: rest2, a :: rest1 =>
      if set_ltb b a then false else if set_ltb a b then includes rest1 first2 else includes rest1 rest2
  end.

Definition Contain (self rhs : MultikeyPaths) : result bool :=
  let! _ := invariant (Nat.eqb (length self) (length rhs)) in
  Ok (forallb (fun _ => includes self rhs) self).

Definition merge_components (components rhs : list nat) (changed : bool) : list nat * bool :=
  foldl (fun st component => let (s, inserted) := set_insert component st.1 in (s, st.2 || inserted)) (components, changed) rhs.

Fixpoint merge_loop (self rhs : MultikeyPaths) (changed : bool) : MultikeyPaths * bool :=
  match self, rhs with
  | components :: self, r :: rhs =>
      let (components, changed) := merge_components components r changed in
      let (self, changed) := merge_loop self rhs changed in (components :: self, changed)
  | _, _ => (self, changed)
  end.

(** The paths after the call, and whether they changed. *)
Definition MergeWith (self rhs : MultikeyPaths) : result (MultikeyPaths * bool) :=
  match self, rhs with
  | [], _ :: _ => Ok (rhs, true)
  | _ :: _, _ :: _ =>
      let! _ := invariant (Nat.eqb (length self) (length rhs)) in
      Ok (merge_loop self rhs false)
  | _, _ => Ok (self, false)
  end.

(** [FieldRef(path).numParts()]. *)
Definition numParts (path : bytes) : nat :=
  match path with [] => 0%nat | _ => S (length (filter (fun b => byte_Z b = 46) path)) end.

Definition kMaxKeyPatternPathLength : nat := 2048.

(** The array the components of a field are marked in: it keeps what earlier fields left beyond [numParts]. *)
Definition mark (arr : bytes) (component : nat) : result bytes :=
  let! _ := invariant (component <? length arr)%nat in Ok (<[component := Byte.x01]> arr).
Fixpoint mark_all (arr : bytes) (components : list nat) : result bytes :=
  match components with
  | [] => Ok arr
  | c :: components => let! arr := mark arr c in mark_all arr components
  end.

Fixpoint append_loop (keyPattern : Document) (paths : MultikeyPaths) (arr : bytes) : result Document :=
  match keyPattern with
  | [] => Ok []
  | (keyName, _) :: keyPattern =>
      let numParts := numParts keyName in
      let! _ := invariant (0 <? numParts)%nat in
      let! _ := invariant (numParts <=? kMaxKeyPatternPathLength)%nat in
      match paths with
      | [] => Err InvariantFailure
      | components :: paths =>
          let! arr := mark_all (repeat Byte.x00 numParts ++ drop numParts arr) components in
          let! rest := append_loop keyPattern paths arr in
          Ok ((keyName, BBinData 0 (take numParts arr)) :: rest)
      end
  end.

Definition appendMultikeyPathsAsBytes (keyPattern : Document) (paths : MultikeyPaths) : result Document :=
  append_loop keyPattern paths (repeat Byte.x00 kMaxKeyPatternPathLength).

(** The components marked in [data], from component [i] on. *)
Fixpoint marked (i : nat) (data : bytes) : list nat :=
  match data with
  | [] => []
  | b :: data => if byte_Z b =? 0 then marked (S i) data else i :: marked (S i) data
  end.

Fixpoint parseMultikeyPathsFromBytes (obj : Document) (paths : MultikeyPaths) : result MultikeyPaths :=
  match obj with
  | [] => Ok paths
  | (_, BBinData _ data) :: obj =>
      let! _ := invariant (0 <? length data)%nat in
      let! _ := invariant (length data <=? kMaxKeyPatternPathLength)%nat in
      parseMultikeyPathsFromBytes obj (paths ++ [marked 0 data])
  | _ :: _ => Err InvariantFailure
  end.

(** ** Facts *)

Lemma set_ltb_total a : forall b, set_ltb a b = false -> set_ltb b a = false -> a = b.
Proof.
  induction a as [|x a IH]; intros [|y b]; cbn [set_ltb]; try done. destruct (Nat.ltb_spec x y), (Nat.ltb_spec y x); try done; try lia.
  intros. f_equal; [lia|]. by apply IH.
Qed.

Lemma set_ltb_irrefl a : set_ltb a a = false.
Proof. induction a as [|x a IH]; cbn [set_ltb]; [done|]. by rewrite Nat.ltb_irrefl. Qed.

Lemma includes_length a : forall b, includes a b = true -> (length b <= length a)%nat.
Proof.
  induction a as [|x a IH]; intros [|y b] H; cbn [includes length] in *; try lia; try done. destruct (set_ltb y x); [done|].
  destruct (set_ltb x y); apply IH in H; cbn [length] in *; lia.
Qed.

(** One sequence includes another as long only if they are the same. *)
Lemma includes_same a : forall b, length a = length b -> includes a b = bool_decide (a = b).
Proof.
  induction a as [|x a IH]; intros [|y b]; cbn [includes length]; intros Hl; try done. injection Hl as Hl.
  destruct (set_ltb y x) eqn:Eyx; [|destruct (set_ltb x y) eqn:Exy].
  - symmetry. apply bool_decide_eq_false. intros [= -> _]. by rewrite set_ltb_irrefl in Eyx.
  - transitivity false; [|symmetry; apply bool_decide_eq_false; intros [= -> _]; by rewrite set_ltb_irrefl in Exy].
    apply not_true_iff_false. intros H%includes_length. cbn [length] in H. lia.
  - rewrite IH by done. rewrite (set_ltb_total x y) by done. apply bool_decide_ext. naive_solver.
Qed.

(** A set: strictly ascending. *)
Abbreviation is_set := (StronglySorted lt).

Lemma set_insert_spec x s : is_set s -> forall s' inserted, set_insert x s = (s', inserted) ->
  is_set s' /\ (forall y, y ∈ s' <-> y = x \/ y ∈ s) /\ inserted = negb (bool_decide (x ∈ s)).
Proof.
  induction 1 as [|y s Hs IH Hy]; intros s' inserted; cbn [set_insert].
  - intros [= <- <-]. split; [by repeat constructor|]. split; [|done]. set_solver.
  - rewrite Forall_forall in Hy. destruct (Nat.ltb_spec x y) as [Hxy|Hxy]; [|destruct (Nat.eqb_spec x y) as [->|Hne]].
    + intros [= <- <-]. assert (x ∉ y :: s) as Hx by (intros [->|Hx%Hy]%elem_of_cons; lia).
      split; [|split; [set_solver|by rewrite bool_decide_false]]. constructor; [by constructor; [|apply Forall_forall]|].
      constructor; [done|]. apply Forall_forall. intros z Hz%Hy. lia.
    + intros [= <- <-]. split; [by constructor; [|apply Forall_forall]|]. split; [set_solver|]. rewrite bool_decide_true by set_solver. done.
    + destruct (set_insert x s) as [s1 ins]. intros [= <- <-]. destruct (IH s1 ins eq_refl) as (Hs1 & Hin & ->). split.
      * constructor; [done|]. apply Forall_forall. intros z [->|Hz%Hy]%Hin; lia.
      * split; [set_solver|]. f_equal. apply bool_decide_ext. set_solver.
Qed.

Lemma merge_components_spec rhs : forall s changed, is_set s -> forall s' changed', merge_components s rhs changed = (s', changed') ->
  is_set s' /\ (forall y, y ∈ s' <-> y ∈ s \/ y ∈ rhs) /\ (changed' = false <-> changed = false /\ forall y, y ∈ rhs -> y ∈ s).
Proof.
  unfold merge_components. induction rhs as [|x rhs IH]; intros s changed Hs s' changed'; cbn [foldl fst snd].
  - intros [= <- <-]. set_solver.
  - destruct (set_insert x s) as [s1 ins] eqn:E. destruct (set_insert_spec x s Hs s1 ins E) as (Hs1 & Hin & ->).
    intros H. destruct (IH s1 _ Hs1 s' changed' H) as (Hs' & Hin' & ->). split; [done|]. split; [intros y; rewrite Hin', Hin, elem_of_cons; tauto|].
    rewrite orb_false_iff, negb_false_iff, bool_decide_eq_true. setoid_rewrite Hin. setoid_rewrite elem_of_cons. naive_solver.
Qed.

Lemma is_set_ext s s' : is_set s -> is_set s' -> (forall y, y ∈ s <-> y ∈ s') -> s = s'.
Proof.
  intros Hs. revert s'. induction Hs as [|x s Hs IH Hx]; intros s' Hs' He.
  - destruct s' as [|y s']; [done|]. destruct (not_elem_of_nil y). apply He, list_elem_of_here.
  - destruct Hs' as [|y s' Hs' Hy]; [destruct (not_elem_of_nil x); apply He, list_elem_of_here|].
    rewrite Forall_forall in Hx, Hy. assert (x = y) as ->.
    { pose proof (proj1 (He x) (list_elem_of_here x s)) as [|Hxs%Hy]%elem_of_cons; [done|].
      pose proof (proj2 (He y) (list_elem_of_here y s')) as [|Hys%Hx]%elem_of_cons; [done|lia]. }
    f_equal. apply IH; [done|]. intros z. specialize (He z). rewrite !elem_of_cons in He. split; intros Hz.
    + destruct (proj1 He (or_intror Hz)) as [->|]; [|done]. apply Hx in Hz. lia.
    + destruct (proj2 He (or_intror Hz)) as [->|]; [|done]. apply Hy in Hz. lia.
Qed.

Lemma merge_loop_spec self : forall rhs changed, length self = length rhs -> Forall is_set self -> forall m changed',
  merge_loop self rhs changed = (m, changed') ->
  Forall is_set m /\ length m = length self /\
  (forall i a b, self !! i = Some a -> rhs !! i = Some b -> exists c, m !! i = Some c /\ forall y, y ∈ c <-> y ∈ a \/ y ∈ b) /\
  (changed' = false <-> changed = false /\ m = self).
Proof.
  induction self as [|s self IH]; intros [|r rhs] changed Hl Hs m changed'; cbn [merge_loop]; try done.
  { intros [= <- <-]. split_and!; [constructor|done|done|tauto]. }
  injection Hl as Hl. apply Forall_cons in Hs as [Hs Hself]. destruct (merge_components s r changed) as [s1 ch1] eqn:E1.
  destruct (merge_components_spec r s changed Hs s1 ch1 E1) as (Hs1 & Hin1 & Hc1). destruct (merge_loop self rhs ch1) as [m2 ch2] eqn:E2.
  destruct (IH rhs ch1 Hl Hself m2 ch2 E2) as (Hm & Hlm & Hin2 & Hc2). intros [= <- <-]. split; [by constructor|].
  split; [cbn; by f_equal|]. split.
  - intros [|i] a b; cbn; [intros [= ->] [= ->]; by exists s1|]. apply Hin2.
  - rewrite Hc2, Hc1. assert (s1 = s <-> forall y, y ∈ r -> y ∈ s) as <-; [|split; [intros [[? ->] ->]|intros [? [= -> ->]]]; done]. split; [intros ->; set_solver|].
    intros H. apply is_set_ext; [done..|]. intros y. rewrite Hin1. split; [intros [|]; auto|auto].
Qed.



(** An index contains only the paths it has: one field of more components does not contain one of fewer. *)
Lemma contain_same self rhs : Contain self rhs = if bool_decide (length self = length rhs) then Ok (bool_decide (self = rhs)) else Err InvariantFailure.
Proof.
  unfold Contain. destruct (Nat.eqb_spec (length self) (length rhs)) as [Hl|Hl]; [|by rewrite bool_decide_false].
  rewrite bool_decide_true by done. cbn [uassert rbind]. f_equal. rewrite includes_same by done. destruct (bool_decide (self = rhs)) eqn:E.
  - by apply forallb_forall.
  - destruct self as [|s self]; [|done]. by destruct rhs.
Qed.

Lemma mark_all_spec components : forall arr, Forall (fun c => c < length arr)%nat components -> exists arr', mark_all arr components = Ok arr' /\
  length arr' = length arr /\ forall i, (i < length arr)%nat -> arr' !! i = if bool_decide (i ∈ components) then Some Byte.x01 else arr !! i.
Proof.
  induction components as [|c components IH]; intros arr H; cbn [mark_all].
  - exists arr. by split_and!.
  - apply Forall_cons in H as [Hc H]. unfold mark. rewrite (proj2 (Nat.ltb_lt _ _)) by done. cbn [uassert rbind].
    destruct (IH (<[c := Byte.x01]> arr)) as (arr' & -> & Hl & Hm); [by rewrite length_insert|]. rewrite length_insert in Hl, Hm.
    exists arr'. split_and!; [done..|]. intros i Hi. rewrite Hm by done. destruct (decide (i ∈ components)) as [Hin|Hin].
    + rewrite !bool_decide_true by set_solver. done.
    + rewrite bool_decide_false by done. destruct (decide (c = i)) as [->|Hne].
      * rewrite list_lookup_insert_eq by done. by rewrite bool_decide_true by set_solver.
      * rewrite list_lookup_insert_ne by done. by rewrite bool_decide_false by set_solver.
Qed.

Lemma marked_spec data : forall i, is_set (marked i data) /\
  forall y, y ∈ marked i data <-> exists j b, y = (i + j)%nat /\ data !! j = Some b /\ byte_Z b <> 0.
Proof.
  induction data as [|b data IH]; intros i; cbn [marked].
  - split; [constructor|]. intros y. rewrite elem_of_nil. split; [done|]. by intros (j & b & _ & ? & _).
  - destruct (IH (S i)) as [Hs Hin]. assert (Forall (lt i) (marked (S i) data)) as Hlt.
    { apply Forall_forall. intros y (j & b' & -> & _)%Hin. lia. }
    destruct (Z.eqb_spec (byte_Z b) 0) as [Hb|Hb]; split.
    + done.
    + intros y. rewrite Hin. split.
      * intros (j & b' & -> & Hj & Hb'). exists (S j), b'. split_and!; [lia|done..].
      * intros ([|j] & b' & -> & Hj & Hb'); [by injection Hj as ->|]. exists j, b'. split_and!; [lia|done..].
    + by constructor.
    + intros y. rewrite elem_of_cons, Hin. split.
      * intros [->|(j & b' & -> & Hj & Hb')]; [exists 0%nat, b; split_and!; [lia|done..]|]. exists (S j), b'. split_and!; [lia|done..].
      * intros ([|j] & b' & -> & Hj & Hb'); [left; lia|]. right. exists j, b'. split_and!; [lia|done..].
Qed.

(** The paths of a key pattern: for every field, components of its path. *)
Definition paths_of (keyPattern : Document) (paths : MultikeyPaths) : Prop :=
  Forall2 (fun e s => (0 < numParts e.1 <= kMaxKeyPatternPathLength)%nat /\ is_set s /\ Forall (fun c => c < numParts e.1)%nat s) keyPattern paths.

Lemma field_round_trip n s arr : is_set s -> Forall (fun c => c < n)%nat s -> (n <= length arr)%nat ->
  exists arr', mark_all (repeat Byte.x00 n ++ drop n arr) s = Ok arr' /\ length arr' = length arr /\ marked 0 (take n arr') = s.
Proof.
  intros Hs Hc Hn. destruct (mark_all_spec s (repeat Byte.x00 n ++ drop n arr)) as (arr' & E & Hl & Hm).
  { rewrite length_app, repeat_length, length_drop. eapply Forall_impl; [exact Hc|]. cbn. intros. lia. }
  rewrite length_app, repeat_length, length_drop in Hl, Hm. exists arr'. split_and!; [done|lia|].
  destruct (marked_spec (take n arr') 0) as [Hs' Hin]. apply is_set_ext; [done..|]. intros y. rewrite Hin. rewrite Forall_forall in Hc. split.
  - intros (j & b & -> & Hj & Hb). apply lookup_take_Some in Hj as [Hj Hjn]. rewrite Hm in Hj by lia.
    case_bool_decide as Hin'; [done|]. rewrite lookup_app_l in Hj by by rewrite repeat_length.
    apply list_elem_of_lookup_2, list_elem_of_In, repeat_spec in Hj as ->. done.
  - intros Hy. pose proof (Hc _ Hy) as Hyn. exists y, Byte.x01. split_and!; [done| |done]. rewrite lookup_take_lt by done.
    rewrite Hm by lia. by rewrite bool_decide_true.
Qed.

(** C38. The multikey paths stored in the catalog are read back: for every field of the key pattern the
    components of its path that are arrays, whatever earlier fields left in the array they are marked in. *)
Theorem paths_round_trip (keyPattern : Document) (paths : MultikeyPaths) : paths_of keyPattern paths ->
  exists obj, appendMultikeyPathsAsBytes keyPattern paths = Ok obj /\ parseMultikeyPathsFromBytes obj [] = Ok paths.
Proof.
  intros H. unfold appendMultikeyPathsAsBytes. change paths with ([] ++ paths) at 2.
  enough (forall arr acc, length arr = kMaxKeyPatternPathLength ->
    exists obj, append_loop keyPattern paths arr = Ok obj /\ parseMultikeyPathsFromBytes obj acc = Ok (acc ++ paths)) as He by by apply He.
  induction H as [|[keyName e] s keyPattern paths (Hn & Hs & Hc) _ IH]; intros arr acc Hl; cbn [append_loop].
  - exists []. by rewrite app_nil_r.
  - cbn [fst] in *. rewrite (proj2 (Nat.ltb_lt _ _)), (proj2 (Nat.leb_le _ _)) by lia. cbn [uassert rbind].
    destruct (field_round_trip (numParts keyName) s arr Hs Hc ltac:(lia)) as (arr' & -> & Hl' & Em). cbn [rbind].
    destruct (IH arr' (acc ++ [s]) ltac:(lia)) as (obj & -> & Ep). eexists. split; [done|]. cbn [parseMultikeyPathsFromBytes].
    rewrite length_take, Hl', (proj2 (Nat.ltb_lt _ _)), (proj2 (Nat.leb_le _ _)) by lia. cbn [uassert rbind].
    by rewrite Em, Ep, <- app_assoc.
Qed.

Lemma paths_round_trip_witness :
  exists obj, appendMultikeyPathsAsBytes [(lit "a.b", BInt 1); (lit "c", BInt (-1))] [[0%nat; 1%nat]; []] = Ok obj /\
    parseMultikeyPathsFromBytes obj [] = Ok [[0%nat; 1%nat]; []].
Proof.
  apply paths_round_trip. repeat constructor; unfold kMaxKeyPatternPathLength; cbn; lia.
Defined.

End MultiKeyPaths.

(** ** Keys of an index *)

(** What the index catalog entry gives ([CreateEntry]): the ordering of its key pattern, and how keys
    are taken out of a document. The keys are a [BSONObjSet], in its order. *)
Record IndexEntry := mkIndexEntry {
  ordering : Z;
  unique : bool;
  isPartial : bool;
  getFilterExpression : option (Document -> bool);
  getKeys : Document -> result (list Document * MultikeyPaths);
}.

(** [CollectionCatalogEntry::IndexMetaData]. *)
Record IndexMetaData := mkIndexMetaData {
  im_name : bytes;
  im_unique : bool;
  im_ready : bool;
  im_multikey : bool;
  im_multikeyPaths : MultikeyPaths;
  im_entry : IndexEntry;
}.

(** [MongoKeySchema]. *)
Record KeySchema := mkKeySchema {
  index_name_ : TableName;
  schema_ts_ : Z;
  index_meta_data_ : IndexMetaData;
}.

Definition SchemaTs (s : KeySchema) : Z := schema_ts_ s.
Definition IsMultiKey (s : KeySchema) : bool := im_multikey (index_meta_data_ s).
Definition MongoMultiKeyPaths (s : KeySchema) : MultikeyPaths := im_multikeyPaths (index_meta_data_ s).
Definition entry_ (s : KeySchema) : IndexEntry := im_entry (index_meta_data_ s).
Definition Ordering (s : KeySchema) : Z := ordering (entry_ s).
Definition Unique (s : KeySchema) : bool := unique (entry_ s).

Definition GetKeys (s : KeySchema) (obj : Document) : result (list Document * MultikeyPaths) :=
  match getFilterExpression (entry_ s) with
  | Some matchesBSON => if negb (matchesBSON obj) then Ok ([], []) else getKeys (entry_ s) obj
  | None => getKeys (entry_ s) obj
  end.

Definition IsMultiKeyFromPaths (paths : MultikeyPaths) : bool :=
  existsb (fun components => match components with [] => false | _ => true end) paths.

(** The ordering of [{_id: 1}]. *)
Definition kIdOrdering : Z := 0.

(** A [catch (const DBException&)]: a failed invariant ends the process. *)
Definition caught {A} (m : result A) : result (A + ErrorCode) :=
  match m with
  | Ok a => Ok (inl a)
  | Err InvariantFailure => Err InvariantFailure
  | Err e => Ok (inr e)
  end.

Fixpoint each {A} (f : A -> result Datatypes.unit) (l : list A) : result Datatypes.unit :=
  match l with [] => Ok tt | x :: l => let! _ := f x in each f l end.

Section Encoder.
Context (L : IntelDecimal).

(** [KeyString(version, obj, ordering)] and [KeyString(version, obj, ordering, recordId)]: bytes and type bits. *)
Definition KeyString_of (obj : Document) (ordering : Z) : result (bytes * TypeBits.t) := resetToKeyAndTypes L obj (descending_of ordering).

Definition KeyString_of_entry (obj : Document) (ordering : Z) (recordId : RecordId) : result (bytes * TypeBits.t) :=
  let! (key, tb) := resetToKeyAndTypes L obj (descending_of ordering) in
  let! rid := appendRecordId recordId in Ok (key ++ rid, tb).

(** [MongoSkEncoder], with the error of the transaction service's base class. *)
Record SkEncoder := mkSkEncoder {
  mutable_multikey_ : bool;
  mutable_multikey_paths_ : MultikeyPaths;
  sk_error : option ErrorCode;
}.

Definition MergeMultiKeyAttr (paths : MultikeyPaths) (e : SkEncoder) : result SkEncoder :=
  let! (merged, _) := MultiKeyPaths.MergeWith (mutable_multikey_paths_ e) paths in
  Ok (mkSkEncoder true merged (sk_error e)).

(** The keys of the record's document, [None] on an error. [failIndexKeyTooLong] is a server parameter. *)
Definition GenerateBSONKeys (s : KeySchema) (failIndexKeyTooLong : bool) (pk : MongoKey.t) (record : MongoRecord.t) (e : SkEncoder)
  : result (option (list Document) * SkEncoder) :=
  match BSONObj (MongoRecord.encoded_blob record) with
  | None => Err InvariantFailure
  | Some record_obj =>
      let! record_id := RecordId_of_str (MongoKey.packed_key pk) in
      let! id_obj := getIdBSONObjWithoutFieldName record_obj in
      let! (keystring_pk, _) := KeyString_of id_obj kIdOrdering in
      let! record_id' := RecordId_of_str keystring_pk in
      let! c := RecordId_compare record_id record_id' in
      let! _ := invariant (match c with Eq => true | _ => false end) in
      let! r := caught (let! (skeys, paths) := GetKeys s record_obj in
                        let! _ := if failIndexKeyTooLong then each (fun k => uassertStatusOK (checkKeySize k)) skeys else Ok tt in
                        let! e := if (1 <? length skeys)%nat || IsMultiKeyFromPaths paths then MergeMultiKeyAttr paths e else Ok e in
                        Ok (skeys, e)) in
      match r with
      | inl (skeys, e) => Ok (Some skeys, mkSkEncoder (mutable_multikey_ e) (mutable_multikey_paths_ e) None)
      | inr code => Ok (None, mkSkEncoder (mutable_multikey_ e) (mutable_multikey_paths_ e) (Some code))
      end
  end.

Definition GenerateRecordID (pk : MongoKey.t) : result RecordId := RecordId_of_str (MongoKey.packed_key pk).

Fixpoint collect {A B} (f : A -> result B) (l : list A) : result (list B) :=
  match l with
  | [] => Ok []
  | x :: l => let! y := f x in let! ys := collect f l in Ok (y :: ys)
  end.

(** One entry of an index, as the encoders below make it. *)
Definition standardEntry (s : KeySchema) (record_id : RecordId) (bson_sk : Document) : result (MongoKey.t * MongoRecord.t) :=
  let! (ks, type_bits) := KeyString_of_entry bson_sk (Ordering s) record_id in
  Ok (MongoKey.of_KeyString ks, MongoRecord.setTypeBits type_bits MongoRecord.empty).

Definition uniqueEntry (s : KeySchema) (record_id : RecordId) (bson_sk : Document) : result (MongoKey.t * MongoRecord.t) :=
  let! (ks, type_bits) := KeyString_of bson_sk (Ordering s) in
  let! blob := getStringView record_id in
  Ok (MongoKey.of_KeyString ks, MongoRecord.setTypeBits type_bits (MongoRecord.SetEncodedBlob blob MongoRecord.empty)).

(** [AppendPackedSk] of [MongoStandardSkEncoder] and of [MongoUniqueSkEncoder]: the count, -1 on an error,
    and the write entries, which all carry [version_ts]. *)
Definition AppendPackedSk (makeEntry : KeySchema -> RecordId -> Document -> result (MongoKey.t * MongoRecord.t))
  (s : KeySchema) (failIndexKeyTooLong : bool) (pk : MongoKey.t) (record : MongoRecord.t) (version_ts : Z)
  (dest_vec : list (MongoKey.t * MongoRecord.t * Z)) (e : SkEncoder)
  : result (Z * list (MongoKey.t * MongoRecord.t * Z) * SkEncoder) :=
  let! (skeys, e) := GenerateBSONKeys s failIndexKeyTooLong pk record e in
  match skeys with
  | None => Ok (-1, dest_vec, e)
  | Some [] => Ok (0, dest_vec, e)
  | Some skeys =>
      let! record_id := GenerateRecordID pk in
      let! entries := collect (makeEntry s record_id) skeys in
      Ok (Z.of_nat (length skeys), dest_vec ++ map (fun kr => (kr.1, kr.2, version_ts)) entries, e)
  end.

Definition MongoStandardSkEncoder := AppendPackedSk standardEntry.
Definition MongoUniqueSkEncoder := AppendPackedSk uniqueEntry.

End Encoder.

(** ** Schemas of a table *)

(** [txservice::TableKeySchemaTs]: when the keys of a table's base and indexes were created. *)
Record TableKeySchemaTs := mkTs { pk_schema_ts_ : Z; sk_schemas_ts_ : gmap TableName Z }.

(** [CollectionCatalogEntry::MetaData], of a catalog entry that is not the feature document. *)
Record MetaData := mkMetaData { md_ns : bytes; md_indexes : list IndexMetaData }.
Inductive CatalogEntry := FeatureDocument | CollectionEntry (md : MetaData).

(** The store's part: how an image is put together, how timestamps are written and looked up in it, how
    a catalog entry is parsed, and the prefixes of index tables' names. *)
Record ImageCodec := mkImageCodec {
  SerializeSchemaImage : bytes -> bytes -> bytes -> bytes;
  DeserializeSchemaImage : bytes -> bytes * bytes * bytes;
  ts_Serialize : TableKeySchemaTs -> bytes;
  ts_Deserialize : bytes -> TableKeySchemaTs;
  GetKeySchemaTs : TableKeySchemaTs -> TableName -> Z;
  parseEntry : bytes -> CatalogEntry;
  INDEX_NAME_PREFIX : bytes;
  UNIQUE_INDEX_NAME_PREFIX : bytes;
}.

Section Schema.
Context (C : ImageCodec).

Definition MongoIndexToTxServiceTableName (ns index_name : bytes) (is_unique : bool) : TableName :=
  mkTableName (ns ++ (if is_unique then UNIQUE_INDEX_NAME_PREFIX C else INDEX_NAME_PREFIX C) ++ index_name)
    (if is_unique then UniqueSecondary else Secondary).

(** [MongoTableSchema]: the schema of the feature document's table has a key without a schema, and no indexes. *)
Record MongoTableSchema := mkTableSchema {
  base_table_name_ : TableName;
  schema_image_ : bytes;
  meta_data_str_ : bytes;
  kv_info_str_ : bytes;
  key_schemas_ts_str_ : bytes;
  version_ : Z;
  pk_ts_ : Z;
  key_schema_ : option KeySchema;
  indexes_ : list (nat * (TableName * KeySchema));
}.

(** The timestamp of a table's key: the schema's version if the image records none. *)
Definition resolveTs (ts : TableKeySchemaTs) (version : Z) (name : TableName) : Z :=
  let key_schema_ts := GetKeySchemaTs C ts name in if key_schema_ts =? 0 then version else key_schema_ts.

Fixpoint findIndex (indexes : list IndexMetaData) (name : bytes) : option IndexMetaData :=
  match indexes with [] => None | i :: indexes => if bytes_eqb (im_name i) name then Some i else findIndex indexes name end.

Fixpoint skSchemas (ns : bytes) (ts : TableKeySchemaTs) (version : Z) (kid : nat) (indexes : list IndexMetaData)
  : result (list (nat * (TableName * KeySchema))) :=
  match indexes with
  | [] => Ok []
  | i :: indexes =>
      let! _ := invariant (im_ready i) in
      let! rest := skSchemas ns ts version (S kid) indexes in
      if bytes_eqb (im_name i) (lit "_id_") then Ok rest
      else let index_name := MongoIndexToTxServiceTableName ns (im_name i) (im_unique i) in
           Ok ((kid, (index_name, mkKeySchema index_name (resolveTs ts version index_name) i)) :: rest)
  end.

Definition resolvedTs (s : MongoTableSchema) : TableKeySchemaTs :=
  mkTs (pk_ts_ s) (list_to_map (map (fun e => (e.2.1, SchemaTs e.2.2)) (indexes_ s))).

Definition same_ts (a b : TableKeySchemaTs) : bool := (pk_schema_ts_ a =? pk_schema_ts_ b) && bool_decide (sk_schemas_ts_ a = sk_schemas_ts_ b).

Definition RecordKeySchemasTs (s : MongoTableSchema) : MongoTableSchema :=
  let resolved := resolvedTs s in
  if same_ts (ts_Deserialize C (key_schemas_ts_str_ s)) resolved then s
  else let str := ts_Serialize C resolved in
       mkTableSchema (base_table_name_ s) (SerializeSchemaImage C (meta_data_str_ s) (kv_info_str_ s) str) (meta_data_str_ s) (kv_info_str_ s) str
         (version_ s) (pk_ts_ s) (key_schema_ s) (indexes_ s).

(** The constructor. *)
Definition MongoTableSchema_of (table_name : TableName) (catalog_image : bytes) (version : Z) : result MongoTableSchema :=
  let '(meta, kv_info, ts_str) := DeserializeSchemaImage C catalog_image in
  let ts := ts_Deserialize C ts_str in
  let! _ := invariant (negb (bytes_eqb meta [])) in
  let pk_ts := resolveTs ts version table_name in
  match parseEntry C meta with
  | FeatureDocument => Ok (RecordKeySchemasTs (mkTableSchema table_name catalog_image meta kv_info ts_str version pk_ts None []))
  | CollectionEntry md =>
      match findIndex (md_indexes md) (lit "_id_") with
      | None => Err InvariantFailure
      | Some id =>
          let! _ := invariant (im_ready id) in
          let! indexes := skSchemas (md_ns md) ts version 0 (md_indexes md) in
          Ok (RecordKeySchemasTs (mkTableSchema table_name catalog_image meta kv_info ts_str version pk_ts
                (Some (mkKeySchema table_name pk_ts id)) indexes))
      end
  end.

Definition IndexKeySchema (s : MongoTableSchema) (index_name : TableName) : option KeySchema :=
  option_map (fun e => e.2.2) (List.find (fun e => bool_decide (e.2.1 = index_name)) (indexes_ s)).

(** What the schema relies on: the parts of an image and its timestamps are read back as they were
    written, and a table whose timestamp is not recorded has the unknown one, 0. *)
Class ImageLaws := {
  image_read : forall m k t, DeserializeSchemaImage C (SerializeSchemaImage C m k t) = (m, k, t);
  ts_read : forall t, ts_Deserialize C (ts_Serialize C t) = t;
  ts_recorded : forall t n, GetKeySchemaTs C t n = match tn_type n with Primary => pk_schema_ts_ t | _ => default 0 (sk_schemas_ts_ t !! n) end;
}.

(** ** Timestamps stay *)

Context {IL : ImageLaws}.

Lemma skSchemas_ts ns ts version indexes : forall kid l, skSchemas ns ts version kid indexes = Ok l ->
  Forall (fun e => tn_type e.2.1 <> Primary /\ SchemaTs e.2.2 = resolveTs ts version e.2.1) l.
Proof.
  induction indexes as [|i indexes IH]; intros kid l; cbn [skSchemas]; [by intros [= <-]|].
  destruct (im_ready i); [|done]. cbn [uassert rbind]. destruct (skSchemas _ _ _ (S kid) indexes) as [rest|] eqn:E; [|done]. cbn [rbind].
  destruct (bytes_eqb _ _); intros [= <-]; [by eapply IH|]. constructor; [|by eapply IH]. split; [by cbn; destruct (im_unique i)|done].
Qed.

Lemma skSchemas_same ns ts version ts' version' indexes : forall kid l, skSchemas ns ts version kid indexes = Ok l ->
  Forall (fun e => resolveTs ts' version' e.2.1 = resolveTs ts version e.2.1) l -> skSchemas ns ts' version' kid indexes = Ok l.
Proof.
  induction indexes as [|i indexes IH]; intros kid l; cbn [skSchemas]; [done|]. destruct (im_ready i); [|done]. cbn [uassert rbind].
  destruct (skSchemas _ _ _ (S kid) indexes) as [rest|] eqn:E; [|done]. cbn [rbind]. destruct (bytes_eqb _ _); intros [= <-] H.
  - rewrite (IH _ _ E H). done.
  - apply Forall_cons in H as [He H]. rewrite (IH _ _ E H). cbn [rbind snd fst] in *. by rewrite He.
Qed.

Lemma map_ts (f : TableName -> Z) (l : list (nat * (TableName * KeySchema))) n : Forall (fun e => SchemaTs e.2.2 = f e.2.1) l ->
  n ∈ map (fun e => e.2.1) l -> (list_to_map (map (fun e => (e.2.1, SchemaTs e.2.2)) l) : gmap TableName Z) !! n = Some (f n).
Proof.
  induction 1 as [|[kid [m s]] l Hs _ IH]; cbn [map list_to_map foldr fst snd]; [by intros ?%not_elem_of_nil|]. cbn [fst snd] in Hs.
  intros Hn. change (<[m := SchemaTs s]> (list_to_map (map (fun e => (e.2.1, SchemaTs e.2.2)) l) : gmap TableName Z) !! n = Some (f n)).
  destruct (decide (m = n)) as [->|Hne]; [by rewrite lookup_insert_eq, Hs|]. rewrite lookup_insert_ne by done. apply IH. set_solver.
Qed.

(** The timestamps of a schema, in the image it ends up with. *)
Lemma recorded_ts s : let s' := RecordKeySchemasTs s in
  DeserializeSchemaImage C (schema_image_ s) = (meta_data_str_ s, kv_info_str_ s, key_schemas_ts_str_ s) ->
  base_table_name_ s' = base_table_name_ s /\ pk_ts_ s' = pk_ts_ s /\ key_schema_ s' = key_schema_ s /\ indexes_ s' = indexes_ s /\
  meta_data_str_ s' = meta_data_str_ s /\ kv_info_str_ s' = kv_info_str_ s /\
  ts_Deserialize C (key_schemas_ts_str_ s') = resolvedTs s /\
  DeserializeSchemaImage C (schema_image_ s') = (meta_data_str_ s, kv_info_str_ s, key_schemas_ts_str_ s').
Proof.
  intros s' Hi. unfold s', RecordKeySchemasTs. destruct (same_ts _ _) eqn:E.
  - split_and!; try done. unfold same_ts in E. boolprop. destruct (ts_Deserialize C (key_schemas_ts_str_ s)), (resolvedTs s). cbn in *. by subst.
  - cbn. split_and!; try done; [apply ts_read|apply image_read].
Qed.

Lemma record_again s : ts_Deserialize C (key_schemas_ts_str_ s) = resolvedTs s -> RecordKeySchemasTs s = s.
Proof.
  intros E. unfold RecordKeySchemasTs, same_ts. rewrite E, Z.eqb_refl, bool_decide_true by done. done.
Qed.

Lemma resolveTs_nonzero ts version n : 0 < version -> resolveTs ts version n <> 0.
Proof. intros Hv. unfold resolveTs. destruct (Z.eqb_spec (GetKeySchemaTs C ts n) 0); lia. Qed.

(** What a schema resolved is resolved alike at any version. *)
Lemma resolved_again s (f : TableName -> Z) version' : (forall n, f n <> 0) -> pk_ts_ s = f (base_table_name_ s) ->
  tn_type (base_table_name_ s) = Primary -> Forall (fun e => tn_type e.2.1 <> Primary /\ SchemaTs e.2.2 = f e.2.1) (indexes_ s) ->
  resolveTs (resolvedTs s) version' (base_table_name_ s) = f (base_table_name_ s) /\
  Forall (fun e => resolveTs (resolvedTs s) version' e.2.1 = f e.2.1) (indexes_ s).
Proof.
  intros Hf Hp Hb Hi. unfold resolveTs. rewrite ts_recorded, Hb. cbn [resolvedTs pk_schema_ts_]. rewrite Hp. pose proof (Hf (base_table_name_ s)).
  rewrite (proj2 (Z.eqb_neq _ _)) by done. split; [done|]. apply Forall_forall. intros e He. rewrite ts_recorded. cbn [resolvedTs sk_schemas_ts_].
  rewrite (map_ts f); [|by eapply Forall_impl; [exact Hi|]; intros ? []|by apply list_elem_of_In, (in_map (fun e => e.2.1)), list_elem_of_In]. rewrite Forall_forall in Hi.
  destruct (Hi e He) as [Ht _]. pose proof (Hf e.2.1). destruct (tn_type e.2.1); [done|..]; cbn [default]; by rewrite (proj2 (Z.eqb_neq _ _)).
Qed.

(** C36. A schema's image keeps the version of every table: a copy of the schema built from it at any other
    version, later or on another node, has the timestamps of the original, and its own image is the same;
    a table the original's image recorded no timestamp of has the version the original was built at. *)
Theorem image_keeps_versions table_name image version s version' :
  tn_type table_name = Primary -> 0 < version -> MongoTableSchema_of table_name image version = Ok s ->
  exists s', MongoTableSchema_of table_name (schema_image_ s) version' = Ok s' /\ pk_ts_ s' = pk_ts_ s /\ key_schema_ s' = key_schema_ s /\
    indexes_ s' = indexes_ s /\ schema_image_ s' = schema_image_ s /\
    pk_ts_ s = resolveTs (ts_Deserialize C (DeserializeSchemaImage C image).2) version table_name /\
    Forall (fun e => SchemaTs e.2.2 = resolveTs (ts_Deserialize C (DeserializeSchemaImage C image).2) version e.2.1) (indexes_ s).
Proof.
  intros Ht Hv. unfold MongoTableSchema_of. destruct (DeserializeSchemaImage C image) as [[meta kv] str] eqn:Ei. cbn [snd].
  set (ts := ts_Deserialize C str). set (f := resolveTs ts version). assert (forall n, f n <> 0) as Hf by (intros; by apply resolveTs_nonzero).
  destruct (bytes_eqb meta []) eqn:Em; [done|]. cbn [negb uassert rbind]. destruct (parseEntry C meta) as [|md] eqn:Ep.
  - intros [= <-]. set (s0 := mkTableSchema _ _ _ _ _ _ _ _ _).
    destruct (recorded_ts s0 Ei) as (_ & -> & -> & -> & _ & _ & Ets & ->). cbn [s0 meta_data_str_ kv_info_str_]. rewrite Em. cbn [negb uassert rbind]. rewrite Ep.
    destruct (resolved_again s0 f version' Hf eq_refl Ht ltac:(constructor)) as [Hp _]. cbn [s0 base_table_name_] in Hp. rewrite Ets, Hp. eexists. split; [done|].
    rewrite record_again by (cbn; exact Ets). done.
  - destruct (findIndex _ _) as [id|] eqn:Ef; [|done]. destruct (im_ready id) eqn:Er; [|done]. cbn [uassert rbind].
    destruct (skSchemas _ _ _ _ _) as [l|] eqn:El; [|done]. cbn [rbind]. intros [= <-]. set (s0 := mkTableSchema _ _ _ _ _ _ _ _ _).
    pose proof (skSchemas_ts _ _ _ _ _ _ El) as Hl.
    destruct (recorded_ts s0 Ei) as (_ & -> & -> & -> & _ & _ & Ets & ->). cbn [s0 meta_data_str_ kv_info_str_]. rewrite Em. cbn [negb uassert rbind]. rewrite Ep, Ef, Er.
    destruct (resolved_again s0 f version' Hf eq_refl Ht Hl) as [Hp Hi]. cbn [s0 base_table_name_ indexes_] in Hp, Hi. rewrite Ets, (skSchemas_same _ _ _ _ _ _ _ _ El Hi), Hp. eexists. split; [done|].
    rewrite record_again by (cbn; exact Ets). split_and!; try done. eapply Forall_impl; [exact Hl|]. by intros ? [].
Qed.

End Schema.

(** ** A codec

    Every byte of a part is marked, so that the end of the part is told; timestamps are a number's digits. *)

Fixpoint marked_part (s : bytes) : bytes := match s with [] => [Byte.x00] | b :: s => Byte.x01 :: b :: marked_part s end.
Fixpoint read_part (s : bytes) : bytes * bytes :=
  match s with
  | Byte.x01 :: b :: s => let (p, r) := read_part s in (b :: p, r)
  | _ :: r => ([], r)
  | [] => ([], [])
  end.

Lemma read_marked s r : read_part (marked_part s ++ r) = (s, r).
Proof. induction s as [|b s IH]; [done|]. cbn. by rewrite IH. Qed.

Fixpoint pos_digits (p : positive) : bytes :=
  match p with xH => [] | xO p => Byte.x00 :: pos_digits p | xI p => Byte.x01 :: pos_digits p end.
Fixpoint digits_pos (s : bytes) : positive :=
  match s with [] => xH | Byte.x00 :: s => xO (digits_pos s) | _ :: s => xI (digits_pos s) end.

Lemma digits_pos_digits p : digits_pos (pos_digits p) = p.
Proof. induction p; cbn; by rewrite ?IHp. Qed.

(** One collection, with its [_id] index and an index on [a] that its entry names. *)
Definition ex_index_entry (ordering : Z) (unique : bool) : IndexEntry :=
  mkIndexEntry ordering unique false None (fun d => Ok (match getField d (lit "a") with Some v => [[([], v)]] | None => [] end, [[]])).
Definition ex_md : MetaData :=
  mkMetaData (lit "db.c") [mkIndexMetaData (lit "_id_") true true false [] (ex_index_entry 0 true);
                           mkIndexMetaData (lit "a_1") false true false [[]] (ex_index_entry 0 false)].

Definition ex_codec : ImageCodec :=
  mkImageCodec (fun m k t => marked_part m ++ marked_part k ++ marked_part t)
    (fun s => let (m, s) := read_part s in let (k, s) := read_part s in let (t, _) := read_part s in (m, k, t))
    (fun t => pos_digits (encode (pk_schema_ts_ t, sk_schemas_ts_ t)))
    (fun s => match decode (digits_pos s) with Some (p, m) => mkTs p m | None => mkTs 0 ∅ end)
    (fun t n => match tn_type n with Primary => pk_schema_ts_ t | _ => default 0 (sk_schemas_ts_ t !! n) end)
    (fun _ => CollectionEntry ex_md) (lit ":") (lit "*").

#[global] Instance ex_codec_laws : ImageLaws ex_codec.
Proof.
  constructor.
  - intros m k t. cbn. rewrite <- (app_nil_r (marked_part t)), !read_marked. done.
  - intros [p m]. cbn. by rewrite digits_pos_digits, decode_encode.
  - done.
Qed.

(** An image recorded without the index's timestamp is built at version 7, and its copy at version 9. *)
Definition ex_table : TableName := mkTableName (lit "db.c") Primary.
Definition ex_image : bytes := SerializeSchemaImage ex_codec (lit "m") (lit "k") (ts_Serialize ex_codec (mkTs 5 ∅)).

Lemma image_keeps_versions_witness :
  exists s, MongoTableSchema_of ex_codec ex_table ex_image 7 = Ok s /\ pk_ts_ s = 5 /\ map (fun e => SchemaTs e.2.2) (indexes_ s) = [7] /\
    exists s', MongoTableSchema_of ex_codec ex_table (schema_image_ s) 9 = Ok s' /\ indexes_ s' = indexes_ s.
Proof.
  destruct (MongoTableSchema_of ex_codec ex_table ex_image 7) as [s|] eqn:E; [|vm_compute in E; discriminate].
  exists s. destruct (image_keeps_versions ex_codec ex_table ex_image 7 s 9 eq_refl ltac:(lia) E) as (s' & E' & _ & _ & Hi & _).
  split; [reflexivity|]. vm_compute in E. injection E as <-. split; [reflexivity|]. split; [reflexivity|]. exists s'. split; [exact E'|exact Hi].
Defined.
