(* ===== verification/TxService.v ===== *)
(** * The transaction service, as the engine uses it

    Tables of the engine live in the transaction service (data_substrate), which is not part of the
    sources: its requests are the operations of a record [TxService], and what the engine relies on
    is the class [TxLaws]. *)

From S2P Require Import Prelude Bytes Bson RawBson BsonBuilder KeyDecoder RecordId MongoKey MongoRecord EloqUtil TableSchema.
#[local] Open Scope Z_scope.

(** ** Requests *)

Inductive IsolationLevel := Snapshot | OtherIsolation (level : Z).

(** [ScanOpenTxRequest]; the flags the engine always passes alike are left out. *)
Record ScanRequest := mkScan {
  sr_table : TableName;
  sr_version : Z;
  sr_primary : bool;
  sr_start : MongoKey.t;
  sr_startInclusive : bool;
  sr_end : MongoKey.t;
  sr_endInclusive : bool;
  sr_forward : bool;
  sr_isForWrite : bool;
}.

(** What a [ReadTxRequest] answers: its error, and the record's status, version and contents. *)
Record ReadAnswer := mkRead {
  ra_err : TxErrorCode;
  ra_status : RecordStatus;
  ra_version : Z;
  ra_record : MongoRecord.t;
}.

(** What a [ScanBatchTxRequest] answers: its error, the tuples, and whether the scan ends with them. *)
Record ScanAnswer := mkBatch {
  sa_err : TxErrorCode;
  sa_tuples : list ScanBatchTuple;
  sa_last : bool;
}.

(** [txservice::CatalogRecord]. *)
Record CatalogRecord := mkCatalog {
  cr_Schema : MongoTableSchema;
  cr_DirtySchema : option MongoTableSchema;
  cr_SchemaTs : Z;
}.

(** [txservice::AlterTableInfo]: the indexes a schema change adds and drops. *)
Record AlterTableInfo := mkAlter { index_add_names_ : list TableName; index_drop_names_ : list TableName }.

Inductive UpsertResult := Succeeded | Failed | Unverified | OtherUpsertResult (code : Z).

(** What an [UpsertTableTxRequest] answers: its result, its error, and the code an index build failed with. *)
Record UpsertAnswer := mkUpsert { ua_result : UpsertResult; ua_err : TxErrorCode; ua_pack_sk_err : ErrorCode }.

(** The requests of one transaction at a time, over a state that other transactions change too. *)
Record TxService := mkTxService {
  TxState : Type;
  NewTxInit : IsolationLevel -> TxState -> TxState;
  CommitTx : TxState -> (bool * TxErrorCode) * TxState;
  AbortTx : TxState -> TxState;
  TxUpsert : TableName -> Z -> MongoKey.t -> option MongoRecord.t -> OperationType -> bool -> TxState -> TxErrorCode * TxState;
  ReadTx : TableName -> Z -> MongoKey.t -> bool -> TxState -> ReadAnswer * TxState;
  BatchReadTx : TableName -> Z -> list ScanBatchTuple -> bool -> bool -> TxState -> (TxErrorCode * list ScanBatchTuple) * TxState;
  OpenTxScan : ScanRequest -> TxState -> Z * TxState;
  ScanBatchTx : Z -> TableName -> Z -> TxState -> ScanAnswer * TxState;
  CloseTxScan : Z -> TableName -> list ScanBatchTuple -> TxState -> TxState;
  TxReadCatalog : TableName -> bool -> TxState -> (bool * TxErrorCode * option CatalogRecord) * TxState;
  BatchReadCatalogTx : list bytes -> TxState -> (TxErrorCode * list (bool * option CatalogRecord)) * TxState;
  ReadClusterConfigTx : TxState -> (TxErrorCode * bool) * TxState;
  UpsertTableTx : TableName -> bytes -> Z -> bytes -> OperationType -> option bytes -> TxState -> UpsertAnswer * TxState;
  TxUpsertCatalog : TableName -> CatalogRecord -> bytes -> TxState -> TxErrorCode * TxState;
  DataWriteSetSize : TxState -> Z;
  ReloadCacheTx : TxState -> TxState;
}.

(** ** What the engine relies on *)

(** The keys of a scan, in its direction. *)
Definition ahead (forward : bool) (a b : bytes) : bool := if forward then bytes_ltb a b else bytes_ltb b a.

Definition past (forward : bool) (pos : option bytes) (k : bytes) : bool :=
  match pos with Some p => ahead forward p k | None => true end.

Definition in_range (q : ScanRequest) (k : bytes) : bool :=
  let k := MongoKey.key k in
  let (lo, hi) := if sr_forward q then (sr_start q, sr_end q) else (sr_end q, sr_start q) in
  let (loInclusive, hiInclusive) := if sr_forward q then (sr_startInclusive q, sr_endInclusive q)
                                    else (sr_endInclusive q, sr_startInclusive q) in
  (if loInclusive then MongoKey.leb lo k else MongoKey.ltb lo k) && (if hiInclusive then MongoKey.leb k hi else MongoKey.ltb k hi).

(** An open scan: its request, the last key it delivered, and a bound of the tuples and batches still to come. *)
Record Scan := mkOpen { sc_request : ScanRequest; sc_pos : option bytes; sc_left : nat }.

(** The rows of a table as a transaction sees them. *)
Abbreviation Rows := (bytes -> option MongoRecord.t).

Definition tuple_key (t : ScanBatchTuple) : bytes := MongoKey.packed_key (key_ t).

(** A batch of a scan: keys of the range in the direction of the scan, after those delivered; those with
    status [Normal] are rows; no row is left out up to the last key, or at all if the scan ends. *)
Record batch (rows : Rows) (sc : Scan) (ts : list ScanBatchTuple) (last : bool) (sc' : Scan) : Prop := {
  b_keys : Forall (fun t => key_ t = MongoKey.key (tuple_key t) /\ in_range (sc_request sc) (tuple_key t) = true /\
                            past (sr_forward (sc_request sc)) (sc_pos sc) (tuple_key t) = true) ts;
  b_sorted : StronglySorted (fun a b => ahead (sr_forward (sc_request sc)) a b = true) (map tuple_key ts);
  b_rows : Forall (fun t => status_ t = Normal -> rows (tuple_key t) = Some (record_ t)) ts;
  b_complete : forall k r, rows k = Some r -> in_range (sc_request sc) k = true -> past (sr_forward (sc_request sc)) (sc_pos sc) k = true ->
    last = true \/ Exists (fun t => ahead (sr_forward (sc_request sc)) (tuple_key t) k = false) ts ->
    Exists (fun t => tuple_key t = k /\ status_ t = Normal) ts;
  b_empty : ts = [] -> last = true;
  b_request : sc_request sc' = sc_request sc;
  b_pos : sc_pos sc' = match list.last (map tuple_key ts) with Some k => Some k | None => sc_pos sc end;
  b_left : (length ts + sc_left sc' < sc_left sc)%nat;
}.

Class TxLaws (T : TxService) := {
  rows : TxState T -> TableName -> Rows;
  scans : TxState T -> gmap Z Scan;
  open_law : forall q s a s', OpenTxScan T q s = (a, s') ->
    0 <= a < u64_max /\ rows s' = rows s /\
    exists left, scans s' = <[a := mkOpen q None left]> (scans s);
  batch_law : forall a sc n s ans s', scans s !! a = Some sc -> ScanBatchTx T a (sr_table (sc_request sc)) n s = (ans, s') ->
    rows s' = rows s /\
    if is_ok (sa_err ans) then
      exists sc', scans s' = <[a := sc']> (scans s) /\ batch (rows s (sr_table (sc_request sc))) sc (sa_tuples ans) (sa_last ans) sc'
    else scans s' = scans s;
  close_law : forall a n ts s, rows (CloseTxScan T a n ts s) = rows s /\ scans (CloseTxScan T a n ts s) = delete a (scans s);
}.

(** Point reads and writes of the transaction: a write that succeeds is seen from then on, an insert that
    checks for duplicates succeeds only if there is no row, and a read that finds one or finds none is right;
    a batch of reads must be in the order of its keys. *)
Class KvLaws (T : TxService) `{!TxLaws T} := {
  upsert_law : forall n v k r op unique s s', TxUpsert T n v (MongoKey.key k) r op unique s = (NO_ERROR, s') ->
    scans s' = scans s /\ (unique = true -> r <> None -> rows s n k = None) /\
    forall n' k', rows s' n' k' = if bool_decide (n' = n /\ k' = k) then r else rows s n' k';
  read_law : forall n v k forWrite s a s', ReadTx T n v (MongoKey.key k) forWrite s = (a, s') ->
    rows s' = rows s /\ scans s' = scans s /\
    (ra_err a = NO_ERROR ->
     match ra_status a with Normal => rows s n k = Some (ra_record a) | Deleted => rows s n k = None | _ => True end);
  batchRead_law : forall n v ts forWrite pointRead s err ts' s', StronglySorted (fun a b => MongoKey.leb (key_ a) (key_ b) = true) ts ->
    BatchReadTx T n v ts forWrite pointRead s = ((err, ts'), s') ->
    rows s' = rows s /\ scans s' = scans s /\ length ts' = length ts /\
    (err = NO_ERROR -> Forall2 (fun t t' => key_ t' = key_ t /\
       match status_ t' with Normal => rows s n (tuple_key t) = Some (record_ t') | Deleted => rows s n (tuple_key t) = None | _ => True end) ts ts');
  gate_law : forall s a s', ReadClusterConfigTx T s = (a, s') -> rows s' = rows s /\ scans s' = scans s;
  catalog_law : forall n forWrite s a s', TxReadCatalog T n forWrite s = (a, s') -> rows s' = rows s /\ scans s' = scans s;
}.

(** ** Order *)

Lemma ahead_trans f a b c : ahead f a b = true -> ahead f b c = true -> ahead f a c = true.
Proof. destruct f; cbn; intros H1 H2; [exact (bytes_lt_trans _ _ _ H1 H2)|exact (bytes_lt_trans _ _ _ H2 H1)]. Qed.

Lemma ahead_irrefl f a : ahead f a a = false.
Proof. destruct f; apply MongoKey.bytes_ltb_irrefl. Qed.

Lemma ahead_total f a b : ahead f a b = false -> ahead f b a = false -> a = b.
Proof. destruct f; cbn; intros; [by apply MongoKey.bytes_total|symmetry; by apply MongoKey.bytes_total]. Qed.

Lemma past_ahead f p a b : past f p a = true -> ahead f a b = true -> past f p b = true.
Proof. destruct p as [p|]; cbn; [apply ahead_trans|done]. Qed.

Lemma pair_of {A B} (x : A * B) a : x.1 = a -> x = (a, x.2).
Proof. by destruct x; cbn; intros ->. Qed.
