(* ===== verification/MemTx.v ===== *)
(** * A transaction service in memory

    The least that keeps the contract of TxService.v: rows in a list, one row a batch, and errors as they
    are scripted. The theorems of the engine are applied to it. *)

From S2P Require Import Prelude Bytes Bson RawBson BsonBuilder KeyDecoder RecordId MongoKey MongoRecord EloqUtil TableSchema TxService.
#[local] Open Scope Z_scope.

Record MemState := mkMem {
  m_rows : list (TableName * bytes * MongoRecord.t);
  m_catalog : list (TableName * CatalogRecord);
  m_scans : gmap Z Scan;
  m_next : Z;
  m_errors : list TxErrorCode;
}.

(** The first row with the key. *)
Fixpoint mem_find (l : list (TableName * bytes * MongoRecord.t)) (n : TableName) (k : bytes) : option MongoRecord.t :=
  match l with
  | [] => None
  | (n', k', r) :: l => if bool_decide (n = n') && bytes_eqb k k' then Some r else mem_find l n k
  end.

Fixpoint mem_remove (l : list (TableName * bytes * MongoRecord.t)) (n : TableName) (k : bytes) : list (TableName * bytes * MongoRecord.t) :=
  match l with
  | [] => []
  | (n', k', r) :: l => if bool_decide (n = n') && bytes_eqb k k' then mem_remove l n k else (n', k', r) :: mem_remove l n k
  end.

Definition mem_keys (s : MemState) (n : TableName) : list bytes :=
  omap (fun e => if bool_decide (n = e.1.1) then Some e.1.2 else None) (m_rows s).

(** The first key in the direction of a scan. *)
Fixpoint mem_first (forward : bool) (ks : list bytes) : option bytes :=
  match ks with
  | [] => None
  | k :: ks => match mem_first forward ks with Some k' => Some (if ahead forward k' k then k' else k) | None => Some k end
  end.

Definition mem_candidates (s : MemState) (sc : Scan) : list bytes :=
  filter (fun k => in_range (sc_request sc) k && past (sr_forward (sc_request sc)) (sc_pos sc) k = true) (mem_keys s (sr_table (sc_request sc))).

(** The scripted error of a request. *)
Definition mem_error (s : MemState) : TxErrorCode * MemState :=
  match m_errors s with
  | [] => (NO_ERROR, s)
  | e :: es => (e, mkMem (m_rows s) (m_catalog s) (m_scans s) (m_next s) es)
  end.

Definition mem_set_scans (m : gmap Z Scan) (s : MemState) : MemState := mkMem (m_rows s) (m_catalog s) m (m_next s) (m_errors s).
Definition mem_set_rows (l : list (TableName * bytes * MongoRecord.t)) (s : MemState) : MemState := mkMem l (m_catalog s) (m_scans s) (m_next s) (m_errors s).

Definition mem_open (q : ScanRequest) (s : MemState) : Z * MemState :=
  let a := m_next s mod 1000 in
  (a, mkMem (m_rows s) (m_catalog s) (<[a := mkOpen q None (2 * length (m_rows s) + 2)]> (m_scans s)) (m_next s + 1) (m_errors s)).

Definition mem_batch (a : Z) (n : TableName) (prefetch : Z) (s : MemState) : ScanAnswer * MemState :=
  let (err, s) := mem_error s in
  if negb (is_ok err) then (mkBatch err [] false, s)
  else match m_scans s !! a with
       | None => (mkBatch OUT_OF_MEMORY [] false, s)
       | Some (mkOpen q pos remaining as sc) =>
           if (remaining <? 2)%nat then (mkBatch OUT_OF_MEMORY [] false, s)
           else match mem_first (sr_forward q) (mem_candidates s sc) with
                | None => (mkBatch NO_ERROR [] true, mem_set_scans (<[a := mkOpen q pos (remaining - 2)]> (m_scans s)) s)
                | Some k =>
                    (mkBatch NO_ERROR [mkTuple (MongoKey.key k) (default MongoRecord.empty (mem_find (m_rows s) (sr_table q) k)) Normal 0 0] false,
                     mem_set_scans (<[a := mkOpen q (Some k) (remaining - 2)]> (m_scans s)) s)
                end
       end.

Definition mem_upsert (n : TableName) (version : Z) (k : MongoKey.t) (r : option MongoRecord.t) (op : OperationType) (unique : bool) (s : MemState)
  : TxErrorCode * MemState :=
  let (err, s) := mem_error s in
  if negb (is_ok err) then (err, s)
  else
    let others := mem_remove (m_rows s) n (MongoKey.packed_key k) in
    match r with
    | None => (NO_ERROR, mem_set_rows others s)
    | Some r =>
        match mem_find (m_rows s) n (MongoKey.packed_key k) with
        | Some _ => if unique then (DUPLICATE_KEY, s) else (NO_ERROR, mem_set_rows ((n, MongoKey.packed_key k, r) :: others) s)
        | None => (NO_ERROR, mem_set_rows ((n, MongoKey.packed_key k, r) :: others) s)
        end
    end.

Definition mem_read (n : TableName) (version : Z) (k : MongoKey.t) (forWrite : bool) (s : MemState) : ReadAnswer * MemState :=
  let (err, s) := mem_error s in
  match mem_find (m_rows s) n (MongoKey.packed_key k) with
  | Some r => (mkRead err Normal 1 r, s)
  | None => (mkRead err Deleted 0 MongoRecord.empty, s)
  end.

Definition mem_tuple (s : MemState) (n : TableName) (t : ScanBatchTuple) : ScanBatchTuple :=
  match mem_find (m_rows s) n (tuple_key t) with
  | Some r => mkTuple (key_ t) r Normal 0 1
  | None => mkTuple (key_ t) MongoRecord.empty Deleted 0 0
  end.

Definition mem_catalog (n : TableName) (forWrite : bool) (s : MemState) : (bool * TxErrorCode * option CatalogRecord) * MemState :=
  match list_find (fun e => e.1 = n) (m_catalog s) with
  | Some (_, (_, r)) => ((true, NO_ERROR, Some r), s)
  | None => ((false, NO_ERROR, None), s)
  end.

Definition MemTx : TxService :=
  mkTxService MemState (fun _ s => s) (fun s => let (err, s) := mem_error s in ((is_ok err, err), s)) (fun s => s) mem_upsert mem_read
    (fun n _ ts _ _ s => let (err, s) := mem_error s in ((err, map (mem_tuple s n) ts), s)) mem_open mem_batch
    (fun a _ _ s => mem_set_scans (delete a (m_scans s)) s) mem_catalog
    (fun ns s => ((NO_ERROR, map (fun n => let r := (mem_catalog (mkTableName n Primary) false s).1 in (r.1.1, r.2)) ns), s)) (fun s => ((NO_ERROR, false), s))
    (fun _ _ _ _ _ _ s => (mkUpsert Succeeded NO_ERROR InvariantFailure, s)) (fun _ _ _ s => (NO_ERROR, s)) (fun _ => 0) (fun s => s).

(** ** It keeps the contract *)

Lemma mem_first_spec f ks : match mem_first f ks with
  | None => ks = []
  | Some k => k ∈ ks /\ forall x, x ∈ ks -> ahead f x k = false
  end.
Proof.
  induction ks as [|k ks IH]; [done|]. cbn [mem_first]. destruct (mem_first f ks) as [k'|].
  - destruct IH as [Hin Hmin]. destruct (ahead f k' k) eqn:E; (split; [set_solver|]); intros x [->|Hx]%elem_of_cons.
    + destruct (ahead f k k') eqn:E'; [|done]. pose proof (ahead_trans _ _ _ _ E E') as H. by rewrite ahead_irrefl in H.
    + by apply Hmin.
    + apply ahead_irrefl.
    + destruct (ahead f x k) eqn:E'; [|done]. destruct (ahead f k k') eqn:E2; [by rewrite <- (Hmin x Hx), (ahead_trans _ _ _ _ E' E2)|].
      rewrite (ahead_total _ _ _ E E2) in Hmin. by rewrite <- (Hmin x Hx).
  - subst ks. split; [set_solver|]. intros x ->%list_elem_of_singleton. apply ahead_irrefl.
Qed.

Lemma mem_find_keys s n k r : mem_find (m_rows s) n k = Some r -> k ∈ mem_keys s n.
Proof.
  unfold mem_keys. induction (m_rows s) as [|[[n' k'] r'] l IH]; [done|]. cbn [mem_find omap]. cbn. destruct (bool_decide (n = n')) eqn:En; cbn [andb].
  - destruct (bytes_eqb k k') eqn:Ek; [apply bytes_eqb_eq in Ek as ->; intros _; by left|]. intros H. right. by apply IH.
  - intros H. by apply IH.
Qed.

Lemma mem_keys_find s n k : k ∈ mem_keys s n -> exists r, mem_find (m_rows s) n k = Some r.
Proof.
  unfold mem_keys. induction (m_rows s) as [|[[n' k'] r'] l IH]; [by intros ?%not_elem_of_nil|]. cbn. destruct (bool_decide (n = n')) eqn:En; cbn [andb].
  - intros [->|H]%elem_of_cons; [rewrite (proj2 (bytes_eqb_eq k' k') eq_refl); eauto|]. destruct (bytes_eqb k k'); eauto.
  - apply IH.
Qed.

Lemma mem_candidates_spec s sc k : k ∈ mem_candidates s sc <->
  (exists r, mem_find (m_rows s) (sr_table (sc_request sc)) k = Some r) /\ in_range (sc_request sc) k = true /\ past (sr_forward (sc_request sc)) (sc_pos sc) k = true.
Proof.
  unfold mem_candidates. rewrite list_elem_of_filter, andb_true_iff. split.
  - intros [[? ?] ?%mem_keys_find]. done.
  - intros [[r ?%mem_find_keys] [? ?]]. done.
Qed.

Lemma mem_batch_rows s sc : match mem_first (sr_forward (sc_request sc)) (mem_candidates s sc) with
  | None => batch (mem_find (m_rows s) (sr_table (sc_request sc))) sc [] true (mkOpen (sc_request sc) (sc_pos sc) (sc_left sc - 2))
  | Some k => batch (mem_find (m_rows s) (sr_table (sc_request sc))) sc
      [mkTuple (MongoKey.key k) (default MongoRecord.empty (mem_find (m_rows s) (sr_table (sc_request sc)) k)) Normal 0 0] false
      (mkOpen (sc_request sc) (Some k) (sc_left sc - 2))
  end \/ (sc_left sc < 2)%nat.
Proof.
  destruct (decide (sc_left sc < 2)%nat) as [|Hl]; [by right|]. left. pose proof (mem_first_spec (sr_forward (sc_request sc)) (mem_candidates s sc)) as H.
  destruct (mem_first _ _) as [k|].
  - destruct H as [Hin Hmin]. apply mem_candidates_spec in Hin as ([r Hr] & H1 & H2). constructor; cbn; try done; try lia.
    + repeat constructor; done.
    + repeat constructor.
    + repeat constructor. intros _. cbn. by rewrite Hr.
    + intros k' r' Hr' Hi Hp [|Hex]; [done|]. apply Exists_cons in Hex as [Ha|Hex%Exists_nil]; [|done]. left. split; [|done]. cbn in *.
      apply (ahead_total (sr_forward (sc_request sc))); [done|]. apply Hmin, mem_candidates_spec. eauto.
  - constructor; cbn; try done; try lia; try constructor. intros k' r' Hr' Hi Hp _. assert (k' ∈ mem_candidates s sc) as Hk by (apply mem_candidates_spec; eauto).
    rewrite H in Hk. by apply not_elem_of_nil in Hk.
Qed.

#[global] Instance MemLaws : TxLaws MemTx.
Proof.
  refine (Build_TxLaws MemTx (fun s => mem_find (m_rows s)) m_scans _ _ _).
  - intros q s a s' [= <- <-]. split; [pose proof (Z.mod_pos_bound (m_next s) 1000 ltac:(done)); unfold u64_max; lia|]. split; [done|]. eexists. done.
  - intros a sc n s ans s' Hs. cbn [ScanBatchTx MemTx]. unfold mem_batch. destruct (mem_error s) as [err s1] eqn:Ee.
    assert (m_rows s1 = m_rows s /\ m_scans s1 = m_scans s) as [Er Esc] by (unfold mem_error in Ee; destruct (m_errors s); by injection Ee as <- <-).
    rewrite <- Er, <- Esc in *. destruct (is_ok err) eqn:Eo; cbn [negb]; [|intros [= <- <-]; cbn; by rewrite Eo]. rewrite Hs. destruct sc as [q pos left_]. 
    destruct (mem_batch_rows s1 (mkOpen q pos left_)) as [Hb|Hl]; cbn [sc_request sc_pos sc_left] in *.
    + destruct (_ <? 2)%nat eqn:El; [by intros [= <- <-]|]. destruct (mem_first _ _) as [k|]; intros [= <- <-]; cbn; split; try done; eexists; done.
    + rewrite (proj2 (Nat.ltb_lt _ _) Hl). by intros [= <- <-].
  - done.
Defined.

Lemma mem_error_rows s err s1 : mem_error s = (err, s1) -> m_rows s1 = m_rows s /\ m_scans s1 = m_scans s.
Proof. unfold mem_error. destruct (m_errors s); by intros [= <- <-]. Qed.

Lemma same_key (n n' : TableName) k k' : bool_decide (n = n') && bytes_eqb k k' = bool_decide (n = n' /\ k = k').
Proof.
  apply eq_true_iff_eq. rewrite andb_true_iff, !bool_decide_eq_true, bytes_eqb_eq. done.
Qed.

Lemma mem_find_remove l n k n' k' : mem_find (mem_remove l n k) n' k' = if bool_decide (n' = n /\ k' = k) then None else mem_find l n' k'.
Proof.
  induction l as [|[[n0 k0] r0] l IH]; [by case_bool_decide|]. cbn [mem_find mem_remove]. rewrite (same_key n n0 k k0), (same_key n' n0 k' k0).
  destruct (decide (n = n0 /\ k = k0)) as [[<- <-]|H1].
  - rewrite (bool_decide_true (n = n /\ k = k)), IH by done. by case_bool_decide.
  - rewrite (bool_decide_false (n = n0 /\ k = k0)) by done. cbn [mem_find]. rewrite (same_key n' n0 k' k0), IH.
    destruct (decide (n' = n0 /\ k' = k0)) as [[-> ->]|H2]; [|by rewrite (bool_decide_false (n' = n0 /\ k' = k0))].
    rewrite (bool_decide_true (n0 = n0 /\ k0 = k0)) by done. rewrite bool_decide_false; [done|]. intros [-> ->]. by apply H1.
Qed.

Lemma mem_find_put l n k r n' k' : mem_find ((n, k, r) :: mem_remove l n k) n' k' = if bool_decide (n' = n /\ k' = k) then Some r else mem_find l n' k'.
Proof. cbn [mem_find]. rewrite same_key, mem_find_remove. by case_bool_decide. Qed.

#[global] Instance MemKvLaws : KvLaws MemTx.
Proof.
  constructor.
  - intros n v k r op unique s s'. cbn [TxUpsert MemTx]. unfold mem_upsert. destruct (mem_error s) as [err s1] eqn:Ee. apply mem_error_rows in Ee as [Er Es].
    cbn [scans rows MemLaws MongoKey.packed_key]. rewrite <- Er, <- Es. destruct (is_ok err) eqn:Eo; cbn [negb]; [|destruct err; done].
    destruct r as [r|]; [|intros [= <-]; split_and!; [done|done|intros; apply mem_find_remove]].
    destruct (mem_find (m_rows s1) n k) eqn:Ef; [destruct unique|]; intros [= <-]; split_and!; try done; intros; apply mem_find_put.
  - intros n v k forWrite s a s'. cbn [ReadTx MemTx]. unfold mem_read. destruct (mem_error s) as [err s1] eqn:Ee. apply mem_error_rows in Ee as [Er Es].
    cbn [scans rows MemLaws MongoKey.packed_key]. rewrite <- Er, <- Es. destruct (mem_find (m_rows s1) n k) eqn:Ef; intros [= <- <-]; done.
  - intros n v ts forWrite pointRead s err ts' s' _. cbn [BatchReadTx MemTx]. destruct (mem_error s) as [err1 s1] eqn:Ee. apply mem_error_rows in Ee as [Er Es].
    cbn [scans rows MemLaws]. rewrite <- Er, <- Es. intros [= <- <- <-]. split_and!; [done|done|apply length_map|]. intros _. apply Forall2_fmap_r, Forall_Forall2_diag, Forall_true.
    intros t. unfold mem_tuple. destruct (mem_find (m_rows s1) n (tuple_key t)) eqn:Ef; cbn; rewrite ?Ef; done.
  - by intros s a s' [= _ <-].
  - intros n forWrite s a s'. cbn [TxReadCatalog MemTx]. unfold mem_catalog. destruct (list_find _ _) as [[? []]|]; by intros [= _ <-].
Qed.
