(* ===== verification/RecoveryUnit.v ===== *)
(** * Recovery units and scans (eloq_recovery_unit.{h,cpp}, eloq_cursor.{h,cpp})

    A recovery unit holds an operation's transaction, opened by the first request and closed when the unit
    of work ends; the changes to run then; the storage scans open in the transaction; the tables the
    transaction has seen; and the catalog entries staged while their indexes are being built. A storage
    cursor ([EloqCursor]) is one scan of a table, whose batches it hands out tuple by tuple.

    Operations act on a [World]: the transaction service's state, the unit, and the cursor objects by
    their address. A pointer to a tuple of a batch is an index of the batch's vector, and a transaction is
    told from others by its number: using a tuple of a vector that was cleared, or a transaction that is
    over, is undefined behaviour, and ends in [InvariantFailure]. *)

From S2P Require Import Prelude Bytes Bson RawBson BsonBuilder KeyDecoder RecordId MongoKey MongoRecord EloqUtil TableSchema TxService.
#[local] Open Scope Z_scope.

(** ** The world *)

(** [EloqRecoveryUnit::DiscoveredTable]. *)
Record DiscoveredTable := mkDiscovered {
  _schema : MongoTableSchema;
  _dirtySchema : option MongoTableSchema;
  _creatingIndexes : list (TableName * KeySchema);
}.

(** The indexes of the dirty schema that the schema does not have. *)
Definition DiscoveredTable_of (schema : MongoTableSchema) (dirtySchema : option MongoTableSchema) : DiscoveredTable :=
  mkDiscovered schema dirtySchema
    (match dirtySchema with
     | Some dirty => List.filter (fun dindex => negb (existsb (fun index => bool_decide (dindex.1 = index.1)) (map snd (indexes_ schema))))
                       (map snd (indexes_ dirty))
     | None => []
     end).

(** A registered [RecoveryUnit::Change]: the unit's own two, and those of the server, by name. *)
Inductive Change :=
| RestoreUnreadyTableChange (tableName : TableName) (obj : Document)
| RestoreUnreadyTablePutChange (tableName : TableName) (hadPreviousValue : bool) (previousValue : Document)
| ServerChange (name : nat).

(** What became of a server's change: committed at a time, or rolled back. *)
Inductive Fate := Committed (name : nat) (commitTime : option Z) | RolledBack (name : nat).

(** Timestamps are numbers, of which 0 is the null one. *)
Record EloqRecoveryUnit := mkUnit {
  _txm : option Z;
  _areWriteUnitOfWorksBanned : bool;
  _inUnitOfWork : bool;
  _active : bool;
  _isTimestamped : bool;
  _inMultiDocumentTransation : bool;
  _cursors : gset nat;
  _commitTimestamp : Z;
  _lastTimestampSet : option Z;
  _mySnapshotId : Z;
  _changes : list Change;
  _discoveredTableMap : gmap TableName DiscoveredTable;
  _unreadyTableMap : gmap TableName Document;
}.

Record EloqCursor := mkCursor {
  c_txm : option Z;
  _scanOpenTxReq : option ScanRequest;
  _currentBatchTuple : option nat;
  _isLastScanBatch : bool;
  _scanAlias : Z;
  _scanBatchVector : list ScanBatchTuple;
  _scanBatchIdx : Z;
  _scanBatchCnt : Z;
  _endSpecified : bool;
}.

(** The constructor. *)
Definition newCursor : EloqCursor := mkCursor None None None false u64_max [] u64_max 0 false.

(** ** Effects

    An operation reads and changes a state, and returns or throws; what it changed before it threw stays. *)

Definition St (S A : Type) : Type := S -> result A * S.

Section Effects.
Context {S : Type}.

Definition mret {A} (a : A) : St S A := fun s => (Ok a, s).
Definition mthrow {A} (e : ErrorCode) : St S A := fun s => (Err e, s).
Definition mbind {A B} (m : St S A) (f : A -> St S B) : St S B :=
  fun s => match m s with (Ok a, s) => f a s | (Err e, s) => (Err e, s) end.
Definition lift {A} (r : result A) : St S A := fun s => (r, s).
Definition gets {A} (f : S -> A) : St S A := fun s => (Ok (f s), s).
Definition modify (f : S -> S) : St S Datatypes.unit := fun s => (Ok tt, f s).
Definition minvariant (c : bool) : St S Datatypes.unit := lift (invariant c).

(** A handler of [DBException], which no failed invariant is. *)
Definition mcatch {A} (m : St S A) (handler : ErrorCode -> St S A) : St S A :=
  fun s => match m s with
           | (Err InvariantFailure, s) => (Err InvariantFailure, s)
           | (Err e, s) => handler e s
           | r => r
           end.

End Effects.

Notation "'let*' x := m 'in' k" := (mbind m (fun x => k))
  (at level 10, x pattern, m at level 100, k at level 200, format "'let*'  x  :=  m  'in' '//' k") : cdc_scope.

Section World.
Context {T : TxService}.

(** Besides the unit and the cursors: the numbers of the next transaction and snapshot, the operation's
    isolation level and whether it is an upsert, and what became of the server's changes. *)
Record World := mkWorld {
  w_tx : TxState T;
  w_ru : EloqRecoveryUnit;
  w_heap : gmap nat EloqCursor;
  w_nextTxn : Z;
  w_nextSnapshotId : Z;
  w_isolation : IsolationLevel;
  w_isUpsert : bool;
  w_fates : list Fate;
}.

#[local] Abbreviation M := (St World).

Definition set_tx (s : TxState T) (w : World) : World :=
  mkWorld s (w_ru w) (w_heap w) (w_nextTxn w) (w_nextSnapshotId w) (w_isolation w) (w_isUpsert w) (w_fates w).
Definition set_ru (u : EloqRecoveryUnit) (w : World) : World :=
  mkWorld (w_tx w) u (w_heap w) (w_nextTxn w) (w_nextSnapshotId w) (w_isolation w) (w_isUpsert w) (w_fates w).
Definition set_heap (h : gmap nat EloqCursor) (w : World) : World :=
  mkWorld (w_tx w) (w_ru w) h (w_nextTxn w) (w_nextSnapshotId w) (w_isolation w) (w_isUpsert w) (w_fates w).

(** A request to a transaction, which must be the one that is open. *)
Definition execute {A} (txm : option Z) (request : TxState T -> A * TxState T) : M A :=
  fun w => if _active (w_ru w) && bool_decide (txm = _txm (w_ru w)) then let (a, s) := request (w_tx w) in (Ok a, set_tx s w)
           else (Err InvariantFailure, w).

(** The object at an address. *)
Definition cursorAt (c : nat) : M EloqCursor := fun w => match w_heap w !! c with Some k => (Ok k, w) | None => (Err InvariantFailure, w) end.
Definition setCursor (c : nat) (k : EloqCursor) : M Datatypes.unit := modify (fun w => set_heap (<[c := k]> (w_heap w)) w).

Definition update_ru (f : EloqRecoveryUnit -> EloqRecoveryUnit) : M Datatypes.unit := modify (fun w => set_ru (f (w_ru w)) w).
Definition ru {A} (f : EloqRecoveryUnit -> A) : M A := gets (fun w => f (w_ru w)).

End World.

Arguments World : clear implicits.
Abbreviation M T := (St (World T)).

Section Unit.
Context {T : TxService}.
#[local] Abbreviation Op := (M T).
#[local] Abbreviation Act := (M T Datatypes.unit).

(** The fields of the unit that one operation changes at a time. *)
Definition set_inUnitOfWork (b : bool) (u : EloqRecoveryUnit) : EloqRecoveryUnit :=
  mkUnit (_txm u) (_areWriteUnitOfWorksBanned u) b (_active u) (_isTimestamped u) (_inMultiDocumentTransation u) (_cursors u)
    (_commitTimestamp u) (_lastTimestampSet u) (_mySnapshotId u) (_changes u) (_discoveredTableMap u) (_unreadyTableMap u).
Definition set_banned (b : bool) (u : EloqRecoveryUnit) : EloqRecoveryUnit :=
  mkUnit (_txm u) b (_inUnitOfWork u) (_active u) (_isTimestamped u) (_inMultiDocumentTransation u) (_cursors u)
    (_commitTimestamp u) (_lastTimestampSet u) (_mySnapshotId u) (_changes u) (_discoveredTableMap u) (_unreadyTableMap u).
Definition set_multiDocument (b : bool) (u : EloqRecoveryUnit) : EloqRecoveryUnit :=
  mkUnit (_txm u) (_areWriteUnitOfWorksBanned u) (_inUnitOfWork u) (_active u) (_isTimestamped u) b (_cursors u)
    (_commitTimestamp u) (_lastTimestampSet u) (_mySnapshotId u) (_changes u) (_discoveredTableMap u) (_unreadyTableMap u).
Definition set_txm (t : option Z) (active : bool) (u : EloqRecoveryUnit) : EloqRecoveryUnit :=
  mkUnit t (_areWriteUnitOfWorksBanned u) (_inUnitOfWork u) active (_isTimestamped u) (_inMultiDocumentTransation u) (_cursors u)
    (_commitTimestamp u) (_lastTimestampSet u) (_mySnapshotId u) (_changes u) (_discoveredTableMap u) (_unreadyTableMap u).
Definition set_cursors (c : gset nat) (u : EloqRecoveryUnit) : EloqRecoveryUnit :=
  mkUnit (_txm u) (_areWriteUnitOfWorksBanned u) (_inUnitOfWork u) (_active u) (_isTimestamped u) (_inMultiDocumentTransation u) c
    (_commitTimestamp u) (_lastTimestampSet u) (_mySnapshotId u) (_changes u) (_discoveredTableMap u) (_unreadyTableMap u).
Definition set_commitTimestamp (t : Z) (u : EloqRecoveryUnit) : EloqRecoveryUnit :=
  mkUnit (_txm u) (_areWriteUnitOfWorksBanned u) (_inUnitOfWork u) (_active u) (_isTimestamped u) (_inMultiDocumentTransation u) (_cursors u)
    t (_lastTimestampSet u) (_mySnapshotId u) (_changes u) (_discoveredTableMap u) (_unreadyTableMap u).
Definition set_changes (c : list Change) (u : EloqRecoveryUnit) : EloqRecoveryUnit :=
  mkUnit (_txm u) (_areWriteUnitOfWorksBanned u) (_inUnitOfWork u) (_active u) (_isTimestamped u) (_inMultiDocumentTransation u) (_cursors u)
    (_commitTimestamp u) (_lastTimestampSet u) (_mySnapshotId u) c (_discoveredTableMap u) (_unreadyTableMap u).
Definition set_discovered (m : gmap TableName DiscoveredTable) (u : EloqRecoveryUnit) : EloqRecoveryUnit :=
  mkUnit (_txm u) (_areWriteUnitOfWorksBanned u) (_inUnitOfWork u) (_active u) (_isTimestamped u) (_inMultiDocumentTransation u) (_cursors u)
    (_commitTimestamp u) (_lastTimestampSet u) (_mySnapshotId u) (_changes u) m (_unreadyTableMap u).
Definition set_unready (m : gmap TableName Document) (u : EloqRecoveryUnit) : EloqRecoveryUnit :=
  mkUnit (_txm u) (_areWriteUnitOfWorksBanned u) (_inUnitOfWork u) (_active u) (_isTimestamped u) (_inMultiDocumentTransation u) (_cursors u)
    (_commitTimestamp u) (_lastTimestampSet u) (_mySnapshotId u) (_changes u) (_discoveredTableMap u) m.

(** [nextSnapshotId.fetch_add(1)], as the unit's new snapshot. *)
Definition newSnapshot : Act := fun w =>
  let u := w_ru w in
  (Ok tt, mkWorld (w_tx w)
     (mkUnit (_txm u) (_areWriteUnitOfWorksBanned u) (_inUnitOfWork u) (_active u) (_isTimestamped u) (_inMultiDocumentTransation u) (_cursors u)
        (_commitTimestamp u) (_lastTimestampSet u) (w_nextSnapshotId w) (_changes u) (_discoveredTableMap u) (_unreadyTableMap u))
     (w_heap w) (w_nextTxn w) (wrap64 (w_nextSnapshotId w + 1)) (w_isolation w) (w_isUpsert w) (w_fates w)).

(** ** The transaction *)

Definition _txnOpen (isolationLevel : IsolationLevel) : Act :=
  let* active := ru _active in
  let* _ := minvariant (negb active) in
  let* multi := ru _inMultiDocumentTransation in
  let isolationLevel := if multi : bool then Snapshot else isolationLevel in
  fun w => (Ok tt, mkWorld (NewTxInit T isolationLevel (w_tx w)) (set_txm (Some (w_nextTxn w)) true (w_ru w)) (w_heap w)
                     (w_nextTxn w + 1) (w_nextSnapshotId w) (w_isolation w) (w_isUpsert w) (w_fates w)).

Definition getTxm : Op (option Z) :=
  let* active := ru _active in
  let* _ := (if active : bool then mret tt else let* isolation := gets w_isolation in _txnOpen isolation) in
  ru _txm.

(** ** Scans (eloq_cursor.cpp) *)

Definition indexScanIsOpen (k : EloqCursor) : bool := _scanAlias k <? u64_max.

Definition PrefetchSize (k : EloqCursor) : Z :=
  if _endSpecified k then 256
  else let cnt := _scanBatchCnt k in
       if cnt <? 1 then 1 - 1 else if cnt <? 4 then 4 - 1 else if cnt <? 16 then 16 - 1 else if cnt <? 64 then 64 - 1
       else if cnt <? 256 then 256 - 1 else 256 - 1.

Definition registerCursor (c : nat) : Act := update_ru (fun u => set_cursors (_cursors u ∪ {[c]}) u).
Definition unregisterCursor (c : nat) : Act := update_ru (fun u => set_cursors (_cursors u ∖ {[c]}) u).

Definition indexScanOpen (c : nat) (request : ScanRequest) (end_specified : bool) : Act :=
  let* _ := cursorAt c in
  let* _ := getTxm in
  let* _ := registerCursor c in
  let* txm := getTxm in
  let* alias := execute txm (OpenTxScan T request) in
  let* k := cursorAt c in
  setCursor c (mkCursor txm (Some request) (_currentBatchTuple k) false alias [] u64_max 0 end_specified).

(** The tuples not handed out yet are unlocked with the scan. *)
Definition indexScanClose (c : nat) : Act :=
  let* k := cursorAt c in
  match _scanOpenTxReq k with
  | None => mthrow InvariantFailure
  | Some request =>
      let unlockBatch := if _scanBatchIdx k =? u64_max then [] else drop (Z.to_nat (_scanBatchIdx k)) (_scanBatchVector k) in
      let* _ := execute (c_txm k) (fun s => (tt, CloseTxScan T (_scanAlias k) (sr_table request) unlockBatch s)) in
      setCursor c (mkCursor (c_txm k) (Some request) (_currentBatchTuple k) false u64_max [] u64_max (_scanBatchCnt k) (_endSpecified k))
  end.

(** The destructor, and the end of the object. *)
Definition deleteCursor (c : nat) : Act :=
  let* k := cursorAt c in
  let* _ := (if indexScanIsOpen k then let* _ := indexScanClose c in unregisterCursor c else mret tt) in
  modify (fun w => set_heap (delete c (w_heap w)) w).

(** [boost::optional<EloqCursor>]: [reset] and [emplace] of the one at an address. *)
Definition resetCursor (c : nat) : Act := fun w => match w_heap w !! c with Some _ => deleteCursor c w | None => (Ok tt, w) end.
Definition emplaceCursor (c : nat) : Act := let* _ := resetCursor c in setCursor c newCursor.

Definition _fetchBatchTuples (c : nat) : Op TxErrorCode :=
  let* k := cursorAt c in
  match _scanOpenTxReq k with
  | None => mthrow InvariantFailure
  | Some request =>
      let* _ := setCursor c (mkCursor (c_txm k) (Some request) (_currentBatchTuple k) (_isLastScanBatch k) (_scanAlias k) [] 0 (_scanBatchCnt k) (_endSpecified k)) in
      let* answer := execute (c_txm k) (ScanBatchTx T (_scanAlias k) (sr_table request) (PrefetchSize k)) in
      let ok := is_ok (sa_err answer) in
      let* _ := setCursor c (mkCursor (c_txm k) (Some request) (_currentBatchTuple k) (if ok then sa_last answer else _isLastScanBatch k) (_scanAlias k)
                  (sa_tuples answer) 0 (if ok then wrap64 (_scanBatchCnt k + 1) else _scanBatchCnt k) (_endSpecified k)) in
      mret (sa_err answer)
  end.

Definition set_current (t : option nat) (k : EloqCursor) : EloqCursor :=
  mkCursor (c_txm k) (_scanOpenTxReq k) t (_isLastScanBatch k) (_scanAlias k) (_scanBatchVector k) (_scanBatchIdx k) (_scanBatchCnt k) (_endSpecified k).
Definition take_tuple (k : EloqCursor) : EloqCursor :=
  mkCursor (c_txm k) (_scanOpenTxReq k) (Some (Z.to_nat (_scanBatchIdx k))) (_isLastScanBatch k) (_scanAlias k) (_scanBatchVector k)
    (_scanBatchIdx k + 1) (_scanBatchCnt k) (_endSpecified k).

(** The tuple [_currentBatchTuple] points to. *)
Definition currentTuple (k : EloqCursor) : result (option ScanBatchTuple) :=
  match _currentBatchTuple k with
  | None => Ok None
  | Some i => match _scanBatchVector k !! i with Some t => Ok (Some t) | None => Err InvariantFailure end
  end.

Definition currentBatchTuple (c : nat) : Op (option ScanBatchTuple) := let* k := cursorAt c in lift (currentTuple k).

(** The loop of [nextBatchTuple], as long as no tuple with status [Normal] is current. *)
Fixpoint nextBatchTuple_loop (fuel : nat) (c : nat) : Op TxErrorCode :=
  match fuel with
  | 0%nat => mthrow InvariantFailure
  | S fuel =>
      let* k := cursorAt c in
      let* current := lift (currentTuple k) in
      if (match current with Some t => is_normal (status_ t) | None => false end) then mret NO_ERROR
      else if _scanBatchIdx k <? Z.of_nat (length (_scanBatchVector k)) then
        let* _ := setCursor c (take_tuple k) in nextBatchTuple_loop fuel c
      else if _isLastScanBatch k then
        let* _ := setCursor c (set_current None k) in mret NO_ERROR
      else
        let* txErr := _fetchBatchTuples c in
        let* k := cursorAt c in
        if negb (is_ok txErr) then let* _ := setCursor c (set_current None k) in mret txErr
        else match _scanBatchVector k with
             | _ :: _ => let* _ := setCursor c (take_tuple k) in nextBatchTuple_loop fuel c
             | [] => let* _ := setCursor c (set_current None k) in mret NO_ERROR
             end
  end.

Definition nextBatchTuple (fuel : nat) (c : nat) : Op TxErrorCode :=
  let* k := cursorAt c in
  let* _ := setCursor c (set_current None k) in
  nextBatchTuple_loop fuel c.

(** ** The end of a transaction *)

Fixpoint closeCursors (cs : list nat) : Act :=
  match cs with
  | [] => mret tt
  | c :: cs =>
      let* k := cursorAt c in
      let* _ := (if indexScanIsOpen k then indexScanClose c else mret tt) in
      closeCursors cs
  end.

Definition closeAllCursors : Act :=
  let* cs := ru _cursors in
  let* _ := closeCursors (base.elements cs) in
  update_ru (set_cursors ∅).

Definition _txnClose (commit : bool) : Act :=
  let* active := ru _active in
  let* _ := minvariant active in
  let* _ := closeAllCursors in
  let* txm := ru _txm in
  let* err := (if commit then let* (_, err) := execute txm (CommitTx T) in mret err
               else let* _ := execute txm (fun s => (tt, AbortTx T s)) in mret NO_ERROR) in
  let* _ := update_ru (fun u => mkUnit None (_areWriteUnitOfWorksBanned u) (_inUnitOfWork u) false (_isTimestamped u) false (_cursors u)
                                  (_commitTimestamp u) None (_mySnapshotId u) (_changes u) (_discoveredTableMap u) (_unreadyTableMap u)) in
  let* _ := newSnapshot in
  let* _ := update_ru (set_discovered ∅) in
  let* status := lift (TxErrorCodeToMongoStatus err) in
  lift (uassertStatusOK status).

Definition fate (f : Fate) : Act := modify (fun w =>
  mkWorld (w_tx w) (w_ru w) (w_heap w) (w_nextTxn w) (w_nextSnapshotId w) (w_isolation w) (w_isUpsert w) (w_fates w ++ [f])).

(** [Change::commit] and [Change::rollback]. *)
Definition commitChange (commitTime : option Z) (ch : Change) : Act :=
  match ch with ServerChange name => fate (Committed name commitTime) | _ => mret tt end.
Definition rollbackChange (ch : Change) : Act :=
  match ch with
  | RestoreUnreadyTableChange tableName obj => update_ru (fun u => set_unready (<[tableName := obj]> (_unreadyTableMap u)) u)
  | RestoreUnreadyTablePutChange tableName had previous =>
      update_ru (fun u => set_unready (if had : bool then <[tableName := previous]> (_unreadyTableMap u) else delete tableName (_unreadyTableMap u)) u)
  | ServerChange name => fate (RolledBack name)
  end.

Fixpoint runChanges (run : Change -> Act) (chs : list Change) : Act :=
  match chs with [] => mret tt | ch :: chs => let* _ := run ch in runChanges run chs end.

(** The changes, from the last to the first. *)
Definition rollbackChanges : Act :=
  let* chs := ru _changes in
  let* _ := runChanges rollbackChange (rev chs) in
  let* _ := update_ru (set_changes []) in
  let* active := ru _active in
  minvariant (negb active).

(** An exception in [_abort] ends the process. *)
Definition _abort : Act :=
  mcatch
    (let* active := ru _active in
     let* _ := (if active : bool then _txnClose false else mret tt) in
     rollbackChanges)
    (fun _ => mthrow InvariantFailure).

Definition _commit : Act :=
  let* commitTimestamp := ru _commitTimestamp in
  let* lastTimestampSet := ru _lastTimestampSet in
  let commitTime := if commitTimestamp =? 0 then lastTimestampSet else Some commitTimestamp in
  mcatch
    (let* active := ru _active in
     let* _ := (if active : bool then _txnClose true else mret tt) in
     let* chs := ru _changes in
     let* _ := runChanges (commitChange commitTime) chs in
     let* _ := update_ru (set_changes []) in
     let* active := ru _active in
     minvariant (negb active))
    (fun e => let* _ := rollbackChanges in mthrow e).

(** ** Units of work *)

Definition beginUnitOfWork : Act :=
  let* banned := ru _areWriteUnitOfWorksBanned in
  let* _ := minvariant (negb banned) in
  let* inUnit := ru _inUnitOfWork in
  let* _ := minvariant (negb inUnit) in
  update_ru (set_inUnitOfWork true).

Definition commitUnitOfWork : Act :=
  let* inUnit := ru _inUnitOfWork in
  let* _ := minvariant inUnit in
  let* _ := update_ru (set_inUnitOfWork false) in
  _commit.

Definition abortUnitOfWork : Act :=
  let* inUnit := ru _inUnitOfWork in
  let* _ := minvariant inUnit in
  let* _ := update_ru (set_inUnitOfWork false) in
  _abort.

Definition abandonSnapshot : Act :=
  let* inUnit := ru _inUnitOfWork in
  let* _ := minvariant (negb inUnit) in
  let* active := ru _active in
  let* _ := (if active : bool then _txnClose false else mret tt) in
  update_ru (set_banned false).

Definition preallocateSnapshot : Act := update_ru (set_multiDocument true).

Definition reset : Act :=
  let* inUnit := ru _inUnitOfWork in
  let* _ := minvariant (negb inUnit) in
  let* _ := _abort in
  let* _ := newSnapshot in
  update_ru (fun u => mkUnit None false false false false false (_cursors u) 0 None (_mySnapshotId u) [] ∅ ∅).

Definition setCommitTimestamp (timestamp : Z) : Act :=
  let* u := ru id in
  let* _ := minvariant (negb (_inUnitOfWork u)) in
  let* _ := minvariant (_commitTimestamp u =? 0) in
  let* _ := minvariant (match _lastTimestampSet u with None => true | Some _ => false end) in
  let* _ := minvariant (negb (_isTimestamped u)) in
  update_ru (set_commitTimestamp timestamp).

Definition clearCommitTimestamp : Act :=
  let* u := ru id in
  let* _ := minvariant (negb (_inUnitOfWork u)) in
  let* _ := minvariant (negb (_commitTimestamp u =? 0)) in
  let* _ := minvariant (match _lastTimestampSet u with None => true | Some _ => false end) in
  let* _ := minvariant (negb (_isTimestamped u)) in
  update_ru (set_commitTimestamp 0).

Definition registerChange (change : Change) : Act :=
  let* inUnit := ru _inUnitOfWork in
  let* _ := minvariant inUnit in
  update_ru (fun u => set_changes (_changes u ++ [change]) u).

(** ** Catalog entries staged while their indexes are being built *)

Definition unreadyIsEmpty : Op bool := ru (fun u => bool_decide (_unreadyTableMap u = ∅)).

Definition eraseUnreadyTable (tableName : TableName) : Act :=
  let* u := ru id in
  match _unreadyTableMap u !! tableName with
  | None => mret tt
  | Some obj =>
      let* _ := (if _inUnitOfWork u then registerChange (RestoreUnreadyTableChange tableName obj) else mret tt) in
      update_ru (fun u => set_unready (delete tableName (_unreadyTableMap u)) u)
  end.

Definition getUnreadyTable (tableName : TableName) : Op Document := ru (fun u => default [] (_unreadyTableMap u !! tableName)).

Definition putUnreadyTable (tableName : TableName) (obj : Document) : Act :=
  let* u := ru id in
  let previous := _unreadyTableMap u !! tableName in
  let* _ := (if _inUnitOfWork u
             then registerChange (RestoreUnreadyTablePutChange tableName (match previous with Some _ => true | None => false end) (default [] previous))
             else mret tt) in
  update_ru (fun u => set_unready (<[tableName := obj]> (_unreadyTableMap u)) u).

(** ** Tables of the transaction *)

Definition readCatalog (tableName : TableName) (isForWrite : bool) : Op (bool * TxErrorCode * option CatalogRecord) :=
  let* _ := getTxm in
  let* txm := ru _txm in
  execute txm (TxReadCatalog T tableName isForWrite).

Definition discoverTable (tableName : TableName) (isForWrite : bool) : Op (option DiscoveredTable * TxErrorCode) :=
  let* tables := ru _discoveredTableMap in
  match tables !! tableName with
  | Some table => mret (Some table, NO_ERROR)
  | None =>
      let* (exists_, errorCode, catalogRecord) := readCatalog tableName isForWrite in
      if negb (is_ok errorCode) then mret (None, errorCode)
      else if negb exists_ then mret (None, NO_ERROR)
      else match catalogRecord with
           | None => mthrow InvariantFailure
           | Some r =>
               let table := DiscoveredTable_of (cr_Schema r) (cr_DirtySchema r) in
               let* _ := update_ru (fun u => set_discovered (<[tableName := table]> (_discoveredTableMap u)) u) in
               mret (Some table, NO_ERROR)
           end
  end.

(** [std::unordered_map::at] throws [std::out_of_range] on a table that was not discovered. *)
Definition discoveredTable (tableName : TableName) : Op DiscoveredTable :=
  let* u := ru id in
  let* _ := minvariant (_active u) in
  match _discoveredTableMap u !! tableName with Some table => mret table | None => mthrow InvariantFailure end.

(** The table's key schema, and an index's. The feature document's table has none. *)
Definition getKeySchema (tableName : TableName) : Op KeySchema :=
  let* _ := minvariant (bool_decide (tn_type tableName = Primary)) in
  let* table := discoveredTable tableName in
  match key_schema_ (_schema table) with Some s => mret s | None => mthrow InvariantFailure end.

Definition getIndexSchema (tableName indexName : TableName) : Op KeySchema :=
  let* _ := minvariant (bool_decide (tn_type tableName = Primary)) in
  let* table := discoveredTable tableName in
  match tn_type indexName with
  | Primary =>
      let* _ := minvariant (bool_decide (tableName = indexName)) in
      match key_schema_ (_schema table) with Some s => mret s | None => mthrow InvariantFailure end
  | _ => match IndexKeySchema (_schema table) indexName with Some s => mret s | None => mthrow InvariantFailure end
  end.

Definition tryInsertDiscoveredTable (tableName : TableName) (schema : MongoTableSchema) (dirtySchema : option MongoTableSchema) : Op bool :=
  let* tables := ru _discoveredTableMap in
  match tables !! tableName with
  | Some _ => mret false
  | None =>
      let* _ := update_ru (fun u => set_discovered (<[tableName := DiscoveredTable_of schema dirtySchema]> (_discoveredTableMap u)) u) in
      mret true
  end.

Definition deleteDiscoveredTable (tableName : TableName) : Act := update_ru (fun u => set_discovered (delete tableName (_discoveredTableMap u)) u).

(** ** Reads and writes *)

Definition setKV (tableName : TableName) (keySchemaVersion : Z) (key : MongoKey.t) (record : option MongoRecord.t)
  (operationType : OperationType) (checkUnique : bool) : Op TxErrorCode :=
  let* _ := getTxm in
  let* txm := ru _txm in
  execute txm (TxUpsert T tableName keySchemaVersion key record operationType checkUnique).

(** What a point read gives: whether the record exists, its contents and version, and the error. *)
Record PointRead := mkPointRead { pr_exists : bool; pr_err : TxErrorCode; pr_record : MongoRecord.t; pr_version : option Z }.

Definition retried (err : TxErrorCode) : bool := match err with READ_WRITE_CONFLICT | WRITE_WRITE_CONFLICT => true | _ => false end.

Fixpoint getKV_loop (attempts : nat) (tableName : TableName) (keySchemaVersion : Z) (key : MongoKey.t) (isForWrite : bool) (last : PointRead)
  : Op PointRead :=
  match attempts with
  | 0%nat => mret last
  | S attempts =>
      let* txm := ru _txm in
      let* answer := execute txm (ReadTx T tableName keySchemaVersion key isForWrite) in
      let err := ra_err answer in
      if retried err then getKV_loop attempts tableName keySchemaVersion key isForWrite (mkPointRead false err (ra_record answer) None)
      else if negb (is_ok err) then mret (mkPointRead false err (ra_record answer) None)
      else match ra_status answer with
           | Normal => mret (mkPointRead true err (ra_record answer) (Some (ra_version answer)))
           | Unknown => getKV_loop attempts tableName keySchemaVersion key isForWrite (mkPointRead false err (ra_record answer) None)
           | _ => mret (mkPointRead false err (ra_record answer) None)
           end
  end.

Definition getKV (tableName : TableName) (keySchemaVersion : Z) (key : MongoKey.t) (isForWrite : bool) : Op PointRead :=
  let* _ := getTxm in
  getKV_loop 10 tableName keySchemaVersion key isForWrite (mkPointRead false NO_ERROR MongoRecord.empty None).

(** [std::sort] of the indices by key. *)
Definition key_before (batch : list ScanBatchTuple) (i j : nat) : bool :=
  match batch !! i, batch !! j with Some a, Some b => MongoKey.ltb (key_ a) (key_ b) | _, _ => false end.
Fixpoint insert_index (batch : list ScanBatchTuple) (i : nat) (sorted : list nat) : list nat :=
  match sorted with
  | [] => [i]
  | j :: sorted => if key_before batch i j then i :: j :: sorted else j :: insert_index batch i sorted
  end.
Definition sort_indices (batch : list ScanBatchTuple) : list nat := foldl (fun sorted i => insert_index batch i sorted) [] (seq 0 (length batch)).

(** Element [i] of the vector at an index: reading past the end is undefined. *)
Definition at_ {A} (l : list A) (i : nat) : result A := match l !! i with Some a => Ok a | None => Err InvariantFailure end.

(** [originalToSorted[originalIndices[i]] = i]. *)
Fixpoint invert (originalIndices : list nat) (i : nat) (originalToSorted : list nat) : list nat :=
  match originalIndices with
  | [] => originalToSorted
  | j :: originalIndices => invert originalIndices (S i) (<[j := i]> originalToSorted)
  end.

(** The batch read, in its own order, and the error. The transaction must be open already. *)
Definition batchGetKV (tableName : TableName) (keySchemaVersion : Z) (batch : list ScanBatchTuple) (isForWrite pointReadOnMiss : bool)
  : Op (list ScanBatchTuple * TxErrorCode) :=
  let originalIndices := sort_indices batch in
  let* sortedBatch := lift (collect (at_ batch) originalIndices) in
  let originalToSorted := invert originalIndices 0 (repeat 0%nat (length batch)) in
  let* txm := ru _txm in
  let* (err, sortedBatch) := execute txm (BatchReadTx T tableName keySchemaVersion sortedBatch isForWrite pointReadOnMiss) in
  let* batch := lift (collect (at_ sortedBatch) originalToSorted) in
  mret (batch, err).

(** The gate on writes that change the schema. *)
Definition checkClusterGate : Op Status :=
  let* _ := getTxm in
  let* txm := ru _txm in
  let* (err, gated) := execute txm (ReadClusterConfigTx T) in
  if negb (is_ok err) then lift (TxErrorCodeToMongoStatus err)
  else if gated : bool then lift (TxErrorCodeToMongoStatus CLUSTER_GATED)
  else mret (Ok tt).

Definition notifyReloadCache : Act :=
  let* _ := getTxm in
  let* txm := ru _txm in
  execute txm (fun s => (tt, ReloadCacheTx T s)).

End Unit.
