(* ===== verification/UnitOfWork.v ===== *)
(** * Units of work

    What holds of the operations of RecoveryUnit.v: scans live in the transaction they were opened in, a
    unit of work is undone as a whole or committed as a whole, a point read is tried ten times at most, and
    a batch of reads comes back in the order it was given. *)

From S2P Require Import Prelude Bytes Bson RawBson BsonBuilder KeyDecoder RecordId MongoKey MongoRecord EloqUtil TableSchema TxService MemTx RecoveryUnit.
#[local] Open Scope Z_scope.

Section UnitOfWork.
Context {T : TxService}.
Implicit Types w : World T.

(** ** Scans belong to a transaction *)

(** An open scan is registered, and is of the transaction that is open; a registered one is open. *)
Record wf_world w : Prop := {
  wf_txm : if _active (w_ru w) then exists t, _txm (w_ru w) = Some t else _txm (w_ru w) = None /\ _cursors (w_ru w) = ∅;
  wf_open : forall c k, w_heap w !! c = Some k -> indexScanIsOpen k = true ->
    c ∈ _cursors (w_ru w) /\ c_txm k = _txm (w_ru w) /\ exists q, _scanOpenTxReq k = Some q;
  wf_registered : forall c, c ∈ _cursors (w_ru w) -> exists k, w_heap w !! c = Some k /\ indexScanIsOpen k = true;
}.

Definition closed (k : EloqCursor) : EloqCursor :=
  mkCursor (c_txm k) (_scanOpenTxReq k) (_currentBatchTuple k) false u64_max [] u64_max (_scanBatchCnt k) (_endSpecified k).

Lemma closed_not_open k : indexScanIsOpen (closed k) = false.
Proof. done. Qed.

(** The parts of a world that requests to the transaction service leave alone. *)
Definition same_but_tx w w' : Prop := exists s, w' = set_tx s w.

Lemma execute_ok {A} (f : TxState T -> A * TxState T) t w : _active (w_ru w) = true -> _txm (w_ru w) = t ->
  execute t f w = (let (a, s) := f (w_tx w) in (Ok a, set_tx s w)).
Proof. intros Ha <-. unfold execute. by rewrite Ha, bool_decide_true. Qed.

Lemma indexScanClose_spec w c k q : _active (w_ru w) = true -> w_heap w !! c = Some k -> c_txm k = _txm (w_ru w) -> _scanOpenTxReq k = Some q ->
  exists ts, indexScanClose c w = (Ok tt, set_heap (<[c := closed k]> (w_heap w)) (set_tx (CloseTxScan T (_scanAlias k) (sr_table q) ts (w_tx w)) w)).
Proof.
  intros Ha Hk Ht Hq. unfold indexScanClose, mbind, cursorAt. rewrite Hk, Hq. cbn -[set_tx set_heap]. rewrite execute_ok by done.
  eexists. unfold closed. rewrite Hq. done.
Qed.

Lemma closeCursors_spec cs : forall w, NoDup cs -> _active (w_ru w) = true ->
  (forall c, c ∈ cs -> exists k q, w_heap w !! c = Some k /\ indexScanIsOpen k = true /\ c_txm k = _txm (w_ru w) /\ _scanOpenTxReq k = Some q) ->
  exists s, closeCursors cs w = (Ok tt, set_heap (map_imap (fun c k => Some (if bool_decide (c ∈ cs) then closed k else k)) (w_heap w)) (set_tx s w)).
Proof.
  induction cs as [|c cs IH]; intros w Hd Ha Hcs; cbn [closeCursors].
  - exists (w_tx w). unfold mret. f_equal. destruct w. unfold set_heap, set_tx. cbn. f_equal. apply map_eq. intros c. rewrite map_lookup_imap.
    destruct (_ !! c); cbn; [|done]. done.
  - apply NoDup_cons in Hd as [Hc Hd]. destruct (Hcs c (list_elem_of_here _ _)) as (k & q & Hk & Ho & Ht & Hq).
    destruct (indexScanClose_spec w c k q Ha Hk Ht Hq) as (ts & Ec). unfold mbind at 1, cursorAt. rewrite Hk. unfold mbind at 1. rewrite Ho, Ec.
    destruct (IH (set_heap (<[c:=closed k]> (w_heap w)) (set_tx (CloseTxScan T (_scanAlias k) (sr_table q) ts (w_tx w)) w)) Hd Ha) as [s Es].
    { intros c' Hc'. destruct (Hcs c' (list_elem_of_further _ _ _ Hc')) as (k' & q' & Hk' & H). exists k', q'. split; [|done].
      cbn. rewrite lookup_insert_ne by by intros ->. done. }
    rewrite Es. exists s. f_equal. unfold set_heap, set_tx. cbn. f_equal. apply map_eq. intros c'. rewrite !map_lookup_imap.
    destruct (decide (c = c')) as [<-|Hne].
    + rewrite lookup_insert_eq, Hk. cbn. rewrite (bool_decide_true (c ∈ c :: cs)) by left. by rewrite bool_decide_false.
    + rewrite lookup_insert_ne by done. destruct (w_heap w !! c') as [k'|]; cbn; [|done]. do 2 f_equal.
      destruct (decide (c' ∈ cs)); [rewrite !bool_decide_true by (done || by right)|rewrite !bool_decide_false by (done || by intros [|]%elem_of_cons)]; done.
Qed.

(** The unit after its transaction is closed. *)
Definition unit_after (u : EloqRecoveryUnit) (snapshot : Z) : EloqRecoveryUnit :=
  mkUnit None (_areWriteUnitOfWorksBanned u) (_inUnitOfWork u) false (_isTimestamped u) false ∅ (_commitTimestamp u) None snapshot (_changes u) ∅
    (_unreadyTableMap u).

(** No scan is open. *)
Definition no_scans (h : gmap nat EloqCursor) : Prop := forall c k, h !! c = Some k -> indexScanIsOpen k = false.

Definition closed_heap (cs : gset nat) (h : gmap nat EloqCursor) : gmap nat EloqCursor :=
  map_imap (fun c k => Some (if bool_decide (c ∈ cs) then closed k else k)) h.

Lemma closed_heap_lookup cs h c k : closed_heap cs h !! c = Some k <-> exists k0, h !! c = Some k0 /\ k = (if bool_decide (c ∈ cs) then closed k0 else k0).
Proof. unfold closed_heap. rewrite map_lookup_imap. destruct (h !! c) as [k0|]; cbn; naive_solver. Qed.

Lemma wf_closed_heap w : wf_world w -> no_scans (closed_heap (_cursors (w_ru w)) (w_heap w)).
Proof.
  intros Hw c k (k0 & Hk & ->)%closed_heap_lookup. case_bool_decide as Hc; [done|]. destruct (indexScanIsOpen k0) eqn:Eo; [|done].
  by destruct (wf_open w Hw c k0 Hk Eo).
Qed.

Lemma closeAllCursors_spec w : wf_world w -> _active (w_ru w) = true ->
  exists s, closeAllCursors w = (Ok tt, set_ru (set_cursors ∅ (w_ru w)) (set_heap (closed_heap (_cursors (w_ru w)) (w_heap w)) (set_tx s w))).
Proof.
  intros Hw Ha. unfold closeAllCursors, mbind, ru, gets. destruct (closeCursors_spec (base.elements (_cursors (w_ru w))) w) as [s E].
  - apply NoDup_elements.
  - done.
  - intros c Hc%elem_of_elements. destruct (wf_registered w Hw c Hc) as (k & Hk & Ho). destruct (wf_open w Hw c k Hk Ho) as (_ & Ht & q & Hq). eauto 10.
  - rewrite E. exists s. unfold update_ru, modify. f_equal. unfold set_ru, set_heap, set_tx, closed_heap. cbn. f_equal. apply map_eq. intros c.
    rewrite !map_lookup_imap. destruct (w_heap w !! c); cbn; [|done]. by rewrite (bool_decide_ext _ _ (elem_of_elements (_cursors (w_ru w)) c)).
Qed.

(** The error a transaction is closed with, as the server sees it. *)
Definition outcome (err : TxErrorCode) : result Datatypes.unit := let! status := TxErrorCodeToMongoStatus err in uassertStatusOK status.

Lemma outcome_not_invariant err : outcome err <> Err InvariantFailure.
Proof. by destruct err. Qed.

Lemma _txnClose_spec commit w : wf_world w -> _active (w_ru w) = true -> exists s err, (commit = false -> err = NO_ERROR) /\
  _txnClose commit w = (outcome err, mkWorld s (unit_after (w_ru w) (w_nextSnapshotId w)) (closed_heap (_cursors (w_ru w)) (w_heap w)) (w_nextTxn w)
    (wrap64 (w_nextSnapshotId w + 1)) (w_isolation w) (w_isUpsert w) (w_fates w)).
Proof.
  intros Hw Ha. destruct (closeAllCursors_spec w Hw Ha) as [s E]. unfold _txnClose, minvariant, mbind, ru, gets, lift. rewrite Ha. cbn [uassert]. rewrite E.
  destruct commit; rewrite execute_ok by done; cbn [set_ru set_heap set_tx w_tx].
  - destruct (CommitTx T s) as [[ok err] s']. exists s', err. split; [done|]. unfold outcome. cbn -[TxErrorCodeToMongoStatus closed_heap wrap64]. by destruct (TxErrorCodeToMongoStatus err).
  - exists (AbortTx T s), NO_ERROR. done.
Qed.

Lemma no_scans_wf w : _active (w_ru w) = false -> _txm (w_ru w) = None -> _cursors (w_ru w) = ∅ -> no_scans (w_heap w) -> wf_world w.
Proof.
  intros Ha Ht Hc Hn. constructor.
  - by rewrite Ha.
  - intros c k Hk Ho. by rewrite (Hn c k Hk) in Ho.
  - intros c. rewrite Hc. set_solver.
Qed.

(** ** Changes *)

Definition undo (ch : Change) (m : gmap TableName Document) : gmap TableName Document :=
  match ch with
  | RestoreUnreadyTableChange t obj => <[t := obj]> m
  | RestoreUnreadyTablePutChange t had previous => if had then <[t := previous]> m else delete t m
  | ServerChange _ => m
  end.

(** From the last to the first. *)
Definition undo_all (chs : list Change) (m : gmap TableName Document) : gmap TableName Document := foldr undo m chs.

Definition names (chs : list Change) : list nat := omap (fun ch => match ch with ServerChange n => Some n | _ => None end) chs.

Definition with_unit (u : EloqRecoveryUnit) (fates : list Fate) w : World T :=
  mkWorld (w_tx w) u (w_heap w) (w_nextTxn w) (w_nextSnapshotId w) (w_isolation w) (w_isUpsert w) fates.

Lemma names_app a b : names (a ++ b) = names a ++ names b.
Proof. apply omap_app. Qed.

Lemma undo_all_app a b m : undo_all (a ++ b) m = undo_all a (undo_all b m).
Proof. apply foldr_app. Qed.

Lemma set_unready_same u : set_unready (_unreadyTableMap u) u = u.
Proof. by destruct u. Qed.

Lemma runChanges_rollback chs : forall w, runChanges rollbackChange (rev chs) w =
  (Ok tt, with_unit (set_unready (undo_all chs (_unreadyTableMap (w_ru w))) (w_ru w)) (w_fates w ++ map RolledBack (rev (names chs))) w).
Proof.
  induction chs as [|ch chs IH] using rev_ind; intros w.
  - cbn. unfold mret, with_unit. rewrite set_unready_same, app_nil_r. by destruct w.
  - rewrite rev_app_distr. cbn [rev app runChanges]. rewrite undo_all_app, names_app, rev_app_distr, map_app. unfold mbind. destruct ch as [t obj|t had previous|n]; cbn.
    + by rewrite IH.
    + by rewrite IH.
    + rewrite IH. cbn. by rewrite <- app_assoc.
Qed.

Lemma runChanges_commit time chs : forall w, runChanges (commitChange time) chs w =
  (Ok tt, with_unit (w_ru w) (w_fates w ++ map (fun n => Committed n time) (names chs)) w).
Proof.
  induction chs as [|ch chs IH]; intros w; cbn [runChanges].
  - cbn. unfold mret, with_unit. rewrite app_nil_r. by destruct w.
  - unfold mbind. destruct ch; cbn; rewrite IH; cbn; try done. by rewrite <- app_assoc.
Qed.

Lemma rollbackChanges_spec w : _active (w_ru w) = false -> rollbackChanges w =
  (Ok tt, with_unit (set_changes [] (set_unready (undo_all (_changes (w_ru w)) (_unreadyTableMap (w_ru w))) (w_ru w)))
            (w_fates w ++ map RolledBack (rev (names (_changes (w_ru w))))) w).
Proof. intros Ha. unfold rollbackChanges, mbind, ru, gets. rewrite runChanges_rollback. cbn. by rewrite Ha. Qed.

(** ** A unit of work is one *)

(** What other operations leave alone. *)
Definition untouched w w' : Prop :=
  _changes (w_ru w') = _changes (w_ru w) /\ _unreadyTableMap (w_ru w') = _unreadyTableMap (w_ru w) /\
  _inUnitOfWork (w_ru w') = _inUnitOfWork (w_ru w) /\ w_fates w' = w_fates w.

(** What happens within a unit: entries are staged and unstaged, the server registers changes, and anything
    else that keeps scans in their transaction. *)
Inductive works w w' : Prop :=
| works_put t obj : putUnreadyTable t obj w = (Ok tt, w') -> works w w'
| works_erase t : eraseUnreadyTable t w = (Ok tt, w') -> works w w'
| works_register n : registerChange (ServerChange n) w = (Ok tt, w') -> works w w'
| works_other : untouched w w' -> wf_world w' -> works w w'.

(** Undoing the changes so far gives [m]. *)
Record undoable (m : gmap TableName Document) w : Prop := {
  u_wf : wf_world w;
  u_in : _inUnitOfWork (w_ru w) = true;
  u_undo : undo_all (_changes (w_ru w)) (_unreadyTableMap (w_ru w)) = m;
}.

Lemma wf_unit w u : wf_world w -> _active u = _active (w_ru w) -> _txm u = _txm (w_ru w) -> _cursors u = _cursors (w_ru w) -> wf_world (set_ru u w).
Proof. intros Hw Ha Ht Hc. destruct Hw. constructor; cbn; by rewrite ?Ha, ?Ht, ?Hc. Qed.

Lemma works_undoable m w w' : undoable m w -> works w w' -> undoable m w' /\ w_fates w' = w_fates w.
Proof.
  intros [Hw Hi Hu] [t obj E|t E|n E|(Hc & Hm & Hin & Hf) Hw'].
  - unfold putUnreadyTable, registerChange, minvariant, mbind, ru, gets, lift in E. cbn in E. repeat (rewrite Hi in E; cbn in E). injection E as <-. split; [|done].
    constructor; [by repeat apply wf_unit|done|]. cbn -[undo_all]. rewrite undo_all_app, <- Hu. f_equal. cbn. destruct (_unreadyTableMap (w_ru w) !! t) eqn:Et; cbn.
    + by rewrite insert_insert_eq, insert_id.
    + by rewrite delete_insert_id.
  - unfold eraseUnreadyTable, registerChange, minvariant, mbind, ru, gets, lift in E. cbn in E. destruct (_unreadyTableMap (w_ru w) !! t) eqn:Et.
    + repeat (rewrite Hi in E; cbn in E). injection E as <-. split; [|done]. constructor; [by repeat apply wf_unit|done|]. cbn -[undo_all]. rewrite undo_all_app, <- Hu. f_equal. cbn.
      by rewrite insert_delete_eq, insert_id.
    + injection E as <-. by split; [constructor|].
  - unfold registerChange, minvariant, mbind, ru, gets, lift in E. repeat (rewrite Hi in E; cbn in E). injection E as <-. split; [|done].
    constructor; [by repeat apply wf_unit|done|]. cbn -[undo_all]. by rewrite undo_all_app.
  - split; [|done]. constructor; [done|congruence|congruence].
Qed.

Lemma rtc_undoable m w w' : undoable m w -> rtc works w w' -> undoable m w' /\ w_fates w' = w_fates w.
Proof.
  intros Hu H. induction H as [|w w1 w' H1 _ IH]; [done|]. destruct (works_undoable m w w1 Hu H1) as [Hu1 <-]. by apply IH.
Qed.

(** The unit of work and its scans are over. *)
Definition over w : Prop :=
  wf_world w /\ no_scans (w_heap w) /\ _active (w_ru w) = false /\ _inUnitOfWork (w_ru w) = false /\ _changes (w_ru w) = [].

Lemma over_intro w : _active (w_ru w) = false -> _txm (w_ru w) = None -> _cursors (w_ru w) = ∅ -> no_scans (w_heap w) ->
  _inUnitOfWork (w_ru w) = false -> _changes (w_ru w) = [] -> over w.
Proof. intros. by split_and!; [apply no_scans_wf|..]. Qed.

Lemma no_scans_inactive w : wf_world w -> _active (w_ru w) = false -> _txm (w_ru w) = None /\ _cursors (w_ru w) = ∅ /\ no_scans (w_heap w).
Proof.
  intros Hw Ha. pose proof (wf_txm w Hw) as Ht. rewrite Ha in Ht. destruct Ht as [Ht Hc]. split_and!; [done..|]. intros c k Hk.
  destruct (indexScanIsOpen k) eqn:Eo; [|done]. destruct (wf_open w Hw c k Hk Eo) as [Hin _]. rewrite Hc in Hin. set_solver.
Qed.

(** The transaction, if there is one, is closed. *)
Lemma closes commit w : wf_world w -> exists err w1, (commit = false -> err = NO_ERROR) /\
  (let* active := ru _active in if active : bool then _txnClose commit else mret tt) w = (outcome err, w1) /\
  wf_world w1 /\ no_scans (w_heap w1) /\ _active (w_ru w1) = false /\ untouched w w1 /\
  _txm (w_ru w1) = None /\ _cursors (w_ru w1) = ∅.
Proof.
  intros Hw. unfold mbind, ru, gets. destruct (_active (w_ru w)) eqn:Ea.
  - destruct (_txnClose_spec commit w Hw Ea) as (s & err & He & ->). exists err. eexists. split; [done|]. split; [done|].
    pose proof (wf_closed_heap w Hw). split; [by apply no_scans_wf|]. by split_and!.
  - destruct (no_scans_inactive w Hw Ea) as (Ht & Hc & Hn). exists NO_ERROR, w. by split_and!.
Qed.

Lemma _abort_spec w : wf_world w -> _inUnitOfWork (w_ru w) = false -> exists w', _abort w = (Ok tt, w') /\ over w' /\
  _unreadyTableMap (w_ru w') = undo_all (_changes (w_ru w)) (_unreadyTableMap (w_ru w)) /\
  w_fates w' = w_fates w ++ map RolledBack (rev (names (_changes (w_ru w)))).
Proof.
  intros Hw Hi. destruct (closes false w Hw) as (err & w1 & He & E & Hw1 & Hn & Ha & (Hc & Hu & Hi1 & Hf) & Ht & Hcs). rewrite He in E by done.
  assert (_abort w = mcatch (let* _ := (let* active := ru _active in if active : bool then _txnClose false else mret tt) in rollbackChanges)
                       (fun _ => mthrow InvariantFailure) w) as -> by done.
  unfold mcatch, mbind at 1. rewrite E, rollbackChanges_spec by done. cbn [outcome TxErrorCodeToMongoStatus uassertStatusOK rbind]. eexists. split; [done|].
  rewrite Hc, Hu, Hf. split; [|done]. apply over_intro; cbn; congruence || done.
Qed.

Lemma _commit_spec w : wf_world w -> _inUnitOfWork (w_ru w) = false -> exists r w', _commit w = (r, w') /\ over w' /\
  match r with
  | Ok _ => _unreadyTableMap (w_ru w') = _unreadyTableMap (w_ru w) /\
      w_fates w' = w_fates w ++ map (fun n => Committed n (if _commitTimestamp (w_ru w) =? 0 then _lastTimestampSet (w_ru w) else Some (_commitTimestamp (w_ru w))))
                                 (names (_changes (w_ru w)))
  | Err e => e <> InvariantFailure /\ _unreadyTableMap (w_ru w') = undo_all (_changes (w_ru w)) (_unreadyTableMap (w_ru w)) /\
      w_fates w' = w_fates w ++ map RolledBack (rev (names (_changes (w_ru w))))
  end.
Proof.
  intros Hw Hi. destruct (closes true w Hw) as (err & w1 & _ & E & Hw1 & Hn & Ha & (Hc & Hu & Hi1 & Hf) & Ht & Hcs).
  pose proof (outcome_not_invariant err) as Hne. unfold mbind, ru, gets in E. unfold _commit, mcatch, mbind, ru, gets. rewrite E.
  destruct (outcome err) as [[]|e].
  - rewrite runChanges_commit. cbn. rewrite Ha. cbn. exists (Ok tt). eexists. split; [done|]. split; [apply over_intro; cbn; congruence || done|].
    cbn. by rewrite Hc, Hu, Hf.
  - exists (Err e). rewrite rollbackChanges_spec by done. eexists. split; [by destruct e|]. split; [apply over_intro; cbn; congruence || done|].
    cbn -[undo_all]. rewrite Hc, Hu, Hf. split; [congruence|done].
Qed.

(** C6. A unit of work is all or nothing. Whatever was staged, unstaged, registered and requested within it,
    aborting it leaves the staged catalog entries as they were when it began, and rolls every change of the
    server back once, the last first; committing it keeps the entries and commits every change once, in
    order, at the unit's commit time, or fails with the transaction service's error and undoes it as an
    abort does. In every case no scan is left open and no invariant fails. *)
Theorem unit_all_or_nothing w0 w1 w : wf_world w0 -> _changes (w_ru w0) = [] -> beginUnitOfWork w0 = (Ok tt, w1) -> rtc works w1 w ->
  (exists w', abortUnitOfWork w = (Ok tt, w') /\ over w' /\ _unreadyTableMap (w_ru w') = _unreadyTableMap (w_ru w0) /\
     w_fates w' = w_fates w0 ++ map RolledBack (rev (names (_changes (w_ru w))))) /\
  exists r w', commitUnitOfWork w = (r, w') /\ over w' /\
    match r with
    | Ok _ => _unreadyTableMap (w_ru w') = _unreadyTableMap (w_ru w) /\
        w_fates w' = w_fates w0 ++ map (fun n => Committed n (if _commitTimestamp (w_ru w) =? 0 then _lastTimestampSet (w_ru w) else Some (_commitTimestamp (w_ru w))))
                                   (names (_changes (w_ru w)))
    | Err e => e <> InvariantFailure /\ _unreadyTableMap (w_ru w') = _unreadyTableMap (w_ru w0) /\
        w_fates w' = w_fates w0 ++ map RolledBack (rev (names (_changes (w_ru w))))
    end.
Proof.
  intros Hw0 Hc0 Eb Hr. unfold beginUnitOfWork, minvariant, mbind, ru, gets, lift in Eb. destruct (_areWriteUnitOfWorksBanned (w_ru w0)); [done|].
  cbn in Eb. destruct (_inUnitOfWork (w_ru w0)); [done|]. cbn in Eb. injection Eb as <-.
  destruct (rtc_undoable (_unreadyTableMap (w_ru w0)) (set_ru (set_inUnitOfWork true (w_ru w0)) w0) w) as [[Hw Hi Hu] Hf]; [|exact Hr|].
  { constructor; [by apply wf_unit|done|]. cbn -[undo_all]. by rewrite Hc0. }
  cbn in Hf. rewrite <- Hu, <- Hf. set (w2 := set_ru (set_inUnitOfWork false (w_ru w)) w).
  assert (abortUnitOfWork w = _abort w2) as -> by (unfold abortUnitOfWork, minvariant, mbind, ru, gets, lift; by rewrite Hi).
  assert (commitUnitOfWork w = _commit w2) as -> by (unfold commitUnitOfWork, minvariant, mbind, ru, gets, lift; by rewrite Hi).
  assert (wf_world w2) as Hw2 by by apply wf_unit. split; [exact (_abort_spec w2 Hw2 eq_refl)|exact (_commit_spec w2 Hw2 eq_refl)].
Qed.

(** ** Operations keep scans in their transaction *)

Lemma untouched_refl w : untouched w w.
Proof. done. Qed.

Lemma untouched_trans w1 w2 w3 : untouched w1 w2 -> untouched w2 w3 -> untouched w1 w3.
Proof. unfold untouched. intuition congruence. Qed.

(** An operation that can be part of any unit of work, whether it succeeds or not. *)
Definition keeps {A} (m : M T A) : Prop := forall w, wf_world w -> wf_world (m w).2 /\ untouched w (m w).2.

Lemma keeps_pure {A} (m : M T A) : (forall w, (m w).2 = w) -> keeps m.
Proof. intros H w Hw. by rewrite H. Qed.

Lemma keeps_bind {A B} (m : M T A) (f : A -> M T B) : keeps m -> (forall a, keeps (f a)) -> keeps (mbind m f).
Proof.
  intros Hm Hf w Hw. unfold mbind. destruct (Hm w Hw) as [Hw1 Hu1]. destruct (m w) as [[a|e] w1]; cbn [snd] in *; [|done].
  destruct (Hf a w1 Hw1) as [Hw2 Hu2]. split; [done|by eapply untouched_trans].
Qed.

Lemma wf_set_tx s w : wf_world w -> wf_world (set_tx s w).
Proof. by intros []; constructor. Qed.

Lemma keeps_execute {A} t (f : TxState T -> A * TxState T) : keeps (execute t f).
Proof.
  intros w Hw. unfold execute. destruct (_ && _); [|done]. destruct (f (w_tx w)) as [a s]. split; [by apply wf_set_tx|done].
Qed.

Lemma getTxm_spec w : wf_world w -> exists w' t, getTxm w = (Ok (Some t), w') /\ wf_world w' /\ untouched w w' /\ _active (w_ru w') = true /\
  _txm (w_ru w') = Some t /\ w_heap w' = w_heap w /\ _cursors (w_ru w') = _cursors (w_ru w) /\ (_active (w_ru w) = true -> w' = w) /\
  (w_isolation w', w_isUpsert w') = (w_isolation w, w_isUpsert w).
Proof.
  intros Hw. unfold getTxm, mbind, ru, gets. pose proof (wf_txm w Hw) as Ht. destruct (_active (w_ru w)) eqn:Ea.
  - destruct Ht as [t Ht]. exists w, t. unfold mret. rewrite Ht. by split_and!.
  - destruct (no_scans_inactive w Hw Ea) as (_ & Hc & Hn). unfold _txnOpen, mbind, minvariant, ru, gets, lift. rewrite Ea. cbn. eexists _, _. split; [done|].
    split; [|by split_and!]. constructor; cbn.
    + by eexists.
    + intros c k Hk Ho. by rewrite (Hn c k Hk) in Ho.
    + rewrite Hc. set_solver.
Qed.

Lemma keeps_getTxm : keeps getTxm.
Proof. intros w Hw. destruct (getTxm_spec w Hw) as (w' & t & -> & Hw' & Hu & _). done. Qed.

Lemma keeps_discovered f : keeps (update_ru (fun u => set_discovered (f u) u) : M T Datatypes.unit).
Proof. intros w Hw. split; [by apply wf_unit|done]. Qed.

(** Operations made of these. *)
Ltac keeping :=
  repeat match goal with
  | |- keeps (mbind _ _) => apply keeps_bind; [|intros]
  | |- keeps (match ?x with _ => _ end) => destruct x
  | |- keeps (execute _ _) => apply keeps_execute
  | |- keeps getTxm => apply keeps_getTxm
  | |- keeps (update_ru (fun u => set_discovered _ u)) => apply (keeps_discovered (fun u => _))
  | |- keeps _ => by apply keeps_pure
  end.

Lemma keeps_setKV t v k r o b : keeps (setKV t v k r o b).
Proof. unfold setKV. keeping. Qed.

Lemma keeps_getKV_loop n : forall t v k b l, keeps (getKV_loop n t v k b l).
Proof. induction n; intros; cbn [getKV_loop]; keeping; apply IHn. Qed.

Lemma keeps_getKV t v k b : keeps (getKV t v k b).
Proof. unfold getKV. keeping. apply keeps_getKV_loop. Qed.

Lemma keeps_batchGetKV t v b f p : keeps (batchGetKV t v b f p).
Proof. unfold batchGetKV. keeping. Qed.

Lemma keeps_checkClusterGate : keeps checkClusterGate.
Proof. unfold checkClusterGate. keeping. Qed.

Lemma keeps_readCatalog t b : keeps (readCatalog t b).
Proof. unfold readCatalog. keeping. Qed.

Lemma keeps_discoverTable t b : keeps (discoverTable t b).
Proof. unfold discoverTable. keeping. all: apply keeps_readCatalog. Qed.

Lemma wf_setCursor w c k k' : wf_world w -> w_heap w !! c = Some k -> indexScanIsOpen k' = indexScanIsOpen k -> c_txm k' = c_txm k ->
  _scanOpenTxReq k' = _scanOpenTxReq k -> wf_world (set_heap (<[c := k']> (w_heap w)) w).
Proof.
  intros Hw Hk Ho Ht Hq. constructor; cbn.
  - apply Hw.
  - intros c' k1. destruct (decide (c = c')) as [<-|Hne].
    + rewrite lookup_insert_eq. intros [= <-]. rewrite Ho, Ht, Hq. by apply (wf_open w Hw).
    + rewrite lookup_insert_ne by done. apply (wf_open w Hw).
  - intros c' Hc'. destruct (wf_registered w Hw c' Hc') as (k1 & Hk1 & Ho1). destruct (decide (c = c')) as [<-|Hne].
    + rewrite lookup_insert_eq. exists k'. split; [done|]. rewrite Ho. by rewrite Hk in Hk1; injection Hk1 as <-.
    + rewrite lookup_insert_ne by done. eauto.
Qed.

Lemma keeps_fetch c : keeps (_fetchBatchTuples c).
Proof.
  intros w Hw. unfold _fetchBatchTuples, mbind, cursorAt. destruct (w_heap w !! c) as [k|] eqn:Hk; [|done].
  destruct (_scanOpenTxReq k) as [q|] eqn:Hq; [|done]. unfold setCursor, modify. set (k1 := mkCursor _ _ _ _ _ _ _ _ _).
  assert (wf_world (set_heap (<[c:=k1]> (w_heap w)) w)) as Hw1 by (apply (wf_setCursor w c k); [done..|by rewrite Hq]).
  destruct (keeps_execute (c_txm k) (ScanBatchTx T (_scanAlias k) (sr_table q) (PrefetchSize k)) _ Hw1) as [Hw2 Hu2].
  unfold execute in *. destruct (_ && _); [|done]. destruct (ScanBatchTx _ _ _ _ _) as [ans s]. cbn [snd] in *. split; [|done].
  apply (wf_setCursor _ c k1 _ Hw2); [by cbn; rewrite lookup_insert_eq|done..].
Qed.

Lemma keeps_advance c f : (forall k, indexScanIsOpen (f k) = indexScanIsOpen k /\ c_txm (f k) = c_txm k /\ _scanOpenTxReq (f k) = _scanOpenTxReq k) ->
  forall k w, wf_world w -> w_heap w !! c = Some k -> wf_world (setCursor c (f k) w).2 /\ untouched w (setCursor c (f k) w).2.
Proof. intros Hf k w Hw Hk. destruct (Hf k) as (Ho & Ht & Hq). split; [|done]. by apply (wf_setCursor w c k). Qed.

(** The outcome of an operation from [w]. *)
Definition kept {A} w (x : result A * World T) : Prop := wf_world x.2 /\ untouched w x.2.

Lemma kept_here {A} w (r : result A) : wf_world w -> kept w (r, w).
Proof. by split. Qed.

Lemma kept_after {A} w w1 (x : result A * World T) : untouched w w1 -> kept w1 x -> kept w x.
Proof. intros Hu [H1 H2]. split; [done|by eapply untouched_trans]. Qed.

Lemma keeps_nextBatchTuple_loop fuel : forall c, keeps (nextBatchTuple_loop fuel c).
Proof.
  induction fuel as [|fuel IH]; intros c w Hw; cbn [nextBatchTuple_loop]; [done|].
  match goal with |- wf_world ?x.2 /\ _ => change (kept w x) end.
  unfold mbind at 1, cursorAt. destruct (w_heap w !! c) as [k|] eqn:Hk; [|by apply kept_here]. unfold mbind at 1, lift.
  destruct (currentTuple k) as [cur|]; [|by apply kept_here]. destruct (match cur with Some t => _ | None => _ end); [by apply kept_here|].
  destruct (keeps_advance c take_tuple ltac:(done) k w Hw Hk) as [Ht Hut]. destruct (keeps_advance c (set_current None) ltac:(done) k w Hw Hk) as [Hc Huc].
  destruct (_ <? _); [|destruct (_isLastScanBatch k)].
  - unfold mbind. eapply kept_after; [exact Hut|]. by apply IH.
  - unfold mbind, mret. by split.
  - unfold mbind at 1. destruct (keeps_fetch c w Hw) as [Hf Huf]. destruct (_fetchBatchTuples c w) as [[err|e] w1]; cbn [snd] in *; [|by split].
    apply (kept_after w w1); [done|]. unfold mbind at 1, cursorAt. destruct (w_heap w1 !! c) as [k1|] eqn:Hk1; [|by apply kept_here].
    destruct (keeps_advance c take_tuple ltac:(done) k1 w1 Hf Hk1) as [Ht1 Hut1]. destruct (keeps_advance c (set_current None) ltac:(done) k1 w1 Hf Hk1) as [Hc1 Huc1].
    destruct (is_ok err); cbn [negb]; [destruct (_scanBatchVector k1) as [|t ts]|]; unfold mbind, mret.
    + by split.
    + eapply kept_after; [exact Hut1|]. by apply IH.
    + by split.
Qed.

Lemma keeps_nextBatchTuple fuel c : keeps (nextBatchTuple fuel c).
Proof.
  intros w Hw. unfold nextBatchTuple, mbind, cursorAt. destruct (w_heap w !! c) as [k|] eqn:Hk; [|done].
  destruct (keeps_advance c (set_current None) ltac:(done) k w Hw Hk) as [Hc Huc]. unfold setCursor, modify in *. cbn [snd] in *.
  destruct (keeps_nextBatchTuple_loop fuel c _ Hc). split; [done|by eapply untouched_trans].
Qed.

(** More fuel does not change what the loop does. *)
Lemma nextBatchTuple_loop_more fuel : forall c w, (nextBatchTuple_loop fuel c w).1 <> Err InvariantFailure ->
  nextBatchTuple_loop (S fuel) c w = nextBatchTuple_loop fuel c w.
Proof.
  induction fuel as [|fuel IH]; intros c w H; [done|]. set (more := S fuel) at 1. cbn [nextBatchTuple_loop] in H |- *.
  unfold mbind in *. destruct (cursorAt c w) as [[k|] w1]; [|done]. destruct (lift _ w1) as [[current|] w2]; [|done].
  destruct (match current with Some t => _ | None => _ end); [done|]. destruct (_ <? _).
  - destruct (setCursor c (take_tuple k) w2) as [[[]|] w3]; [|done]. by apply IH.
  - destruct (_isLastScanBatch k); [done|]. destruct (_fetchBatchTuples c w2) as [[err|] w3]; [|done]. destruct (cursorAt c w3) as [[k1|] w4]; [|done].
    destruct (is_ok err); cbn [negb] in *; [|done]. destruct (_scanBatchVector k1); [done|]. destruct (setCursor c (take_tuple k1) w4) as [[[]|] w5]; [|done].
    by apply IH.
Qed.

Lemma nextBatchTuple_more c w fuel fuel' : (fuel <= fuel')%nat -> (nextBatchTuple fuel c w).1 <> Err InvariantFailure ->
  nextBatchTuple fuel' c w = nextBatchTuple fuel c w.
Proof.
  intros Hle H. induction Hle as [|fuel' _ IH]; [done|]. rewrite <- IH in H |- *. unfold nextBatchTuple, mbind in *.
  destruct (cursorAt c w) as [[k|] w1]; [|done]. destruct (setCursor c (set_current None k) w1) as [[[]|] w2]; [|done]. by apply nextBatchTuple_loop_more.
Qed.

Lemma keeps_resetCursor c : keeps (resetCursor c).
Proof.
  intros w Hw. unfold resetCursor. destruct (w_heap w !! c) as [k|] eqn:Hk; [|done]. unfold deleteCursor, mbind, cursorAt. rewrite Hk.
  destruct (indexScanIsOpen k) eqn:Eo.
  - destruct (wf_open w Hw c k Hk Eo) as (Hin & Ht & q & Hq). pose proof (wf_txm w Hw) as Ha. destruct (_active (w_ru w)) eqn:Ea; [|by destruct Ha as [_ Ha]; set_solver].
    destruct (indexScanClose_spec w c k q Ea Hk Ht Hq) as [ts ->]. cbn. split; [|done]. constructor; cbn.
    + by rewrite Ea.
    + intros c' k' Hk' Ho'. destruct (decide (c = c')) as [<-|Hne]; [by rewrite lookup_delete_eq in Hk'|].
      rewrite lookup_delete_ne, lookup_insert_ne in Hk' by done. destruct (wf_open w Hw c' k' Hk' Ho') as (? & ?). split; [set_solver|done].
    + intros c' [Hc' Hne]%elem_of_difference. rewrite lookup_delete_ne, lookup_insert_ne by set_solver. by apply (wf_registered w Hw).
  - cbn. split; [|done]. constructor; cbn.
    + apply Hw.
    + intros c' k' Hk'. apply lookup_delete_Some in Hk' as [_ Hk']. by apply (wf_open w Hw).
    + intros c' Hc'. destruct (wf_registered w Hw c' Hc') as (k' & Hk' & Ho'). exists k'. split; [|done]. rewrite lookup_delete_ne; [done|].
      intros <-. rewrite Hk in Hk'. injection Hk' as <-. by rewrite Eo in Ho'.
Qed.

End UnitOfWork.

(** A unit that writes a row, stages one catalog entry over another, unstages it, and has two changes of the
    server; the transaction service refuses the commit with a conflict. *)
Definition ex_unit : EloqRecoveryUnit := mkUnit None false false false false false ∅ 7 None 0 [] ∅ {[mkTableName (lit "a") Primary := [(lit "x", BInt 1)]]}.
Definition ex_world (errors : list TxErrorCode) : World MemTx := mkWorld (T := MemTx) (mkMem [] [] ∅ 0 errors) ex_unit ∅ 0 1 (OtherIsolation 0) false [].

Lemma ex_world_wf errors : wf_world (ex_world errors).
Proof. apply no_scans_wf; [done..|]. intros c k Hk. cbn in Hk. by rewrite lookup_empty in Hk. Qed.

Lemma unit_all_or_nothing_witness :
  exists w1 w, beginUnitOfWork (ex_world [NO_ERROR; WRITE_WRITE_CONFLICT]) = (Ok tt, w1) /\ rtc works w1 w /\
    (exists w', abortUnitOfWork w = (Ok tt, w') /\ w_fates w' = [RolledBack 4; RolledBack 3]) /\
    exists w', commitUnitOfWork w = (Err WriteConflict, w') /\ _unreadyTableMap (w_ru w') = _unreadyTableMap ex_unit.
Proof.
  set (w1 := (beginUnitOfWork (ex_world [NO_ERROR; WRITE_WRITE_CONFLICT])).2).
  set (write := setKV (T := MemTx) (mkTableName (lit "b") Primary) 1 (MongoKey.key []) (Some MongoRecord.empty) Insert false). set (w2 := (write w1).2).
  set (w3 := (registerChange (ServerChange 3) w2).2). set (w4 := (putUnreadyTable (mkTableName (lit "a") Primary) [(lit "x", BInt 2)] w3).2).
  set (w5 := (eraseUnreadyTable (mkTableName (lit "a") Primary) w4).2). set (w := (registerChange (ServerChange 4) w5).2).
  exists w1, w. assert (wf_world w1) as Hw1 by (apply wf_unit; [apply ex_world_wf|done..]). assert (rtc works w1 w) as Hr.
  { apply (rtc_l _ w1 w2); [destruct (keeps_setKV (mkTableName (lit "b") Primary) 1 (MongoKey.key []) (Some MongoRecord.empty) Insert false w1 Hw1); by apply works_other|].
    apply (rtc_l _ w2 w3); [by apply (works_register w2 w3 3)|].
    apply (rtc_l _ w3 w4); [by apply (works_put w3 w4 (mkTableName (lit "a") Primary) [(lit "x", BInt 2)])|].
    apply (rtc_l _ w4 w5); [by apply (works_erase w4 w5 (mkTableName (lit "a") Primary))|].
    by apply rtc_once, (works_register w5 w 4). }
  split; [reflexivity|]. split; [exact Hr|].
  destruct (unit_all_or_nothing (ex_world [NO_ERROR; WRITE_WRITE_CONFLICT]) w1 w (ex_world_wf _) eq_refl eq_refl Hr) as [(w' & Ea & _ & _ & Hf) (r & w'' & Ec & _ & Hc)].
  split; [exists w'; split; [exact Ea|exact Hf]|]. assert ((commitUnitOfWork w).1 = Err WriteConflict) as Ev by reflexivity.
  rewrite Ec in Ev. cbn [fst] in Ev. subst r. exists w''. split; [exact Ec|]. apply Hc.
Defined.
