(* ===== verification/CursorScan.v ===== *)
(** * What a storage scan hands out

    Against the contract of the transaction service's scans: [nextBatchTuple] hands out the rows of the
    scanned range in order, each once, skips none, and ends when there are no more, whatever the service's
    batches are. The rows may change while the scan is open, as the operation writes or the isolation level
    lets other transactions' writes show: what the scan must not skip are the rows that stay ([stays]), and
    what it may hand out are those that were there at some time ([ever]). *)

From stdpp Require Import sorting.
From S2P Require Import Prelude Bytes Bson RawBson BsonBuilder KeyDecoder RecordId MongoKey MongoRecord EloqUtil TableSchema TxService RecoveryUnit.
From S2P Require Import UnitOfWork.
#[local] Open Scope Z_scope.

Section Scan.
Context {T : TxService} `{!TxLaws T}.
Context (stays : Rows) (ever : bytes -> MongoRecord.t -> Prop).

(** The rows of a table, at some time during the scan. *)
Definition between (r : Rows) : Prop :=
  (forall k rec, stays k = Some rec -> exists rec', r k = Some rec') /\ (forall k rec, r k = Some rec -> ever k rec).

(** What is handed out next when the tuples [pend] are at hand and the service has delivered up to [pos],
    [p] being the last key handed out. *)
Record pending (q : ScanRequest) (p : option bytes) (pend : list ScanBatchTuple) (isLast : bool) (pos : option bytes) : Prop := {
  po_keys : Forall (fun t => key_ t = MongoKey.key (tuple_key t) /\ in_range q (tuple_key t) = true /\ past (sr_forward q) p (tuple_key t) = true /\
                             (status_ t = Normal -> ever (tuple_key t) (record_ t))) pend;
  po_sorted : StronglySorted (fun a b => ahead (sr_forward q) a b = true) (map tuple_key pend);
  po_covered : forall k rec, stays k = Some rec -> in_range q k = true -> past (sr_forward q) p k = true ->
    Exists (fun t => tuple_key t = k /\ status_ t = Normal) pend \/ (isLast = false /\ past (sr_forward q) pos k = true);
  po_later : forall x, past (sr_forward q) pos x = true -> past (sr_forward q) p x = true /\
    Forall (fun t => ahead (sr_forward q) (tuple_key t) x = true) pend;
}.

Lemma pending_skip q p t pend isLast pos : pending q p (t :: pend) isLast pos -> is_normal (status_ t) = false -> pending q p pend isLast pos.
Proof.
  intros [Hk Hs Hc Hl] Hn. apply Forall_cons in Hk as [_ Hk]. apply StronglySorted_inv in Hs as [Hs _]. constructor; [done|done| |].
  - intros k rec H1 H2 H3. destruct (Hc k rec H1 H2 H3) as [[[_ He]|He]%Exists_cons|]; [by rewrite He in Hn|by left|by right].
  - intros x [Hx Hf]%Hl. apply Forall_cons in Hf as [_ Hf]. done.
Qed.

(** The next tuple. *)
Definition handed (q : ScanRequest) (p : option bytes) (t : ScanBatchTuple) : Prop :=
  key_ t = MongoKey.key (tuple_key t) /\ in_range q (tuple_key t) = true /\ past (sr_forward q) p (tuple_key t) = true /\ ever (tuple_key t) (record_ t) /\
  forall k rec, stays k = Some rec -> in_range q k = true -> past (sr_forward q) p k = true -> k = tuple_key t \/ ahead (sr_forward q) (tuple_key t) k = true.

Definition exhausted (q : ScanRequest) (p : option bytes) : Prop :=
  forall k rec, stays k = Some rec -> in_range q k = true -> past (sr_forward q) p k = false.

Lemma pending_take q p t pend isLast pos : pending q p (t :: pend) isLast pos -> is_normal (status_ t) = true ->
  handed q p t /\ pending q (Some (tuple_key t)) pend isLast pos.
Proof.
  intros [Hk Hs Hc Hl] Hn. apply Forall_cons in Hk as [(H1 & H2 & H3 & H4) Hk]. cbn [map] in Hs. apply StronglySorted_inv in Hs as [Hs Hfs].
  rewrite Forall_map in Hfs. split.
  - split_and!; try done; [by apply H4; destruct (status_ t)|]. intros k rec K1 K2 K3.
    destruct (Hc k rec K1 K2 K3) as [[[<- _]|He]%Exists_cons|[_ Hp]]; [by left| |].
    + right. apply Exists_exists in He as (t' & Ht' & <- & _). rewrite Forall_forall in Hfs. by apply Hfs.
    + right. destruct (Hl k Hp) as [_ Hf]. by apply Forall_cons in Hf as [].
  - constructor; [|done| |].
    + eapply Forall_impl; [exact (proj2 (Forall_and _ _) (conj Hk Hfs))|]. cbn. intros t' [(? & ? & ? & ?) ?]. by split_and!.
    + intros k rec K1 K2 K3. cbn in K3. destruct (Hc k rec K1 K2 (past_ahead _ _ _ _ H3 K3)) as [[[<- _]|He]%Exists_cons|]; [|by left|by right].
      by rewrite ahead_irrefl in K3.
    + intros x Hx. destruct (Hl x Hx) as [_ Hf]. by apply Forall_cons in Hf.
Qed.

Lemma pending_end q p pos : pending q p [] true pos -> exhausted q p.
Proof.
  intros [_ _ Hc _] k rec K1 K2. destruct (past _ p k) eqn:K3; [|done]. by destruct (Hc k rec K1 K2 K3) as [He%Exists_nil|[]].
Qed.

Lemma pending_open q : pending q None [] false None.
Proof. constructor; [constructor|constructor| |by split]. intros. by right. Qed.

(** A batch of the service. *)
Lemma pending_fetch q p sc ts last sc' r : sc_request sc = q -> pending q p [] false (sc_pos sc) -> batch r sc ts last sc' -> between r ->
  pending q p ts last (sc_pos sc').
Proof.
  intros Hq [_ _ Hc Hl] B [Hst Hev]. destruct B as [Bk Bs Br Bc _ _ Bp _]. rewrite Hq in *.
  assert (forall t, t ∈ ts -> past (sr_forward q) (sc_pos sc) (tuple_key t) = true) as Hpast.
  { intros t Ht. rewrite Forall_forall in Bk. by destruct (Bk t Ht) as (_ & _ & ?). }
  assert (forall x, past (sr_forward q) (sc_pos sc') x = true ->
    past (sr_forward q) (sc_pos sc) x = true /\ Forall (fun t => ahead (sr_forward q) (tuple_key t) x = true) ts) as Hlater.
  { intros x Hx. rewrite Bp in Hx. destruct ts as [|t0 ts0] using rev_ind; [by split|]. clear IHts0. rewrite map_app, last_app in Hx. cbn in Hx.
    split; [eapply past_ahead; [|exact Hx]; apply Hpast; set_solver|]. apply Forall_forall. intros t [Ht| ->%list_elem_of_singleton]%elem_of_app; [|done].
    eapply ahead_trans; [|exact Hx]. rewrite map_app in Bs. apply (StronglySorted_app_1_elem_of _ _ _ _ _ Bs); [exact (list_elem_of_fmap_2 tuple_key _ _ Ht)|by left]. }
  constructor.
  - apply Forall_forall. intros t Ht. rewrite Forall_forall in Bk, Br. destruct (Bk t Ht) as (H1 & H2 & H3). split_and!; [done..| |].
    + by apply Hl.
    + intros Hn. apply Hev. by apply Br.
  - done.
  - intros k rec K1 K2 K3. destruct (Hc k rec K1 K2 K3) as [He%Exists_nil|[_ Hp]]; [done|]. destruct (Hst k rec K1) as [rec' Hr].
    destruct last eqn:El; [left; by apply (Bc k rec'); auto|]. destruct (past (sr_forward q) (sc_pos sc') k) eqn:Ep; [by right|].
    left. apply (Bc k rec'); auto. right. rewrite Bp in Ep. destruct ts as [|t0 ts0] using rev_ind; [cbn in Ep; by rewrite Hp in Ep|]. clear IHts0.
    rewrite map_app, last_app in Ep. cbn in Ep. apply Exists_app. right. by constructor.
  - intros x [Hx Hf]%Hlater. split; [by apply Hl|done].
Qed.

(** ** The cursor *)

(** The tuples of the batch that were not handed out yet. *)
Definition at_hand (k : EloqCursor) : list ScanBatchTuple := drop (Z.to_nat (_scanBatchIdx k)) (_scanBatchVector k).

(** The cursor at [c] has a scan open. *)
Record opened w c (q : ScanRequest) (k : EloqCursor) (sc : Scan) : Prop := {
  op_heap : w_heap w !! c = Some k;
  op_active : _active (w_ru w) = true;
  op_txm : c_txm k = _txm (w_ru w);
  op_request : _scanOpenTxReq k = Some q;
  op_alias : 0 <= _scanAlias k < u64_max;
  op_scan : scans (w_tx w) !! _scanAlias k = Some sc;
  op_of : sc_request sc = q;
  op_idx : 0 <= _scanBatchIdx k /\ (_scanBatchVector k = [] \/ _scanBatchIdx k <= Z.of_nat (length (_scanBatchVector k)));
}.

(** It has handed out the rows up to [p]. *)
Definition scanning w c q p (k : EloqCursor) (sc : Scan) : Prop := opened w c q k sc /\ pending q p (at_hand k) (_isLastScanBatch k) (sc_pos sc).

(** What the cursor's operations leave alone: all but the cursor and its scan. *)
Record frame c (a : Z) w w' : Prop := {
  fr_ru : w_ru w' = w_ru w;
  fr_heap : forall c', c' <> c -> w_heap w' !! c' = w_heap w !! c';
  fr_rows : rows (w_tx w') = rows (w_tx w);
  fr_scans : forall a', a' <> a -> scans (w_tx w') !! a' = scans (w_tx w) !! a';
  fr_rest : (w_nextTxn w', w_nextSnapshotId w', w_isolation w', w_isUpsert w', w_fates w') = (w_nextTxn w, w_nextSnapshotId w, w_isolation w, w_isUpsert w, w_fates w);
}.

Lemma same_frame c a w : frame c a w w.
Proof. by constructor. Qed.

Lemma frames_compose c a w1 w2 w3 : frame c a w1 w2 -> frame c a w2 w3 -> frame c a w1 w3.
Proof.
  intros [R1 H1 W1 S1 X1] [R2 H2 W2 S2 X2]. constructor.
  - congruence.
  - intros c' Hc. by rewrite H2, H1.
  - congruence.
  - intros a' Ha. by rewrite S2, S1.
  - congruence.
Qed.

Lemma frame_setCursor c a w k : frame c a w (set_heap (<[c := k]> (w_heap w)) w).
Proof. constructor; try done. intros. cbn. by rewrite lookup_insert_ne. Qed.

Lemma opened_same w c q k sc k' : opened w c q k sc -> c_txm k' = c_txm k -> _scanOpenTxReq k' = _scanOpenTxReq k -> _scanAlias k' = _scanAlias k ->
  0 <= _scanBatchIdx k' -> (_scanBatchVector k' = [] \/ _scanBatchIdx k' <= Z.of_nat (length (_scanBatchVector k'))) ->
  opened (set_heap (<[c := k']> (w_heap w)) w) c q k' sc.
Proof. intros [] Ht Hq Ha Hi Hv. constructor; cbn; rewrite ?Ht, ?Hq, ?Ha; try done. by rewrite lookup_insert_eq. Qed.

Lemma take_tuple_at_hand k : (_scanBatchIdx k <? Z.of_nat (length (_scanBatchVector k))) = true -> 0 <= _scanBatchIdx k ->
  exists t, _scanBatchVector k !! Z.to_nat (_scanBatchIdx k) = Some t /\ at_hand k = t :: at_hand (take_tuple k).
Proof.
  intros Hlt Hi. boolprop. destruct (lookup_lt_is_Some_2 (_scanBatchVector k) (Z.to_nat (_scanBatchIdx k)) ltac:(lia)) as [t' Ht].
  exists t'. split; [done|]. unfold at_hand. rewrite (drop_S _ _ _ Ht). cbn. do 2 f_equal. lia.
Qed.

(** The tuple that is current and those at hand. *)
Definition in_loop (k : EloqCursor) (pend : list ScanBatchTuple) : Prop :=
  match _currentBatchTuple k with
  | None => pend = at_hand k
  | Some i => exists t, _scanBatchVector k !! i = Some t /\ _scanBatchIdx k = Z.of_nat i + 1 /\ pend = t :: at_hand k
  end.

Definition steps_left (k : EloqCursor) (pend : list ScanBatchTuple) (sc : Scan) : nat :=
  (length pend + sc_left sc + match _currentBatchTuple k with None => 1 | Some _ => 0 end)%nat.

(** What a call ends with: the next tuple, the end, or an error. *)
Definition advanced c q p (err : TxErrorCode) w' : Prop :=
  exists k' sc', w_heap w' !! c = Some k' /\
    if is_ok err then
      match _currentBatchTuple k' with
      | Some i => exists t, _scanBatchVector k' !! i = Some t /\ _scanBatchIdx k' = Z.of_nat i + 1 /\ status_ t = Normal /\ handed q p t /\
          scanning w' c q (Some (tuple_key t)) k' sc'
      | None => exhausted q p /\ scanning w' c q p k' sc'
      end
    else _currentBatchTuple k' = None.

Lemma currentTuple_loop k pend : in_loop k pend -> exists cur, currentTuple k = Ok cur /\
  match cur with Some t => _currentBatchTuple k <> None /\ pend = t :: at_hand k | None => _currentBatchTuple k = None /\ pend = at_hand k end.
Proof.
  unfold in_loop, currentTuple. destruct (_currentBatchTuple k) as [i|]; [|by intros ->; exists None]. intros (t & Ht & _ & ->). rewrite Ht. by exists (Some t).
Qed.

(** The batch of an open scan. *)
Lemma fetch_spec w c q k sc : opened w c q k sc -> exists err w' k', _fetchBatchTuples c w = (Ok err, w') /\ frame c (_scanAlias k) w w' /\
  w_heap w' !! c = Some k' /\ _scanBatchIdx k' = 0 /\ _scanAlias k' = _scanAlias k /\
  (is_ok err = true -> exists sc', opened w' c q k' sc' /\ batch (rows (w_tx w) (sr_table q)) sc (_scanBatchVector k') (_isLastScanBatch k') sc').
Proof.
  intros [Hk Ha Ht Hq Hal Hs Hof Hi]. unfold _fetchBatchTuples, mbind, cursorAt. rewrite Hk, Hq. unfold setCursor, modify.
  set (k1 := mkCursor _ _ _ _ _ _ _ _ _). rewrite execute_ok by done. cbn [set_heap w_tx].
  destruct (ScanBatchTx T (_scanAlias k) (sr_table q) (PrefetchSize k) (w_tx w)) as [ans s'] eqn:E. rewrite <- Hof in E.
  destruct (batch_law _ sc _ _ _ _ Hs E) as [Hr Hb]. cbn. eexists _, _, _. split; [done|]. split; [|split; [by cbn; rewrite lookup_insert_eq|split; [done|split; [done|]]]].
  - constructor; cbn; try done.
    + intros c' Hc'. by rewrite !lookup_insert_ne.
    + intros a' Ha'. destruct (is_ok (sa_err ans)); [|by rewrite Hb]. destruct Hb as (sc' & -> & _). by rewrite lookup_insert_ne.
  - intros Hok. rewrite Hok in *. destruct Hb as (sc' & Hs' & B). exists sc'. rewrite Hof in B. split; [|exact B].
    constructor; cbn; try done; [by rewrite lookup_insert_eq|by rewrite Hs', lookup_insert_eq|by rewrite (b_request _ _ _ _ _ B)|]. lia.
Qed.

Lemma opened_take w c q k sc : opened w c q k sc -> (_scanBatchIdx k <? Z.of_nat (length (_scanBatchVector k))) = true ->
  opened (set_heap (<[c := take_tuple k]> (w_heap w)) w) c q (take_tuple k) sc.
Proof. intros Ho Hlt. destruct (op_idx _ _ _ _ _ Ho). boolprop. apply (opened_same w c q k); cbn; try done; [lia|right; lia]. Qed.

Lemma opened_none w c q k sc : opened w c q k sc -> opened (set_heap (<[c := set_current None k]> (w_heap w)) w) c q (set_current None k) sc.
Proof. intros Ho. destruct (op_idx _ _ _ _ _ Ho). by apply (opened_same w c q k). Qed.

(** The tuple taken is current in the next round of the loop. *)
Lemma in_loop_take k : (_scanBatchIdx k <? Z.of_nat (length (_scanBatchVector k))) = true -> 0 <= _scanBatchIdx k -> in_loop (take_tuple k) (at_hand k).
Proof.
  intros Hlt Hi. destruct (take_tuple_at_hand k Hlt Hi) as (t & Ht & E). exists t. cbn. split_and!; [done|lia|done].
Qed.

Lemma at_hand_empty w c q k sc : opened w c q k sc -> (_scanBatchIdx k <? Z.of_nat (length (_scanBatchVector k))) = false -> at_hand k = [].
Proof.
  intros Ho Hge. destruct (op_idx _ _ _ _ _ Ho) as [Hi Hv]. boolprop. apply drop_ge. destruct Hv as [->|]; cbn; lia.
Qed.

Lemma advanced_frame c a q p err w w1 w2 : frame c a w w1 -> frame c a w1 w2 /\ advanced c q p err w2 -> frame c a w w2 /\ advanced c q p err w2.
Proof. intros H1 [H2 ?]. split; [by eapply frames_compose|done]. Qed.

Lemma nextBatchTuple_loop_spec c q p fuel : forall w k sc pend, opened w c q k sc -> in_loop k pend -> pending q p pend (_isLastScanBatch k) (sc_pos sc) ->
  between (rows (w_tx w) (sr_table q)) -> (steps_left k pend sc < fuel)%nat ->
  exists err w', nextBatchTuple_loop fuel c w = (Ok err, w') /\ frame c (_scanAlias k) w w' /\ advanced c q p err w'.
Proof.
  induction fuel as [|fuel IH]; intros w k sc pend Ho Hl Hp Hb Hf; [lia|]. cbn [nextBatchTuple_loop]. unfold mbind at 1, cursorAt. rewrite (op_heap _ _ _ _ _ Ho).
  unfold mbind at 1, lift. destruct (currentTuple_loop k pend Hl) as (cur & -> & Hcur). unfold steps_left in Hf.
  destruct (match cur with Some t => is_normal (status_ t) | None => false end) eqn:En.
  { destruct cur as [t|]; [|done]. destruct Hcur as [Hc ->]. exists NO_ERROR, w. split; [done|]. split; [apply same_frame|]. exists k, sc. split; [apply Ho|].
    destruct (pending_take q p t _ _ _ Hp En) as [Hh Hp']. unfold in_loop in Hl. cbn [is_ok]. destruct (_currentBatchTuple k) as [i|]; [|done].
    destruct Hl as (t' & Ht' & Hi & [= <-]). exists t. split_and!; try done; by destruct (status_ t). }
  assert (pending q p (at_hand k) (_isLastScanBatch k) (sc_pos sc) /\ (length (at_hand k) + sc_left sc <= fuel - 1)%nat /\ (0 < fuel)%nat) as (Hp1 & Hf1 & Hf0).
  { destruct cur as [t|]; destruct Hcur as [Hc ->].
    - split; [by apply (pending_skip q p t)|]. cbn [length] in Hf. destruct (_currentBatchTuple k); [lia|done].
    - split; [done|]. rewrite Hc in Hf. lia. }
  destruct (op_idx _ _ _ _ _ Ho) as [Hi0 _]. destruct (_ <? _) eqn:Elt; [|destruct (_isLastScanBatch k) eqn:Elast].
  - unfold mbind, setCursor, modify. pose proof (opened_take w c q k sc Ho Elt) as Ho1.
    destruct (IH _ _ _ _ Ho1 (in_loop_take k Elt Hi0) Hp1 Hb) as (err & w' & E & Hfr & Ha); [unfold steps_left; cbn [take_tuple _currentBatchTuple]; lia|].
    exists err, w'. split; [done|]. eapply advanced_frame; [apply frame_setCursor|by split].
  - rewrite (at_hand_empty w c q k sc Ho Elt) in Hp1. exists NO_ERROR. eexists. split; [done|]. split; [apply frame_setCursor|].
    exists (set_current None k), sc. split; [by cbn; rewrite lookup_insert_eq|]. cbn. split; [by apply (pending_end q p (sc_pos sc))|]. split; [by apply opened_none|].
    change (at_hand (set_current None k)) with (at_hand k). rewrite (at_hand_empty w c q k sc Ho Elt). cbn. by rewrite Elast.
  - rewrite (at_hand_empty w c q k sc Ho Elt) in Hp1, Hf1. destruct (fetch_spec w c q k sc Ho) as (err & w1 & k1 & E & Hfr & Hk1 & Hi1 & Hal & Hok).
    unfold mbind at 1. rewrite E. unfold mbind at 1, cursorAt. rewrite Hk1. destruct (is_ok err) eqn:Eok; cbn [negb].
    + destruct (Hok eq_refl) as (sc1 & Ho1 & B). pose proof (pending_fetch q p sc _ _ sc1 _ (op_of _ _ _ _ _ Ho) Hp1 B Hb) as Hp2.
      destruct (_scanBatchVector k1) as [|t ts] eqn:Ev.
      * exists NO_ERROR. eexists. split; [done|]. split; [eapply frames_compose; [exact Hfr|apply frame_setCursor]|].
        exists (set_current None k1), sc1. split; [by cbn; rewrite lookup_insert_eq|]. cbn. rewrite (b_empty _ _ _ _ _ B eq_refl) in *.
        split; [by apply (pending_end q p (sc_pos sc1))|]. split; [by apply opened_none|]. unfold at_hand. cbn. by rewrite Ev, drop_nil, (b_empty _ _ _ _ _ B eq_refl).
      * assert ((_scanBatchIdx k1 <? Z.of_nat (length (_scanBatchVector k1))) = true) as Elt1 by (rewrite Hi1, Ev; apply Z.ltb_lt; cbn [length]; lia).
        assert (at_hand k1 = t :: ts) as Eh by (unfold at_hand; by rewrite Hi1, Ev).
        pose proof (b_left _ _ _ _ _ B) as Hleft. unfold mbind, setCursor, modify.
        destruct (IH _ _ _ (at_hand k1) (opened_take w1 c q k1 sc1 Ho1 Elt1) (in_loop_take k1 Elt1 ltac:(lia))) as (err' & w' & E' & Hfr' & Ha).
        -- by rewrite Eh.
        -- cbn. by rewrite (fr_rows _ _ _ _ Hfr).
        -- rewrite Eh. unfold steps_left. cbn [take_tuple _currentBatchTuple length] in *. lia.
        -- exists err', w'. split; [done|]. eapply advanced_frame; [eapply frames_compose; [exact Hfr|apply frame_setCursor]|]. cbn in Hfr'. rewrite Hal in Hfr'. by split.
    + exists err. eexists. split; [done|]. split; [eapply frames_compose; [exact Hfr|apply frame_setCursor]|]. exists (set_current None k1), sc.
      split; [by cbn; rewrite lookup_insert_eq|]. by rewrite Eok.
Qed.

(** [nextBatchTuple] of a scan that has handed out the rows up to [p]. *)
Lemma nextBatchTuple_spec fuel w c q p k sc : scanning w c q p k sc -> between (rows (w_tx w) (sr_table q)) ->
  (length (at_hand k) + sc_left sc + 1 < fuel)%nat ->
  exists err w', nextBatchTuple fuel c w = (Ok err, w') /\ frame c (_scanAlias k) w w' /\ advanced c q p err w'.
Proof.
  intros [Ho Hp] Hb Hf. unfold nextBatchTuple, mbind at 1, cursorAt. rewrite (op_heap _ _ _ _ _ Ho). unfold mbind, setCursor, modify.
  destruct (nextBatchTuple_loop_spec c q p fuel _ (set_current None k) sc (at_hand k) (opened_none w c q k sc Ho) eq_refl Hp Hb)
    as (err & w' & -> & Hfr & Ha); [unfold steps_left; cbn [set_current _currentBatchTuple]; lia|].
  exists err, w'. split; [done|]. eapply advanced_frame; [apply frame_setCursor|by split].
Qed.

(** ** Opening a scan *)

(** The rows, the transaction and the other cursors, when the cursor at [c] is closed or replaced. *)
Record beside c w w' : Prop := {
  be_untouched : untouched w w';
  be_heap : forall c', c' <> c -> w_heap w' !! c' = w_heap w !! c';
  be_active : _active (w_ru w) = true -> _active (w_ru w') = true /\ _txm (w_ru w') = _txm (w_ru w) /\ rows (w_tx w') = rows (w_tx w) /\
    _discoveredTableMap (w_ru w') = _discoveredTableMap (w_ru w);
  be_rest : (w_isolation w', w_isUpsert w') = (w_isolation w, w_isUpsert w);
}.

Lemma beside_trans c w1 w2 w3 : beside c w1 w2 -> beside c w2 w3 -> beside c w1 w3.
Proof.
  intros [U1 H1 A1 R1] [U2 H2 A2 R2]. constructor.
  - by eapply untouched_trans.
  - intros c' Hc. by rewrite H2, H1.
  - intros Ha. destruct (A1 Ha) as (Ha1 & ? & ? & ?). destruct (A2 Ha1) as (? & ? & ? & ?). split_and!; congruence.
  - congruence.
Qed.

Lemma resetCursor_spec w c : wf_world w -> exists w', resetCursor c w = (Ok tt, w') /\ wf_world w' /\ beside c w w' /\ w_heap w' !! c = None /\
  ~ (c ∈ _cursors (w_ru w')) /\ _active (w_ru w') = _active (w_ru w).
Proof.
  intros Hw. destruct (keeps_resetCursor c w Hw) as [Hw' Hu]. unfold resetCursor in *. destruct (w_heap w !! c) as [k|] eqn:Hk.
  - unfold deleteCursor, mbind, cursorAt in *. rewrite Hk in *. destruct (indexScanIsOpen k) eqn:Eo.
    + destruct (wf_open w Hw c k Hk Eo) as (Hin & Ht & q & Hq). pose proof (wf_txm w Hw) as Ha. destruct (_active (w_ru w)) eqn:Ea; [|by destruct Ha as [_ Ha]; set_solver].
      destruct (indexScanClose_spec w c k q Ea Hk Ht Hq) as [ts E]. rewrite E in *. cbn in *. eexists. split; [done|]. split; [done|].
      split; [|cbn; split; [by rewrite lookup_delete_eq|split; [set_solver|done]]].
      constructor; try done; cbn; [intros; by rewrite lookup_delete_ne, lookup_insert_ne|]. intros _. by rewrite (proj1 (close_law _ _ _ _)).
    + cbn in *. eexists. split; [done|]. split; [done|]. split; [constructor; try done; intros; cbn; by rewrite lookup_delete_ne|].
      cbn. split; [by rewrite lookup_delete_eq|]. split; [|done]. intros Hin. destruct (wf_registered w Hw c Hin) as (k' & Hk' & Ho'). cbn in *. congruence.
  - exists w. split; [done|]. split; [done|]. split; [by constructor|]. split; [done|]. split; [|done].
    intros Hin. destruct (wf_registered w Hw c Hin) as (k' & Hk' & _). congruence.
Qed.

(** A scan opened at [c], in place of what was there. *)
Lemma openScan_spec w c q e : wf_world w -> exists w' k sc, (let* _ := emplaceCursor c in indexScanOpen c q e) w = (Ok tt, w') /\
  scanning w' c q None k sc /\ wf_world w' /\ beside c w w' /\ k = mkCursor (_txm (w_ru w')) (Some q) None false (_scanAlias k) [] u64_max 0 e.
Proof.
  intros Hw. destruct (resetCursor_spec w c Hw) as (w1 & E1 & Hw1 & Hb1 & Hn1 & Hc1 & Ha1). unfold emplaceCursor, mbind at 1 2. rewrite E1. unfold setCursor at 1, modify.
  set (w2 := set_heap (<[c:=newCursor]> (w_heap w1)) w1). assert (wf_world w2) as Hw2.
  { constructor; [apply Hw1|..]; cbn.
    - intros c' k. destruct (decide (c = c')) as [<-|Hne]; [rewrite lookup_insert_eq; by intros [= <-]|]. rewrite lookup_insert_ne by done. apply (wf_open w1 Hw1).
    - intros c' Hin. rewrite lookup_insert_ne by by intros ->. by apply (wf_registered w1 Hw1). }
  destruct (getTxm_spec w2 Hw2) as (w3 & t & E3 & Hw3 & Hu3 & Ha3 & Ht3 & Hh3 & Hc3 & Hs3 & Hx3). unfold indexScanOpen, mbind at 1, cursorAt.
  cbn [w2 set_heap w_heap]. rewrite lookup_insert_eq. fold w2. unfold mbind at 1. rewrite E3. unfold registerCursor, update_ru, modify, mbind at 1.
  set (w4 := set_ru _ w3). assert (getTxm w4 = (Ok (Some t), w4)) as E4 by (unfold getTxm, mbind, ru, gets; cbn; rewrite Ha3; unfold mret; cbn; by rewrite Ht3).
  unfold mbind at 1. rewrite E4. unfold mbind at 1. rewrite execute_ok by done. destruct (OpenTxScan T q (w_tx w4)) as [a s] eqn:Eo.
  destruct (open_law _ _ _ _ Eo) as (Hal & Hr & left & Hs). unfold mbind, cursorAt. cbn [set_tx w_heap w4 set_ru]. rewrite Hh3. cbn [w2 set_heap w_heap]. rewrite lookup_insert_eq.
  unfold setCursor, modify. eexists _, (mkCursor (Some t) (Some q) None false a [] u64_max 0 e), (mkOpen q None left). split; [done|].
  split_and!; [split; [|unfold at_hand; cbn [_scanBatchVector]; rewrite drop_nil; apply pending_open]|..].
  - constructor; cbn; rewrite ?lookup_insert_eq, ?Ht3; try done; [by rewrite Hs, lookup_insert_eq|]. split; [done|by left].
  - constructor; cbn; rewrite ?Ha3; [by eexists|..].
    + intros c' k' Hk' Ho'. destruct (decide (c = c')) as [<-|Hne]; [rewrite lookup_insert_eq in Hk'; injection Hk' as <-; cbn; split; [set_solver|]; eauto|].
      rewrite lookup_insert_ne in Hk' by done. destruct (wf_open w3 Hw3 c' k' Hk' Ho') as (? & ? & ?). split; [set_solver|done].
    + intros c' [Hin| ->%elem_of_singleton]%elem_of_union; [|eexists; rewrite lookup_insert_eq; split; [done|]; unfold indexScanIsOpen; cbn; apply Z.ltb_lt; lia].
      destruct (wf_registered w3 Hw3 c' Hin) as (k' & Hk' & Ho'). destruct (decide (c = c')) as [<-|Hne]; [eexists; rewrite lookup_insert_eq; split; [done|]; unfold indexScanIsOpen; cbn; apply Z.ltb_lt; lia|].
      exists k'. by rewrite lookup_insert_ne by done.
  - apply (beside_trans _ _ w1); [done|]. constructor; cbn.
    + eapply untouched_trans; [|exact Hu3]. done.
    + intros c' Hne. rewrite lookup_insert_ne, Hh3 by done. cbn. by rewrite lookup_insert_ne.
    + intros Ha. rewrite Hr. cbn [w4 set_ru w_tx]. by rewrite (Hs3 Ha).
    + exact Hx3.
  - cbn. by rewrite Ht3.
Qed.

End Scan.
