(* ===== verification/PointReads.v ===== *)
(** * What reads by key return

    A point read asks the transaction service until it has an answer, ten times at most; a batch of reads is
    sent in the order of its keys and comes back in the order it was given. *)

From stdpp Require Import sorting.
From S2P Require Import Prelude Bytes Bson RawBson BsonBuilder KeyDecoder RecordId MongoKey MongoRecord EloqUtil TableSchema TxService MemTx RecoveryUnit UnitOfWork.
#[local] Open Scope Z_scope.

(** ** Point reads *)

Section PointRead.
Context {T : TxService}.

(** The service's answers to the reads of a key, one after the other. *)
Fixpoint asks (n : TableName) (v : Z) (k : MongoKey.t) (forWrite : bool) (l : list ReadAnswer) (s s' : TxState T) : Prop :=
  match l with
  | [] => s' = s
  | a :: l => exists s1, ReadTx T n v k forWrite s = (a, s1) /\ asks n v k forWrite l s1 s'
  end.

(** An answer the engine asks again after. *)
Definition undecided (a : ReadAnswer) : bool :=
  retried (ra_err a) || (is_ok (ra_err a) && match ra_status a with Unknown => true | _ => false end).

Definition read_of (a : ReadAnswer) : PointRead :=
  let found := is_ok (ra_err a) && is_normal (ra_status a) in
  mkPointRead found (ra_err a) (ra_record a) (if found then Some (ra_version a) else None).

Lemma getKV_loop_spec n v k forWrite attempts : forall w t last, _active (w_ru w) = true -> _txm (w_ru w) = t -> (0 < attempts)%nat ->
  exists l a s', asks n v k forWrite (l ++ [a]) (w_tx w) s' /\ (length l < attempts)%nat /\ Forall (fun a => undecided a = true) l /\
    (undecided a = true -> S (length l) = attempts) /\ getKV_loop attempts n v k forWrite last w = (Ok (read_of a), set_tx s' w).
Proof.
  induction attempts as [|attempts IH]; intros w t last Ha Ht Hn; [lia|]. cbn [getKV_loop]. unfold mbind at 1, ru, gets. unfold mbind at 1.
  rewrite execute_ok by done. destruct (ReadTx T n v k forWrite (w_tx w)) as [a s1] eqn:E.
  assert (forall w', (let (r, s) := (Ok (read_of a), set_tx s1 w) in (r, s)) = w' -> undecided a = false ->
    exists l a0 s', asks n v k forWrite (l ++ [a0]) (w_tx w) s' /\ (length l < S attempts)%nat /\ Forall (fun a => undecided a = true) l /\
    (undecided a0 = true -> S (length l) = S attempts) /\ w' = (Ok (read_of a0), set_tx s' w)) as Hdone.
  { intros w' <- Hu. exists [], a, s1. split_and!; [by exists s1|cbn; lia|constructor|by rewrite Hu|done]. }
  assert (undecided a = true -> forall last', last' = read_of a -> exists l a0 s', asks n v k forWrite (l ++ [a0]) (w_tx w) s' /\ (length l < S attempts)%nat /\
    Forall (fun a => undecided a = true) l /\ (undecided a0 = true -> S (length l) = S attempts) /\
    getKV_loop attempts n v k forWrite last' (set_tx s1 w) = (Ok (read_of a0), set_tx s' w)) as Hagain.
  { intros Hu last' ->. destruct attempts as [|attempts].
    - exists [], a, s1. split_and!; [by exists s1|cbn; lia|constructor|done|done].
    - destruct (IH (set_tx s1 w) t (read_of a) Ha Ht ltac:(lia)) as (l & a0 & s' & H1 & H2 & H3 & H4 & H5).
      exists (a :: l), a0, s'. split_and!; [by exists s1|cbn; lia|by constructor|cbn; intros H; by rewrite (H4 H)|exact H5]. }
  unfold undecided in *. unfold read_of in Hagain, Hdone. destruct (retried (ra_err a)) eqn:Er.
  - assert (is_ok (ra_err a) = false) as Eo by by destruct (ra_err a). rewrite Eo in *. by apply Hagain.
  - destruct (is_ok (ra_err a)) eqn:Eo; cbn [negb andb orb] in *; [|by apply Hdone]. destruct (ra_status a) eqn:Es; try by apply Hdone. by apply Hagain.
Qed.

End PointRead.

Section PointReadLaws.
Context {T : TxService} `{!TxLaws T} `{!KvLaws T}.

Lemma asks_rows n v key forWrite l : forall s s', asks n v (MongoKey.key key) forWrite l s s' -> rows (T := T) s' = rows s /\ scans s' = scans s.
Proof.
  induction l as [|a l IH]; intros s s'; cbn [asks]; [by intros ->|]. intros (s1 & E & H). destruct (IH _ _ H) as [-> ->].
  by destruct (read_law _ _ _ _ _ _ _ E) as (-> & -> & _).
Qed.

Lemma asks_last n v k forWrite l a : forall s s', asks (T := T) n v k forWrite (l ++ [a]) s s' -> exists s1, asks n v k forWrite l s s1 /\ ReadTx T n v k forWrite s1 = (a, s').
Proof.
  induction l as [|b l IH]; intros s s'; cbn [app asks].
  - intros (s1 & E & ->). by exists s.
  - intros (s1 & E & H). destruct (IH _ _ H) as (s2 & H1 & H2). exists s2. split; [by exists s1|done].
Qed.

(** A point read of an open transaction. *)
Lemma getKV_spec n v key forWrite w : wf_world w -> exists w1 l a s', (exists t, getTxm w = (Ok t, w1)) /\ wf_world w1 /\ untouched w w1 /\ _active (w_ru w1) = true /\
  w_heap w1 = w_heap w /\ (_active (w_ru w) = true -> w1 = w) /\
  asks n v (MongoKey.key key) forWrite (l ++ [a]) (w_tx w1) s' /\ (length l < 10)%nat /\ Forall (fun a => undecided a = true) l /\
  (undecided a = true -> length l = 9%nat) /\ getKV n v (MongoKey.key key) forWrite w = (Ok (read_of a), set_tx s' w1) /\
  rows s' = rows (w_tx w1) /\ scans s' = scans (w_tx w1) /\
  (ra_err a = NO_ERROR -> match ra_status a with Normal => rows (w_tx w1) n key = Some (ra_record a) | Deleted => rows (w_tx w1) n key = None | _ => True end).
Proof.
  intros Hw. destruct (getTxm_spec w Hw) as (w1 & t & E & Hw1 & Hu & Ha & Ht & Hh & _ & Hs & _).
  destruct (getKV_loop_spec n v (MongoKey.key key) forWrite 10 w1 (Some t) (mkPointRead false NO_ERROR MongoRecord.empty None) Ha Ht ltac:(lia)) as (l & a & s' & H1 & H2 & H3 & H4 & H5).
  exists w1, l, a, s'. destruct (asks_rows _ _ _ _ _ _ _ H1) as [Hr Hsc]. destruct (asks_last _ _ _ _ _ _ _ _ H1) as (s1 & Hl & El).
  destruct (asks_rows _ _ _ _ _ _ _ Hl) as [Hr1 _]. split_and!; try done; [by eexists|by intros H; specialize (H4 H); lia| |].
  - unfold getKV, mbind. by rewrite E.
  - rewrite <- Hr1. apply (read_law _ _ _ _ _ _ _ El).
Qed.


End PointReadLaws.


(** ** Batches *)

Section Batch.
Context (batch : list ScanBatchTuple).

Lemma insert_index_perm i l : insert_index batch i l ≡ₚ i :: l.
Proof.
  induction l as [|j l IH]; cbn [insert_index]; [done|]. destruct (key_before batch i j); [done|]. by rewrite IH, Permutation_swap.
Qed.

Lemma sort_indices_perm : sort_indices batch ≡ₚ seq 0 (length batch).
Proof.
  unfold sort_indices. rewrite <- (app_nil_r (seq 0 (length batch))) at 2. generalize (@nil nat). induction (seq 0 (length batch)) as [|i l IH]; intros acc; cbn [foldl]; [done|].
  rewrite IH, insert_index_perm. cbn. by rewrite Permutation_middle.
Qed.

Lemma ltb_trans a b c : MongoKey.ltb a b = true -> MongoKey.ltb b c = true -> MongoKey.ltb a c = true.
Proof. destruct a, b, c; cbn; try done. apply bytes_lt_trans. Qed.

Lemma ltb_total a b : MongoKey.ltb a b = false -> MongoKey.ltb b a = false -> a = b.
Proof. destruct a as [| |s], b as [| |s']; cbn; try done. intros. f_equal. by apply MongoKey.bytes_total. Qed.

Lemma ltb_irrefl a : MongoKey.ltb a a = false.
Proof. destruct a; [done..|]. apply MongoKey.bytes_ltb_irrefl. Qed.

Lemma leb_trans a b c : MongoKey.leb a b = true -> MongoKey.leb b c = true -> MongoKey.leb a c = true.
Proof.
  unfold MongoKey.leb. rewrite !negb_true_iff. intros H1 H2. destruct (MongoKey.ltb c a) eqn:E; [|done]. destruct (MongoKey.ltb a b) eqn:E1; [by rewrite (ltb_trans _ _ _ E E1) in H2|].
  by rewrite (ltb_total _ _ E1 H1), E in *.
Qed.

Definition key_at (i : nat) : MongoKey.t := match batch !! i with Some t => key_ t | None => MongoKey.pos_inf end.
Definition in_batch (i : nat) : Prop := (i < length batch)%nat.

Lemma key_before_at i j : in_batch i -> in_batch j -> key_before batch i j = MongoKey.ltb (key_at i) (key_at j).
Proof. unfold in_batch, key_before, key_at. intros [a ->]%lookup_lt_is_Some_2 [b ->]%lookup_lt_is_Some_2. done. Qed.

Lemma insert_index_sorted i l : in_batch i -> Forall in_batch l -> StronglySorted (fun i j => MongoKey.leb (key_at i) (key_at j) = true) l ->
  StronglySorted (fun i j => MongoKey.leb (key_at i) (key_at j) = true) (insert_index batch i l).
Proof.
  intros Hi. induction l as [|j l IH]; intros Hl Hs; cbn [insert_index]; [by repeat constructor|]. apply Forall_cons in Hl as [Hj Hl]. apply StronglySorted_inv in Hs as [Hs Hf].
  rewrite key_before_at by done. destruct (MongoKey.ltb (key_at i) (key_at j)) eqn:E.
  - assert (MongoKey.leb (key_at i) (key_at j) = true) as Hle.
    { unfold MongoKey.leb. apply negb_true_iff. destruct (MongoKey.ltb (key_at j) (key_at i)) eqn:E'; [|done]. pose proof (ltb_trans _ _ _ E E') as H. by rewrite ltb_irrefl in H. }
    constructor; [by constructor|]. constructor; [done|]. eapply Forall_impl; [exact Hf|]. intros x Hx. cbn in *. by eapply leb_trans.
  - constructor; [by apply IH|]. rewrite insert_index_perm. constructor; [|done]. unfold MongoKey.leb. by rewrite E.
Qed.

Lemma sort_indices_sorted : StronglySorted (fun i j => MongoKey.leb (key_at i) (key_at j) = true) (sort_indices batch).
Proof.
  unfold sort_indices. assert (Forall in_batch (seq 0 (length batch))) as Hl by (apply Forall_forall; intros i Hi%elem_of_seq; unfold in_batch; lia).
  assert (Forall in_batch []) as Ha by constructor. assert (StronglySorted (fun i j => MongoKey.leb (key_at i) (key_at j) = true) []) as Hs by constructor.
  revert Ha Hs. generalize (@nil nat). induction (seq 0 (length batch)) as [|i l IH]; intros acc Ha Hs; cbn [foldl]; [done|].
  apply Forall_cons in Hl as [Hi Hl]. apply IH; [done|rewrite insert_index_perm; by constructor|by apply insert_index_sorted].
Qed.

End Batch.

Lemma collect_at {A} (l : list A) js : Forall (fun i => i < length l)%nat js -> exists xs, collect (at_ l) js = Ok xs /\ Forall2 (fun i x => l !! i = Some x) js xs.
Proof.
  induction js as [|i js IH]; intros H; [by exists []|]. apply Forall_cons in H as [[x Hx]%lookup_lt_is_Some_2 H]. destruct (IH H) as (xs & E & Hf).
  exists (x :: xs). cbn [collect]. unfold at_ at 1. rewrite Hx. cbn [rbind]. rewrite E. split; [done|by constructor].
Qed.

Lemma invert_spec js : forall i0 l, NoDup js -> Forall (fun j => j < length l)%nat js ->
  length (invert js i0 l) = length l /\
  (forall i j, js !! i = Some j -> invert js i0 l !! j = Some (i0 + i)%nat) /\
  forall j, ~ (j ∈ js) -> invert js i0 l !! j = l !! j.
Proof.
  induction js as [|j0 js IH]; intros i0 l Hd Hl; cbn [invert]; [by split_and!|]. apply NoDup_cons in Hd as [Hn Hd]. apply Forall_cons in Hl as [Hj Hl].
  destruct (IH (S i0) (<[j0 := i0]> l) Hd) as (H1 & H2 & H3); [by rewrite length_insert|]. rewrite length_insert in H1. split_and!; [done|..].
  - intros [|i] j Hij; cbn in Hij.
    + injection Hij as <-. rewrite H3 by done. rewrite list_lookup_insert_eq by done. f_equal. lia.
    + rewrite (H2 i j Hij). f_equal. lia.
  - intros j Hnj. apply not_elem_of_cons in Hnj as [Hne Hnj]. rewrite H3 by done. by rewrite list_lookup_insert_ne.
Qed.

Section BatchRead.
Context {T : TxService} `{!TxLaws T} `{!KvLaws T}.

(** The place of each element of the batch in the sorted one, and back. *)
Lemma sorted_places (batch : list ScanBatchTuple) : let idx := sort_indices batch in let inv := invert idx 0 (repeat 0%nat (length batch)) in
  Forall (fun i => i < length batch)%nat idx /\ length idx = length batch /\ length inv = length batch /\
  forall j, (j < length batch)%nat -> exists i, idx !! i = Some j /\ inv !! j = Some i.
Proof.
  cbn zeta. pose proof (sort_indices_perm batch) as Hp. assert (Forall (fun i => i < length batch)%nat (sort_indices batch)) as Hf.
  { rewrite Hp. apply Forall_forall. intros i Hi%elem_of_seq. lia. }
  destruct (invert_spec (sort_indices batch) 0 (repeat 0%nat (length batch))) as (H1 & H2 & _); [rewrite Hp; apply NoDup_seq|by rewrite repeat_length|].
  rewrite repeat_length in H1. split_and!; [done|by rewrite Hp, length_seq|done|]. intros j Hj. assert (j ∈ sort_indices batch) as [i Hi]%list_elem_of_lookup by (rewrite Hp; apply elem_of_seq; lia).
  exists i. split; [done|]. by rewrite (H2 i j Hi).
Qed.

Lemma sorted_batch (batch xs : list ScanBatchTuple) : Forall2 (fun i x => batch !! i = Some x) (sort_indices batch) xs ->
  StronglySorted (fun a b => MongoKey.leb (key_ a) (key_ b) = true) xs.
Proof.
  intros H. pose proof (sort_indices_sorted batch) as Hs. induction H as [|i x idx xs Hx Hf IH]; [constructor|]. apply StronglySorted_inv in Hs as [Hs Hall].
  constructor; [by apply IH|]. clear IH Hs. induction Hf as [|j y idx xs Hy Hf IH]; constructor; apply Forall_cons in Hall as [Hij Hall]; [|by apply IH].
  unfold key_at in Hij. by rewrite Hx, Hy in Hij.
Qed.

Definition read_right (r : Rows) (t t' : ScanBatchTuple) : Prop :=
  key_ t' = key_ t /\ match status_ t' with Normal => r (tuple_key t) = Some (record_ t') | Deleted => r (tuple_key t) = None | _ => True end.

(** A batch of reads. *)
Lemma batchGetKV_spec n v batch forWrite pointRead w : _active (w_ru w) = true ->
  exists batch' err s', batchGetKV n v batch forWrite pointRead w = (Ok (batch', err), set_tx s' w) /\ length batch' = length batch /\
    rows s' = rows (w_tx w) /\ scans s' = scans (w_tx w) /\ (err = NO_ERROR -> Forall2 (read_right (rows (w_tx w) n)) batch batch').
Proof.
  intros Ha. destruct (sorted_places batch) as (Hf & Hl & Hli & Hinv). unfold batchGetKV. destruct (collect_at batch (sort_indices batch) Hf) as (xs & Ex & Hxs).
  pose proof (Forall2_length _ _ _ Hxs) as Hlx. unfold lift, ru, gets. unfold mbind at 1. rewrite Ex. unfold mbind at 1 2. rewrite execute_ok by done.
  destruct (BatchReadTx T n v xs forWrite pointRead (w_tx w)) as [[err ts'] s'] eqn:E.
  destruct (batchRead_law _ _ _ _ _ _ _ _ _ (sorted_batch batch xs Hxs) E) as (Hr & Hsc & Hlt & Hok).
  assert (Forall (fun i => i < length ts')%nat (invert (sort_indices batch) 0 (repeat 0%nat (length batch)))) as Hfi.
  { apply Forall_lookup. intros j i Hj. destruct (Hinv j) as (i' & Hi' & Hj'); [rewrite <- Hli; by eapply lookup_lt_Some|]. rewrite Hj in Hj'. injection Hj' as <-.
    apply lookup_lt_Some in Hi'. lia. }
  destruct (collect_at ts' _ Hfi) as (ys & Ey & Hys). pose proof (Forall2_length _ _ _ Hys) as Hly. exists ys, err, s'. unfold mbind. rewrite Ey.
  split_and!; [done|lia|done|done|]. intros ->. specialize (Hok eq_refl). apply Forall2_same_length_lookup_2; [lia|]. intros j t y Ht Hy.
  destruct (Hinv j) as (i & Hi & Hj); [by eapply lookup_lt_Some|]. destruct (Forall2_lookup_l _ _ _ _ _ Hxs Hi) as (x & Hx & Hbx). rewrite Ht in Hbx. injection Hbx as <-.
  pose proof (Forall2_lookup_lr _ _ _ _ _ _ Hys Hj Hy) as Hiy. exact (Forall2_lookup_lr _ _ _ _ _ _ Hok Hx Hiy).
Qed.

(** C22. A batch of reads comes back in the order it was given. However the keys of the batch are ordered, and
    whichever of them repeat, it is sent in ascending order, as the service requires, and each element of
    the answer is for the element of the batch in the same place: its row if it is there, none if not. *)
Theorem batch_read_in_order n v batch forWrite pointRead w : _active (w_ru w) = true ->
  exists batch' err s', batchGetKV n v batch forWrite pointRead w = (Ok (batch', err), set_tx s' w) /\ length batch' = length batch /\
    rows s' = rows (w_tx w) /\ (err = NO_ERROR -> Forall2 (read_right (rows (w_tx w) n)) batch batch').
Proof.
  intros Ha. destruct (batchGetKV_spec n v batch forWrite pointRead w Ha) as (batch' & err & s' & ? & ? & ? & _ & ?). by exists batch', err, s'.
Qed.

End BatchRead.

(** Two keys out of order, of which the first has a row. *)
Definition ex_batch_world : World MemTx :=
  mkWorld (T := MemTx) (mkMem [(mkTableName (lit "a") Primary, lit "y", MongoRecord.mk (lit "doc") [])] [] ∅ 0 [])
    (mkUnit (Some 0) false false true false false ∅ 0 None 0 [] ∅ ∅) ∅ 1 1 (OtherIsolation 0) false [].
Definition ex_batch : list ScanBatchTuple := map (fun k => mkTuple (MongoKey.key k) MongoRecord.empty (OtherStatus 0) 0 0) [lit "y"; lit "x"].

Lemma batch_read_in_order_witness : exists batch' err s',
  batchGetKV (mkTableName (lit "a") Primary) 1 ex_batch false true ex_batch_world = (Ok (batch', err), set_tx s' ex_batch_world) /\
  (err = NO_ERROR -> Forall2 (read_right (rows (w_tx ex_batch_world) (mkTableName (lit "a") Primary))) ex_batch batch') /\
  map status_ batch' = [Normal; Deleted].
Proof.
  destruct (batch_read_in_order (mkTableName (lit "a") Primary) 1 ex_batch false true ex_batch_world eq_refl) as (batch' & err & s' & E & _ & _ & H).
  exists batch', err, s'. split; [exact E|]. split; [exact H|]. pose proof (f_equal (fun x => match x.1 with Ok (b, _) => map status_ b | Err _ => [] end) E) as E'.
  cbn [fst] in E'. rewrite <- E'. reflexivity.
Defined.
