(* ===== verification/EloqIndex.v ===== *)
(** * Indexes and their cursors (eloq_index.{h,cpp})

    An index is a table of the transaction service whose keys are the KeyStrings of its entries: of the
    values and the record id (a standard index), or of the values, with the record id in the record (a
    unique one); the index on [_id] is the collection's own table. A cursor walks an index between bounds,
    and is saved, closed and restored with the operation it serves. *)

From S2P Require Import Prelude Bytes Bson RawBson BsonBuilder Decimals BsonCompare KeyDecoder KeyString ByteOrder KeyOrder RecordId TypeBits KeyToBson.
From S2P Require Import MongoKey MongoRecord EloqUtil TableSchema TxService RecoveryUnit.
#[local] Open Scope Z_scope.

Inductive IndexCursorType := ID | UNIQUE | STANDARD.

(** [EloqIndex]: [EloqIdIndex], [EloqUniqueIndex] or [EloqStandardIndex]. *)
Record EloqIndex := mkIndex {
  _tableName : TableName;
  _indexName : TableName;
  _ordering : Z;
  _type : IndexCursorType;
}.

Definition index_unique (idx : EloqIndex) : bool := match _type idx with UNIQUE => true | _ => false end.

(** [IndexKeyEntry]: the key, empty if it was not asked for, the record id, and the record if it is at hand. *)
Record IndexKeyEntry := mkEntry { ike_key : Document; ike_loc : RecordId; ike_record : option bytes }.

(** [EloqIndexCursor]. Its [_cursor] is the object at an address; records it points to are kept by value. *)
Record EloqIndexCursor := mkIndexCursor {
  i_idx : EloqIndex;
  i_schemaTs : Z;
  i_forward : bool;
  i_attached : bool;
  i_key : bytes;
  i_typeBits : TypeBits.t;
  i_id : RecordId;
  i_eof : bool;
  i_endPosition : option bytes;
  i_recordPtr : option MongoRecord.t;
  i_cursor : nat;
  i_enablePrefetchRecords : bool;
  i_prefetchedRecords : list (option MongoRecord.t);
  i_prefetchedBatchStartIdx : Z;
  i_lastRecordsBatchCnt : Z;
}.

Section Index.
Context {T : TxService} (L : IntelDecimal) (fetchSize : Z).
#[local] Abbreviation Op := (M T).
#[local] Abbreviation Act := (M T Datatypes.unit).

(** A [Status] for the caller, and one that is thrown unless it is OK. *)
Definition statusOf (err : TxErrorCode) : Op Status := lift (TxErrorCodeToMongoStatus err).
Definition uassertTx (err : TxErrorCode) : Act := lift (let! status := TxErrorCodeToMongoStatus err in uassertStatusOK status).

(** ** Entries *)

(** [EloqIdIndex::insert]: the collection's table is the index. *)
Definition id_insert (key : Document) : Op Status := mret (checkKeySize key).

Definition unique_insert (idx : EloqIndex) (key : Document) (id : RecordId) : Op Status :=
  match checkKeySize key with
  | Err e => mret (Err e)
  | Ok _ =>
      let* (ks, typeBits) := lift (KeyString_of L key (_ordering idx)) in
      let* valueItem := lift (getStringView id) in
      let mongoKey := MongoKey.of_KeyString ks in
      let* schema := getIndexSchema (_tableName idx) (_indexName idx) in
      let mongoRecord := MongoRecord.setTypeBits typeBits (MongoRecord.SetEncodedBlob valueItem MongoRecord.empty) in
      let* err := setKV (_indexName idx) (SchemaTs schema) mongoKey (Some mongoRecord) Insert true in
      statusOf err
  end.

Definition standard_insert (idx : EloqIndex) (key : Document) (id : RecordId) : Op Status :=
  match checkKeySize key with
  | Err e => mret (Err e)
  | Ok _ =>
      let* (ks, typeBits) := lift (KeyString_of_entry L key (_ordering idx) id) in
      let mongoKey := MongoKey.of_KeyString ks in
      let mongoRecord := MongoRecord.setTypeBits typeBits MongoRecord.empty in
      let* schema := getIndexSchema (_tableName idx) (_indexName idx) in
      let* err := setKV (_indexName idx) (SchemaTs schema) mongoKey (Some mongoRecord) Insert false in
      statusOf err
  end.

Definition index_insert (idx : EloqIndex) (key : Document) (id : RecordId) : Op Status :=
  match _type idx with ID => id_insert key | UNIQUE => unique_insert idx key id | STANDARD => standard_insert idx key id end.

(** In a partial unique index the entry of the key may be another document's. *)
Definition unique_unindex (idx : EloqIndex) (key : Document) (id : RecordId) : Act :=
  let* keySchema := getIndexSchema (_tableName idx) (_indexName idx) in
  let keySchemaVersion := SchemaTs keySchema in
  let* (ks, _) := lift (KeyString_of L key (_ordering idx)) in
  let mongoKey := MongoKey.of_KeyString ks in
  let* mine :=
    (if isPartial (entry_ keySchema) then
       let* r := getKV (_indexName idx) keySchemaVersion mongoKey true in
       let* _ := uassertTx (pr_err r) in
       if pr_exists r then let* id := lift (getStringView id) in mret (bytes_eqb (MongoRecord.encoded_blob (pr_record r)) id) else mret false
     else mret true) in
  if mine : bool then
    let* err := setKV (_indexName idx) keySchemaVersion mongoKey None Delete false in
    uassertTx err
  else mret tt.

Definition standard_unindex (idx : EloqIndex) (key : Document) (id : RecordId) : Act :=
  let* (ks, _) := lift (KeyString_of_entry L key (_ordering idx) id) in
  let mongoKey := MongoKey.of_KeyString ks in
  let* schema := getIndexSchema (_tableName idx) (_indexName idx) in
  let* err := setKV (_indexName idx) (SchemaTs schema) mongoKey None Delete false in
  uassertTx err.

Definition index_unindex (idx : EloqIndex) (key : Document) (id : RecordId) : Act :=
  match _type idx with ID => mret tt | UNIQUE => unique_unindex idx key id | STANDARD => standard_unindex idx key id end.

(** ** Duplicate keys *)

(** [SimpleBSONObjComparator], and the membership of a [BSONObjSet]. *)
Definition sameObj (a b : Document) : result bool :=
  let! c := compareObjects L a b [] true None in Ok (match c with Eq => true | _ => false end).
Fixpoint inSet (key : Document) (set : list Document) : result bool :=
  match set with
  | [] => Ok false
  | k :: set => let! same := sameObj key k in if same : bool then Ok true else inSet key set
  end.

Definition newTuple (key : MongoKey.t) : ScanBatchTuple := mkTuple key MongoRecord.empty (OtherStatus 0) 0 0.

(** The batch of reads, or a duplicate within it. *)
Fixpoint duplicateBatch (ordering : Z) (keys batchKeys : list Document) (tuples : list ScanBatchTuple) : result (list ScanBatchTuple + ErrorCode) :=
  match keys with
  | [] => Ok (inl tuples)
  | key :: keys =>
      let! dup := inSet key batchKeys in
      if dup : bool then Ok (inr DuplicateKey)
      else
        let! (ks, _) := KeyString_of L key ordering in
        duplicateBatch ordering keys (key :: batchKeys) (tuples ++ [newTuple (MongoKey.of_KeyString ks)])
  end.

(** A key that exists is a duplicate; one that does not has status [Deleted]. *)
Fixpoint anyNormal (tuples : list ScanBatchTuple) : result Status :=
  match tuples with
  | [] => Ok (Ok tt)
  | t :: tuples =>
      match status_ t with
      | Normal => Ok (Err DuplicateKey)
      | Deleted => anyNormal tuples
      | _ => Err InvariantFailure
      end
  end.

(** [currentRecordId] is not used. *)
Definition _checkDuplicateKeysInternal (idx : EloqIndex) (keys : list Document) (currentRecordId : RecordId) : Op Status :=
  match keys with
  | [] => mret (Ok tt)
  | _ =>
      let* keySchema := getIndexSchema (_tableName idx) (_indexName idx) in
      let* batch := lift (duplicateBatch (Ordering keySchema) keys [] []) in
      match batch with
      | inr e => mret (Err e)
      | inl tuples =>
          let* (tuples, err) := batchGetKV (_indexName idx) (SchemaTs keySchema) tuples true true in
          if negb (is_ok err) then statusOf err else lift (anyNormal tuples)
      end
  end.

Definition batchCheckDuplicateKey (idx : EloqIndex) (objs : list Document) : Op Status :=
  if negb (index_unique idx) then mret (Ok tt)
  else match objs with
       | [] => mret (Ok tt)
       | _ =>
           let* keySchema := getIndexSchema (_tableName idx) (_indexName idx) in
           let* allKeys := lift (collect (fun obj => let! (keys, _) := GetKeys keySchema obj in Ok keys) objs) in
           _checkDuplicateKeysInternal idx (concat allKeys) kNull
       end.

Definition checkDuplicateKeysForUpdate (idx : EloqIndex) (addedKeys : list Document) (currentRecordId : RecordId) : Op Status :=
  if negb (index_unique idx) then mret (Ok tt) else _checkDuplicateKeysInternal idx addedKeys currentRecordId.

(** ** Cursors *)

#[local] Abbreviation IOp := (St (EloqIndexCursor * World T)).
#[local] Abbreviation IAct := (St (EloqIndexCursor * World T) Datatypes.unit).

(** An operation of the engine, within one of the cursor. *)
Definition engine {A} (m : Op A) : IOp A := fun cw => let (r, w) := m cw.2 in (r, (cw.1, w)).
Definition this {A} (f : EloqIndexCursor -> A) : IOp A := gets (fun cw => f cw.1).
Definition update (f : EloqIndexCursor -> EloqIndexCursor) : IAct := modify (fun cw => (f cw.1, cw.2)).

Definition set_eof (b : bool) (i : EloqIndexCursor) : EloqIndexCursor :=
  mkIndexCursor (i_idx i) (i_schemaTs i) (i_forward i) (i_attached i) (i_key i) (i_typeBits i) (i_id i) b (i_endPosition i) (i_recordPtr i) (i_cursor i)
    (i_enablePrefetchRecords i) (i_prefetchedRecords i) (i_prefetchedBatchStartIdx i) (i_lastRecordsBatchCnt i).
Definition set_key (k : bytes) (i : EloqIndexCursor) : EloqIndexCursor :=
  mkIndexCursor (i_idx i) (i_schemaTs i) (i_forward i) (i_attached i) k (i_typeBits i) (i_id i) (i_eof i) (i_endPosition i) (i_recordPtr i) (i_cursor i)
    (i_enablePrefetchRecords i) (i_prefetchedRecords i) (i_prefetchedBatchStartIdx i) (i_lastRecordsBatchCnt i).
Definition set_id (id : RecordId) (i : EloqIndexCursor) : EloqIndexCursor :=
  mkIndexCursor (i_idx i) (i_schemaTs i) (i_forward i) (i_attached i) (i_key i) (i_typeBits i) id (i_eof i) (i_endPosition i) (i_recordPtr i) (i_cursor i)
    (i_enablePrefetchRecords i) (i_prefetchedRecords i) (i_prefetchedBatchStartIdx i) (i_lastRecordsBatchCnt i).
Definition set_typeBits (tb : TypeBits.t) (i : EloqIndexCursor) : EloqIndexCursor :=
  mkIndexCursor (i_idx i) (i_schemaTs i) (i_forward i) (i_attached i) (i_key i) tb (i_id i) (i_eof i) (i_endPosition i) (i_recordPtr i) (i_cursor i)
    (i_enablePrefetchRecords i) (i_prefetchedRecords i) (i_prefetchedBatchStartIdx i) (i_lastRecordsBatchCnt i).
Definition set_end (e : option bytes) (i : EloqIndexCursor) : EloqIndexCursor :=
  mkIndexCursor (i_idx i) (i_schemaTs i) (i_forward i) (i_attached i) (i_key i) (i_typeBits i) (i_id i) (i_eof i) e (i_recordPtr i) (i_cursor i)
    (i_enablePrefetchRecords i) (i_prefetchedRecords i) (i_prefetchedBatchStartIdx i) (i_lastRecordsBatchCnt i).
Definition set_recordPtr (r : option MongoRecord.t) (i : EloqIndexCursor) : EloqIndexCursor :=
  mkIndexCursor (i_idx i) (i_schemaTs i) (i_forward i) (i_attached i) (i_key i) (i_typeBits i) (i_id i) (i_eof i) (i_endPosition i) r (i_cursor i)
    (i_enablePrefetchRecords i) (i_prefetchedRecords i) (i_prefetchedBatchStartIdx i) (i_lastRecordsBatchCnt i).
Definition set_attached (b : bool) (i : EloqIndexCursor) : EloqIndexCursor :=
  mkIndexCursor (i_idx i) (i_schemaTs i) (i_forward i) b (i_key i) (i_typeBits i) (i_id i) (i_eof i) (i_endPosition i) (i_recordPtr i) (i_cursor i)
    (i_enablePrefetchRecords i) (i_prefetchedRecords i) (i_prefetchedBatchStartIdx i) (i_lastRecordsBatchCnt i).
Definition set_prefetched (enabled : bool) (rs : list (option MongoRecord.t)) (start cnt : Z) (i : EloqIndexCursor) : EloqIndexCursor :=
  mkIndexCursor (i_idx i) (i_schemaTs i) (i_forward i) (i_attached i) (i_key i) (i_typeBits i) (i_id i) (i_eof i) (i_endPosition i) (i_recordPtr i) (i_cursor i)
    enabled rs start cnt.

(** The constructor, with the address of the [EloqCursor] it will make. *)
Definition newIndexCursor (idx : EloqIndex) (forward : bool) (c : nat) : Op EloqIndexCursor :=
  let* schema := getIndexSchema (_tableName idx) (_indexName idx) in
  mret (mkIndexCursor idx (SchemaTs schema) forward true [] TypeBits.reset kNull true None None c false [] 0 0).

Definition setEndPosition (key : Document) (inclusive : bool) : IAct :=
  match key with
  | [] => update (set_end None)
  | _ =>
      let* i := this id in
      let discriminator := if Bool.eqb (i_forward i) inclusive then kExclusiveAfter else kExclusiveBefore in
      let* endPosition := lift (resetToKey L (stripFieldNames key) (descending_of (_ordering (i_idx i))) discriminator) in
      update (set_end (Some endPosition))
  end.

Definition _clearPrefetchedRecords : IAct := update (set_prefetched false [] 0 0).

(** The scan a cursor opens from [query] on. *)
Definition seekRequest (i : EloqIndexCursor) (query : bytes) (startInclusive isUpsert : bool) : ScanRequest :=
  let isBase := match tn_type (_indexName (i_idx i)) with Primary => true | _ => false end in
  mkScan (_indexName (i_idx i)) (i_schemaTs i) (match _type (i_idx i) with ID => true | _ => false end)
    (MongoKey.key query) startInclusive
    (match i_endPosition i with Some e => MongoKey.key e | None => if i_forward i then MongoKey.pos_inf else MongoKey.neg_inf end) false
    (i_forward i) (isUpsert && isBase).

Definition _seekCursor (query : bytes) (startInclusive : bool) : IAct :=
  let* i := this id in
  let* isUpsert := engine (gets w_isUpsert) in
  let* _ := engine (let* _ := emplaceCursor (i_cursor i) in
                    indexScanOpen (i_cursor i) (seekRequest i query startInclusive isUpsert)
                      (match i_endPosition i with Some _ => true | None => false end)) in
  _clearPrefetchedRecords.

Definition _getBatchFetchSize : Z := Z.max 1 (Z.min fetchSize 1000).

(** The record id of an index entry. *)
Definition entryId (type : IndexCursorType) (tuple : ScanBatchTuple) : result RecordId :=
  match type with
  | UNIQUE => MongoRecord.ToRecordId false (record_ tuple)
  | _ => decodeRecordIdStrAtEnd (tuple_key tuple)
  end.

(** The ids of the tuples from [i] on, with their places; deleted ones have none. *)
Fixpoint collectIds (type : IndexCursorType) (i : Z) (tuples : list ScanBatchTuple) : result (list (Z * RecordId)) :=
  match tuples with
  | [] => Ok []
  | tuple :: tuples =>
      match status_ tuple with
      | Deleted => collectIds type (i + 1) tuples
      | Normal => let! id := entryId type tuple in let! rest := collectIds type (i + 1) tuples in Ok ((i, id) :: rest)
      | _ => Err InvariantFailure
      end
  end.

Definition _fetchRecordsForRange (startIdx batchSize : Z) (batchVector : list ScanBatchTuple) : IOp TxErrorCode :=
  let* i := this id in
  let endIdx := Z.min (startIdx + batchSize) (Z.of_nat (length batchVector)) in
  let neededSize := Z.to_nat (endIdx - startIdx) in
  let* ids := lift (collectIds (_type (i_idx i)) startIdx (take neededSize (drop (Z.to_nat startIdx) batchVector))) in
  let* _ := update (set_prefetched (i_enablePrefetchRecords i) (repeat None neededSize) startIdx (i_lastRecordsBatchCnt i)) in
  match ids with
  | [] => mret NO_ERROR
  | _ =>
      let* fetchTuples := lift (collect (fun e => let! k := MongoKey.SetPackedKey e.2 in Ok (newTuple k)) ids) in
      let* schema := engine (getKeySchema (_tableName (i_idx i))) in
      let* isForWrite := engine (gets w_isUpsert) in
      let* _ := minvariant (negb isForWrite) in
      let* (fetchTuples, err) := engine (batchGetKV (_tableName (i_idx i)) (SchemaTs schema) fetchTuples isForWrite true) in
      if negb (is_ok err) then
        let* _ := update (set_prefetched (i_enablePrefetchRecords i) [] 0 (i_lastRecordsBatchCnt i)) in mret err
      else
        let records := foldl (fun rs et => <[Z.to_nat (et.1.1 - startIdx) := Some (record_ et.2)]> rs) (repeat None neededSize) (zip ids fetchTuples) in
        let* _ := update (set_prefetched (i_enablePrefetchRecords i) records startIdx (i_lastRecordsBatchCnt i)) in mret NO_ERROR
  end.

(** The current tuple's place in its batch. *)
Definition getCurrentBatchTupleIdx (k : EloqCursor) : Z := wrap64 (_scanBatchIdx k - 1).

Definition _ensureRecordsFetched : IOp TxErrorCode :=
  let* i := this id in
  let* k := engine (cursorAt (i_cursor i)) in
  let* _ := (if negb (_scanBatchCnt k =? i_lastRecordsBatchCnt i)
             then update (set_prefetched (i_enablePrefetchRecords i) [] 0 (_scanBatchCnt k)) else mret tt) in
  let* i := this id in
  let current := getCurrentBatchTupleIdx k in
  let prefetchedEndIdx := i_prefetchedBatchStartIdx i + Z.of_nat (length (i_prefetchedRecords i)) in
  if (i_prefetchedBatchStartIdx i <=? current) && (current <? prefetchedEndIdx) then mret NO_ERROR
  else _fetchRecordsForRange current _getBatchFetchSize (_scanBatchVector k).

Definition _atOrPastEndPointAfterSeeking (i : EloqIndexCursor) : bool :=
  if i_eof i then true
  else match i_endPosition i with
       | None => false
       | Some e => match KeyString_compare (i_key i) e with
                   | Gt => i_forward i
                   | Lt => negb (i_forward i)
                   | Eq => false
                   end
       end.

Definition _updateIdAndTypeBits (tuple : ScanBatchTuple) : IAct :=
  let* i := this id in
  let* id := lift (match _type (i_idx i) with
                   | ID => MongoKey.ToRecordId (key_ tuple) false
                   | UNIQUE => MongoRecord.ToRecordId false (record_ tuple)
                   | STANDARD => decodeRecordIdStrAtEnd (i_key i)
                   end) in
  let* _ := update (set_id id) in
  let* (typeBits, _) := lift (TypeBits.resetFromBuffer (i_typeBits i) (MongoRecord.unpack_info (record_ tuple))) in
  update (set_typeBits typeBits).

Definition _updateRecordPtr (tuple : ScanBatchTuple) : IAct :=
  let* i := this id in
  match _type (i_idx i) with
  | ID => update (set_recordPtr (Some (record_ tuple)))
  | _ =>
      let* isUpsert := engine (gets w_isUpsert) in
      if negb isUpsert && i_enablePrefetchRecords i then
        let* k := engine (cursorAt (i_cursor i)) in
        let current := getCurrentBatchTupleIdx k in
        let* _ := minvariant (i_prefetchedBatchStartIdx i <=? current) in
        match i_prefetchedRecords i !! Z.to_nat (current - i_prefetchedBatchStartIdx i) with
        | Some (Some r) => update (set_recordPtr (Some r))
        | _ => mthrow InvariantFailure
        end
      else update (set_recordPtr None)
  end.

Definition _updatePosition (fuel : nat) : IAct :=
  let* _ := update (set_eof false) in
  let* i := this id in
  let* err := engine (nextBatchTuple fuel (i_cursor i)) in
  let* _ := engine (uassertTx err) in
  let* scanTuple := engine (currentBatchTuple (i_cursor i)) in
  match scanTuple with
  | None => update (set_eof true)
  | Some tuple =>
      let* isUpsert := engine (gets w_isUpsert) in
      let* _ := (match _type (i_idx i) with
                 | ID => mret tt
                 | _ => if negb isUpsert && i_enablePrefetchRecords i
                        then let* err := _ensureRecordsFetched in engine (uassertTx err)
                        else mret tt
                 end) in
      let* _ := update (set_key (tuple_key tuple)) in
      let* i := this id in
      if _atOrPastEndPointAfterSeeking i then update (set_eof true)
      else
        let* _ := _updateIdAndTypeBits tuple in
        _updateRecordPtr tuple
  end.

(** [kWantKey] is the one bit of [RequestedInfo] that is looked at. *)
Definition _curr (wantKey : bool) : IOp (option IndexKeyEntry) :=
  let* i := this id in
  if i_eof i then mret None
  else
    let* bson := (if wantKey then lift (toBsonSafe L (i_typeBits i) (descending_of (_ordering (i_idx i))) (i_key i)) else mret []) in
    mret (Some (mkEntry bson (i_id i) (option_map MongoRecord.encoded_blob (i_recordPtr i)))).

Definition enablePrefetchRecords : IAct :=
  update (fun i => set_prefetched true (i_prefetchedRecords i) (i_prefetchedBatchStartIdx i) (i_lastRecordsBatchCnt i) i).

Definition seek (fuel : nat) (key : Document) (inclusive wantKey : bool) : IOp (option IndexKeyEntry) :=
  let* i := this id in
  let finalKey := stripFieldNames key in
  let discriminator := if Bool.eqb (i_forward i) inclusive then kExclusiveBefore else kExclusiveAfter in
  let* query := lift (resetToKey L finalKey (descending_of (_ordering (i_idx i))) discriminator) in
  let* _ := _seekCursor query inclusive in
  let* _ := _updatePosition fuel in
  _curr wantKey.

Definition seekExact (key : Document) (wantKey : bool) : IOp (option IndexKeyEntry) :=
  let* i := this id in
  let* _ := update (set_eof false) in
  let* ks := lift (resetToKey L (stripFieldNames key) (descending_of (_ordering (i_idx i))) kInclusive) in
  let* _ := update (set_key ks) in
  let* isUpsert := engine (gets w_isUpsert) in
  let* r := engine (getKV (_indexName (i_idx i)) (i_schemaTs i) (MongoKey.of_KeyString ks) isUpsert) in
  let* _ := engine (uassertTx (pr_err r)) in
  let* _ := (if pr_exists r then
               let* id := lift (RecordId_of_str ks) in
               let* _ := update (set_id id) in
               let* (typeBits, _) := lift (TypeBits.resetFromBuffer (i_typeBits i) (MongoRecord.unpack_info (pr_record r))) in
               let* _ := update (set_typeBits typeBits) in
               update (set_recordPtr (Some (pr_record r)))
             else let* _ := update (set_eof true) in update (set_recordPtr None)) in
  _curr wantKey.

Definition next (fuel : nat) (wantKey : bool) : IOp (option IndexKeyEntry) :=
  let* eof := this i_eof in
  if eof : bool then mret None
  else let* _ := _updatePosition fuel in _curr wantKey.

Definition save : IAct := mret tt.

Definition saveUnpositioned : IAct := let* c := this i_cursor in engine (resetCursor c).

Definition restore : IAct :=
  let* i := this id in
  if i_eof i then mret tt
  else
    let* opened := engine (gets (fun w => match w_heap w !! i_cursor i with Some k => indexScanIsOpen k | None => false end)) in
    if opened : bool then mret tt else _seekCursor (i_key i) false.

Definition detachFromOperationContext : IAct :=
  let* c := this i_cursor in
  let* _ := engine (resetCursor c) in
  update (set_attached false).

Definition reattachToOperationContext : IAct := update (set_attached true).

(** *** Seek points (storage/index_entry_comparison.{h,cpp}) *)

Record IndexSeekPoint := mkSeekPoint {
  keyPrefix : Document;
  prefixLen : nat;
  prefixExclusive : bool;
  keySuffix : list bson;
  suffixInclusive : list bool;
}.

(** The first [n] fields of the prefix; the name of the last tells that it is exclusive. *)
Fixpoint queryPrefix (prefix : Document) (n : nat) (exclusive : bool) (name : bytes) : result Document :=
  match n, prefix with
  | 0%nat, _ => Ok []
  | S _, [] => Err InvariantFailure
  | S n, (_, e) :: prefix =>
      let! rest := queryPrefix prefix n exclusive name in
      Ok ((if exclusive && match n with 0%nat => true | _ => false end then name else [], e) :: rest)
  end.

Fixpoint querySuffix (suffix : list bson) (inclusive : list bool) (name : bytes) : Document :=
  match suffix, inclusive with
  | e :: suffix, true :: inclusive => ([], e) :: querySuffix suffix inclusive name
  | e :: _, false :: _ => [(name, e)]
  | _, _ => []
  end.

Definition makeQueryObject (p : IndexSeekPoint) (isForward : bool) : result Document :=
  let name := if isForward then lit "g" else lit "l" in
  let! prefix := queryPrefix (keyPrefix p) (prefixLen p) (prefixExclusive p) name in
  if prefixExclusive p then let! _ := invariant (0 <? prefixLen p)%nat in Ok prefix
  else
    let! _ := invariant (Nat.eqb (length (keySuffix p)) (length (suffixInclusive p))) in
    Ok (prefix ++ querySuffix (drop (prefixLen p) (keySuffix p)) (drop (prefixLen p) (suffixInclusive p)) name).

Definition seekPoint (fuel : nat) (p : IndexSeekPoint) (wantKey : bool) : IOp (option IndexKeyEntry) :=
  let* i := this id in
  let* key := lift (makeQueryObject p (i_forward i)) in
  let discriminator := if i_forward i then kExclusiveBefore else kExclusiveAfter in
  let* query := lift (resetToKey L key (descending_of (_ordering (i_idx i))) discriminator) in
  let* _ := _seekCursor query true in
  let* _ := _updatePosition fuel in
  _curr wantKey.

(** [fullValidate]: the number of entries from the first on, within [fuel] of them. *)
Fixpoint countEntries (fuel n : nat) (count : Z) (kv : option IndexKeyEntry) : IOp Z :=
  match kv, n with
  | None, _ => mret count
  | Some _, 0%nat => mthrow InvariantFailure
  | Some _, S n => let* kv := next fuel true in countEntries fuel n (count + 1) kv
  end.
Definition fullValidate (fuel n : nat) : IOp Z := let* kv := seek fuel [] true true in countEntries fuel n 0 kv.

End Index.
