(* ===== verification/IndexScan.v ===== *)
(** * What an index cursor returns

    From the rows of an index's table to the entries of its cursor: the values come back with their types
    and the record id with them, the entries come in the order of their keys, none between the bounds is
    skipped and none comes twice, and the cursor goes on where it was after its scan was closed, by the end
    of a transaction, a yield or a move to another operation. *)

From stdpp Require Import sorting.
From S2P Require Import Prelude Bytes Bson RawBson BsonBuilder Decimals BsonCompare KeyDecoder KeyString KeyRoundTrip ByteOrder KeyOrder RecordId.
From S2P Require Import TypeBits KeyToBson KeyRestored MongoKey MongoRecord EloqUtil TableSchema TxService MemTx RecoveryUnit UnitOfWork CursorScan EloqIndex.
#[local] Open Scope Z_scope.

Section Entries.
Context (L : IntelDecimal).

(** ** Entries and rows *)

(** The key [k] and the record [r] that stand for the values [kd] and the id [rid] in the table of an index;
    the table of the index on [_id] holds the documents. *)
Definition entry_row (idx : EloqIndex) (kd : Document) (rid : RecordId) (k : bytes) (r : MongoRecord.t) : Prop :=
  exists tb,
    match _type idx with
    | STANDARD => KeyString_of_entry L kd (_ordering idx) rid = Ok (k, tb) /\ r = MongoRecord.setTypeBits tb MongoRecord.empty
    | UNIQUE => KeyString_of L kd (_ordering idx) = Ok (k, tb) /\
        exists blob, getStringView rid = Ok blob /\ r = MongoRecord.setTypeBits tb (MongoRecord.mk blob [])
    | ID => KeyString_of L kd (_ordering idx) = Ok (k, tb) /\ RecordId_of_str k = Ok rid /\
        exists blob, r = MongoRecord.setTypeBits tb (MongoRecord.mk blob [])
    end.

(** Values an index can hold, and an id of a document. *)
Definition good_entry (idx : EloqIndex) (kd : Document) (rid : RecordId) : Prop :=
  key_fields kd /\ descending_of (_ordering idx) (nFields kd) = false /\ valid_id rid /\ isStr rid = true.

Lemma types_bounded obj descending x : key_fields obj -> descending (nFields obj) = false -> resetToKeyAndTypes L obj descending = Ok x ->
  TypeBits.holds x.2 (all_types obj) /\ resetToKey L obj descending kInclusive = Ok x.1 /\
  forall tb' r, TypeBits.offers tb' 0 (all_types obj) -> toBsonSafe L tb' descending (x.1 ++ r) = Ok (map (fun e => ([], restored e.2)) obj).
Proof.
  intros Hk Hd E. destruct (key_restored L obj descending Hk Hd) as (key & Ek & H). destruct (decide _).
  - destruct H as (tb & E' & Hh & Hr). rewrite E in E'. injection E' as ->. done.
  - by rewrite E in H.
Qed.

(** A row is read back as the entry it stands for. *)
Lemma entry_decoded idx kd rid k r tb0 : entry_row idx kd rid k r -> good_entry idx kd rid ->
  (match _type idx with
   | ID => MongoKey.ToRecordId (MongoKey.key k) false
   | UNIQUE => MongoRecord.ToRecordId false r
   | STANDARD => decodeRecordIdStrAtEnd k
   end) = Ok rid /\
  exists tb, TypeBits.resetFromBuffer tb0 (MongoRecord.unpack_info r) = Ok (tb, []) /\
    toBsonSafe L tb (descending_of (_ordering idx)) k = Ok (map (fun e => ([], restored e.2)) kd).
Proof.
  intros (tb & Hrow) (Hk & Hd & Hv & Hs). unfold KeyString_of, KeyString_of_entry in Hrow. destruct (_type idx).
  - destruct Hrow as (E & Hid & blob & ->). destruct (types_bounded _ _ _ Hk Hd E) as (Hh & _ & Hr). cbn [fst snd] in *.
    destruct (MongoRecord.stored_type_bits tb _ tb0 blob Hh) as (tb' & E' & Ho). split; [done|]. exists tb'. split; [done|].
    rewrite <- (app_nil_r k). by apply Hr.
  - destruct Hrow as (E & blob & Hb & ->). destruct (types_bounded _ _ _ Hk Hd E) as (Hh & _ & Hr). cbn [fst snd] in *.
    destruct (MongoRecord.stored_type_bits tb _ tb0 blob Hh) as (tb' & E' & Ho). split.
    + unfold MongoRecord.ToRecordId. rewrite MongoRecord.setTypeBits_blob. cbn [MongoRecord.encoded_blob]. destruct (valid_str rid Hv Hs) as (s & E1 & _ & E2 & _). congruence.
    + exists tb'. split; [done|]. rewrite <- (app_nil_r k). by apply Hr.
  - destruct Hrow as [E ->]. apply rbind_Ok in E as ([key tb1] & Ek & E). apply rbind_Ok in E as (bs & Eb & [= <- <-]).
    destruct (types_bounded _ _ _ Hk Hd Ek) as (Hh & _ & Hr). cbn [fst snd] in *.
    destruct (MongoRecord.stored_type_bits tb1 _ tb0 [] Hh) as (tb' & E' & Ho). split.
    + destruct (valid_str rid Hv Hs) as (s & _ & Hl & Eof & Ea). rewrite Ea in Eb. destruct (decode_appended_str key s Hl) as (bs' & Eb' & Ed).
      rewrite Eb in Eb'. injection Eb' as <-. by rewrite Ed, Eof.
    + exists tb'. split; [done|]. by apply Hr.
Qed.

End Entries.

Section Cursor.
Context {T : TxService} `{!TxLaws T} (L : IntelDecimal) (fetchSize : Z).
Context (stays : Rows) (ever : bytes -> MongoRecord.t -> Prop) (idx : EloqIndex).
Context (rows_are_entries : forall k r, ever k r -> exists kd rid, good_entry idx kd rid /\ entry_row L idx kd rid k r).

#[local] Abbreviation scanning := (scanning stays ever).
#[local] Abbreviation between := (between stays ever).

(** The end of a cursor's scans. *)
Definition end_of (i : EloqIndexCursor) : MongoKey.t :=
  match i_endPosition i with Some e => MongoKey.key e | None => if i_forward i then MongoKey.pos_inf else MongoKey.neg_inf end.

(** A request of the cursor, from any start. *)
Definition request_of (i : EloqIndexCursor) (q : ScanRequest) : Prop :=
  sr_table q = _indexName (i_idx i) /\ sr_forward q = i_forward i /\ sr_end q = end_of i /\ sr_endInclusive q = false.

Lemma seekRequest_of i query inc up : request_of i (seekRequest i query inc up).
Proof. by repeat split. Qed.

Lemma in_range_end i q k : request_of i q -> in_range q k = true ->
  match i_endPosition i with Some e => ahead (i_forward i) k e = true | None => True end.
Proof.
  intros (_ & Hf & He & Hi) H. unfold in_range in H. rewrite Hf, He, Hi in H. unfold end_of in H. destruct (i_endPosition i) as [e|]; [|done].
  destruct (i_forward i); boolprop; done.
Qed.

Lemma not_past_end i q k : request_of i q -> in_range q k = true -> i_eof i = false -> i_key i = k -> _atOrPastEndPointAfterSeeking i = false.
Proof.
  intros Hr Hin He <-. unfold _atOrPastEndPointAfterSeeking. rewrite He. pose proof (in_range_end i q _ Hr Hin) as H.
  destruct (i_endPosition i) as [e|]; [|done]. rewrite KeyString_compare_eq. unfold ahead, bytes_ltb in H.
  destruct (i_forward i); [|rewrite bytes_compare_antisym in H]; by destruct (bytes_compare (i_key i) e).
Qed.

(** What stays of a cursor as it moves. *)
Definition same_cursor (i i' : EloqIndexCursor) : Prop :=
  i_idx i' = i_idx i /\ i_schemaTs i' = i_schemaTs i /\ i_forward i' = i_forward i /\ i_attached i' = i_attached i /\ i_endPosition i' = i_endPosition i /\
  i_cursor i' = i_cursor i /\ i_enablePrefetchRecords i' = i_enablePrefetchRecords i.

Lemma request_same i i' q : same_cursor i i' -> request_of i q -> request_of i' q.
Proof. unfold request_of, end_of. intros (Ei & _ & Hf & _ & He & _). by rewrite Ei, Hf, He. Qed.

(** The entry a cursor returns for a row. *)
Definition returned (kd : Document) (rid : RecordId) (r : MongoRecord.t) (wantKey : bool) : IndexKeyEntry :=
  mkEntry (if wantKey then map (fun e => ([], restored e.2)) kd else []) rid
    (match _type idx with ID => Some (MongoRecord.encoded_blob r) | _ => None end).

(** The row at [k] is the next one, and the cursor returns its entry. *)
Definition at_row (cw : EloqIndexCursor * World T) (q : ScanRequest) (p : option bytes) : Prop :=
  exists r kd rid, ever (i_key cw.1) r /\ in_range q (i_key cw.1) = true /\ past (sr_forward q) p (i_key cw.1) = true /\
    (forall k rec, stays k = Some rec -> in_range q k = true -> past (sr_forward q) p k = true -> k = i_key cw.1 \/ ahead (sr_forward q) (i_key cw.1) k = true) /\
    good_entry idx kd rid /\ entry_row L idx kd rid (i_key cw.1) r /\
    forall wantKey, _curr L wantKey cw = (Ok (Some (returned kd rid r wantKey)), cw).

(** How a move of the cursor ends: with the next row, at the end, or with the service's error, which leaves its position. *)
Definition moved (i : EloqIndexCursor) q p (r : result Datatypes.unit) (i' : EloqIndexCursor) (w' : World T) : Prop :=
  same_cursor i i' /\
  match r with
  | Err e => e <> InvariantFailure /\ i_key i' = i_key i /\ i_eof i' = false
  | Ok _ =>
      exists k' sc',
        if i_eof i' then exhausted stays q p /\ i_key i' = i_key i /\ scanning w' (i_cursor i) q p k' sc'
        else at_row (i', w') q p /\ scanning w' (i_cursor i) q (Some (i_key i')) k' sc'
  end.

Lemma uassertTx_outcome err (w : World T) : uassertTx err w = (outcome err, w).
Proof. done. Qed.

Lemma outcome_err err : is_ok err = false -> exists e, outcome err = Err e /\ e <> InvariantFailure.
Proof. destruct err; cbn; intros; try done; by eexists. Qed.

(** A tuple handed out, as the cursor takes it. *)
Lemma take_entry i w t q p : i_idx i = idx -> i_enablePrefetchRecords i = false -> i_eof i = false -> i_key i = tuple_key t -> handed stays ever q p t ->
  exists i', (let* _ := _updateIdAndTypeBits t in _updateRecordPtr t) (i, w) = (Ok tt, (i', w)) /\ same_cursor i i' /\ i_key i' = i_key i /\ i_eof i' = false /\
    at_row (i', w) q p.
Proof.
  intros Hidx Hpre Heof Hkey (Hk & Hin & Hp & Hev & Hst). destruct (rows_are_entries _ _ Hev) as (kd & rid & Hg & Hrow).
  destruct (entry_decoded L idx kd rid _ _ (i_typeBits i) Hrow Hg) as (Eid & tb & Etb & Ebson). unfold _updateIdAndTypeBits, _updateRecordPtr, mbind, this, gets, lift, update, modify.
  cbn [fst snd id]. rewrite Hidx, Hkey, Hk, Eid. cbn [fst snd]. rewrite Etb. cbn [fst snd id i_idx set_typeBits set_id]. rewrite Hidx.
  set (i1 := set_typeBits tb (set_id rid i)).
  assert (forall rp, option_map MongoRecord.encoded_blob rp = (match _type idx with ID => Some (MongoRecord.encoded_blob (record_ t)) | _ => None end) ->
    at_row (set_recordPtr rp i1, w) q p) as Hrow1.
  { intros rp Erp. exists (record_ t), kd, rid. unfold at_row. cbn [fst set_recordPtr i1 set_typeBits set_id i_key]. rewrite Hkey. split_and!; try done.
    intros wantKey. unfold _curr, mbind, this, gets, lift, returned. cbn [fst id set_recordPtr i1 set_typeBits set_id i_eof i_key i_idx i_typeBits i_id i_recordPtr].
    rewrite Heof, Hidx, Hkey, <- Erp. destruct wantKey; [by rewrite Ebson|done]. }
  assert (forall rp, same_cursor i (set_recordPtr rp i1)) as Hsame by by repeat split.
  destruct (_type idx) eqn:Et.
  - exists (set_recordPtr (Some (record_ t)) i1). split; [done|]. split_and!; [apply Hsame|done..|by apply Hrow1].
  - exists (set_recordPtr None i1). split; [unfold mbind, engine, gets; cbn; by rewrite Hpre, andb_false_r|]. split_and!; [apply Hsame|done..|by apply Hrow1].
  - exists (set_recordPtr None i1). split; [unfold mbind, engine, gets; cbn; by rewrite Hpre, andb_false_r|]. split_and!; [apply Hsame|done..|by apply Hrow1].
Qed.

Lemma updatePosition_spec fuel i w q p k sc : wf_world w -> i_idx i = idx -> i_enablePrefetchRecords i = false -> request_of i q ->
  scanning w (i_cursor i) q p k sc -> between (rows (w_tx w) (sr_table q)) -> (length (at_hand k) + sc_left sc + 1 < fuel)%nat ->
  exists r i' w', _updatePosition fetchSize fuel (i, w) = (r, (i', w')) /\ wf_world w' /\ frame (i_cursor i) (_scanAlias k) w w' /\ moved i q p r i' w'.
Proof.
  intros Hw Hidx Hpre Hreq Hs Hb Hf. destruct (nextBatchTuple_spec stays ever fuel w (i_cursor i) q p k sc Hs Hb Hf) as (err & w' & E & Hfr & k' & sc' & Hk' & Ha).
  destruct (keeps_nextBatchTuple fuel (i_cursor i) w Hw) as [Hw' _]. rewrite E in Hw'. cbn [snd] in Hw'.
  unfold _updatePosition, update, modify, this, gets, engine. unfold mbind at 1 2 3. cbn [fst snd i_cursor set_eof id]. rewrite E. unfold mbind at 1. rewrite uassertTx_outcome.
  destruct (is_ok err) eqn:Eok.
  2: { destruct (outcome_err err Eok) as (e & -> & He). exists (Err e). eexists _, w'. split; [done|]. split; [done|]. split; [done|]. by split; [repeat split|]. }
  destruct err; try discriminate. cbn [outcome TxErrorCodeToMongoStatus rbind uassertStatusOK]. unfold mbind at 1, currentBatchTuple, mbind at 1, cursorAt.
  cbn [fst snd]. rewrite Hk'. unfold currentTuple, lift. destruct (_currentBatchTuple k') as [n|].
  - destruct Ha as (t & Ht & _ & _ & Hh & Hs'). rewrite Ht.
    destruct (take_entry (set_key (tuple_key t) (set_eof false i)) w' t q p Hidx Hpre eq_refl eq_refl Hh) as (i' & E' & Hsame & Hkey & Heof & Hrow).
    exists (Ok tt), i', w'. split; [|split; [done|split; [done|split; [done|]]]].
    + destruct Hh as (_ & Hin & _). unfold mbind, gets. cbn [fst snd i_idx set_eof id].
      change (i_enablePrefetchRecords (set_eof false i)) with (i_enablePrefetchRecords i). rewrite Hpre, andb_false_r.
      assert ((match _type (i_idx i) with ID => mret tt | _ => mret tt end) = (mret tt : St (EloqIndexCursor * World T) Datatypes.unit)) as ->
        by by destruct (_type (i_idx i)). unfold mret. cbn [fst snd].
      rewrite (not_past_end (set_key (tuple_key t) (set_eof false i)) q (tuple_key t)); [exact E'|exact Hreq|exact Hin|done|done].
    + exists k', sc'. rewrite Heof. split; [exact Hrow|]. rewrite Hkey. exact Hs'.
  - destruct Ha as [Hx Hs']. exists (Ok tt). eexists _, w'. split; [done|]. split; [done|]. split; [done|]. split; [by repeat split|]. exists k', sc'. by split.
Qed.

(** ** A walk along the index *)

(** What a call does when its loop may go on as long as it needs to. *)
Definition runs {A} (m : nat -> St (EloqIndexCursor * World T) A) (cw : EloqIndexCursor * World T) (x : result A * (EloqIndexCursor * World T)) : Prop :=
  exists n, forall fuel, (n < fuel)%nat -> m fuel cw = x.

Lemma updatePosition_more (cw : EloqIndexCursor * World T) fuel fuel' : (fuel <= fuel')%nat -> (_updatePosition fetchSize fuel cw).1 <> Err InvariantFailure ->
  _updatePosition fetchSize fuel' cw = _updatePosition fetchSize fuel cw.
Proof.
  assert (exists rest, forall fuel, _updatePosition fetchSize fuel cw = mbind (engine (nextBatchTuple fuel (i_cursor cw.1))) rest (set_eof false cw.1, cw.2))
    as [rest Hf] by (eexists; intros; reflexivity).
  rewrite !Hf. unfold mbind, engine. cbn [fst snd]. intros Hle H. rewrite (nextBatchTuple_more _ _ fuel fuel' Hle); [done|].
  destruct (nextBatchTuple fuel _ _) as [[]]; [done|]. intros [= ->]. by apply H.
Qed.

(** The rows of [q] past [p] are those of [q'] past [p']. *)
Definition goes_on (q : ScanRequest) (p : option bytes) (q' : ScanRequest) (p' : option bytes) : Prop :=
  sr_forward q' = sr_forward q /\ sr_table q' = sr_table q /\
  forall k, in_range q' k && past (sr_forward q) p' k = in_range q k && past (sr_forward q) p k.

(** The keys visited: in order, and no row that stays left out up to the last. *)
Record visited (q : ScanRequest) (ks : list bytes) : Prop := {
  v_sorted : StronglySorted (fun a b => ahead (sr_forward q) a b = true) ks;
  v_range : Forall (fun k => in_range q k = true) ks;
  v_before : forall k, past (sr_forward q) (list.last ks) k = true -> Forall (fun x => ahead (sr_forward q) x k = true) ks;
  v_covered : forall k rec, stays k = Some rec -> in_range q k = true -> past (sr_forward q) (list.last ks) k = false -> k ∈ ks;
}.

Lemma visited_nil q : visited q [].
Proof. constructor; try done; constructor. Qed.

Lemma visited_next q ks k0 : visited q ks -> in_range q k0 = true -> past (sr_forward q) (list.last ks) k0 = true ->
  (forall k rec, stays k = Some rec -> in_range q k = true -> past (sr_forward q) (list.last ks) k = true -> k = k0 \/ ahead (sr_forward q) k0 k = true) ->
  visited q (ks ++ [k0]).
Proof.
  intros [Hs Hr Hb Hc] Hin Hp Hn. constructor.
  - apply StronglySorted_app. split_and!; [|done|repeat constructor]. intros x1 x2 H1 ->%list_elem_of_singleton. specialize (Hb k0 Hp).
    rewrite Forall_forall in Hb. by apply Hb.
  - apply Forall_app. by split; [|constructor].
  - intros k Hk. rewrite last_snoc in Hk. cbn in Hk. apply Forall_app. split; [|by constructor].
    eapply Forall_impl; [exact (Hb k0 Hp)|]. intros x Hx. cbn in *. by eapply ahead_trans.
  - intros k rec H1 H2 H3. rewrite last_snoc in H3. cbn in H3. apply elem_of_app.
    destruct (past (sr_forward q) (list.last ks) k) eqn:Ek; [|left; by eapply Hc]. right. destruct (Hn k rec H1 H2 Ek) as [->|]; [by left|congruence].
Qed.

(** The cursor stands after the keys [ks]; where its scan is open, the scan goes on from there. *)
Record standing (q : ScanRequest) (ks : list bytes) (cw : EloqIndexCursor * World T) : Prop := {
  st_wf : wf_world cw.2;
  st_idx : i_idx cw.1 = idx;
  st_prefetch : i_enablePrefetchRecords cw.1 = false;
  st_request : request_of cw.1 q;
  st_visited : visited q ks;
  st_position : if i_eof cw.1 then exhausted stays q (list.last ks) else list.last ks = Some (i_key cw.1);
  st_scan : i_eof cw.1 = false -> forall k, w_heap cw.2 !! i_cursor cw.1 = Some k -> indexScanIsOpen k = true ->
    exists q' p' sc, goes_on q (list.last ks) q' p' /\ request_of cw.1 q' /\ scanning cw.2 (i_cursor cw.1) q' p' k sc;
}.

(** The entry [e] of the row at [k]. *)
Definition entry_at (e : IndexKeyEntry) (k : bytes) : Prop :=
  exists r kd rid, ever k r /\ good_entry idx kd rid /\ entry_row L idx kd rid k r /\ e = returned kd rid r true.

Lemma goes_on_in q p q' p' k : goes_on q p q' p' -> in_range q' k = true -> past (sr_forward q') p' k = true ->
  in_range q k = true /\ past (sr_forward q) p k = true.
Proof. intros (Hf & _ & H) H1 H2. specialize (H k). rewrite Hf in H2. rewrite H1, H2 in H. by apply andb_prop. Qed.

Lemma goes_on_back q p q' p' k : goes_on q p q' p' -> in_range q k = true -> past (sr_forward q) p k = true ->
  in_range q' k = true /\ past (sr_forward q') p' k = true.
Proof. intros (Hf & _ & H) H1 H2. specialize (H k). rewrite Hf. rewrite H1, H2 in H. by apply andb_prop. Qed.

Lemma goes_on_next q p q' p' k0 : goes_on q p q' p' -> in_range q' k0 = true -> past (sr_forward q') p' k0 = true -> goes_on q (Some k0) q' (Some k0).
Proof.
  intros Hg H1 H2. destruct (goes_on_in _ _ _ _ _ Hg H1 H2) as [H3 H4]. pose proof Hg as (Hf & Ht & H). split_and!; [done..|]. intros k. cbn.
  destruct (ahead (sr_forward q) k0 k) eqn:Ea; [|by rewrite !andb_false_r]. specialize (H k). rewrite Hf in H2.
  rewrite (past_ahead _ _ _ _ H2 Ea), (past_ahead _ _ _ _ H4 Ea) in H. done.
Qed.

(** A move of the cursor, from where it stands. *)
Lemma moved_standing q ks i q' p' i' w' : i_idx i = idx -> i_enablePrefetchRecords i = false -> request_of i q -> request_of i q' -> visited q ks ->
  goes_on q (list.last ks) q' p' -> wf_world w' -> moved i q' p' (Ok tt) i' w' ->
  exists e, (forall wantKey, exists e', _curr L wantKey (i', w') = (Ok e', (i', w')) /\ (wantKey = true -> e' = e)) /\
    exists ks', standing q (ks ++ ks') (i', w') /\ Forall2 entry_at (option_list e) ks' /\ (e = None -> i_eof i' = true).
Proof.
  intros Hidx Hpre Hq Hq' Hv Hg Hw (Hsame & k' & sc' & Hm). pose proof Hsame as (Ei & _ & _ & _ & _ & Ec & Ep).
  destruct (i_eof i') eqn:Eeof.
  - destruct Hm as (Hx & Hkey & Hs). exists None. split; [intros; exists None; split; [|done]; unfold _curr, mbind, this, gets; cbn; by rewrite Eeof|].
    exists []. split; [|by split; [constructor|]]. rewrite app_nil_r. constructor; cbn [fst snd]; try done.
    + congruence.
    + congruence.
    + by apply (request_same i).
    + rewrite Eeof. intros k rec H1 H2. destruct (past (sr_forward q) _ k) eqn:H3; [|done]. destruct (goes_on_back _ _ _ _ _ Hg H2 H3) as [H4 H5].
      by rewrite (Hx k rec H1 H4) in H5.
    + congruence.
  - destruct Hm as ((r & kd & rid & Hev & Hin & Hp & Hst & Hgood & Hrow & Hcurr) & Hs). cbn [fst] in *. exists (Some (returned kd rid r true)).
    split; [intros wantKey; eexists; split; [apply Hcurr|by intros ->]|]. exists [i_key i']. destruct (goes_on_in _ _ _ _ _ Hg Hin Hp) as [Hin1 Hp1].
    split; [|split; [|done]].
    + constructor; cbn [fst snd]; try done.
      * congruence.
      * congruence.
      * by apply (request_same i).
      * apply visited_next; try done. intros k rec H1 H2 H3. destruct (goes_on_back _ _ _ _ _ Hg H2 H3) as [H4 H5].
        rewrite (proj1 Hg : sr_forward q' = sr_forward q) in *. by apply (Hst k rec).
      * rewrite Eeof. by rewrite last_snoc.
      * intros _ k Hk Ho. rewrite last_snoc, Ec in *. rewrite (op_heap _ _ _ _ _ (proj1 Hs)) in Hk. injection Hk as <-.
        exists q', (Some (i_key i')), sc'. split; [by eapply goes_on_next|]. split; [by apply (request_same i)|done].
    + cbn. constructor; [|constructor]. by exists r, kd, rid.
Qed.

Lemma runs_same {A} (m : nat -> St (EloqIndexCursor * World T) A) cw x y : runs m cw x -> runs m cw y -> x = y.
Proof. intros [n Hn] [n' Hn']. by rewrite <- (Hn (S (n + n'))), (Hn' (S (n + n'))) by lia. Qed.

(** The scan is closed, and the cursor where it was. *)
Lemma standing_closed q ks i w i' w' : standing q ks (i, w) -> wf_world w' -> same_cursor i i' -> i_eof i' = i_eof i -> i_key i' = i_key i ->
  (forall k, w_heap w' !! i_cursor i = Some k -> indexScanIsOpen k = false) -> standing q ks (i', w').
Proof.
  intros [Hw Hidx Hpre Hreq Hv Hp Hs] Hw' Hsame Heof Hkey Hc. pose proof Hsame as (Ei & _ & _ & _ & _ & Ec & Ep). cbn [fst snd] in *.
  constructor; cbn [fst snd]; [done|congruence|congruence|by apply (request_same i)|done|by rewrite Heof, Hkey|].
  intros _ k Hk Ho. rewrite Ec in Hk. by rewrite (Hc k Hk) in Ho.
Qed.

Lemma same_cursor_refl i : same_cursor i i.
Proof. by repeat split. Qed.

(** The scan of the cursor is open. *)
Definition scan_open (cw : EloqIndexCursor * World T) : Prop :=
  exists k, w_heap cw.2 !! i_cursor cw.1 = Some k /\ indexScanIsOpen k = true.

(** [next], where it goes to. *)
Lemma next_standing q ks i w : standing q ks (i, w) -> i_eof i = false -> scan_open (i, w) -> between (rows (w_tx w) (_indexName idx)) ->
  exists r i' w', runs (fun fuel => next L fetchSize fuel true) (i, w) (r, (i', w')) /\ rows (w_tx w') = rows (w_tx w) /\
    match r with
    | Ok e => exists ks', standing q (ks ++ ks') (i', w') /\ Forall2 entry_at (option_list e) ks' /\ (e = None -> i_eof i' = true)
    | Err e => e <> InvariantFailure /\ wf_world w' /\ same_cursor i i' /\ i_eof i' = false /\ i_key i' = i_key i
    end.
Proof.
  intros [Hw Hidx Hpre Hreq Hv Hp Hs] Heof (k & Hk & Ho) Hb. cbn [fst snd] in *. destruct (Hs Heof k Hk Ho) as (q' & p' & sc & Hg & Hreq' & Hsc).
  set (n := (length (at_hand k) + sc_left sc + 2)%nat). rewrite <- Hidx in Hb. pose proof Hreq' as (Et & _). rewrite <- Et in Hb.
  destruct (updatePosition_spec n i w q' p' k sc Hw Hidx Hpre Hreq' Hsc Hb) as (r & i' & w' & E & Hw' & Hfr & Hm); [lia|].
  assert (r <> Err InvariantFailure) as Hr by (destruct r; [done|]; destruct Hm as (_ & He & _); congruence).
  assert (forall fuel, (n < fuel)%nat -> _updatePosition fetchSize fuel (i, w) = (r, (i', w'))) as Em
    by (intros fuel Hf; rewrite (updatePosition_more (i, w) n fuel); [done|lia|by rewrite E]).
  assert (forall fuel, (n < fuel)%nat -> next L fetchSize fuel true (i, w) = (let* _ := fun _ => (r, (i', w')) in _curr L true) (i, w)) as En.
  { intros fuel Hf. unfold next, this, gets. unfold mbind at 1. cbn [fst]. rewrite Heof. unfold mbind. by rewrite Em. }
  destruct r as [[]|e].
  - destruct (moved_standing q ks i q' p' i' w' Hidx Hpre Hreq Hreq' Hv Hg Hw' Hm) as (e & Hc & ks' & Hst). destruct (Hc true) as (e' & Ec & He). rewrite He in Ec by done.
    exists (Ok e), i', w'. split; [exists n; intros fuel Hf; rewrite (En fuel Hf); unfold mbind; by rewrite Ec|]. split; [apply Hfr|]. by exists ks'.
  - destruct Hm as (Hsame & He & Hkey & Heof'). exists (Err e), i', w'. split; [exists n; intros fuel Hf; by rewrite (En fuel Hf)|]. split; [apply Hfr|]. done.
Qed.

(** ** Opening the scan anew *)

Lemma behind_start (lo : MongoKey.t) (inclusive : bool) a b :
  (if inclusive then MongoKey.leb lo (MongoKey.key a) else MongoKey.ltb lo (MongoKey.key a)) = true -> bytes_ltb a b = true ->
  (if inclusive then MongoKey.leb lo (MongoKey.key b) else MongoKey.ltb lo (MongoKey.key b)) = true.
Proof.
  intros H Hab. destruct inclusive, lo as [| |s]; try done; unfold MongoKey.leb in *; cbn in *; [|exact (bytes_lt_trans _ _ _ H Hab)].
  apply negb_true_iff in H. apply negb_true_iff. destruct (bytes_ltb b s) eqn:E; [|done]. by rewrite (bytes_lt_trans _ _ _ Hab E) in H.
Qed.

Lemma before_start (hi : MongoKey.t) (inclusive : bool) a b :
  (if inclusive then MongoKey.leb (MongoKey.key a) hi else MongoKey.ltb (MongoKey.key a) hi) = true -> bytes_ltb b a = true ->
  (if inclusive then MongoKey.leb (MongoKey.key b) hi else MongoKey.ltb (MongoKey.key b) hi) = true.
Proof.
  intros H Hab. destruct inclusive, hi as [| |s]; try done; unfold MongoKey.leb in *; cbn in *; [|exact (bytes_lt_trans _ _ _ Hab H)].
  apply negb_true_iff in H. apply negb_true_iff. destruct (bytes_ltb s b) eqn:E; [|done]. by rewrite (bytes_lt_trans _ _ _ E Hab) in H.
Qed.

(** A scan from a key of the range on, without the key, has the rest of the range. *)
Lemma seek_goes_on i q a up : request_of i q -> in_range q a = true -> goes_on q (Some a) (seekRequest i a false up) None.
Proof.
  intros (Et & Ef & Ee & Ei) Ha. split_and!; [by rewrite Ef|by rewrite Et|]. intros k. unfold in_range in *. cbn [seekRequest sr_forward sr_start sr_end sr_startInclusive sr_endInclusive past].
  rewrite Ef, Ee, Ei in *. fold (end_of i). unfold ahead. destruct (i_forward i); apply andb_prop in Ha as [H1 H2].
  - change (MongoKey.ltb (MongoKey.key a) (MongoKey.key k)) with (bytes_ltb a k). destruct (bytes_ltb a k) eqn:E; [|by rewrite andb_false_r]. by rewrite (behind_start _ _ _ _ H1 E), andb_true_r.
  - change (MongoKey.ltb (MongoKey.key k) (MongoKey.key a)) with (bytes_ltb k a). destruct (bytes_ltb k a) eqn:E; [|by rewrite !andb_false_r]. by rewrite (before_start _ _ _ _ H2 E), !andb_true_r.
Qed.

Lemma seekCursor_spec i w query inclusive : wf_world w -> exists w' k sc,
  _seekCursor query inclusive (i, w) = (Ok tt, (set_prefetched false [] 0 0 i, w')) /\
  scanning w' (i_cursor i) (seekRequest i query inclusive (w_isUpsert w)) None k sc /\ indexScanIsOpen k = true /\ wf_world w' /\ beside (i_cursor i) w w'.
Proof.
  intros Hw. destruct (openScan_spec stays ever w (i_cursor i) (seekRequest i query inclusive (w_isUpsert w)) (match i_endPosition i with Some _ => true | None => false end) Hw)
    as (w' & k & sc & E & Hs & Hw' & Hb & _).
  exists w', k, sc. split; [|split_and!; [done| |done..]].
  - unfold _seekCursor, _clearPrefetchedRecords, update, modify, this, gets, engine. unfold mbind at 1 2 3. cbn [fst snd id]. by rewrite E.
  - unfold indexScanIsOpen. apply Z.ltb_lt. apply (op_alias _ _ _ _ _ (proj1 Hs)).
Qed.

(** [restore]: the cursor stands where it stood, and its scan is open. *)
Lemma restore_standing q ks i w : standing q ks (i, w) -> exists cw', restore (i, w) = (Ok tt, cw') /\ standing q ks cw' /\
  i_eof cw'.1 = i_eof i /\ (i_eof i = false -> scan_open cw').
Proof.
  intros Hst. pose proof Hst as [Hw Hidx Hpre Hreq Hv Hp Hs]. cbn [fst snd] in *. unfold restore, this, engine, gets. unfold mbind at 1. cbn [fst id].
  destruct (i_eof i) eqn:Ee; [by exists (i, w)|]. unfold mbind. cbn [fst snd].
  destruct (match w_heap w !! i_cursor i with Some k => indexScanIsOpen k | None => false end) eqn:Eo.
  { exists (i, w). split_and!; try done. intros _. unfold scan_open. cbn. destruct (w_heap w !! i_cursor i); [eauto|done]. }
  destruct (seekCursor_spec i w (i_key i) false Hw) as (w' & k & sc & E & Hs' & Ho & Hw' & Hb). exists (set_prefetched false [] 0 0 i, w').
  split; [exact E|]. split; [|split; [done|intros _; exists k; split; [apply (proj1 Hs')|done]]]. constructor; cbn [fst snd]; try done.
  - change (i_eof (set_prefetched false [] 0 0 i)) with (i_eof i). by rewrite Ee.
  - intros _ k1 Hk1 _. change (i_cursor (set_prefetched false [] 0 0 i)) with (i_cursor i) in *. rewrite (op_heap _ _ _ _ _ (proj1 Hs')) in Hk1. injection Hk1 as <-.
    eexists _, None, sc. split; [|split; [|exact Hs']]; [|exact (seekRequest_of i _ _ _)]. rewrite Hp. apply seek_goes_on; [done|].
    pose proof (v_range _ _ Hv) as Hr. rewrite Forall_forall in Hr. apply Hr. by apply last_Some_elem_of.
Qed.

(** A scan opened at [query], and its first row. *)
Definition walk (query : bytes) (inclusive : bool) (fuel : nat) : St (EloqIndexCursor * World T) (option IndexKeyEntry) :=
  let* _ := _seekCursor query inclusive in let* _ := _updatePosition fetchSize fuel in _curr L true.

(** The rows a scan opened now would be over. *)
Definition opens_over (query : bytes) (inclusive : bool) (cw : EloqIndexCursor * World T) : Prop :=
  forall cw1, _seekCursor query inclusive cw = (Ok tt, cw1) -> between (rows (w_tx cw1.2) (_indexName idx)).

Lemma walk_standing query inclusive i w : wf_world w -> i_idx i = idx -> opens_over query inclusive (i, w) ->
  exists r i' w', runs (walk query inclusive) (i, w) (r, (i', w')) /\
    match r with
    | Ok e => exists ks, standing (seekRequest i query inclusive (w_isUpsert w)) ks (i', w') /\ Forall2 entry_at (option_list e) ks /\ (e = None -> i_eof i' = true)
    | Err e => e <> InvariantFailure
    end.
Proof.
  intros Hw Hidx Hb. destruct (seekCursor_spec i w query inclusive Hw) as (w1 & k & sc & E & Hs & Ho & Hw1 & _). specialize (Hb _ E). cbn [snd] in Hb.
  set (i1 := set_prefetched false [] 0 0 i) in *. set (q := seekRequest i query inclusive (w_isUpsert w)) in *.
  assert (request_of i1 q) as Hreq by exact (seekRequest_of i _ _ _). set (n := (length (at_hand k) + sc_left sc + 2)%nat).
  rewrite <- Hidx in Hb. destruct (updatePosition_spec n i1 w1 q None k sc Hw1 Hidx eq_refl Hreq Hs Hb) as (r & i' & w' & E' & Hw' & _ & Hm); [lia|].
  assert (r <> Err InvariantFailure) as Hr by (destruct r; [done|]; destruct Hm as (_ & He & _); congruence).
  assert (forall fuel, (n < fuel)%nat -> walk query inclusive fuel (i, w) = (let* _ := fun _ => (r, (i', w')) in _curr L true) (i, w)) as En.
  { intros fuel Hf. unfold walk. unfold mbind at 1. rewrite E. unfold mbind. rewrite (updatePosition_more (i1, w1) n fuel); [by rewrite E'|lia|by rewrite E']. }
  destruct r as [[]|e].
  - destruct (moved_standing q [] i1 q None i' w' Hidx eq_refl Hreq Hreq (visited_nil q)) as (e & Hc & ks' & Hst); [done..|].
    destruct (Hc true) as (e' & Ec & He). rewrite He in Ec by done.
    exists (Ok e), i', w'. split; [exists n; intros fuel Hf; rewrite (En fuel Hf); unfold mbind; by rewrite Ec|]. by exists ks'.
  - destruct Hm as (_ & He & _). exists (Err e), i', w'. split; [exists n; intros fuel Hf; by rewrite (En fuel Hf)|done].
Qed.

Lemma next_runs n cw : (next L fetchSize n true cw).1 <> Err InvariantFailure -> runs (fun fuel => next L fetchSize fuel true) cw (next L fetchSize n true cw).
Proof.
  intros H. exists n. intros fuel Hf. unfold next, this, gets in *. unfold mbind at 1 in H. unfold mbind at 1 3. cbn [fst] in *. destruct (i_eof cw.1); [done|].
  unfold mbind in *. rewrite (updatePosition_more cw n fuel); [done|lia|]. destruct (_updatePosition fetchSize n cw) as [[[]|e] cw']; [done|]. cbn in *. congruence.
Qed.

Lemma walk_runs query inclusive n cw : (walk query inclusive n cw).1 <> Err InvariantFailure -> runs (walk query inclusive) cw (walk query inclusive n cw).
Proof.
  intros H. exists n. intros fuel Hf. unfold walk in *. unfold mbind in *. destruct (_seekCursor query inclusive cw) as [[[]|e] cw1]; [|done].
  rewrite (updatePosition_more cw1 n fuel); [done|lia|]. destruct (_updatePosition fetchSize n cw1) as [[[]|e] cw']; [done|]. cbn in *. congruence.
Qed.

Lemma seek_walk fuel key (inclusive : bool) query cw :
  resetToKey L (stripFieldNames key) (descending_of (_ordering (i_idx cw.1))) (if Bool.eqb (i_forward cw.1) inclusive then kExclusiveBefore else kExclusiveAfter) = Ok query ->
  seek L fetchSize fuel key inclusive true cw = walk query inclusive fuel cw.
Proof. intros E. unfold seek, this, gets. unfold mbind at 1 2. cbn [fst id]. unfold lift. by rewrite E. Qed.

Lemma seekPoint_walk fuel point key query cw : makeQueryObject point (i_forward cw.1) = Ok key ->
  resetToKey L key (descending_of (_ordering (i_idx cw.1))) (if i_forward cw.1 then kExclusiveBefore else kExclusiveAfter) = Ok query ->
  seekPoint L fetchSize fuel point true cw = walk query true fuel cw.
Proof. intros Ek E. unfold seekPoint, this, gets. unfold mbind at 1 2 3. cbn [fst id]. unfold lift. by rewrite Ek, E. Qed.

(** How a walk begins: at a key, or at a point of the planner's. *)
Inductive begins (q : ScanRequest) : option IndexKeyEntry -> EloqIndexCursor * World T -> Prop :=
| begins_seek i w key (inclusive : bool) query e cw : wf_world w -> i_idx i = idx ->
    resetToKey L (stripFieldNames key) (descending_of (_ordering idx)) (if Bool.eqb (i_forward i) inclusive then kExclusiveBefore else kExclusiveAfter) = Ok query ->
    q = seekRequest i query inclusive (w_isUpsert w) -> opens_over query inclusive (i, w) ->
    runs (fun fuel => seek L fetchSize fuel key inclusive true) (i, w) (Ok e, cw) -> begins q e cw
| begins_seekPoint i w point key query e cw : wf_world w -> i_idx i = idx -> makeQueryObject point (i_forward i) = Ok key ->
    resetToKey L key (descending_of (_ordering idx)) (if i_forward i then kExclusiveBefore else kExclusiveAfter) = Ok query ->
    q = seekRequest i query true (w_isUpsert w) -> opens_over query true (i, w) ->
    runs (fun fuel => seekPoint L fetchSize fuel point true) (i, w) (Ok e, cw) -> begins q e cw.

Lemma begins_standing q e cw : begins q e cw -> exists ks, standing q ks cw /\ Forall2 entry_at (option_list e) ks /\ (e = None -> i_eof cw.1 = true).
Proof.
  intros [i w key inclusive query e' cw' Hw Hidx Eq -> Hb Hr|i w point key query e' cw' Hw Hidx Ek Eq -> Hb Hr].
  - destruct (walk_standing query inclusive i w Hw Hidx Hb) as (r & i' & w' & Hr' & Hst).
    assert (runs (walk query inclusive) (i, w) (Ok e', cw')) as Hr2.
    { destruct Hr as [n Hn]. exists n. intros fuel Hf. rewrite <- (Hn fuel Hf). symmetry. apply seek_walk. cbn [fst]. by rewrite Hidx. }
    pose proof (runs_same _ _ _ _ Hr' Hr2) as [= -> <-]. done.
  - destruct (walk_standing query true i w Hw Hidx Hb) as (r & i' & w' & Hr' & Hst).
    assert (runs (walk query true) (i, w) (Ok e', cw')) as Hr2.
    { destruct Hr as [n Hn]. exists n. intros fuel Hf. rewrite <- (Hn fuel Hf). symmetry. apply (seekPoint_walk _ _ key); [done|]. cbn [fst]. by rewrite Hidx. }
    pose proof (runs_same _ _ _ _ Hr' Hr2) as [= -> <-]. done.
Qed.

(** The session of a cursor: it begins, moves on, is saved and restored, loses its scan when the transaction
    ends or it is moved to another operation, and other things happen in between. After a write conflict
    the snapshot is abandoned and the cursor restored, as the query executor does. *)
Inductive session (q : ScanRequest) : list IndexKeyEntry -> EloqIndexCursor * World T -> Prop :=
| s_begin e cw : begins q e cw -> session q (option_list e) cw
| s_next outs cw e cw' : session q outs cw -> i_eof cw.1 = true \/ scan_open cw -> between (rows (w_tx cw.2) (_indexName idx)) ->
    runs (fun fuel => next L fetchSize fuel true) cw (Ok e, cw') -> session q (outs ++ option_list e) cw'
| s_conflict outs cw e i w w' : session q outs cw -> scan_open cw -> between (rows (w_tx cw.2) (_indexName idx)) ->
    runs (fun fuel => next L fetchSize fuel true) cw (Err e, (i, w)) -> abandonSnapshot w = (Ok tt, w') -> session q outs (i, w')
| s_save outs cw cw' : session q outs cw -> save cw = (Ok tt, cw') -> session q outs cw'
| s_saveUnpositioned outs cw cw' : session q outs cw -> saveUnpositioned cw = (Ok tt, cw') -> session q outs cw'
| s_restore outs cw cw' : session q outs cw -> restore cw = (Ok tt, cw') -> session q outs cw'
| s_detach outs cw cw' : session q outs cw -> detachFromOperationContext cw = (Ok tt, cw') -> session q outs cw'
| s_reattach outs cw cw' : session q outs cw -> reattachToOperationContext cw = (Ok tt, cw') -> session q outs cw'
| s_abandon outs i w w' : session q outs (i, w) -> abandonSnapshot w = (Ok tt, w') -> session q outs (i, w')
| s_commit outs i w r w' : session q outs (i, w) -> commitUnitOfWork w = (r, w') -> r <> Err InvariantFailure -> session q outs (i, w')
| s_abort outs i w w' : session q outs (i, w) -> abortUnitOfWork w = (Ok tt, w') -> session q outs (i, w')
| s_others outs i w w' : session q outs (i, w) -> wf_world w' -> w_heap w' !! i_cursor i = w_heap w !! i_cursor i ->
    (forall k, w_heap w !! i_cursor i = Some k -> indexScanIsOpen k = true -> scans (w_tx w') !! _scanAlias k = scans (w_tx w) !! _scanAlias k) ->
    session q outs (i, w').

Lemma abandon_spec (w w' : World T) : wf_world w -> abandonSnapshot w = (Ok tt, w') -> wf_world w' /\ no_scans (w_heap w').
Proof.
  intros Hw E. unfold abandonSnapshot in E. unfold mbind at 1, ru, gets in E. destruct (_inUnitOfWork (w_ru w)); [done|]. unfold minvariant, lift in E. unfold mbind at 1 in E. cbn [negb uassert invariant] in E.
  destruct (closes false w Hw) as (err & w1 & He & Ec & Hw1 & Hn & _). rewrite He in Ec by done. unfold mbind, ru, gets in Ec, E. cbn in E.
  destruct (if _active (w_ru w) then _ else _) as [r w2] eqn:E2. injection Ec as -> ->. cbn in E. injection E as <-. split; [by apply wf_unit|done].
Qed.

Lemma end_unit_spec (w w' : World T) r : wf_world w -> (commitUnitOfWork w = (r, w') /\ r <> Err InvariantFailure) \/ (abortUnitOfWork w = (r, w') /\ r = Ok tt) ->
  wf_world w' /\ no_scans (w_heap w').
Proof.
  intros Hw H. set (w2 := set_ru (set_inUnitOfWork false (w_ru w)) w). assert (wf_world w2) as Hw2 by by apply wf_unit.
  destruct (_inUnitOfWork (w_ru w)) eqn:Hi.
  - assert (abortUnitOfWork w = _abort w2) as Ea by (unfold abortUnitOfWork, minvariant, mbind, ru, gets, lift; by rewrite Hi).
    assert (commitUnitOfWork w = _commit w2) as Ec by (unfold commitUnitOfWork, minvariant, mbind, ru, gets, lift; by rewrite Hi).
    rewrite Ea, Ec in H. destruct (_abort_spec w2 Hw2 eq_refl) as (wa & Ea' & (? & ? & _) & _), (_commit_spec w2 Hw2 eq_refl) as (rc & wc & Ec' & (? & ? & _) & _).
    rewrite Ea', Ec' in H. destruct H as [[[= <- <-] _]|[[= _ <-] _]]; done.
  - unfold abortUnitOfWork, commitUnitOfWork, minvariant, mbind, ru, gets, lift in H. rewrite Hi in H. cbn in H.
    destruct H as [[[= <- _] H]|[[= <- _] H]]; done.
Qed.

Lemma standing_attached q ks i w b : standing q ks (i, w) -> standing q ks (set_attached b i, w).
Proof. by intros []; constructor. Qed.

Lemma standing_reset q ks i w w' : standing q ks (i, w) -> resetCursor (i_cursor i) w = (Ok tt, w') -> standing q ks (i, w').
Proof.
  intros Hst E. destruct (resetCursor_spec w (i_cursor i) (st_wf _ _ _ Hst)) as (w1 & E1 & Hw1 & _ & Hn & _). rewrite E in E1. injection E1 as <-.
  apply (standing_closed q ks i w); [done|done|apply same_cursor_refl|done|done|]. intros k Hk. congruence.
Qed.

Lemma standing_no_scans q ks i w w' : standing q ks (i, w) -> wf_world w' -> no_scans (w_heap w') -> standing q ks (i, w').
Proof. intros Hst Hw Hn. apply (standing_closed q ks i w); [done|done|apply same_cursor_refl|done|done|]. intros k Hk. exact (Hn _ k Hk). Qed.

Lemma standing_others q ks i w w' : standing q ks (i, w) -> wf_world w' -> w_heap w' !! i_cursor i = w_heap w !! i_cursor i ->
  (forall k, w_heap w !! i_cursor i = Some k -> indexScanIsOpen k = true -> scans (w_tx w') !! _scanAlias k = scans (w_tx w) !! _scanAlias k) ->
  standing q ks (i, w').
Proof.
  intros [Hw Hidx Hpre Hreq Hv Hp Hs] Hw' Hh Hsc. constructor; cbn [fst snd] in *; try done. intros He k Hk Ho. rewrite Hh in Hk.
  destruct (Hs He k Hk Ho) as (q' & p' & sc & Hg & Hr & [O1 O2 O3 O4 O5 O6 O7 O8] & Hpe). exists q', p', sc. split; [done|]. split; [done|]. split; [|done].
  destruct (wf_open w' Hw' (i_cursor i) k) as (Hin & Ht & _); [by rewrite Hh|done|]. constructor; try done.
  - by rewrite Hh.
  - pose proof (wf_txm w' Hw') as Ha. destruct (_active (w_ru w')); [done|]. destruct Ha as [_ Ha]. set_solver.
  - by rewrite (Hsc k Hk Ho).
Qed.

Lemma next_at_end cw x : i_eof cw.1 = true -> runs (fun fuel => next L fetchSize fuel true) cw x -> x = (Ok None, cw).
Proof. intros He [n Hn]. rewrite <- (Hn (S n)) by lia. unfold next, this, gets, mbind. by rewrite He. Qed.

Lemma session_standing q outs cw : session q outs cw -> exists ks, standing q ks cw /\ Forall2 entry_at outs ks.
Proof.
  induction 1 as [e cw Hb|outs [i w] e cw' _ (ks & Hst & Hf) Ho Hb Hr|outs [i w] e i' w1 w' _ (ks & Hst & Hf) Ho Hb Hr Ea|outs cw cw' _ IH E|outs [i w] cw' _ (ks & Hst & Hf) E
    |outs [i w] cw' _ (ks & Hst & Hf) E|outs [i w] cw' _ (ks & Hst & Hf) E|outs [i w] cw' _ (ks & Hst & Hf) E|outs i w w' _ (ks & Hst & Hf) E|outs i w r w' _ (ks & Hst & Hf) E Hr
    |outs i w w' _ (ks & Hst & Hf) E|outs i w w' _ (ks & Hst & Hf) Hw' Hh Hsc].
  - destruct (begins_standing q e cw Hb) as (ks & ? & ? & _). eauto.
  - destruct (i_eof i) eqn:Ee.
    { apply next_at_end in Hr; [|done]. injection Hr as -> ->. rewrite app_nil_r. eauto. }
    destruct Ho as [Ho|Ho]; [by cbn in Ho; rewrite Ee in Ho|]. destruct (next_standing q ks i w Hst Ee Ho Hb) as (r & i' & w' & Hr' & _ & Hm).
    pose proof (runs_same _ _ _ _ Hr' Hr) as [= -> <-]. destruct Hm as (ks' & Hst' & Hf' & _). exists (ks ++ ks'). split; [done|by apply Forall2_app].
  - destruct (i_eof i) eqn:Ee; [by apply next_at_end in Hr|]. destruct (next_standing q ks i w Hst Ee Ho Hb) as (r & i2 & w2 & Hr' & _ & Hm).
    pose proof (runs_same _ _ _ _ Hr' Hr) as [= -> <- <-]. destruct Hm as (_ & Hw2 & Hsame & Heof & Hkey). destruct (abandon_spec _ _ Hw2 Ea) as [Hw' Hn].
    exists ks. split; [|done]. apply (standing_closed q ks i w); try done; [by rewrite Ee|]. intros k. apply Hn.
  - by injection E as <-.
  - exists ks. split; [|done]. unfold saveUnpositioned, mbind, this, gets, engine in E. cbn [fst snd] in E. destruct (resetCursor (i_cursor i) w) as [r w'] eqn:Er.
    injection E as -> <-. by apply (standing_reset q ks i w).
  - destruct (restore_standing q ks i w Hst) as (cw1 & E1 & Hst' & _). rewrite E in E1. injection E1 as <-. eauto.
  - exists ks. split; [|done]. unfold detachFromOperationContext, mbind, this, gets, engine, update, modify in E. cbn [fst snd] in E.
    destruct (resetCursor (i_cursor i) w) as [[[]|] w'] eqn:Er; [|done]. injection E as <-. by apply standing_attached, (standing_reset q ks i w).
  - injection E as <-. exists ks. split; [by apply standing_attached|done].
  - destruct (abandon_spec w w' (st_wf _ _ _ Hst) E). exists ks. split; [by apply (standing_no_scans q ks i w)|done].
  - destruct (end_unit_spec w w' r (st_wf _ _ _ Hst)) as [? ?]; [by left|]. exists ks. split; [by apply (standing_no_scans q ks i w)|done].
  - destruct (end_unit_spec w w' (Ok tt) (st_wf _ _ _ Hst)) as [? ?]; [by right|]. exists ks. split; [by apply (standing_no_scans q ks i w)|done].
  - exists ks. split; [by apply (standing_others q ks i w)|done].
Qed.



End Cursor.

(** ** Bounds, by the values they are made of *)

Section Bounds.
Context {T : TxService} (L : IntelDecimal).

(** The key of a row begins with the key of its values. *)
Lemma entry_row_key idx kd rid k r : entry_row L idx kd rid k r -> exists key s, resetToKey L kd (descending_of (_ordering idx)) kInclusive = Ok key /\ k = key ++ s.
Proof.
  intros (tb & H). assert (forall key tb', resetToKeyAndTypes L kd (descending_of (_ordering idx)) = Ok (key, tb') ->
    resetToKey L kd (descending_of (_ordering idx)) kInclusive = Ok key) as Hk.
  { intros key tb' E. unfold resetToKeyAndTypes in E. apply rbind_Ok in E as (key' & E & E'). apply rbind_Ok in E' as (x & _ & [= -> _]). done. }
  unfold KeyString_of, KeyString_of_entry in H. destruct (_type idx).
  - destruct H as [E _]. exists k, []. rewrite app_nil_r. split; [by eapply Hk|done].
  - destruct H as [E _]. exists k, []. rewrite app_nil_r. split; [by eapply Hk|done].
  - destruct H as [E _]. apply rbind_Ok in E as ([key tb'] & Ek & E). apply rbind_Ok in E as (s & _ & [= <- _]). exists key, s. split; [by eapply Hk|done].
Qed.

(** On which side of a bound an entry is that compares with it as [c], the bound on the left. *)
Definition within (forward inclusive : bool) (c : comparison) : bool :=
  match c with Eq => inclusive | Lt => forward | Gt => negb forward end.

Lemma compare_sides b k : bytes_ltb b k = (match KeyString_compare b k with Lt => true | _ => false end) /\
  bytes_ltb k b = (match KeyString_compare b k with Gt => true | _ => false end).
Proof. rewrite KeyString_compare_eq. unfold bytes_ltb. rewrite (bytes_compare_antisym b k). by destruct (bytes_compare b k). Qed.

(** A bound of a walk, as [seek] and [setEndPosition] make them. *)
Lemma bound_side o obj kd s D key b : sortable_key obj -> sortable_key kd -> nFields obj <= 32 -> (length obj <= length kd)%nat ->
  resetToKey L kd (descending_of o) kInclusive = Ok key -> resetToKey L obj (descending_of o) D = Ok b -> D <> kInclusive ->
  exists c, woCompare L obj (take (length obj) kd) o false None = Ok c /\
    KeyString_compare b (key ++ s) = (match c with Eq => match D with kExclusiveBefore => Lt | _ => Gt end | _ => c end).
Proof.
  intros H1 H2 H3 H4 Ek Eb HD. destruct (bounds_of L o obj kd s H1 H2 H3 H4) as (before & after & key' & c & E1 & E2 & E3 & Ec & Hb & Ha).
  rewrite Ek in E3. injection E3 as <-. exists c. split; [done|]. destruct D; [done|congruence|congruence].
Qed.

Lemma strip_length (d : Document) : length (stripFieldNames d) = length d.
Proof. unfold stripFieldNames. destruct (hasFieldNames d); [apply length_map|done]. Qed.

(** What [setEndPosition] leaves. *)
Lemma set_end_spec i (w : World T) endKey endInclusive i' w' : setEndPosition L endKey endInclusive (i, w) = (Ok tt, (i', w')) ->
  i_forward i' = i_forward i /\
  match endKey with
  | [] => i_endPosition i' = None
  | _ => exists e, resetToKey L (stripFieldNames endKey) (descending_of (_ordering (i_idx i))) (if Bool.eqb (i_forward i) endInclusive then kExclusiveAfter else kExclusiveBefore) = Ok e /\
           i_endPosition i' = Some e
  end.
Proof.
  unfold setEndPosition, mbind, this, gets, lift, update, modify. destruct endKey as [|e0 endKey]; cbn [fst snd id]; [by intros [= <- _]|].
  destruct (resetToKey L _ _ _) as [e|]; [|done]. intros [= <- _]. split; [done|]. by exists e.
Qed.

(** The range of a walk, by the order of the bytes. *)
Lemma range_of i query (inclusive up : bool) k : in_range (seekRequest i query inclusive up) k =
  (if i_forward i then if inclusive then negb (bytes_ltb k query) else bytes_ltb query k else if inclusive then negb (bytes_ltb query k) else bytes_ltb k query) &&
  (match i_endPosition i with Some e => if i_forward i then bytes_ltb k e else bytes_ltb e k | None => true end).
Proof.
  unfold in_range. cbn. destruct (i_forward i), inclusive, (i_endPosition i) as [e|]; unfold MongoKey.leb; cbn; rewrite ?andb_true_r; try done; apply andb_comm.
Qed.


End Bounds.

(** ** An index of two entries

    Two values of different types and their ids. The second batch of the scan fails with a conflict; the
    snapshot is abandoned, the cursor is restored, and goes on to the second entry and the end. *)

#[local] Transparent gmap_empty.

Definition ex_idx : EloqIndex := mkIndex (mkTableName (lit "t") Primary) (mkTableName (lit "t.a") Secondary) 0 STANDARD.
Definition ex_kd1 : Document := [([], BInt 7)].
Definition ex_kd2 : Document := [([], BString (lit "x"))].
Definition ex_rid1 : RecordId := kSmallStr (lit "i1").
Definition ex_rid2 : RecordId := kSmallStr (lit "i2").
Definition ex_entry_row (kd : Document) (rid : RecordId) : TableName * bytes * MongoRecord.t :=
  match KeyString_of_entry ref_library kd 0 rid with
  | Ok (k, tb) => (_indexName ex_idx, k, MongoRecord.setTypeBits tb MongoRecord.empty)
  | Err _ => (_indexName ex_idx, [], MongoRecord.empty)
  end.
Definition ex_rows : list (TableName * bytes * MongoRecord.t) := [ex_entry_row ex_kd2 ex_rid2; ex_entry_row ex_kd1 ex_rid1].

Definition ex_index_world : World MemTx :=
  mkWorld (T := MemTx) (mkMem ex_rows [] ∅ 0 [NO_ERROR; WRITE_WRITE_CONFLICT]) (mkUnit None false false false false false ∅ 0 None 0 [] ∅ ∅) ∅ 0 1 (OtherIsolation 0) false [].
Definition ex_cursor : EloqIndexCursor := mkIndexCursor ex_idx 1 true true [] TypeBits.reset kNull true None None 5 false [] 0 0.

Definition ex_query : bytes := [Byte.x01; Byte.x04].
Definition ex_request : ScanRequest := seekRequest ex_cursor ex_query true false.
Definition ex_at0 := (walk ref_library 10 ex_query true 30 (ex_cursor, ex_index_world)).2.
Definition ex_at1 := (next ref_library 10 30 true ex_at0).2.
Definition ex_at2 := (ex_at1.1, (abandonSnapshot ex_at1.2).2).
Definition ex_at3 := (restore ex_at2).2.
Definition ex_at4 := (next ref_library 10 30 true ex_at3).2.
Definition ex_at5 := (next ref_library 10 30 true ex_at4).2.

Definition ex_stays : Rows := mem_find ex_rows (_indexName ex_idx).
Definition ex_ever (k : bytes) (r : MongoRecord.t) : Prop := ex_stays k = Some r.

Lemma ex_rows_are_entries k r : ex_ever k r -> exists kd rid, good_entry ex_idx kd rid /\ entry_row ref_library ex_idx kd rid k r.
Proof.
  intros H. assert (forall kd rid, ex_entry_row kd rid = (_indexName ex_idx, k, r) -> (exists x, KeyString_of_entry ref_library kd 0 rid = Ok x) ->
    entry_row ref_library ex_idx kd rid k r) as He.
  { intros kd rid E [[k' tb] Ek]. unfold ex_entry_row in E. rewrite Ek in E. injection E as -> <-. by exists tb. }
  assert (ex_entry_row ex_kd1 ex_rid1 = (_indexName ex_idx, k, r) \/ ex_entry_row ex_kd2 ex_rid2 = (_indexName ex_idx, k, r)) as [E|E].
  { unfold ex_ever, ex_stays, ex_rows in H. destruct (ex_entry_row ex_kd1 ex_rid1) as [[n1 k1] r1] eqn:E1, (ex_entry_row ex_kd2 ex_rid2) as [[n2 k2] r2] eqn:E2.
    cbn [mem_find] in H. destruct (bool_decide (_ = n2)) eqn:B2; cbn [andb] in H.
    - destruct (bytes_eqb k k2) eqn:Ek; [apply bytes_eqb_eq in Ek as <-; apply bool_decide_eq_true in B2 as <-; injection H as <-; by right|].
      destruct (bool_decide (_ = n1)) eqn:B1; cbn [andb] in H; [|done].
      destruct (bytes_eqb k k1) eqn:Ek1; [apply bytes_eqb_eq in Ek1 as <-; apply bool_decide_eq_true in B1 as <-; injection H as <-; by left|done].
    - by vm_compute in E2, B2; injection E2 as <- _ _. }
  - exists ex_kd1, ex_rid1. split; [|apply He; [exact E|by eexists]]. by split_and!; [repeat constructor| | |].
  - exists ex_kd2, ex_rid2. split; [|apply He; [exact E|by eexists]]. by split_and!; [repeat constructor| | |].
Qed.

Lemma ex_between (w : World MemTx) : m_rows (w_tx w) = ex_rows -> between ex_stays ex_ever (rows (w_tx w) (_indexName ex_idx)).
Proof. intros E. cbn [rows MemLaws]. rewrite E. split; [eauto|done]. Qed.

Lemma ex_index_wf : wf_world ex_index_world.
Proof. apply no_scans_wf; [done..|]. intros c k Hk. cbn in Hk. by rewrite lookup_empty in Hk. Qed.

Definition ex_entry1 : IndexKeyEntry := mkEntry ex_kd1 ex_rid1 None.
Definition ex_entry2 : IndexKeyEntry := mkEntry ex_kd2 ex_rid2 None.

Lemma scan_open_b (cw : EloqIndexCursor * World MemTx) :
  match w_heap cw.2 !! i_cursor cw.1 with Some k => indexScanIsOpen k | None => false end = true -> scan_open cw.
Proof. unfold scan_open. destruct (_ !! _); [eauto|done]. Qed.

Lemma ex_session1 : session ref_library 10 ex_stays ex_ever ex_idx ex_request [ex_entry1] ex_at2.
Proof.
  assert ((walk ref_library 10 ex_query true 30 (ex_cursor, ex_index_world)).1 = Ok (Some ex_entry1)) as E0 by reflexivity.
  assert ((next ref_library 10 30 true ex_at0).1 = Err WriteConflict) as E1 by reflexivity.
  assert ((abandonSnapshot ex_at1.2).1 = Ok tt) as E2 by reflexivity.
  assert (session ref_library 10 ex_stays ex_ever ex_idx ex_request [ex_entry1] ex_at0) as H0.
  { apply (s_begin ref_library 10 ex_stays ex_ever ex_idx ex_request (Some ex_entry1)).
    apply (begins_seek ref_library 10 ex_stays ex_ever ex_idx ex_request ex_cursor ex_index_world [] true ex_query); try reflexivity.
    - apply ex_index_wf.
    - intros cw1 E. apply ex_between. pose proof (f_equal (fun x : _ * (_ * World MemTx) => m_rows (w_tx x.2.2)) E) as Er. cbn [snd] in Er. rewrite <- Er. reflexivity.
    - destruct (walk_runs ref_library 10 ex_query true 30 (ex_cursor, ex_index_world)) as [n Hn]; [by rewrite E0|]. exists n. intros fuel Hf.
      rewrite (seek_walk ref_library 10 fuel [] true ex_query) by reflexivity. rewrite (Hn fuel Hf). exact (pair_of _ _ E0). }
  apply (s_conflict ref_library 10 ex_stays ex_ever ex_idx ex_request [ex_entry1] ex_at0 WriteConflict ex_at1.1 ex_at1.2).
  - exact H0.
  - apply scan_open_b. reflexivity.
  - apply ex_between. reflexivity.
  - rewrite <- surjective_pairing. pose proof (next_runs ref_library 10 30 ex_at0) as Hr. rewrite (pair_of _ _ E1) in Hr. exact (Hr ltac:(discriminate)).
  - exact (pair_of _ _ E2).
Qed.

(** The session to its end. *)
Lemma ex_session : session ref_library 10 ex_stays ex_ever ex_idx ex_request [ex_entry1; ex_entry2] ex_at5.
Proof.
  assert ((restore ex_at2).1 = Ok tt) as E3 by reflexivity.
  assert ((next ref_library 10 30 true ex_at3).1 = Ok (Some ex_entry2)) as E4 by reflexivity.
  assert ((next ref_library 10 30 true ex_at4).1 = Ok None) as E5 by reflexivity.
  pose proof (s_restore ref_library 10 ex_stays ex_ever ex_idx ex_request [ex_entry1] ex_at2 ex_at3 ex_session1 (pair_of _ _ E3)) as H3.
  pose proof (next_runs ref_library 10 30 ex_at3) as R4. rewrite (pair_of _ _ E4) in R4. pose proof (next_runs ref_library 10 30 ex_at4) as R5. rewrite (pair_of _ _ E5) in R5.
  assert (session ref_library 10 ex_stays ex_ever ex_idx ex_request [ex_entry1; ex_entry2] ex_at4) as H4.
  { apply (s_next ref_library 10 ex_stays ex_ever ex_idx ex_request [ex_entry1] ex_at3 (Some ex_entry2) ex_at4 H3).
    - right. apply scan_open_b. reflexivity.
    - apply ex_between. reflexivity.
    - exact (R4 ltac:(discriminate)). }
  apply (s_next ref_library 10 ex_stays ex_ever ex_idx ex_request [ex_entry1; ex_entry2] ex_at4 None ex_at5 H4).
  - right. apply scan_open_b. reflexivity.
  - apply ex_between. reflexivity.
  - exact (R5 ltac:(discriminate)).
Qed.



(** The first entry is between 3, included, and the second's value, excluded. *)
Definition ex_start : bytes := match resetToKey ref_library [([], BInt 3)] (descending_of 0) kExclusiveBefore with Ok b => b | Err _ => [] end.
Definition ex_bounded : EloqIndexCursor := (setEndPosition ref_library ex_kd2 false (ex_cursor, ex_index_world)).2.1.

