(* ===== verification/RecordStore.v ===== *)
(** * Record stores and their cursors (eloq_record_store.{h,cpp})

    The documents of a collection, by the KeyString of their [_id]: point reads, inserts, updates and
    deletes, which also maintain the indexes being built, the check for duplicate ids before an insert, and
    the cursor over a collection. *)

From S2P Require Import Prelude Bytes Bson RawBson BsonBuilder Decimals BsonCompare KeyDecoder KeyString ByteOrder KeyOrder RecordId TypeBits KeyToBson.
From S2P Require Import MongoKey MongoRecord EloqUtil TableSchema TxService RecoveryUnit EloqIndex.
#[local] Open Scope Z_scope.

Record EloqRecordStore := mkRecordStore {
  rs_tableName : TableName;
  _isSystemViews : bool;
  _isCapped : bool;
  _cappedMaxSize : Z;
}.

(** [Record]: an id and data. *)
Record DocRecord := mkDoc { rec_id : RecordId; rec_data : bytes }.

(** A [BSONObj] on data that is none is undefined behaviour. *)
Definition viewObj (data : bytes) : result Document := match BSONObj data with Some d => Ok d | None => Err InvariantFailure end.

Section Store.
Context {T : TxService} (L : IntelDecimal) (failIndexKeyTooLong : bool).
#[local] Abbreviation Op := (M T).
#[local] Abbreviation Act := (M T Datatypes.unit).

Fixpoint foreach {A} (f : A -> Act) (l : list A) : Act :=
  match l with [] => mret tt | x :: l => let* _ := f x in foreach f l end.

(** ** Indexes being built *)

Definition makeKeyString (s : KeySchema) (id : RecordId) (key : Document) : result (bytes * TypeBits.t) :=
  if Unique s then KeyString_of L key (Ordering s) else KeyString_of_entry L key (Ordering s) id.

(** The keys a document brings: refused while a unique index is being built, or if it adds multikey paths. *)
Definition newKeysOf (s : KeySchema) (newDoc : option Document) : result (list Document) :=
  match newDoc with
  | None => Ok []
  | Some obj =>
      let! _ := uassert ConflictingOperationInProgress (negb (Unique s)) in
      let! (newKeys, multikeyPaths) := GetKeys s obj in
      let! _ := (if (1 <? length newKeys)%nat || IsMultiKeyFromPaths multikeyPaths
                 then uassert ConflictingOperationInProgress (IsMultiKey s && MultiKeyPaths.includes (MongoMultiKeyPaths s) multikeyPaths)
                 else Ok tt) in
      Ok newKeys
  end.

Definition oldKeysOf (s : KeySchema) (oldDoc : option Document) : result (list Document) :=
  match oldDoc with
  | None => Ok []
  | Some obj => let! (oldKeys, _) := GetKeys s obj in Ok oldKeys
  end.

Definition removeOldKey (indexName : TableName) (s : KeySchema) (id : RecordId) (newKeys : list Document) (key : Document) : Act :=
  let* kept := lift (inSet L key newKeys) in
  if kept : bool then mret tt
  else
    let* (ks, _) := lift (makeKeyString s id key) in
    let* err := setKV indexName (SchemaTs s) (MongoKey.of_KeyString ks) None Delete false in
    uassertTx err.

Definition writeNewKey (indexName : TableName) (s : KeySchema) (id : RecordId) (addOp : OperationType) (key : Document) : Act :=
  let* _ := (if failIndexKeyTooLong then lift (uassertStatusOK (checkKeySize key)) else mret tt) in
  let* (ks, typeBits) := lift (makeKeyString s id key) in
  let* err := setKV indexName (SchemaTs s) (MongoKey.of_KeyString ks) (Some (MongoRecord.setTypeBits typeBits MongoRecord.empty)) addOp false in
  uassertTx err.

Definition maintainIndex (id : RecordId) (oldDoc newDoc : option Document) (addOp : OperationType) (index : TableName * KeySchema) : Act :=
  let (indexName, keySchema) := index in
  let* newKeys := lift (newKeysOf keySchema newDoc) in
  let* oldKeys := lift (oldKeysOf keySchema oldDoc) in
  let* _ := foreach (removeOldKey indexName keySchema id newKeys) oldKeys in
  foreach (writeNewKey indexName keySchema id addOp) newKeys.

Definition maintainCreatingIndexes (table : DiscoveredTable) (id : RecordId) (oldDoc newDoc : option Document) (addOp : OperationType) : Act :=
  foreach (maintainIndex id oldDoc newDoc addOp) (_creatingIndexes table).

(** ** Documents *)

(** The version of a table's key: the feature document's table has none. *)
Definition keyVersion (table : DiscoveredTable) : result Z :=
  match key_schema_ (_schema table) with Some s => Ok (SchemaTs s) | None => Err InvariantFailure end.

Definition findRecord (rs : EloqRecordStore) (id : RecordId) : Op (option bytes) :=
  let* mongoKey := lift (MongoKey.of_RecordId id) in
  let* schema := getKeySchema (rs_tableName rs) in
  let* isForWrite := gets w_isUpsert in
  let* r := getKV (rs_tableName rs) (SchemaTs schema) mongoKey isForWrite in
  let* _ := uassertTx (pr_err r) in
  mret (if pr_exists r then Some (MongoRecord.encoded_blob (pr_record r)) else None).

Definition findRecordVersion (rs : EloqRecordStore) (id : RecordId) : Op (option (bytes * option Z)) :=
  let* mongoKey := lift (MongoKey.of_RecordId id) in
  let* schema := getKeySchema (rs_tableName rs) in
  let* r := getKV (rs_tableName rs) (SchemaTs schema) mongoKey false in
  let* _ := uassertTx (pr_err r) in
  mret (if pr_exists r then Some (MongoRecord.encoded_blob (pr_record r), pr_version r) else None).

(** [dataFor] requires that the document exists. *)
Definition dataFor (rs : EloqRecordStore) (id : RecordId) : Op bytes :=
  let* data := findRecord rs id in
  match data with Some d => mret d | None => mthrow InvariantFailure end.

(** The gate on changes of views. *)
Definition viewGate (rs : EloqRecordStore) : Op Status := if _isSystemViews rs then checkClusterGate else mret (Ok tt).

(** The document as it is stored, read for its keys if indexes are being built and the caller has no copy. *)
Definition preImage (rs : EloqRecordStore) (table : DiscoveredTable) (version : Z) (mongoKey : MongoKey.t) (doc : option Document)
  : Op (TxErrorCode * option Document) :=
  match doc, _creatingIndexes table with
  | None, _ :: _ =>
      let* r := getKV (rs_tableName rs) version mongoKey true in
      if negb (is_ok (pr_err r)) then mret (pr_err r, None)
      else if pr_exists r then let* obj := lift (viewObj (MongoRecord.encoded_blob (pr_record r))) in mret (NO_ERROR, Some obj)
      else mret (NO_ERROR, None)
  | _, _ => mret (NO_ERROR, doc)
  end.

(** [_deleteRecord]; [deleteRecord] passes no document, [deleteRecordWithPreImage] the one it has. *)
Definition _deleteRecord (rs : EloqRecordStore) (id : RecordId) (doc : option Document) : Act :=
  let* admitted := viewGate rs in
  let* _ := lift (uassertStatusOK admitted) in
  let* table := discoveredTable (rs_tableName rs) in
  let* mongoKey := lift (MongoKey.of_RecordId id) in
  let* version := lift (keyVersion table) in
  let* (err, doc) := preImage rs table version mongoKey doc in
  let* _ := uassertTx err in
  let* err := setKV (rs_tableName rs) version mongoKey None Delete false in
  let* _ := uassertTx err in
  match doc with
  | Some _ => maintainCreatingIndexes table id doc None Delete
  | None => mret tt
  end.

(** The key of a document's [_id], with its type bits. *)
Definition idKeyString (obj : Document) : result (bytes * TypeBits.t) :=
  let! idObj := getIdBSONObjWithoutFieldName obj in KeyString_of L idObj kIdOrdering.

(** The ids of the records to insert, and their keys. *)
Fixpoint batchEntries (datas : list bytes) : result (list (RecordId * bytes * TypeBits.t)) :=
  match datas with
  | [] => Ok []
  | data :: datas =>
      let! obj := viewObj data in
      let! (ks, typeBits) := idKeyString obj in
      let! id := RecordId_of_str ks in
      let! rest := batchEntries datas in
      Ok ((id, ks, typeBits) :: rest)
  end.

(** A [catch (const DBException&)] around the maintenance: its exceptions become a [Status]. *)
Definition maintained (m : Act) : Op Status := mcatch (let* _ := m in mret (Ok tt)) (fun e => mret (Err e)).

Fixpoint insertEach (rs : EloqRecordStore) (table : DiscoveredTable) (version : Z) (records : list (RecordId * bytes * TypeBits.t * bytes)) : Op Status :=
  match records with
  | [] => mret (Ok tt)
  | (id, ks, typeBits, data) :: records =>
      let mongoRecord := MongoRecord.setTypeBits typeBits (MongoRecord.SetEncodedBlob data MongoRecord.empty) in
      let* err := setKV (rs_tableName rs) version (MongoKey.of_KeyString ks) (Some mongoRecord) Insert true in
      if negb (is_ok err) then statusOf err
      else
        let* status := (match _creatingIndexes table with
                        | [] => mret (Ok tt)
                        | _ => maintained (let* obj := lift (viewObj data) in maintainCreatingIndexes table id None (Some obj) Insert)
                        end) in
        match status with
        | Ok _ => insertEach rs table version records
        | Err e => mret (Err e)
        end
  end.

(** The status, and the ids given to the records. *)
Definition _insertRecords (rs : EloqRecordStore) (datas : list bytes) : Op (Status * list RecordId) :=
  let* _ := minvariant (match datas with [] => false | _ => true end) in
  let totalLength := foldr (fun d n => blen d + n) 0 datas in
  if _isCapped rs && (_cappedMaxSize rs <? totalLength) then mret (Err BadValue, [])
  else
    let* admitted := viewGate rs in
    match admitted with
    | Err e => mret (Err e, [])
    | Ok _ =>
        let* table := discoveredTable (rs_tableName rs) in
        let* version := lift (keyVersion table) in
        let* entries := lift (batchEntries datas) in
        let* status := insertEach rs table version (zip entries datas) in
        mret (status, map (fun e => e.1.1) entries)
    end.

Definition insertRecord (rs : EloqRecordStore) (data : bytes) : Op (result RecordId) :=
  let* (status, ids) := _insertRecords rs [data] in
  match status, ids with
  | Ok _, [id] => mret (Ok id)
  | Ok _, _ => mthrow InvariantFailure
  | Err e, _ => mret (Err e)
  end.

(** The reads that tell whether the ids of a batch exist, or the status that ends the check before. *)
Fixpoint idBatch (datas : list bytes) (batchKeys : list Document) (tuples : list ScanBatchTuple) : result (list ScanBatchTuple + ErrorCode) :=
  match datas with
  | [] => Ok (inl tuples)
  | data :: datas =>
      let! obj := viewObj data in
      let! idObj := getIdBSONObjWithoutFieldName obj in
      match checkKeySize idObj with
      | Err e => Ok (inr e)
      | Ok _ =>
          let! dup := inSet L idObj batchKeys in
          if dup : bool then Ok (inr DuplicateKey)
          else
            let! (ks, _) := KeyString_of L idObj kIdOrdering in
            idBatch datas (idObj :: batchKeys) (tuples ++ [newTuple (MongoKey.of_KeyString ks)])
      end
  end.

Definition store_batchCheckDuplicateKey (rs : EloqRecordStore) (datas : list bytes) : Op Status :=
  match datas with
  | [] => mret (Ok tt)
  | _ =>
      let* batch := lift (idBatch datas [] []) in
      match batch with
      | inr e => mret (Err e)
      | inl tuples =>
          let* table := discoveredTable (rs_tableName rs) in
          let* version := lift (keyVersion table) in
          let* (tuples, err) := batchGetKV (rs_tableName rs) version tuples true false in
          if negb (is_ok err) then statusOf err else lift (anyNormal tuples)
      end
  end.

(** [_updateRecord]; [updateRecord] passes no old document. *)
Definition _updateRecord (rs : EloqRecordStore) (id : RecordId) (oldDoc : option Document) (data : bytes) : Op Status :=
  let* admitted := viewGate rs in
  match admitted with
  | Err e => mret (Err e)
  | Ok _ =>
      let* table := discoveredTable (rs_tableName rs) in
      let* mongoKey := lift (MongoKey.of_RecordId id) in
      let* version := lift (keyVersion table) in
      let* (err, oldDoc) := preImage rs table version mongoKey oldDoc in
      if negb (is_ok err) then statusOf err
      else
        let* recordObj := lift (viewObj data) in
        let* (_, typeBits) := lift (idKeyString recordObj) in
        let mongoRecord := MongoRecord.setTypeBits typeBits (MongoRecord.SetEncodedBlob data MongoRecord.empty) in
        let* err := setKV (rs_tableName rs) version mongoKey (Some mongoRecord) Update false in
        if negb (is_ok err) then statusOf err
        else match _creatingIndexes table with
             | [] => mret (Ok tt)
             | _ => maintained (maintainCreatingIndexes table id oldDoc (Some recordObj) Update)
             end
  end.

(** ** Cursors *)

(** [EloqRecordStoreCursor]; [_cursor] is the object at an address. *)
Record EloqRecordStoreCursor := mkRecordCursor {
  r_tableName : TableName;
  r_schemaTs : Z;
  r_forward : bool;
  r_attached : bool;
  r_eof : bool;
  r_lastMongoKey : option bytes;
  r_cursor : nat;
}.

#[local] Abbreviation ROp := (St (EloqRecordStoreCursor * World T)).
#[local] Abbreviation RAct := (St (EloqRecordStoreCursor * World T) Datatypes.unit).

Definition r_engine {A} (m : Op A) : ROp A := fun cw => let (r, w) := m cw.2 in (r, (cw.1, w)).
Definition r_this {A} (f : EloqRecordStoreCursor -> A) : ROp A := gets (fun cw => f cw.1).
Definition r_update (f : EloqRecordStoreCursor -> EloqRecordStoreCursor) : RAct := modify (fun cw => (f cw.1, cw.2)).

Definition set_r_eof (b : bool) (r : EloqRecordStoreCursor) : EloqRecordStoreCursor :=
  mkRecordCursor (r_tableName r) (r_schemaTs r) (r_forward r) (r_attached r) b (r_lastMongoKey r) (r_cursor r).
Definition set_r_last (k : option bytes) (r : EloqRecordStoreCursor) : EloqRecordStoreCursor :=
  mkRecordCursor (r_tableName r) (r_schemaTs r) (r_forward r) (r_attached r) (r_eof r) k (r_cursor r).
Definition set_r_attached (b : bool) (r : EloqRecordStoreCursor) : EloqRecordStoreCursor :=
  mkRecordCursor (r_tableName r) (r_schemaTs r) (r_forward r) b (r_eof r) (r_lastMongoKey r) (r_cursor r).

Definition newRecordCursor (rs : EloqRecordStore) (forward : bool) (c : nat) : Op EloqRecordStoreCursor :=
  let* schema := getKeySchema (rs_tableName rs) in
  mret (mkRecordCursor (rs_tableName rs) (SchemaTs schema) forward true false None c).

(** The scan from the last key on, without it, or over the whole table. *)
Definition r_request (r : EloqRecordStoreCursor) (isUpsert : bool) : ScanRequest :=
  mkScan (r_tableName r) (r_schemaTs r) true
    (match r_lastMongoKey r with Some k => MongoKey.key k | None => if r_forward r then MongoKey.neg_inf else MongoKey.pos_inf end) false
    (if r_forward r then MongoKey.pos_inf else MongoKey.neg_inf) false (r_forward r) isUpsert.

Definition r_seekCursor : RAct :=
  let* r := r_this id in
  let* isUpsert := r_engine (gets w_isUpsert) in
  r_engine (let* _ := emplaceCursor (r_cursor r) in indexScanOpen (r_cursor r) (r_request r isUpsert) false).

(** Whether the cursor holds a scan that is open. *)
Definition r_isOpen : ROp bool :=
  let* c := r_this r_cursor in
  r_engine (gets (fun w => match w_heap w !! c with Some k => indexScanIsOpen k | None => false end)).

Definition r_next (fuel : nat) : ROp (option DocRecord) :=
  let* r := r_this id in
  if r_eof r then mret None
  else
    let* opened := r_isOpen in
    let* _ := (if opened : bool then mret tt else r_seekCursor) in
    let* txErr := r_engine (nextBatchTuple fuel (r_cursor r)) in
    let* _ := r_engine (uassertTx txErr) in
    let* scanTuple := r_engine (currentBatchTuple (r_cursor r)) in
    match scanTuple with
    | None => let* _ := r_update (set_r_eof true) in mret None
    | Some tuple =>
        let* id := lift (MongoKey.ToRecordId (key_ tuple) false) in
        mret (Some (mkDoc id (MongoRecord.encoded_blob (record_ tuple))))
    end.

Definition r_seekExact (id : RecordId) : ROp (option DocRecord) :=
  let* r := r_this (fun r => r) in
  let* _ := r_engine (resetCursor (r_cursor r)) in
  let* pkey := lift (MongoKey.of_RecordId id) in
  let* isForWrite := r_engine (gets w_isUpsert) in
  let* a := r_engine (getKV (r_tableName r) (r_schemaTs r) pkey isForWrite) in
  let* _ := r_engine (uassertTx (pr_err a)) in
  if pr_exists a then
    let* _ := r_update (set_r_last (Some (MongoKey.packed_key pkey))) in
    mret (Some (mkDoc id (MongoRecord.encoded_blob (pr_record a))))
  else mret None.

(** [save]: the key of the current tuple is remembered, if there is one. *)
Definition r_save : RAct :=
  let* r := r_this id in
  if r_eof r then mret tt
  else
    let* held := r_engine (gets (fun w => match w_heap w !! r_cursor r with Some _ => true | None => false end)) in
    if held : bool then
      let* scanTuple := r_engine (currentBatchTuple (r_cursor r)) in
      match scanTuple with
      | Some tuple => r_update (set_r_last (Some (tuple_key tuple)))
      | None => mret tt
      end
    else mret tt.

Definition r_saveUnpositioned : RAct :=
  let* _ := r_save in
  let* c := r_this r_cursor in
  r_engine (resetCursor c).

Definition r_restore : ROp bool := mret true.

Definition r_detachFromOperationContext : RAct :=
  let* c := r_this r_cursor in
  let* _ := r_engine (resetCursor c) in
  r_update (set_r_attached false).

Definition r_reattachToOperationContext : RAct := r_update (set_r_attached true).

(** [validate]: every document of the collection is looked at by [adaptor], which answers whether it is
    valid and how much of it it read; the cursor ends with the call. *)
Record Validation := mkValidation { v_nrecords : Z; v_dataSizeTotal : Z; v_nInvalid : Z; v_valid : bool }.

Section Validate.
Context (adaptor : RecordId -> bytes -> Status * Z).

Definition validateOne (d : DocRecord) (v : Validation) : Validation :=
  let dataSize := blen (rec_data d) in
  let (status, validatedSize) := adaptor (rec_id d) (rec_data d) in
  let bad := (match status with Ok _ => false | Err _ => true end) || negb (validatedSize =? dataSize) in
  mkValidation (v_nrecords v + 1) (v_dataSizeTotal v + dataSize) (if bad then v_nInvalid v + 1 else v_nInvalid v) (v_valid v && negb bad).

Fixpoint validate_loop (fuel n : nat) (v : Validation) : ROp Validation :=
  match n with
  | 0%nat => mthrow InvariantFailure
  | S n =>
      let* record := r_next fuel in
      match record with
      | None => mret v
      | Some d => validate_loop fuel n (validateOne d v)
      end
  end.

Definition validate (rs : EloqRecordStore) (c fuel n : nat) : Op (Status * Validation) :=
  mcatch (let* r := newRecordCursor rs true c in
          fun w => let (v, cw) := validate_loop fuel n (mkValidation 0 0 0 true) (r, w) in
                   let (closed, w) := resetCursor c cw.2 in
                   (let! _ := closed in let! v := v in Ok (Ok tt, v), w))
    (fun e => mret (Err e, mkValidation 0 0 0 false)).

End Validate.

End Store.
