(* ===== verification/StoreRows.v ===== *)
(** * What record stores and indexes being built hold

    Against the contract of the transaction service's reads and writes: a record store is a map from ids to
    documents, and an index being built is kept up to date by the writes of documents with the entries the
    build itself would make of them. *)

From S2P Require Import Prelude Bytes Bson RawBson BsonBuilder Decimals BsonCompare KeyDecoder KeyString KeyRoundTrip ByteOrder KeyOrder RecordId.
From S2P Require Import TypeBits KeyToBson MongoKey MongoRecord EloqUtil TableSchema TxService MemTx RecoveryUnit UnitOfWork PointReads EloqIndex RecordStore.
#[local] Open Scope Z_scope.

(** ** Writes *)

(** Rows after writes to the table [n], in order. *)
Definition write (n : TableName) (r : TableName -> Rows) (kv : bytes * option MongoRecord.t) : TableName -> Rows :=
  fun n' k' => if bool_decide (n' = n /\ k' = kv.1) then kv.2 else r n' k'.
Definition writes (n : TableName) (kvs : list (bytes * option MongoRecord.t)) (r : TableName -> Rows) : TableName -> Rows := foldl (write n) r kvs.

(** The last value written. *)
Fixpoint written (kvs : list (bytes * option MongoRecord.t)) (k : bytes) : option (option MongoRecord.t) :=
  match kvs with
  | [] => None
  | (k', v) :: kvs => match written kvs k with Some v' => Some v' | None => if bool_decide (k = k') then Some v else None end
  end.

Lemma writes_app n a b r : writes n (a ++ b) r = writes n b (writes n a r).
Proof. apply foldl_app. Qed.

Lemma writes_at n kvs : forall r n' k', writes n kvs r n' k' = if bool_decide (n' = n) then default (r n' k') (written kvs k') else r n' k'.
Proof.
  induction kvs as [|[k v] kvs IH]; intros r n' k'; [by case_bool_decide|]. unfold writes in *. cbn [foldl written]. rewrite IH. unfold write. cbn [fst snd].
  destruct (decide (n' = n)) as [->|Hn].
  - rewrite (bool_decide_true (n = n)) by done. destruct (written kvs k') as [v'|]; [done|]. cbn. destruct (decide (k' = k)) as [->|Hk].
    + by rewrite !bool_decide_true.
    + by rewrite !bool_decide_false by naive_solver.
  - by rewrite !bool_decide_false by naive_solver.
Qed.

Section Writes.
Context {T : TxService} `{!TxLaws T} `{!KvLaws T}.

(** What an operation within the transaction leaves alone: all but the transaction service's rows. *)
Record inside (w w' : World T) : Prop := {
  in_ru : w_ru w' = w_ru w;
  in_heap : w_heap w' = w_heap w;
  in_scans : scans (w_tx w') = scans (w_tx w);
  in_upsert : w_isUpsert w' = w_isUpsert w;
}.

Lemma inside_refl w : inside w w.
Proof. done. Qed.

Lemma inside_trans w1 w2 w3 : inside w1 w2 -> inside w2 w3 -> inside w1 w3.
Proof. intros [] []. constructor; congruence. Qed.

Lemma inside_tx s w : scans s = scans (w_tx w) -> inside w (set_tx s w).
Proof. done. Qed.

(** A write of an open transaction. *)
Lemma setKV_spec n v k r op unique w : wf_world w -> _active (w_ru w) = true ->
  exists err s', setKV n v (MongoKey.key k) r op unique w = (Ok err, set_tx s' w) /\
    (err = NO_ERROR -> inside w (set_tx s' w) /\ (unique = true -> r <> None -> rows (w_tx w) n k = None) /\
       forall n' k', rows s' n' k' = write n (rows (w_tx w)) (k, r) n' k').
Proof.
  intros Hw Ha. destruct (getTxm_spec w Hw) as (w1 & t & E & _ & _ & _ & Ht & _ & _ & Hs & _). rewrite (Hs Ha) in *. unfold setKV, mbind, ru, gets. rewrite E, execute_ok by done.
  destruct (TxUpsert T n v (MongoKey.key k) r op unique (w_tx w)) as [err s'] eqn:Eu. exists err, s'. split; [done|]. intros ->.
  destruct (upsert_law _ _ _ _ _ _ _ _ Eu) as (Hsc & Hu & Hr). split_and!; [by apply inside_tx|done|exact Hr].
Qed.

Lemma wf_inside (w w' : World T) : inside w w' -> wf_world w -> wf_world w'.
Proof. intros [Hru Hh _ _] []. by constructor; rewrite ?Hru, ?Hh. Qed.

(** A write that throws what is no success. *)
Lemma setKV_thrown n v k r op w w' : wf_world w -> _active (w_ru w) = true ->
  (let* err := setKV n v (MongoKey.key k) r op false in uassertTx err) w = (Ok tt, w') ->
  inside w w' /\ forall n' k', rows (w_tx w') n' k' = write n (rows (w_tx w)) (k, r) n' k'.
Proof.
  intros Hw Ha. destruct (setKV_spec n v k r op false w Hw Ha) as (err & s' & E & H). unfold mbind. rewrite E. unfold uassertTx, lift. intros [= Eo <-].
  assert (err = NO_ERROR) as -> by (destruct err; done). destruct (H eq_refl) as (? & _ & ?). done.
Qed.

End Writes.

(** ** Indexes being built *)

Section Maintenance.
Context {T : TxService} `{!TxLaws T} `{!KvLaws T} (L : IntelDecimal) (failIndexKeyTooLong : bool).

(** The operation, when it succeeds, writes [kvs] to the table [n] and does nothing else. *)
Definition does (n : TableName) (kvs : list (bytes * option MongoRecord.t)) (w w' : World T) : Prop :=
  inside w w' /\ forall n' k', rows (w_tx w') n' k' = writes n kvs (rows (w_tx w)) n' k'.

Lemma does_nothing n w : does n [] w w.
Proof. by split. Qed.

Lemma does_app n a b w1 w2 w3 : does n a w1 w2 -> does n b w2 w3 -> does n (a ++ b) w1 w3.
Proof.
  intros [H1 R1] [H2 R2]. split; [by eapply inside_trans|]. intros n' k'. rewrite R2, writes_app, !(writes_at _ b). by rewrite R1.
Qed.

Lemma foreach_does {A} n (P : A -> list (bytes * option MongoRecord.t) -> Prop) (f : A -> M T Datatypes.unit) :
  (forall x w w', wf_world w -> _active (w_ru w) = true -> f x w = (Ok tt, w') -> exists kvs, P x kvs /\ does n kvs w w') ->
  forall l w w', wf_world w -> _active (w_ru w) = true -> foreach f l w = (Ok tt, w') -> exists kvss, Forall2 P l kvss /\ does n (concat kvss) w w'.
Proof.
  intros Hf. induction l as [|x l IH]; intros w w' Hw Ha; cbn [foreach].
  - intros [= <-]. exists []. split; [constructor|apply does_nothing].
  - unfold mbind. destruct (f x w) as [[[]|] w1] eqn:E; [|done]. intros E'. destruct (Hf x w w1 Hw Ha E) as (kvs & HP & Hd). pose proof (proj1 Hd) as Hi.
    destruct (IH w1 w' (wf_inside _ _ Hi Hw) ltac:(by rewrite (in_ru _ _ Hi)) E') as (kvss & HPs & Hds). exists (kvs :: kvss). split; [by constructor|].
    cbn. by eapply does_app.
Qed.

Lemma writeNewKey_does n s id addOp key w w' : wf_world w -> _active (w_ru w) = true -> writeNewKey L failIndexKeyTooLong n s id addOp key w = (Ok tt, w') ->
  exists kvs, (exists ks tb, makeKeyString L s id key = Ok (ks, tb) /\ (failIndexKeyTooLong = true -> checkKeySize key = Ok tt) /\
    kvs = [(ks, Some (MongoRecord.setTypeBits tb MongoRecord.empty))]) /\ does n kvs w w'.
Proof.
  intros Hw Ha E. assert ((failIndexKeyTooLong = true -> checkKeySize key = Ok tt) /\ exists ks tb, makeKeyString L s id key = Ok (ks, tb) /\
    (let* err := setKV n (SchemaTs s) (MongoKey.key ks) (Some (MongoRecord.setTypeBits tb MongoRecord.empty)) addOp false in uassertTx err) w = (Ok tt, w')) as (Hc & ks & tb & Ek & E').
  { unfold writeNewKey, lift, uassertStatusOK in E. unfold mbind at 1 2 in E. destruct failIndexKeyTooLong.
    - destruct (checkKeySize key) as [[]|]; [|done]. split; [done|]. destruct (makeKeyString L s id key) as [[ks tb]|]; [|done]. by exists ks, tb.
    - split; [done|]. cbn [mret] in E. destruct (makeKeyString L s id key) as [[ks tb]|]; [|done]. by exists ks, tb. }
  exists [(ks, Some (MongoRecord.setTypeBits tb MongoRecord.empty))]. split; [by exists ks, tb|]. by apply (setKV_thrown _ (SchemaTs s) _ _ addOp).
Qed.

Lemma removeOldKey_does n s id newKeys key w w' : wf_world w -> _active (w_ru w) = true -> removeOldKey L n s id newKeys key w = (Ok tt, w') ->
  exists kvs, ((inSet L key newKeys = Ok true /\ kvs = []) \/ exists ks tb, makeKeyString L s id key = Ok (ks, tb) /\ kvs = [(ks, None)]) /\ does n kvs w w'.
Proof.
  intros Hw Ha. unfold removeOldKey. unfold mbind at 1, lift. destruct (inSet L key newKeys) as [[]|]; [| |done].
  - intros [= <-]. exists []. split; [by left|apply does_nothing].
  - unfold mbind at 1. destruct (makeKeyString L s id key) as [[ks tb]|] eqn:Ek; [|done]. intros E. exists [(ks, None)]. split; [right; by exists ks, tb|].
    by apply (setKV_thrown _ (SchemaTs s) _ _ Delete).
Qed.

End Maintenance.

(** ** Keys of a set that are equal *)

Section EqualKeys.
Context (L : IntelDecimal).

Lemma equal_bound d obj : forall obj' i, Forall (fun e => e.1 = []) obj -> Forall (fun e => e.1 = []) obj' ->
  compareObjects L obj obj' [] true None = Ok Eq -> woCompareBound L kInclusive obj obj' i d = Ok Eq.
Proof.
  induction obj as [|[n v] obj IH]; intros [|[n' v'] obj'] i Hn Hn'; cbn [compareObjects woCompareBound]; try done.
  apply Forall_cons in Hn as [E Hn], Hn' as [E' Hn']. cbn in E, E'. subst n n'.
  change (woCompareElement L ([], v) ([], v') true None) with (woCompareElement L ([], v) ([], v') false None). destruct (woCompareElement L ([], v) ([], v') false None) as [[]|]; cbn [rbind tail]; try done.
  intros E. rewrite (IH obj' (i + 1) Hn Hn' E). by destruct (d i).
Qed.

(** Keys that are equal as values have one KeyString. *)
Lemma equal_keys o a b : sortable_key a -> sortable_key b -> compareObjects L a b [] true None = Ok Eq ->
  exists key, resetToKey L a (descending_of o) kInclusive = Ok key /\ resetToKey L b (descending_of o) kInclusive = Ok key.
Proof.
  intros Ha Hb E. destruct (elements_order L kInclusive a Ha b 0 (descending_of o) Hb) as (key & key' & Ek & Ek' & Ec). specialize (Ec [] ltac:(done)). rewrite app_nil_r in Ec.
  rewrite (equal_bound (descending_of o) a b 0) in Ec; [|eapply Forall_impl; [exact Ha|]; by intros ? []|eapply Forall_impl; [exact Hb|]; by intros ? []|done]. injection Ec as Ec. symmetry in Ec. apply bytes_compare_eq in Ec as ->.
  by exists key'.
Qed.

Lemma inSet_true key set : inSet L key set = Ok true -> exists key', key' ∈ set /\ compareObjects L key key' [] true None = Ok Eq.
Proof.
  induction set as [|k set IH]; cbn [inSet]; [done|]. unfold sameObj. destruct (compareObjects L key k [] true None) as [c|] eqn:E; [|done]. cbn [rbind]. destruct c.
  - intros _. exists k. split; [left|done].
  - intros H. destruct (IH H) as (k' & ? & ?). exists k'. split; [by right|done].
  - intros H. destruct (IH H) as (k' & ? & ?). exists k'. split; [by right|done].
Qed.

Lemma types_key obj d ks tb : resetToKeyAndTypes L obj d = Ok (ks, tb) -> resetToKey L obj d kInclusive = Ok ks.
Proof. unfold resetToKeyAndTypes. intros E. apply rbind_Ok in E as (k & Ek & E). by apply rbind_Ok in E as (x & _ & [= -> _]). Qed.

Lemma makeKeyString_equal s id a b ks ks' tb tb' : sortable_key a -> sortable_key b -> compareObjects L a b [] true None = Ok Eq ->
  makeKeyString L s id a = Ok (ks, tb) -> makeKeyString L s id b = Ok (ks', tb') -> ks = ks'.
Proof.
  intros Ha Hb E. destruct (equal_keys (Ordering s) a b Ha Hb E) as (key & Ea & Eb). unfold makeKeyString, KeyString_of, KeyString_of_entry. destruct (Unique s).
  - intros H1%types_key H2%types_key. congruence.
  - intros H1 H2. apply rbind_Ok in H1 as ([k1 t1] & E1%types_key & H1). apply rbind_Ok in H2 as ([k2 t2] & E2%types_key & H2). rewrite Ea in E1. rewrite Eb in E2.
    injection E1 as <-. injection E2 as <-. apply rbind_Ok in H1 as (r & Er & [= <- _]). apply rbind_Ok in H2 as (r' & Er' & [= <- _]). congruence.
Qed.

End EqualKeys.

(** ** An index under construction is kept up *)

Section KeptUp.
Context {T : TxService} `{!TxLaws T} `{!KvLaws T} (L : IntelDecimal) (failIndexKeyTooLong : bool).

(** The entry of a key: its KeyString and its record. *)
Definition entryOf (s : KeySchema) (id : RecordId) (key : Document) : result (bytes * MongoRecord.t) :=
  let! (ks, tb) := makeKeyString L s id key in Ok (ks, MongoRecord.setTypeBits tb MongoRecord.empty).

Definition puts (entries : list (bytes * MongoRecord.t)) : list (bytes * option MongoRecord.t) := map (fun e => (e.1, Some e.2)) entries.

Lemma new_entries s id newKeys kvss :
  Forall2 (fun key kvs => exists ks tb, makeKeyString L s id key = Ok (ks, tb) /\ (failIndexKeyTooLong = true -> checkKeySize key = Ok tt) /\
    kvs = [(ks, Some (MongoRecord.setTypeBits tb MongoRecord.empty))]) newKeys kvss ->
  exists entries, collect (entryOf s id) newKeys = Ok entries /\ concat kvss = puts entries.
Proof.
  induction 1 as [|key kvs newKeys kvss (ks & tb & Ek & _ & ->) _ (entries & Ee & Ec)]; [by exists []|]. exists ((ks, MongoRecord.setTypeBits tb MongoRecord.empty) :: entries).
  cbn [collect concat app]. unfold entryOf at 1. rewrite Ek. cbn [rbind]. rewrite Ee, Ec. done.
Qed.

Lemma written_app a b k : written (a ++ b) k = match written b k with Some v => Some v | None => written a k end.
Proof. induction a as [|[k' v] a IH]; cbn; [by destruct (written b k)|]. rewrite IH. by destruct (written b k). Qed.

Lemma written_puts entries k : written (puts entries) k <> None <-> exists r, (k, r) ∈ entries.
Proof.
  induction entries as [|[k' r'] entries IH]; cbn [puts map written fst snd]; [split; [done|by intros [? ?%not_elem_of_nil]]|]. fold (puts entries).
  destruct (written (puts entries) k) as [v|] eqn:E.
  - split; [|done]. intros _. destruct (proj1 IH ltac:(done)) as [r Hr]. exists r. by right.
  - case_bool_decide as Hk; [subst; split; [intros _; exists r'; by left|done]|]. split; [done|]. intros [r [[= -> _]|Hr]%elem_of_cons]; [done|]. apply IH. eauto.
Qed.

(** What is removed: keys of the old document, of which those not removed are the new one's too. *)
Lemma removed_keys s id newKeys oldKeys kvss entries : Forall sortable_key newKeys -> Forall sortable_key oldKeys -> collect (entryOf s id) newKeys = Ok entries ->
  Forall2 (fun key kvs => (inSet L key newKeys = Ok true /\ kvs = []) \/ exists ks tb, makeKeyString L s id key = Ok (ks, tb) /\ kvs = [(ks, None)]) oldKeys kvss ->
  (forall k v, written (concat kvss) k = Some v -> v = None /\ exists key tb, key ∈ oldKeys /\ makeKeyString L s id key = Ok (k, tb)) /\
  (forall key k tb, key ∈ oldKeys -> makeKeyString L s id key = Ok (k, tb) -> written (puts entries) k <> None \/ written (concat kvss) k <> None).
Proof.
  intros Hn Ho Ee H. induction H as [|key kvs oldKeys kvss Hkey _ IH]; [split; [done|by intros ??? ?%not_elem_of_nil]|]. apply Forall_cons in Ho as [Hkey' Ho]. destruct (IH Ho) as [IH1 IH2].
  cbn [concat]. split.
  - intros k v. rewrite written_app. destruct (written (concat kvss) k) as [v'|] eqn:Ew.
    + intros [= <-]. destruct (IH1 k v' Ew) as (-> & key0 & tb & Hin & E). split; [done|]. exists key0, tb. split; [by right|done].
    + destruct Hkey as [[_ ->]|(ks & tb & Ek & ->)]; [done|]. cbn. case_bool_decide; [|done]. intros [= <-]. split; [done|]. exists key, tb. subst k. split; [by left|done].
  - intros key0 k tb [->|Hin]%elem_of_cons Ek0.
    + destruct Hkey as [[Hs _]|(ks & tb' & Ek & ->)].
      * left. apply written_puts. destruct (inSet_true L key newKeys Hs) as (key' & Hin' & Eq). rewrite Forall_forall in Hn.
        assert (exists ks' r, (ks', r) ∈ entries /\ exists tb', makeKeyString L s id key' = Ok (ks', tb')) as (ks' & r & Hr & tb' & Ek').
        { clear -Ee Hin'. revert entries Ee. induction newKeys as [|x newKeys IHn]; [by apply not_elem_of_nil in Hin'|]. intros entries Ee. cbn [collect] in Ee.
          apply rbind_Ok in Ee as ([ks r] & E1 & Ee). apply rbind_Ok in Ee as (rest & E2 & [= <-]). apply elem_of_cons in Hin' as [->|Hin'].
          - unfold entryOf in E1. apply rbind_Ok in E1 as ([ks0 tb0] & E1 & [= -> <-]). eexists ks, _. split; [left|eauto].
          - destruct (IHn Hin' rest E2) as (ks' & r' & Hr & H). exists ks', r'. split; [by right|done]. }
        exists r. by rewrite (makeKeyString_equal L s id key key' k ks' tb tb' Hkey' (Hn _ Hin') Eq Ek0 Ek').
      * right. rewrite Ek0 in Ek. injection Ek as <- <-. rewrite written_app. destruct (written (concat kvss) k); [done|]. cbn. by rewrite bool_decide_true.
    + destruct (IH2 key0 k tb Hin Ek0) as [|Hw]; [by left|]. right. rewrite written_app. by destruct (written (concat kvss) k).
Qed.

(** The keys the build takes out of a document. *)
Lemma generated_keys s pk record e skeys e' obj keys paths : BSONObj (MongoRecord.encoded_blob record) = Some obj -> GetKeys s obj = Ok (keys, paths) ->
  GenerateBSONKeys L s failIndexKeyTooLong pk record e = Ok (skeys, e') -> skeys = None \/ skeys = Some keys.
Proof.
  intros Hobj Hk Eg. unfold GenerateBSONKeys in Eg. rewrite Hobj in Eg. apply rbind_Ok in Eg as (rid & _ & Eg). apply rbind_Ok in Eg as (ido & _ & Eg).
  apply rbind_Ok in Eg as ([ks tb] & _ & Eg). apply rbind_Ok in Eg as (rid' & _ & Eg). apply rbind_Ok in Eg as (c & _ & Eg). apply rbind_Ok in Eg as ([] & _ & Eg).
  rewrite Hk in Eg. cbn [rbind] in Eg. apply rbind_Ok in Eg as (r & Er & Eg). destruct r as [[skeys' e1]|code]; [|injection Eg as <- _; by left].
  injection Eg as <- _. right. f_equal. unfold caught in Er. destruct (rbind _ _) as [[k1 e2]|err] eqn:E in Er; [|by destruct err].
  injection Er as -> ->. apply rbind_Ok in E as ([] & _ & E). by apply rbind_Ok in E as (e3 & _ & [= -> _]).
Qed.

Lemma collect_map {A B C} (f : A -> result B) (g : A -> result C) (h : B -> C) l bs : (forall x, g x = let! b := f x in Ok (h b)) -> collect f l = Ok bs -> collect g l = Ok (map h bs).
Proof.
  intros Hg. revert bs. induction l as [|x l IH]; intros bs; cbn [collect]; [by intros [= <-]|]. intros E. apply rbind_Ok in E as (b & Eb & E). apply rbind_Ok in E as (bs' & Ebs & [= <-]).
  rewrite Hg, Eb. cbn [rbind]. by rewrite (IH bs' Ebs).
Qed.

(** The entries it makes of them. *)
Lemma built_entries s pk record ts e cnt ents e' id obj keys paths entries : Unique s = false ->
  MongoStandardSkEncoder L s failIndexKeyTooLong pk record ts [] e = Ok (cnt, ents, e') -> cnt <> -1 ->
  GenerateRecordID pk = Ok id -> BSONObj (MongoRecord.encoded_blob record) = Some obj -> GetKeys s obj = Ok (keys, paths) ->
  collect (entryOf s id) keys = Ok entries -> ents = map (fun e => (MongoKey.key e.1, e.2, ts)) entries.
Proof.
  intros Hu E Hc Hid Hobj Hk He. unfold MongoStandardSkEncoder, AppendPackedSk in E. apply rbind_Ok in E as ([skeys e1] & Eg & E).
  destruct (generated_keys s pk record e skeys e1 obj keys paths Hobj Hk Eg) as [->| ->]; [by injection E as <-|].
  assert (forall key, standardEntry L s id key = let! b := entryOf s id key in Ok (MongoKey.key b.1, b.2)) as Hsame.
  { intros key. unfold standardEntry, entryOf, makeKeyString. rewrite Hu. by destruct (KeyString_of_entry L key (Ordering s) id) as [[ks tb]|]. }
  destruct keys as [|k keys]; [injection E as <- <-; by injection He as <-|]. rewrite Hid in E. cbn [rbind] in E.
  rewrite (collect_map _ _ _ _ _ Hsame He) in E. cbn [rbind] in E. injection E as _ <- _. cbn [app]. rewrite map_map. done.
Qed.

Lemma written_value entries k v : written (puts entries) k = Some v -> exists r, v = Some r /\ (k, r) ∈ entries.
Proof.
  induction entries as [|[k' r'] entries IH]; cbn [puts map written fst snd]; [done|]. fold (puts entries). destruct (written (puts entries) k) as [v'|].
  - intros [= ->]. destruct (IH eq_refl) as (r & -> & Hr). exists r. split; [done|by right].
  - case_bool_decide; [|done]. intros [= <-]. subst k'. exists r'. split; [done|by left].
Qed.

Lemma maintainIndex_does id oldDoc newDoc addOp n s w w' : wf_world w -> _active (w_ru w) = true ->
  maintainIndex L failIndexKeyTooLong id oldDoc newDoc addOp (n, s) w = (Ok tt, w') ->
  exists newKeys oldKeys removed entries, newKeysOf s newDoc = Ok newKeys /\ oldKeysOf s oldDoc = Ok oldKeys /\ collect (entryOf s id) newKeys = Ok entries /\
    Forall2 (fun key kvs => (inSet L key newKeys = Ok true /\ kvs = []) \/ exists ks tb, makeKeyString L s id key = Ok (ks, tb) /\ kvs = [(ks, None)]) oldKeys removed /\
    does n (concat removed ++ puts entries) w w'.
Proof.
  intros Hw Ha. unfold maintainIndex, lift. unfold mbind at 1. destruct (newKeysOf s newDoc) as [newKeys|]; [|done]. unfold mbind at 1.
  destruct (oldKeysOf s oldDoc) as [oldKeys|]; [|done]. unfold mbind at 1. destruct (foreach (removeOldKey L n s id newKeys) oldKeys w) as [[[]|] w1] eqn:E1; [|done]. intros E2.
  destruct (foreach_does n _ _ (removeOldKey_does L n s id newKeys) oldKeys w w1 Hw Ha E1) as (removed & Hr & Hd1). pose proof (proj1 Hd1) as Hi.
  destruct (foreach_does n _ _ (writeNewKey_does L failIndexKeyTooLong n s id addOp) newKeys w1 w' (wf_inside _ _ Hi Hw) ltac:(by rewrite (in_ru _ _ Hi)) E2) as (kvss & Hn & Hd2).
  destruct (new_entries s id newKeys kvss Hn) as (entries & Ee & Ec). rewrite Ec in Hd2. exists newKeys, oldKeys, removed, entries. split_and!; try done. by eapply does_app.
Qed.


End KeptUp.

(** ** A record of the index's table and a document

    An index on [a] under construction; the document's [a] changes from 1 to 2. *)

Definition ex_schema : KeySchema :=
  mkKeySchema (mkTableName (lit "t.a") Secondary) 1 (mkIndexMetaData (lit "a_1") false false false []
    (mkIndexEntry 0 false false None (fun obj => Ok ([[([], default BNull (getField obj (lit "a")))]], [[]])))).
Definition ex_old : Document := [(lit "_id", BInt 9); (lit "a", BInt 1)].
Definition ex_new : Document := [(lit "_id", BInt 9); (lit "a", BInt 2)].
Definition ex_doc_id : RecordId := kSmallStr (lit "i").

Definition ex_store_world : World MemTx :=
  mkWorld (T := MemTx) (mkMem [] [] ∅ 0 []) (mkUnit (Some 0) false false true false false ∅ 0 None 0 [] ∅ ∅) ∅ 1 1 (OtherIsolation 0) false [].

Lemma ex_store_wf : wf_world ex_store_world.
Proof. constructor; [by eexists|..]; cbn; [intros c k Hk; by rewrite lookup_empty in Hk|set_solver]. Qed.


(** ** A record store is a map *)

Section StoreMap.
Context {T : TxService} `{!TxLaws T} `{!KvLaws T} (L : IntelDecimal) (failIndexKeyTooLong : bool) (rs : EloqRecordStore).

(** The document at a key. *)
Definition docs (w : World T) (k : bytes) : option bytes := option_map MongoRecord.encoded_blob (rows (w_tx w) (rs_tableName rs) k).

(** Operations that leave the documents alone. *)
Definition quiet (w w' : World T) : Prop := inside w w' /\ forall k, rows (w_tx w') (rs_tableName rs) k = rows (w_tx w) (rs_tableName rs) k.

Lemma quiet_refl w : quiet w w.
Proof. done. Qed.

Lemma quiet_trans w1 w2 w3 : quiet w1 w2 -> quiet w2 w3 -> quiet w1 w3.
Proof. intros [H1 R1] [H2 R2]. split; [by eapply inside_trans|]. intros k. by rewrite R2, R1. Qed.

Lemma quiet_tx s w : rows s = rows (w_tx w) -> scans s = scans (w_tx w) -> quiet w (set_tx s w).
Proof. intros Hr Hs. split; [by apply inside_tx|]. intros k. cbn. by rewrite Hr. Qed.

(** Indexes of other tables. *)
Definition other_tables (table : DiscoveredTable) : Prop := Forall (fun index => index.1 <> rs_tableName rs) (_creatingIndexes table).

Lemma maintain_quiet table id oldDoc newDoc op w w' : other_tables table -> wf_world w -> _active (w_ru w) = true ->
  maintainCreatingIndexes L failIndexKeyTooLong table id oldDoc newDoc op w = (Ok tt, w') -> quiet w w'.
Proof.
  unfold maintainCreatingIndexes, other_tables. intros Ho. revert w. induction Ho as [|[n s] indexes Hn _ IH]; intros w Hw Ha; cbn [foreach]; [by intros [= <-]|].
  unfold mbind. destruct (maintainIndex _ _ _ _ _ _ _ w) as [[[]|] w1] eqn:E; [|done]. intros E'.
  destruct (maintainIndex_does L failIndexKeyTooLong id oldDoc newDoc op n s w w1 Hw Ha E) as (? & ? & removed & entries & _ & _ & _ & _ & Hi & Hr).
  apply (quiet_trans _ w1); [|apply IH; [by apply (wf_inside w)|by rewrite (in_ru _ _ Hi)|done]]. split; [done|]. intros k. rewrite Hr, writes_at, bool_decide_false; [done|]. cbn in Hn. congruence.
Qed.

Lemma viewGate_quiet w r w' : wf_world w -> _active (w_ru w) = true -> viewGate rs w = (r, w') -> quiet w w'.
Proof.
  intros Hw Ha. unfold viewGate. destruct (_isSystemViews rs); [|by intros [= _ <-]]. destruct (getTxm_spec w Hw) as (w1 & t & E & _ & _ & _ & Ht & _ & _ & Hs & _). rewrite (Hs Ha) in *.
  unfold checkClusterGate, mbind, ru, gets. rewrite E, execute_ok by done. destruct (ReadClusterConfigTx T (w_tx w)) as [[err gated] s'] eqn:Eg.
  destruct (gate_law _ _ _ Eg) as [Hr Hsc]. destruct (is_ok err); cbn [negb]; [destruct gated|]; intros [= _ <-]; by apply quiet_tx.
Qed.

Lemma preImage_quiet table v k doc w r w' : wf_world w -> _active (w_ru w) = true -> preImage rs table v (MongoKey.key k) doc w = (Ok r, w') -> quiet w w'.
Proof.
  intros Hw Ha. unfold preImage. destruct doc as [d|]; [by intros [= _ <-]|]. destruct (_creatingIndexes table) as [|ix ixs]; [by intros [= _ <-]|].
  destruct (getKV_spec (rs_tableName rs) v k true w Hw) as (w1 & l & a & s' & _ & _ & _ & _ & _ & Hs & _ & _ & _ & _ & E & Hr & Hsc & _). rewrite (Hs Ha) in *.
  unfold mbind. rewrite E. destruct (is_ok (pr_err (read_of a))); cbn [negb]; [|intros [= _ <-]; by apply quiet_tx].
  destruct (pr_exists (read_of a)); [|intros [= _ <-]; by apply quiet_tx]. unfold lift. destruct (viewObj _); [|done]. intros [= _ <-]. by apply quiet_tx.
Qed.

(** One document written, or taken out. *)
Lemma setKV_docs v k r op unique w w' : wf_world w -> _active (w_ru w) = true -> setKV (rs_tableName rs) v (MongoKey.key k) r op unique w = (Ok NO_ERROR, w') ->
  inside w w' /\ (unique = true -> r <> None -> docs w k = None) /\ forall k', docs w' k' = if bool_decide (k' = k) then option_map MongoRecord.encoded_blob r else docs w k'.
Proof.
  intros Hw Ha E. destruct (setKV_spec (rs_tableName rs) v k r op unique w Hw Ha) as (err & s' & E' & H). rewrite E in E'. injection E' as <- ->.
  destruct (H eq_refl) as (Hi & Hu & Hr). split_and!; [done| |].
  - intros H1 H2. unfold docs. by rewrite (Hu H1 H2).
  - intros k'. unfold docs. cbn [set_tx w_tx]. rewrite Hr. unfold write. cbn [fst snd]. destruct (decide (k' = k)) as [->|]; [by rewrite !bool_decide_true|by rewrite !bool_decide_false by naive_solver].
Qed.

Lemma quiet_docs w w' k : quiet w w' -> docs w' k = docs w k.
Proof. intros [_ H]. unfold docs. by rewrite H. Qed.

Lemma uassertTx_ok err (w w' : World T) : uassertTx err w = (Ok tt, w') -> err = NO_ERROR /\ w' = w.
Proof. unfold uassertTx, lift. intros [= E <-]. by destruct err. Qed.

Definition key_of (id : RecordId) (k : bytes) : Prop := MongoKey.of_RecordId id = Ok (MongoKey.key k).

Lemma of_RecordId_key id key : MongoKey.of_RecordId id = Ok key -> exists k, key = MongoKey.key k.
Proof. unfold MongoKey.of_RecordId. destruct (isLong id); [destruct (getLong id)|destruct (getStringView id)]; cbn; try done; intros [= <-]; by eexists. Qed.

Lemma discoveredTable_ok n (w w' : World T) table : discoveredTable n w = (Ok table, w') -> _discoveredTableMap (w_ru w) !! n = Some table /\ w' = w /\ _active (w_ru w) = true.
Proof.
  unfold discoveredTable, mbind, ru, gets, minvariant, invariant, lift, id. destruct (_active (w_ru w)); [|done]. cbn.
  destruct (_discoveredTableMap (w_ru w) !! n); [|done]. by intros [= <- <-].
Qed.

(** The documents a batch writes, the last of a key first. *)
Fixpoint stored (records : list (bytes * bytes)) (k : bytes) : option bytes :=
  match records with [] => None | (k0, d) :: records => match stored records k with Some d => Some d | None => if bool_decide (k = k0) then Some d else None end end.

Definition orElse {A} (a b : option A) : option A := match a with Some x => Some x | None => b end.

Lemma statusOf_ok err (w w' : World T) : statusOf err w = (Ok (Ok tt), w') -> err = NO_ERROR /\ w' = w.
Proof. unfold statusOf. destruct err; cbn; intros [= <-] || intros [=]; done. Qed.

Lemma maintained_ok (m : M T Datatypes.unit) w w' : maintained m w = (Ok (Ok tt), w') -> m w = (Ok tt, w').
Proof.
  unfold maintained, mcatch, mbind. destruct (m w) as [[[]|e] w1]; cbn; [by intros [= <-]|]. by destruct e.
Qed.

Lemma insertEach_docs table v records w w' : other_tables table -> wf_world w -> _active (w_ru w) = true ->
  insertEach L failIndexKeyTooLong rs table v records w = (Ok (Ok tt), w') ->
  inside w w' /\ NoDup (map (fun r => r.1.1.2) records) /\ Forall (fun k => docs w k = None) (map (fun r => r.1.1.2) records) /\
  forall k, docs w' k = orElse (stored (map (fun r => (r.1.1.2, r.2)) records) k) (docs w k).
Proof.
  intros Ho. revert w. induction records as [|[[[id ks] typeBits] data] records IH]; intros w Hw Ha; cbn [insertEach map stored fst snd].
  { intros [= <-]. split_and!; [done|constructor|constructor|done]. }
  unfold mbind at 1. destruct (setKV _ _ _ _ _ _ w) as [[err|] w1] eqn:E; [|done]. destruct (is_ok err) eqn:Eo; cbn [negb].
  2: { intros [-> _]%statusOf_ok. done. }
  destruct err; try done. destruct (setKV_docs v ks _ Insert true w w1 Hw Ha E) as (Hi & Hu & Hd). specialize (Hu eq_refl ltac:(done)).
  set (m := match _creatingIndexes table with [] => _ | _ => _ end). unfold mbind at 1. destruct (m w1) as [[[[]|]|] w2] eqn:Em; try done. intros E'.
  assert (quiet w1 w2) as Hq.
  { unfold m in Em. destruct (_creatingIndexes table) as [|ix ixs] eqn:Ec; [injection Em as <-; done|]. apply maintained_ok in Em. unfold mbind, lift in Em.
    destruct (viewObj data); [|done]. eapply maintain_quiet; [exact Ho|by apply (wf_inside w)|by rewrite (in_ru _ _ Hi)|exact Em]. }
  pose proof (inside_trans _ _ _ Hi (proj1 Hq)) as Hi2.
  destruct (IH w2 (wf_inside _ _ Hi2 Hw) ltac:(by rewrite (in_ru _ _ Hi2)) E') as (Hi3 & Hn & Hf & Hd').
  assert (forall k, docs w2 k = if bool_decide (k = ks) then Some data else docs w k) as Hd2 by (intros k; rewrite (quiet_docs w1 w2 k Hq), Hd; cbn [option_map]; by rewrite MongoRecord.setTypeBits_blob).
  split_and!.
  - exact (inside_trans _ _ _ Hi2 Hi3).
  - constructor; [|done]. intros Hk. rewrite Forall_forall in Hf. specialize (Hf _ Hk). by rewrite Hd2, bool_decide_true in Hf.
  - constructor; [done|]. eapply Forall_impl; [exact Hf|]. cbn. intros k. rewrite Hd2. by destruct (bool_decide (k = ks)).
  - intros k. rewrite Hd', Hd2. destruct (stored _ k); [done|]. by destruct (bool_decide (k = ks)).
Qed.

(** The keys of a batch are those of its documents' [_id]s, and of the ids it answers with. *)
Lemma batchEntries_spec datas entries : batchEntries L datas = Ok entries ->
  Forall2 (fun data e => (exists obj, viewObj data = Ok obj /\ idKeyString L obj = Ok (e.1.2, e.2)) /\ key_of e.1.1 e.1.2) datas entries.
Proof.
  revert entries. induction datas as [|data datas IH]; intros entries; cbn [batchEntries]; [intros [= <-]; constructor|].
  destruct (viewObj data) as [obj|] eqn:Ev; [cbn|done]. destruct (idKeyString L obj) as [[ks tb]|] eqn:Ek; [cbn|done].
  destruct (RecordId_of_str ks) as [id|] eqn:Ei; [cbn|done]. destruct (batchEntries L datas) as [rest|]; [|done]. intros [= <-].
  constructor; [|by apply IH]. cbn. split; [by exists obj|]. unfold key_of. pose proof (RecordId_of_str_spec ks) as H. rewrite Ei in H. destruct H as (_ & _ & Hs & Hv).
  unfold MongoKey.of_RecordId. rewrite Hv. by destruct id.
Qed.

(** *** The specification: a map from keys to documents *)

Inductive call := InsertCall (datas : list bytes) | UpdateCall (id : RecordId) (oldDoc : option Document) (data : bytes)
  | DeleteCall (id : RecordId) (doc : option Document) | FindCall (id : RecordId).
Inductive answer := Inserted (ids : list RecordId) | Updated | Removed | Found (data : option bytes).

Definition map_step (m : bytes -> option bytes) (c : call) (a : answer) (m' : bytes -> option bytes) : Prop :=
  match c, a with
  | InsertCall datas, Inserted ids => exists keys, Forall2 key_of ids keys /\
      Forall2 (fun data k => exists obj typeBits, viewObj data = Ok obj /\ idKeyString L obj = Ok (k, typeBits)) datas keys /\
      NoDup keys /\ Forall (fun k => m k = None) keys /\ forall k, m' k = orElse (stored (zip keys datas) k) (m k)
  | UpdateCall id _ data, Updated => exists k, key_of id k /\ forall k', m' k' = if bool_decide (k' = k) then Some data else m k'
  | DeleteCall id _, Removed => exists k, key_of id k /\ forall k', m' k' = if bool_decide (k' = k) then None else m k'
  | FindCall id, Found d => exists k, key_of id k /\ d = m k /\ forall k', m' k' = m k'
  | _, _ => False
  end.

Inductive map_steps : (bytes -> option bytes) -> list (call * answer) -> (bytes -> option bytes) -> Prop :=
  | map_nil m m' : (forall k, m' k = m k) -> map_steps m [] m'
  | map_cons m c a m1 l m' : map_step m c a m1 -> map_steps m1 l m' -> map_steps m ((c, a) :: l) m'.

Definition perform (c : call) : M T (result answer) :=
  match c with
  | InsertCall datas => let* (status, ids) := _insertRecords L failIndexKeyTooLong rs datas in mret (let! _ := status in Ok (Inserted ids))
  | UpdateCall id oldDoc data => let* status := _updateRecord L failIndexKeyTooLong rs id oldDoc data in mret (let! _ := status in Ok Updated)
  | DeleteCall id doc => let* _ := _deleteRecord L failIndexKeyTooLong rs id doc in mret (Ok Removed)
  | FindCall id => let* d := findRecord rs id in mret (Ok (Found d))
  end.

(** A caller that stops at what fails. *)
Fixpoint perform_all (cs : list call) : M T (result (list (call * answer))) :=
  match cs with
  | [] => mret (Ok [])
  | c :: cs =>
      let* a := perform c in
      match a with
      | Err e => mret (Err e)
      | Ok a => let* l := perform_all cs in mret (let! l := l in Ok ((c, a) :: l))
      end
  end.

(** *** The operations *)

Definition at_work (w : World T) : Prop :=
  wf_world w /\ _active (w_ru w) = true /\ forall table, _discoveredTableMap (w_ru w) !! rs_tableName rs = Some table -> other_tables table.

Lemma at_work_inside w w' : inside w w' -> at_work w -> at_work w'.
Proof. intros Hi (Hw & Ha & Ht). split_and!; [by apply (wf_inside w)|by rewrite (in_ru _ _ Hi)|]. by rewrite (in_ru _ _ Hi). Qed.

Lemma insert_docs datas ids w w' : at_work w -> _insertRecords L failIndexKeyTooLong rs datas w = (Ok (Ok tt, ids), w') ->
  inside w w' /\ map_step (docs w) (InsertCall datas) (Inserted ids) (docs w').
Proof.
  intros Hw. unfold _insertRecords, mbind at 1, minvariant, lift. destruct (invariant _); [|done]. destruct (_ && _); [done|].
  unfold mbind at 1. destruct (viewGate rs w) as [[[[]|]|] w1] eqn:Eg; try done. destruct (Hw) as (Hf & Ha & _).
  pose proof (viewGate_quiet w _ w1 Hf Ha Eg) as Hq. pose proof (at_work_inside _ _ (proj1 Hq) Hw) as (Hf1 & Ha1 & Ht1).
  unfold mbind at 1. destruct (discoveredTable _ w1) as [[table|] w2] eqn:Et; [|done]. destruct (discoveredTable_ok _ _ _ _ Et) as (El & -> & _).
  unfold mbind, lift. destruct (keyVersion table) as [v|]; [|done]. destruct (batchEntries L datas) as [entries|] eqn:Eb; [|done].
  destruct (insertEach _ _ rs table v _ w1) as [[[[]|]|] w3] eqn:Ei; try done. intros [= <- <-].
  destruct (insertEach_docs table v _ w1 w3 (Ht1 _ El) Hf1 Ha1 Ei) as (Hi & Hn & Hno & Hd). split; [exact (inside_trans _ _ _ (proj1 Hq) Hi)|].
  pose proof (batchEntries_spec _ _ Eb) as Hb. exists (map (fun e => e.1.2) entries).
  assert (map (fun r => r.1.1.2) (zip entries datas) = map (fun e => e.1.2) entries /\
          map (fun r => (r.1.1.2, r.2)) (zip entries datas) = zip (map (fun e => e.1.2) entries) datas) as [E1 E2].
  { clear -Hb. induction Hb as [|d e ds es _ _ [IH1 IH2]]; [done|]. cbn. by rewrite IH1, IH2. }
  rewrite E1 in Hn, Hno. rewrite E2 in Hd. split_and!; [| |done| |].
  - clear -Hb. induction Hb as [|d e ds es [_ H] _ IH]; by constructor.
  - clear -Hb. induction Hb as [|d e ds es [(obj & H1 & H2) _] _ IH]; constructor; [by exists obj, e.2|done].
  - eapply Forall_impl; [exact Hno|]. cbn. intros k. by rewrite (quiet_docs _ _ k Hq).
  - intros k. by rewrite Hd, (quiet_docs _ _ k Hq).
Qed.

(** What writes begin with: the gate, and the table; the stored document, if it is needed. *)
Lemma enter w w1 w2 table : at_work w -> viewGate rs w = (Ok (Ok tt), w1) -> discoveredTable (rs_tableName rs) w1 = (Ok table, w2) ->
  w2 = w1 /\ quiet w w1 /\ at_work w1 /\ other_tables table.
Proof.
  intros Hw Eg Et. destruct (Hw) as (Hf & Ha & _). pose proof (viewGate_quiet w _ w1 Hf Ha Eg) as Hq. pose proof (at_work_inside _ _ (proj1 Hq) Hw) as Hw1.
  destruct (discoveredTable_ok _ _ _ _ Et) as (El & -> & _). split_and!; try done. by apply Hw1.
Qed.

Lemma enter_read w w1 w2 table v k doc r : at_work w -> quiet w w1 -> preImage rs table v (MongoKey.key k) doc w1 = (Ok r, w2) -> quiet w w2 /\ at_work w2.
Proof.
  intros Hw Hq Ep. destruct (at_work_inside _ _ (proj1 Hq) Hw) as (Hf & Ha & _). pose proof (quiet_trans _ _ _ Hq (preImage_quiet table v k doc w1 _ w2 Hf Ha Ep)) as Hq2.
  split; [done|]. exact (at_work_inside _ _ (proj1 Hq2) Hw).
Qed.

(** A document written, between steps that leave the documents alone. *)
Lemma write_between v k r op w w2 w3 w' : quiet w w2 -> at_work w2 -> setKV (rs_tableName rs) v (MongoKey.key k) r op false w2 = (Ok NO_ERROR, w3) ->
  (at_work w3 -> quiet w3 w') -> inside w w' /\ forall k', docs w' k' = if bool_decide (k' = k) then option_map MongoRecord.encoded_blob r else docs w k'.
Proof.
  intros Hq (Hf & Ha & Ht) Es Hq'. destruct (setKV_docs v k r op false w2 w3 Hf Ha Es) as (Hi & _ & Hd). specialize (Hq' (at_work_inside _ _ Hi (conj Hf (conj Ha Ht)))).
  split; [exact (inside_trans _ _ _ (proj1 Hq) (inside_trans _ _ _ Hi (proj1 Hq')))|]. intros k'. by rewrite (quiet_docs w3 w' k' Hq'), Hd, (quiet_docs w w2 k' Hq).
Qed.

Lemma update_docs id oldDoc data w w' : at_work w -> _updateRecord L failIndexKeyTooLong rs id oldDoc data w = (Ok (Ok tt), w') ->
  inside w w' /\ map_step (docs w) (UpdateCall id oldDoc data) Updated (docs w').
Proof.
  intros Hw. unfold _updateRecord, mbind at 1. destruct (viewGate rs w) as [[[[]|e]|] w1] eqn:Eg; try done.
  unfold mbind at 1. destruct (discoveredTable _ w1) as [[table|] w1'] eqn:Et; [|done]. destruct (enter _ _ _ _ Hw Eg Et) as (-> & Hq & _ & Ho).
  unfold mbind at 1, lift. destruct (MongoKey.of_RecordId id) as [key|] eqn:Ek; [|done]. destruct (of_RecordId_key id key Ek) as [k ->].
  unfold mbind at 1. destruct (keyVersion table) as [v|]; [|done]. unfold mbind at 1. destruct (preImage _ _ _ _ _ w1) as [[[err old]|] w2] eqn:Ep; [|done].
  destruct (enter_read _ _ _ _ _ _ _ _ Hw Hq Ep) as [Hq2 Hw2]. destruct (is_ok err) eqn:Eo; cbn [negb]; [|by intros [-> _]%statusOf_ok].
  unfold mbind at 1. destruct (viewObj data) as [obj|]; [|done]. unfold mbind at 1. destruct (idKeyString L obj) as [[ks tb]|]; [|done].
  unfold mbind at 1. destruct (setKV _ _ _ _ _ _ w2) as [[err2|] w3] eqn:Es; [|done].
  destruct (is_ok err2) eqn:Eo2; cbn [negb]; [|by intros [-> _]%statusOf_ok]. destruct err2; try done. intros Em.
  destruct (write_between v k _ Update w w2 w3 w' Hq2 Hw2 Es) as [Hi Hd].
  - intros (Hf & Ha & _). destruct (_creatingIndexes table) eqn:Ec; [by injection Em as <-|]. apply maintained_ok in Em. exact (maintain_quiet _ _ _ _ _ _ _ Ho Hf Ha Em).
  - split; [done|]. exists k. split; [done|]. intros k'. rewrite Hd. cbn [option_map]. by rewrite MongoRecord.setTypeBits_blob.
Qed.

Lemma delete_docs id doc w w' : at_work w -> _deleteRecord L failIndexKeyTooLong rs id doc w = (Ok tt, w') ->
  inside w w' /\ map_step (docs w) (DeleteCall id doc) Removed (docs w').
Proof.
  intros Hw. unfold _deleteRecord, mbind at 1. destruct (viewGate rs w) as [[[[]|e]|] w1] eqn:Eg; try done. unfold mbind at 1. cbn [uassertStatusOK lift].
  unfold mbind at 1. destruct (discoveredTable _ w1) as [[table|] w1'] eqn:Et; [|done]. destruct (enter _ _ _ _ Hw Eg Et) as (-> & Hq & _ & Ho).
  unfold mbind at 1, lift. destruct (MongoKey.of_RecordId id) as [key|] eqn:Ek; [|done]. destruct (of_RecordId_key id key Ek) as [k ->].
  unfold mbind at 1. destruct (keyVersion table) as [v|]; [|done]. unfold mbind at 1. destruct (preImage _ _ _ _ _ w1) as [[[err old]|] w2] eqn:Ep; [|done].
  destruct (enter_read _ _ _ _ _ _ _ _ Hw Hq Ep) as [Hq2 Hw2].
  unfold mbind at 1. destruct (uassertTx err w2) as [[[]|] w2'] eqn:Eu; [|done]. destruct (uassertTx_ok _ _ _ Eu) as [_ ->].
  unfold mbind at 1. destruct (setKV _ _ _ _ _ _ w2) as [[err2|] w3] eqn:Es; [|done].
  unfold mbind at 1. destruct (uassertTx err2 w3) as [[[]|] w3'] eqn:Eu2; [|done]. destruct (uassertTx_ok _ _ _ Eu2) as [-> ->]. intros Em.
  destruct (write_between v k None Delete w w2 w3 w' Hq2 Hw2 Es) as [Hi Hd]; [|by split; [|exists k]].
  intros (Hf & Ha & _). destruct old; [|by injection Em as <-]. exact (maintain_quiet _ _ _ _ _ _ _ Ho Hf Ha Em).
Qed.

(** A service that knows the state of every record it reads without an error. *)
Context (knows : forall n v k forWrite s a s', ReadTx T n v k forWrite s = (a, s') -> ra_err a = NO_ERROR -> ra_status a = Normal \/ ra_status a = Deleted).

Lemma find_docs id d w w' : at_work w -> findRecord rs id w = (Ok d, w') -> inside w w' /\ map_step (docs w) (FindCall id) (Found d) (docs w').
Proof.
  intros (Hf & Ha & _). unfold findRecord, mbind at 1, lift. destruct (MongoKey.of_RecordId id) as [key|] eqn:Ek; [|done]. destruct (of_RecordId_key id key Ek) as [k ->].
  unfold mbind at 1. destruct (getKeySchema _ w) as [[schema|] w0] eqn:Eg; [|done]. assert (w0 = w) as ->.
  { revert Eg. unfold getKeySchema, mbind, minvariant, lift. destruct (invariant _); [|done]. destruct (discoveredTable _ w) as [[table|] w2] eqn:Et; [|done].
    destruct (discoveredTable_ok _ _ _ _ Et) as (_ & -> & _). destruct (key_schema_ _); by intros [= _ <-]. }
  unfold mbind at 1, gets. destruct (getKV_spec (rs_tableName rs) (SchemaTs schema) k (w_isUpsert w) w Hf) as (w1 & l & a & s' & _ & _ & _ & _ & _ & Hs & Hask & _ & _ & _ & E & Hr & Hsc & Hright).
  rewrite (Hs Ha) in *. unfold mbind at 1. rewrite E. unfold mbind. destruct (uassertTx _ _) as [[[]|] w2] eqn:Eu; [|done]. destruct (uassertTx_ok _ _ _ Eu) as [Ee ->]. intros [= <- <-].
  pose proof (quiet_tx s' w Hr Hsc) as Hq. split; [apply Hq|]. exists k. split_and!; [done| |intros k'; apply (quiet_docs _ _ k' Hq)].
  destruct (asks_last _ _ _ _ _ _ _ _ Hask) as (s1 & _ & El). unfold docs, read_of in *. cbn [pr_err pr_exists pr_record] in *. specialize (Hright Ee).
  rewrite Ee. destruct (knows _ _ _ _ _ _ _ El Ee) as [Hn|Hn]; rewrite Hn in *; by rewrite Hright.
Qed.

Lemma perform_refines c a w w' : at_work w -> perform c w = (Ok (Ok a), w') -> inside w w' /\ map_step (docs w) c a (docs w').
Proof.
  intros Hw. destruct c as [datas|id old data|id doc|id]; unfold perform, mbind.
  - destruct (_insertRecords _ _ _ _ w) as [[[[[]|] ids]|] w1] eqn:E; try done. intros [= <- <-]. by apply insert_docs.
  - destruct (_updateRecord _ _ _ _ _ _ w) as [[[[]|]|] w1] eqn:E; try done. intros [= <- <-]. by apply update_docs.
  - destruct (_deleteRecord _ _ _ _ _ w) as [[[]|] w1] eqn:E; try done. intros [= <- <-]. by apply delete_docs.
  - destruct (findRecord _ _ w) as [[d|] w1] eqn:E; try done. intros [= <- <-]. by apply find_docs.
Qed.


End StoreMap.

(** ** A transaction on a collection with an index under construction

    A document is inserted, read, changed, read, deleted and looked for. *)

Definition ex_table : MongoTableSchema := mkTableSchema (mkTableName (lit "t") Primary) [] [] [] [] 1 1 (Some ex_schema) [].
Definition ex_store : EloqRecordStore := mkRecordStore (mkTableName (lit "t") Primary) false false 0.

Definition ex_map_world : World MemTx :=
  mkWorld (T := MemTx) (mkMem [] [] ∅ 0 [])
    (mkUnit (Some 0) false false true false false ∅ 0 None 0 []
      {[ mkTableName (lit "t") Primary := mkDiscovered ex_table None [(mkTableName (lit "t.a") Secondary, ex_schema)] ]} ∅)
    ∅ 1 1 (OtherIsolation 0) false [].

(** The documents [{_id: 9, a: 1}] and [{_id: 9, a: 2}], and the id of both. *)
Definition ex_data (a : Z) : bytes := obj [(lit "_id", BInt 9); (lit "a", BInt a)].
Definition ex_id : RecordId :=
  match batchEntries ref_library [ex_data 1] with Ok [(id, _, _)] => id | _ => kNull end.

Definition ex_calls : list call :=
  [InsertCall [ex_data 1]; FindCall ex_id; UpdateCall ex_id None (ex_data 2); FindCall ex_id; DeleteCall ex_id None; FindCall ex_id].

Lemma ex_map_at_work : at_work ex_store ex_map_world.
Proof.
  split_and!; [|done|].
  - constructor; [by eexists|..]; cbn; [intros c k Hk; by rewrite lookup_empty in Hk|set_solver].
  - intros table Ht. cbn in Ht. rewrite lookup_singleton_eq in Ht. injection Ht as <-. by repeat constructor.
Qed.

#[local] Transparent gmap_empty.

