(* ===== verification/CatalogStore.v ===== *)
(** * The catalog: schema changes and the catalog's record store (eloq_recovery_unit.cpp, eloq_record_store.cpp)

    Catalog entries live in the transaction service's catalog: a new entry creates a table, a changed one is
    a schema change with the indexes it adds and drops, and an entry with an index that is still being built
    is only staged in the recovery unit. The schema images the changes make keep the version of every key. *)

From S2P Require Import Prelude Bytes Bson RawBson BsonBuilder KeyDecoder RecordId TypeBits MongoKey MongoRecord EloqUtil TableSchema TxService RecoveryUnit.
From S2P Require Import EloqIndex RecordStore.
#[local] Open Scope Z_scope.

(** The store handler of the service: where a new table's data goes; the same for a changed table, with
    the image of what the change adds and drops; and the tables there are, if it can tell. *)
Record StoreHandler := mkHandler {
  CreateKVCatalogInfo : MongoTableSchema -> bytes;
  CreateNewKVCatalogInfo : TableName -> MongoTableSchema -> AlterTableInfo -> bytes * bytes;
  DiscoverAllTableNames : bool * list bytes;
  sequence_table_name : bytes;
}.

Section Catalog.
Context {T : TxService} (C : ImageCodec) (H : StoreHandler).
(** How the [i]-th pause of an operation ends: an interruption is thrown. *)
Context (sleepForRandomMilliseconds : nat -> Status).
#[local] Abbreviation Op := (M T).
#[local] Abbreviation Act := (M T Datatypes.unit).

(** ** Catalog entries (eloq_util.h) *)

Definition ContainsUnreadyIndex (obj : bytes) : bool :=
  match parseEntry C obj with
  | FeatureDocument => false
  | CollectionEntry md => existsb (fun index => negb (im_ready index)) (md_indexes md)
  end.

(** The tables of the indexes that are ready, apart from [_id]'s, as a set. *)
Definition ExtractReadyIndexesSet (obj : bytes) : bytes * list TableName :=
  match parseEntry C obj with
  | FeatureDocument => ([], [])
  | CollectionEntry md =>
      (md_ns md,
       remove_dups (map (fun index => MongoIndexToTxServiceTableName C (md_ns md) (im_name index) (im_unique index))
         (filter (fun index => negb (bytes_eqb (im_name index) (lit "_id_")) && im_ready index = true) (md_indexes md))))
  end.

Definition getAlterTableInfo (oldMetadata newMetadata : bytes) : AlterTableInfo :=
  let (_, oldIndexes) := ExtractReadyIndexesSet oldMetadata in
  let (_, newIndexes) := ExtractReadyIndexesSet newMetadata in
  mkAlter (filter (fun n => n ∉ oldIndexes) newIndexes) (filter (fun n => n ∉ newIndexes) oldIndexes).

(** [DeserializeSchemaImage] for the metadata only: the first of an image's three parts. *)
Definition imageMetadata (image : bytes) : bytes := (MongoRecord.readSized image 0).1.

(** [sameCatalogEntry]: the fields of the entries by name, the catalog's version left out. *)
Definition withoutVersion (f : bytes * bson) : bytes * bson :=
  match f with
  | (n, BObject options) => if bytes_eqb n (lit "options") then (n, BObject (removeField options (lit "catalogVersion"))) else f
  | _ => f
  end.

Definition addField (out : gmap bytes Document) (e : bytes * bson) : gmap bytes Document :=
  match e with
  | (n, BObject md) => if bytes_eqb n (lit "md") then <[n := map withoutVersion md]> out else <[n := [e]]> out
  | (n, _) => <[n := [e]]> out
  end.

Definition catalogFields (entry : Document) : gmap bytes Document := foldl addField ∅ entry.

Definition sameCatalogEntry (lhs rhs : Document) : bool :=
  let a := catalogFields lhs in
  let b := catalogFields rhs in
  (size a =? size b)%nat &&
  forallb (fun f => match b !! f.1 with Some value => binaryEqual f.2 value | None => false end) (map_to_list a).

(** ** Schema changes *)

Definition statusOfTx (err : TxErrorCode) : Op Status := lift (TxErrorCodeToMongoStatus err).

Definition createTable (tableName : TableName) (metadata : bytes) : Op Status :=
  let* _ := getTxm in
  let* tempSchema := lift (MongoTableSchema_of C tableName (SerializeSchemaImage C metadata [] []) 0) in
  let kvInfo := CreateKVCatalogInfo H tempSchema in
  let* _ := minvariant (negb (bytes_eqb kvInfo [])) in
  let newImage := SerializeSchemaImage C metadata kvInfo [] in
  let* txm := ru _txm in
  let* a := execute txm (UpsertTableTx T tableName [] 1 newImage CreateTable None) in
  match ua_result a with
  | Succeeded => mret (Ok tt)
  | Failed =>
      if bool_decide (ua_err a = CLUSTER_GATED) then statusOfTx (ua_err a)
      else let* _ := lift (ThrowIfWriteConflict (ua_err a)) in mret (Err WriteConflict)
  | Unverified | OtherUpsertResult _ => mret (Err InternalError)
  end.

Definition dropTable (tableName : TableName) (catalogRecord : CatalogRecord) : Op Status :=
  let* _ := getTxm in
  let* txm := ru _txm in
  let* a := execute txm (UpsertTableTx T tableName (schema_image_ (cr_Schema catalogRecord)) (cr_SchemaTs catalogRecord) [] DropTable None) in
  match ua_result a with
  | Succeeded => mret (Ok tt)
  | Failed =>
      if bool_decide (ua_err a = CLUSTER_GATED) then statusOfTx (ua_err a)
      else let* _ := lift (ThrowIfWriteConflict (ua_err a)) in mret (Err InternalError)
  | Unverified | OtherUpsertResult _ => mret (Err InternalError)
  end.

(** The timestamps of the keys the change keeps. *)
Definition keptTs (schema : MongoTableSchema) (alterTableInfo : AlterTableInfo) : TableKeySchemaTs :=
  mkTs (pk_ts_ schema)
    (list_to_map (map (fun e => (e.2.1, SchemaTs e.2.2)) (filter (fun e => e.2.1 ∉ index_drop_names_ alterTableInfo) (indexes_ schema)))).

(** The image of the changed schema, the image of the change, and what it is. *)
Definition newSchema (tableName : TableName) (schema : MongoTableSchema) (oldMetadata newMetadata : bytes) : bytes * bytes * OperationType :=
  let alterTableInfo := getAlterTableInfo oldMetadata newMetadata in
  let schemas_ts_str := ts_Serialize C (keptTs schema alterTableInfo) in
  let (new_kv_info, alterTableInfoImage) := CreateNewKVCatalogInfo H tableName schema alterTableInfo in
  (SerializeSchemaImage C newMetadata new_kv_info schemas_ts_str, alterTableInfoImage,
   match index_add_names_ alterTableInfo, index_drop_names_ alterTableInfo with
   | _ :: _, _ => AddIndex
   | [], _ :: _ => DropIndex
   | [], [] => Update
   end).

(** What a change that was asked for comes to. *)
Definition alterStatus (opType : OperationType) (a : UpsertAnswer) : Op Status :=
  match ua_result a with
  | Succeeded => mret (Ok tt)
  | Failed =>
      if bool_decide (ua_err a = CLUSTER_GATED) then statusOfTx (ua_err a)
      else if bool_decide (ua_err a = UNIQUE_CONSTRAINT) then
        let* _ := minvariant (bool_decide (opType = AddIndex)) in mret (Err DuplicateKey)
      else if bool_decide (ua_err a = CAL_ENGINE_DEFINED_CONSTRAINT) then
        let* _ := minvariant (bool_decide (opType = AddIndex)) in mret (Err (ua_pack_sk_err a))
      else let* _ := lift (ThrowIfWriteConflict (ua_err a)) in mret (Err InternalError)
  | Unverified | OtherUpsertResult _ => mret (Err InternalError)
  end.

(** The status, the image of the new schema, and whether the change is part of a transaction that writes. *)
Definition updateTable (tableName : TableName) (catalogRecord : CatalogRecord) (oldMetadata newMetadata : bytes) : Op (Status * bytes * bool) :=
  let* _ := getTxm in
  let* oldObj := lift (viewObj oldMetadata) in
  let* newObj := lift (viewObj newMetadata) in
  if sameCatalogEntry oldObj newObj then mret (Ok tt, [], false)
  else
    let '(newSchemaImage, alterTableInfoImage, opType) := newSchema tableName (cr_Schema catalogRecord) oldMetadata newMetadata in
    let* txm := ru _txm in
    let* size := execute txm (fun s => (DataWriteSetSize T s, s)) in
    if 0 <? size then
      let* _ := execute txm (TxUpsertCatalog T tableName catalogRecord newSchemaImage) in
      mret (Ok tt, newSchemaImage, true)
    else
      let* a := execute txm (UpsertTableTx T tableName (schema_image_ (cr_Schema catalogRecord)) (cr_SchemaTs catalogRecord) newSchemaImage opType
                              (Some alterTableInfoImage)) in
      let* status := alterStatus opType a in
      mret (status, newSchemaImage, false).

(** [at] throws [std::out_of_range] on a table that was not discovered. *)
Definition updateDiscoveredTable (tableName : TableName) (newSchemaImage : bytes) (version : Z) : Act :=
  let* tables := ru _discoveredTableMap in
  match tables !! tableName with
  | None => mthrow InvariantFailure
  | Some table =>
      let* schema := lift (MongoTableSchema_of C tableName newSchemaImage version) in
      update_ru (fun u => set_discovered (<[tableName := mkDiscovered schema (_dirtySchema table) (_creatingIndexes table)]> (_discoveredTableMap u)) u)
  end.

(** ** The record store of the catalog *)

Definition tableOf (id : RecordId) : result TableName := let! name := getStringView id in Ok (mkTableName name Primary).

Definition catalog_findRecord (id : RecordId) (isForWrite : bool) : Op (option bytes) :=
  let* tableName := lift (tableOf id) in
  let* (table, err) := discoverTable tableName isForWrite in
  let* _ := uassertTx err in
  match table with
  | None => mret None
  | Some table =>
      let* empty := unreadyIsEmpty in
      let* bsonObj := (if empty : bool then mret [] else getUnreadyTable tableName) in
      match bsonObj with
      | _ :: _ => mret (Some (obj bsonObj))
      | [] => mret (Some (meta_data_str_ (_schema table)))
      end
  end.

Definition catalog_dataFor (id : RecordId) : Op bytes :=
  let* data := catalog_findRecord id false in
  match data with Some d => mret d | None => mthrow InvariantFailure end.

Definition kMaxRetryLimit : nat := 10.

(** An attempt that fails is made again after a pause. *)
Fixpoint deleteRecord_loop (attempts i : nat) (tableName : TableName) : Act :=
  match attempts with
  | O => mthrow (Location 70001)
  | S attempts =>
      let* (exists_, errorCode, catalogRecord) := readCatalog tableName true in
      let* finished := (if negb (is_ok errorCode) then let* _ := lift (ThrowIfWriteConflict errorCode) in mret false
        else match exists_, catalogRecord with
             | false, _ => mret true
             | true, None => mthrow InvariantFailure
             | true, Some catalogRecord =>
                 let* status := dropTable tableName catalogRecord in
                 match status with
                 | Ok _ => let* _ := deleteDiscoveredTable tableName in mret true
                 | Err ClusterGatePaused => mthrow ClusterGatePaused
                 | Err _ => mret false
                 end
             end) in
      if finished : bool then mret tt
      else let* _ := lift (uassertStatusOK (sleepForRandomMilliseconds i)) in deleteRecord_loop attempts (S i) tableName
  end.

Definition catalog_deleteRecord (id : RecordId) : Act :=
  let* tableName := lift (tableOf id) in
  deleteRecord_loop (kMaxRetryLimit - 1) 1 tableName.

(** The id of an entry: its namespace, or that of the feature document. *)
Definition kFeatureDocumentSV : bytes := lit "featureDocument".
Definition entryRecordId (obj : Document) : result RecordId :=
  match getField obj (lit "ns") with
  | Some (BString ns) | Some (BSymbol ns) | Some (BCode ns) => RecordId_of_str ns
  | Some BNull | None => RecordId_of_str kFeatureDocumentSV
  | Some _ => Err InvariantFailure
  end.

(** An entry with an index that is not ready is staged, and replaces the staged one; one with none takes
    the staged one back. Whether it was staged. *)
Definition stageEntry (tableName : TableName) (data : bytes) (obj : Document) : Op bool :=
  if ContainsUnreadyIndex data then let* _ := putUnreadyTable tableName obj in mret true
  else
    let* empty := unreadyIsEmpty in
    let* _ := (if empty : bool then mret tt else eraseUnreadyTable tableName) in
    mret false.

Definition catalog_insertRecord (data : bytes) : Op (result RecordId) :=
  let* obj := lift (viewObj data) in
  let* recordId := lift (entryRecordId obj) in
  let* tableName := lift (tableOf recordId) in
  let* staged := stageEntry tableName data obj in
  if staged : bool then mret (Ok recordId)
  else
    let* (exists_, errorCode, _) := readCatalog tableName true in
    if negb (is_ok errorCode) then let* _ := lift (ThrowIfWriteConflict errorCode) in mret (Err InternalError)
    else if exists_ : bool then mret (Err NamespaceExists)
    else
      let* status := createTable tableName data in
      mret (let! _ := status in Ok recordId).

Fixpoint updateRecord_loop (attempts i : nat) (tableName : TableName) (newMetadata : bytes) : Op Status :=
  match attempts with
  | O => mret (Err InternalError)
  | S attempts =>
      let* (exists_, errorCode, catalogRecord) := readCatalog tableName true in
      if negb (is_ok errorCode) then
        let* _ := lift (ThrowIfWriteConflict errorCode) in
        let* _ := lift (uassertStatusOK (sleepForRandomMilliseconds i)) in
        updateRecord_loop attempts (S i) tableName newMetadata
      else match exists_, catalogRecord with
           | false, _ => mret (Err InternalError)
           | true, None => mthrow InvariantFailure
           | true, Some catalogRecord =>
               let '(oldMetadata, _, _) := DeserializeSchemaImage C (schema_image_ (cr_Schema catalogRecord)) in
               let* (status, newSchemaImage, insideDmlTxn) := updateTable tableName catalogRecord oldMetadata newMetadata in
               match status with
               | Err e => mret (Err e)
               | Ok _ =>
                   let* _ := (if insideDmlTxn : bool then updateDiscoveredTable tableName newSchemaImage (cr_SchemaTs catalogRecord + 1)
                              else deleteDiscoveredTable tableName) in
                   mret (Ok tt)
               end
           end
  end.

Definition catalog_updateRecord (id : RecordId) (data : bytes) : Op Status :=
  let* obj := lift (viewObj data) in
  let* tableName := lift (tableOf id) in
  let* staged := stageEntry tableName data obj in
  if staged : bool then mret (Ok tt)
  else updateRecord_loop (kMaxRetryLimit - 1) 1 tableName data.

(** ** Cursors over the catalog: all entries are read when the cursor is made *)

Definition GetAllTables : bool * list bytes :=
  let (success, tables) := DiscoverAllTableNames H in
  if success then (true, filter (fun t => t <> sequence_table_name H) tables) else (false, tables).

Definition batchReadCatalog (tableNames : list bytes) : Op (list (bool * option CatalogRecord)) :=
  match tableNames with
  | [] => mret []
  | _ =>
      let* _ := getTxm in
      let* txm := ru _txm in
      let* (err, records) := execute txm (BatchReadCatalogTx T tableNames) in
      let* _ := uassertTx err in
      mret records
  end.

Fixpoint prefetchEntries (tables : list bytes) (records : list (bool * option CatalogRecord)) : result (list DocRecord) :=
  match tables, records with
  | table :: tables, (exists_, catalogRecord) :: records =>
      let! entry := (match exists_, catalogRecord with
        | false, _ => Ok []
        | true, None => Err InvariantFailure
        | true, Some r =>
            let metadata := imageMetadata (schema_image_ (cr_Schema r)) in
            if bytes_eqb metadata [] then Ok [] else let! id := RecordId_of_str table in Ok [mkDoc id metadata]
        end) in
      let! rest := prefetchEntries tables records in
      Ok (entry ++ rest)
  | _, _ => Ok []
  end.

Record EloqCatalogRecordStoreCursor := mkCatalogCursor { _prefetched : list DocRecord; _prefetchIndex : nat }.

Definition newCatalogCursor : Op EloqCatalogRecordStoreCursor :=
  let (_, tables) := GetAllTables in
  let* batchResults := batchReadCatalog tables in
  let* prefetched := lift (prefetchEntries tables batchResults) in
  mret (mkCatalogCursor prefetched 0).

Definition catalog_next (c : EloqCatalogRecordStoreCursor) : option DocRecord * EloqCatalogRecordStoreCursor :=
  match _prefetched c !! _prefetchIndex c with
  | None => (None, c)
  | Some r => (Some r, mkCatalogCursor (_prefetched c) (S (_prefetchIndex c)))
  end.

Definition getAllCollections : list bytes := GetAllTables.2.

End Catalog.
