(* ===== verification/CatalogChanges.v ===== *)
(** * Schema changes keep what they do not change

    The image of a changed schema keeps the version of every key that stays, and gives the new ones the version
    of the change; and an entry written to the catalog is the one read back. *)

From S2P Require Import Prelude Bytes Bson RawBson BsonBuilder KeyDecoder RecordId TypeBits MongoKey MongoRecord EloqUtil TableSchema TxService MemTx.
From S2P Require Import RecoveryUnit UnitOfWork EloqIndex RecordStore CatalogStore.
#[local] Open Scope Z_scope.

(** ** Versions *)

Section Versions.
Context (C : ImageCodec) `{!ImageLaws C} (H : StoreHandler).

Lemma skSchemas_ready ns ts version indexes : forall kid l, skSchemas C ns ts version kid indexes = Ok l ->
  Forall (fun e => exists i, i ∈ indexes /\ im_ready i = true /\ bytes_eqb (im_name i) (lit "_id_") = false /\
                    e.2.1 = MongoIndexToTxServiceTableName C ns (im_name i) (im_unique i)) l.
Proof.
  induction indexes as [|i indexes IH]; intros kid l; cbn [skSchemas]; [by intros [= <-]|].
  destruct (im_ready i) eqn:Er; [|done]. cbn [invariant uassert rbind]. destruct (skSchemas _ _ _ _ (S kid) indexes) as [rest|] eqn:E; [|done]. cbn [rbind].
  assert (Forall (fun e => exists j, j ∈ i :: indexes /\ im_ready j = true /\ bytes_eqb (im_name j) (lit "_id_") = false /\
                    e.2.1 = MongoIndexToTxServiceTableName C ns (im_name j) (im_unique j)) rest) as Hr.
  { eapply Forall_impl; [by eapply IH|]. cbn. intros e (j & Hj & H'). exists j. split; [by right|done]. }
  destruct (bytes_eqb _ _) eqn:En; intros [= <-]; [done|]. constructor; [|done]. exists i. split; [by left|done].
Qed.

(** The indexes of a schema are those its metadata says are ready. *)
Lemma schema_indexes tableName image version s : MongoTableSchema_of C tableName image version = Ok s ->
  Forall (fun e => e.2.1 ∈ (ExtractReadyIndexesSet C (DeserializeSchemaImage C image).1.1).2) (indexes_ s).
Proof.
  unfold MongoTableSchema_of, ExtractReadyIndexesSet. destruct (DeserializeSchemaImage C image) as [[meta kv] str] eqn:Ei. cbn [fst].
  destruct (negb _); [|done]. cbn [invariant uassert rbind]. destruct (parseEntry C meta) as [|md].
  - intros [= <-]. set (s0 := mkTableSchema _ _ _ _ _ _ _ _ _). destruct (recorded_ts C s0 Ei) as (_ & _ & _ & -> & _). constructor.
  - destruct (findIndex _ _) as [id|]; [|done]. destruct (im_ready id); [|done]. cbn [invariant uassert rbind].
    destruct (skSchemas _ _ _ _ _ _) as [l|] eqn:El; [|done]. cbn [rbind]. intros [= <-]. set (s0 := mkTableSchema _ _ _ _ _ _ _ _ _).
    destruct (recorded_ts C s0 Ei) as (_ & _ & _ & -> & _). cbn [s0 indexes_ snd]. eapply Forall_impl; [by eapply skSchemas_ready|]. cbn.
    intros e (i & Hi & Hr & Hn & ->). apply elem_of_remove_dups, list_elem_of_fmap. exists i. split; [done|]. apply list_elem_of_filter. by rewrite Hr, Hn.
Qed.

(** Its timestamps are those its image records, or its version. *)
Lemma schema_ts tableName image version s : MongoTableSchema_of C tableName image version = Ok s ->
  let ts := ts_Deserialize C (DeserializeSchemaImage C image).2 in
  meta_data_str_ s = (DeserializeSchemaImage C image).1.1 /\ pk_ts_ s = resolveTs C ts version tableName /\
  Forall (fun e => tn_type e.2.1 <> Primary /\ SchemaTs e.2.2 = resolveTs C ts version e.2.1) (indexes_ s).
Proof.
  unfold MongoTableSchema_of. destruct (DeserializeSchemaImage C image) as [[meta kv] str] eqn:Ei. cbn [fst snd].
  destruct (negb _); [|done]. cbn [invariant uassert rbind]. destruct (parseEntry C meta) as [|md].
  - intros [= <-]. set (s0 := mkTableSchema _ _ _ _ _ _ _ _ _). destruct (recorded_ts C s0 Ei) as (_ & -> & _ & -> & -> & _). split_and!; [done..|constructor].
  - destruct (findIndex _ _) as [id|]; [|done]. destruct (im_ready id); [|done]. cbn [invariant uassert rbind]. destruct (skSchemas _ _ _ _ _ _) as [l|] eqn:El; [|done].
    cbn [rbind]. intros [= <-]. set (s0 := mkTableSchema _ _ _ _ _ _ _ _ _). destruct (recorded_ts C s0 Ei) as (_ & -> & _ & -> & -> & _).
    split_and!; [done..|]. exact (skSchemas_ts _ _ _ _ _ _ _ El).
Qed.

Lemma find_filter (P : TableName -> Prop) `{!forall n, Decision (P n)} n (l : list (nat * (TableName * KeySchema))) : P n ->
  (list_to_map (map (fun e => (e.2.1, SchemaTs e.2.2)) (filter (fun e => P e.2.1) l)) : gmap TableName Z) !! n =
  option_map (fun e => SchemaTs e.2.2) (List.find (fun e => bool_decide (e.2.1 = n)) l).
Proof.
  intros Hn. induction l as [|[kid [m s]] l IH]; [done|]. rewrite filter_cons. cbn [List.find fst snd]. case_bool_decide as Hm.
  - subst m. rewrite decide_True by done. apply (lookup_insert_eq _ n).
  - destruct (decide (P m)); [|done]. rewrite <- IH. apply (lookup_insert_ne _ m n). done.
Qed.

(** C20. A schema change keeps the version of every key it keeps. The schema a node builds from the image of
    the change, whenever and at whatever version, is that of the new metadata, and the version of the table's key is
    that of the old schema; so is that of every index the old schema had, and an index it did not have gets
    the version of the change. *)
Theorem change_keeps_versions tableName schema oldMetadata newMetadata version s :
  tn_type tableName = Primary -> pk_ts_ schema <> 0 -> Forall (fun e => tn_type e.2.1 <> Primary /\ SchemaTs e.2.2 <> 0) (indexes_ schema) ->
  MongoTableSchema_of C tableName (newSchema C H tableName schema oldMetadata newMetadata).1.1 version = Ok s ->
  meta_data_str_ s = newMetadata /\ pk_ts_ s = pk_ts_ schema /\
  Forall (fun e => SchemaTs e.2.2 = match IndexKeySchema schema e.2.1 with Some key => SchemaTs key | None => version end) (indexes_ s).
Proof.
  intros Ht Hp Hs. unfold newSchema. destruct (CreateNewKVCatalogInfo _ _ _ _) as [kv altered]. cbn [fst]. set (alter := getAlterTableInfo _ _ _). intros E.
  pose proof (schema_indexes _ _ _ _ E) as Hi. rewrite (image_read C) in Hi. cbn [fst] in Hi.
  destruct (schema_ts _ _ _ _ E) as (Hm & Hpk & Hsk). rewrite (image_read C) in Hm, Hpk, Hsk. cbn [fst snd] in Hm, Hpk, Hsk. rewrite (ts_read C) in Hpk, Hsk.
  split_and!; [done| |].
  - rewrite Hpk. unfold resolveTs. rewrite (ts_recorded C), Ht. cbn [keptTs pk_schema_ts_]. by rewrite (proj2 (Z.eqb_neq _ _)).
  - rewrite Forall_forall in Hi, Hsk. apply Forall_forall. intros e He. destruct (Hsk e He) as [Hty ->]. specialize (Hi e He).
    assert (e.2.1 ∉ index_drop_names_ alter) as Hn.
    { unfold alter, getAlterTableInfo. destruct (ExtractReadyIndexesSet C oldMetadata) as [? old], (ExtractReadyIndexesSet C newMetadata) as [? new].
      cbn [snd index_drop_names_] in *. intros [Hn _]%list_elem_of_filter. done. }
    unfold resolveTs. rewrite (ts_recorded C). pose proof (find_filter (fun n => n ∉ index_drop_names_ alter) e.2.1 (indexes_ schema) Hn) as Hk.
    change (sk_schemas_ts_ (keptTs schema alter) !! e.2.1 = option_map (fun e => SchemaTs e.2.2) (List.find (fun x => bool_decide (x.2.1 = e.2.1)) (indexes_ schema))) in Hk.
    rewrite Hk.
    unfold IndexKeySchema. destruct (List.find _ _) as [[kid [m key]]|] eqn:Ef; cbn [option_map default fst snd].
    + apply List.find_some in Ef as [Hin _]. apply list_elem_of_In in Hin. rewrite Forall_forall in Hs. destruct (Hs _ Hin) as [_ Hz]. cbn in Hz.
      destruct (tn_type e.2.1); [done|..]; by rewrite (proj2 (Z.eqb_neq _ _)).
    + destruct (tn_type e.2.1); done.
Qed.

End Versions.

(** ** An index is added

    The collection has an index on [a] since version 3; at version 9 one on [b] is added. *)

Definition ex_indexes (names : list bytes) : MetaData :=
  mkMetaData (lit "db.c") (map (fun n => mkIndexMetaData n false true false [[]] (ex_index_entry 0 false)) (lit "_id_" :: names)).

Definition ex_change_codec : ImageCodec :=
  mkImageCodec (SerializeSchemaImage ex_codec) (DeserializeSchemaImage ex_codec) (ts_Serialize ex_codec) (ts_Deserialize ex_codec) (GetKeySchemaTs ex_codec)
    (fun m => CollectionEntry (ex_indexes (if bytes_eqb m (lit "new") then [lit "a"; lit "b"] else [lit "a"]))) (lit ":") (lit "*").

#[global] Instance ex_change_laws : ImageLaws ex_change_codec.
Proof. constructor; [exact (image_read ex_codec)|exact (ts_read ex_codec)|exact (ts_recorded ex_codec)]. Qed.

Definition ex_handler : StoreHandler := mkHandler (fun _ => lit "kv") (fun _ _ _ => (lit "kv2", lit "alter")) (true, [lit "db.c"]) (lit "seq").

Definition ex_old_schema : MongoTableSchema :=
  mkTableSchema ex_table [] [] [] [] 3 2 None
    [(1%nat, (mkTableName (lit "db.c:a") Secondary, mkKeySchema (mkTableName (lit "db.c:a") Secondary) 3 (mkIndexMetaData (lit "a") false true false [[]] (ex_index_entry 0 false))))].
Definition ex_changed : result MongoTableSchema :=
  MongoTableSchema_of ex_change_codec ex_table (newSchema ex_change_codec ex_handler ex_table ex_old_schema (lit "old") (lit "new")).1.1 9.

Lemma change_keeps_versions_witness : exists s, ex_changed = Ok s /\ pk_ts_ s = 2 /\ map (fun e => (tn_name e.2.1, SchemaTs e.2.2)) (indexes_ s) = [(lit "db.c:a", 3); (lit "db.c:b", 9)] /\
  Forall (fun e => SchemaTs e.2.2 = match IndexKeySchema ex_old_schema e.2.1 with Some key => SchemaTs key | None => 9 end) (indexes_ s).
Proof.
  assert (match ex_changed with Ok s => map (fun e => (tn_name e.2.1, SchemaTs e.2.2)) (indexes_ s) | _ => [] end = [(lit "db.c:a", 3); (lit "db.c:b", 9)]) as Hv by (vm_compute; reflexivity).
  destruct ex_changed as [s|] eqn:E; [|discriminate Hv]. exists s.
  destruct (change_keeps_versions ex_change_codec ex_handler ex_table ex_old_schema (lit "old") (lit "new") 9 s eq_refl) as (_ & Hp & Hs); [discriminate| |exact E|].
  - by repeat constructor.
  - split_and!; [reflexivity|exact Hp|exact Hv|exact Hs].
Defined.
(** ** What is written is read back *)

(** What the catalog's store relies on: an entry read for a write stays as it is while the transaction lasts;
    the record of an entry has the metadata of its image; and after a change that succeeded the entry is that
    of the new image. *)
Class CatalogLaws (T : TxService) (C : ImageCodec) := {
  catalog_stable : forall n s r s' fw e r' s'', TxReadCatalog T n true s = ((true, NO_ERROR, Some r), s') ->
    TxReadCatalog T n fw s' = ((e, NO_ERROR, r'), s'') -> e = true /\ r' = Some r;
  catalog_image : forall n fw s r s', TxReadCatalog T n fw s = ((true, NO_ERROR, Some r), s') ->
    meta_data_str_ (cr_Schema r) = (DeserializeSchemaImage C (schema_image_ (cr_Schema r))).1.1;
  change_law : forall n old ts new op alter s a s' fw e r s'', UpsertTableTx T n old ts new op alter s = (a, s') -> ua_result a = Succeeded -> op <> DropTable ->
    TxReadCatalog T n fw s' = ((e, NO_ERROR, r), s'') -> e = true /\ exists r', r = Some r' /\ meta_data_str_ (cr_Schema r') = (DeserializeSchemaImage C new).1.1;
}.

Section ReadBack.
Context {T : TxService} (C : ImageCodec) `{!ImageLaws C} `{!CatalogLaws T C} (H : StoreHandler) (sleep : nat -> Status).

(** A step of a sequence that succeeds, succeeds. *)
Lemma bind_ok {S A B} (m : St S A) (f : A -> St S B) s b s' : mbind m f s = (Ok b, s') -> exists a s1, m s = (Ok a, s1) /\ f a s1 = (Ok b, s').
Proof. unfold mbind. destruct (m s) as [[a|] s1]; [by exists a, s1|done]. Qed.

Lemma lift_ok {S A} (r : result A) (s s' : S) a : lift r s = (Ok a, s') -> r = Ok a /\ s' = s.
Proof. unfold lift. by intros [= -> ->]. Qed.

(** The entry of a table, wherever it is read from, satisfies [P]. *)
Definition entry_is (n : TableName) (P : bytes -> Prop) (w : World T) : Prop :=
  wf_world w /\
  match default [] (_unreadyTableMap (w_ru w) !! n) with
  | (_ :: _) as doc => P (obj doc)
  | [] =>
      match _discoveredTableMap (w_ru w) !! n with
      | Some table => P (meta_data_str_ (_schema table))
      | None => _active (w_ru w) = true /\
          forall fw e r s, TxReadCatalog T n fw (w_tx w) = ((e, NO_ERROR, r), s) -> e = true /\ exists r', r = Some r' /\ P (meta_data_str_ (cr_Schema r'))
      end
  end.

(** Reading the catalog in a transaction. *)
Lemma readCatalog_ok n fw (w w' : World T) a : wf_world w -> readCatalog n fw w = (Ok a, w') ->
  exists w1 s, TxReadCatalog T n fw (w_tx w1) = (a, s) /\ w' = set_tx s w1 /\ wf_world w' /\ _active (w_ru w') = true /\
    _unreadyTableMap (w_ru w') = _unreadyTableMap (w_ru w) /\ (_active (w_ru w) = true -> w1 = w).
Proof.
  intros Hw. destruct (getTxm_spec w Hw) as (w1 & t & E & Hw1 & Hu & Ha & Ht & _ & _ & Hs & _).
  unfold readCatalog, mbind, ru, gets. rewrite E, execute_ok by done. destruct (TxReadCatalog T n fw (w_tx w1)) as [x s] eqn:Er. intros [= <- <-].
  exists w1, s. split_and!; try done; [by apply wf_set_tx|apply Hu].
Qed.

(** The table found, and what is staged of it. *)
Lemma discover_entry n P fw found err w w1 : entry_is n P w -> discoverTable n fw w = (Ok (found, err), w1) -> err = NO_ERROR ->
  _unreadyTableMap (w_ru w1) = _unreadyTableMap (w_ru w) /\
  (default [] (_unreadyTableMap (w_ru w) !! n) = [] -> exists table, found = Some table /\ P (meta_data_str_ (_schema table))).
Proof.
  intros [Hw He]. unfold discoverTable. intros (tables & w0 & [= <- <-] & E)%bind_ok ->. cbn beta in E. destruct (_discoveredTableMap (w_ru w) !! n) as [t|].
  - injection E as <- <-. split; [done|]. intros Hd. rewrite Hd in He. by exists t.
  - apply bind_ok in E as ([[e errorCode] r] & w2 & Er & E). destruct (readCatalog_ok _ _ _ _ _ Hw Er) as (w3 & s & Ec & _ & _ & _ & Hu & Hs).
    destruct (is_ok errorCode) eqn:Eo; cbn [negb] in E; [|by injection E as _ -> _]. destruct errorCode; try done.
    assert (default [] (_unreadyTableMap (w_ru w) !! n) = [] -> e = true /\ exists r', r = Some r' /\ P (meta_data_str_ (cr_Schema r'))) as Hr.
    { intros Hd. rewrite Hd in He. destruct He as [Ha He]. rewrite (Hs Ha) in Ec. exact (He _ _ _ _ Ec). }
    destruct e; cbn [negb] in E; [|injection E as <- <-; split; [done|]; intros Hd; by destruct (Hr Hd)]. destruct r as [r|]; [|done].
    apply bind_ok in E as ([] & w4 & [= <-] & [= <- <-]). split; [done|]. intros Hd. destruct (Hr Hd) as (_ & r' & [= <-] & Hp). by eexists.
Qed.

Lemma find_entry n P id fw found w w' : tableOf id = Ok n -> entry_is n P w -> catalog_findRecord id fw w = (Ok found, w') ->
  (exists d, found = Some d /\ P d) \/ found = None /\ default [] (_unreadyTableMap (w_ru w) !! n) <> [].
Proof.
  intros Hn He. unfold catalog_findRecord. intros (n' & w0 & [Hn' ->]%lift_ok & E)%bind_ok. rewrite Hn in Hn'. injection Hn' as <-.
  apply bind_ok in E as ([table err] & w1 & Ed & E). apply bind_ok in E as (? & w2 & [Ee ->]%lift_ok & E). assert (err = NO_ERROR) as -> by (by destruct err).
  destruct (discover_entry _ _ _ _ _ _ _ He Ed eq_refl) as (Hu & Hp). destruct He as [_ He]. destruct table as [table|].
  - apply bind_ok in E as (empty & w2 & [= <- <-] & E). apply bind_ok in E as (doc & w2 & Eb & E). left.
    assert (doc = default [] (_unreadyTableMap (w_ru w) !! n)) as ->.
    { rewrite <- Hu. case_bool_decide as Hem; injection Eb as <- _; [by rewrite Hem, lookup_empty|done]. }
    destruct (default [] _) as [|f doc]; injection E as <- _; [|by eexists]. destruct (Hp eq_refl) as (? & [= <-] & H'). by eexists.
  - injection E as <- _. right. split; [done|]. intros Hd. by destruct (Hp Hd) as (? & [=] & _).
Qed.

(** Staging an entry, or taking the staged one back. *)
Lemma noted_wf (inUnit : bool) change (w w' : World T) : wf_world w -> (if inUnit then registerChange change else mret tt) w = (Ok tt, w') -> wf_world w'.
Proof.
  intros Hw. destruct inUnit; [|by intros [= <-]]. unfold registerChange. intros (b & w1 & [= <- <-] & E)%bind_ok.
  apply bind_ok in E as (? & w1 & [_ ->]%lift_ok & [= <-]). by apply wf_unit.
Qed.

Lemma stageEntry_ok n data doc (staged : bool) (w w' : World T) : wf_world w -> stageEntry C n data doc w = (Ok staged, w') ->
  wf_world w' /\ _unreadyTableMap (w_ru w') !! n = (if staged then Some doc else None).
Proof.
  intros Hw. unfold stageEntry. destruct (ContainsUnreadyIndex C data).
  - intros ([] & w1 & E & [= <- <-])%bind_ok. revert E. unfold putUnreadyTable. intros (u & w2 & [= <- <-] & E)%bind_ok.
    apply bind_ok in E as ([] & w2 & E & [= <-]). split; [|apply lookup_insert_eq]. apply wf_unit; [by eapply noted_wf|done..].
  - intros (empty & w1 & [= <- <-] & E)%bind_ok. apply bind_ok in E as ([] & w1 & E & [= <- <-]). case_bool_decide as He; [injection E as <-; by rewrite He, lookup_empty|].
    revert E. unfold eraseUnreadyTable. intros (u & w2 & [= <- <-] & E)%bind_ok. unfold id in E. destruct (_unreadyTableMap (w_ru w) !! n) as [o|] eqn:Eo; [|by injection E as <-].
    apply bind_ok in E as ([] & w2 & E & [= <-]). split; [|apply lookup_delete_eq]. apply wf_unit; [by eapply noted_wf|done..].
Qed.

Lemma newSchema_op n schema old new : (newSchema C H n schema old new).2 <> DropTable.
Proof.
  unfold newSchema. destruct (CreateNewKVCatalogInfo _ _ _ _). cbn [snd]. by destruct (index_add_names_ (getAlterTableInfo C old new)), (index_drop_names_ (getAlterTableInfo C old new)).
Qed.

Lemma alterStatus_ok op a (w w' : World T) : alterStatus op a w = (Ok (Ok tt), w') -> ua_result a = Succeeded /\ w' = w.
Proof.
  unfold alterStatus. destruct (ua_result a); [by intros [= <-]| |done..]. case_bool_decide as Hg; [rewrite Hg; unfold statusOfTx, lift; cbn; done|].
  repeat case_bool_decide; intros (? & ? & _ & [=])%bind_ok.
Qed.

(** A change asked for: the entry is the same, or the transaction writes, or the service has made it. *)
Lemma updateTable_ok n r old new (image : bytes) (inside : bool) (w w' : World T) : wf_world w -> _active (w_ru w) = true ->
  updateTable C H n r old new w = (Ok (Ok tt, image, inside), w') ->
  exists s, w' = set_tx s w /\
    if inside then image = (newSchema C H n (cr_Schema r) old new).1.1
    else (exists oldObj newObj, viewObj old = Ok oldObj /\ viewObj new = Ok newObj /\ sameCatalogEntry oldObj newObj = true /\ s = w_tx w) \/
         exists before ts op alter a, UpsertTableTx T n before ts (newSchema C H n (cr_Schema r) old new).1.1 op alter (w_tx w) = (a, s) /\ ua_result a = Succeeded /\ op <> DropTable.
Proof.
  intros Hw Ha. destruct (getTxm_spec w Hw) as (w1 & t & E & _ & _ & _ & Ht & _ & _ & Hs & _). rewrite (Hs Ha) in *.
  unfold updateTable. intros (t' & w2 & E2 & Eu)%bind_ok. rewrite E in E2. injection E2 as _ <-.
  apply bind_ok in Eu as (oldObj & w2 & [Eo ->]%lift_ok & Eu). apply bind_ok in Eu as (newObj & w2 & [En ->]%lift_ok & Eu).
  destruct (sameCatalogEntry oldObj newObj) eqn:Es.
  { injection Eu as _ <- <-. exists (w_tx w). split; [by destruct w|]. left. by exists oldObj, newObj. }
  pose proof (newSchema_op n (cr_Schema r) old new) as Hop. destruct (newSchema _ _ _ _ _ _) as [[img alter] op]. cbn [fst snd] in *.
  apply bind_ok in Eu as (txm & w2 & [= <- <-] & Eu). rewrite Ht in Eu. apply bind_ok in Eu as (size & w2 & E2 & Eu). rewrite execute_ok in E2 by done.
  injection E2 as <- <-. replace (set_tx (w_tx w) w) with w in Eu by (by destruct w). destruct (0 <? _).
  - apply bind_ok in Eu as (err & w2 & E2 & [= <- <- <-]). rewrite execute_ok in E2 by done. destruct (TxUpsertCatalog _ _ _ _ _) as [e s]. injection E2 as _ <-. by exists s.
  - apply bind_ok in Eu as (a & w2 & E2 & Eu). rewrite execute_ok in E2 by done. destruct (UpsertTableTx _ _ _ _ _ _ _ _) as [a' s] eqn:Ea. injection E2 as -> <-.
    apply bind_ok in Eu as (status & w2 & Est & [= -> <- <- <-]). destruct (alterStatus_ok _ _ _ _ Est) as [Hr ->]. exists s. split; [done|]. right. by eexists _, _, _, _, _.
Qed.

(** The metadata, or one that says the same. *)
Definition written (data d : bytes) : Prop :=
  d = data \/ exists old new, viewObj d = Ok old /\ viewObj data = Ok new /\ sameCatalogEntry old new = true.

Lemma changed_entry n data image before ts op alter a s (w : World T) :
  wf_world w -> _active (w_ru w) = true -> _unreadyTableMap (w_ru w) !! n = None -> _discoveredTableMap (w_ru w) !! n = None ->
  UpsertTableTx T n before ts image op alter (w_tx w) = (a, s) -> ua_result a = Succeeded -> op <> DropTable -> (DeserializeSchemaImage C image).1.1 = data ->
  entry_is n (written data) (set_tx s w).
Proof.
  intros Hw Ha Hu Hd Ea Hr Ho <-. split; [by apply wf_set_tx|]. cbn [set_tx w_ru w_tx]. rewrite Hu, Hd. split; [done|]. intros fw e r s' E.
  destruct (change_law _ _ _ _ _ _ _ _ _ _ _ _ _ Ea Hr Ho E) as (-> & r' & -> & Hm). split; [done|]. exists r'. split; [done|by left].
Qed.

Lemma newSchema_metadata n schema old new : (DeserializeSchemaImage C (newSchema C H n schema old new).1.1).1.1 = new.
Proof. unfold newSchema. destruct (CreateNewKVCatalogInfo _ _ _ _). cbn [fst]. by rewrite (image_read C). Qed.

Lemma update_entry attempts n data : forall i w w', wf_world w -> _unreadyTableMap (w_ru w) !! n = None ->
  updateRecord_loop C H sleep attempts i n data w = (Ok (Ok tt), w') -> entry_is n (written data) w' /\ _unreadyTableMap (w_ru w') !! n = None.
Proof.
  induction attempts as [|attempts IH]; intros i w w' Hw Hu; cbn [updateRecord_loop]; [done|].
  intros ([[e err] r] & w1 & Er & E)%bind_ok. destruct (readCatalog_ok _ _ _ _ _ Hw Er) as (w0 & s0 & Ec & Ew1 & Hw1 & Ha1 & Hu1 & _). rewrite <- Hu1 in Hu.
  destruct (is_ok err) eqn:Eo; cbn [negb] in E.
  2: { apply bind_ok in E as (? & w2 & [_ ->]%lift_ok & E). apply bind_ok in E as (? & w2 & [_ ->]%lift_ok & E). by eapply IH. }
  destruct err; try done. destruct e; [|done]. destruct r as [r|]; [|done]. pose proof (catalog_image _ _ _ _ _ Ec) as Hm.
  destruct (DeserializeSchemaImage C (schema_image_ (cr_Schema r))) as [[old kv] str] eqn:Ei. cbn [fst] in Hm.
  apply bind_ok in E as ([[status image] inside] & w2 & Eu & E). destruct status as [[]|]; [|done]. apply bind_ok in E as ([] & w3 & Ed & [= <-]).
  destruct (updateTable_ok _ _ _ _ _ _ _ _ Hw1 Ha1 Eu) as (s & -> & Hcase). destruct inside.
  - unfold updateDiscoveredTable in Ed. apply bind_ok in Ed as (tables & w2 & [= <- <-] & Ed). cbn [set_tx w_ru] in Ed. destruct (_discoveredTableMap (w_ru w1) !! n); [|done].
    apply bind_ok in Ed as (schema & w2 & [Es ->]%lift_ok & [= <-]). split; [|exact Hu]. split; [by apply wf_unit; [apply wf_set_tx|..]|]. cbn. rewrite Hu, lookup_insert_eq. left. cbn.
    destruct (schema_ts C _ _ _ _ Es) as [-> _]. rewrite Hcase. apply newSchema_metadata.
  - injection Ed as <-. split; [|exact Hu]. destruct Hcase as [(oldObj & newObj & Ho & Hn & Hsame & ->)|(before & ts & op & alter & a & Ea & Hr & Hop)].
    + split; [by apply wf_unit; [apply wf_set_tx|..]|]. cbn. rewrite Hu, lookup_delete_eq. split; [done|]. intros fw e r' s' E'. subst w1. cbn [set_tx w_tx] in E'.
      destruct (catalog_stable _ _ _ _ _ _ _ _ Ec E') as [-> ->]. split; [done|]. exists r. split; [done|]. rewrite Hm. right. by exists oldObj, newObj.
    + assert (entry_is n (written data) (set_tx s (set_ru (set_discovered (delete n (_discoveredTableMap (w_ru w1))) (w_ru w1)) w1))) as He; [|done].
      eapply changed_entry; [by apply wf_unit|done|exact Hu|apply lookup_delete_eq|exact Ea|done|done|apply newSchema_metadata].
Qed.

Lemma createTable_ok n data (w w' : World T) : wf_world w -> _active (w_ru w) = true -> createTable C H n data w = (Ok (Ok tt), w') ->
  exists kv a s, UpsertTableTx T n [] 1 (SerializeSchemaImage C data kv []) CreateTable None (w_tx w) = (a, s) /\ ua_result a = Succeeded /\ w' = set_tx s w.
Proof.
  intros Hw Ha. destruct (getTxm_spec w Hw) as (w1 & t & E & _ & _ & _ & Ht & _ & _ & Hs & _). rewrite (Hs Ha) in *.
  unfold createTable. intros (t' & w2 & E2 & Ec)%bind_ok. rewrite E in E2. injection E2 as _ <-.
  apply bind_ok in Ec as (temp & w2 & [_ ->]%lift_ok & Ec). apply bind_ok in Ec as (? & w2 & [_ ->]%lift_ok & Ec). apply bind_ok in Ec as (txm & w2 & [= <- <-] & Ec).
  rewrite Ht in Ec. apply bind_ok in Ec as (a & w2 & E2 & Ec). rewrite execute_ok in E2 by done. destruct (UpsertTableTx _ _ _ _ _ _ _ _) as [a' s] eqn:Ea. injection E2 as -> <-.
  exists (CreateKVCatalogInfo H temp), a, s. destruct (ua_result a) eqn:Er; [by injection Ec as <-| |done..].
  case_bool_decide as Hg; [rewrite Hg in Ec; done|]. by apply bind_ok in Ec as (? & ? & _ & [=]).
Qed.

Lemma readCatalog_discovered n fw a (w w' : World T) : readCatalog n fw w = (Ok a, w') -> _discoveredTableMap (w_ru w') = _discoveredTableMap (w_ru w).
Proof.
  unfold readCatalog. intros (t & w1 & Et & E)%bind_ok. apply bind_ok in E as (t' & w2 & [= <- <-] & E). assert (_discoveredTableMap (w_ru w1) = _discoveredTableMap (w_ru w)) as <-.
  { revert Et. unfold getTxm. intros (active & w2 & [= <- <-] & Et)%bind_ok. apply bind_ok in Et as ([] & w2 & Eo & [= _ <-]). destruct (_active (w_ru w)); [by injection Eo as <-|].
    apply bind_ok in Eo as (iso & w3 & [= <- <-] & Eo). unfold _txnOpen in Eo. apply bind_ok in Eo as (? & w3 & [= <- <-] & Eo).
    apply bind_ok in Eo as (? & w3 & [_ ->]%lift_ok & Eo). by apply bind_ok in Eo as (? & w3 & [= <- <-] & [= <-]). }
  revert E. unfold execute. destruct (_ && _); [|done]. destruct (TxReadCatalog _ _ _ _). by intros [= _ <-].
Qed.

Lemma stageEntry_discovered n data doc staged (w w' : World T) : stageEntry C n data doc w = (Ok staged, w') -> _discoveredTableMap (w_ru w') = _discoveredTableMap (w_ru w).
Proof.
  assert (forall (b : bool) ch (v v' : World T), (if b then registerChange ch else mret tt) v = (Ok tt, v') -> _discoveredTableMap (w_ru v') = _discoveredTableMap (w_ru v)) as Hn.
  { intros b ch v v'. destruct b; [|by intros [= <-]]. unfold registerChange. intros (? & w1 & [= <- <-] & E)%bind_ok. by apply bind_ok in E as (? & w1 & [_ ->]%lift_ok & [= <-]). }
  unfold stageEntry. destruct (ContainsUnreadyIndex C data).
  - intros ([] & w1 & E & [= _ <-])%bind_ok. revert E. unfold putUnreadyTable. intros (u & w2 & [= <- <-] & E)%bind_ok. apply bind_ok in E as ([] & w2 & E & [= <-]). by apply Hn in E.
  - intros (empty & w1 & [= <- <-] & E)%bind_ok. apply bind_ok in E as ([] & w1 & E & [= _ <-]). case_bool_decide; [by injection E as <-|].
    revert E. unfold eraseUnreadyTable. intros (u & w2 & [= <- <-] & E)%bind_ok. destruct (_ !! n); [|by injection E as <-]. apply bind_ok in E as ([] & w2 & E & [= <-]). by apply Hn in E.
Qed.

Lemma stageEntry_unready n data doc (w w' : World T) : stageEntry C n data doc w = (Ok true, w') -> ContainsUnreadyIndex C data = true.
Proof. unfold stageEntry. destruct (ContainsUnreadyIndex C data); [done|]. intros (empty & w1 & _ & E)%bind_ok. by apply bind_ok in E as (? & ? & _ & [=]). Qed.

(** An entry written: a new one, of a table the transaction has not looked up, or one in its place. *)
Inductive writes_entry (data : bytes) (id : RecordId) (w w' : World T) : Prop :=
| writes_new n : tableOf id = Ok n -> _discoveredTableMap (w_ru w) !! n = None -> catalog_insertRecord C H data w = (Ok (Ok id), w') -> writes_entry data id w w'
| writes_over : catalog_updateRecord C H sleep id data w = (Ok (Ok tt), w') -> writes_entry data id w w'.

Lemma staged_entry n doc (w : World T) : wf_world w -> doc <> [] -> _unreadyTableMap (w_ru w) !! n = Some doc -> entry_is n (written (obj doc)) w.
Proof. intros Hw Hd Hu. split; [done|]. rewrite Hu. cbn [default]. destruct doc; [done|by left]. Qed.

Lemma writes_entry_is doc id w w' : wf_doc doc -> objsize doc < 2 ^ 31 -> doc <> [] -> wf_world w -> writes_entry (obj doc) id w w' ->
  exists n, tableOf id = Ok n /\ entry_is n (written (obj doc)) w' /\
    (default [] (_unreadyTableMap (w_ru w') !! n) <> [] -> ContainsUnreadyIndex C (obj doc) = true).
Proof.
  intros Hd Hsz Hne Hw. assert (viewObj (obj doc) = Ok doc) as Hv by (unfold viewObj; pose proof (BSONObj_obj doc [] Hd Hsz) as E; rewrite app_nil_r in E; by rewrite E).
  intros [n Hn Hdisc E|E].
  - exists n. split; [done|]. unfold catalog_insertRecord in E. apply bind_ok in E as (doc' & w1 & [Hv' ->]%lift_ok & E). rewrite Hv in Hv'. injection Hv' as <-.
    apply bind_ok in E as (rid & w1 & [_ ->]%lift_ok & E). apply bind_ok in E as (n' & w1 & [Hn' ->]%lift_ok & E). apply bind_ok in E as (staged & w1 & Est & E).
    destruct (stageEntry_ok _ _ _ _ _ _ Hw Est) as [Hw1 Hu1]. rewrite <- (stageEntry_discovered _ _ _ _ _ _ Est) in Hdisc.
    assert (staged = true /\ rid = id /\ w' = w1 \/ staged = false /\ exists e r w2, readCatalog n' true w1 = (Ok (e, NO_ERROR, r), w2) /\
      (let* status := createTable C H n' (obj doc) in mret (let! _ := status in Ok rid)) w2 = (Ok (Ok id), w')) as [(-> & -> & ->)|(-> & e & r & w2 & Er & Ec)].
    { destruct staged; [injection E as <- <-; by left|]. right. split; [done|]. apply bind_ok in E as ([[e err] r] & w2 & Er & E).
      destruct (is_ok err) eqn:Eo; cbn [negb] in E; [destruct err; try done|by apply bind_ok in E as (? & ? & _ & [=])]. destruct e; [done|]. by exists false, r, w2. }
    + rewrite Hn in Hn'. injection Hn' as <-. split; [by apply staged_entry|]. intros _. by eapply stageEntry_unready.
    + apply bind_ok in Ec as (status & w3 & Ec & Es). destruct status as [[]|]; [injection Es as <- <-|done]. rewrite Hn in Hn'. injection Hn' as <-.
      destruct (readCatalog_ok _ _ _ _ _ Hw1 Er) as (w0 & s0 & _ & _ & Hw2 & Ha2 & Hu2 & _). rewrite <- (readCatalog_discovered _ _ _ _ _ Er) in Hdisc. rewrite <- Hu2 in Hu1.
      destruct (createTable_ok _ _ _ _ Hw2 Ha2 Ec) as (kv & a & s & Ea & Hr & ->).
      split; [|by cbn; rewrite Hu1]. eapply changed_entry; [done..|exact Ea|done|done|]. by rewrite (image_read C).
  - unfold catalog_updateRecord in E. apply bind_ok in E as (doc' & w1 & [Hv' ->]%lift_ok & E). rewrite Hv in Hv'. injection Hv' as <-.
    apply bind_ok in E as (n & w1 & [Hn ->]%lift_ok & E). exists n. split; [done|]. apply bind_ok in E as (staged & w1 & Est & E). destruct (stageEntry_ok _ _ _ _ _ _ Hw Est) as [Hw1 Hu1].
    destruct staged.
    + injection E as <-. split; [by apply staged_entry|]. intros _. by eapply stageEntry_unready.
    + destruct (update_entry _ _ _ _ _ _ Hw1 Hu1 E) as [He Hu]. split; [done|]. by rewrite Hu.
Qed.


End ReadBack.

(** ** An entry is inserted

    A service in memory whose catalog changes: an entry is the image of its last change. *)

Definition cat_find (n : TableName) (s : MemState) : option CatalogRecord :=
  match list_find (fun e => e.1 = n) (m_catalog s) with
  | Some (_, (_, r)) => if bytes_eqb (meta_data_str_ (cr_Schema r)) (DeserializeSchemaImage ex_change_codec (schema_image_ (cr_Schema r))).1.1 then Some r else None
  | None => None
  end.

Definition cat_read (n : TableName) (forWrite : bool) (s : MemState) : (bool * TxErrorCode * option CatalogRecord) * MemState :=
  ((bool_decide (is_Some (cat_find n s)), NO_ERROR, cat_find n s), s).

Definition cat_change (n : TableName) (old : bytes) (ts : Z) (new : bytes) (op : OperationType) (alter : option bytes) (s : MemState) : UpsertAnswer * MemState :=
  let '(meta, kv, keys) := DeserializeSchemaImage ex_change_codec new in
  let r := mkCatalog (mkTableSchema n new meta kv keys (ts + 1) (ts + 1) None []) None (ts + 1) in
  let others := filter (fun e => e.1 <> n) (m_catalog s) in
  (mkUpsert Succeeded NO_ERROR InvariantFailure,
   mkMem (m_rows s) (if bool_decide (op = DropTable) then others else (n, r) :: others) (m_scans s) (m_next s) (m_errors s)).

Definition CatTx : TxService :=
  mkTxService MemState (NewTxInit MemTx) (CommitTx MemTx) (AbortTx MemTx) mem_upsert mem_read (BatchReadTx MemTx) mem_open mem_batch (CloseTxScan MemTx) cat_read
    (fun ns s => ((NO_ERROR, map (fun n => let r := cat_find (mkTableName n Primary) s in (bool_decide (is_Some r), r)) ns), s)) (ReadClusterConfigTx MemTx)
    cat_change (fun n r new s => (NO_ERROR, (cat_change n [] (cr_SchemaTs r) new Update None s).2)) (fun _ => 0) (fun s => s).

#[global] Instance CatTx_laws : CatalogLaws CatTx ex_change_codec.
Proof.
  constructor.
  - intros n s r s' fw e r' s''. cbn. unfold cat_read. intros [= He Hr <-] [= <- <- _]. by rewrite Hr.
  - intros n fw s r s'. cbn. unfold cat_read, cat_find. intros [= _ Hr _]. destruct (list_find _ _) as [[i [n' r']]|]; [|done].
    destruct (bytes_eqb _ _) eqn:E; [|done]. injection Hr as <-. by apply bytes_eqb_eq in E.
  - intros n old ts new op alter s a s' fw e r s'' E Hs Hop Er. revert Er. change (cat_change n old ts new op alter s = (a, s')) in E. change (cat_read n fw s' = (e, NO_ERROR, r, s'') -> e = true /\ exists r', r = Some r' /\ meta_data_str_ (cr_Schema r') = (DeserializeSchemaImage ex_change_codec new).1.1). unfold cat_change in E.
    destruct (DeserializeSchemaImage ex_change_codec new) as [[meta kv] keys] eqn:Em. rewrite bool_decide_eq_false_2 in E by done. injection E as <- <-.
    unfold cat_read, cat_find. cbn [m_catalog list_find]. rewrite decide_True by done. cbn [fst snd cr_Schema meta_data_str_ schema_image_]. rewrite Em. cbn [fst].
    rewrite (proj2 (bytes_eqb_eq meta meta) eq_refl). intros [= <- <- _]. split; [done|]. eexists. split; [reflexivity|]. reflexivity.
Qed.

Definition ex_catalog : World CatTx := mkWorld (T := CatTx) (mkMem [] [] ∅ 0 []) (mkUnit None false false false false false ∅ 7 None 0 [] ∅ ∅) ∅ 0 1 (OtherIsolation 0) false [].
Definition ex_entry : Document := [(lit "ns", BString (lit "db.c"))].
Definition ex_entry_id : RecordId := match entryRecordId ex_entry with Ok id => id | _ => kNull end.

Lemma ex_catalog_wf : wf_world ex_catalog.
Proof. apply no_scans_wf; [done..|]. intros c k Hk. cbn in Hk. by rewrite lookup_empty in Hk. Qed.

#[local] Transparent gmap_empty.

