(* ===== verification/ResumeToken.v ===== *)
(** * The resume token (base/cdc_resume_token.h, base/cdc_resume_token.cpp)

    The token's per-group entries, its byte format and driver-facing form,
    and where a group without an entry restarts. Encoding and decoding are
    inverse to each other on well-formed tokens, and decoding accepts nothing
    but the bytes of a well-formed token. *)

From S2P Require Import Prelude Bytes Bson.
#[local] Open Scope Z_scope.

(** ** Data *)

(** [CdcResumeTokenEntry::Form]. *)
Inductive Form := kAfterKey | kAtKeyAfterPosition.

#[global] Instance Form_eq_dec : EqDecision Form.
Proof. solve_decision. Defined.

Definition Form_value (f : Form) : Z :=
  match f with kAfterKey => 0 | kAtKeyAfterPosition => 1 end.

(** [CdcResumeTokenEntry]. *)
Record CdcResumeTokenEntry := mkTokenEntry {
  te_logGroupId : Z;
  te_form : Form;
  te_dataKey : bytes;
  te_ddlKey : bytes;
  te_section : Z;
  te_entry : Z;
}.

#[global] Instance CdcResumeTokenEntry_eq_dec : EqDecision CdcResumeTokenEntry.
Proof. solve_decision. Defined.

(** [CdcResumeToken::Kind]. *)
Inductive Kind := kEvent | kWatermark | kInvalidate.

#[global] Instance Kind_eq_dec : EqDecision Kind.
Proof. solve_decision. Defined.

Definition Kind_value (k : Kind) : Z :=
  match k with kEvent => 0 | kWatermark => 1 | kInvalidate => 2 end.

(** [CdcResumeToken]. *)
Record CdcResumeToken := mkToken {
  tok_timestamp : Z;
  tok_kind : Kind;
  tok_entries : list CdcResumeTokenEntry;
}.

#[global] Instance CdcResumeToken_eq_dec : EqDecision CdcResumeToken.
Proof. solve_decision. Defined.

Definition kFormatVersion : Z := 2.
Definition kDataFieldName : bytes := lit "_data".

(** [CdcResumeToken::makeWatermark]. *)
Definition makeWatermark (timestamp : Z) (entries : list CdcResumeTokenEntry) : CdcResumeToken :=
  mkToken timestamp kWatermark entries.

(** ** Positions *)

(** [CdcResumeToken::startTimestampForAbsentGroup]. *)
Definition startTimestampForAbsentGroup (t : CdcResumeToken) : result Z :=
  if negb (bool_decide (tok_kind t = kWatermark)) then
    let! _ := uassert FailedToParse (negb (tok_timestamp t =? 0)) in
    Ok (tok_timestamp t)
  else
    let! _ := uassert FailedToParse (negb (tok_timestamp t =? u64_max)) in
    Ok (wrap64 (tok_timestamp t + 1)).

(** [CdcResumeToken::entryFor]: the first entry of that group. *)
Fixpoint entryFor (entries : list CdcResumeTokenEntry) (logGroupId : Z)
  : option CdcResumeTokenEntry :=
  match entries with
  | [] => None
  | e :: es => if te_logGroupId e =? logGroupId then Some e else entryFor es logGroupId
  end.

(** ** Encoding *)

(** [appendSizedString]: a two-byte length, then the string. *)
Definition appendSizedString (value : bytes) : result bytes :=
  let! _ := invariant (blen value <=? u16_max) in
  Ok (appendBigEndian (blen value) 2 ++ value).

Definition encode_entry (e : CdcResumeTokenEntry) : result bytes :=
  let! data := appendSizedString (te_dataKey e) in
  let! ddl := appendSizedString (te_ddlKey e) in
  Ok (appendBigEndian (te_logGroupId e) 4 ++ [Z_byte (Form_value (te_form e))]
      ++ data ++ ddl
      ++ (if bool_decide (te_form e = kAtKeyAfterPosition)
          then appendBigEndian (te_section e) 4 ++ appendBigEndian (te_entry e) 4
          else [])).

Fixpoint encode_entries (es : list CdcResumeTokenEntry) : result bytes :=
  match es with
  | [] => Ok []
  | e :: es' =>
      let! b := encode_entry e in
      let! bs := encode_entries es' in
      Ok (b ++ bs)
  end.

(** [CdcResumeToken::encode]. *)
Definition encode (t : CdcResumeToken) : result bytes :=
  let! _ := invariant (Z.of_nat (length (tok_entries t)) <=? u16_max) in
  let! es := encode_entries (tok_entries t) in
  Ok ([Z_byte kFormatVersion] ++ appendBigEndian (tok_timestamp t) 8
      ++ [Z_byte (Kind_value (tok_kind t))]
      ++ appendBigEndian (Z.of_nat (length (tok_entries t))) 2 ++ es).

(** ** Decoding

    A [TokenReader] is the bytes between its [_pos] and its [_end]. *)

Definition TokenReader := bytes.

(** [TokenReader::readBigEndian<T>], for a [T] of [n] bytes. *)
Definition reader_readBigEndian (n : nat) (r : TokenReader) : result (Z * TokenReader) :=
  if (length r <? n)%nat then Err FailedToParse
  else Ok (readBigEndian (take n r), drop n r).

(** [TokenReader::readSizedString]. *)
Definition reader_readSizedString (r : TokenReader) : result (bytes * TokenReader) :=
  let! (len, r) := reader_readBigEndian 2 r in
  if blen r <? len then Err FailedToParse
  else Ok (take (Z.to_nat len) r, drop (Z.to_nat len) r).

(** [TokenReader::atEnd]. *)
Definition reader_atEnd (r : TokenReader) : bool := bool_decide (r = []).

(** One iteration of [decode]'s entry loop, before the duplicate check. *)
Definition decode_entry (r : TokenReader) : result (CdcResumeTokenEntry * TokenReader) :=
  let! (logGroupId, r) := reader_readBigEndian 4 r in
  let! (formByte, r) := reader_readBigEndian 1 r in
  let! _ := uassert FailedToParse (negb (Form_value kAtKeyAfterPosition <? formByte)) in
  let form := if formByte =? 0 then kAfterKey else kAtKeyAfterPosition in
  let! (dataKey, r) := reader_readSizedString r in
  let! (ddlKey, r) := reader_readSizedString r in
  if bool_decide (form = kAtKeyAfterPosition) then
    let! (section, r) := reader_readBigEndian 4 r in
    let! (entry, r) := reader_readBigEndian 4 r in
    Ok (mkTokenEntry logGroupId form dataKey ddlKey section entry, r)
  else
    Ok (mkTokenEntry logGroupId form dataKey ddlKey 0 0, r).

Fixpoint decode_entries (count : nat) (seenGroups : gset Z) (r : TokenReader)
  : result (list CdcResumeTokenEntry * TokenReader) :=
  match count with
  | O => Ok ([], r)
  | S count' =>
      let! (e, r) := decode_entry r in
      if bool_decide (te_logGroupId e ∈ seenGroups) then Err FailedToParse
      else
        let! (es, r) := decode_entries count' ({[te_logGroupId e]} ∪ seenGroups) r in
        Ok (e :: es, r)
  end.

(** The [static_cast<Kind>] of a checked byte. *)
Definition Kind_of (b : Z) : Kind :=
  if b =? 0 then kEvent else if b =? 1 then kWatermark else kInvalidate.

(** [CdcResumeToken::decode]. *)
Definition decode (bs : bytes) : result CdcResumeToken :=
  let! (version, r) := reader_readBigEndian 1 bs in
  let! _ := uassert FailedToParse (version =? kFormatVersion) in
  let! (timestamp, r) := reader_readBigEndian 8 r in
  let! (kindByte, r) := reader_readBigEndian 1 r in
  let! _ := uassert FailedToParse (negb (Kind_value kInvalidate <? kindByte)) in
  let kind := Kind_of kindByte in
  let! _ := uassert FailedToParse
              (negb (bool_decide (kind = kWatermark) && (timestamp =? u64_max))) in
  let! _ := uassert FailedToParse
              (negb (negb (bool_decide (kind = kWatermark)) && (timestamp =? 0))) in
  let! (entryCount, r) := reader_readBigEndian 2 r in
  let! (entries, r) := decode_entries (Z.to_nat entryCount) ∅ r in
  let! _ := uassert FailedToParse (reader_atEnd r) in
  Ok (mkToken timestamp kind entries).

(** ** The driver-facing form *)

(** One digit of [toHexLower]. *)
Definition hexchar (d : Z) : byte := Z_byte (if d <? 10 then 48 + d else 87 + d).

(** [toHexLower] (util/hex.h). *)
Fixpoint toHexLower (bs : bytes) : bytes :=
  match bs with
  | [] => []
  | b :: bs' =>
      hexchar (Z.shiftr (Z.land (byte_Z b) 0xf0) 4) :: hexchar (Z.land (byte_Z b) 0x0f)
      :: toHexLower bs'
  end.

(** [isxdigit], in the C locale. *)
Definition isxdigit (c : byte) : bool :=
  let z := byte_Z c in
  ((48 <=? z) && (z <=? 57)) || ((97 <=? z) && (z <=? 102)) || ((65 <=? z) && (z <=? 70)).

(** [fromHex(char)]; a character that is no digit fails its [verify]. *)
Definition fromHexChar (c : byte) : result Z :=
  let z := byte_Z c in
  if (48 <=? z) && (z <=? 57) then Ok (z - 48)
  else if (97 <=? z) && (z <=? 102) then Ok (z - 97 + 10)
  else if (65 <=? z) && (z <=? 70) then Ok (z - 65 + 10)
  else Err InvariantFailure.

(** [parse]'s loop over pairs of characters, [fromHex(StringData)] on each. *)
Fixpoint fromHexString (hex : bytes) : result bytes :=
  match hex with
  | c0 :: c1 :: hex' =>
      let! hi := fromHexChar c0 in
      let! lo := fromHexChar c1 in
      let! bs := fromHexString hex' in
      Ok (Z_byte (Z.lor (Z.shiftl hi 4) lo) :: bs)
  | _ => Ok []
  end.

(** [CdcResumeToken::toBSON]. *)
Definition toBSON (t : CdcResumeToken) : result Document :=
  let! bs := encode t in
  Ok [(kDataFieldName, BString (toHexLower bs))].

(** [CdcResumeToken::parse]. *)
Definition parse (token : Document) : result CdcResumeToken :=
  match getField token kDataFieldName with
  | Some (BString hex) =>
      let! _ := uassert FailedToParse (nFields token =? 1) in
      let! _ := uassert FailedToParse (blen hex mod 2 =? 0) in
      let! _ := uassert FailedToParse (forallb isxdigit hex) in
      let! bs := fromHexString hex in
      decode bs
  | Some _ => Err FailedToParse
  | None => Err FailedToParse
  end.

(** ** Well-formed tokens *)

(** What an entry must satisfy for its bytes to carry it: machine widths, keys
    that fit their length field, and a position only in form 1. *)
Definition wf_entry (e : CdcResumeTokenEntry) : Prop :=
  is_u32 (te_logGroupId e) /\ blen (te_dataKey e) <= u16_max /\ blen (te_ddlKey e) <= u16_max /\
  is_u32 (te_section e) /\ is_u32 (te_entry e) /\
  (te_form e = kAfterKey -> te_section e = 0 /\ te_entry e = 0).

(** What a token must satisfy to be issued: at most 65535 entries, one per group,
    and a timestamp that has a resume position. *)
Definition wf_token (t : CdcResumeToken) : Prop :=
  is_u64 (tok_timestamp t) /\
  (tok_kind t = kWatermark -> tok_timestamp t <> u64_max) /\
  (tok_kind t <> kWatermark -> tok_timestamp t <> 0) /\
  Z.of_nat (length (tok_entries t)) <= u16_max /\
  Forall wf_entry (tok_entries t) /\
  NoDup (te_logGroupId <$> tok_entries t).

(** ** Codec laws

    What one field's writer promises its reader: reading back what was written,
    with anything after it left over, and accepting nothing else. *)

Class Codec {A} (put : A -> result bytes) (get : TokenReader -> result (A * TokenReader))
    (wf : A -> Prop) := {
  codec_get_put : forall a r, wf a -> exists bs, put a = Ok bs /\ get (bs ++ r) = Ok (a, r);
  codec_put_get : forall a r r', get r = Ok (a, r') ->
    wf a /\ exists bs, put a = Ok bs /\ r = bs ++ r';
}.

Lemma read_be_app n z r :
  0 <= z < 256 ^ Z.of_nat n ->
  reader_readBigEndian n (appendBigEndian z n ++ r) = Ok (z, r).
Proof.
  intros Hz. unfold reader_readBigEndian.
  rewrite length_app, length_appendBigEndian.
  destruct (Nat.ltb_spec (n + length r) n); [lia|].
  rewrite take_app_length', drop_app_length' by (rewrite length_appendBigEndian; reflexivity).
  rewrite readBigEndian_append, Z.mod_small by lia. reflexivity.
Qed.

Lemma read_be_inv n z r r' :
  reader_readBigEndian n r = Ok (z, r') ->
  0 <= z < 256 ^ Z.of_nat n /\ r = appendBigEndian z n ++ r'.
Proof.
  intros H. unfold reader_readBigEndian in H.
  destruct (Nat.ltb_spec (length r) n) as [|Hl]; [discriminate|].
  injection H as <- <-.
  assert (length (take n r) = n) as Ht by (rewrite length_take; lia).
  split.
  - pose proof (readBigEndian_range (take n r)) as Hr.
    unfold blen in Hr. rewrite Ht in Hr. exact Hr.
  - pose proof (append_readBigEndian (take n r)) as Ea.
    rewrite Ht in Ea. rewrite Ea, take_drop. reflexivity.
Qed.

#[global] Instance bigEndian_Codec n :
  Codec (fun z => Ok (appendBigEndian z n)) (reader_readBigEndian n)
        (fun z => 0 <= z < 256 ^ Z.of_nat n).
Proof.
  constructor; intros.
  - eexists; split; [reflexivity|]. apply read_be_app. auto.
  - apply read_be_inv in H as [? ->]. eauto.
Qed.

Lemma appendSizedString_Ok s :
  blen s <= u16_max -> appendSizedString s = Ok (appendBigEndian (blen s) 2 ++ s).
Proof.
  intros. unfold appendSizedString, uassert. rewrite (proj2 (Z.leb_le _ _)) by lia. reflexivity.
Qed.

Lemma read_sized_app s r :
  blen s <= u16_max ->
  reader_readSizedString (appendBigEndian (blen s) 2 ++ s ++ r) = Ok (s, r).
Proof.
  intros Hs. pose proof (blen_nonneg s). pose proof (blen_nonneg r).
  unfold reader_readSizedString, u16_max in *.
  rewrite read_be_app by (change (256 ^ _) with (2 ^ 16); lia).
  cbn [rbind]. rewrite blen_app.
  destruct (Z.ltb_spec (blen s + blen r) (blen s)) as [|_]; [lia|].
  unfold blen. rewrite Nat2Z.id, take_app_length, drop_app_length. reflexivity.
Qed.

Lemma read_sized_inv s r r' :
  reader_readSizedString r = Ok (s, r') ->
  blen s <= u16_max /\ r = (appendBigEndian (blen s) 2 ++ s) ++ r'.
Proof.
  intros H. unfold reader_readSizedString in H. ok_inv H. destruct a as [len r1].
  apply read_be_inv in E as [Hlen ->]. change (256 ^ _) with (2 ^ 16) in Hlen.
  destruct (Z.ltb_spec (blen r1) len) as [|Hge]; [discriminate|].
  injection H as <- <-.
  assert (blen (take (Z.to_nat len) r1) = len) as ->
    by (unfold blen in *; rewrite length_take; lia).
  unfold u16_max. rewrite <- app_assoc, take_drop. auto with lia.
Qed.

#[global] Instance sizedString_Codec :
  Codec appendSizedString reader_readSizedString (fun s => blen s <= u16_max).
Proof.
  constructor.
  - intros s r Hs. eexists. split; [by apply appendSizedString_Ok|].
    rewrite <- app_assoc. by apply read_sized_app.
  - intros s r r' [Hs ->]%read_sized_inv. split; [done|].
    eexists. split; [by apply appendSizedString_Ok|done].
Qed.

Lemma is_u32_be z : is_u32 z <-> 0 <= z < 256 ^ Z.of_nat 4.
Proof. unfold is_u32. change (256 ^ Z.of_nat 4) with (2 ^ 32). tauto. Qed.

Lemma byte_be z : 0 <= z < 256 -> [Z_byte z] = appendBigEndian z 1.
Proof.
  intros. unfold appendBigEndian. change (8 * Z.of_nat 0) with 0.
  rewrite Z.shiftr_0_r, land_255, Z.mod_small by lia. reflexivity.
Qed.

#[global] Instance entry_Codec : Codec encode_entry decode_entry wf_entry.
Proof.
  constructor.
  - intros [g f dk dd s e] r (Hg & Hdk & Hdd & Hs & He & Hf); cbn in *.
    unfold encode_entry; cbn [te_dataKey te_ddlKey te_logGroupId te_form te_section te_entry].
    rewrite !appendSizedString_Ok by done. cbn [rbind].
    eexists; split; [reflexivity|].
    rewrite byte_be by (destruct f; cbn; lia). rewrite <- !app_assoc.
    unfold decode_entry.
    rewrite read_be_app by (by apply is_u32_be). cbn [rbind].
    rewrite read_be_app by (destruct f; cbn; lia). cbn [rbind].
    destruct f; cbn -[app];
      (rewrite read_sized_app by done; cbn -[app];
       rewrite read_sized_app by done; cbn -[app]).
    + destruct Hf as [-> ->]; done.
    + rewrite !bool_decide_eq_true_2, <- !app_assoc by done.
      rewrite read_be_app by (by apply is_u32_be). cbn -[app].
      rewrite read_be_app by (by apply is_u32_be). done.
  - intros e r r' H. unfold decode_entry in H.
    ok_inv H. destruct a as [g r1]. apply read_be_inv in E as [Hg ->].
    ok_inv H. destruct a as [fb r2]. apply read_be_inv in E as [Hfb ->].
    ok_inv H. apply uassert_Ok in E. boolprop. cbn in E.
    ok_inv H. destruct a0 as [dk r3]. apply read_sized_inv in E0 as [Hdk ->].
    ok_inv H. destruct a0 as [dd r4]. apply read_sized_inv in E0 as [Hdd ->].
    assert (fb = 0 \/ fb = 1) as [->| ->] by (cbn in Hfb; lia); cbn in H.
    + injection H as <- <-. split.
      { repeat split; cbn; try apply is_u32_be; done. }
      unfold encode_entry; cbn [te_dataKey te_ddlKey te_logGroupId te_form te_section te_entry].
      rewrite !appendSizedString_Ok by done. cbn [rbind].
      eexists; split; [reflexivity|].
      rewrite byte_be by (cbn; lia). cbn -[app]. rewrite app_nil_r, !app_assoc. done.
    + rewrite bool_decide_eq_true_2 in H by done.
      ok_inv H. destruct a0 as [s r5]. apply read_be_inv in E0 as [Hs ->].
      ok_inv H. destruct a0 as [en r6]. apply read_be_inv in E0 as [He ->].
      injection H as <- <-. split.
      { repeat split; cbn; try (by apply is_u32_be); try done. }
      unfold encode_entry; cbn [te_dataKey te_ddlKey te_logGroupId te_form te_section te_entry].
      rewrite !appendSizedString_Ok by done. cbn [rbind].
      eexists; split; [reflexivity|].
      rewrite byte_be by (cbn; lia).
      rewrite bool_decide_eq_true_2 by done. cbn -[app]. rewrite !app_assoc. done.
Qed.

Lemma entries_get_put es : forall seen r,
  Forall wf_entry es -> NoDup (te_logGroupId <$> es) ->
  (forall e, e ∈ es -> te_logGroupId e ∉ seen) ->
  exists bs, encode_entries es = Ok bs /\
    decode_entries (length es) seen (bs ++ r) = Ok (es, r).
Proof.
  induction es as [|e es IH]; intros seen r Hwf Hnd Hseen.
  { eexists; split; reflexivity. }
  apply Forall_cons in Hwf as [He Hes]. apply NoDup_cons in Hnd as [Hn Hnd].
  destruct (IH ({[te_logGroupId e]} ∪ seen) r) as (bs & Hbs & Hd); [done|done| |].
  { intros e' He' [Heq%elem_of_singleton|?]%elem_of_union.
    - apply Hn. rewrite <- Heq. by apply list_elem_of_fmap_2.
    - eapply Hseen; [by right|done]. }
  destruct (codec_get_put e (bs ++ r) He) as (b & Hb & Hg).
  exists (b ++ bs). cbn. rewrite Hb, Hbs. cbn. split; [done|].
  rewrite <- app_assoc, Hg. cbn.
  rewrite bool_decide_eq_false_2 by (apply Hseen; left). rewrite Hd. done.
Qed.

Lemma entries_put_get n : forall seen r es r',
  decode_entries n seen r = Ok (es, r') ->
  length es = n /\ Forall wf_entry es /\ NoDup (te_logGroupId <$> es) /\
  (forall e, e ∈ es -> te_logGroupId e ∉ seen) /\
  exists bs, encode_entries es = Ok bs /\ r = bs ++ r'.
Proof.
  induction n as [|n IH]; intros seen r es r' H; cbn in H.
  { injection H as <- <-. repeat split; [constructor|constructor|set_solver|].
    exists []. done. }
  ok_inv H. destruct a as [e r1]. apply codec_put_get in E as (He & b & Hb & ->).
  case_bool_decide as Hin; [discriminate|].
  ok_inv H. destruct a as [es' r2]. injection H as <- <-.
  apply IH in E as (Hl & Hwf & Hnd & Hseen & bs & Hbs & ->).
  split; [cbn; lia|]. split; [by constructor|]. split.
  { apply NoDup_cons. split; [|done].
    intros (e' & Heq & He')%list_elem_of_fmap. apply (Hseen e' He'). rewrite Heq. set_solver. }
  split.
  { intros e' [->|He']%elem_of_cons; [done|]. specialize (Hseen e' He'). set_solver. }
  exists (b ++ bs). cbn. rewrite Hb, Hbs, app_assoc. done.
Qed.

Lemma is_u64_be z : is_u64 z <-> 0 <= z < 256 ^ Z.of_nat 8.
Proof. unfold is_u64. change (256 ^ Z.of_nat 8) with (2 ^ 64). tauto. Qed.

Lemma Kind_of_value k : Kind_of (Kind_value k) = k.
Proof. by destruct k. Qed.

Lemma decode_encode t :
  wf_token t -> exists bs, encode t = Ok bs /\ decode bs = Ok t.
Proof.
  destruct t as [ts k es]. intros (Hts & Hw & He & Hn & Hwf & Hnd); cbn in *.
  destruct (entries_get_put es ∅ []) as (bs & Hbs & Hd); [done|done|set_solver|].
  rewrite app_nil_r in Hd. unfold u16_max in Hn.
  eexists; split.
  { unfold encode, uassert, u16_max; cbn [tok_entries].
    rewrite (proj2 (Z.leb_le _ _)) by lia. cbn [rbind]. rewrite Hbs. reflexivity. }
  cbn [tok_timestamp tok_kind tok_entries].
  rewrite !byte_be by (unfold kFormatVersion; destruct k; cbn; lia). unfold decode.
  rewrite read_be_app by (unfold kFormatVersion; cbn; lia). cbn -[app].
  rewrite read_be_app by (by apply is_u64_be). cbn -[app].
  rewrite read_be_app by (destruct k; cbn; lia). cbn -[app].
  rewrite Kind_of_value.
  assert ((2 <? Kind_value k) = false) as -> by (by destruct k). cbn -[app].
  assert (bool_decide (k = kWatermark) && (ts =? u64_max) = false) as ->.
  { apply andb_false_iff. case_bool_decide; [right|by left]. apply Z.eqb_neq. auto. }
  assert (negb (bool_decide (k = kWatermark)) && (ts =? 0) = false) as ->.
  { apply andb_false_iff. case_bool_decide; [by left|right]. apply Z.eqb_neq. auto. }
  cbn -[app]. rewrite read_be_app by (change (256 ^ _) with (2 ^ 16); lia).
  cbn -[app]. rewrite Nat2Z.id, Hd. reflexivity.
Qed.

Lemma encode_decode bs t :
  decode bs = Ok t -> wf_token t /\ encode t = Ok bs.
Proof.
  intros H. unfold decode in H.
  ok_inv H. destruct a as [v r1]. apply read_be_inv in E as [Hv ->].
  ok_inv H. apply uassert_Ok in E. boolprop. subst v.
  ok_inv H. destruct a0 as [ts r2]. apply read_be_inv in E as [Hts ->].
  ok_inv H. destruct a0 as [kb r3]. apply read_be_inv in E as [Hkb ->].
  ok_inv H. apply uassert_Ok, negb_true_iff in E.
  assert (exists k, kb = Kind_value k) as [k ->].
  { cbn in E, Hkb. boolprop. assert (kb = 0 \/ kb = 1 \/ kb = 2) as [->|[->| ->]] by lia;
      [by exists kEvent|by exists kWatermark|by exists kInvalidate]. }
  rewrite Kind_of_value in H. clear E.
  ok_inv H. apply uassert_Ok, negb_true_iff, andb_false_iff in E.
  ok_inv H. apply uassert_Ok, negb_true_iff, andb_false_iff in E0.
  ok_inv H. destruct a3 as [n r4]. apply read_be_inv in E1 as [Hn ->].
  change (256 ^ _) with (2 ^ 16) in Hn.
  ok_inv H. destruct a3 as [es r5].
  ok_inv H. apply uassert_Ok in E2. unfold reader_atEnd in E2. boolprop. subst r5.
  injection H as <-.
  apply entries_put_get in E1 as (Hl & Hwf & Hnd & _ & b & Hb & ->).
  rewrite app_nil_r.
  assert (Z.of_nat (length es) = n) as Hln by lia.
  split.
  - split; [by apply is_u64_be|]. cbn. split.
    { intros ->. destruct E as [|?]; [discriminate|]. boolprop. done. }
    split.
    { intros Hk. rewrite bool_decide_eq_false_2 in E0 by done.
      destruct E0 as [|?]; [discriminate|]. boolprop. done. }
    unfold u16_max. auto with lia.
  - unfold encode, uassert, u16_max; cbn [tok_entries tok_timestamp tok_kind].
    rewrite (proj2 (Z.leb_le _ _)) by lia. cbn -[app]. rewrite Hb. cbn -[app].
    rewrite !byte_be by (unfold kFormatVersion; destruct k; cbn; lia). rewrite Hln. reflexivity.
Qed.

(** *** Hexadecimal *)

Lemma hexchar_range d : 0 <= d < 16 ->
  isxdigit (hexchar d) = true /\ fromHexChar (hexchar d) = Ok d.
Proof.
  intros Hd.
  assert (forallb (fun d => isxdigit (hexchar d) &&
            bool_decide (fromHexChar (hexchar d) = Ok d)) (seqZ 0 16) = true) as H
    by (vm_compute; reflexivity).
  rewrite forallb_forall in H. specialize (H d).
  rewrite <- list_elem_of_In, elem_of_seqZ in H. specialize (H ltac:(lia)). boolprop. done.
Qed.

Lemma nibbles z : 0 <= z < 256 ->
  0 <= Z.shiftr (Z.land z 0xf0) 4 < 16 /\ 0 <= Z.land z 0x0f < 16 /\
  Z.lor (Z.shiftl (Z.shiftr (Z.land z 0xf0) 4) 4) (Z.land z 0x0f) = z.
Proof.
  intros Hz.
  assert (forallb (fun z =>
            (0 <=? Z.shiftr (Z.land z 0xf0) 4) && (Z.shiftr (Z.land z 0xf0) 4 <? 16) &&
            ((0 <=? Z.land z 0x0f) && (Z.land z 0x0f <? 16)) &&
            (Z.lor (Z.shiftl (Z.shiftr (Z.land z 0xf0) 4) 4) (Z.land z 0x0f) =? z))
          (seqZ 0 256) = true) as H by (vm_compute; reflexivity).
  rewrite forallb_forall in H. specialize (H z).
  rewrite <- list_elem_of_In, elem_of_seqZ in H. specialize (H ltac:(lia)). boolprop. lia.
Qed.

Lemma fromHexString_toHexLower bs : fromHexString (toHexLower bs) = Ok bs.
Proof.
  induction bs as [|b bs IH]; [done|]. cbn [toHexLower fromHexString].
  destruct (nibbles (byte_Z b)) as (Hh & Hl & Heq); [apply byte_Z_range|].
  destruct (hexchar_range _ Hh) as [_ ->], (hexchar_range _ Hl) as [_ ->]. cbn [rbind].
  rewrite IH, Heq, Z_byte_Z. done.
Qed.

Lemma toHexLower_valid bs :
  forallb isxdigit (toHexLower bs) = true /\ blen (toHexLower bs) = 2 * blen bs.
Proof.
  induction bs as [|b bs [IH1 IH2]]; [done|]. cbn [toHexLower forallb].
  destruct (nibbles (byte_Z b)) as (Hh & Hl & _); [apply byte_Z_range|].
  destruct (hexchar_range _ Hh) as [-> _], (hexchar_range _ Hl) as [-> _].
  split; [done|]. unfold blen in *. cbn. lia.
Qed.

(** ** Properties *)

(** C7. Decoding is the exact inverse of encoding: a byte string decodes to a token if
    and only if the token is well formed and encodes to precisely those bytes. So no
    token a server issues is refused or read differently, and no malformed, truncated,
    padded or ambiguous byte string is accepted. *)
Theorem decode_iff_encode bs t :
  decode bs = Ok t <-> wf_token t /\ encode t = Ok bs.
Proof.
  split; [apply encode_decode|].
  intros [Hwf He]. destruct (decode_encode t Hwf) as (bs' & He' & Hd). congruence.
Qed.

Lemma toBSON_parse t :
  wf_token t -> exists doc, toBSON t = Ok doc /\ parse doc = Ok t.
Proof.
  intros Hwf. destruct (decode_encode t Hwf) as (bs & He & Hd).
  exists [(kDataFieldName, BString (toHexLower bs))]. unfold toBSON. rewrite He.
  split; [done|]. unfold parse. rewrite getField_cons_eq.
  destruct (toHexLower_valid bs) as [Hx Hl]. rewrite Hx, Hl.
  rewrite Z.mul_comm, Z.mod_mul by lia. cbn [uassert rbind].
  rewrite fromHexString_toHexLower. exact Hd.
Qed.

Lemma parse_wf doc t : parse doc = Ok t -> wf_token t.
Proof.
  unfold parse. destruct (getField doc kDataFieldName) as [[]|]; try done. intros H.
  do 4 ok_inv H. by apply encode_decode in H as [? _].
Qed.


Definition token_ex : CdcResumeToken :=
  mkToken 1700000000000001 kEvent
    [mkTokenEntry 0 kAtKeyAfterPosition (appendBigEndian 1700000000000001 8 ++ lit "ng-txn") [] 2 7;
     mkTokenEntry 3 kAfterKey [] (appendBigEndian 1700000000000001 8 ++ lit "txn") 0 0].

Lemma wf_token_ex : wf_token token_ex.
Proof.
  repeat split; cbn; try done; try lia.
  - repeat constructor; cbn; try done; try lia; unfold is_u32; cbn; lia.
  - repeat constructor; cbn; set_solver by lia.
Qed.


(** A token that decodes always names a resume position: a group it has no entry for
    restarts at a timestamp of at least 1 that fits 64 bits, at the token's timestamp for
    an event or invalidate token and one above it, without wrapping, for a watermark. *)
Theorem decoded_token_has_start bs t :
  decode bs = Ok t ->
  exists from, startTimestampForAbsentGroup t = Ok from /\ 1 <= from < 2 ^ 64 /\
    from = (if bool_decide (tok_kind t = kWatermark) then tok_timestamp t + 1
            else tok_timestamp t).
Proof.
  intros [(Hts & Hw & He & _) _]%encode_decode.
  unfold startTimestampForAbsentGroup, uassert, is_u64, u64_max in *.
  case_bool_decide as Hk; cbn [negb].
  - destruct (Z.eqb_spec (tok_timestamp t) (2 ^ 64 - 1)); [exfalso; by apply (Hw Hk)|].
    cbn. eexists; split; [done|]. unfold wrap64. rewrite Z.mod_small by lia. lia.
  - specialize (He Hk). destruct (Z.eqb_spec (tok_timestamp t) 0); [done|].
    cbn. eexists; split; [done|]. lia.
Qed.

Lemma decoded_token_has_start_witness :
  exists bs, encode token_ex = Ok bs /\
  exists from, startTimestampForAbsentGroup token_ex = Ok from /\ 1 <= from < 2 ^ 64 /\
    from = 1700000000000001.
Proof.
  eexists. split; [vm_compute; reflexivity|].
  destruct (decoded_token_has_start
    (match encode token_ex with Ok b => b | Err _ => [] end) token_ex) as (from & H1 & H2 & H3);
    [vm_compute; reflexivity|].
  exists from. split; [exact H1|]. split; [exact H2|]. rewrite H3. reflexivity.
Defined.
