(* ===== verification/BlobDecoder.v ===== *)
(** * Redo-log blobs and stream scopes (base/cdc_blob_decoder.h, base/cdc_blob_decoder.cpp)

    The scope that decides which namespaces a stream reports, and the decoder
    that walks one node group's redo-log blob, section by section and entry by
    entry. The writer's side of the format (a list of sections) is stated as
    [encode_blob], against which the decoder is proved to return exactly the
    in-scope changes, numbered by their place in the whole blob. *)

From S2P Require Import Prelude Bytes Bson.
#[local] Open Scope Z_scope.

(** ** Scopes *)

(** [CdcStreamScope::Kind] with its target. *)
Inductive CdcStreamScope :=
| scope_deployment
| scope_database (db : bytes)
| scope_collection (ns : bytes).

Definition isExcludedDatabase (db : bytes) : bool :=
  bytes_eqb db (lit "local") || bytes_eqb db (lit "admin") || bytes_eqb db (lit "config").

(** [databaseOf]: what precedes the first dot, or everything without one. *)
Fixpoint databaseOf (ns : bytes) : bytes :=
  match ns with
  | [] => []
  | b :: ns' => if byte_Z b =? 46 then [] else b :: databaseOf ns'
  end.

(** [CdcStreamScope::includes]. *)
Definition includes (scope : CdcStreamScope) (ns : bytes) : bool :=
  let db := databaseOf ns in
  if isExcludedDatabase db then false
  else match scope with
       | scope_deployment => true
       | scope_database target => bytes_eqb db target
       | scope_collection target => bytes_eqb ns target
       end.

(** [CdcStreamScope::isCollection]. *)
Definition isCollection (scope : CdcStreamScope) (ns : bytes) : bool :=
  match scope with
  | scope_collection target => bytes_eqb ns target
  | _ => false
  end.

(** ** Entries *)

(** [CdcOperation]. *)
Inductive CdcOperation := kUpdate | kDelete | kInsert | kUpsert.

#[global] Instance CdcOperation_eq_dec : EqDecision CdcOperation.
Proof. solve_decision. Defined.

Definition CdcOperation_value (op : CdcOperation) : Z :=
  match op with kUpdate => 1 | kDelete => 2 | kInsert => 3 | kUpsert => 4 end.

(** [CdcBlobDecoder::Entry]. *)
Record Entry := mkEntry {
  e_section : Z;
  e_entry : Z;
  e_ns : bytes;
  e_op : CdcOperation;
  e_keyString : bytes;
  e_record : bytes;
}.

#[global] Instance Entry_eq_dec : EqDecision Entry.
Proof. solve_decision. Defined.

(** ** Reading

    [readNative] and [readBytes] take a buffer and an offset into it and return
    the value and the advanced offset. The bounds test is the source's, on
    [size_t]: [buf.size() - *offset] wraps if the offset is past the end. *)

Definition size_minus (buf : bytes) (offset : Z) : Z := wrap64 (blen buf - offset).

Definition readNative (n : nat) (buf : bytes) (offset : Z) : result (Z * Z) :=
  let! _ := uassert BadValue (Z.of_nat n <=? size_minus buf offset) in
  Ok (readNativeBytes (take n (drop (Z.to_nat offset) buf)), offset + Z.of_nat n).

Definition readBytes (buf : bytes) (offset len : Z) : result (bytes * Z) :=
  let! _ := uassert BadValue (len <=? size_minus buf offset) in
  Ok (take (Z.to_nat len) (drop (Z.to_nat offset) buf), offset + len).

(** [sizeof(size_t)]. *)
Definition size_t_bytes : nat := 8.

(** [Entry::documentBson]. *)
Definition documentBson (e : Entry) : result bytes :=
  if bool_decide (e_record e = []) then Ok []
  else
    let! (unpackLen, offset) := readNative size_t_bytes (e_record e) 0 in
    let! (_, offset) := readBytes (e_record e) offset unpackLen in
    let! (blobLen, offset) := readNative size_t_bytes (e_record e) offset in
    let! (doc, _) := readBytes (e_record e) offset blobLen in
    Ok doc.

(** ** The decoder *)

Definition kTableEngineEloqDoc : Z := 3.
Definition kTableTypePrimary : Z := 0.

(** [CdcBlobDecoder]'s members; the [StringData] views are the bytes they view. *)
Record CdcBlobDecoder := mkDecoder {
  d_blob : bytes;
  d_scope : CdcStreamScope;
  d_blobOffset : Z;
  d_sectionEntries : bytes;
  d_entryOffset : Z;
  d_sectionNs : bytes;
  d_currentSection : Z;
  d_sectionsSeen : Z;
  d_entryOrdinal : Z;
}.

(** The constructor. *)
Definition newDecoder (blob : bytes) (scope : CdcStreamScope) : CdcBlobDecoder :=
  mkDecoder blob scope 0 [] 0 [] 0 0 0.

(** A section header and body as [advanceToNextInScopeSection] reads them:
    (name, engine, type, entries, offset after the section). *)
Definition readSection (blob : bytes) (offset : Z) : result (bytes * Z * Z * bytes * Z) :=
  let! (nameLen, offset) := readNative 1 blob offset in
  let! (name, offset) := readBytes blob offset nameLen in
  let! (engine, offset) := readNative 1 blob offset in
  let! (type, offset) := readNative 1 blob offset in
  let! (kvLen, offset) := readNative 4 blob offset in
  let! (entries, offset) := readBytes blob offset kvLen in
  Ok (name, engine, type, entries, offset).

(** [advanceToNextInScopeSection]; the fuel bounds its loop, which consumes at
    least seven bytes of the blob per iteration. *)
Fixpoint advanceToNextInScopeSection (fuel : nat) (d : CdcBlobDecoder) : result CdcBlobDecoder :=
  match fuel with
  | O => Err InvariantFailure
  | S fuel' =>
      if d_blobOffset d <? blen (d_blob d) then
        let! (name, engine, type, entries, offset) := readSection (d_blob d) (d_blobOffset d) in
        let ordinal := d_sectionsSeen d in
        let d' := mkDecoder (d_blob d) (d_scope d) offset (d_sectionEntries d) (d_entryOffset d)
                    (d_sectionNs d) (d_currentSection d) (wrap32 (ordinal + 1))
                    (d_entryOrdinal d) in
        if negb (engine =? kTableEngineEloqDoc) || negb (type =? kTableTypePrimary) then
          advanceToNextInScopeSection fuel' d'
        else if negb (includes (d_scope d) name) then
          advanceToNextInScopeSection fuel' d'
        else
          Ok (mkDecoder (d_blob d) (d_scope d) offset entries 0 name ordinal
                (wrap32 (ordinal + 1)) 0)
      else
        Ok (mkDecoder (d_blob d) (d_scope d) (d_blobOffset d) [] 0 (d_sectionNs d)
              (d_currentSection d) (d_sectionsSeen d) (d_entryOrdinal d))
  end.

(** Enough for any blob: one more than its length. *)
Definition section_fuel (d : CdcBlobDecoder) : nat := S (length (d_blob d)).

(** The cast of a checked operation byte. *)
Definition CdcOperation_of (b : Z) : CdcOperation :=
  if b =? 1 then kUpdate else if b =? 2 then kDelete else if b =? 3 then kInsert else kUpsert.

(** The loop at the head of [next]: skips exhausted sections; the flag is false
    at the end of the blob, where [next] returns false. *)
Fixpoint findEntry (fuel : nat) (d : CdcBlobDecoder) : result (bool * CdcBlobDecoder) :=
  match fuel with
  | O => Err InvariantFailure
  | S fuel' =>
      if blen (d_sectionEntries d) <=? d_entryOffset d then
        if blen (d_blob d) <=? d_blobOffset d then Ok (false, d)
        else
          let! d := advanceToNextInScopeSection (section_fuel d) d in
          findEntry fuel' d
      else Ok (true, d)
  end.

(** One entry of a section at an offset: (operation, key, record, next offset). *)
Definition readEntry (buf : bytes) (offset : Z)
  : result (CdcOperation * bytes * bytes * Z) :=
  let! (keyLen, offset) := readNative 2 buf offset in
  let! (key, offset) := readBytes buf offset keyLen in
  let! (opByte, offset) := readNative 1 buf offset in
  let! _ := uassert BadValue ((CdcOperation_value kUpdate <=? opByte)
                              && (opByte <=? CdcOperation_value kUpsert)) in
  let op := CdcOperation_of opByte in
  if negb (bool_decide (op = kDelete)) then
    let start := offset in
    let! (unpackLen, offset) := readNative size_t_bytes buf offset in
    let! (_, offset) := readBytes buf offset unpackLen in
    let! (blobLen, offset) := readNative size_t_bytes buf offset in
    let! (_, offset) := readBytes buf offset blobLen in
    Ok (op, key, take (Z.to_nat (offset - start)) (drop (Z.to_nat start) buf), offset)
  else
    Ok (op, key, [], offset).

(** [CdcBlobDecoder::next]: the next in-scope entry and the decoder after it, or
    [None] once the blob is exhausted. *)
Definition next (d : CdcBlobDecoder) : result (option Entry * CdcBlobDecoder) :=
  let! (found, d) := findEntry (section_fuel d) d in
  if found then
    let! (op, key, record, offset) := readEntry (d_sectionEntries d) (d_entryOffset d) in
    Ok (Some (mkEntry (d_currentSection d) (d_entryOrdinal d) (d_sectionNs d) op key record),
        mkDecoder (d_blob d) (d_scope d) (d_blobOffset d) (d_sectionEntries d) offset
          (d_sectionNs d) (d_currentSection d) (d_sectionsSeen d)
          (wrap32 (d_entryOrdinal d + 1)))
  else Ok (None, d).

(** Every entry the decoder yields, as a caller draining it sees them. *)
Fixpoint drain (fuel : nat) (d : CdcBlobDecoder) : result (list Entry) :=
  match fuel with
  | O => Err InvariantFailure
  | S fuel' =>
      let! (e, d) := next d in
      match e with
      | None => Ok []
      | Some e => let! es := drain fuel' d in Ok (e :: es)
      end
  end.

Definition decodeBlob (blob : bytes) (scope : CdcStreamScope) : result (list Entry) :=
  drain (S (length blob)) (newDecoder blob scope).

(** ** The format, as a grammar on what is left to read

    The same parse on the unread suffix, without offsets: the reference the
    decoder is proved equal to. *)

Module Ref.

Definition num (n : nat) (s : bytes) : result (Z * bytes) :=
  if (length s <? n)%nat then Err BadValue
  else Ok (readNativeBytes (take n s), drop n s).

Definition str (len : Z) (s : bytes) : result (bytes * bytes) :=
  if blen s <? len then Err BadValue
  else Ok (take (Z.to_nat len) s, drop (Z.to_nat len) s).

Record section := mkSection {
  s_name : bytes; s_engine : Z; s_type : Z; s_body : bytes;
}.

Definition parse_section (s : bytes) : result (section * bytes) :=
  let! (nameLen, s) := num 1 s in
  let! (name, s) := str nameLen s in
  let! (engine, s) := num 1 s in
  let! (type, s) := num 1 s in
  let! (kvLen, s) := num 4 s in
  let! (entries, s) := str kvLen s in
  Ok (mkSection name engine type entries, s).

Definition parse_record (s : bytes) : result (bytes * bytes * bytes) :=
  let! (unpackLen, s) := num size_t_bytes s in
  let! (unpack, s) := str unpackLen s in
  let! (blobLen, s) := num size_t_bytes s in
  let! (doc, s) := str blobLen s in
  Ok (unpack, doc, s).

Definition parse_entry (s : bytes) : result (CdcOperation * bytes * bytes * bytes) :=
  let! (keyLen, s) := num 2 s in
  let! (key, s) := str keyLen s in
  let! (opByte, s) := num 1 s in
  let! _ := uassert BadValue ((1 <=? opByte) && (opByte <=? 4)) in
  let op := CdcOperation_of opByte in
  if bool_decide (op = kDelete) then Ok (op, key, [], s)
  else
    let! (_, _, s') := parse_record s in
    Ok (op, key, take (length s - length s') s, s').

(** The entries of a section's body, numbered from [ord]. *)
Fixpoint parse_entries (fuel : nat) (section : Z) (ns : bytes) (ord : Z) (s : bytes)
  : result (list Entry) :=
  match fuel, s with
  | _, [] => Ok []
  | O, _ => Err BadValue
  | S fuel', _ =>
      let! (op, key, record, s) := parse_entry s in
      let! es := parse_entries fuel' section ns (ord + 1) s in
      Ok (mkEntry section ord ns op key record :: es)
  end.

(** Whether the stream walks a section. *)
Definition wanted (scope : CdcStreamScope) (x : section) : bool :=
  (s_engine x =? kTableEngineEloqDoc) && (s_type x =? kTableTypePrimary)
  && includes scope (s_name x).

Definition section_entries (scope : CdcStreamScope) (i : Z) (x : section) : result (list Entry) :=
  if wanted scope x then parse_entries (length (s_body x)) i (s_name x) 0 (s_body x)
  else Ok [].

(** The in-scope entries of the sections left in [s], the first numbered [i]. *)
Fixpoint parse_sections (fuel : nat) (scope : CdcStreamScope) (i : Z) (s : bytes)
  : result (list Entry) :=
  match fuel, s with
  | _, [] => Ok []
  | O, _ => Err BadValue
  | S fuel', _ =>
      let! (x, s) := parse_section s in
      let! es := section_entries scope i x in
      let! rest := parse_sections fuel' scope (i + 1) s in
      Ok (es ++ rest)
  end.

Definition parse_blob (scope : CdcStreamScope) (s : bytes) : result (list Entry) :=
  parse_sections (length s) scope 0 s.

End Ref.

(** ** The decoder refines the grammar *)

(** Both sides succeed with related values or both fail with [BadValue]. *)
Definition rel {A B} (R : A -> B -> Prop) (x : result A) (y : result B) : Prop :=
  match x, y with
  | Ok a, Ok b => R a b
  | Err BadValue, Err BadValue => True
  | _, _ => False
  end.

Lemma rel_bind {A B C D} (R : A -> B -> Prop) (S : C -> D -> Prop) m m' f g :
  rel R m m' -> (forall a b, R a b -> rel S (f a) (g b)) -> rel S (rbind m f) (rbind m' g).
Proof. destruct m as [|[]], m' as [|[]]; cbn; naive_solver. Qed.

Lemma rel_eq {A} (x y : result A) : rel eq x y -> x = y.
Proof. destruct x as [|[]], y as [|[]]; cbn; naive_solver. Qed.

(** An offset into [buf], no lower than [off], against the suffix it leaves. *)
Definition cursor {A} (buf : bytes) (off : Z) (x : A * Z) (y : A * bytes) : Prop :=
  fst x = fst y /\ off <= snd x <= blen buf /\ snd y = drop (Z.to_nat (snd x)) buf.

Section Reading.
Context (buf : bytes) (Hbuf : blen buf < 2 ^ 64).

Lemma size_minus_ok off : 0 <= off <= blen buf -> size_minus buf off = blen buf - off.
Proof. intros. unfold size_minus, wrap64. apply Z.mod_small. lia. Qed.

Lemma readNative_rel n off :
  0 <= off <= blen buf ->
  rel (fun x y => cursor buf off x y /\ 0 <= fst x)
    (readNative n buf off) (Ref.num n (drop (Z.to_nat off) buf)).
Proof.
  intros Hoff. unfold readNative, Ref.num, uassert. rewrite size_minus_ok by done.
  unfold blen in *. rewrite length_drop.
  destruct (Z.leb_spec (Z.of_nat n) (Z.of_nat (length buf) - off)),
    (Nat.ltb_spec (length buf - Z.to_nat off) n); try lia; cbn; [|done].
  split; [|apply readNative_range].
  split; [done|]. split; [unfold blen; cbn; lia|].
  cbn. rewrite drop_drop. f_equal. lia.
Qed.

Lemma readBytes_rel len off :
  0 <= off <= blen buf -> 0 <= len ->
  rel (cursor buf off) (readBytes buf off len) (Ref.str len (drop (Z.to_nat off) buf)).
Proof.
  intros Hoff Hlen. unfold readBytes, Ref.str, uassert. rewrite size_minus_ok by done.
  unfold blen in *. rewrite length_drop.
  destruct (Z.leb_spec len (Z.of_nat (length buf) - off)),
    (Z.ltb_spec (Z.of_nat (length buf - Z.to_nat off)) len); try lia; cbn; [|done].
  split; [done|]. split; [unfold blen; cbn; lia|].
  cbn. rewrite drop_drop. f_equal. lia.
Qed.

End Reading.

(** Steps through one read on both sides. *)
Ltac step_num :=
  eapply rel_bind;
  [ apply readNative_rel; lia
  | let v := fresh "v" in let o := fresh "o" in let s := fresh "s" in
    intros [v o] [? s] [(? & ? & ?) ?]; cbn in *; subst ].

Ltac step_str :=
  eapply rel_bind;
  [ apply readBytes_rel; lia
  | let v := fresh "v" in let o := fresh "o" in let s := fresh "s" in
    intros [v o] [? s] (? & ? & ?); cbn in *; subst ].

Lemma readSection_rel blob off :
  blen blob < 2 ^ 64 -> 0 <= off <= blen blob ->
  rel (fun '(name, engine, type, entries, o) '(x, s) =>
         x = Ref.mkSection name engine type entries /\ 0 <= o <= blen blob /\
         s = drop (Z.to_nat o) blob)
    (readSection blob off) (Ref.parse_section (drop (Z.to_nat off) blob)).
Proof.
  intros Hb Hoff. unfold readSection, Ref.parse_section.
  step_num. step_str. step_num. step_num. step_num. step_str. split_and!; [done|lia|lia|done].
Qed.

Lemma readEntry_rel buf off :
  blen buf < 2 ^ 64 -> 0 <= off <= blen buf ->
  rel (fun '(op, key, record, o) '(op', key', record', s) =>
         op = op' /\ key = key' /\ record = record' /\ 0 <= o <= blen buf /\
         s = drop (Z.to_nat o) buf)
    (readEntry buf off) (Ref.parse_entry (drop (Z.to_nat off) buf)).
Proof.
  intros Hb Hoff. unfold readEntry, Ref.parse_entry.
  step_num. step_str. step_num.
  eapply (rel_bind eq); [unfold uassert; cbn; by destruct (_ && _)|]. intros [] [] _.
  case_bool_decide; cbn; [split_and!; done || lia|].
  unfold Ref.parse_record.
  do 2 (rewrite rbind_assoc; step_num; rewrite rbind_assoc; step_str).
  split_and!; try done; try lia.
  f_equal. rewrite !length_drop. unfold blen in *. lia.
Qed.

(** *** The grammar consumes *)

Lemma num_length n s v s' : Ref.num n s = Ok (v, s') -> length s = (n + length s')%nat.
Proof.
  unfold Ref.num. destruct (Nat.ltb_spec (length s) n); [discriminate|].
  intros [= _ <-]. rewrite length_drop. lia.
Qed.

Lemma str_length n s v s' : Ref.str n s = Ok (v, s') -> (length s' <= length s)%nat.
Proof.
  unfold Ref.str. destruct (_ <? _); [discriminate|]. intros [= _ <-].
  rewrite length_drop. lia.
Qed.

(** Peels a successful parse into its reads and their lengths. *)
Ltac peel H :=
  repeat (ok_inv H;
    repeat match goal with
    | a : (_ * _)%type |- _ => destruct a
    | E : Ref.num _ _ = Ok _ |- _ => apply num_length in E
    | E : Ref.str _ _ = Ok _ |- _ => apply str_length in E
    end).

Lemma parse_section_length s x s' :
  Ref.parse_section s = Ok (x, s') -> (length s' + 7 <= length s)%nat.
Proof. unfold Ref.parse_section. intros H. peel H. simplify_eq. lia. Qed.

Lemma parse_record_length s u d s' :
  Ref.parse_record s = Ok (u, d, s') -> (length s' + 16 <= length s)%nat.
Proof. unfold Ref.parse_record, size_t_bytes. intros H. peel H. simplify_eq. lia. Qed.

Lemma parse_entry_length s op key record s' :
  Ref.parse_entry s = Ok (op, key, record, s') -> (length s' + 3 <= length s)%nat.
Proof.
  unfold Ref.parse_entry. intros H. peel H.
  case_bool_decide; [simplify_eq; lia|].
  ok_inv H. destruct a0 as [[u d] s1]. apply parse_record_length in E3.
  simplify_eq. lia.
Qed.

Lemma parse_entries_fuel f1 : forall f2 sec ns ord s,
  (length s <= f1)%nat -> (length s <= f2)%nat ->
  Ref.parse_entries f1 sec ns ord s = Ref.parse_entries f2 sec ns ord s.
Proof.
  induction f1 as [|f1 IH]; intros [|f2] sec ns ord [|b s] H1 H2; cbn in H1, H2;
    try lia; try done.
  cbn -[Ref.parse_entry].
  destruct (Ref.parse_entry (b :: s)) as [[[[op key] record] s']|] eqn:E; [|done].
  apply parse_entry_length in E. cbn in E |- *.
  rewrite (IH f2) by lia. done.
Qed.

Lemma parse_sections_fuel f1 : forall f2 scope i s,
  (length s <= f1)%nat -> (length s <= f2)%nat ->
  Ref.parse_sections f1 scope i s = Ref.parse_sections f2 scope i s.
Proof.
  induction f1 as [|f1 IH]; intros [|f2] scope i [|b s] H1 H2; cbn in H1, H2;
    try lia; try done.
  cbn -[Ref.parse_section].
  destruct (Ref.parse_section (b :: s)) as [[x s']|] eqn:E; [|done].
  apply parse_section_length in E. cbn in E |- *.
  destruct (Ref.section_entries scope i x); [|done]. cbn.
  rewrite (IH f2) by lia. done.
Qed.

Lemma parse_entries_cons sec ns ord s :
  s <> [] ->
  Ref.parse_entries (length s) sec ns ord s =
    let! (op, key, record, s') := Ref.parse_entry s in
    let! es := Ref.parse_entries (length s') sec ns (ord + 1) s' in
    Ok (mkEntry sec ord ns op key record :: es).
Proof.
  destruct s as [|b s]; [done|]. intros _. cbn -[Ref.parse_entry].
  destruct (Ref.parse_entry (b :: s)) as [[[[op key] record] s']|] eqn:E; [|done].
  apply parse_entry_length in E. cbn in E |- *.
  rewrite (parse_entries_fuel (length s) (length s')) by lia. done.
Qed.

Lemma parse_sections_cons scope i s :
  s <> [] ->
  Ref.parse_sections (length s) scope i s =
    let! (x, s') := Ref.parse_section s in
    let! es := Ref.section_entries scope i x in
    let! rest := Ref.parse_sections (length s') scope (i + 1) s' in
    Ok (es ++ rest).
Proof.
  destruct s as [|b s]; [done|]. intros _. cbn -[Ref.parse_section].
  destruct (Ref.parse_section (b :: s)) as [[x s']|] eqn:E; [|done].
  apply parse_section_length in E. cbn in E |- *.
  rewrite (parse_sections_fuel (length s) (length s')) by lia. done.
Qed.

(** *** The decoder's state against the grammar *)

Definition entries_left (d : CdcBlobDecoder) : bytes :=
  drop (Z.to_nat (d_entryOffset d)) (d_sectionEntries d).
Definition blob_left (d : CdcBlobDecoder) : bytes :=
  drop (Z.to_nat (d_blobOffset d)) (d_blob d).

(** Offsets inside their buffers, ordinals that cannot wrap while bytes remain. *)
Record decoder_ok (d : CdcBlobDecoder) : Prop := {
  ok_blob : 0 <= d_blobOffset d <= blen (d_blob d);
  ok_entry : 0 <= d_entryOffset d <= blen (d_sectionEntries d);
  ok_size : blen (d_blob d) < 2 ^ 32 /\ blen (d_sectionEntries d) < 2 ^ 32;
  ok_seen : 0 <= d_sectionsSeen d /\ d_sectionsSeen d + blen (blob_left d) < 2 ^ 32;
  ok_ord : 0 <= d_entryOrdinal d /\ d_entryOrdinal d + blen (entries_left d) < 2 ^ 32;
}.

(** What the decoder has still to yield. *)
Definition yields (d : CdcBlobDecoder) : result (list Entry) :=
  let! es := Ref.parse_entries (length (entries_left d)) (d_currentSection d) (d_sectionNs d)
               (d_entryOrdinal d) (entries_left d) in
  let! rest := Ref.parse_sections (length (blob_left d)) (d_scope d) (d_sectionsSeen d)
                 (blob_left d) in
  Ok (es ++ rest).

Lemma drop_all_nil (buf : bytes) off :
  0 <= off -> (drop (Z.to_nat off) buf = [] <-> blen buf <= off).
Proof.
  intros Ho. rewrite <- length_zero_iff_nil, length_drop. unfold blen. lia.
Qed.

Lemma wrap32_small z : 0 <= z < 2 ^ 32 -> wrap32 z = z.
Proof. intros. unfold wrap32. by apply Z.mod_small. Qed.

Lemma str_body n s v s' : Ref.str n s = Ok (v, s') -> (length v + length s' = length s)%nat.
Proof.
  unfold Ref.str. destruct (_ <? _); [discriminate|]. intros [= <- <-].
  rewrite length_take, length_drop. lia.
Qed.

Lemma parse_section_body s x s' :
  Ref.parse_section s = Ok (x, s') -> (length (Ref.s_body x) + length s' <= length s)%nat.
Proof.
  unfold Ref.parse_section. intros H.
  repeat (ok_inv H; repeat match goal with
    | a : (_ * _)%type |- _ => destruct a
    | E : Ref.num _ _ = Ok _ |- _ => apply num_length in E
    | E : Ref.str _ _ = Ok _ |- _ => apply str_body in E
    end).
  simplify_eq. cbn. lia.
Qed.

Lemma yields_no_entries d :
  entries_left d = [] ->
  yields d = Ref.parse_sections (length (blob_left d)) (d_scope d) (d_sectionsSeen d) (blob_left d).
Proof. intros E. unfold yields. rewrite E. cbn. by destruct (Ref.parse_sections _ _ _ _). Qed.

Lemma advance_spec fuel : forall d,
  decoder_ok d -> entries_left d = [] -> (length (blob_left d) < fuel)%nat ->
  match advanceToNextInScopeSection fuel d with
  | Ok d' => decoder_ok d' /\ yields d' = yields d /\ d_blob d' = d_blob d /\
      (length (entries_left d') + length (blob_left d') <= length (blob_left d))%nat /\
      (blob_left d <> [] -> length (blob_left d') < length (blob_left d))%nat
  | Err e => e = BadValue /\ yields d = Err BadValue
  end.
Proof.
  induction fuel as [|fuel IH]; intros d Hok He Hf; [lia|].
  cbn [advanceToNextInScopeSection].
  destruct Hok as [Hb Hen [Hsz Hsz'] Hseen Hord].
  pose proof (drop_all_nil (d_blob d) (d_blobOffset d) ltac:(lia)) as Hnil.
  fold (blob_left d) in Hnil.
  destruct (Z.ltb_spec (d_blobOffset d) (blen (d_blob d))) as [Hlt|Hge].
  2:{ set (d' := mkDecoder _ _ _ _ _ _ _ _ _).
      assert (blob_left d' = []) as Hb' by (apply Hnil; lia).
      assert (blob_left d = []) as Hbd by done.
      split_and!; [|rewrite !yields_no_entries by done; done|done|rewrite Hb'; change (entries_left d') with (@nil byte); cbn; lia|done].
      constructor; rewrite ?Hb'; change (entries_left d') with (@nil byte);
        rewrite ?Hbd in Hseen; cbn in *; unfold blen in *; cbn in *; lia. }
  assert (blob_left d <> []) as Hne by (rewrite Hnil; lia).
  pose proof (readSection_rel (d_blob d) (d_blobOffset d) ltac:(lia) ltac:(lia)) as Hrel.
  fold (blob_left d) in Hrel.
  rewrite (yields_no_entries d He), (parse_sections_cons _ _ _ Hne).
  destruct (readSection (d_blob d) (d_blobOffset d)) as [[[[[name engine] type] entries] o]|[]],
    (Ref.parse_section (blob_left d)) as [[x s']|[]] eqn:Ex; cbn in Hrel; try done.
  destruct Hrel as (-> & Ho & ->). cbn [rbind].
  pose proof (parse_section_length _ _ _ Ex) as Hl.
  pose proof (parse_section_body _ _ _ Ex) as Hbody. cbn [Ref.s_body] in Hbody.
  set (s' := drop (Z.to_nat o) (d_blob d)) in *.
  assert (wrap32 (d_sectionsSeen d + 1) = d_sectionsSeen d + 1) as Hw
    by (apply wrap32_small; unfold blen in *; lia).
  rewrite Hw.
  set (d1 := mkDecoder _ _ o _ _ _ _ _ _).
  assert (decoder_ok d1) as Hok1.
  { constructor; change (blob_left d1) with s'; change (entries_left d1) with (entries_left d);
      cbn; unfold blen in *; lia. }
  assert (entries_left d1 = []) as He1 by done.
  assert (Ref.wanted (d_scope d) (Ref.mkSection name engine type entries) = false ->
    match advanceToNextInScopeSection fuel d1 with
    | Ok d' => decoder_ok d' /\ yields d' = 
        (let! es := Ref.section_entries (d_scope d) (d_sectionsSeen d)
                      (Ref.mkSection name engine type entries) in
         let! rest := Ref.parse_sections (length s') (d_scope d) (d_sectionsSeen d + 1) s' in
         Ok (es ++ rest)) /\ d_blob d' = d_blob d /\
        (length (entries_left d') + length (blob_left d') <= length (blob_left d))%nat /\
        (blob_left d <> [] -> length (blob_left d') < length (blob_left d))%nat
    | Err e => e = BadValue /\
        (let! es := Ref.section_entries (d_scope d) (d_sectionsSeen d)
                      (Ref.mkSection name engine type entries) in
         let! rest := Ref.parse_sections (length s') (d_scope d) (d_sectionsSeen d + 1) s' in
         Ok (es ++ rest)) = Err BadValue
    end) as Hskip.
  { intros Hnw. unfold Ref.section_entries. rewrite Hnw. cbn [rbind app].
    specialize (IH d1 Hok1 He1). rewrite (yields_no_entries d1 He1) in IH.
    change (blob_left d1) with s' in IH. cbn [d1 d_scope d_sectionsSeen] in IH.
    specialize (IH ltac:(lia)).
    destruct (Ref.parse_sections (length s') (d_scope d) (d_sectionsSeen d + 1) s') eqn:Ep;
      cbn [rbind]; rewrite ?Ep in IH;
      destruct (advanceToNextInScopeSection fuel d1); [|naive_solver| |naive_solver].
    all: destruct IH as (? & ? & ? & ? & ?); split_and!; try done; try lia. }
  unfold Ref.wanted in Hskip. cbn [Ref.s_engine Ref.s_type Ref.s_name] in Hskip.
  destruct (engine =? kTableEngineEloqDoc) eqn:E1, (type =? kTableTypePrimary) eqn:E2;
    cbn [negb orb andb] in *; try (by apply Hskip).
  destruct (includes (d_scope d) name) eqn:E3; cbn [negb]; [|by apply Hskip].
  clear Hskip IH. set (d2 := mkDecoder _ _ _ _ _ _ _ _ _).
  assert (entries_left d2 = entries) as He2 by done.
  split_and!; [| |done|rewrite He2; change (blob_left d2) with s'; lia
              |change (blob_left d2) with s'; lia].
  - constructor; rewrite ?He2; change (blob_left d2) with s'; cbn; unfold blen in *; lia.
  - unfold yields, Ref.section_entries, Ref.wanted. rewrite He2. cbn [Ref.s_engine Ref.s_type Ref.s_name].
    rewrite E1, E2, E3. done.
Qed.

Lemma findEntry_spec fuel : forall d,
  decoder_ok d -> (length (blob_left d) < fuel)%nat ->
  match findEntry fuel d with
  | Ok (true, d') => decoder_ok d' /\ yields d' = yields d /\ entries_left d' <> [] /\
      (length (entries_left d') + length (blob_left d') <=
       length (entries_left d) + length (blob_left d))%nat
  | Ok (false, d') => yields d = Ok []
  | Err e => e = BadValue /\ yields d = Err BadValue
  end.
Proof.
  induction fuel as [|fuel IH]; intros d Hok Hf; [lia|].
  cbn [findEntry].
  pose proof (drop_all_nil (d_sectionEntries d) (d_entryOffset d) ltac:(apply Hok)) as Hen.
  pose proof (drop_all_nil (d_blob d) (d_blobOffset d) ltac:(apply Hok)) as Hbn.
  fold (entries_left d) in Hen. fold (blob_left d) in Hbn.
  destruct (Z.leb_spec (blen (d_sectionEntries d)) (d_entryOffset d)) as [Hle|Hgt].
  2:{ split_and!; try done. rewrite Hen. lia. }
  apply Hen in Hle.
  destruct (Z.leb_spec (blen (d_blob d)) (d_blobOffset d)) as [Hb|Hb].
  { apply Hbn in Hb. rewrite yields_no_entries, Hb by done. done. }
  assert (blob_left d <> []) as Hne by (rewrite Hbn; lia).
  assert (length (blob_left d) <= length (d_blob d))%nat as Hbl
    by (unfold blob_left; rewrite length_drop; lia).
  pose proof (advance_spec (section_fuel d) d Hok Hle ltac:(unfold section_fuel; lia)) as Ha.
  destruct (advanceToNextInScopeSection (section_fuel d) d) as [d1|e]; cbn [rbind]; [|done].
  destruct Ha as (Hok1 & Hy1 & Hb1 & Hl1 & Hl2). specialize (Hl2 Hne).
  specialize (IH d1 Hok1 ltac:(lia)). rewrite Hy1 in IH.
  destruct (findEntry fuel d1) as [[[] d2]|e]; [|done|done].
  destruct IH as (? & ? & ? & ?). split_and!; try done. lia.
Qed.

Lemma next_spec d :
  decoder_ok d ->
  match next d with
  | Ok (Some e, d') => decoder_ok d' /\
      yields d = (let! es := yields d' in Ok (e :: es)) /\
      (length (entries_left d') + length (blob_left d') <
       length (entries_left d) + length (blob_left d))%nat
  | Ok (None, _) => yields d = Ok []
  | Err e => e = BadValue /\ yields d = Err BadValue
  end.
Proof.
  intros Hok. unfold next.
  assert (length (blob_left d) < section_fuel d)%nat as Hf
    by (unfold blob_left, section_fuel; rewrite length_drop; lia).
  pose proof (findEntry_spec (section_fuel d) d Hok Hf) as H.
  destruct (findEntry (section_fuel d) d) as [[[] d1]|e]; cbn [rbind]; [|done|done].
  destruct H as (Hok1 & <- & Hne & Hl). destruct Hok1 as [Hb Hen [Hsz Hsz'] Hseen Hord].
  pose proof (readEntry_rel (d_sectionEntries d1) (d_entryOffset d1) ltac:(lia) ltac:(lia)) as Hrel.
  fold (entries_left d1) in Hrel. unfold yields. rewrite (parse_entries_cons _ _ _ _ Hne).
  destruct (readEntry (d_sectionEntries d1) (d_entryOffset d1)) as [[[[op key] record] o]|[]],
    (Ref.parse_entry (entries_left d1)) as [[[[op' key'] record'] s]|[]] eqn:Ee;
    cbn in Hrel; try done.
  destruct Hrel as (<- & <- & <- & Ho & ->). cbn [rbind].
  apply parse_entry_length in Ee.
  set (s := drop (Z.to_nat o) (d_sectionEntries d1)) in *.
  rewrite wrap32_small by (unfold blen in *; lia).
  set (d2 := mkDecoder _ _ _ _ _ _ _ _ _).
  change (entries_left d2) with s. change (blob_left d2) with (blob_left d1).
  split_and!; [| |lia].
  - constructor; change (entries_left d2) with s; change (blob_left d2) with (blob_left d1);
      cbn; unfold blen in *; lia.
  - cbn. destruct (Ref.parse_entries _ _ _ _ s); [|done]. cbn.
    by destruct (Ref.parse_sections _ _ _ (blob_left d1)).
Qed.

Lemma drain_yields fuel : forall d,
  decoder_ok d -> (length (entries_left d) + length (blob_left d) < fuel)%nat ->
  drain fuel d = yields d.
Proof.
  induction fuel as [|fuel IH]; intros d Hok Hf; [lia|].
  cbn [drain]. pose proof (next_spec d Hok) as H.
  destruct (next d) as [[[e|] d']|err]; cbn [rbind]; [|done|].
  - destruct H as (Hok' & -> & Hl). rewrite (IH d') by (done || lia). done.
  - by destruct H as [-> ->].
Qed.

Lemma drain_Err fuel : forall d e,
  decoder_ok d -> (length (entries_left d) + length (blob_left d) < fuel)%nat ->
  drain fuel d = Err e -> e = BadValue.
Proof.
  induction fuel as [|fuel IH]; intros d e Hok Hf H; [lia|].
  cbn [drain] in H. pose proof (next_spec d Hok) as Hn.
  destruct (next d) as [[[x|] d']|err]; cbn [rbind] in H; [|discriminate|].
  - destruct Hn as (Hok' & _ & Hl).
    destruct (drain fuel d') eqn:E; [discriminate|]. injection H as <-.
    apply (IH d'); [done|lia|done].
  - destruct Hn. congruence.
Qed.

Lemma newDecoder_ok blob scope : blen blob < 2 ^ 32 -> decoder_ok (newDecoder blob scope).
Proof.
  intros. pose proof (blen_nonneg blob).
  constructor; change (blob_left _) with blob; change (entries_left _) with (@nil byte);
    unfold blen in *; cbn -[Z.pow]; lia.
Qed.

Lemma decodeBlob_Ref blob scope :
  blen blob < 2 ^ 32 -> decodeBlob blob scope = Ref.parse_blob scope blob.
Proof.
  intros Hb. unfold decodeBlob.
  rewrite drain_yields; [|by apply newDecoder_ok
    |change (blob_left _) with blob; change (entries_left _) with (@nil byte); cbn; lia].
  rewrite yields_no_entries by done. done.
Qed.

(** ** The writer's format

    What FillDataLogRequest writes, as the class comment of [CdcBlobDecoder] gives it:
    sections with a name, an engine, a type and a body, the body of an EloqDoc primary
    table being a sequence of entries, and any other body opaque. *)

Record LogEntry := mkLogEntry {
  l_op : CdcOperation; l_key : bytes; l_unpack : bytes; l_doc : bytes;
}.

Inductive LogBody := body_entries (es : list LogEntry) | body_opaque (bs : bytes).

Record LogSection := mkLogSection {
  ls_name : bytes; ls_engine : Z; ls_type : Z; ls_body : LogBody;
}.

Definition encode_record (unpack doc : bytes) : bytes :=
  native (blen unpack) size_t_bytes ++ unpack ++ native (blen doc) size_t_bytes ++ doc.

Definition record_of (e : LogEntry) : bytes :=
  if bool_decide (l_op e = kDelete) then [] else encode_record (l_unpack e) (l_doc e).

Definition encode_logEntry (e : LogEntry) : bytes :=
  native (blen (l_key e)) 2 ++ l_key e ++ native (CdcOperation_value (l_op e)) 1 ++ record_of e.

Definition encode_body (b : LogBody) : bytes :=
  match b with
  | body_entries es => concat (encode_logEntry <$> es)
  | body_opaque bs => bs
  end.

Definition encode_section (x : LogSection) : bytes :=
  native (blen (ls_name x)) 1 ++ ls_name x ++ native (ls_engine x) 1 ++ native (ls_type x) 1
  ++ native (blen (encode_body (ls_body x))) 4 ++ encode_body (ls_body x).

Definition encode_blob (xs : list LogSection) : bytes := concat (encode_section <$> xs).

Definition wf_logEntry (e : LogEntry) : Prop :=
  blen (l_key e) < 2 ^ 16 /\ blen (l_unpack e) < 2 ^ 64 /\ blen (l_doc e) < 2 ^ 64.

Definition ls_wanted (scope : CdcStreamScope) (x : LogSection) : bool :=
  (ls_engine x =? kTableEngineEloqDoc) && (ls_type x =? kTableTypePrimary)
  && includes scope (ls_name x).

(** Widths the format can carry, and entries where the stream looks for entries. *)
Definition wf_section (scope : CdcStreamScope) (x : LogSection) : Prop :=
  blen (ls_name x) < 2 ^ 8 /\ 0 <= ls_engine x < 2 ^ 8 /\ 0 <= ls_type x < 2 ^ 8 /\
  blen (encode_body (ls_body x)) < 2 ^ 32 /\
  match ls_body x with
  | body_entries es => Forall wf_logEntry es
  | body_opaque _ => ls_wanted scope x = false
  end.

(** The changes a stream of that scope reports, numbered by their place in the blob:
    section ordinals count every section, entry ordinals every entry of the section. *)
Fixpoint entry_changes (i : Z) (ns : bytes) (j : Z) (es : list LogEntry) : list Entry :=
  match es with
  | [] => []
  | e :: es' => mkEntry i j ns (l_op e) (l_key e) (record_of e) :: entry_changes i ns (j + 1) es'
  end.

Fixpoint logged_changes (scope : CdcStreamScope) (i : Z) (xs : list LogSection) : list Entry :=
  match xs with
  | [] => []
  | x :: xs' =>
      (if ls_wanted scope x then
         match ls_body x with
         | body_entries es => entry_changes i (ls_name x) 0 es
         | body_opaque _ => []
         end
       else []) ++ logged_changes scope (i + 1) xs'
  end.

Lemma num_native n z s :
  0 <= z < 256 ^ Z.of_nat n -> Ref.num n (native z n ++ s) = Ok (z, s).
Proof.
  intros Hz. unfold Ref.num. rewrite length_app, length_native.
  destruct (Nat.ltb_spec (n + length s) n); [lia|].
  rewrite take_app_length', drop_app_length' by (by rewrite length_native).
  rewrite readNative_native, Z.mod_small by lia. done.
Qed.

Lemma str_app v s : Ref.str (blen v) (v ++ s) = Ok (v, s).
Proof.
  unfold Ref.str. rewrite blen_app. pose proof (blen_nonneg s).
  destruct (Z.ltb_spec (blen v + blen s) (blen v)); [lia|].
  unfold blen. by rewrite Nat2Z.id, take_app_length, drop_app_length.
Qed.

Lemma blen_range v b : blen v < b -> 0 <= blen v < b.
Proof. pose proof (blen_nonneg v). lia. Qed.

Lemma parse_record_encode unpack doc s :
  blen unpack < 2 ^ 64 -> blen doc < 2 ^ 64 ->
  Ref.parse_record (encode_record unpack doc ++ s) = Ok (unpack, doc, s).
Proof.
  intros Hu Hd. unfold Ref.parse_record, encode_record, size_t_bytes. rewrite <- !app_assoc.
  rewrite num_native by (by apply blen_range). cbn [rbind]. rewrite str_app. cbn [rbind].
  rewrite num_native by (by apply blen_range). cbn [rbind]. by rewrite str_app.
Qed.

Lemma parse_entry_encode e s :
  wf_logEntry e ->
  Ref.parse_entry (encode_logEntry e ++ s) = Ok (l_op e, l_key e, record_of e, s).
Proof.
  intros (Hk & Hu & Hd). unfold Ref.parse_entry, encode_logEntry. rewrite <- !app_assoc.
  rewrite num_native by (by apply blen_range). cbn [rbind]. rewrite str_app. cbn [rbind].
  rewrite num_native by (destruct (l_op e); cbn; lia). cbn [rbind].
  assert (CdcOperation_of (CdcOperation_value (l_op e)) = l_op e) as -> by (by destruct (l_op e)).
  assert ((1 <=? CdcOperation_value (l_op e)) && (CdcOperation_value (l_op e) <=? 4) = true) as ->
    by (by destruct (l_op e)).
  cbn [uassert rbind]. unfold record_of. case_bool_decide; [done|].
  rewrite parse_record_encode by done. cbn [rbind].
  by rewrite length_app, Nat.add_sub, take_app_length.
Qed.

Lemma parse_entries_encode i ns es : forall j,
  Forall wf_logEntry es ->
  Ref.parse_entries (length (concat (encode_logEntry <$> es))) i ns j
    (concat (encode_logEntry <$> es)) = Ok (entry_changes i ns j es).
Proof.
  induction es as [|e es IH]; intros j Hwf; [done|].
  apply Forall_cons in Hwf as [He Hes]. cbn [fmap list_fmap concat].
  rewrite parse_entries_cons by (by destruct e; unfold encode_logEntry).
  rewrite parse_entry_encode by done. cbn [rbind]. rewrite IH by done. done.
Qed.

Lemma parse_section_encode x s scope :
  wf_section scope x ->
  Ref.parse_section (encode_section x ++ s) =
    Ok (Ref.mkSection (ls_name x) (ls_engine x) (ls_type x) (encode_body (ls_body x)), s).
Proof.
  intros (Hn & He & Ht & Hb & _). unfold Ref.parse_section, encode_section.
  rewrite <- !app_assoc.
  rewrite num_native by (by apply blen_range). cbn [rbind]. rewrite str_app. cbn [rbind].
  do 2 (rewrite num_native by done; cbn [rbind]).
  rewrite num_native by (by apply blen_range). cbn [rbind]. by rewrite str_app.
Qed.

Lemma parse_sections_encode scope xs : forall i,
  Forall (wf_section scope) xs ->
  Ref.parse_sections (length (encode_blob xs)) scope i (encode_blob xs)
  = Ok (logged_changes scope i xs).
Proof.
  induction xs as [|x xs IH]; intros i Hwf; [done|].
  apply Forall_cons in Hwf as [Hx Hxs]. unfold encode_blob in *. cbn [fmap list_fmap concat].
  rewrite parse_sections_cons by (by destruct x; unfold encode_section).
  rewrite (parse_section_encode _ _ scope) by done. cbn [rbind].
  rewrite (IH (i + 1) Hxs). cbn [logged_changes].
  unfold Ref.section_entries, Ref.wanted, ls_wanted. cbn [Ref.s_engine Ref.s_type Ref.s_name].
  destruct Hx as (_ & _ & _ & _ & Hb). unfold ls_wanted in Hb.
  destruct (_ && _ && _); [|done]. cbn [Ref.s_body].
  destruct (ls_body x); [|done]. cbn [encode_body].
  rewrite parse_entries_encode by done. done.
Qed.

(** ** Facts about parsed blobs *)

(** The position order resume tokens are compared in. *)
Definition pos_lt (a b : Entry) : Prop :=
  e_section a < e_section b \/ (e_section a = e_section b /\ e_entry a < e_entry b).

Lemma includes_deployment scope ns :
  includes scope ns = true -> includes scope_deployment ns = true.
Proof. unfold includes. by destruct (isExcludedDatabase _). Qed.

Lemma wanted_scope scope x :
  Ref.wanted scope x = Ref.wanted scope_deployment x && includes scope (Ref.s_name x).
Proof.
  unfold Ref.wanted. destruct (includes scope (Ref.s_name x)) eqn:E.
  - rewrite (includes_deployment scope) by done. by rewrite !andb_true_r.
  - by rewrite !andb_false_r.
Qed.

(** What every entry of a section's body satisfies. *)
Definition entry_of_section (i : Z) (ns : bytes) (ord : Z) (e : Entry) : Prop :=
  e_section e = i /\ e_ns e = ns /\ ord <= e_entry e /\
  (if bool_decide (e_op e = kDelete) then e_record e = []
   else exists s u d s', Ref.parse_record s = Ok (u, d, s') /\
          e_record e = take (length s - length s') s).

Lemma parse_entry_record s op key record s' :
  Ref.parse_entry s = Ok (op, key, record, s') ->
  if bool_decide (op = kDelete) then record = []
  else exists s0 u d s1, Ref.parse_record s0 = Ok (u, d, s1) /\
         record = take (length s0 - length s1) s0.
Proof.
  unfold Ref.parse_entry. intros H.
  ok_inv H. destruct a. ok_inv H. destruct a. ok_inv H. destruct a. ok_inv H.
  case_bool_decide; [by simplify_eq; rewrite bool_decide_eq_true_2|].
  ok_inv H. destruct a0 as [[u d] s2]. simplify_eq.
  rewrite bool_decide_eq_false_2 by done. eauto 10.
Qed.

Lemma parse_entries_all fuel i ns : forall ord s es,
  Ref.parse_entries fuel i ns ord s = Ok es ->
  Forall (entry_of_section i ns ord) es /\ StronglySorted pos_lt es.
Proof.
  induction fuel as [|fuel IH]; intros ord [|b s] es H; cbn -[Ref.parse_entry] in H;
    simplify_eq; try (by split; constructor).
  ok_inv H. destruct a as [[[op key] record] s']. ok_inv H. injection H as <-.
  apply IH in E0 as [Hall Hsort]. split.
  - constructor.
    + split_and!; cbn; try done. by apply (parse_entry_record _ _ _ _ _ E).
    + eapply Forall_impl; [exact Hall|]. intros e (? & ? & ? & ?). split_and!; try done. lia.
  - constructor; [done|]. eapply Forall_impl; [exact Hall|].
    intros e (? & ? & ? & ?). right. cbn. split; [done|lia].
Qed.

Lemma parse_sections_all fuel scope : forall i s es,
  Ref.parse_sections fuel scope i s = Ok es ->
  Forall (fun e => i <= e_section e /\ exists j ns, entry_of_section j ns 0 e) es /\
  StronglySorted pos_lt es.
Proof.
  induction fuel as [|fuel IH]; intros i [|b s] es H; cbn -[Ref.parse_section] in H;
    simplify_eq; try (by split; constructor).
  ok_inv H. destruct a as [x s']. ok_inv H. ok_inv H. injection H as <-.
  apply IH in E1 as [Hall Hsort]. unfold Ref.section_entries in E0.
  destruct (Ref.wanted scope x); simplify_eq; cbn [app].
  - apply parse_entries_all in E0 as [Hall' Hsort']. split.
    + apply Forall_app. split.
      * eapply Forall_impl; [exact Hall'|]. intros e He. split; [|eauto].
        destruct He as (-> & _). lia.
      * eapply Forall_impl; [exact Hall|]. cbn. intros e [? ?]. split; [lia|done].
    + apply StronglySorted_app_2; [|done|done].
      intros e1 e2 H1 H2. rewrite Forall_forall in Hall, Hall'.
      left. destruct (Hall' e1 H1) as (-> & _). specialize (Hall e2 H2) as [? _]. lia.
  - split; [|done]. eapply Forall_impl; [exact Hall|]. cbn. intros e [? ?]. split; [lia|done].
Qed.

Lemma filter_ns_all {i ns ord} (es : list Entry) (f : bytes -> bool) :
  Forall (entry_of_section i ns ord) es ->
  List.filter (fun e => f (e_ns e)) es = if f ns then es else [].
Proof.
  induction 1 as [|e es (_ & Hns & _) _ IH]; cbn; [by destruct (f ns)|].
  rewrite Hns, IH. by destruct (f ns).
Qed.

Lemma parse_sections_scope fuel scope : forall i s es,
  Ref.parse_sections fuel scope_deployment i s = Ok es ->
  Ref.parse_sections fuel scope i s = Ok (List.filter (fun e => includes scope (e_ns e)) es).
Proof.
  induction fuel as [|fuel IH]; intros i [|b s] es H; cbn -[Ref.parse_section] in *;
    simplify_eq; try done.
  ok_inv H. destruct a as [x s']. cbn [rbind]. ok_inv H. ok_inv H. injection H as <-.
  apply IH in E1. rewrite E1, List.filter_app.
  unfold Ref.section_entries in *. rewrite (wanted_scope scope x).
  destruct (Ref.wanted scope_deployment x); [|by simplify_eq].
  pose proof (parse_entries_all _ _ _ _ _ _ E0) as [Hall _]. cbn [andb].
  rewrite (filter_ns_all _ (includes scope) Hall), E0.
  by destruct (includes scope (Ref.s_name x)).
Qed.

Lemma num_inv n s v s' :
  Ref.num n s = Ok (v, s') -> 0 <= v /\ s = native v n ++ s'.
Proof.
  unfold Ref.num. destruct (Nat.ltb_spec (length s) n); [discriminate|]. intros [= <- <-].
  split; [apply readNative_range|].
  pose proof (native_readNative (take n s)) as E.
  rewrite length_take, Nat.min_l in E by lia. by rewrite E, take_drop.
Qed.

Lemma str_inv n s v s' : 0 <= n -> Ref.str n s = Ok (v, s') -> s = v ++ s' /\ n = blen v.
Proof.
  intros Hn. unfold Ref.str. destruct (Z.ltb_spec (blen s) n); [discriminate|].
  intros [= <- <-]. rewrite take_drop. split; [done|].
  unfold blen in *. rewrite length_take. lia.
Qed.

Lemma parse_record_inv s u d s' :
  Ref.parse_record s = Ok (u, d, s') -> s = encode_record u d ++ s'.
Proof.
  unfold Ref.parse_record, encode_record. intros H.
  ok_inv H. destruct a as [n1 s1]. apply num_inv in E as [? ->].
  ok_inv H. destruct a as [u' s2]. apply str_inv in E as [-> ->]; [|done].
  ok_inv H. destruct a as [n2 s3]. apply num_inv in E as [? ->].
  ok_inv H. destruct a as [d' s4]. apply str_inv in E as [-> ->]; [|done].
  injection H as <- <- <-. by rewrite <- !app_assoc.
Qed.

Lemma documentBson_encode i j ns op key u d :
  blen (encode_record u d) < 2 ^ 64 ->
  documentBson (mkEntry i j ns op key (encode_record u d)) = Ok d.
Proof.
  intros Hb. unfold documentBson. cbn [e_record].
  rewrite bool_decide_eq_false_2 by (by unfold encode_record).
  apply rel_eq.
  assert (blen u < 2 ^ 64 /\ blen d < 2 ^ 64) as [Hu Hd].
  { unfold encode_record in Hb. rewrite !blen_app in Hb.
    pose proof (blen_nonneg u). pose proof (blen_nonneg d).
    pose proof (blen_nonneg (native (blen u) size_t_bytes)).
    pose proof (blen_nonneg (native (blen d) size_t_bytes)). lia. }
  assert (Ok d = (let! (_, d', _) := Ref.parse_record (drop (Z.to_nat 0) (encode_record u d)) in
                  Ok d')) as ->.
  { change (drop (Z.to_nat 0) ?x) with x.
    pose proof (parse_record_encode u d [] Hu Hd) as Hp. rewrite app_nil_r in Hp.
    by rewrite Hp. }
  pose proof (blen_nonneg (encode_record u d)).
  unfold Ref.parse_record.
  do 2 (rewrite rbind_assoc; step_num; rewrite rbind_assoc; step_str). done.
Qed.

Lemma parse_entry_record_length s op key record s' :
  Ref.parse_entry s = Ok (op, key, record, s') -> (length record <= length s)%nat.
Proof.
  unfold Ref.parse_entry. intros H. peel H.
  case_bool_decide; [simplify_eq; cbn; lia|].
  ok_inv H. destruct a0 as [[u d] s2]. simplify_eq. rewrite length_take. lia.
Qed.

Lemma parse_entries_record_length fuel i ns : forall ord s es,
  Ref.parse_entries fuel i ns ord s = Ok es ->
  Forall (fun e => length (e_record e) <= length s)%nat es.
Proof.
  induction fuel as [|fuel IH]; intros ord [|b s] es H; cbn -[Ref.parse_entry] in H;
    simplify_eq; try by constructor.
  ok_inv H. destruct a as [[[op key] record] s']. ok_inv H. injection H as <-.
  apply IH in E0. pose proof (parse_entry_length _ _ _ _ _ E).
  apply parse_entry_record_length in E.
  constructor; [done|]. eapply Forall_impl; [exact E0|]. cbn. intros; cbn in *; lia.
Qed.

Lemma parse_sections_record_length fuel scope : forall i s es,
  Ref.parse_sections fuel scope i s = Ok es ->
  Forall (fun e => length (e_record e) <= length s)%nat es.
Proof.
  induction fuel as [|fuel IH]; intros i [|b s] es H; cbn -[Ref.parse_section] in H;
    simplify_eq; try by constructor.
  ok_inv H. destruct a as [x s']. ok_inv H. ok_inv H. injection H as <-.
  apply IH in E1. pose proof (parse_section_length _ _ _ E). apply parse_section_body in E.
  apply Forall_app. split.
  - unfold Ref.section_entries in E0. destruct (Ref.wanted scope x); simplify_eq; [|constructor].
    apply parse_entries_record_length in E0.
    eapply Forall_impl; [exact E0|]. cbn. intros; cbn in *; lia.
  - eapply Forall_impl; [exact E1|]. cbn. intros; cbn in *; lia.
Qed.

(** ** Properties *)

(** C25. Decoding a blob the writer produced yields exactly the in-scope logged changes, in
    order and complete, each numbered by its section's ordinal among all sections and its
    own ordinal within the section; other engines' sections, index tables and out-of-scope
    namespaces pass through whatever their bodies hold. *)
Theorem decodeBlob_encode_blob scope xs :
  Forall (wf_section scope) xs -> blen (encode_blob xs) < 2 ^ 32 ->
  decodeBlob (encode_blob xs) scope = Ok (logged_changes scope 0 xs).
Proof. intros Hwf Hb. rewrite decodeBlob_Ref by done. by apply parse_sections_encode. Qed.

Definition blob_ex : list LogSection :=
  [mkLogSection (lit "kv") 1 0 (body_opaque (lit "opaque object commands"));
   mkLogSection (lit "shop.orders") 3 0
     (body_entries [mkLogEntry kInsert (lit "k1") (lit "u") (lit "doc1");
                    mkLogEntry kDelete (lit "k2") [] []]);
   mkLogSection (lit "admin.progress") 3 0 (body_opaque (lit "never read"));
   mkLogSection (lit "shop.items") 3 0 (body_entries [mkLogEntry kUpdate (lit "k3") [] (lit "d")])].

Lemma decodeBlob_encode_blob_witness :
  decodeBlob (encode_blob blob_ex) (scope_database (lit "shop"))
  = Ok [mkEntry 1 0 (lit "shop.orders") kInsert (lit "k1") (encode_record (lit "u") (lit "doc1"));
        mkEntry 1 1 (lit "shop.orders") kDelete (lit "k2") [];
        mkEntry 3 0 (lit "shop.items") kUpdate (lit "k3") (encode_record [] (lit "d"))].
Proof.
  rewrite (decodeBlob_encode_blob (scope_database (lit "shop")) blob_ex);
    [vm_compute; reflexivity| |vm_compute; reflexivity].
  repeat constructor; vm_compute; try reflexivity; discriminate.
Defined.

(** A position means the same thing to every stream: for any blob a deployment-level
    stream can decode, a stream of any other scope yields the same entries, with the same
    section and entry ordinals, less those of the namespaces it does not cover. *)
Theorem decodeBlob_scope_independent blob scope es :
  blen blob < 2 ^ 32 ->
  decodeBlob blob scope_deployment = Ok es ->
  decodeBlob blob scope = Ok (List.filter (fun e => includes scope (e_ns e)) es).
Proof. intros Hb. rewrite !decodeBlob_Ref by done. apply parse_sections_scope. Qed.

Lemma decodeBlob_scope_independent_witness :
  decodeBlob (encode_blob blob_ex) (scope_collection (lit "shop.items"))
  = Ok [mkEntry 3 0 (lit "shop.items") kUpdate (lit "k3") (encode_record [] (lit "d"))].
Proof.
  rewrite (decodeBlob_scope_independent (encode_blob blob_ex) (scope_collection (lit "shop.items"))
    (logged_changes scope_deployment 0 blob_ex));
    [vm_compute; reflexivity|vm_compute; reflexivity|vm_compute; reflexivity].
Defined.

(** Whatever the bytes, walking a blob of less than 4 GiB terminates and either yields
    entries or throws BadValue: it never loops, reads outside the blob or trips an
    invariant. Entries come out in strictly increasing (section, entry) order. *)
Theorem decodeBlob_total blob scope :
  blen blob < 2 ^ 32 ->
  decodeBlob blob scope = Err BadValue \/
  exists es, decodeBlob blob scope = Ok es /\ StronglySorted pos_lt es.
Proof.
  intros Hb. destruct (decodeBlob blob scope) as [es|e] eqn:E.
  - right. exists es. split; [done|]. rewrite decodeBlob_Ref in E by done.
    by apply parse_sections_all in E as [_ ?].
  - left. f_equal. eapply drain_Err; [by apply newDecoder_ok| |exact E].
    change (blob_left _) with blob; change (entries_left _) with (@nil byte); cbn; lia.
Qed.

Lemma decodeBlob_total_witness :
  decodeBlob (lit "truncated") scope_deployment = Err BadValue \/
  exists es, decodeBlob (lit "truncated") scope_deployment = Ok es /\ StronglySorted pos_lt es.
Proof. apply decodeBlob_total. vm_compute. reflexivity. Defined.

(** Every entry of a decoded blob carries a document exactly when it is not a delete,
    and reading that document back out of the entry's record never throws: a delete's is
    empty, any other entry's is the document serialized after its unpack info. *)
Theorem decoded_documentBson blob scope es e :
  blen blob < 2 ^ 32 -> decodeBlob blob scope = Ok es -> e ∈ es ->
  (e_op e = kDelete /\ documentBson e = Ok []) \/
  (e_op e <> kDelete /\ exists unpack doc,
     e_record e = encode_record unpack doc /\ documentBson e = Ok doc).
Proof.
  intros Hb H He. rewrite decodeBlob_Ref in H by done.
  pose proof (parse_sections_record_length _ _ _ _ _ H) as Hlen.
  apply parse_sections_all in H as [Hall _].
  rewrite Forall_forall in Hall, Hlen. specialize (Hlen e He).
  destruct (Hall e He) as (_ & j & ns & _ & _ & _ & Hr).
  case_bool_decide as Hop; [left; split; [done|]|right; split; [done|]].
  { unfold documentBson. by rewrite Hr. }
  destruct Hr as (s & u & d & s' & Hp & Hr). apply parse_record_inv in Hp as ->.
  rewrite length_app, Nat.add_sub, take_app_length in Hr.
  exists u, d. split; [done|]. destruct e as [? ? ? ? ? r]; cbn in *. subst r.
  apply documentBson_encode. unfold blen in *. lia.
Qed.

Lemma decoded_documentBson_witness :
  let e := mkEntry 3 0 (lit "shop.items") kUpdate (lit "k3") (encode_record [] (lit "d")) in
  (e_op e = kDelete /\ documentBson e = Ok []) \/
  (e_op e <> kDelete /\ exists unpack doc,
     e_record e = encode_record unpack doc /\ documentBson e = Ok doc).
Proof.
  intros e. eapply (decoded_documentBson (encode_blob blob_ex) (scope_collection (lit "shop.items"))
    [e] e); [vm_compute; reflexivity|vm_compute; reflexivity|].
  apply list_elem_of_singleton. reflexivity.
Defined.
