(* ===== verification/WaitObject.v ===== *)
(** * Where callbacks meet the waiting cursor (cdc/cdc_wait_object.{h,cpp})

    RPC callbacks and deadline timers call [notify] from any thread; the operation that owns the
    cursor waits in [waitUntil], as a coroutine that yields or as a thread that blocks. The critical
    sections of the two functions are definitions; everything between them interleaves, as the
    steps of a transition system over the object, its one waiter, the [notify] calls in progress,
    the resumptions queued on thread groups and the deadline timers. The coroutine and timer
    services are modelled by what they document: a resume functor only queues its coroutine,
    deleting a timer succeeds only before its callback started, and a timer does not fire early. *)

From S2P Require Import Prelude.
#[local] Open Scope Z_scope.

Module WaitObject.

(** ** The object *)

(** A coroutine, named by its resume functor. *)
Abbreviation Coro := nat.
Abbreviation TimerId := nat.

Record CdcWaitObject := mkWaitObject {
  wo_notified : bool;
  wo_coroutineWaiting : bool;
  wo_resume : option Coro;
}.

Definition make : CdcWaitObject := mkWaitObject false false None.

(** What [notify] does after its critical section. *)
Inductive Effect := RunResume (c : Coro) | NotifyAll.

#[global] Instance Effect_eq_dec : EqDecision Effect.
Proof. solve_decision. Defined.

(** It runs the resume functor it took, or wakes the condition variable. *)
Definition effect_of (resume : option Coro) : Effect :=
  match resume with Some c => RunResume c | None => NotifyAll end.

(** The critical section of [notify]. *)
Definition notify (o : CdcWaitObject) : CdcWaitObject * Effect :=
  if wo_coroutineWaiting o
  then (mkWaitObject (wo_notified o) false None, effect_of (wo_resume o))
  else (mkWaitObject true (wo_coroutineWaiting o) (wo_resume o), effect_of None).

(** [Date_t::max()]. *)
Definition Date_max : Z := 2 ^ 63 - 1.

(** How the critical section of [waitUntil] ends: it returned, a coroutine is registered with the
    time its timer fires at if it has one, or a thread blocks on the condition variable. *)
Inductive Entered :=
| Returned
| MustYield (fireAt : option Z)
| MustBlock.

(** [_yieldUntil] up to the yield; [added]: [bthread_timer_add] succeeded. *)
Definition yieldUntil (now deadline : Z) (c : Coro) (added : bool) (o : CdcWaitObject)
    : result (CdcWaitObject * Entered) :=
  let! _ := invariant (negb (wo_coroutineWaiting o)) in
  let registered := mkWaitObject (wo_notified o) true (Some c) in
  if deadline =? Date_max then Ok (registered, MustYield None)
  else if added then
    let remainingMs := Z.max 0 (deadline - now) in
    Ok (registered, MustYield (Some (now + remainingMs)))
  else Ok (o, Returned).

(** [waitUntil] up to where it waits; [coro]: the caller's coroutine, if it has functors. *)
Definition waitUntil (now deadline : Z) (coro : option Coro) (added : bool) (o : CdcWaitObject)
    : result (CdcWaitObject * Entered) :=
  if wo_notified o then Ok (mkWaitObject false (wo_coroutineWaiting o) (wo_resume o), Returned)
  else if deadline <=? now then Ok (o, Returned)
  else match coro with
       | Some c => yieldUntil now deadline c added o
       | None => Ok (o, MustBlock)
       end.

(** A blocked thread's look at the predicate: it leaves when notified or at the deadline, and takes
    the notification with it. *)
Definition recheck (now deadline : Z) (o : CdcWaitObject) : option CdcWaitObject :=
  if wo_notified o || (negb (deadline =? Date_max) && (deadline <=? now))
  then Some (mkWaitObject false (wo_coroutineWaiting o) (wo_resume o))
  else None.

(** ** The world around it *)

(** A deadline timer; [t_released] counts the releases of the reference it carries. *)
Inductive TimerState := Armed (fireAt : Z) | Firing | Notifying | Fired | Deleted.
Record Timer := mkTimer { t_state : TimerState; t_released : nat }.

(** The operation that owns the cursor. *)
Inductive Waiter :=
| Idle (coro : option Coro)
| Registered (c : Coro) (timer : option TimerId) (deadline : Z)
| Yielded (c : Coro) (timer : option TimerId) (deadline : Z)
| Resumed (c : Coro) (timer : option TimerId)
| Blocked (asleep : bool) (deadline : Z).

Record World := mkWorld {
  w_now : Z;
  w_object : CdcWaitObject;
  w_waiter : Waiter;
  w_notifying : list (Effect * option TimerId);
  w_queued : list Coro;
  w_timers : gmap TimerId Timer;
  w_nextCoro : Coro;
  w_nextTimer : TimerId;
  w_owed : bool;
}.

(** [w_owed]: [notify] was called since the last wait returned. *)
Definition init (now : Z) : World := mkWorld now make (Idle None) [] [] ∅ 0 0 false.

Definition set_waiter (x : Waiter) (w : World) : World :=
  mkWorld (w_now w) (w_object w) x (w_notifying w) (w_queued w) (w_timers w) (w_nextCoro w)
    (w_nextTimer w) (w_owed w).
Definition set_timers (x : gmap TimerId Timer) (w : World) : World :=
  mkWorld (w_now w) (w_object w) (w_waiter w) (w_notifying w) (w_queued w) x (w_nextCoro w)
    (w_nextTimer w) (w_owed w).

(** A wait returns to an operation on coroutine [coro]. *)
Definition return_with (o : CdcWaitObject) (coro : option Coro) (w : World) : World :=
  mkWorld (w_now w) o (Idle coro) (w_notifying w) (w_queued w) (w_timers w) (w_nextCoro w)
    (w_nextTimer w) false.

(** A call of [notify], made by [from] if it is a timer's, to the end of its critical section. *)
Definition enter_notify (from : option TimerId) (w : World) : World :=
  let '(o, e) := notify (w_object w) in
  mkWorld (w_now w) o (w_waiter w) (w_notifying w ++ [(e, from)]) (w_queued w) (w_timers w)
    (w_nextCoro w) (w_nextTimer w) true.

(** Its last action, then, for a timer, the release of the timer's reference. *)
Definition release (from : option TimerId) (m : gmap TimerId Timer) : gmap TimerId Timer :=
  match from with
  | Some id => alter (fun t => mkTimer Fired (S (t_released t))) id m
  | None => m
  end.

Definition wake (x : Waiter) : Waiter :=
  match x with Blocked _ d => Blocked false d | _ => x end.

Definition leave_notify (l r : list (Effect * option TimerId)) (e : Effect) (from : option TimerId)
    (w : World) : World :=
  let w' := mkWorld (w_now w) (w_object w) (w_waiter w) (l ++ r) (w_queued w)
              (release from (w_timers w)) (w_nextCoro w) (w_nextTimer w) (w_owed w) in
  match e with
  | RunResume c =>
      mkWorld (w_now w') (w_object w') (w_waiter w') (w_notifying w') (w_queued w' ++ [c])
        (w_timers w') (w_nextCoro w') (w_nextTimer w') (w_owed w')
  | NotifyAll => set_waiter (wake (w_waiter w')) w'
  end.

(** A coroutine is registered, its timer armed if it has one. *)
Definition register (o : CdcWaitObject) (c : Coro) (fireAt : option Z) (deadline : Z) (w : World) : World :=
  match fireAt with
  | None => mkWorld (w_now w) o (Registered c None deadline) (w_notifying w) (w_queued w)
              (w_timers w) (w_nextCoro w) (w_nextTimer w) (w_owed w)
  | Some t => mkWorld (w_now w) o (Registered c (Some (w_nextTimer w)) deadline) (w_notifying w)
              (w_queued w) (<[w_nextTimer w := mkTimer (Armed t) 0]> (w_timers w))
              (w_nextCoro w) (S (w_nextTimer w)) (w_owed w)
  end.

(** After the yield: [if (timerArg && bthread_timer_del(timer) == 0) delete timerArg]. *)
Definition delete_timer (timer : option TimerId) (m : gmap TimerId Timer) : gmap TimerId Timer :=
  match timer with
  | Some id =>
      match m !! id with
      | Some (mkTimer (Armed _) n) => <[id := mkTimer Deleted (S n)]> m
      | _ => m
      end
  | None => m
  end.

(** What the waiter and the services do on their own. *)
Inductive own_step : World -> World -> Prop :=
| own_yield w c timer d : w_waiter w = Registered c timer d ->
    own_step w (set_waiter (Yielded c timer d) w)
| own_run w c timer d l r : w_waiter w = Yielded c timer d -> w_queued w = l ++ c :: r ->
    own_step w (mkWorld (w_now w) (w_object w) (Resumed c timer) (w_notifying w) (l ++ r)
                  (w_timers w) (w_nextCoro w) (w_nextTimer w) (w_owed w))
| own_return w c timer : w_waiter w = Resumed c timer ->
    own_step w (return_with (w_object w) (Some c) (set_timers (delete_timer timer (w_timers w)) w))
| own_leave_notify w l r e from : w_notifying w = l ++ (e, from) :: r ->
    own_step w (leave_notify l r e from w)
| own_recheck w d o : w_waiter w = Blocked false d -> recheck (w_now w) d (w_object w) = Some o ->
    own_step w (return_with o None w)
| own_sleep_again w d : w_waiter w = Blocked false d -> recheck (w_now w) d (w_object w) = None ->
    own_step w (set_waiter (Blocked true d) w)
| own_timed_out w d : w_waiter w = Blocked true d -> d <> Date_max -> d <= w_now w ->
    own_step w (set_waiter (Blocked false d) w)
| own_fire w id t n : w_timers w !! id = Some (mkTimer (Armed t) n) -> t <= w_now w ->
    own_step w (set_timers (<[id := mkTimer Firing n]> (w_timers w)) w)
| own_timer_notify w id n : w_timers w !! id = Some (mkTimer Firing n) ->
    own_step w (enter_notify (Some id) (set_timers (<[id := mkTimer Notifying n]> (w_timers w)) w)).

(** Time passes. *)
Definition tick (t : Z) (w : World) : World :=
  mkWorld t (w_object w) (w_waiter w) (w_notifying w) (w_queued w) (w_timers w) (w_nextCoro w)
    (w_nextTimer w) (w_owed w).

(** An operation's turn of the cursor on a coroutine of its own, or on a plain thread. *)
Definition begin_operation (coroutine : bool) (w : World) : World :=
  mkWorld (w_now w) (w_object w) (Idle (if coroutine then Some (w_nextCoro w) else None))
    (w_notifying w) (w_queued w) (w_timers w) (S (w_nextCoro w)) (w_nextTimer w) (w_owed w).

Inductive step : World -> World -> Prop :=
| step_own w w' : own_step w w' -> step w w'
| step_tick w t : w_now w <= t -> step w (tick t w)
| step_operation w coro b : w_waiter w = Idle coro -> step w (begin_operation b w)
| step_notify w : step w (enter_notify None w)
| step_spurious w d : w_waiter w = Blocked true d -> step w (set_waiter (Blocked false d) w)
| step_wait_returns w coro d added o : w_waiter w = Idle coro ->
    waitUntil (w_now w) d coro added (w_object w) = Ok (o, Returned) ->
    step w (return_with o coro w)
| step_wait_yields w c d added o fireAt : w_waiter w = Idle (Some c) ->
    waitUntil (w_now w) d (Some c) added (w_object w) = Ok (o, MustYield fireAt) ->
    step w (register o c fireAt d w)
| step_wait_blocks w d added o : w_waiter w = Idle None ->
    waitUntil (w_now w) d None added (w_object w) = Ok (o, MustBlock) ->
    step w (mkWorld (w_now w) o (Blocked true d) (w_notifying w) (w_queued w) (w_timers w)
              (w_nextCoro w) (w_nextTimer w) (w_owed w)).

Definition reachable (w : World) : Prop := exists now, rtc step (init now) w.

(** ** The invariant *)

(** The resumptions on their way: of the coroutine registered, of the [notify] calls that took one,
    and those queued. *)
Definition taken (x : Effect * option TimerId) : option Coro :=
  match x.1 with RunResume c => Some c | NotifyAll => None end.

Definition registered (o : CdcWaitObject) : list Coro :=
  if wo_coroutineWaiting o then option_list (wo_resume o) else [].

Definition resumptions (w : World) : list Coro :=
  registered (w_object w) ++ omap taken (w_notifying w) ++ w_queued w.

(** The coroutine that is to be resumed. *)
Definition waiting (x : Waiter) : list Coro :=
  match x with Registered c _ _ | Yielded c _ _ => [c] | _ => [] end.

Definition released_in (s : TimerState) : nat := match s with Fired | Deleted => 1 | _ => 0 end.

(** The timer of a coroutine still registered will notify at its deadline, or is about to. *)
Definition will_notify (m : gmap TimerId Timer) (id : TimerId) (d : Z) : Prop :=
  exists n, m !! id = Some (mkTimer (Armed d) n) \/ m !! id = Some (mkTimer Firing n).

Definition bounded (w : World) (timer : option TimerId) (d : Z) : Prop :=
  match timer with
  | None => d = Date_max
  | Some id => wo_coroutineWaiting (w_object w) = true -> will_notify (w_timers w) id d
  end.

(** Each timer released its reference once if it is done, never before; [l] are the timers whose
    [notify] is in progress. *)
Definition timers_ok (m : gmap TimerId Timer) (l : list TimerId) (next : TimerId) : Prop :=
  NoDup l /\ (forall id, id ∈ l -> exists t, m !! id = Some t /\ t_state t = Notifying) /\
  forall id t, m !! id = Some t ->
    (id < next)%nat /\ t_released t = released_in (t_state t) /\ (t_state t = Notifying -> id ∈ l).

Record inv (w : World) : Prop := {
  inv_object : is_Some (wo_resume (w_object w)) <-> wo_coroutineWaiting (w_object w) = true;
  inv_resumed : resumptions w ≡ₚ waiting (w_waiter w);
  inv_timers : timers_ok (w_timers w) (omap snd (w_notifying w)) (w_nextTimer w);
  inv_bounded : match w_waiter w with
                | Registered _ timer d | Yielded _ timer d => bounded w timer d
                | _ => True end;
  inv_owed : w_owed w = true ->
    wo_notified (w_object w) = true \/
    match w_waiter w with
    | Registered _ _ _ | Yielded _ _ _ => wo_coroutineWaiting (w_object w) = false
    | Resumed _ _ => True
    | _ => False
    end;
  inv_awake : forall d, w_waiter w = Blocked true d -> wo_notified (w_object w) = true ->
    exists from, (NotifyAll, from) ∈ w_notifying w;
}.

Lemma world_init_inv now : inv (init now).
Proof. split; cbn; try done. split_and!; [constructor|intros id; by rewrite elem_of_nil|done]. Qed.

(** Nobody is registered unless a coroutine waits. *)
Lemma not_registered w : inv w -> waiting (w_waiter w) = [] ->
  wo_coroutineWaiting (w_object w) = false /\ omap taken (w_notifying w) = [] /\ w_queued w = [].
Proof.
  intros I E. pose proof (inv_resumed w I) as P. rewrite E in P. apply Permutation_nil_r in P.
  unfold resumptions in P. apply app_eq_nil in P as [P1 P2]. apply app_eq_nil in P2 as [P2 P3].
  split_and!; try done. destruct (wo_coroutineWaiting (w_object w)) eqn:W; [|done].
  unfold registered in P1. rewrite W in P1. apply (inv_object w I) in W as [c W]. by rewrite W in P1.
Qed.

Lemma notify_object o : (is_Some (wo_resume o) <-> wo_coroutineWaiting o = true) ->
  (is_Some (wo_resume (notify o).1) <-> wo_coroutineWaiting (notify o).1 = true).
Proof. destruct o as [n [] r]; cbn; [|done]. by split; [intros []|]. Qed.

(** The resumption registered, if any, is the one [notify] takes. *)
Lemma notify_moves o from : (is_Some (wo_resume o) <-> wo_coroutineWaiting o = true) ->
  registered o = registered (notify o).1 ++ option_list (taken ((notify o).2, from)).
Proof. destruct o as [n [] r]; cbn; [|done]. intros H. by destruct (proj2 H eq_refl) as [c ->]. Qed.

Lemma notify_bounded o : wo_coroutineWaiting (notify o).1 = false.
Proof. unfold notify. by destruct (wo_coroutineWaiting o) eqn:E. Qed.

Lemma omap_snoc {A B} (f : A -> option B) l x : omap f (l ++ [x]) = omap f l ++ option_list (f x).
Proof. induction l as [|y l IH]; cbn; [by destruct (f x)|]. destruct (f y); cbn; by rewrite IH. Qed.

Lemma enter_notify_eq from w : enter_notify from w =
  mkWorld (w_now w) (notify (w_object w)).1 (w_waiter w) (w_notifying w ++ [((notify (w_object w)).2, from)])
    (w_queued w) (w_timers w) (w_nextCoro w) (w_nextTimer w) true.
Proof. unfold enter_notify. by destruct (notify (w_object w)). Qed.

(** *** The timers *)

(** A timer that is not notifying moves on, keeping what it owes. *)
Lemma timers_move m l next id t t' :
  timers_ok m l next -> m !! id = Some t -> t_state t <> Notifying -> t_state t' <> Notifying ->
  t_released t' = released_in (t_state t') -> timers_ok (<[id := t']> m) l next.
Proof.
  intros (Hn & Hl & Hm) E E1 E2 E3. split_and!; [done| |].
  - intros i Hi. destruct (Hl i Hi) as (x & Hx & Hs). exists x. split; [|done].
    rewrite lookup_insert_ne; [done|]. intros ->. congruence.
  - intros i x. rewrite lookup_insert_Some. intros [[<- <-]|[_ Hx]]; [|by apply Hm].
    destruct (Hm _ _ E) as (? & _). done.
Qed.

Lemma timers_notify m l next id n :
  timers_ok m l next -> m !! id = Some (mkTimer Firing n) ->
  timers_ok (<[id := mkTimer Notifying n]> m) (l ++ [id]) next.
Proof.
  intros (Hn & Hl & Hm) E. assert (id ∉ l) as Hid.
  { intros Hi. destruct (Hl id Hi) as (x & Hx & Hs). by simplify_eq. }
  split_and!.
  - apply NoDup_app. split_and!; [done| |apply NoDup_singleton]. set_solver.
  - intros i Hi. destruct (decide (i = id)) as [->|Hne]; [rewrite lookup_insert_eq; by eexists|].
    rewrite lookup_insert_ne by done. apply Hl. set_solver.
  - intros i x. rewrite lookup_insert_Some. intros [[<- <-]|[Hne Hx]].
    + destruct (Hm _ _ E) as (? & ? & _). split_and!; [done|done|set_solver].
    + destruct (Hm _ _ Hx) as (? & ? & ?). split_and!; [done|done|set_solver].
Qed.

Lemma timers_release m l r next id :
  timers_ok m (l ++ id :: r) next -> timers_ok (release (Some id) m) (l ++ r) next.
Proof.
  intros (Hn & Hl & Hm). assert (id ∉ l ++ r) as Hid.
  { apply NoDup_app in Hn as (_ & H1 & H2). apply NoDup_cons in H2 as [H2 _]. set_solver. }
  destruct (Hl id) as (t & Ht & Hs); [set_solver|]. destruct (Hm _ _ Ht) as (Hi & Hr & _).
  rewrite Hs in Hr. cbn in Hr. cbn [release]. split_and!.
  - rewrite <- Permutation_middle in Hn. by apply NoDup_cons in Hn as [_ ?].
  - intros i Hin. rewrite lookup_alter_ne by set_solver. apply Hl. set_solver.
  - intros i x. destruct (decide (i = id)) as [->|Hne].
    + rewrite lookup_alter_eq, Ht. intros [= <-]. cbn. rewrite Hr. done.
    + rewrite lookup_alter_ne by done. intros Hx. destruct (Hm _ _ Hx) as (? & ? & Hin).
      split_and!; [done|done|]. intros Hs'. specialize (Hin Hs'). set_solver.
Qed.

Lemma timers_arm m l next t :
  timers_ok m l next -> timers_ok (<[next := mkTimer (Armed t) 0]> m) l (S next).
Proof.
  intros (Hn & Hl & Hm). split_and!; [done| |].
  - intros i Hi. destruct (Hl i Hi) as (x & Hx & Hs). exists x. split; [|done].
    rewrite lookup_insert_ne; [done|]. intros ->. destruct (Hm _ _ Hx). lia.
  - intros i x. rewrite lookup_insert_Some. intros [[<- <-]|[_ Hx]]; [split_and!; done || lia|].
    destruct (Hm _ _ Hx) as (? & ? & ?). split_and!; done || lia.
Qed.

Lemma timers_delete m l next timer : timers_ok m l next -> timers_ok (delete_timer timer m) l next.
Proof.
  intros H. destruct timer as [id|]; cbn; [|done]. destruct (m !! id) as [[[] n]|] eqn:E; try done.
  destruct H as (? & ? & Hm). destruct (Hm _ _ E) as (_ & Hr & _). cbn in Hr. subst n.
  by eapply timers_move.
Qed.

(** *** Each step keeps the invariant *)

Lemma resumptions_notify w from : inv w ->
  resumptions (enter_notify from w) ≡ₚ waiting (w_waiter w).
Proof.
  intros I. rewrite <- (inv_resumed w I), enter_notify_eq. unfold resumptions. cbn.
  rewrite omap_snoc, (notify_moves (w_object w) from (inv_object w I)). solve_Permutation.
Qed.

Lemma enter_notify_inv w from m :
  inv w -> timers_ok m (omap snd (w_notifying w) ++ option_list from) (w_nextTimer w) ->
  inv (enter_notify from (set_timers m w)).
Proof.
  intros I Hm. pose proof (resumptions_notify w from I) as P. rewrite enter_notify_eq in *.
  destruct I as [Io Ir It Ib Iw Ia]. split; cbn in *.
  - by apply notify_object.
  - exact P.
  - by rewrite omap_snoc.
  - destruct (w_waiter w); try done; destruct timer; try done; cbn; by rewrite notify_bounded.
  - intros _. unfold notify. destruct (wo_coroutineWaiting (w_object w)) eqn:E; cbn; [right|by left].
    unfold resumptions, registered in Ir. rewrite E in Ir. destruct (proj2 Io eq_refl) as [c Hc].
    rewrite Hc in Ir. destruct (w_waiter w); try done; by apply Permutation_nil_r in Ir.
  - intros d Hd Hn. exists from. apply elem_of_app. right. apply list_elem_of_singleton. f_equal.
    unfold notify. destruct (wo_coroutineWaiting (w_object w)) eqn:E; cbn; [|done].
    unfold resumptions, registered in Ir. rewrite E in Ir. destruct (proj2 Io eq_refl) as [c Hc].
    rewrite Hc, Hd in Ir. by apply Permutation_nil_r in Ir.
Qed.

Lemma omap_middle {A B} (f : A -> option B) l x r :
  omap f (l ++ x :: r) = omap f l ++ option_list (f x) ++ omap f r.
Proof. induction l as [|y l IH]; cbn; [by destruct (f x)|]. destruct (f y); cbn; by rewrite IH. Qed.

Lemma omap_both {A B} (f : A -> option B) l r : omap f (l ++ r) = omap f l ++ omap f r.
Proof. induction l as [|y l IH]; cbn; [done|]. destruct (f y); cbn; by rewrite IH. Qed.

Lemma timers_released m l r next from :
  timers_ok m (l ++ option_list from ++ r) next -> timers_ok (release from m) (l ++ r) next.
Proof. destruct from; cbn; [apply timers_release|done]. Qed.

Lemma release_will_notify m l r next from id d :
  timers_ok m (l ++ option_list from ++ r) next -> will_notify m id d -> will_notify (release from m) id d.
Proof.
  intros (_ & Hl & _) [n Hn]. destruct from as [i|]; cbn; [|by exists n].
  destruct (Hl i) as (t & Ht & Hs); [set_solver|]. exists n. destruct (decide (i = id)) as [->|Hne].
  - destruct Hn; simplify_eq.
  - by rewrite !lookup_alter_ne by done.
Qed.

Lemma leave_notify_inv w l r e from : inv w -> w_notifying w = l ++ (e, from) :: r ->
  inv (leave_notify l r e from w).
Proof.
  intros [Io Ir It Ib Iw Ia] E. rewrite E, omap_middle in It. cbn in It.
  assert (resumptions w ≡ₚ registered (w_object w) ++ omap taken (l ++ r) ++
            w_queued w ++ option_list (taken (e, from))) as P.
  { unfold resumptions. rewrite E, omap_middle, omap_both. solve_Permutation. }
  assert (forall timer d, bounded w timer d ->
    match timer with
    | None => d = Date_max
    | Some id => wo_coroutineWaiting (w_object w) = true -> will_notify (release from (w_timers w)) id d
    end) as Hb.
  { intros [id|] d; cbn; [|done]. intros H Hw. eapply release_will_notify; [exact It|auto]. }
  rewrite P in Ir. destruct e as [c|]; (split; cbn in *; [done| |by rewrite omap_both; apply timers_released| | |]).
  - unfold resumptions. cbn. by rewrite <- Ir.
  - destruct (w_waiter w); try done; by apply Hb.
  - done.
  - intros d Hd Hn. destruct (Ia d Hd Hn) as [f Hf]. exists f. rewrite E in Hf. set_solver.
  - unfold resumptions. cbn. rewrite app_nil_r in Ir. rewrite Ir. by destruct (w_waiter w).
  - destruct (w_waiter w); try done; by apply Hb.
  - intros Ho. specialize (Iw Ho). by destruct (w_waiter w).
  - intros d Hd. by destruct (w_waiter w).
Qed.

(** A wait that returned with no coroutine registered. *)
Lemma return_inv w o coro m :
  inv w -> timers_ok m (omap snd (w_notifying w)) (w_nextTimer w) -> registered (w_object w) = [] ->
  omap taken (w_notifying w) ++ w_queued w = [] ->
  wo_coroutineWaiting o = wo_coroutineWaiting (w_object w) -> wo_resume o = wo_resume (w_object w) ->
  inv (return_with o coro (set_timers m w)).
Proof.
  intros [Io Ir It Ib Iw Ia] Hm H1 H2 E1 E2. split; cbn; try done.
  - by rewrite E1, E2.
  - unfold resumptions, registered in *. cbn. by rewrite E1, E2, H1, H2.
Qed.

Lemma set_timers_same w : set_timers (w_timers w) w = w.
Proof. by destruct w. Qed.

Lemma idle_return_inv w o coro :
  inv w -> waiting (w_waiter w) = [] ->
  wo_coroutineWaiting o = wo_coroutineWaiting (w_object w) -> wo_resume o = wo_resume (w_object w) ->
  inv (return_with o coro w).
Proof.
  intros I E E1 E2. destruct (not_registered w I E) as (H1 & H2 & H3).
  rewrite <- (set_timers_same w) at 1. apply return_inv; try done.
  - apply I.
  - unfold registered. by rewrite H1.
  - by rewrite H2, H3.
Qed.

(** The waiter moves, nothing else. *)
Lemma set_waiter_inv w x : inv w ->
  waiting x = waiting (w_waiter w) ->
  match x with Registered _ timer d | Yielded _ timer d => bounded w timer d | _ => True end ->
  (w_owed w = true -> wo_notified (w_object w) = true \/
     match x with
     | Registered _ _ _ | Yielded _ _ _ => wo_coroutineWaiting (w_object w) = false
     | Resumed _ _ => True | _ => False end) ->
  (forall d, x = Blocked true d -> wo_notified (w_object w) = true ->
     exists from, (NotifyAll, from) ∈ w_notifying w) ->
  inv (set_waiter x w).
Proof.
  intros [Io Ir It Ib Iw Ia] Ex Hb Ho Ha. split; cbn; try done.
  - unfold resumptions in *. cbn. by rewrite Ex.
Qed.

Lemma own_step_inv w w' : inv w -> own_step w w' -> inv w'.
Proof.
  intros I H. destruct H as [w c timer d E|w c timer d l r E Eq|w c timer E|w l r e from E
    |w d o E Er|w d E Er|w d E Hne Hd|w id t n E Ht|w id n E].
  - apply set_waiter_inv; rewrite ?E; try done.
    + pose proof (inv_bounded w I) as H. by rewrite E in H.
    + pose proof (inv_owed w I) as H. by rewrite E in H.
  - pose proof (inv_resumed w I) as P. unfold resumptions in P. rewrite E, Eq in P.
    assert (registered (w_object w) ++ omap taken (w_notifying w) ++ l ++ r = []) as Z.
    { apply Permutation_nil_r. apply (Permutation_cons_inv (a:=c)). rewrite <- P. solve_Permutation. }
    destruct I as [Io Ir It Ib Iw Ia]. split; cbn; try done; [|by right].
    unfold resumptions. cbn. by rewrite Z.
  - destruct (not_registered w I) as (H1 & H2 & H3); [by rewrite E|].
    apply return_inv; try done; [apply timers_delete, I|by unfold registered; rewrite H1|by rewrite H2, H3].
  - by apply leave_notify_inv.
  - unfold recheck in Er. destruct (_ || _); simplify_eq. apply idle_return_inv; rewrite ?E; done.
  - unfold recheck in Er. destruct (wo_notified (w_object w)) eqn:En; [done|].
    apply set_waiter_inv; rewrite ?E; try done.
    + pose proof (inv_owed w I) as H. by rewrite E in H.
    + intros ? _ Hn. congruence.
  - apply set_waiter_inv; rewrite ?E; try done. pose proof (inv_owed w I) as H. by rewrite E in H.
  - destruct (inv_timers w I) as (_ & _ & Hm). destruct (Hm _ _ E) as (_ & Hr & _). cbn in Hr. subst n.
    assert (timers_ok (<[id:=mkTimer Firing 0]> (w_timers w)) (omap snd (w_notifying w)) (w_nextTimer w)) as Ht'.
    { eapply timers_move; [apply I|done..]. }
    destruct I as [Io Ir It Ib Iw Ia]. split; cbn; try done.
    assert (forall timer d, bounded w timer d ->
      bounded (set_timers (<[id:=mkTimer Firing 0]> (w_timers w)) w) timer d) as Hb.
    { intros [i|] d; cbn; [|done]. intros H Hw. destruct (H Hw) as [n Hn]. unfold will_notify.
      destruct (decide (i = id)) as [->|]; [rewrite lookup_insert_eq; by eauto|].
      rewrite lookup_insert_ne by done. by exists n. }
    destruct (w_waiter w); try done; by apply Hb.
  - apply enter_notify_inv; [done|]. apply timers_notify; [apply I|done].
Qed.

Lemma waitUntil_cases now d coro added o o' x : waitUntil now d coro added o = Ok (o', x) ->
  match x with
  | Returned => wo_coroutineWaiting o' = wo_coroutineWaiting o /\ wo_resume o' = wo_resume o
  | MustYield t => exists c, coro = Some c /\ wo_notified o = false /\ o' = mkWaitObject false true (Some c) /\
      now < d /\ t = if d =? Date_max then None else Some d
  | MustBlock => coro = None /\ wo_notified o = false /\ o' = o
  end.
Proof.
  unfold waitUntil, yieldUntil. destruct (wo_notified o) eqn:En; [by intros [= <- <-]|].
  destruct (Z.leb_spec d now) as [|Hd]; [by intros [= <- <-]|]. destruct coro as [c|]; [|by intros [= <- <-]].
  destruct (wo_coroutineWaiting o) eqn:Ew; cbn; [done|].
  destruct (d =? Date_max); [|destruct added]; intros [= <- <-]; [| |by rewrite Ew].
  - exists c. split_and!; done.
  - exists c. split_and!; try done. f_equal. lia.
Qed.

Lemma register_inv w c d t : inv w -> w_waiter w = Idle (Some c) -> wo_notified (w_object w) = false ->
  t = (if d =? Date_max then None else Some d) ->
  inv (register (mkWaitObject false true (Some c)) c t d w).
Proof.
  intros I E En ->. destruct (not_registered w I) as (H1 & H2 & H3); [by rewrite E|].
  destruct I as [Io Ir It Ib Iw Ia]. assert (w_owed w = false) as Eo.
  { destruct (w_owed w); [|done]. destruct (Iw eq_refl) as [|H]; [congruence|by rewrite E in H]. }
  destruct (Z.eqb_spec d Date_max) as [Hd|Hd]; cbn; (split; cbn; try done).
  - unfold resumptions. cbn. by rewrite H2, H3.
  - by rewrite Eo.
  - unfold resumptions. cbn. by rewrite H2, H3.
  - by apply timers_arm.
  - intros _. exists 0%nat. left. by rewrite lookup_insert_eq.
  - by rewrite Eo.
Qed.

Lemma world_step_inv w w' : inv w -> step w w' -> inv w'.
Proof.
  intros I H. destruct H as [w w' H|w t Ht|w coro b E|w|w d E|w coro d added o E Hw|w c d added o t E Hw
    |w d added o E Hw].
  - by eapply own_step_inv.
  - destruct I as [Io Ir It Ib Iw Ia]. by split.
  - destruct I as [Io Ir It Ib Iw Ia]. rewrite E in *. by split.
  - rewrite <- (set_timers_same w). apply enter_notify_inv; [done|]. cbn. rewrite app_nil_r. apply I.
  - apply set_waiter_inv; rewrite ?E; try done. pose proof (inv_owed w I) as H. by rewrite E in H.
  - apply waitUntil_cases in Hw as [H1 H2]. apply idle_return_inv; rewrite ?E; done.
  - apply waitUntil_cases in Hw as (c' & [= <-] & En & -> & _ & ->). by apply register_inv.
  - apply waitUntil_cases in Hw as (_ & En & ->). destruct I as [Io Ir It Ib Iw Ia]. rewrite E in *.
    split; cbn; try done. intros ? _ Hn. congruence.
Qed.

Lemma reachable_inv w : reachable w -> inv w.
Proof.
  intros [now H]. pose proof (world_init_inv now) as I. induction H as [|w w' w'' Hs _ IH]; [done|].
  apply IH. by eapply world_step_inv.
Qed.

(** No timer stays armed after the wait that armed it. *)
Definition timer_of (x : Waiter) : option TimerId :=
  match x with
  | Registered _ timer _ | Yielded _ timer _ | Resumed _ timer => timer
  | _ => None
  end.

Definition armed_ok (w : World) : Prop :=
  forall id t n, w_timers w !! id = Some (mkTimer (Armed t) n) -> timer_of (w_waiter w) = Some id.

Lemma own_step_armed w w' : armed_ok w -> own_step w w' -> armed_ok w'.
Proof.
  intros I H. destruct H as [w c timer d E|w c timer d l r E Eq|w c timer E|w l r e from E
    |w d o E Er|w d E Er|w d E Hne Hd|w id t n E Ht|w id n E]; intros i x k; cbn;
    rewrite ?enter_notify_eq; cbn; try (intros Hi; specialize (I _ _ _ Hi); by rewrite E in I).
  - destruct timer as [j|]; cbn; [|intros Hi; specialize (I _ _ _ Hi); by rewrite E in I].
    destruct (w_timers w !! j) as [[[] m]|] eqn:Ej; cbn;
      try (intros Hi; specialize (I _ _ _ Hi); rewrite E in I; cbn in I; by simplify_eq).
    rewrite lookup_insert_Some. intros [[_ ?]|[Hne Hi]]; [done|].
    specialize (I _ _ _ Hi). rewrite E in I. cbn in I. by simplify_eq.
  - assert (release from (w_timers w) !! i = Some (mkTimer (Armed x) k) ->
            w_timers w !! i = Some (mkTimer (Armed x) k)) as Hr.
    { destruct from as [j|]; cbn; [|done]. rewrite lookup_alter_Some. naive_solver. }
    destruct e; cbn; intros Hi; specialize (I _ _ _ (Hr Hi)); [done|]. by destruct (w_waiter w).
  - rewrite lookup_insert_Some. intros [[_ ?]|[_ Hi]]; [done|by eapply I].
  - rewrite lookup_insert_Some. intros [[_ ?]|[_ Hi]]; [done|by eapply I].
Qed.

Lemma step_armed w w' : armed_ok w -> step w w' -> armed_ok w'.
Proof.
  intros I H. destruct H as [w w' H|w t Ht|w coro b E|w|w d E|w coro d added o E Hw|w c d added o t E Hw
    |w d added o E Hw]; try (intros i x k; cbn; rewrite ?enter_notify_eq; cbn; intros Hi;
                             specialize (I _ _ _ Hi); by rewrite ?E in I).
  - by eapply own_step_armed.
  - intros i x k. destruct t as [t|]; cbn.
    + rewrite lookup_insert_Some. intros [[<- _]|[_ Hi]]; [done|]. specialize (I _ _ _ Hi). by rewrite E in I.
    + intros Hi. specialize (I _ _ _ Hi). by rewrite E in I.
Qed.

Lemma reachable_armed w : reachable w -> armed_ok w.
Proof.
  intros [now H]. assert (armed_ok (init now)) as I by done.
  induction H as [|w w' w'' Hs _ IH]; [done|]. apply IH. by eapply step_armed.
Qed.

(** ** Waits end *)

(** While a coroutine is registered, nothing is recorded for the next wait. *)
Definition fresh_ok (w : World) : Prop :=
  wo_coroutineWaiting (w_object w) = true -> wo_notified (w_object w) = false.

Lemma notify_fresh o : wo_coroutineWaiting (notify o).1 = true -> wo_notified (notify o).1 = false.
Proof. by rewrite notify_bounded. Qed.

Lemma step_fresh w w' : fresh_ok w -> step w w' -> fresh_ok w'.
Proof.
  unfold fresh_ok. intros I H. destruct H as [w w' H|w t Ht|w coro b E|w|w d E|w coro d added o E Hw
    |w c d added o t E Hw|w d added o E Hw]; cbn; rewrite ?enter_notify_eq; cbn; try done; try apply notify_fresh.
  - destruct H; cbn; rewrite ?enter_notify_eq; cbn; try done; try apply notify_fresh.
    + by destruct e.
    + unfold recheck in *. destruct (_ || _); by simplify_eq.
  - unfold waitUntil, yieldUntil in Hw. destruct (wo_notified (w_object w)) eqn:En; [by injection Hw as <-|].
    destruct (d <=? w_now w); [injection Hw as <-; by rewrite En|]. destruct coro as [c|]; [|done].
    destruct (wo_coroutineWaiting (w_object w)) eqn:Ew; [done|]. cbn in Hw.
    destruct (d =? Date_max); [done|]. destruct added; [done|]. injection Hw as <-. by rewrite Ew.
  - apply waitUntil_cases in Hw as (c' & _ & _ & -> & _). by destruct t.
  - by apply waitUntil_cases in Hw as (_ & _ & ->).
Qed.

Lemma reachable_fresh w : reachable w -> fresh_ok w.
Proof.
  intros [now H]. assert (fresh_ok (init now)) as I by done.
  induction H as [|w w' w'' Hs _ IH]; [done|]. apply IH. by eapply step_fresh.
Qed.

(** A wait that is to end: a notification arrived since the last one returned, or its deadline has
    passed. *)
Definition past (now d : Z) : bool := negb (d =? Date_max) && (d <=? now).

Definition due (w : World) : Prop :=
  w_owed w = true \/
  match w_waiter w with
  | Registered _ _ d | Yielded _ _ d | Blocked _ d => past (w_now w) d = true
  | Resumed _ _ | Idle _ => True
  end.

Lemma own_step_due w w' : due w -> own_step w w' -> due w'.
Proof.
  unfold due. intros D H. destruct H; cbn; rewrite ?enter_notify_eq; cbn; try (by right); try (by left);
    try (destruct D as [D|D]; [by left|]; right; by rewrite H in D); try done.
  destruct e; cbn; [done|]. destruct D as [D|D]; [by left|]. right. by destruct (w_waiter w).
Qed.

Lemma past_spec now d : past now d = true <-> d <> Date_max /\ d <= now.
Proof. unfold past. rewrite andb_true_iff, negb_true_iff, Z.eqb_neq, Z.leb_le. done. Qed.

(** A due wait that has not returned can go on by itself. *)
Lemma due_progress w : reachable w -> due w ->
  (exists coro, w_waiter w = Idle coro) \/ exists w', own_step w w'.
Proof.
  intros R D. pose proof (reachable_inv w R) as I. pose proof (reachable_fresh w R) as F.
  destruct (w_waiter w) as [coro|c timer d|c timer d|c timer|asleep d] eqn:E; [left; by eexists|right..].
  - eexists. by eapply own_yield.
  - destruct (wo_coroutineWaiting (w_object w)) eqn:Ew.
    + destruct D as [D|D].
      { destruct (inv_owed w I D) as [H|H]; [by rewrite F in H|rewrite E in H; congruence]. }
      rewrite E in D. apply past_spec in D as [D1 D2]. pose proof (inv_bounded w I) as B. rewrite E in B.
      destruct timer as [id|]; [|done]. destruct (B Ew) as [n [Hn|Hn]]; eexists; [by eapply own_fire|by eapply own_timer_notify].
    + pose proof (inv_resumed w I) as P. rewrite E in P. unfold resumptions, registered in P. rewrite Ew in P.
      cbn [app waiting] in P. apply Permutation_singleton_r in P.
      destruct (w_queued w) as [|c' q] eqn:Q.
      * rewrite app_nil_r in P. assert (c ∈ omap taken (w_notifying w)) as Hc by (rewrite P; set_solver).
        apply list_elem_of_omap in Hc as ([e from] & Hin & _). apply list_elem_of_split in Hin as (l & r & Hl).
        eexists. by eapply own_leave_notify.
      * destruct (omap taken (w_notifying w)) as [|? l]; [|by destruct l]. injection P as -> ->.
        eexists. by eapply (own_run w c timer d []).
  - eexists. by eapply own_return.
  - destruct asleep.
    + destruct D as [D|D].
      * destruct (inv_owed w I D) as [H|H]; [|by rewrite E in H].
        destruct (inv_awake w I d E H) as [from Hin]. apply list_elem_of_split in Hin as (l & r & Hl).
        eexists. by eapply own_leave_notify.
      * rewrite E in D. apply past_spec in D as [D1 D2]. eexists. by eapply own_timed_out.
    + destruct (recheck (w_now w) d (w_object w)) eqn:Er; eexists; [by eapply own_recheck|by eapply own_sleep_again].
Qed.

(** What is left to do without new calls. *)
Definition timer_weight (t : Timer) : nat :=
  match t_state t with Armed _ => 4 | Firing => 3 | _ => 0 end.

Definition timers_weight (m : gmap TimerId Timer) : nat :=
  map_fold (fun _ t n => (timer_weight t + n)%nat) 0%nat m.

Definition waiter_weight (now : Z) (x : Waiter) : nat :=
  match x with
  | Idle _ => 0 | Resumed _ _ => 1 | Yielded _ _ _ => 2 | Registered _ _ _ => 3
  | Blocked false _ => 1
  | Blocked true d => if past now d then 2 else 0
  end.

Definition weight (w : World) : nat :=
  timers_weight (w_timers w) + 2 * length (w_notifying w) + waiter_weight (w_now w) (w_waiter w).

Lemma timers_weight_delete m id t : m !! id = Some t ->
  timers_weight m = (timer_weight t + timers_weight (delete id m))%nat.
Proof.
  intros H. unfold timers_weight.
  rewrite (map_fold_delete_L (fun _ t n => (timer_weight t + n)%nat) 0%nat id t m); [done|intros; lia|done].
Qed.

Lemma timers_weight_insert m id t t' : m !! id = Some t ->
  (timers_weight (<[id := t']> m) + timer_weight t = timers_weight m + timer_weight t')%nat.
Proof.
  intros H. rewrite (timers_weight_delete m id t H), (timers_weight_delete (<[id := t']> m) id t').
  - rewrite delete_insert_eq. lia.
  - apply lookup_insert_eq.
Qed.

Lemma release_weight from m : (timers_weight (release from m) <= timers_weight m)%nat.
Proof.
  destruct from as [id|]; cbn [release]; [|lia]. destruct (m !! id) as [t|] eqn:E.
  - pose proof (timers_weight_insert m id t (mkTimer Fired (S (t_released t))) E) as H.
    replace (alter _ id m) with (<[id := mkTimer Fired (S (t_released t))]> m).
    + unfold timer_weight at 2 in H. cbn in H. lia.
    + apply map_eq. intros i. destruct (decide (i = id)) as [->|].
      * by rewrite lookup_insert_eq, lookup_alter_eq, E.
      * by rewrite lookup_insert_ne, lookup_alter_ne.
  - rewrite alter_id; [lia|]. intros x Hx. congruence.
Qed.

Lemma delete_timer_weight timer m : (timers_weight (delete_timer timer m) <= timers_weight m)%nat.
Proof.
  destruct timer as [id|]; cbn [delete_timer]; [|lia]. destruct (m !! id) as [[[] n]|] eqn:E; try lia.
  pose proof (timers_weight_insert m id _ (mkTimer Deleted (S n)) E) as H.
  unfold timer_weight at 2 in H. cbn in H. lia.
Qed.

Lemma own_step_weight w w' : own_step w w' -> (weight w' < weight w)%nat.
Proof.
  unfold weight. destruct 1 as [w c timer d E|w c timer d l r E Eq|w c timer E|w l r e from E
    |w d o E Er|w d E Er|w d E Hne Hd|w id t n E Ht|w id n E];
    rewrite ?enter_notify_eq; cbn [w_timers w_notifying w_waiter w_now set_waiter set_timers return_with];
    rewrite ?E; cbn [waiter_weight]; try lia.
  - pose proof (delete_timer_weight timer (w_timers w)). lia.
  - pose proof (release_weight from (w_timers w)). rewrite length_app. cbn [length].
    destruct e; cbn [leave_notify w_timers w_notifying w_waiter w_now set_waiter]; rewrite length_app; [lia|].
    destruct (w_waiter w) as [| | | |[] d]; cbn [wake waiter_weight]; try destruct (past _ _); lia.
  - unfold recheck in Er. destruct (past (w_now w) d) eqn:P; [|lia].
    unfold past in P. rewrite P, orb_true_r in Er. done.
  - rewrite (proj2 (past_spec _ _)) by done. lia.
  - pose proof (timers_weight_insert (w_timers w) id _ (mkTimer Firing n) E) as H. cbn in H. lia.
  - pose proof (timers_weight_insert (w_timers w) id _ (mkTimer Notifying n) E) as H. cbn in H.
    rewrite length_app. cbn [length]. lia.
Qed.

Lemma own_steps_end w : sn own_step w.
Proof.
  remember (weight w) as n eqn:En. revert w En. induction (lt_wf n) as [n _ IH]. intros w ->.
  constructor. intros w' H. eapply IH; [by apply own_step_weight|done].
Qed.

Lemma own_steps_reachable w w' : reachable w -> rtc own_step w w' -> reachable w'.
Proof.
  intros [now H] Hs. exists now. etrans; [done|]. eapply rtc_subrel; [|done]. intros a b. by constructor.
Qed.

(** ** Theorems *)

(** C34. However callbacks, timers and operations interleave, a coroutine that waits has exactly one
    resumption on its way (still registered, taken by a [notify], or queued) and no other coroutine
    has any: a waiter is resumed exactly once, and never one whose wait has returned. No wait finds
    another registered (the invariant of [_yieldUntil] holds), no timer stays armed after its wait,
    and each timer's reference to the object is released exactly once, by the callback that ran or
    by the waiter that deleted it in time. *)
Theorem resumed_exactly_once w :
  reachable w ->
  resumptions w ≡ₚ waiting (w_waiter w) /\
  (forall coro d added, w_waiter w = Idle coro ->
     waitUntil (w_now w) d coro added (w_object w) <> Err InvariantFailure) /\
  (forall id t, w_timers w !! id = Some t ->
     t_released t = released_in (t_state t) /\
     forall at_, t_state t = Armed at_ -> timer_of (w_waiter w) = Some id).
Proof.
  intros R. pose proof (reachable_inv w R) as I. split_and!; [apply I| |].
  - intros coro d added E. destruct (not_registered w I) as (H & _); [by rewrite E|].
    unfold waitUntil, yieldUntil. rewrite H. cbn.
    destruct (wo_notified _), (d <=? w_now w), coro, (d =? Date_max), added; done.
  - intros id [s n] Ht. destruct (inv_timers w I) as (_ & _ & Hm). split; [apply (Hm _ _ Ht)|].
    intros a [= ->]. by eapply (reachable_armed w R).
Qed.

(** No notification is lost and no wait outlasts its deadline: in any state the component can
    reach, if [notify] was called since the last wait returned, or the deadline of the current wait
    has passed, then the steps that are already under way are finitely many, whatever their order,
    and once none is left the wait has returned. *)
Theorem due_wait_returns w :
  reachable w -> due w ->
  sn own_step w /\
  forall w', rtc own_step w w' -> (forall w'', ~ own_step w' w'') -> exists coro, w_waiter w' = Idle coro.
Proof.
  intros R D. split; [apply own_steps_end|]. intros w' Hs Hstop.
  assert (due w') as D'.
  { clear R Hstop. induction Hs as [|a b c Hab _ IH]; [done|]. apply IH. by eapply own_step_due. }
  destruct (due_progress w' (own_steps_reachable w w' R Hs) D') as [|[w'' H]]; [done|]. by destruct (Hstop w'').
Qed.

(** A coroutine waits until 100 and a callback has just taken its resumption. *)
Definition ex_registered : World :=
  register (mkWaitObject false true (Some 0%nat)) 0 (Some 100) 100 (begin_operation true (init 0)).
Definition ex_notified : World := enter_notify None (set_waiter (Yielded 0 (Some 0%nat) 100) ex_registered).

Lemma ex_reachable : reachable ex_notified.
Proof.
  exists 0. eapply rtc_l; [by eapply (step_operation _ None true)|].
  eapply rtc_l; [by eapply (step_wait_yields _ 0 100 true _ (Some 100))|].
  eapply rtc_l; [apply step_own; by eapply (own_yield _ 0 (Some 0%nat) 100)|].
  eapply rtc_l; [apply step_notify|]. apply rtc_refl.
Qed.

Lemma resumed_exactly_once_witness :
  resumptions ex_notified ≡ₚ [0%nat] /\ w_notifying ex_notified = [(RunResume 0, None)].
Proof. split; [exact (proj1 (resumed_exactly_once ex_notified ex_reachable))|reflexivity]. Defined.

Lemma due_wait_returns_witness :
  sn own_step ex_notified /\
  forall w', rtc own_step ex_notified w' -> (forall w'', ~ own_step w' w'') -> exists coro, w_waiter w' = Idle coro.
Proof. exact (due_wait_returns ex_notified ex_reachable (or_introl eq_refl)). Defined.

End WaitObject.
