(* ===== verification/LogService.v ===== *)
(** * The log service as the change stream sees it

    The messages of the CdcScan RPC (docs/cdc-change-stream.md, 4.1), the keys
    records are stored under, the one order a group's two streams are merged in,
    and the paging contract of 4.2: each page is a prefix of what the group holds
    after the scan's position, at or below its bound. The scan source is proved
    against this contract; [FakeLogService] discharges it for the repository's
    scripted log service. *)

From S2P Require Import Prelude Bytes Bson.
#[local] Open Scope Z_scope.

(** ** Messages *)

Record SchemaOpMessage := mkSchemaOp {
  op_table_engine : Z;
  op_has_table_op : bool;
  op_table_name_str : bytes;
  op_op_type : Z;
  op_rolled_back : bool;
  op_old_catalog_blob : bytes;
  op_new_catalog_blob : bytes;
}.

Record CdcDataRecord := mkDataRecord {
  dr_commit_ts : Z;
  dr_cc_ng_id : Z;
  dr_txn_number : Z;
  dr_blob : bytes;
}.

Record CdcDdlRecord := mkDdlRecord {
  lr_ddl_ts : Z;
  lr_catalog_ts : Z;
  lr_txn_number : Z;
  lr_schema_op : SchemaOpMessage;
}.

(** The [start] oneof of a scan request. *)
Inductive ScanStart :=
| start_continuation (c : bytes)
| start_from_ts (ts : Z)
| start_unset.

Record CdcScanRequest := mkScanRequest {
  rq_log_group_id : Z;
  rq_start : ScanStart;
  rq_max_bytes : Z;
  rq_wait_ms : Z;
}.

(** [Unknown] is any status this client does not know. *)
Inductive ScanStatus := Success | NotLeader | PositionTruncated | UnknownStatus.

Record CdcScanResponse := mkScanResponse {
  rs_status : ScanStatus;
  rs_redirect : bytes;
  rs_data : list CdcDataRecord;
  rs_ddl : list CdcDdlRecord;
  rs_arrival_complete_ts : Z;
  rs_continuation : bytes;
  rs_has_more : bool;
}.

(** A response with every field at its default. *)
Definition emptyResponse : CdcScanResponse := mkScanResponse Success [] [] [] 0 [] false.

(** ** Keys *)

(** [CdcSourceRecord::dataKey], [CdcFakeLogService::dataKey]: big-endian commit_ts,
    node group and transaction. *)
Definition data_key (commit_ts ng txn : Z) : bytes :=
  appendBigEndian commit_ts 8 ++ appendBigEndian ng 4 ++ appendBigEndian txn 8.

(** [CdcSourceRecord::ddlKey], [CdcFakeLogService::ddlKey]. *)
Definition ddl_key (ddl_ts txn : Z) : bytes :=
  appendBigEndian ddl_ts 8 ++ appendBigEndian txn 8.

Definition dataKey (r : CdcDataRecord) : bytes :=
  data_key (dr_commit_ts r) (dr_cc_ng_id r) (dr_txn_number r).
Definition ddlKey (r : CdcDdlRecord) : bytes := ddl_key (lr_ddl_ts r) (lr_txn_number r).

(** ** The merged order of a group's two streams *)

Inductive LogRecord :=
| LData (r : CdcDataRecord)
| LDdl (r : CdcDdlRecord).

Definition rec_ts (r : LogRecord) : Z :=
  match r with LData d => dr_commit_ts d | LDdl d => lr_ddl_ts d end.

Definition rec_key (r : LogRecord) : bytes :=
  match r with LData d => dataKey d | LDdl d => ddlKey d end.

(** By timestamp; at one timestamp data before DDL, each in key order. *)
Definition rec_lt (a b : LogRecord) : Prop :=
  rec_ts a < rec_ts b \/
  (rec_ts a = rec_ts b /\
   match a, b with
   | LData _, LDdl _ => True
   | LDdl _, LData _ => False
   | _, _ => bytes_lt (rec_key a) (rec_key b)
   end).

(** Field widths, and a positive timestamp below the maximum. *)
Definition wf_record (r : LogRecord) : Prop :=
  1 <= rec_ts r < u64_max /\
  match r with
  | LData d => is_u32 (dr_cc_ng_id d) /\ is_u64 (dr_txn_number d)
  | LDdl d => is_u64 (lr_txn_number d)
  end.

(** Everything a group's log will ever hold of the stream, in merged order. *)
Definition wf_history (h : list LogRecord) : Prop :=
  Forall wf_record h /\ StronglySorted rec_lt h.

Fixpoint data_of (h : list LogRecord) : list CdcDataRecord :=
  match h with
  | [] => []
  | LData d :: h' => d :: data_of h'
  | LDdl _ :: h' => data_of h'
  end.

Fixpoint ddl_of (h : list LogRecord) : list CdcDdlRecord :=
  match h with
  | [] => []
  | LData _ :: h' => ddl_of h'
  | LDdl d :: h' => d :: ddl_of h'
  end.

(** ** The paging contract *)

Section Contract.

(** A group's history, and what of it a continuation leaves to return. *)
Context (history : list LogRecord) (cont_rest : bytes -> list LogRecord).

(** What a scan's start position leaves to return. *)
Definition start_rest (s : ScanStart) : list LogRecord :=
  match s with
  | start_continuation c => cont_rest c
  | start_from_ts ts => List.filter (fun r => ts <=? rec_ts r) history
  | start_unset => history
  end.

(** A successful page: a prefix [page] of what is left, at or below the bound, complete
    through the bound unless [has_more], never empty when cut, and a continuation that
    resumes exactly after it. *)
Record valid_page (req : CdcScanRequest) (rs : CdcScanResponse) (page : list LogRecord) : Prop := {
  vp_data : rs_data rs = data_of page;
  vp_ddl : rs_ddl rs = ddl_of page;
  vp_cont : start_rest (rq_start req) = page ++ cont_rest (rs_continuation rs);
  vp_bound : Forall (fun r => rec_ts r <= rs_arrival_complete_ts rs) page;
  vp_more : rs_has_more rs = true -> page <> [];
  vp_done : rs_has_more rs = false ->
    Forall (fun r => rs_arrival_complete_ts rs < rec_ts r) (cont_rest (rs_continuation rs));
  vp_width : 0 <= rs_arrival_complete_ts rs < u64_max;
}.

End Contract.

(** ** Facts *)

Lemma data_of_app a b : data_of (a ++ b) = data_of a ++ data_of b.
Proof. induction a as [|[] a IH]; cbn; by rewrite ?IH. Qed.

Lemma ddl_of_app a b : ddl_of (a ++ b) = ddl_of a ++ ddl_of b.
Proof. induction a as [|[] a IH]; cbn; by rewrite ?IH. Qed.

Lemma rec_lt_ts a b : rec_lt a b -> rec_ts a <= rec_ts b.
Proof. unfold rec_lt. lia. Qed.

#[global] Instance rec_lt_trans : Transitive rec_lt.
Proof.
  intros a b c [H|[H Hk]] [H'|[H' Hk']]; [left; lia|left; lia|left; lia|right].
  split; [lia|]. destruct a, b, c; first [exact I | contradiction | exact (bytes_lt_trans _ _ _ Hk Hk')].
Qed.

Lemma rec_lt_irrefl a : ~ rec_lt a a.
Proof. intros [?|[_ ?]]; [lia|]. destruct a; by eapply bytes_lt_irrefl. Qed.

Lemma rec_lt_asym a b : rec_lt a b -> ~ rec_lt b a.
Proof. intros H1 H2. eapply rec_lt_irrefl. by etrans. Qed.

Lemma sorted_cons_ts x h : StronglySorted rec_lt (x :: h) -> Forall (fun r => rec_ts x <= rec_ts r) h.
Proof.
  intros H. apply StronglySorted_inv in H as [_ H].
  eapply Forall_impl; [exact H|]. intros; by apply rec_lt_ts.
Qed.

Lemma data_of_In d h : d ∈ data_of h <-> LData d ∈ h.
Proof. induction h as [|[] h IH]; cbn; set_solver. Qed.

Lemma ddl_of_In d h : d ∈ ddl_of h <-> LDdl d ∈ h.
Proof. induction h as [|[] h IH]; cbn; set_solver. Qed.

(** The storage keys spell the merged order. *)
Lemma key_compare_ts a b x y :
  is_u64 a -> is_u64 b ->
  bytes_compare (appendBigEndian a 8 ++ x) (appendBigEndian b 8 ++ y) =
    match Z.compare a b with Eq => bytes_compare x y | c => c end.
Proof.
  intros Ha Hb. rewrite bytes_compare_app_be by (by rewrite !length_appendBigEndian).
  rewrite !readBigEndian_append, !Z.mod_small; [done| |]; change (256 ^ _) with (2 ^ 64); done.
Qed.

Lemma wf_record_ts r : wf_record r -> is_u64 (rec_ts r).
Proof. unfold wf_record, is_u64, u64_max. lia. Qed.

(** Keys at different timestamps compare as the timestamps do. *)
Lemma rec_key_ts a b :
  wf_record a -> wf_record b -> rec_ts a < rec_ts b -> bytes_lt (rec_key a) (rec_key b).
Proof.
  intros Ha Hb Hlt. apply wf_record_ts in Ha, Hb. unfold bytes_lt, bytes_ltb.
  destruct a, b; cbn in *; unfold dataKey, ddlKey, data_key, ddl_key;
    rewrite key_compare_ts by done; by rewrite (proj2 (Z.compare_lt_iff _ _)).
Qed.

Lemma rec_key_le a b :
  wf_record a -> wf_record b -> bytes_lt (rec_key a) (rec_key b) -> rec_ts a <= rec_ts b.
Proof.
  intros Ha Hb Hk. destruct (Z_lt_le_dec (rec_ts b) (rec_ts a)) as [Hlt|]; [|done].
  apply bytes_lt_asym in Hk. pose proof (rec_key_ts b a Hb Ha Hlt) as Hk'. unfold bytes_lt in Hk'. congruence.
Qed.

(** Two records of one stream in key order are in merged order. *)
Lemma rec_key_lt_data a b :
  wf_record (LData a) -> wf_record (LData b) -> bytes_lt (dataKey a) (dataKey b) -> rec_lt (LData a) (LData b).
Proof.
  intros Ha Hb Hk. pose proof (rec_key_le _ _ Ha Hb Hk) as Hle. unfold rec_lt. cbn in *.
  destruct (Z.eq_dec (dr_commit_ts a) (dr_commit_ts b)); [by right|left; lia].
Qed.

Lemma rec_key_lt_ddl a b :
  wf_record (LDdl a) -> wf_record (LDdl b) -> bytes_lt (ddlKey a) (ddlKey b) -> rec_lt (LDdl a) (LDdl b).
Proof.
  intros Ha Hb Hk. pose proof (rec_key_le _ _ Ha Hb Hk) as Hle. unfold rec_lt. cbn in *.
  destruct (Z.eq_dec (lr_ddl_ts a) (lr_ddl_ts b)); [by right|left; lia].
Qed.
