(* ===== verification/DdlDecoder.v ===== *)
(** * Decoding DDL records

    [decodeCdcDdl] (cdc/cdc_ddl_decoder.cpp): the change a schema operation's record reports, read
    from the operation type, the rolled-back mark, the table name and the catalog metadata at the
    head of each schema image; with the [NamespaceString] accessors it uses
    (src/mongo/db/namespace_string.h). *)

From S2P Require Import Prelude Bytes Bson RawBson BsonBuilder LogService.
#[local] Open Scope Z_scope.

(** ** Namespaces *)

Module NamespaceString.

(** [_dotIndex]: the first dot. *)
Definition dotIndex (ns : bytes) : option nat :=
  fst <$> list_find (eq Byte.x2e) ns.

(** The constructor: the name, unless it has a NUL inside. *)
Definition make (ns : bytes) : result bytes :=
  let! _ := uassert InvalidNamespace (bool_decide (Byte.x00 ∉ ns)) in Ok ns.

Definition db (ns : bytes) : bytes :=
  match dotIndex ns with None => ns | Some i => take i ns end.

Definition coll (ns : bytes) : bytes :=
  match dotIndex ns with None => [] | Some i => drop (S i) ns end.

(** The characters a database name cannot have: NUL, slash, backslash, dot, space, quote. *)
Definition forbidden : list byte :=
  [Byte.x00; Byte.x2f; Byte.x5c; Byte.x2e; Byte.x20; Byte.x22].

(** [validDBName] with [DollarInDbNameBehavior] allowing the dollar or not. *)
Definition validDBName (allow_dollar : bool) (db : bytes) : bool :=
  if (blen db =? 0) || (64 <=? blen db) then false
  else forallb (fun c =>
    if bool_decide (c ∈ forbidden) then false
    else if bool_decide (c = Byte.x24) then allow_dollar
    else true) db.

Definition isValid (ns : bytes) : bool :=
  validDBName true (db ns) && negb (bool_decide (coll ns = [])).
End NamespaceString.

(** ** Accessors of elements *)

(** [isABSONObj] and [Obj]: the elements of an object or an array. *)
Definition Obj (e : option bson) : option Document :=
  match e with Some (BObject d) => Some d | Some (BArray d) => Some d | _ => None end.

Definition isABSONObj (e : option bson) : bool :=
  match Obj e with Some _ => true | None => false end.

(** [BSONElement::str]: empty for what is not a string. *)
Definition elem_str (e : option bson) : bytes :=
  match e with Some (BString s) => s | _ => [] end.

(** ** The decoder *)

(** [CdcDdlOpType], by its values. *)
Definition kCreateTable : Z := 5.
Definition kDropTable : Z := 6.
Definition kAddIndex : Z := 8.
Definition kDropIndex : Z := 9.

Record CdcDdlChange := mkDdlChange {
  dc_operationType : bytes;
  dc_ns : bytes;
  dc_operationDescription : Document;
  dc_dropsCollection : bool;
}.

(** The specs of a catalog entry's indexes, in the entry's order. *)
Definition indexSpecs (metadata : Document) : list Document :=
  match Obj (getField metadata (lit "md")) with
  | None => []
  | Some md =>
      match getField md (lit "indexes") with
      | Some (BArray items) =>
          omap (fun index : bytes * bson =>
            match Obj (Some index.2) with
            | Some d => Obj (getField d (lit "spec"))
            | None => None
            end) items
      | _ => []
      end
  end.

Definition spec_name (spec : Document) : bytes := elem_str (getField spec (lit "name")).

(** The specs one entry has and another lacks, matched by name. *)
Definition indexesOnlyIn (from without : Document) : list Document :=
  let names : gset bytes := list_to_set (map spec_name (indexSpecs without)) in
  filter (fun spec => spec_name spec ∉ names) (indexSpecs from).

(** An array's items, numbered from zero. *)
Definition array_of (items : list bson) : list (bytes * bson) :=
  imap (fun i x => (ItoA i, x)) items.

Definition createdIndexes (specs : list Document) : Document :=
  [(lit "indexes", BArray (array_of (map (fun spec => BObject (removeField spec (lit "ns"))) specs)))].

(** A dropped index's version, key pattern and name, those it has. *)
Definition dropped_index (spec : Document) : Document :=
  omap (fun field => (fun e => (field, e)) <$> getField spec field) [lit "v"; lit "key"; lit "name"].

Definition droppedIndexes (specs : list Document) : Document :=
  [(lit "indexes", BArray (array_of (map (fun spec => BObject (dropped_index spec)) specs)))].

(** A collection's options as listCollections reports them. *)
Definition user_options (stored : option bson) : Document :=
  match Obj stored with
  | Some d => filter (fun o => o.1 <> lit "uuid" /\ o.1 <> lit "catalogVersion") d
  | None => []
  end.

Section Decoder.

(** [BSONDepth::getMaxAllowableDepth()], a server parameter, and [txlog::TableEngine::EloqDoc]. *)
Context (maxDepth EloqDoc : Z).

(** The catalog metadata at the head of a schema image. Bytes that validated but cannot be read do
    not exist below 2 GiB ([catalogMetadata_no_invariant]). *)
Definition catalogMetadata (image : bytes) : result Document :=
  let! _ := uassert ChangeStreamFatalError (8 <=? blen image) in
  let length := readNativeBytes (take 8 image) in
  let! _ := uassert ChangeStreamFatalError (length <=? blen image - 8) in
  let data := drop 8 image in
  let bounded := take (Z.to_nat length) data in
  let! _ := uassert ChangeStreamFatalError (validateBSON maxDepth bounded) in
  let! metadata := BSONObj_init bounded in
  let! _ := uassert ChangeStreamFatalError (isABSONObj (getField metadata (lit "md"))) in
  Ok metadata.

Definition md_options (metadata : Document) : option bson :=
  match Obj (getField metadata (lit "md")) with
  | Some md => getField md (lit "options")
  | None => None
  end.

Definition decodeCdcDdl (op : SchemaOpMessage) : result (option CdcDdlChange) :=
  if negb (op_table_engine op =? EloqDoc) || negb (op_has_table_op op) then Ok None else
  let! ns := NamespaceString.make (op_table_name_str op) in
  if negb (NamespaceString.isValid ns) then Ok None else
  let change type description drops :=
    Ok (Some (mkDdlChange type (op_table_name_str op) description drops)) in
  let type := op_op_type op in
  if type =? kCreateTable then
    if op_rolled_back op then Ok None else
    let! metadata := catalogMetadata (op_new_catalog_blob op) in
    change (lit "create") (user_options (md_options metadata)) false
  else if type =? kDropTable then
    if op_rolled_back op then Ok None else change (lit "drop") [] true
  else if type =? kAddIndex then
    let! before := catalogMetadata (op_old_catalog_blob op) in
    let! after := catalogMetadata (op_new_catalog_blob op) in
    let added := indexesOnlyIn after before in
    if op_rolled_back op then change (lit "dropIndexes") (droppedIndexes added) false
    else change (lit "createIndexes") (createdIndexes added) false
  else if type =? kDropIndex then
    if op_rolled_back op then Ok None else
    let! before := catalogMetadata (op_old_catalog_blob op) in
    let! after := catalogMetadata (op_new_catalog_blob op) in
    change (lit "dropIndexes") (droppedIndexes (indexesOnlyIn before after)) false
  else Ok None.
End Decoder.

(** * Facts *)

(** A schema image as [EloqDS::SerializeSchemaImage] lays it out: the length of the catalog
    metadata, the metadata, and the storage engine's information. *)
Definition schema_image (metadata : Document) (rest : bytes) : bytes :=
  native (objsize metadata) 8 ++ obj metadata ++ rest.

(** Catalog entries an image can hold. *)
Record catalog_entry (maxDepth : Z) (metadata : Document) : Prop := {
  ce_wf : wf_doc metadata;
  ce_depth : doc_depth metadata <= maxDepth;
  ce_size : objsize metadata <= BSONObjMaxInternalSize;
  ce_md : isABSONObj (getField metadata (lit "md")) = true;
}.

Lemma catalogMetadata_image maxDepth md rest :
  catalog_entry maxDepth md -> catalogMetadata maxDepth (schema_image md rest) = Ok md.
Proof.
  intros [Hw Hd Hs Hm]. unfold catalogMetadata, schema_image.
  pose proof (objsize_eq md) as Hq. pose proof (blen_nonneg (doc_bytes md)). pose proof (blen_nonneg rest).
  unfold BSONObjMaxInternalSize, BSONObjMaxUserSize in Hs.
  rewrite !blen_app, blen_native. fold (objsize md).
  rewrite take_app_length', drop_app_length' by (by rewrite length_native).
  rewrite readNative_native, Z.mod_small by (change (256 ^ Z.of_nat 8) with (2 ^ 64); lia).
  rewrite !(proj2 (Z.leb_le _ _)) by lia. cbn [uassert rbind].
  assert (Z.to_nat (objsize md) = length (obj md)) as El by (unfold objsize, blen; lia).
  rewrite El, take_app_length.
  destruct (built_reads maxDepth md [] Hw Hd ltac:(rewrite app_nil_r; fold (objsize md); lia)) as [Hv Hr].
  rewrite app_nil_r in Hv, Hr. rewrite Hv. unfold BSONObj_init. rewrite Hr. cbn [uassert rbind].
  rewrite obj_eq, take_app_length' by (by rewrite length_native).
  rewrite readNative_native, signed32_native by lia.
  unfold BSONObjMaxInternalSize, BSONObjMaxUserSize.
  rewrite (proj2 (Z.ltb_lt _ _)), (proj2 (Z.leb_le _ _)) by lia.
  cbn [andb uassert rbind]. rewrite Hm. done.
Qed.

(** ** Errors *)

(** What decoding can fail with. *)
Definition decode_error (e : ErrorCode) : Prop :=
  e = ChangeStreamFatalError \/ e = InvalidNamespace \/ e = BSONObjInvalidSize.

Lemma catalogMetadata_no_invariant maxDepth image e :
  blen image < 2 ^ 31 -> catalogMetadata maxDepth image = Err e -> decode_error e.
Proof.
  intros Hl. unfold catalogMetadata, decode_error.
  destruct (8 <=? blen image); cbn [uassert rbind]; [|intros [= <-]; auto].
  destruct (_ <=? blen image - 8); cbn [uassert rbind]; [|intros [= <-]; auto].
  destruct (validateBSON _ _) eqn:Ev; cbn [uassert rbind]; [|intros [= <-]; auto].
  unfold BSONObj_init. destruct (_ && _); cbn [uassert rbind]; [|intros [= <-]; auto].
  destruct (validated_readable maxDepth (take (Z.to_nat (readNativeBytes (take 8 image))) (drop 8 image)))
    as [doc ->]; [|done|].
  - unfold blen in *. rewrite length_take, length_drop. lia.
  - cbn [rbind]. destruct (isABSONObj _); cbn [uassert rbind]; [done|intros [= <-]; auto].
Qed.

Lemma decode_errors maxDepth EloqDoc op e :
  blen (op_old_catalog_blob op) < 2 ^ 31 -> blen (op_new_catalog_blob op) < 2 ^ 31 ->
  decodeCdcDdl maxDepth EloqDoc op = Err e -> decode_error e.
Proof.
  intros Ho Hn. unfold decodeCdcDdl. destruct (_ || _); [done|].
  unfold NamespaceString.make. destruct (bool_decide _); cbn [uassert rbind];
    [|intros [= <-]; unfold decode_error; auto].
  destruct (negb _); [done|].
  destruct (catalogMetadata maxDepth (op_old_catalog_blob op)) eqn:Eo;
    destruct (catalogMetadata maxDepth (op_new_catalog_blob op)) eqn:En; cbn [rbind];
    repeat match goal with |- context [if ?b then _ else _] => destruct b end; try done;
    intros [= <-]; eauto using catalogMetadata_no_invariant.
Qed.


(** ** What an index operation reports *)

(** A record of an operation on a collection of the engine. *)
Record collection_op (EloqDoc : Z) (op : SchemaOpMessage) : Prop := {
  co_engine : op_table_engine op = EloqDoc;
  co_table : op_has_table_op op = true;
  co_nul : cstring (op_table_name_str op);
  co_valid : NamespaceString.isValid (op_table_name_str op) = true;
}.

(** Its images hold the catalog entries before and after. *)
Record images_hold (maxDepth : Z) (op : SchemaOpMessage) (before after : Document) : Prop := {
  ih_old : exists r, op_old_catalog_blob op = schema_image before r;
  ih_new : exists r, op_new_catalog_blob op = schema_image after r;
  ih_before : catalog_entry maxDepth before;
  ih_after : catalog_entry maxDepth after;
}.

Lemma decode_index_op maxDepth EloqDoc op before after :
  collection_op EloqDoc op -> images_hold maxDepth op before after ->
  op_op_type op = kAddIndex \/ op_op_type op = kDropIndex ->
  decodeCdcDdl maxDepth EloqDoc op =
    if op_op_type op =? kAddIndex then
      if op_rolled_back op
      then Ok (Some (mkDdlChange (lit "dropIndexes") (op_table_name_str op)
             (droppedIndexes (indexesOnlyIn after before)) false))
      else Ok (Some (mkDdlChange (lit "createIndexes") (op_table_name_str op)
             (createdIndexes (indexesOnlyIn after before)) false))
    else if op_rolled_back op then Ok None
    else Ok (Some (mkDdlChange (lit "dropIndexes") (op_table_name_str op)
           (droppedIndexes (indexesOnlyIn before after)) false)).
Proof.
  intros [He Ht Hn Hv] [[r1 Ho] [r2 Hw] Hb Ha] Hop. unfold decodeCdcDdl, NamespaceString.make.
  rewrite He, Z.eqb_refl, Ht. cbn [negb orb]. rewrite bool_decide_eq_true_2 by done. cbn [uassert rbind].
  rewrite Hv. cbn [negb]. rewrite Ho, Hw, !catalogMetadata_image by done. cbn [rbind].
  destruct Hop as [-> | ->]; done.
Qed.

(** The names of the indexes an event's description lists. *)
Definition reported_names (description : Document) : gset bytes :=
  match getField description (lit "indexes") with
  | Some (BArray items) => list_to_set (map spec_name (omap (fun e : bytes * bson => Obj (Some e.2)) items))
  | _ => ∅
  end.

Definition index_names (metadata : Document) : gset bytes := list_to_set (map spec_name (indexSpecs metadata)).

Lemma numbered_items (f : Document -> Document) specs k :
  omap (fun e : bytes * bson => Obj (Some e.2)) (imap (fun i x => (ItoA (k + i), x)) (map (fun s => BObject (f s)) specs))
    = map f specs.
Proof.
  revert k. induction specs as [|s specs IH]; intros k; cbn; [done|]. f_equal.
  rewrite <- (IH (S k)). f_equal. apply imap_ext. intros i x _. cbn. do 2 f_equal. lia.
Qed.

Lemma items_of_array (f : Document -> Document) specs :
  omap (fun e : bytes * bson => Obj (Some e.2)) (array_of (map (fun s => BObject (f s)) specs)) = map f specs.
Proof. exact (numbered_items f specs 0). Qed.

Lemma spec_name_removeField spec : spec_name (removeField spec (lit "ns")) = spec_name spec.
Proof.
  unfold spec_name, removeField. f_equal. induction spec as [|[n v] spec IH]; [done|].
  rewrite filter_cons. cbn [fst]. destruct (decide (n <> lit "ns")) as [H|H].
  - cbn [getField]. by destruct (bytes_eqb n (lit "name")).
  - apply dec_stable in H as ->. exact IH.
Qed.

Lemma spec_name_dropped spec : spec_name (dropped_index spec) = spec_name spec.
Proof.
  unfold spec_name, dropped_index. cbn [omap list_omap].
  destruct (getField spec (lit "v")), (getField spec (lit "key")), (getField spec (lit "name")); reflexivity.
Qed.

Lemma reported_created specs : reported_names (createdIndexes specs) = list_to_set (map spec_name specs).
Proof.
  unfold reported_names, createdIndexes. cbn [getField]. rewrite bytes_eqb_refl.
  rewrite (items_of_array (fun s => removeField s (lit "ns"))), map_map.
  f_equal. apply map_ext. apply spec_name_removeField.
Qed.

Lemma reported_dropped specs : reported_names (droppedIndexes specs) = list_to_set (map spec_name specs).
Proof.
  unfold reported_names, droppedIndexes. cbn [getField]. rewrite bytes_eqb_refl.
  rewrite (items_of_array dropped_index), map_map. f_equal. apply map_ext. apply spec_name_dropped.
Qed.

Lemma names_only_in from without :
  list_to_set (map spec_name (indexesOnlyIn from without)) = index_names from ∖ index_names without.
Proof.
  apply set_eq. intros x. rewrite elem_of_difference. unfold index_names, indexesOnlyIn.
  rewrite !elem_of_list_to_set, !list_elem_of_fmap. split.
  - intros (s & -> & Hs). apply list_elem_of_filter in Hs as [Hn Hs]. rewrite elem_of_list_to_set in Hn.
    split; [by exists s|]. intros (s' & E & Hs'). apply Hn. rewrite E. by apply list_elem_of_fmap_2.
  - intros ((s & -> & Hs) & Hn). exists s. split; [done|]. apply list_elem_of_filter. split; [|done].
    rewrite elem_of_list_to_set, list_elem_of_fmap. exact Hn.
Qed.

(** C29. The index events a stream reports track the catalog: from the names a collection's indexes
    had before, adding those of a createIndexes event or removing those of a dropIndexes event gives
    the names after, for an add (that drops none) and for a drop (that adds none); and the second
    record of an add whose build failed reports exactly the indexes its first record created, none
    of which existed before. *)
Theorem index_events_track_catalog maxDepth EloqDoc op before after :
  collection_op EloqDoc op -> images_hold maxDepth op before after ->
  (op_op_type op = kAddIndex -> index_names before ⊆ index_names after ->
   exists c, decodeCdcDdl maxDepth EloqDoc op = Ok (Some c) /\
     let names := reported_names (dc_operationDescription c) in
     dc_operationType c = (if op_rolled_back op then lit "dropIndexes" else lit "createIndexes") /\
     index_names after = index_names before ∪ names /\ index_names before = index_names after ∖ names) /\
  (op_op_type op = kDropIndex -> op_rolled_back op = false -> index_names after ⊆ index_names before ->
   exists c, decodeCdcDdl maxDepth EloqDoc op = Ok (Some c) /\
     dc_operationType c = lit "dropIndexes" /\
     index_names after = index_names before ∖ reported_names (dc_operationDescription c)).
Proof.
  intros Hop Him. split.
  - intros Ht Hsub. rewrite (decode_index_op _ _ _ before after) by auto. rewrite Ht. cbn [Z.eqb kAddIndex Pos.eqb].
    destruct (op_rolled_back op); eexists; (split; [reflexivity|]); cbn [dc_operationDescription dc_operationType];
      rewrite ?reported_created, ?reported_dropped, names_only_in; (split; [done|]);
      split; apply set_eq; intros x; pose proof (Hsub x); destruct (decide (x ∈ index_names before)); set_solver.
  - intros Ht Hr Hsub. rewrite (decode_index_op _ _ _ before after) by auto. rewrite Ht, Hr.
    eexists. split; [reflexivity|]. cbn [dc_operationDescription dc_operationType]. split; [done|].
    rewrite reported_dropped, names_only_in. apply set_eq. intros x. pose proof (Hsub x).
    destruct (decide (x ∈ index_names after)); set_solver.
Qed.

(** A create event describes the collection by the user's options: every option of the stored
    catalog entry in its order, but for the UUID and the catalog version; a rolled-back create
    reports nothing. *)
Theorem create_reports_user_options maxDepth EloqDoc op metadata md options r :
  collection_op EloqDoc op -> op_op_type op = kCreateTable -> catalog_entry maxDepth metadata ->
  op_new_catalog_blob op = schema_image metadata r ->
  getField metadata (lit "md") = Some (BObject md) -> getField md (lit "options") = Some (BObject options) ->
  decodeCdcDdl maxDepth EloqDoc op =
    if op_rolled_back op then Ok None
    else Ok (Some (mkDdlChange (lit "create") (op_table_name_str op)
      (removeField (removeField options (lit "uuid")) (lit "catalogVersion")) false)).
Proof.
  intros [He Ht Hn Hv] Hop Hc Hi Hm Ho. unfold decodeCdcDdl, NamespaceString.make.
  rewrite He, Z.eqb_refl, Ht. cbn [negb orb]. rewrite bool_decide_eq_true_2 by done. cbn [uassert rbind].
  rewrite Hv, Hop, Hi. cbn [negb Z.eqb kCreateTable Pos.eqb]. destruct (op_rolled_back op); [done|].
  rewrite catalogMetadata_image by done. cbn [rbind]. unfold md_options. rewrite Hm. cbn [Obj].
  rewrite Ho. unfold user_options, removeField. cbn [Obj]. do 3 f_equal.
  rewrite list_filter_filter. apply list_filter_iff. intros [n v]. cbn. tauto.
Qed.

(** ** A collection and its indexes *)

Definition ex_spec (name : string) (field : string) : bytes * bson :=
  (lit "0", BObject [(lit "spec", BObject
    [(lit "v", BInt 2); (lit "key", BObject [(lit field, BInt 1)]); (lit "name", BString (lit name));
     (lit "ns", BString (lit "db.c"))])]).

Definition ex_options : Document :=
  [(lit "uuid", BBinData 4 (repeat Byte.x07 16)); (lit "capped", BBool true);
   (lit "catalogVersion", BInt 1); (lit "size", BLong 4096)].

Definition ex_entry (indexes : list (bytes * bson)) : Document :=
  [(lit "md", BObject [(lit "ns", BString (lit "db.c")); (lit "options", BObject ex_options);
     (lit "indexes", BArray indexes)])].

Definition ex_before : Document := ex_entry [ex_spec "_id_" "_id"].
Definition ex_after : Document := ex_entry [ex_spec "_id_" "_id"; ex_spec "a_1" "a"; ex_spec "b_1" "b"].

Definition ex_op (type : Z) (rolled_back : bool) (old new : bytes) : SchemaOpMessage :=
  mkSchemaOp 3 true (lit "db.c") type rolled_back old new.

Lemma ex_entry_ok indexes :
  wf_doc indexes -> doc_depth (ex_entry indexes) <= 200 ->
  objsize (ex_entry indexes) <= BSONObjMaxInternalSize -> catalog_entry 200 (ex_entry indexes).
Proof. intros [Hn Hv] Hd Hs. split; [|done..]. unfold ex_entry, ex_options. wf_concrete; done. Qed.

Lemma ex_before_ok : catalog_entry 200 ex_before.
Proof. apply ex_entry_ok; [unfold ex_spec; wf_concrete|vm_compute; discriminate..]. Qed.

Lemma ex_after_ok : catalog_entry 200 ex_after.
Proof. apply ex_entry_ok; [unfold ex_spec; wf_concrete|vm_compute; discriminate..]. Qed.

Lemma ex_op_ok type rolled_back old new : collection_op 3 (ex_op type rolled_back old new).
Proof. split; [done..| |done]. apply (bool_decide_unpack _). vm_compute. exact I. Qed.


Lemma index_events_track_catalog_witness :
  exists c, decodeCdcDdl 200 3 (ex_op kAddIndex true (schema_image ex_before []) (schema_image ex_after []))
    = Ok (Some c) /\
  let names := reported_names (dc_operationDescription c) in
  dc_operationType c = lit "dropIndexes" /\
  index_names ex_after = index_names ex_before ∪ names /\ index_names ex_before = index_names ex_after ∖ names.
Proof.
  refine (proj1 (index_events_track_catalog 200 3 (ex_op kAddIndex true _ _) ex_before ex_after _ _) _ _).
  - apply ex_op_ok.
  - split; [by eexists|by eexists|apply ex_before_ok|apply ex_after_ok].
  - done.
  - apply (bool_decide_unpack _). vm_compute. exact I.
Defined.

Lemma create_reports_user_options_witness :
  decodeCdcDdl 200 3 (ex_op kCreateTable false [] (schema_image ex_before []))
    = Ok (Some (mkDdlChange (lit "create") (lit "db.c") [(lit "capped", BBool true); (lit "size", BLong 4096)] false)).
Proof.
  apply (create_reports_user_options 200 3 (ex_op kCreateTable false [] (schema_image ex_before [])) ex_before
    [(lit "ns", BString (lit "db.c")); (lit "options", BObject ex_options);
     (lit "indexes", BArray [ex_spec "_id_" "_id"])] ex_options []);
    [apply ex_op_ok|done|apply ex_before_ok|done..].
Defined.
