(* ===== verification/ScanClient.v ===== *)
(** * One cursor's CdcScan calls (cdc/cdc_scan_client.{h,cpp})

    At most one call in flight per log group, each call's state shared with its callback,
    and the retry policy for a leader that cannot serve. The world the client runs in is an
    [Env]: what each reading of the clock returns, whether and how a call has been answered
    by a given moment, which node an address names, a message's serialized size and brpc's
    error code for a missing method. Moments are numbered by the clock readings made
    so far ([c_tick]); what the client asks of its transport is recorded in
    [c_trace], latest first. *)

From S2P Require Import Prelude Bytes Bson LogService.
#[local] Open Scope Z_scope.

(** ** The world *)

(** What a call's callback finds: the controller's error code if the call failed, the
    response, the node the call went to and the time the callback ran. *)
Record Answer := mkAnswer {
  an_failed : option Z;
  an_response : CdcScanResponse;
  an_targetNode : option Z;
  an_completedAt : Z;
}.

Record Env := mkEnv {
  now_at : nat -> Z;
  respond : nat -> Z -> CdcScanRequest -> option Answer;
  nodeByAddress : nat -> Z -> bytes -> option Z;
  ByteSizeLong : CdcScanResponse -> Z;
  ENOMETHOD : Z;
}.

(** Calls made on the transport. *)
Inductive Action :=
| act_scan (logGroupId : Z) (request : CdcScanRequest) (rpcTimeout : Z)
| act_followNode (logGroupId nodeId : Z)
| act_requestLeaderRefresh (logGroupId : Z)
| act_cancel (logGroupId : Z).

(** ** State *)

Record ClientOptions := mkClientOptions {
  retryBackoffInitial : Z;
  retryBackoffMax : Z;
}.

Record Call := mkCall {
  call_completed : bool;
  call_cancelled : bool;
  call_failed : option Z;
  call_request : CdcScanRequest;
  call_response : CdcScanResponse;
  call_targetNode : option Z;
  call_issuedAt : Z;
  call_completedAt : Z;
}.

Record GroupState := mkGroupState {
  gs_call : option Call;
  gs_readyAt : Z;
  gs_backoff : Z;
  gs_lastFollowAt : Z;
  gs_scansIssued : Z;
}.

Inductive CompletionStatus := kOk | kRetry | kPositionTruncated | kUnsupported.

#[global] Instance CompletionStatus_eq_dec : EqDecision CompletionStatus.
Proof. solve_decision. Defined.

Record Completion := mkCompletion {
  cp_status : CompletionStatus;
  cp_response : option CdcScanResponse;
  cp_request : CdcScanRequest;
  cp_issuedAt : Z;
  cp_completedAt : Z;
}.

Record CdcScanClient := mkClient {
  c_options : ClientOptions;
  c_groups : gmap Z GroupState;
  c_tick : nat;
  c_trace : list Action;
}.

(** ** Field updates *)

Definition set_call (x : option Call) (s : GroupState) : GroupState :=
  mkGroupState x (gs_readyAt s) (gs_backoff s) (gs_lastFollowAt s) (gs_scansIssued s).
Definition set_readyAt (x : Z) (s : GroupState) : GroupState :=
  mkGroupState (gs_call s) x (gs_backoff s) (gs_lastFollowAt s) (gs_scansIssued s).
Definition set_backoff (x : Z) (s : GroupState) : GroupState :=
  mkGroupState (gs_call s) (gs_readyAt s) x (gs_lastFollowAt s) (gs_scansIssued s).
Definition set_lastFollowAt (x : Z) (s : GroupState) : GroupState :=
  mkGroupState (gs_call s) (gs_readyAt s) (gs_backoff s) x (gs_scansIssued s).
Definition set_scansIssued (x : Z) (s : GroupState) : GroupState :=
  mkGroupState (gs_call s) (gs_readyAt s) (gs_backoff s) (gs_lastFollowAt s) x.

Definition put_group (g : Z) (s : GroupState) (c : CdcScanClient) : CdcScanClient :=
  mkClient (c_options c) (<[g := s]> (c_groups c)) (c_tick c) (c_trace c).
Definition put_action (a : Action) (c : CdcScanClient) : CdcScanClient :=
  mkClient (c_options c) (c_groups c) (c_tick c) (a :: c_trace c).

(** ** Operations *)

(** One reading of [Date_t::now()]. *)
Definition now (env : Env) (c : CdcScanClient) : Z * CdcScanClient :=
  (now_at env (c_tick c), mkClient (c_options c) (c_groups c) (S (c_tick c)) (c_trace c)).

(** The closure of a call: marks it complete; the flag says whether to notify the cursor. *)
Definition ScanDone_Run (a : Answer) (call : Call) : Call * bool :=
  (mkCall true (call_cancelled call) (an_failed a) (call_request call) (an_response a)
     (an_targetNode a) (call_issuedAt call) (an_completedAt a),
   negb (call_cancelled call)).

Definition newGroupState (o : ClientOptions) : GroupState :=
  mkGroupState None 0 (retryBackoffInitial o) 0 0.

Definition newClient (ids : list Z) (o : ClientOptions) : CdcScanClient :=
  mkClient o (list_to_map (map (fun id => (id, newGroupState o)) ids)) 0 [].

(** The destructor: every call still held is cancelled, and cancelled on the wire unless its
    callback has run. *)
Definition cancel_call (call : Call) : Call :=
  mkCall (call_completed call) true (call_failed call) (call_request call)
    (call_response call) (call_targetNode call) (call_issuedAt call) (call_completedAt call).

Definition destroyClient (c : CdcScanClient) : CdcScanClient :=
  mkClient (c_options c)
    ((fun s => set_call (cancel_call <$> gs_call s) s) <$> c_groups c)
    (c_tick c)
    (fold_right (fun p acc =>
       match gs_call p.2 with
       | Some call => if call_completed call then acc else act_cancel p.1 :: acc
       | None => acc
       end) (c_trace c) (map_to_list (c_groups c))).

Definition client_group (c : CdcScanClient) (g : Z) : result GroupState :=
  match c_groups c !! g with
  | Some s => Ok s
  | None => Err InvariantFailure
  end.

Definition is_some {A} (o : option A) : bool := match o with Some _ => true | None => false end.

Definition inFlight (c : CdcScanClient) (g : Z) : result bool :=
  let! s := client_group c g in Ok (is_some (gs_call s)).

Definition readyAt (c : CdcScanClient) (g : Z) : result Z :=
  let! s := client_group c g in Ok (gs_readyAt s).

Definition deferUntil (c : CdcScanClient) (g when : Z) : result CdcScanClient :=
  let! s := client_group c g in
  Ok (put_group g (set_readyAt (Z.max (gs_readyAt s) when) s) c).

Definition issue (env : Env) (c : CdcScanClient) (g : Z) (request : CdcScanRequest)
    (rpcTimeout : Z) : result CdcScanClient :=
  let! s := client_group c g in
  let! _ := invariant (negb (is_some (gs_call s))) in
  let '(t, c) := now env c in
  let call := mkCall false false None request emptyResponse None t 0 in
  let s := set_call (Some call) s in
  let s := set_scansIssued (wrap64 (gs_scansIssued s + 1)) s in
  Ok (put_action (act_scan g request rpcTimeout) (put_group g s c)).

Definition backOff (env : Env) (s : GroupState) (c : CdcScanClient) : GroupState * CdcScanClient :=
  let '(t, c) := now env c in
  let s := set_readyAt (Z.max (gs_readyAt s) (t + gs_backoff s)) s in
  (set_backoff (Z.min (gs_backoff s * 2) (retryBackoffMax (c_options c))) s, c).

(** The retry policy of [takeCompleted] on a NotLeader answer. *)
Definition onNotLeader (env : Env) (g : Z) (call : Call) (s : GroupState) (c : CdcScanClient)
    : GroupState * CdcScanClient :=
  let redirect := rs_redirect (call_response call) in
  let node := if bool_decide (redirect = []) then None
              else nodeByAddress env (c_tick c) g redirect in
  match node with
  | Some n =>
      if negb (bool_decide (Some n = call_targetNode call)) then
        let c := put_action (act_followNode g n) c in
        let '(t, c) := now env c in
        let '(s, c) := if t - gs_lastFollowAt s <? gs_backoff s
                       then backOff env s c else (set_readyAt t s, c) in
        (set_lastFollowAt t s, c)
      else backOff env s c
  | None =>
      let c := if negb (bool_decide (redirect = [])) then put_action (act_requestLeaderRefresh g) c
               else c in
      backOff env s c
  end.

Definition takeCompleted (env : Env) (c : CdcScanClient) (g : Z)
    : result (option Completion * CdcScanClient) :=
  let! s := client_group c g in
  match gs_call s with
  | None => Ok (None, c)
  | Some call =>
      if negb (call_completed call) then Ok (None, c) else
      let s := set_call None s in
      let completion st rs := mkCompletion st rs (call_request call)
                                (call_issuedAt call) (call_completedAt call) in
      match call_failed call with
      | Some code =>
          if code =? ENOMETHOD env then Ok (Some (completion kUnsupported None), put_group g s c)
          else
            let c := put_action (act_requestLeaderRefresh g) c in
            let '(s, c) := backOff env s c in
            Ok (Some (completion kRetry None), put_group g s c)
      | None =>
          match rs_status (call_response call) with
          | Success =>
              let s := set_backoff (retryBackoffInitial (c_options c)) s in
              let s := set_lastFollowAt 0 s in
              Ok (Some (completion kOk (Some (call_response call))), put_group g s c)
          | NotLeader =>
              let '(s, c) := onNotLeader env g call s c in
              Ok (Some (completion kRetry None), put_group g s c)
          | PositionTruncated => Ok (Some (completion kPositionTruncated None), put_group g s c)
          | UnknownStatus =>
              let c := put_action (act_requestLeaderRefresh g) c in
              let '(s, c) := backOff env s c in
              Ok (Some (completion kRetry None), put_group g s c)
          end
      end
  end.

Definition scansIssued (c : CdcScanClient) (g : Z) : result Z :=
  let! s := client_group c g in Ok (gs_scansIssued s).

Definition inFlightCount (c : CdcScanClient) : Z :=
  Z.of_nat (length (List.filter (fun p => is_some (gs_call p.2)) (map_to_list (c_groups c)))).

(** The world's step: by now the callback of the group's call may have run. *)
Definition deliver (env : Env) (c : CdcScanClient) (g : Z) : CdcScanClient :=
  match c_groups c !! g with
  | Some s =>
      match gs_call s with
      | Some call =>
          if call_completed call then c else
          match respond env (c_tick c) g (call_request call) with
          | Some a => put_group g (set_call (Some (ScanDone_Run a call).1) s) c
          | None => c
          end
      | None => c
      end
  | None => c
  end.

(** ** What the scan source relies on *)

(** The request of the group's call, if it has one. *)
Definition pending (c : CdcScanClient) (g : Z) : option CdcScanRequest :=
  s ← c_groups c !! g; call ← gs_call s; Some (call_request call).

(** The response is one the group gave to the request. *)
Definition answered (env : Env) (g : Z) (req : CdcScanRequest) (rs : CdcScanResponse) : Prop :=
  exists k a, respond env k g req = Some a /\ an_failed a = None /\ an_response a = rs.

(** Every group of [ids] has its slot, and a completed call holds what the world answered. *)
Record client_ok (env : Env) (ids : list Z) (c : CdcScanClient) : Prop := {
  co_groups : forall g, g ∈ ids -> is_Some (c_groups c !! g);
  co_calls : forall g s call, c_groups c !! g = Some s -> gs_call s = Some call ->
    call_completed call = true ->
    exists k a, respond env k g (call_request call) = Some a /\
      an_failed a = call_failed call /\ an_response a = call_response call;
}.

(** An operation that concerns one group only. *)
Definition frame (g : Z) (c c' : CdcScanClient) : Prop :=
  (forall h, h <> g -> c_groups c' !! h = c_groups c !! h) /\
  c_options c' = c_options c /\ (c_tick c <= c_tick c')%nat.

Lemma frame_refl g c : frame g c c.
Proof. by split_and!. Qed.

Lemma frame_trans g c1 c2 c3 : frame g c1 c2 -> frame g c2 c3 -> frame g c1 c3.
Proof.
  intros (A1 & A2 & A3) (B1 & B2 & B3). split_and!; [|congruence|lia].
  intros h Hne. by rewrite B1, A1.
Qed.

Lemma frame_pending g c c' h : frame g c c' -> h <> g -> pending c' h = pending c h.
Proof. intros [H _] Hne. unfold pending. by rewrite H. Qed.

Lemma client_ok_put env ids c c' g s :
  client_ok env ids c -> frame g c c' -> c_groups c' !! g = Some s ->
  (forall call, gs_call s = Some call -> call_completed call = true ->
    exists k a, respond env k g (call_request call) = Some a /\
      an_failed a = call_failed call /\ an_response a = call_response call) ->
  client_ok env ids c'.
Proof.
  intros [Hg Hc] [Hf _] Hs Hcall. split.
  - intros h Hh. destruct (decide (h = g)) as [->|Hne]; [by rewrite Hs|]. rewrite Hf; auto.
  - intros h s' call Hl. destruct (decide (h = g)) as [->|Hne].
    + rewrite Hs in Hl. injection Hl as <-. apply Hcall.
    + rewrite Hf in Hl by done. by apply Hc.
Qed.

(** [c'] is [c] with the group's state replaced by [s], some ticks and actions later. *)
Definition stored (g : Z) (s : GroupState) (c c' : CdcScanClient) : Prop :=
  frame g c c' /\ c_groups c' !! g = Some s.

Lemma stored_put g s c c1 : frame g c c1 -> stored g s c (put_group g s c1).
Proof.
  intros (H & Ho & Ht). split; [split_and!; [|done|done]|]; cbn.
  - intros h Hne. rewrite lookup_insert_ne by done. by apply H.
  - apply lookup_insert_eq.
Qed.

Lemma frame_action g a c c' : frame g c c' -> frame g c (put_action a c').
Proof. done. Qed.

Lemma frame_now env g c c' : frame g c c' -> frame g c (now env c').2.
Proof. intros (H & Ho & Ht). split_and!; [done|done|cbn; lia]. Qed.

#[export] Hint Resolve frame_refl stored_put frame_action frame_now : cdc.

Lemma frame_backOff env g s c c1 : frame g c c1 -> frame g c (backOff env s c1).2.
Proof. intros H. apply (frame_now env) in H. exact H. Qed.

Lemma backOff_call env s c : gs_call (backOff env s c).1 = gs_call s.
Proof. done. Qed.

Lemma onNotLeader_frame env g call s c0 c :
  frame g c0 c ->
  frame g c0 (onNotLeader env g call s c).2 /\
  gs_call (onNotLeader env g call s c).1 = gs_call s.
Proof.
  intros (H & Ho & Ht). unfold onNotLeader, backOff, now.
  repeat case_match; simplify_eq/=; (split; [split_and!; [done|done|cbn; lia]|done]).
Qed.

(** Taking a call: the slot is emptied exactly when a completion is returned, and a page is
    one the group gave to the call's request. *)
Lemma takeCompleted_spec env ids c g :
  client_ok env ids c -> g ∈ ids ->
  exists o c', takeCompleted env c g = Ok (o, c') /\ client_ok env ids c' /\ frame g c c' /\
    match o with
    | None => c' = c
    | Some cp =>
        pending c' g = None /\ pending c g = Some (cp_request cp) /\
        (cp_status cp = kOk -> exists rs, cp_response cp = Some rs /\
           rs_status rs = Success /\ answered env g (cp_request cp) rs)
    end.
Proof.
  intros Hok Hg. destruct (co_groups _ _ _ Hok g Hg) as [s Hs].
  unfold takeCompleted, client_group. rewrite Hs. cbn.
  destruct (gs_call s) as [call|] eqn:Hcall; [|by eexists _, _].
  destruct (call_completed call) eqn:Hdone; cbn; [|by eexists _, _].
  destruct (co_calls _ _ _ Hok g s call Hs Hcall Hdone) as (k & a & Hr & Hf & Ha).
  assert (forall (cp : Completion) s' c',
    stored g s' c c' -> gs_call s' = None -> cp_request cp = call_request call ->
    (cp_status cp = kOk -> call_failed call = None /\ cp_response cp = Some (call_response call) /\
       rs_status (call_response call) = Success) ->
    client_ok env ids c' /\ frame g c c' /\ pending c' g = None /\ pending c g = Some (cp_request cp) /\
    (cp_status cp = kOk -> exists rs, cp_response cp = Some rs /\
       rs_status rs = Success /\ answered env g (cp_request cp) rs)) as Hall.
  { intros cp s' c' [Hfr Hl] Hn Hq Hst. split_and!; [|done| | |].
    - eapply client_ok_put; [done|done|done|]. by rewrite Hn.
    - unfold pending. by rewrite Hl; cbn; rewrite Hn.
    - unfold pending. by rewrite Hs; cbn; rewrite Hcall, Hq.
    - intros H. destruct (Hst H) as (Hnf & Hrs & Hsuc). exists (call_response call).
      split_and!; [done|done|]. rewrite Hq. exists k, a. by rewrite Hf, Hnf. }
  destruct (call_failed call) as [code|] eqn:Hfail.
  - unfold backOff, now. cbn. destruct (code =? ENOMETHOD env);
      (eexists (Some _), _; split; [reflexivity|];
       eapply Hall; [apply stored_put; split_and!; [done|done|cbn; lia]|done..]).
  - destruct (onNotLeader_frame env g call (set_call None s) c c (frame_refl g c)) as [Hnl Hnc].
    unfold backOff, now. cbn. destruct (rs_status (call_response call)) eqn:Hst;
      [| destruct (onNotLeader env g call (set_call None s) c) as [s' c'] | |];
      (eexists (Some _), _; split; [reflexivity|];
       eapply Hall; [apply stored_put; first [done | split_and!; [done|done|cbn; lia]]|done..]).
Qed.

Lemma deliver_spec env ids c g :
  client_ok env ids c ->
  client_ok env ids (deliver env c g) /\ frame g c (deliver env c g) /\
  pending (deliver env c g) g = pending c g.
Proof.
  intros Hok. unfold deliver.
  destruct (c_groups c !! g) as [s|] eqn:Hs; [|done].
  destruct (gs_call s) as [call|] eqn:Hcall; [|done].
  destruct (call_completed call) eqn:Hdone; [done|].
  destruct (respond _ _ _ _) as [a|] eqn:Hr; [|done].
  set (s' := set_call _ s). destruct (stored_put g s' c c (frame_refl g c)) as [Hfr Hl].
  split_and!; [|done|].
  - eapply client_ok_put; [done|done|done|]. intros ? [= <-] _. cbn. eauto.
  - unfold pending. by rewrite Hl, Hs; cbn; rewrite Hcall.
Qed.

Lemma issue_spec env ids c g req timeout :
  client_ok env ids c -> g ∈ ids -> pending c g = None ->
  exists c', issue env c g req timeout = Ok c' /\ client_ok env ids c' /\ frame g c c' /\
    pending c' g = Some req /\ (c_tick c < c_tick c')%nat.
Proof.
  intros Hok Hg Hp. destruct (co_groups _ _ _ Hok g Hg) as [s Hs].
  assert (Hn : gs_call s = None).
  { unfold pending in Hp. rewrite Hs in Hp. cbn in Hp. by destruct (gs_call s). }
  unfold issue, client_group. rewrite Hs. cbn. rewrite Hn. cbn.
  eexists. split; [reflexivity|].
  match goal with |- context [put_group g ?s' ?c1] => set (s1 := s'); set (c2 := c1) end.
  destruct (stored_put g s1 c c2 (frame_now env g c c (frame_refl g c))) as [Hfr Hl].
  split_and!; [|done| |cbn; lia].
  - eapply client_ok_put; [done| |exact Hl|]; [done|]. by intros ? [= <-].
  - unfold pending. cbn. by rewrite lookup_insert_eq.
Qed.

Lemma deferUntil_spec env ids c g when :
  client_ok env ids c -> g ∈ ids ->
  exists c', deferUntil c g when = Ok c' /\ client_ok env ids c' /\ frame g c c' /\
    pending c' g = pending c g.
Proof.
  intros Hok Hg. destruct (co_groups _ _ _ Hok g Hg) as [s Hs].
  unfold deferUntil, client_group. rewrite Hs. cbn. eexists. split; [reflexivity|].
  match goal with |- context [put_group g ?s' c] => set (s1 := s') end.
  destruct (stored_put g s1 c c (frame_refl g c)) as [Hfr Hl]. split_and!; [|done|].
  - eapply client_ok_put; [done|done|exact Hl|]. intros call Hcall.
    by apply (co_calls _ _ _ Hok g s).
  - unfold pending. by rewrite Hl, Hs.
Qed.

Lemma inFlight_spec env ids c g :
  client_ok env ids c -> g ∈ ids -> inFlight c g = Ok (is_some (pending c g)).
Proof.
  intros Hok Hg. destruct (co_groups _ _ _ Hok g Hg) as [s Hs].
  unfold inFlight, pending, client_group. rewrite Hs. cbn. by destruct (gs_call s).
Qed.

Lemma readyAt_spec env ids c g :
  client_ok env ids c -> g ∈ ids -> exists t, readyAt c g = Ok t.
Proof.
  intros Hok Hg. destruct (co_groups _ _ _ Hok g Hg) as [s Hs].
  unfold readyAt, client_group. rewrite Hs. cbn. eauto.
Qed.

Lemma client_ok_now env ids c : client_ok env ids c -> client_ok env ids (now env c).2.
Proof. by intros []. Qed.

Lemma newClient_ok env ids o :
  client_ok env ids (newClient ids o) /\ forall g, pending (newClient ids o) g = None.
Proof.
  assert (forall g s, c_groups (newClient ids o) !! g = Some s -> s = newGroupState o) as Hnew.
  { intros g s Hs. cbn in Hs. apply elem_of_list_to_map_2 in Hs.
    apply list_elem_of_fmap in Hs as (? & [= -> ->] & _). done. }
  split; [split|].
  - intros g Hg. destruct (_ !! g) eqn:Hs; [by eexists|].
    apply not_elem_of_list_to_map_2 in Hs. exfalso. apply Hs.
    apply list_elem_of_fmap. exists (g, newGroupState o). split; [done|].
    apply list_elem_of_fmap. eauto.
  - intros g s call Hs. by rewrite (Hnew g s Hs).
  - intros g. unfold pending. destruct (_ !! g) as [s|] eqn:Hs; [|done]. by rewrite (Hnew g s Hs).
Qed.

(** ** The retry policy *)

Definition wf_options (o : ClientOptions) : Prop :=
  0 < retryBackoffInitial o <= retryBackoffMax o.

(** Every group's next backoff lies between the initial one and the cap. *)
Definition backoff_ok (c : CdcScanClient) : Prop :=
  wf_options (c_options c) /\
  forall g s, c_groups c !! g = Some s ->
    retryBackoffInitial (c_options c) <= gs_backoff s <= retryBackoffMax (c_options c).

(** Time passing: [n] more readings of the clock. *)
Definition advance (n : nat) (c : CdcScanClient) : CdcScanClient :=
  mkClient (c_options c) (c_groups c) (n + c_tick c) (c_trace c).

(** The group's state after a retry: either backed off by the backoff it had, or, having
    just followed a redirect for the first time in a backoff period, ready at once. *)
Inductive retried (env : Env) (c : CdcScanClient) (s s' : GroupState) : Prop :=
| retried_backoff k :
    (c_tick c <= k)%nat ->
    now_at env k + gs_backoff s <= gs_readyAt s' ->
    gs_backoff s' = Z.min (gs_backoff s * 2) (retryBackoffMax (c_options c)) ->
    retried env c s s'
| retried_follow :
    gs_backoff s <= now_at env (c_tick c) - gs_lastFollowAt s ->
    gs_readyAt s' = now_at env (c_tick c) ->
    gs_lastFollowAt s' = now_at env (c_tick c) ->
    gs_backoff s' = gs_backoff s ->
    retried env c s s'.

Lemma takeCompleted_retried env c g s cp c' :
  c_groups c !! g = Some s ->
  takeCompleted env c g = Ok (Some cp, c') -> cp_status cp = kRetry ->
  exists s', c_groups c' !! g = Some s' /\ c_options c' = c_options c /\
    (c_tick c <= c_tick c')%nat /\ retried env c s s'.
Proof.
  intros Hs H Hst. unfold takeCompleted, client_group, onNotLeader, backOff, now in H.
  rewrite Hs in H. cbn in H.
  repeat case_match; simplify_eq/=;
    (eexists; split_and!; [apply lookup_insert_eq|done|lia|]);
    (* backed off at the first reading, at the second, or followed at once *)
    first [by apply (retried_backoff env c s _ (c_tick c)); cbn; lia
          |by apply (retried_backoff env c s _ (S (c_tick c))); cbn; lia
          |apply retried_follow; cbn; lia].
Qed.

Lemma takeCompleted_backoff_ok env c g o c' :
  backoff_ok c -> takeCompleted env c g = Ok (o, c') -> backoff_ok c'.
Proof.
  intros [Ho Hb] H. unfold wf_options in Ho.
  assert (forall s c1, c_options c1 = c_options c -> c_groups c1 = c_groups c ->
    retryBackoffInitial (c_options c) <= gs_backoff s <= retryBackoffMax (c_options c) ->
    backoff_ok (put_group g s c1)) as Hput.
  { intros s c1 E1 E2 Hs. split; cbn; rewrite E1; [done|]. intros h s'. rewrite E2.
    rewrite lookup_insert_Some. naive_solver. }
  unfold takeCompleted, client_group in H.
  destruct (c_groups c !! g) as [s|] eqn:Hs; [|done]. cbn in H. specialize (Hb g s Hs) as Hbs.
  unfold onNotLeader, backOff, now in H.
  repeat case_match; simplify_eq/=; try done; apply Hput; cbn; try done; lia.
Qed.

(** A retry after [takeCompleted] at the clock reading [t] leaves the group either not ready
    before [t] plus the initial backoff, or holding [t] as the time of its last follow. *)
Lemma retried_time env c s s' :
  (forall i j, (i <= j)%nat -> now_at env i <= now_at env j) ->
  retried env c s s' ->
  now_at env (c_tick c) + gs_backoff s <= gs_readyAt s' \/
  (gs_lastFollowAt s' = now_at env (c_tick c) /\ gs_backoff s' = gs_backoff s /\
   gs_backoff s <= now_at env (c_tick c) - gs_lastFollowAt s /\
   gs_readyAt s' = now_at env (c_tick c)).
Proof. intros Hm [k Hk Hr Hb|]; [left|right; done]. specialize (Hm _ _ Hk). lia. Qed.

(** The second of two retries that go out when the group is ready. *)
Lemma issue_lookup env c g req timeout c' s :
  c_groups c !! g = Some s -> issue env c g req timeout = Ok c' ->
  c_options c' = c_options c /\ c_tick c' = S (c_tick c) /\
  exists s', c_groups c' !! g = Some s' /\ gs_readyAt s' = gs_readyAt s /\
    gs_backoff s' = gs_backoff s /\ gs_lastFollowAt s' = gs_lastFollowAt s.
Proof.
  intros Hs H. unfold issue, client_group in H. rewrite Hs in H. cbn in H.
  destruct (gs_call s); simplify_eq/=. split_and!; [done|done|].
  eexists. split; [apply lookup_insert_eq|done].
Qed.

Lemma deliver_lookup env c g s :
  c_groups c !! g = Some s ->
  c_options (deliver env c g) = c_options c /\ c_tick (deliver env c g) = c_tick c /\
  exists s', c_groups (deliver env c g) !! g = Some s' /\ gs_readyAt s' = gs_readyAt s /\
    gs_backoff s' = gs_backoff s /\ gs_lastFollowAt s' = gs_lastFollowAt s.
Proof.
  intros Hs. unfold deliver. rewrite Hs.
  destruct (gs_call s) as [call|]; [|by split_and!; eauto 6]. destruct (call_completed call); [by split_and!; eauto 6|].
  destruct (respond _ _ _ _); [|by split_and!; eauto 6]. split_and!; [done|done|].
  eexists. split; [apply lookup_insert_eq|done].
Qed.


(** Two nodes, 1 and 2, that answer NotLeader and name each other; the clock stands still. *)
Definition pingpong_response (redirect : bytes) : CdcScanResponse :=
  mkScanResponse NotLeader redirect [] [] 0 [] false.

Definition pingpong_env : Env :=
  mkEnv (fun _ => 1000)
    (fun k _ _ => Some (mkAnswer None
       (pingpong_response (if (k <=? 2)%nat then lit "two:1" else lit "one:1"))
       (Some (if (k <=? 2)%nat then 1 else 2)) 1000))
    (fun _ _ a => if bytes_eqb a (lit "one:1") then Some 1 else Some 2)
    (fun _ => 0) 1002.

Definition probe_req : CdcScanRequest := mkScanRequest 7 (start_from_ts 1) 1 0.

Definition pingpong_c1 : CdcScanClient :=
  match issue pingpong_env (newClient [7] (mkClientOptions 50 1000)) 7 probe_req 5000 with
  | Ok c => deliver pingpong_env c 7
  | Err _ => newClient [] (mkClientOptions 50 1000)
  end.

