(* ===== verification/ScanContract.v ===== *)
(** * What the log service promises the change stream

    The paging contract of docs/cdc-change-stream.md, 4.2, over everything the world answers:
    for each group one history, and every successful page a prefix of what the request's
    position leaves of it. The scan source is proved against this class;
    [FakeLogService] provides an instance. *)

From S2P Require Import Prelude Bytes Bson LogService ScanClient.
#[local] Open Scope Z_scope.

Section Start.
Context (issued : bytes -> Prop).

(** The positions a client may scan from: a timestamp, or a continuation it was given. *)
Definition start_issued (s : ScanStart) : Prop :=
  match s with
  | start_continuation c => issued c
  | start_from_ts ts => 1 <= ts <= u64_max
  | start_unset => False
  end.

End Start.

Class ScanContract (env : Env) := {
  (** All a group's log holds for the stream, now or later. *)
  sc_history : Z -> list LogRecord;
  (** What is left of it after a continuation. *)
  sc_rest : Z -> bytes -> list LogRecord;
  (** The continuations the group hands out. *)
  sc_issued : Z -> bytes -> Prop;
  sc_wf : forall g, wf_history (sc_history g);
  sc_page : forall k g req a,
    respond env k g req = Some a -> an_failed a = None ->
    rs_status (an_response a) = Success ->
    start_issued (sc_issued g) (rq_start req) ->
    exists page, valid_page (sc_history g) (sc_rest g) req (an_response a) page /\
      sc_issued g (rs_continuation (an_response a));
}.

(** The group's records from a timestamp on. *)
Definition records_from (h : list LogRecord) (ts : Z) : list LogRecord :=
  List.filter (fun r => ts <=? rec_ts r) h.

Lemma StronglySorted_filter {A} (R : A -> A -> Prop) (f : A -> bool) l :
  StronglySorted R l -> StronglySorted R (List.filter f l).
Proof.
  induction 1 as [|x l Hl IH Hx]; [constructor|]. cbn. destruct (f x); [|done].
  constructor; [done|]. apply Forall_forall. intros y Hy.
  apply list_elem_of_In, filter_In in Hy as [Hy _].
  by apply (proj1 (Forall_forall _ _) Hx), list_elem_of_In.
Qed.

Lemma records_from_wf h ts : wf_history h -> wf_history (records_from h ts).
Proof.
  intros [Hw Hs]. split; [|by apply StronglySorted_filter].
  apply Forall_forall. intros r Hr. apply list_elem_of_In, filter_In in Hr as [Hr _].
  by apply (proj1 (Forall_forall _ _) Hw), list_elem_of_In.
Qed.

Lemma wf_history_app a b : wf_history (a ++ b) -> wf_history a /\ wf_history b.
Proof.
  intros [Hw Hs]. apply Forall_app in Hw as [? ?]. apply StronglySorted_app in Hs as (_ & ? & ?).
  done.
Qed.

Lemma wf_history_le a b x y :
  wf_history (a ++ b) -> x ∈ a -> y ∈ b -> rec_ts x <= rec_ts y.
Proof.
  intros [_ Hs] Hx Hy. apply StronglySorted_app in Hs as (H & _ & _).
  by apply rec_lt_ts, H.
Qed.

Lemma records_from_max h : wf_history h -> records_from h u64_max = [].
Proof.
  intros [Hw _]. unfold records_from. induction Hw as [|r h Hr Hh IH]; [done|]. cbn.
  destruct (u64_max <=? rec_ts r) eqn:E; [|done]. apply Z.leb_le in E. unfold wf_record in Hr. lia.
Qed.
