(* ===== verification/ScanSource.v ===== *)
(** * Fetching and merging the log groups' records (cdc/cdc_scan_source.{h,cpp})

    Every group's pages are buffered and released one record at a time, merged by timestamp
    under the emission rule: a record goes out only once every other group has fetched
    everything below its timestamp. The source is proved against [ScanContract], what the log
    service promises of each page. Loops that wait on the clock take fuel: [None] means the
    fuel ran out while the call was still waiting. *)

From S2P Require Import Prelude Bytes Bson LogService ScanClient ScanContract.
#[local] Open Scope Z_scope.

(** ** Data *)

Record CdcScanSourceOptions := mkSourceOptions {
  bufferBytes : Z;
  maxBytesPerScan : Z;
  maxWait : Z;
  rpcSlack : Z;
  idleBackoffInitial : Z;
  idleBackoffMax : Z;
  o_client : ClientOptions;
}.

Definition kShortestLongPoll : Z := 20.

Inductive Stream := kData | kDdl.

#[global] Instance Stream_eq_dec : EqDecision Stream.
Proof. solve_decision. Defined.

(** A released record: a view into the page it came in. *)
Record CdcSourceRecord := mkSourceRecord {
  sr_logGroupId : Z;
  sr_page : CdcScanResponse;
  sr_stream : Stream;
  sr_index : nat;
}.

Definition at_index {A} (l : list A) (i : nat) : result A :=
  match l !! i with Some x => Ok x | None => Err InvariantFailure end.

Definition sr_data (r : CdcSourceRecord) : result CdcDataRecord :=
  let! _ := invariant (bool_decide (sr_stream r = kData)) in
  at_index (rs_data (sr_page r)) (sr_index r).

Definition sr_ddl (r : CdcSourceRecord) : result CdcDdlRecord :=
  let! _ := invariant (bool_decide (sr_stream r = kDdl)) in
  at_index (rs_ddl (sr_page r)) (sr_index r).

Definition sr_timestamp (r : CdcSourceRecord) : result Z :=
  match sr_stream r with
  | kData => let! d := sr_data r in Ok (dr_commit_ts d)
  | kDdl => let! d := sr_ddl r in Ok (lr_ddl_ts d)
  end.

Definition sr_dataKey (r : CdcSourceRecord) : result bytes :=
  let! d := sr_data r in Ok (dataKey d).
Definition sr_ddlKey (r : CdcSourceRecord) : result bytes :=
  let! d := sr_ddl r in Ok (ddlKey d).

Record Page := mkPage {
  pg_response : CdcScanResponse;
  pg_dataIndex : nat;
  pg_ddlIndex : nat;
  pg_bytes : Z;
}.

Record Group := mkGroup {
  g_id : Z;
  g_started : bool;
  g_haveContinuation : bool;
  g_continuation : bytes;
  g_fromTs : Z;
  g_arrivalCompleteTs : Z;
  g_scannedTs : Z;
  g_pages : list Page;
  g_idleBackoff : Z;
}.

Record Head := mkHead {
  h_ts : Z;
  h_stream : Stream;
}.

Record CdcScanSource := mkSource {
  s_options : CdcScanSourceOptions;
  s_logGroupIds : list Z;
  s_client : CdcScanClient;
  s_groups : list Group;
  s_bufferedBytes : Z;
  s_drained : bool;
}.

Definition set_pages (ps : list Page) (g : Group) : Group :=
  mkGroup (g_id g) (g_started g) (g_haveContinuation g) (g_continuation g) (g_fromTs g)
    (g_arrivalCompleteTs g) (g_scannedTs g) ps (g_idleBackoff g).
Definition set_idleBackoff (b : Z) (g : Group) : Group :=
  mkGroup (g_id g) (g_started g) (g_haveContinuation g) (g_continuation g) (g_fromTs g)
    (g_arrivalCompleteTs g) (g_scannedTs g) (g_pages g) b.
Definition set_arrivalCompleteTs (t : Z) (g : Group) : Group :=
  mkGroup (g_id g) (g_started g) (g_haveContinuation g) (g_continuation g) (g_fromTs g)
    t (g_scannedTs g) (g_pages g) (g_idleBackoff g).
Definition set_scannedTs (t : Z) (g : Group) : Group :=
  mkGroup (g_id g) (g_started g) (g_haveContinuation g) (g_continuation g) (g_fromTs g)
    (g_arrivalCompleteTs g) t (g_pages g) (g_idleBackoff g).
Definition set_continuation (c : bytes) (g : Group) : Group :=
  mkGroup (g_id g) (g_started g) true c (g_fromTs g)
    (g_arrivalCompleteTs g) (g_scannedTs g) (g_pages g) (g_idleBackoff g).

(** ** Starting *)

Definition newSource (ids : list Z) (o : CdcScanSourceOptions) : result CdcScanSource :=
  let! _ := invariant (negb (bool_decide (ids = []))) in
  Ok (mkSource o ids (newClient ids (o_client o))
        (map (fun id => mkGroup id false false [] 0 0 0 [] (idleBackoffInitial o)) ids) 0 false).

Definition start_group (fromTs : Z) (g : Group) : result Group :=
  let! _ := invariant (1 <=? fromTs) in
  let! _ := invariant (bool_decide (g_pages g = [])) in
  Ok (mkGroup (g_id g) true false [] fromTs (g_arrivalCompleteTs g) (fromTs - 1)
        (g_pages g) (g_idleBackoff g)).

(** [startAt] on the first group with the id, as [_group] finds it. *)
Fixpoint start_groups (gs : list Group) (id fromTs : Z) : result (list Group) :=
  match gs with
  | [] => Err InvariantFailure
  | g :: gs' =>
      if g_id g =? id then let! g' := start_group fromTs g in Ok (g' :: gs')
      else let! gs'' := start_groups gs' id fromTs in Ok (g :: gs'')
  end.

Definition with_groups (s : CdcScanSource) (gs : list Group) : CdcScanSource :=
  mkSource (s_options s) (s_logGroupIds s) (s_client s) gs (s_bufferedBytes s) (s_drained s).

Definition startAt (s : CdcScanSource) (id fromTs : Z) : result CdcScanSource :=
  let! gs := start_groups (s_groups s) id fromTs in Ok (with_groups s gs).

(** [startAt] for each of [ids], at its own timestamp. *)
Fixpoint startEach (s : CdcScanSource) (ids : list Z) (from : Z -> Z) : result CdcScanSource :=
  match ids with
  | [] => Ok s
  | id :: ids' => let! s' := startAt s id (from id) in startEach s' ids' from
  end.

Definition startAllAt (s : CdcScanSource) (fromTs : Z) : result CdcScanSource :=
  startEach s (s_logGroupIds s) (fun _ => fromTs).

(** ** Reading the state *)

Definition emitBound (s : CdcScanSource) : Z :=
  fold_left (fun b g => Z.min b (g_scannedTs g)) (s_groups s) u64_max.

Fixpoint source_group (gs : list Group) (id : Z) : result Group :=
  match gs with
  | [] => Err InvariantFailure
  | g :: gs' => if g_id g =? id then Ok g else source_group gs' id
  end.

Definition scannedTs (s : CdcScanSource) (id : Z) : result Z :=
  let! g := source_group (s_groups s) id in Ok (g_scannedTs g).

(** ** Releasing *)

(** The record a page would release next. *)
Definition page_head (p : Page) : option Head :=
  let data := rs_data (pg_response p) !! pg_dataIndex p in
  let ddl := rs_ddl (pg_response p) !! pg_ddlIndex p in
  match data, ddl with
  | None, None => None
  | _, _ =>
      let dataTs := match data with Some d => dr_commit_ts d | None => u64_max end in
      let ddlTs := match ddl with Some d => lr_ddl_ts d | None => u64_max end in
      if is_some data && (dataTs <=? ddlTs) then Some (mkHead dataTs kData)
      else Some (mkHead ddlTs kDdl)
  end.

(** [_head]: pages without records left are dropped from the buffer on the way. *)
Fixpoint head_pages (ps : list Page) (buffered : Z) : option Head * list Page * Z :=
  match ps with
  | [] => (None, [], buffered)
  | p :: ps' =>
      match page_head p with
      | None => head_pages ps' (buffered - pg_bytes p)
      | Some h => (Some h, ps, buffered)
      end
  end.

Definition head (g : Group) (buffered : Z) : option Head * Group * Z :=
  let '(h, ps, b) := head_pages (g_pages g) buffered in (h, set_pages ps g, b).

(** The choice loop of [_pickReleasable]: the lowest head, the earlier group on a tie. *)
Fixpoint choose (gs : list Group) (i : nat) (buffered : Z) (chosen : option (nat * Head))
    : list Group * Z * option (nat * Head) :=
  match gs with
  | [] => ([], buffered, chosen)
  | g :: gs' =>
      let '(h, g, b) := head g buffered in
      let chosen :=
        match h with
        | Some h =>
            match chosen with
            | Some (_, best) => if h_ts h <? h_ts best then Some (i, h) else chosen
            | None => Some (i, h)
            end
        | None => chosen
        end in
      let '(gs', b, chosen) := choose gs' (S i) b chosen in
      (g :: gs', b, chosen)
  end.

(** Whether a group other than the chosen one holds back a record at [ts]. *)
Fixpoint held_back (gs : list Group) (i chosen : nat) (ts : Z) : bool :=
  match gs with
  | [] => false
  | g :: gs' =>
      (negb (i =? chosen)%nat && (wrap64 (g_scannedTs g + 1) <? ts))
      || held_back gs' (S i) chosen ts
  end.

(** Taking the front page's next record of the stream. *)
Definition release_page (st : Stream) (p : Page) : Page :=
  match st with
  | kData => mkPage (pg_response p) (S (pg_dataIndex p)) (pg_ddlIndex p) (pg_bytes p)
  | kDdl => mkPage (pg_response p) (pg_dataIndex p) (S (pg_ddlIndex p)) (pg_bytes p)
  end.

Definition release (g : Group) (st : Stream) : result (CdcSourceRecord * Group) :=
  match g_pages g with
  | [] => Err InvariantFailure
  | p :: ps =>
      let index := match st with kData => pg_dataIndex p | kDdl => pg_ddlIndex p end in
      Ok (mkSourceRecord (g_id g) (pg_response p) st index, set_pages (release_page st p :: ps) g)
  end.

Definition with_buffers (s : CdcScanSource) (gs : list Group) (b : Z) : CdcScanSource :=
  mkSource (s_options s) (s_logGroupIds s) (s_client s) gs b (s_drained s).

Definition pickReleasable (s : CdcScanSource) : result (option CdcSourceRecord * CdcScanSource) :=
  let '(gs, b, chosen) := choose (s_groups s) 0 (s_bufferedBytes s) None in
  let s := with_buffers s gs b in
  match chosen with
  | None => Ok (None, s)
  | Some (i, h) =>
      if held_back gs 0 i (h_ts h) then Ok (None, s)
      else
        let! g := at_index gs i in
        let! (r, g) := release g (h_stream h) in
        Ok (Some r, with_groups s (<[i := g]> gs))
  end.

(** ** Admitting pages *)

Definition pauseIfIdleEarly (env : Env) (o : CdcScanSourceOptions) (g : Group) (cp : Completion)
    (rs : CdcScanResponse) (previousBound : Z) (c : CdcScanClient)
    : result (bool * Group * CdcScanClient) :=
  let empty := bool_decide (rs_data rs = []) && bool_decide (rs_ddl rs = []) in
  if negb empty || rs_has_more rs || (previousBound <? g_arrivalCompleteTs g) then
    Ok (false, set_idleBackoff (idleBackoffInitial o) g, c)
  else
    let asked := rq_wait_ms (cp_request cp) in
    let waited := cp_completedAt cp - cp_issuedAt cp in
    if (kShortestLongPoll <=? asked) && (asked <=? waited * 2) then Ok (false, g, c)
    else
      let '(t, c) := now env c in
      let! c := deferUntil c (g_id g) (t + g_idleBackoff g) in
      Ok (true, set_idleBackoff (Z.min (g_idleBackoff g * 2) (idleBackoffMax o)) g, c).

(** What a page proves fetched: through the bound when exhausted, else below its last
    timestamp. *)
Definition page_scannedTs (rs : CdcScanResponse) (scanned : Z) : Z :=
  if rs_has_more rs then
    let lastTs := match last (rs_data rs) with Some d => dr_commit_ts d | None => 0 end in
    let lastTs := match last (rs_ddl rs) with Some d => Z.max lastTs (lr_ddl_ts d) | None => lastTs end in
    if 0 <? lastTs then Z.max scanned (lastTs - 1) else scanned
  else Z.max scanned (rs_arrival_complete_ts rs).

Definition admit_page (env : Env) (o : CdcScanSourceOptions) (g : Group) (cp : Completion)
    (c : CdcScanClient) (buffered : Z) : result (Group * CdcScanClient * Z) :=
  match cp_response cp with
  | None => Err InvariantFailure
  | Some rs =>
      let previousBound := g_arrivalCompleteTs g in
      let g := set_arrivalCompleteTs (Z.max previousBound (rs_arrival_complete_ts rs)) g in
      let g := set_continuation (rs_continuation rs) g in
      let g := set_scannedTs (page_scannedTs rs (g_scannedTs g)) g in
      let '(g, buffered) :=
        if negb (bool_decide (rs_data rs = [])) || negb (bool_decide (rs_ddl rs = [])) then
          let page := mkPage rs 0 0 (ByteSizeLong env rs) in
          (set_pages (g_pages g ++ [page]) g, buffered + pg_bytes page)
        else (g, buffered) in
      let! (_, g, c) := pauseIfIdleEarly env o g cp rs previousBound c in
      Ok (g, c, buffered)
  end.

(** [_collectCompletions], over the groups in order; before each is looked at, the callback
    of its call may have run. *)
Fixpoint collect (env : Env) (o : CdcScanSourceOptions) (gs : list Group) (c : CdcScanClient)
    (b : Z) : result (list Group * CdcScanClient * Z) :=
  match gs with
  | [] => Ok ([], c, b)
  | g :: gs' =>
      let! (completion, c) := takeCompleted env (deliver env c (g_id g)) (g_id g) in
      let! (g, c, b) :=
        match completion with
        | None => Ok (g, c, b)
        | Some cp =>
            match cp_status cp with
            | kOk => admit_page env o g cp c b
            | kRetry => Ok (g, c, b)
            | kPositionTruncated => Err ChangeStreamHistoryLost
            | kUnsupported => Err CommandNotSupported
            end
        end in
      let! (gs', c, b) := collect env o gs' c b in
      Ok (g :: gs', c, b)
  end.

Definition collectCompletions (env : Env) (s : CdcScanSource) : result CdcScanSource :=
  let! (gs, c, b) := collect env (s_options s) (s_groups s) (s_client s) (s_bufferedBytes s) in
  Ok (mkSource (s_options s) (s_logGroupIds s) c gs b (s_drained s)).

(** ** Issuing scans *)

Definition waitMs (env : Env) (o : CdcScanSourceOptions) (deadline : Z) (c : CdcScanClient)
    : Z * CdcScanClient :=
  let '(t, c) := now env c in
  let remaining := deadline - t in
  if remaining <=? 0 then (0, c) else (wrap32 (Z.min remaining (maxWait o)), c).

Definition group_start (g : Group) : ScanStart :=
  if g_haveContinuation g then start_continuation (g_continuation g)
  else start_from_ts (g_fromTs g).

Definition scanRequest (env : Env) (o : CdcScanSourceOptions) (g : Group) (deadline : Z)
    (c : CdcScanClient) : CdcScanRequest * CdcScanClient :=
  let '(w, c) := waitMs env o deadline c in
  (mkScanRequest (g_id g) (group_start g) (maxBytesPerScan o) w, c).

(** The first loop of [_issueScans]: every group's head, and the lowest of them. *)
Fixpoint scan_heads (gs : list Group) (b : Z) (lowest : option Z)
    : list Group * Z * list bool * option Z :=
  match gs with
  | [] => ([], b, [], lowest)
  | g :: gs' =>
      let '(h, g, b) := head g b in
      let lowest :=
        match h with
        | Some h => Some (match lowest with Some l => Z.min l (h_ts h) | None => h_ts h end)
        | None => lowest
        end in
      let '(gs', b, have, lowest) := scan_heads gs' b lowest in
      (g :: gs', b, is_some h :: have, lowest)
  end.

Definition lags (g : Group) (lowest : option Z) : bool :=
  match lowest with
  | Some l => wrap64 (g_scannedTs g + 1) <? l
  | None => false
  end.

(** Its second loop. *)
Fixpoint issue_loop (env : Env) (o : CdcScanSourceOptions) (deadline t : Z) (buffered : Z)
    (lowest : option Z) (gs : list Group) (have : list bool) (c : CdcScanClient)
    : result CdcScanClient :=
  match gs, have with
  | g :: gs', h :: have' =>
      let continue := issue_loop env o deadline t buffered lowest gs' have' in
      let! busy := inFlight c (g_id g) in
      let! ready := readyAt c (g_id g) in
      if busy || (t <? ready) then continue c else
      let lagging := lags g lowest in
      if h && negb lagging then continue c else
      let committed := buffered + inFlightCount c * maxBytesPerScan o in
      if negb lagging && (bufferBytes o <=? committed) then continue c else
      let '(request, c) := scanRequest env o g deadline c in
      let! c := issue env c (g_id g) request (rq_wait_ms request + rpcSlack o) in
      continue c
  | _, _ => Ok c
  end.

Definition issueScans (env : Env) (s : CdcScanSource) (deadline : Z) : result CdcScanSource :=
  let '(t, c) := now env (s_client s) in
  let '(gs, b, have, lowest) := scan_heads (s_groups s) (s_bufferedBytes s) None in
  let! c := issue_loop env (s_options s) deadline t b lowest gs have c in
  Ok (mkSource (s_options s) (s_logGroupIds s) c gs b (s_drained s)).

(** ** Waiting loops *)

Definition with_client (s : CdcScanSource) (c : CdcScanClient) : CdcScanSource :=
  mkSource (s_options s) (s_logGroupIds s) c (s_groups s) (s_bufferedBytes s) (s_drained s).
Definition with_drained (s : CdcScanSource) (d : bool) : CdcScanSource :=
  mkSource (s_options s) (s_logGroupIds s) (s_client s) (s_groups s) (s_bufferedBytes s) d.

Definition source_now (env : Env) (s : CdcScanSource) : Z * CdcScanSource :=
  let '(t, c) := now env (s_client s) in (t, with_client s c).

(** Date_t::max(). *)
Definition Date_t_max : Z := 2 ^ 63 - 1.

Fixpoint earliest_loop (c : CdcScanClient) (t : Z) (gs : list Group) (earliest : Z) : result Z :=
  match gs with
  | [] => Ok earliest
  | g :: gs' =>
      let! ready := readyAt c (g_id g) in
      let! busy := inFlight c (g_id g) in
      earliest_loop c t gs'
        (if negb busy && (t <? ready) then Z.min earliest ready else earliest)
  end.

Definition earliestDeferredReady (env : Env) (s : CdcScanSource) : result (Z * CdcScanSource) :=
  let '(t, s) := source_now env s in
  let! e := earliest_loop (s_client s) t (s_groups s) Date_t_max in Ok (e, s).

(** [_waitObject->waitUntil]: time passes, at least one reading of the clock; the source's own
    state does not change. *)
Definition waitUntil (s : CdcScanSource) (wakeAt : Z) : CdcScanSource :=
  with_client s (advance 1 (s_client s)).

(** One pass of a waiting loop: it returns, or goes round again. *)
Inductive Pass (A L : Type) :=
| Return (x : A)
| Again (l : L).
Arguments Return {A L} x.
Arguments Again {A L} l.

(** [_collectCompletions] and then [_pickReleasable]. *)
Definition collect_and_pick (env : Env) (s : CdcScanSource)
    : result (option CdcSourceRecord * CdcScanSource) :=
  let! s := collectCompletions env s in pickReleasable s.

(** The end of a pass of [next]: return at the deadline, else wait. *)
Definition next_end (env : Env) (s : CdcScanSource) (deadline : Z)
    : result (Pass (option CdcSourceRecord * CdcScanSource) CdcScanSource) :=
  let '(t, s) := source_now env s in
  if deadline <=? t then Ok (Return (None, with_drained s true))
  else
    let! (e, s) := earliestDeferredReady env s in
    Ok (Again (waitUntil s (Z.min deadline e))).

(** Its middle: scans go out if [go], and what they brought is collected. *)
Definition next_scan (env : Env) (s : CdcScanSource) (deadline : Z) (go : bool)
    : result (Pass (option CdcSourceRecord * CdcScanSource) CdcScanSource) :=
  if go then
    let! s := issueScans env s deadline in
    let! (r, s) := collect_and_pick env s in
    match r with
    | Some r => Ok (Return (Some r, with_drained s false))
    | None => next_end env s deadline
    end
  else next_end env s deadline.

Definition next_pass (env : Env) (s : CdcScanSource) (deadline : Z) (first : bool)
    : result (Pass (option CdcSourceRecord * CdcScanSource) CdcScanSource) :=
  let! (r, s) := collect_and_pick env s in
  match r with
  | Some r => Ok (Return (Some r, with_drained s false))
  | None =>
      if first then next_scan env s deadline true
      else
        let '(t, s) := source_now env s in
        next_scan env s deadline (kShortestLongPoll <? deadline - t)
  end.

Fixpoint next_loop (fuel : nat) (env : Env) (s : CdcScanSource) (deadline : Z) (first : bool)
    : option (result (option CdcSourceRecord * CdcScanSource)) :=
  match fuel with
  | O => None
  | S fuel =>
      match next_pass env s deadline first with
      | Err e => Some (Err e)
      | Ok (Return x) => Some (Ok x)
      | Ok (Again s) => next_loop fuel env s deadline false
      end
  end.

Definition next (fuel : nat) (env : Env) (s : CdcScanSource) (deadline : Z)
    : option (result (option CdcSourceRecord * CdcScanSource)) :=
  if forallb g_started (s_groups s) then next_loop fuel env s deadline true
  else Some (Err InvariantFailure).

(** Consecutive calls of [next], and the records they released. *)
Fixpoint pulls (fuel : nat) (env : Env) (s : CdcScanSource) (deadlines : list Z)
    : option (result (list CdcSourceRecord * CdcScanSource)) :=
  match deadlines with
  | [] => Some (Ok ([], s))
  | d :: ds =>
      match next fuel env s d with
      | None => None
      | Some (Err e) => Some (Err e)
      | Some (Ok (o, s)) =>
          match pulls fuel env s ds with
          | Some (Ok (rs, s)) => Some (Ok (match o with Some r => r :: rs | None => rs end, s))
          | x => x
          end
      end
  end.

(** ** Fixing a fresh start *)

(** The probe loop of [fixStart]. *)
Fixpoint probe_loop (env : Env) (o : CdcScanSourceOptions) (deadline t : Z) (first : bool)
    (gs : list Group) (zeros : list bool) (c : CdcScanClient) : result CdcScanClient :=
  match gs, zeros with
  | g :: gs', z :: zeros' =>
      let continue := probe_loop env o deadline t first gs' zeros' in
      if (negb first && (deadline - t <=? kShortestLongPoll)) || negb (g_arrivalCompleteTs g =? 0)
      then continue c else
      let! busy := inFlight c (g_id g) in
      let! ready := readyAt c (g_id g) in
      if busy || (t <? ready) then continue c else
      let '(w, c) := if z : bool then waitMs env o deadline c else (0, c) in
      let probe := mkScanRequest (g_id g) (start_from_ts u64_max) 1 w in
      let! c := issue env c (g_id g) probe (w + rpcSlack o) in
      continue c
  | _, _ => Ok c
  end.

(** Its collecting loop. *)
Fixpoint probe_collect (env : Env) (o : CdcScanSourceOptions) (gs : list Group)
    (zeros : list bool) (c : CdcScanClient) : result (list Group * list bool * CdcScanClient) :=
  match gs, zeros with
  | g :: gs', z :: zeros' =>
      let! (completion, c) := takeCompleted env (deliver env c (g_id g)) (g_id g) in
      let! (g, z, c) :=
        match completion with
        | None => Ok (g, z, c)
        | Some cp =>
            match cp_status cp, cp_response cp with
            | kUnsupported, _ => Err CommandNotSupported
            | kOk, Some rs =>
                let previousBound := g_arrivalCompleteTs g in
                let g := set_arrivalCompleteTs (Z.max previousBound (rs_arrival_complete_ts rs)) g in
                let z := g_arrivalCompleteTs g =? 0 in
                let! (_, g, c) := pauseIfIdleEarly env o g cp rs previousBound c in
                Ok (g, z, c)
            | kOk, None => Err InvariantFailure
            | _, _ => Ok (g, z, c)
            end
        end in
      let! (gs', zeros', c) := probe_collect env o gs' zeros' c in
      Ok (g :: gs', z :: zeros', c)
  | _, _ => Ok ([], [], c)
  end.

Definition lowestBound (gs : list Group) : Z :=
  fold_left (fun b g => Z.min b (g_arrivalCompleteTs g)) gs u64_max.

Fixpoint probe_wakeAt (c : CdcScanClient) (gs : list Group) (wakeAt : Z) : result Z :=
  match gs with
  | [] => Ok wakeAt
  | g :: gs' =>
      if g_arrivalCompleteTs g =? 0 then
        let! busy := inFlight c (g_id g) in
        let! ready := readyAt c (g_id g) in
        probe_wakeAt c gs' (if busy then wakeAt else Z.min wakeAt ready)
      else probe_wakeAt c gs' wakeAt
  end.

Definition fixStart_pass (env : Env) (s : CdcScanSource) (deadline : Z) (zeros : list bool)
    (first : bool) : result (Pass (option Z * CdcScanSource) (CdcScanSource * list bool)) :=
  let '(t, s) := source_now env s in
  let! c := probe_loop env (s_options s) deadline t first (s_groups s) zeros (s_client s) in
  let! (gs, zeros, c) := probe_collect env (s_options s) (s_groups s) zeros c in
  let s := with_client (with_groups s gs) c in
  let start := lowestBound gs in
  if negb (start =? 0) then
    let! s := startAllAt s (wrap64 (start + 1)) in Ok (Return (Some start, s))
  else
    let '(t, s) := source_now env s in
    if deadline <=? t then Ok (Return (None, s))
    else
      let! w := probe_wakeAt (s_client s) (s_groups s) deadline in
      Ok (Again (waitUntil s w, zeros)).

Fixpoint fixStart_loop (fuel : nat) (env : Env) (s : CdcScanSource) (deadline : Z)
    (zeros : list bool) (first : bool) : option (result (option Z * CdcScanSource)) :=
  match fuel with
  | O => None
  | S fuel =>
      match fixStart_pass env s deadline zeros first with
      | Err e => Some (Err e)
      | Ok (Return x) => Some (Ok x)
      | Ok (Again (s, zeros)) => fixStart_loop fuel env s deadline zeros false
      end
  end.

Definition fixStart (fuel : nat) (env : Env) (s : CdcScanSource) (deadline : Z)
    : option (result (option Z * CdcScanSource)) :=
  if forallb (fun g => negb (g_started g)) (s_groups s)
  then fixStart_loop fuel env s deadline (map (fun _ => false) (s_groups s)) true
  else Some (Err InvariantFailure).

(** * Proofs *)

(** ** Heads of pages *)

Definition stream_of (r : LogRecord) : Stream := match r with LData _ => kData | LDdl _ => kDdl end.
Definition head_of (r : LogRecord) : Head := mkHead (rec_ts r) (stream_of r).

(** The page has exactly [rem] left to release, in this order. *)
Definition page_holds (p : Page) (rem : list LogRecord) : Prop :=
  drop (pg_dataIndex p) (rs_data (pg_response p)) = data_of rem /\
  drop (pg_ddlIndex p) (rs_ddl (pg_response p)) = ddl_of rem.

Lemma drop_lookup {A} (l : list A) i : l !! i = hd_error (drop i l).
Proof. revert i. induction l as [|x l IH]; intros [|i]; cbn; done. Qed.

Lemma drop_step {A} (l : list A) i x r : drop i l = x :: r -> drop (S i) l = r.
Proof. revert i. induction l as [|y l IH]; intros [|i]; cbn; [done|done| |apply IH].
  intros [= _ <-]. apply drop_0.
Qed.

(** A page's head is the first record it has left. *)
Lemma page_head_spec p rem :
  page_holds p rem -> wf_history rem ->
  page_head p = head_of <$> hd_error rem.
Proof.
  intros [Hd Hl] [Hw Hs]. unfold page_head. rewrite !drop_lookup, Hd, Hl.
  destruct rem as [|[d|d] rem]; cbn; [done| |].
  - destruct (ddl_of rem) as [|x xs] eqn:E; cbn.
    + rewrite (proj2 (Z.leb_le _ _)); [done|]. inversion Hw as [|? ? H]; subst.
      unfold wf_record in H. cbn in H. lia.
    + assert (LDdl x ∈ rem) as Hx by (apply ddl_of_In; rewrite E; left).
      apply sorted_cons_ts in Hs. pose proof (proj1 (Forall_forall _ _) Hs _ Hx) as Hle. cbn in Hle.
      by rewrite (proj2 (Z.leb_le _ _)).
  - destruct (data_of rem) as [|x xs] eqn:E; cbn; [done|].
    assert (LData x ∈ rem) as Hx by (apply data_of_In; rewrite E; left).
    apply StronglySorted_inv in Hs as [_ Hs].
    pose proof (proj1 (Forall_forall _ _) Hs _ Hx) as [Hlt|[_ []]]. cbn in Hlt.
    by rewrite (proj2 (Z.leb_gt _ _)).
Qed.

Lemma release_page_holds p r rem :
  page_holds p (r :: rem) -> page_holds (release_page (stream_of r) p) rem.
Proof.
  intros [Hd Hl]. destruct r as [d|d]; cbn in *; split; cbn; try done; by eapply drop_step.
Qed.

(** The record a released view names. *)
Definition sr_record (r : CdcSourceRecord) : result LogRecord :=
  match sr_stream r with
  | kData => let! d := sr_data r in Ok (LData d)
  | kDdl => let! d := sr_ddl r in Ok (LDdl d)
  end.

Lemma released_record id p r rem :
  page_holds p (r :: rem) ->
  sr_record (mkSourceRecord id (pg_response p) (stream_of r)
    (match stream_of r with kData => pg_dataIndex p | kDdl => pg_ddlIndex p end)) = Ok r.
Proof.
  intros [Hd Hl]. destruct r as [d|d]; cbn in *; unfold sr_record, sr_data, sr_ddl, at_index; cbn.
  - by rewrite drop_lookup, Hd.
  - by rewrite drop_lookup, Hl.
Qed.

(** ** Dropping exhausted pages *)

Fixpoint pages_bytes (ps : list Page) : Z :=
  match ps with [] => 0 | p :: ps' => pg_bytes p + pages_bytes ps' end.

Lemma pages_bytes_app a b : pages_bytes (a ++ b) = pages_bytes a + pages_bytes b.
Proof. induction a as [|p a IH]; cbn; lia. Qed.

(** [head_pages] does not look at the byte count, only updates it. *)
Definition group_head (g : Group) : option Head := (head g 0).1.1.
Definition popped (g : Group) : Group := (head g 0).1.2.

Lemma head_pages_bytes ps b :
  head_pages ps b =
    ((head_pages ps 0).1.1, (head_pages ps 0).1.2, b - pages_bytes ps + pages_bytes (head_pages ps 0).1.2).
Proof.
  revert b. induction ps as [|p ps IH]; intros b; cbn; [f_equal; lia|].
  destruct (page_head p); cbn; [f_equal; lia|].
  rewrite (IH (b - pg_bytes p)), (IH (0 - pg_bytes p)). cbn. f_equal. lia.
Qed.

Lemma head_eq g b :
  head g b = (group_head g, popped g,
              b - pages_bytes (g_pages g) + pages_bytes (g_pages (popped g))).
Proof.
  unfold group_head, popped, head. rewrite (head_pages_bytes (g_pages g) b).
  by destruct (head_pages (g_pages g) 0) as [[h ps] b'].
Qed.

Lemma head_pages_spec ps rems :
  Forall2 page_holds ps rems -> wf_history (concat rems) ->
  exists rems', Forall2 page_holds (head_pages ps 0).1.2 rems' /\ concat rems' = concat rems /\
    (head_pages ps 0).1.1 = head_of <$> hd_error (concat rems) /\
    match rems' with [] => True | rem :: _ => rem <> [] end.
Proof.
  induction 1 as [|p rem ps rems Hp Hps IH]; intros Hw; cbn.
  - exists []. split_and!; [constructor|done..].
  - apply wf_history_app in Hw as [Hrem Hw]. rewrite (page_head_spec p rem) by done.
    destruct rem as [|r rem]; cbn.
    + rewrite head_pages_bytes. cbn. destruct (IH Hw) as (rems' & H1 & H2 & H3 & H4).
      exists rems'. done.
    + exists ((r :: rem) :: rems). split_and!; [by constructor|done..].
Qed.

(** ** Choosing *)

(** The choice of [choose] over the heads alone. *)
Fixpoint best (hs : list (option Head)) (i : nat) (chosen : option (nat * Head))
    : option (nat * Head) :=
  match hs with
  | [] => chosen
  | h :: hs' =>
      best hs' (S i)
        (match h with
         | Some h =>
             match chosen with
             | Some (_, b) => if h_ts h <? h_ts b then Some (i, h) else chosen
             | None => Some (i, h)
             end
         | None => chosen
         end)
  end.

Fixpoint groups_bytes (gs : list Group) : Z :=
  match gs with [] => 0 | g :: gs' => pages_bytes (g_pages g) + groups_bytes gs' end.

Lemma choose_eq gs i b chosen :
  choose gs i b chosen =
    (map popped gs, b - groups_bytes gs + groups_bytes (map popped gs),
     best (map group_head gs) i chosen).
Proof.
  revert i b chosen. induction gs as [|g gs IH]; intros i b chosen; cbn; [do 2 f_equal; lia|].
  rewrite head_eq, IH. cbn. do 2 f_equal. lia.
Qed.

Lemma scan_heads_eq gs b lowest :
  scan_heads gs b lowest =
    (map popped gs, b - groups_bytes gs + groups_bytes (map popped gs),
     map (fun g => is_some (group_head g)) gs,
     fold_left (fun l h => match h with
                           | Some h => Some (match l with Some l => Z.min l (h_ts h) | None => h_ts h end)
                           | None => l
                           end) (map group_head gs) lowest).
Proof.
  revert b lowest. induction gs as [|g gs IH]; intros b lowest; cbn; [do 3 f_equal; lia|].
  rewrite head_eq, IH. cbn. do 3 f_equal. lia.
Qed.

(** The chosen head is one of the groups' heads and no other is lower; none only if there is
    no head. *)
Lemma best_spec hs i chosen :
  match best hs i chosen with
  | None => chosen = None /\ Forall (fun h => h = None) hs
  | Some (j, h) =>
      (chosen = Some (j, h) \/ exists k, hs !! k = Some (Some h) /\ j = (i + k)%nat) /\
      (forall k h', hs !! k = Some (Some h') -> h_ts h <= h_ts h') /\
      (forall c h', chosen = Some (c, h') -> h_ts h <= h_ts h')
  end.
Proof.
  revert i chosen. induction hs as [|o hs IH]; intros i chosen; cbn.
  - destruct chosen as [[j h]|]; [|done].
    split_and!; [by left|done|]. intros c h' [= -> ->]. lia.
  - match goal with |- context [best hs (S i) ?c] => set (chosen' := c) end.
    specialize (IH (S i) chosen'). destruct (best hs (S i) chosen') as [[j h]|].
    + destruct IH as (Hin & Hhs & Hch).
      assert (forall h0, o = Some h0 -> h_ts h <= h_ts h0) as Ho.
      { intros h0 ->. subst chosen'. destruct chosen as [[c b]|].
        - destruct (Z.ltb_spec (h_ts h0) (h_ts b)); [by eapply Hch|].
          specialize (Hch c b eq_refl). lia.
        - by eapply Hch. }
      split_and!.
      * destruct Hin as [Hin|(k & Hk & ->)]; [|right; exists (S k); split; [done|lia]].
        subst chosen'. destruct o as [h0|]; [|by left].
        destruct chosen as [[c b]|].
        -- destruct (h_ts h0 <? h_ts b); [|by left]. injection Hin as <- <-.
           right. exists 0%nat. split; [done|lia].
        -- injection Hin as <- <-. right. exists 0%nat. split; [done|lia].
      * intros [|k] h' Hk; cbn in Hk; [injection Hk as ->; auto|by eapply Hhs].
      * intros c h' ->. subst chosen'. destruct o as [h0|]; [|by eapply Hch].
        destruct (Z.ltb_spec (h_ts h0) (h_ts h')); [specialize (Ho h0 eq_refl); lia|by eapply Hch].
    + destruct IH as [Hc Hhs]. subst chosen'.
      destruct o as [h0|]; [destruct chosen as [[c b]|]; [destruct (_ <? _)|]; done|].
      split; [done|by constructor].
Qed.

Lemma held_back_false gs i chosen ts :
  held_back gs i chosen ts = false <->
  forall k g, gs !! k = Some g -> (i + k)%nat <> chosen -> ts <= wrap64 (g_scannedTs g + 1).
Proof.
  revert i. induction gs as [|g gs IH]; intros i; cbn; [split; [intros _ k ? Hk; by destruct k|done]|].
  rewrite orb_false_iff, andb_false_iff, negb_false_iff, Nat.eqb_eq, Z.ltb_ge, IH. split.
  - intros [H Ht] [|k] g' Hk Hne; cbn in Hk; [injection Hk as <-; destruct H; [lia|done]|].
    apply (Ht k g' Hk). lia.
  - intros H. split.
    + destruct (decide (i = chosen)); [by left|right]. apply (H 0%nat g); [done|lia].
    + intros k g' Hk Hne. apply (H (S k) g'); [done|lia].
Qed.

(** ** The invariant *)

Section Source.

(** A world that keeps the log service's contract, and where each group's stream starts. *)
Context {env : Env} `{!ScanContract env} (from : Z -> Z).

(** Everything the stream is to release of a group. *)
Definition stream (id : Z) : list LogRecord := records_from (sc_history id) (from id).

(** What the group's scan position leaves to fetch. *)
Definition unfetched (g : Group) : list LogRecord :=
  start_rest (sc_history (g_id g)) (sc_rest (g_id g)) (group_start g).

(** The group has released [rel]; [buf] is fetched and buffered, the rest is still to fetch and
    lies above [scannedTs]; nothing left is below [lastTs]. *)
Record group_ok (rel : list LogRecord) (lastTs : Z) (g : Group) (buf : list LogRecord) : Prop := {
  go_started : g_started g = true;
  go_split : stream (g_id g) = rel ++ buf ++ unfetched g;
  go_pages : exists rems, Forall2 page_holds (g_pages g) rems /\ concat rems = buf;
  go_issued : start_issued (sc_issued (g_id g)) (group_start g);
  go_scanned : Forall (fun r => g_scannedTs g < rec_ts r) (unfetched g);
  go_width : 0 <= g_scannedTs g < u64_max /\ from (g_id g) - 1 <= g_scannedTs g;
  go_last : Forall (fun r => lastTs <= rec_ts r) (buf ++ unfetched g);
}.

(** A call in flight scans from the group's position. *)
Definition call_ok (c : CdcScanClient) (g : Group) : Prop :=
  forall req, pending c (g_id g) = Some req -> rq_start req = group_start g.

Definition group_inv (rel : Z -> list LogRecord) (lastTs : Z) (c : CdcScanClient) (g : Group) : Prop :=
  (exists buf, group_ok (rel (g_id g)) lastTs g buf) /\ call_ok c g.

Record source_ok (rel : Z -> list LogRecord) (lastTs : Z) (s : CdcScanSource) : Prop := {
  so_ids : map g_id (s_groups s) = s_logGroupIds s;
  so_nodup : NoDup (s_logGroupIds s);
  so_client : client_ok env (s_logGroupIds s) (s_client s);
  so_groups : Forall (group_inv rel lastTs (s_client s)) (s_groups s);
  so_bytes : s_bufferedBytes s = groups_bytes (s_groups s);
}.

Lemma stream_wf id : wf_history (stream id).
Proof. apply records_from_wf, sc_wf. Qed.

Lemma group_ok_wf rel lastTs g buf :
  group_ok rel lastTs g buf -> wf_history (buf ++ unfetched g).
Proof.
  intros H. pose proof (stream_wf (g_id g)) as Hw. rewrite (go_split _ _ _ _ H) in Hw.
  by apply wf_history_app in Hw as [_ ?].
Qed.

Lemma call_ok_pending c c' g :
  pending c' (g_id g) = pending c (g_id g) -> call_ok c g -> call_ok c' g.
Proof. intros E H req. rewrite E. apply H. Qed.

(** Two clients that agree outside [ids] and grow in time. *)
Definition frame_on (ids : list Z) (c c' : CdcScanClient) : Prop :=
  (forall h, h ∉ ids -> c_groups c' !! h = c_groups c !! h) /\ (c_tick c <= c_tick c')%nat.

Lemma frame_on_step g c c' ids c'' :
  frame g c c' -> frame_on ids c' c'' -> frame_on (g :: ids) c c''.
Proof.
  intros (H & _ & Ht) [H' Ht']. split; [|lia]. intros h Hh.
  apply not_elem_of_cons in Hh as [? ?]. by rewrite H', H.
Qed.

Lemma group_inv_frame rel lastTs g0 c c' gs :
  frame g0 c c' -> g0 ∉ map g_id gs ->
  Forall (group_inv rel lastTs c) gs -> Forall (group_inv rel lastTs c') gs.
Proof.
  intros Hf Hn H. rewrite Forall_forall in H |- *. intros g Hg. destruct (H g Hg) as [Hb Hc].
  split; [done|]. eapply call_ok_pending; [|done]. eapply frame_pending; [done|].
  intros E. apply Hn. rewrite <- E. by apply list_elem_of_fmap_2.
Qed.

(** ** Popping exhausted pages keeps the invariant *)

Lemma popped_fields g :
  exists ps, popped g = set_pages ps g /\ ps = (head_pages (g_pages g) 0).1.2.
Proof.
  unfold popped, head. destruct (head_pages (g_pages g) 0) as [[h ps] b]. eauto.
Qed.

Lemma group_head_pages g : group_head g = (head_pages (g_pages g) 0).1.1.
Proof. unfold group_head, head. by destruct (head_pages (g_pages g) 0) as [[h ps] b]. Qed.

(** After popping, the front page holds the group's first buffered record. *)
Lemma popped_ok rel lastTs g buf :
  group_ok rel lastTs g buf ->
  group_ok rel lastTs (popped g) buf /\ group_head g = head_of <$> hd_error buf /\
  forall r buf', buf = r :: buf' ->
    exists p ps rem rems, g_pages (popped g) = p :: ps /\ page_holds p (r :: rem) /\
      Forall2 page_holds ps rems /\ buf' = rem ++ concat rems.
Proof.
  intros H. pose proof (group_ok_wf _ _ _ _ H) as Hw. apply wf_history_app in Hw as [Hw _].
  destruct (go_pages _ _ _ _ H) as (rems & Hp & Hc). subst buf.
  destruct (head_pages_spec _ _ Hp Hw) as (rems' & Hp' & Hc' & Hh & Hne).
  destruct (popped_fields g) as (ps & -> & ->). rewrite group_head_pages, Hh. split_and!; [|done|].
  - destruct H. split; try done. cbn. eauto.
  - intros r buf' E. cbn. rewrite <- Hc' in E.
    destruct Hp' as [|p rem ps rems' Hp1 Hps]; [done|].
    destruct rem as [|r' rem]; [done|]. cbn in E. injection E as -> <-. eauto 10.
Qed.

Lemma popped_inv rel lastTs c g : group_inv rel lastTs c g -> group_inv rel lastTs c (popped g).
Proof.
  intros [[buf H] Hc]. destruct (popped_ok _ _ _ _ H) as [H' _].
  destruct (popped_fields g) as (ps & E & _). rewrite E in *. split; [by exists buf|exact Hc].
Qed.

Lemma popped_id g : g_id (popped g) = g_id g.
Proof. by destruct (popped_fields g) as (ps & -> & _). Qed.

Lemma popped_scannedTs g : g_scannedTs (popped g) = g_scannedTs g.
Proof. by destruct (popped_fields g) as (ps & -> & _). Qed.

Lemma map_popped_id gs : map g_id (map popped gs) = map g_id gs.
Proof. rewrite map_map. apply map_ext, popped_id. Qed.

Lemma popped_source_ok rel lastTs s c b :
  source_ok rel lastTs s -> client_ok env (s_logGroupIds s) c ->
  (forall g, g ∈ s_groups s -> pending c (g_id g) = pending (s_client s) (g_id g)) ->
  b = groups_bytes (map popped (s_groups s)) ->
  source_ok rel lastTs
    (mkSource (s_options s) (s_logGroupIds s) c (map popped (s_groups s)) b (s_drained s)).
Proof.
  intros [] Hc Hp ->. split; cbn; [by rewrite map_popped_id|done|done| |done].
  rewrite Forall_forall in so_groups0 |- *. intros g Hg.
  apply list_elem_of_fmap in Hg as (g0 & -> & Hg0). apply popped_inv.
  destruct (so_groups0 g0 Hg0) as [Hb Hcall]. split; [done|].
  eapply call_ok_pending; [by apply Hp|done].
Qed.

(** ** Releasing a record *)

Definition rel_add (id : Z) (r : LogRecord) (rel : Z -> list LogRecord) : Z -> list LogRecord :=
  fun i => if i =? id then rel i ++ [r] else rel i.

Lemma ids_inj gs i j g h :
  NoDup (map g_id gs) -> gs !! i = Some g -> gs !! j = Some h -> g_id g = g_id h -> i = j.
Proof.
  intros Hn Hi Hj E. eapply NoDup_lookup; [exact Hn| |];
    change (@map Group Z) with (@fmap list _ Group Z); rewrite list_lookup_fmap;
    [by rewrite Hi|by rewrite Hj, E].
Qed.

Lemma fold_min_le {A} (f : A -> Z) l b x :
  x ∈ l -> fold_left (fun b y => Z.min b (f y)) l b <= f x.
Proof.
  assert (forall l b, fold_left (fun b y => Z.min b (f y)) l b <= b) as Hb.
  { induction l0 as [|y l0 IH]; intros b0; cbn; [lia|]. specialize (IH (Z.min b0 (f y))). lia. }
  revert b. induction l as [|y l IH]; intros b Hx; [by apply not_elem_of_nil in Hx|]. cbn.
  apply elem_of_cons in Hx as [<-|Hx]; [|by apply IH]. specialize (Hb l (Z.min b (f x))). lia.
Qed.

Lemma emitBound_le s g : g ∈ s_groups s -> emitBound s <= g_scannedTs g.
Proof. apply fold_min_le. Qed.

(** The chosen group after the release. *)
Lemma release_ok rel lastTs g r buf :
  group_ok rel lastTs (popped g) (r :: buf) -> group_ok rel lastTs g (r :: buf) ->
  exists sr g', release (popped g) (stream_of r) = Ok (sr, g') /\
    sr_logGroupId sr = g_id g /\ sr_record sr = Ok r /\ g_id g' = g_id g /\
    group_start g' = group_start g /\ pages_bytes (g_pages g') = pages_bytes (g_pages (popped g)) /\
    group_ok (rel ++ [r]) (rec_ts r) g' buf.
Proof.
  intros Hp H. destruct (popped_ok _ _ _ _ H) as (_ & _ & Hfront).
  destruct (Hfront r buf eq_refl) as (p & ps & rem & rems & E & Hr & Hps & ->).
  unfold release. rewrite E. eexists _, _. split; [reflexivity|].
  split_and!; [apply popped_id|by eapply released_record|apply popped_id| | |].
  - by destruct (popped_fields g) as (? & -> & _).
  - cbn. by destruct (stream_of r).
  - pose proof (group_ok_wf _ _ _ _ Hp) as [_ Hs]. destruct Hp. split; cbn; try done.
    + rewrite go_split0. by rewrite <- app_assoc.
    + exists (rem :: rems). split; [|done]. constructor; [by apply release_page_holds|done].
    + by apply sorted_cons_ts in Hs.
Qed.

(** Another group when a record at [ts] goes out. *)
Lemma other_ok rel lastTs g buf ts :
  group_ok rel lastTs g buf ->
  (forall r, hd_error buf = Some r -> ts <= rec_ts r) ->
  ts <= wrap64 (g_scannedTs g + 1) ->
  group_ok rel ts g buf.
Proof.
  intros H Hb Hu. pose proof (group_ok_wf _ _ _ _ H) as Hw. destruct H. split; try done.
  assert (wrap64 (g_scannedTs g + 1) = g_scannedTs g + 1) as E.
  { unfold wrap64, u64_max in *. apply Z.mod_small. lia. }
  rewrite E in Hu. apply Forall_app. split.
  - destruct buf as [|r buf]; [done|]. specialize (Hb r eq_refl).
    constructor; [done|]. apply wf_history_app in Hw as [[_ Hs] _].
    eapply Forall_impl; [by apply sorted_cons_ts|]. cbn. lia.
  - eapply Forall_impl; [done|]. cbn. lia.
Qed.

Lemma groups_bytes_insert gs i g g' :
  gs !! i = Some g -> pages_bytes (g_pages g') = pages_bytes (g_pages g) ->
  groups_bytes (<[i := g']> gs) = groups_bytes gs.
Proof.
  revert i. induction gs as [|x gs IH]; intros [|i] Hi E; cbn in *; [done|done| |].
  - injection Hi as ->. lia.
  - by rewrite IH.
Qed.

Lemma map_id_insert gs i g g' :
  gs !! i = Some g -> g_id g' = g_id g -> map g_id (<[i := g']> gs) = map g_id gs.
Proof.
  revert i. induction gs as [|x gs IH]; intros [|i] Hi E; cbn in *; [done|done| |].
  - injection Hi as ->. by rewrite E.
  - by rewrite IH.
Qed.

Lemma group_lookup rel lastTs s i g :
  source_ok rel lastTs s -> s_groups s !! i = Some g ->
  exists buf, group_ok (rel (g_id g)) lastTs g buf /\ call_ok (s_client s) g.
Proof.
  intros H Hi. pose proof (so_groups _ _ _ H) as Hf. rewrite Forall_lookup in Hf.
  destruct (Hf i g Hi) as [[buf ?] ?]. eauto.
Qed.

(** The state after the chosen group [i] releases [r], the lowest head, not held back. *)
Lemma released_source_ok rel lastTs s i g g' r buf :
  source_ok rel lastTs s -> s_groups s !! i = Some g ->
  g_id g' = g_id g -> group_start g' = group_start g ->
  pages_bytes (g_pages g') = pages_bytes (g_pages g) ->
  group_ok (rel (g_id g) ++ [r]) (rec_ts r) g' buf ->
  (forall k h buf, s_groups s !! k = Some h -> group_ok (rel (g_id h)) lastTs h buf -> k <> i ->
     group_ok (rel (g_id h)) (rec_ts r) h buf) ->
  source_ok (rel_add (g_id g) r rel) (rec_ts r) (with_groups s (<[i := g']> (s_groups s))).
Proof.
  intros H Hi Eid Est Eb Hg' Hoth. pose proof (so_ids _ _ _ H) as Hids.
  pose proof (so_nodup _ _ _ H) as Hnd.
  split; cbn; [by rewrite (map_id_insert _ _ g)|done|by apply H| |
    rewrite (groups_bytes_insert _ _ g) by done; apply H].
  rewrite Forall_lookup. intros k h Hk. apply list_lookup_insert_Some in Hk.
  destruct Hk as [(<- & <- & _)|[Hne Hk]].
  - destruct (group_lookup _ _ _ _ _ H Hi) as (b & _ & Hc). split.
    + exists buf. unfold rel_add. by rewrite Eid, Z.eqb_refl.
    + intros req. rewrite Eid, Est. apply Hc.
  - destruct (group_lookup _ _ _ _ _ H Hk) as (b & Hb & Hc). split; [|done].
    exists b. unfold rel_add. destruct (Z.eqb_spec (g_id h) (g_id g)) as [E|_].
    + rewrite <- Hids in Hnd. destruct Hne. by eapply ids_inj.
    + by eapply Hoth.
Qed.

(** No record is left in a buffer at or below the emit bound. *)
Definition drained_to (rel : Z -> list LogRecord) (lastTs : Z) (s : CdcScanSource) : Prop :=
  forall g buf r, g ∈ s_groups s -> group_ok (rel (g_id g)) lastTs g buf -> r ∈ buf ->
    emitBound s < rec_ts r.

(** The state [_pickReleasable] leaves when it releases nothing. *)
Definition popped_source (s : CdcScanSource) : CdcScanSource :=
  with_buffers s (map popped (s_groups s)) (groups_bytes (map popped (s_groups s))).

Lemma popped_source_inv rel lastTs s :
  source_ok rel lastTs s -> source_ok rel lastTs (popped_source s).
Proof. intros H. apply (popped_source_ok rel lastTs s (s_client s)); [done|apply H|done|done]. Qed.

Lemma map_lookup_popped s i g :
  map popped (s_groups s) !! i = Some g ->
  exists g0, s_groups s !! i = Some g0 /\ g = popped g0.
Proof.
  change (@map Group Group) with (@fmap list _ Group Group). intros H.
  apply list_lookup_fmap_Some in H as (g0 & -> & ?). eauto.
Qed.

Lemma group_head_lookup s i :
  map group_head (s_groups s) !! i = group_head <$> (s_groups s !! i).
Proof. apply (list_lookup_fmap group_head). Qed.

Lemma group_ok_buf rel lastTs g buf1 buf2 :
  group_ok rel lastTs g buf1 -> group_ok rel lastTs g buf2 -> buf1 = buf2.
Proof.
  intros H1 H2. pose proof (go_split _ _ _ _ H1) as E. rewrite (go_split _ _ _ _ H2) in E.
  apply app_inv_head in E. by apply app_inv_tail in E.
Qed.

(** Nothing released: every buffered record lies above the emit bound. *)
Lemma pick_none_drained rel lastTs s chosen :
  source_ok rel lastTs s ->
  best (map group_head (s_groups s)) 0 None = chosen ->
  (forall i h, chosen = Some (i, h) -> held_back (map popped (s_groups s)) 0 i (h_ts h) = true) ->
  drained_to rel lastTs (popped_source s).
Proof.
  intros H Hbest Hheld g buf r Hg Hbuf Hr. cbn in Hg.
  apply list_elem_of_lookup in Hg as [k Hk]. apply map_lookup_popped in Hk as (g0 & Hk & ->).
  destruct (group_lookup _ _ _ _ _ H Hk) as (b0 & Hb0 & _).
  destruct (popped_ok _ _ _ _ Hb0) as (Hb0' & Hhead & _). rewrite popped_id in Hbuf.
  rewrite (group_ok_buf _ _ _ _ _ Hbuf Hb0') in Hr.
  destruct b0 as [|r0 b0]; [by apply not_elem_of_nil in Hr|].
  assert (rec_ts r0 <= rec_ts r) as Hle.
  { pose proof (group_ok_wf _ _ _ _ Hb0) as Hw. apply wf_history_app in Hw as [[_ Hs] _].
    apply elem_of_cons in Hr as [->|Hr]; [lia|]. apply sorted_cons_ts in Hs.
    by apply (proj1 (Forall_forall _ _) Hs). }
  assert (map group_head (s_groups s) !! k = Some (Some (head_of r0))) as Hhk.
  { by rewrite group_head_lookup, Hk; cbn; rewrite Hhead. }
  pose proof (best_spec (map group_head (s_groups s)) 0 None) as Hspec. rewrite Hbest in Hspec.
  destruct chosen as [[i h]|].
  - destruct Hspec as (_ & Hmin & _). specialize (Hmin k _ Hhk). cbn in Hmin.
    specialize (Hheld i h eq_refl). apply not_false_iff_true in Hheld.
    rewrite held_back_false in Hheld.
    destruct (decide (emitBound (popped_source s) < rec_ts r)) as [|Hn]; [done|].
    exfalso. apply Hheld. intros j g' Hj _. cbn in Hj.
    pose proof (emitBound_le (popped_source s) g' (list_elem_of_lookup_2 _ _ _ Hj)) as Hb.
    destruct (group_lookup _ _ _ _ _ (popped_source_inv _ _ _ H) Hj) as (? & Hg' & _).
    pose proof (go_width _ _ _ _ Hg'). unfold wrap64, u64_max in *. rewrite Z.mod_small by lia. lia.
  - destruct Hspec as [_ Hall]. rewrite Forall_lookup in Hall. by apply Hall in Hhk.
Qed.

Lemma pickReleasable_spec rel lastTs s :
  source_ok rel lastTs s ->
  exists o s', pickReleasable s = Ok (o, s') /\
    s_client s' = s_client s /\ s_options s' = s_options s /\ s_logGroupIds s' = s_logGroupIds s /\
    match o with
    | None => source_ok rel lastTs s' /\ drained_to rel lastTs s'
    | Some sr => exists r, sr_record sr = Ok r /\ lastTs <= rec_ts r /\
        sr_logGroupId sr ∈ s_logGroupIds s /\
        source_ok (rel_add (sr_logGroupId sr) r rel) (rec_ts r) s'
    end.
Proof.
  intros H. unfold pickReleasable. rewrite choose_eq, (so_bytes _ _ _ H).
  replace (groups_bytes (s_groups s) - groups_bytes (s_groups s) + groups_bytes (map popped (s_groups s)))
    with (groups_bytes (map popped (s_groups s))) by lia.
  fold (popped_source s). pose proof (popped_source_inv _ _ _ H) as Hp.
  pose proof (best_spec (map group_head (s_groups s)) 0 None) as Hspec.
  destruct (best (map group_head (s_groups s)) 0 None) as [[i h]|] eqn:Hbest.
  2: { eexists _, _. split; [reflexivity|]. split_and!; [done|done|done|done|].
       by eapply pick_none_drained. }
  destruct (held_back _ 0 i (h_ts h)) eqn:Hheld.
  { eexists _, _. split; [reflexivity|]. split_and!; [done|done|done|done|].
    eapply pick_none_drained; [done|done|]. congruence. }
  destruct Hspec as ([?|(k & Hk & ->)] & Hmin & _); [done|]. cbn [Nat.add] in *.
  rewrite group_head_lookup in Hk. destruct (s_groups s !! k) as [g|] eqn:Hg; [|done].
  destruct (group_lookup _ _ _ _ _ H Hg) as (buf & Hbuf & Hc).
  destruct (popped_ok _ _ _ _ Hbuf) as (Hbuf' & Hhead & _).
  cbn in Hk. injection Hk as Hk. rewrite Hhead in Hk.
  destruct buf as [|r buf]; [done|]. injection Hk as <-. cbn [head_of h_ts h_stream] in *.
  assert (map popped (s_groups s) !! k = Some (popped g)) as Hpg.
  { change (@map Group Group) with (@fmap list _ Group Group). by rewrite list_lookup_fmap, Hg. }
  destruct (release_ok _ _ _ _ _ Hbuf' Hbuf) as (sr & g' & Hrel & Esr & Hsr & Eid & Est & Eb & Hg').
  unfold at_index. rewrite Hpg. cbn. rewrite Hrel. cbn.
  eexists _, _. split; [reflexivity|]. split_and!; [done|done|done|]. exists r.
  split_and!; [done| | |].
  - by apply (Forall_inv (go_last _ _ _ _ Hbuf)).
  - rewrite Esr, <- (so_ids _ _ _ H). apply list_elem_of_fmap_2. by eapply list_elem_of_lookup_2.
  - rewrite Esr, <- (popped_id g).
    eapply (released_source_ok rel lastTs (popped_source s) k (popped g) g' r buf); try done.
    + by rewrite popped_id.
    + by destruct (popped_fields g) as (? & -> & _).
    + by rewrite popped_id.
    + intros j h b Hj Hb Hne. eapply other_ok; [done| |].
      * intros r' Hr'. apply map_lookup_popped in Hj as (h0 & Hj & ->).
        destruct (group_lookup _ _ _ _ _ H Hj) as (b0 & Hb0 & _).
        destruct (popped_ok _ _ _ _ Hb0) as (Hb0' & Hh0 & _).
        rewrite popped_id in Hb. rewrite (group_ok_buf _ _ _ _ _ Hb Hb0') in Hr'.
        apply (Hmin j (head_of r')). rewrite group_head_lookup, Hj. cbn. by rewrite Hh0, Hr'.
      * apply (proj1 (held_back_false _ _ _ _) Hheld j h Hj). lia.
Qed.

(** ** Admitting a page *)

Lemma pauseIfIdleEarly_spec ids o g cp rs bound c :
  client_ok env ids c -> g_id g ∈ ids ->
  exists b x c', pauseIfIdleEarly env o g cp rs bound c = Ok (b, set_idleBackoff x g, c') /\
    client_ok env ids c' /\ frame (g_id g) c c' /\ pending c' (g_id g) = pending c (g_id g).
Proof.
  intros Hc Hg. unfold pauseIfIdleEarly. destruct (_ || _).
  { eexists _, _, _. split; [reflexivity|]. by split_and!. }
  destruct (_ && _).
  { exists false, (g_idleBackoff g), c. split; [by destruct g|]. by split_and!. }
  unfold now. destruct (deferUntil_spec env ids (now env c).2 (g_id g)
    (now_at env (c_tick c) + g_idleBackoff g)) as (c' & E & Hok & Hf & Hp);
    [by apply client_ok_now|done|].
  unfold now in E. cbn in E. rewrite E. cbn. eexists _, _, _. split; [reflexivity|].
  split_and!; [done| |done]. destruct Hf as (H1 & H2 & H3). cbn in *. split_and!; [done|done|lia].
Qed.

Lemma no_records page : data_of page = [] -> ddl_of page = [] -> page = [].
Proof. by destruct page as [|[] page]. Qed.

(** What [page_scannedTs] returns is the old bound, a record's timestamp less one or, for an
    exhausted page, the page's bound. *)
Lemma page_scannedTs_cases req rs h rest page scanned :
  valid_page h rest req rs page ->
  let t := page_scannedTs rs scanned in
  scanned <= t /\
  (t = scanned \/ (exists r, r ∈ page /\ t = rec_ts r - 1) \/
   (rs_has_more rs = false /\ t = rs_arrival_complete_ts rs)).
Proof.
  intros [Hd Hl _ _ _ _ _]. unfold page_scannedTs. rewrite Hd, Hl.
  destruct (rs_has_more rs); cbn.
  2: { split; [lia|]. destruct (Z.max_spec scanned (rs_arrival_complete_ts rs)) as [[_ ->]|[_ ->]]; auto. }
  assert (forall t, (t = 0 \/ exists r, r ∈ page /\ t = rec_ts r) ->
    scanned <= (if 0 <? t then Z.max scanned (t - 1) else scanned) /\
    ((if 0 <? t then Z.max scanned (t - 1) else scanned) = scanned \/
     (exists r, r ∈ page /\ (if 0 <? t then Z.max scanned (t - 1) else scanned) = rec_ts r - 1) \/
     (true = false /\ (if 0 <? t then Z.max scanned (t - 1) else scanned) = rs_arrival_complete_ts rs)))
    as Hcases.
  { intros t [->|(r & Hr & ->)]; cbn; [split; [lia|by left]|].
    destruct (0 <? rec_ts r); [|split; [lia|by left]]. split; [lia|].
    destruct (Z.max_spec scanned (rec_ts r - 1)) as [[_ ->]|[_ ->]]; eauto. }
  assert (forall d, last (data_of page) = Some d -> LData d ∈ page) as Hdp.
  { intros d Hlast. apply data_of_In. by apply last_Some_elem_of. }
  assert (forall d, last (ddl_of page) = Some d -> LDdl d ∈ page) as Hlp.
  { intros d Hlast. apply ddl_of_In. by apply last_Some_elem_of. }
  apply Hcases. destruct (last (ddl_of page)) as [l|]; destruct (last (data_of page)) as [d|].
  - destruct (Z.max_spec (dr_commit_ts d) (lr_ddl_ts l)) as [[_ ->]|[_ ->]]; right;
      [exists (LDdl l)|exists (LData d)]; auto.
  - destruct (Z.max_spec 0 (lr_ddl_ts l)) as [[_ ->]|[_ ->]]; [|by left].
    right. exists (LDdl l). auto.
  - right. exists (LData d). auto.
  - by left.
Qed.

(** A page of the group's position extends the buffer and moves the position past it. *)
Lemma admitted_ok rel lastTs g buf req rs page b x :
  group_ok rel lastTs g buf ->
  rq_start req = group_start g ->
  valid_page (sc_history (g_id g)) (sc_rest (g_id g)) req rs page ->
  sc_issued (g_id g) (rs_continuation rs) ->
  group_ok rel lastTs
    (set_idleBackoff x (set_pages
       (if negb (bool_decide (rs_data rs = [])) || negb (bool_decide (rs_ddl rs = []))
        then g_pages g ++ [mkPage rs 0 0 b] else g_pages g)
       (set_scannedTs (page_scannedTs rs (g_scannedTs g))
          (set_continuation (rs_continuation rs)
             (set_arrivalCompleteTs (Z.max (g_arrivalCompleteTs g) (rs_arrival_complete_ts rs)) g)))))
    (buf ++ page).
Proof.
  intros H Hst Hv Hi. pose proof (group_ok_wf _ _ _ _ H) as Hw.
  pose proof (page_scannedTs_cases _ _ _ _ _ (g_scannedTs g) Hv) as [Hge Hcases].
  destruct H. pose proof (vp_cont _ _ _ _ _ Hv) as Hcont. rewrite Hst in Hcont.
  unfold unfetched in *. rewrite Hcont in *.
  set (rest := sc_rest (g_id g) (rs_continuation rs)) in *.
  assert (wf_history (page ++ rest)) as Hw' by (by apply wf_history_app in Hw as [_ ?]).
  split; cbn; [done| | |done| | |].
  - by rewrite <- app_assoc.
  - destruct go_pages0 as (rems & Hp & Hc).
    destruct (bool_decide_reflect (rs_data rs = [])) as [E1|]; cbn;
      [destruct (bool_decide_reflect (rs_ddl rs = [])) as [E2|]; cbn|].
    1: { rewrite (vp_data _ _ _ _ _ Hv) in E1. rewrite (vp_ddl _ _ _ _ _ Hv) in E2.
         rewrite (no_records page) by done. rewrite app_nil_r. eauto. }
    all: exists (rems ++ [page]); rewrite concat_app, Hc; cbn; rewrite app_nil_r;
      split; [|done]; apply Forall2_app; [done|]; constructor; [|constructor];
      split; cbn; rewrite drop_0; apply Hv.
  - apply Forall_app in go_scanned0 as [_ Hs]. destruct Hcases as [->|[(r & Hr & ->)|[Hm ->]]].
    + done.
    + apply Forall_forall. intros y Hy. pose proof (wf_history_le _ _ _ _ Hw' Hr Hy). lia.
    + by apply (vp_done _ _ _ _ _ Hv).
  - destruct Hcases as [->|[(r & Hr & E)|[Hm E]]]; [done| |].
    + apply proj1 in Hw'. apply Forall_app in Hw' as [Hw' _].
      apply (proj1 (Forall_forall _ _) Hw') in Hr. unfold wf_record in Hr. lia.
    + pose proof (vp_width _ _ _ _ _ Hv). lia.
  - by rewrite <- app_assoc.
Qed.

Lemma admit_page_spec ids o rel lastTs g buf c cp rs b :
  client_ok env ids c -> g_id g ∈ ids -> group_ok rel lastTs g buf ->
  pending c (g_id g) = None ->
  cp_response cp = Some rs -> rs_status rs = Success -> answered env (g_id g) (cp_request cp) rs ->
  rq_start (cp_request cp) = group_start g ->
  exists g' c', admit_page env o g cp c b
      = Ok (g', c', b + pages_bytes (g_pages g') - pages_bytes (g_pages g)) /\
    client_ok env ids c' /\ frame (g_id g) c c' /\ pending c' (g_id g) = None /\
    g_id g' = g_id g /\ exists buf', group_ok rel lastTs g' buf'.
Proof.
  intros Hc Hid Hg Hp Hrs Hsuc (k & a & Ha & Haf & <-) Hst.
  assert (start_issued (sc_issued (g_id g)) (rq_start (cp_request cp))) as Hi
    by (rewrite Hst; apply Hg).
  destruct (sc_page k (g_id g) _ a Ha Haf Hsuc Hi) as (page & Hv & Hci).
  assert (forall g2 b2, g_id g2 = g_id g ->
    (forall x, group_ok rel lastTs (set_idleBackoff x g2) (buf ++ page)) ->
    b2 = b + pages_bytes (g_pages g2) - pages_bytes (g_pages g) ->
    exists g' c',
      rbind (pauseIfIdleEarly env o g2 cp (an_response a) (g_arrivalCompleteTs g) c)
        (fun '(_, g, c) => Ok (g, c, b2))
      = Ok (g', c', b + pages_bytes (g_pages g') - pages_bytes (g_pages g)) /\
      client_ok env ids c' /\ frame (g_id g) c c' /\ pending c' (g_id g) = None /\
      g_id g' = g_id g /\ exists buf', group_ok rel lastTs g' buf') as Hgen.
  { intros g2 b2 Eid Hok ->.
    destruct (pauseIfIdleEarly_spec ids o g2 cp (an_response a) (g_arrivalCompleteTs g) c)
      as (p & x & c' & E & Hc' & Hf & Hp'); [done|by rewrite Eid|].
    rewrite E. cbn. rewrite Eid in Hf, Hp'. rewrite Hp in Hp'.
    exists (set_idleBackoff x g2), c'. split_and!; try done. by exists (buf ++ page). }
  pose proof (fun x => admitted_ok rel lastTs g buf _ _ page (ByteSizeLong env (an_response a)) x
    Hg Hst Hv Hci) as Hok.
  unfold admit_page. rewrite Hrs. destruct (negb (bool_decide (rs_data (an_response a) = [])) || _).
  - apply Hgen; [done|exact Hok|]. cbn. rewrite pages_bytes_app. cbn. lia.
  - apply Hgen; [done|exact Hok|]. cbn. lia.
Qed.

(** ** Collecting completions *)

(** The errors a cursor reports: its position is no longer retained, or the log service keeps
    no history. *)
Definition cursor_error (e : ErrorCode) : Prop :=
  e = ChangeStreamHistoryLost \/ e = CommandNotSupported.

Lemma collect_spec ids o rel lastTs gs c b :
  client_ok env ids c -> (forall g, g ∈ gs -> g_id g ∈ ids) -> NoDup (map g_id gs) ->
  Forall (group_inv rel lastTs c) gs ->
  match collect env o gs c b with
  | Err e => cursor_error e
  | Ok (gs', c', b') =>
      client_ok env ids c' /\ frame_on (map g_id gs) c c' /\ map g_id gs' = map g_id gs /\
      Forall (group_inv rel lastTs c') gs' /\ b' = b + groups_bytes gs' - groups_bytes gs
  end.
Proof.
  revert c b. induction gs as [|g gs IH]; intros c b Hc Hin Hnd Hinv; cbn.
  { split_and!; [done|by split|done|done|lia]. }
  assert (g_id g ∈ ids) as Hid by (apply Hin; left).
  apply NoDup_cons in Hnd as [Hn Hnd]. apply Forall_cons in Hinv as [[[buf Hg] Hcall] Hinv].
  destruct (deliver_spec env ids c (g_id g) Hc) as (Hc0 & Hf0 & Hp0).
  destruct (takeCompleted_spec env ids (deliver env c (g_id g)) (g_id g) Hc0 Hid)
    as (cp & c1 & E1 & Hc1 & Hf1 & Hcp). rewrite E1. cbn.
  pose proof (frame_trans _ _ _ _ Hf0 Hf1) as Hf.
  assert (forall g' c2 b2, client_ok env ids c2 -> frame (g_id g) c1 c2 -> g_id g' = g_id g ->
    group_inv rel lastTs c2 g' -> b2 = b + pages_bytes (g_pages g') - pages_bytes (g_pages g) ->
    match rbind (collect env o gs c2 b2) (fun '(gs', c, b) => Ok (g' :: gs', c, b)) with
    | Err e => cursor_error e
    | Ok (gs', c', b') =>
        client_ok env ids c' /\ frame_on (g_id g :: map g_id gs) c c' /\
        map g_id gs' = g_id g :: map g_id gs /\ Forall (group_inv rel lastTs c') gs' /\
        b' = b + groups_bytes gs' - (pages_bytes (g_pages g) + groups_bytes gs)
    end) as Hgo.
  { intros g' c2 b2 Hc2 Hf2 Eid Hg' ->.
    pose proof (frame_trans _ _ _ _ Hf Hf2) as Hf3.
    specialize (IH c2 (b + pages_bytes (g_pages g') - pages_bytes (g_pages g)) Hc2
      ltac:(intros; apply Hin; by right) Hnd ltac:(by eapply group_inv_frame)).
    destruct (collect env o gs c2 _) as [[[gs' c'] b']|]; [|done]. cbn.
    destruct IH as (H1 & H2 & H3 & H4 & H5).
    split_and!; [done|by eapply frame_on_step|by rewrite Eid, H3| |cbn; lia].
    constructor; [|done]. destruct Hg' as [? Hg']. split; [done|].
    eapply call_ok_pending; [|done]. unfold pending. rewrite (proj1 H2); [done|]. by rewrite Eid. }
  destruct cp as [cp|]; [|apply (Hgo g c1 b); [done|apply frame_refl|done| |lia]].
  - destruct Hcp as (Hnone & Hreq & Hok). rewrite Hp0 in Hreq.
    destruct (cp_status cp) eqn:Est; [| |by left|by right].
    + destruct (Hok eq_refl) as (rs & Hrs & Hsuc & Hans).
      destruct (admit_page_spec ids o _ lastTs g buf c1 cp rs b Hc1 Hid Hg Hnone Hrs Hsuc Hans (Hcall _ Hreq))
        as (g' & c2 & E2 & Hc2 & Hf2 & Hp2 & Eid & Hbuf). rewrite E2. cbn.
      apply Hgo; [done|done|done| |done].
      split; [by rewrite Eid|]. intros req. by rewrite Eid, Hp2.
    + apply Hgo; [done|apply frame_refl|done| |lia]. split; [by exists buf|].
      intros req. by rewrite Hnone.
  - subst c1. split; [by exists buf|]. by eapply call_ok_pending.
Qed.

Lemma collectCompletions_spec rel lastTs s :
  source_ok rel lastTs s ->
  match collectCompletions env s with
  | Err e => cursor_error e
  | Ok s' => source_ok rel lastTs s' /\ s_options s' = s_options s /\
      s_logGroupIds s' = s_logGroupIds s /\ (c_tick (s_client s) <= c_tick (s_client s'))%nat
  end.
Proof.
  intros [Hids Hnd Hc Hg Hb]. unfold collectCompletions.
  pose proof (collect_spec (s_logGroupIds s) (s_options s) rel lastTs (s_groups s) (s_client s)
    (s_bufferedBytes s) Hc) as H. rewrite Hids in H.
  destruct (collect _ _ _ _ _) as [[[gs' c'] b']|].
  - destruct H as (H1 & H2 & H3 & H4 & H5); [|done|done|].
    { intros g Hin. rewrite <- Hids. by apply list_elem_of_fmap_2. }
    cbn. split_and!; [|done|done|apply H2]. split; cbn; try done. lia.
  - cbn. apply H; [|done|done]. intros g Hin. rewrite <- Hids. by apply list_elem_of_fmap_2.
Qed.

(** ** Issuing scans *)

Lemma frame_on_head g ids c c' : frame g c c' -> frame_on (g :: ids) c c'.
Proof. intros H. eapply frame_on_step; [done|by split]. Qed.

Lemma frame_on_cons g ids c c' : frame_on ids c c' -> frame_on (g :: ids) c c'.
Proof. intros [H Ht]. split; [|done]. intros h Hh. apply H. set_solver. Qed.

Lemma frame_on_pending ids c c' g : frame_on ids c c' -> g ∉ ids -> pending c' g = pending c g.
Proof. intros [H _] Hn. unfold pending. by rewrite H. Qed.

Lemma frame_on_readyAt ids c c' g : frame_on ids c c' -> g ∉ ids -> readyAt c' g = readyAt c g.
Proof. intros [H _] Hn. unfold readyAt, client_group. by rewrite H. Qed.

Lemma scanRequest_spec ids o g deadline c :
  client_ok env ids c ->
  rq_start (scanRequest env o g deadline c).1 = group_start g /\
  client_ok env ids (scanRequest env o g deadline c).2 /\
  (forall h, c_groups (scanRequest env o g deadline c).2 !! h = c_groups c !! h) /\
  frame (g_id g) c (scanRequest env o g deadline c).2.
Proof.
  intros Hc. apply client_ok_now in Hc. unfold scanRequest, waitMs, now in *.
  destruct (_ <=? 0); cbn;
    (split_and!; [done|exact Hc|done|split_and!; [done|done|cbn; lia]]).
Qed.

(** Issuing the group's own scan. *)
Lemma scan_issued ids o rel lastTs g deadline c :
  client_ok env ids c -> g_id g ∈ ids -> pending c (g_id g) = None ->
  group_inv rel lastTs c g ->
  let rq := (scanRequest env o g deadline c).1 in
  exists c', issue env (scanRequest env o g deadline c).2 (g_id g) rq (rq_wait_ms rq + rpcSlack o) = Ok c' /\
    client_ok env ids c' /\ frame (g_id g) c c' /\ is_Some (pending c' (g_id g)) /\
    group_inv rel lastTs c' g.
Proof.
  intros Hc Hid Hp [Hg _]. cbn. destruct (scanRequest_spec ids o g deadline c Hc) as (Hst & Hc1 & Hsame & Hf1).
  destruct (scanRequest env o g deadline c) as [req c1]. cbn in *.
  destruct (issue_spec env ids c1 (g_id g) req (rq_wait_ms req + rpcSlack o) Hc1 Hid)
    as (c2 & E & Hc2 & Hf2 & Hp2 & _).
  { unfold pending. by rewrite Hsame. }
  exists c2. split_and!; [done|done|by eapply frame_trans|by rewrite Hp2|].
  split; [done|]. intros req'. rewrite Hp2. by intros [= <-].
Qed.

(** Whether the group must be fetched now: it blocks a buffered record, or holds none itself
    and the buffer cap leaves room. *)
Lemma issue_loop_spec ids o deadline t buffered lowest rel lastTs gs have c :
  client_ok env ids c -> (forall g, g ∈ gs -> g_id g ∈ ids) -> NoDup (map g_id gs) ->
  length have = length gs ->
  Forall (group_inv rel lastTs c) gs ->
  exists c', issue_loop env o deadline t buffered lowest gs have c = Ok c' /\
    client_ok env ids c' /\ frame_on (map g_id gs) c c' /\ Forall (group_inv rel lastTs c') gs /\
    forall g, g ∈ gs -> lags g lowest = true ->
      is_Some (pending c' (g_id g)) \/ exists r, readyAt c (g_id g) = Ok r /\ t < r.
Proof.
  revert have c. induction gs as [|g gs IH]; intros [|h have] c Hc Hin Hnd Hlen Hinv; cbn; try done.
  { exists c. split_and!; [done|done|by split|done|]. by intros g Hg%not_elem_of_nil. }
  assert (g_id g ∈ ids) as Hid by (apply Hin; left).
  apply NoDup_cons in Hnd as [Hn Hnd]. apply Forall_cons in Hinv as [Hg Hinv].
  (* what is left to do once the group itself has been dealt with *)
  assert (forall c1, client_ok env ids c1 -> frame (g_id g) c c1 -> group_inv rel lastTs c1 g ->
    (lags g lowest = true ->
      is_Some (pending c1 (g_id g)) \/ exists r, readyAt c (g_id g) = Ok r /\ t < r) ->
    exists c', issue_loop env o deadline t buffered lowest gs have c1 = Ok c' /\
      client_ok env ids c' /\ frame_on (g_id g :: map g_id gs) c c' /\
      Forall (group_inv rel lastTs c') (g :: gs) /\
      forall g', g' ∈ g :: gs -> lags g' lowest = true ->
        is_Some (pending c' (g_id g')) \/ exists r, readyAt c (g_id g') = Ok r /\ t < r) as Hgo.
  { intros c1 Hc1 Hf1 Hg1 Hl1.
    destruct (IH have c1) as (c' & E & Hc' & Hf' & Hinv' & Hl'); try done.
    { intros; apply Hin; by right. } { cbn in Hlen; lia. } { by eapply group_inv_frame. }
    exists c'. split_and!; [done|done|by eapply frame_on_step| |].
    - constructor; [|done]. destruct Hg1. split; [done|].
      eapply call_ok_pending; [by eapply frame_on_pending|done].
    - intros g' Hg' Hlag. apply elem_of_cons in Hg' as [->|Hg'].
      + destruct (Hl1 Hlag) as [Hp|]; [left|by right]. by rewrite (frame_on_pending _ _ _ _ Hf').
      + destruct (Hl' g' Hg' Hlag) as [|(r & Hr & Hlt)]; [by left|right]. exists r.
        split; [|done]. rewrite <- Hr. unfold readyAt, client_group. rewrite (proj1 Hf1); [done|].
        intros E'. apply Hn. rewrite <- E'. by apply list_elem_of_fmap_2. }
  rewrite (inFlight_spec env ids) by done. destruct (readyAt_spec env ids c _ Hc Hid) as [r Hr].
  rewrite Hr. cbn.
  destruct (is_some (pending c (g_id g)) || (t <? r)) eqn:Ebusy.
  { apply Hgo; [done|apply frame_refl|done|]. intros _. apply orb_true_iff in Ebusy as [Eb|Eb].
    - left. by destruct (pending c (g_id g)).
    - right. exists r. split; [done|lia]. }
  apply orb_false_iff in Ebusy as [Eb _].
  assert (pending c (g_id g) = None) as Hpn by (by destruct (pending c (g_id g))).
  destruct (lags g lowest) eqn:Elag; cbn.
  2: { destruct h; cbn; [apply Hgo; [done|apply frame_refl|done|done]|].
       destruct (bufferBytes o <=? _); [apply Hgo; [done|apply frame_refl|done|done]|].
       rewrite (surjective_pairing (scanRequest _ _ _ _ _)).
       destruct (scan_issued ids o rel lastTs g deadline c) as (c2 & -> & ? & ? & ? & ?); [done..| |].
       all: cbn; auto. }
  rewrite andb_false_r, (surjective_pairing (scanRequest _ _ _ _ _)).
  destruct (scan_issued ids o rel lastTs g deadline c) as (c2 & -> & ? & ? & ? & ?); cbn; auto.
Qed.

(** Operations keep the options and the groups' ids, and move forward in time. *)
Definition later (s s' : CdcScanSource) : Prop :=
  s_options s' = s_options s /\ s_logGroupIds s' = s_logGroupIds s /\
  (c_tick (s_client s) <= c_tick (s_client s'))%nat.

Lemma later_refl s : later s s.
Proof. by split_and!. Qed.

Lemma later_trans s1 s2 s3 : later s1 s2 -> later s2 s3 -> later s1 s3.
Proof. intros (? & ? & ?) (? & ? & ?). split_and!; [congruence|congruence|lia]. Qed.

Lemma group_in_ids rel lastTs s g :
  source_ok rel lastTs s -> g ∈ s_groups s -> g_id g ∈ s_logGroupIds s.
Proof. intros H Hg. rewrite <- (so_ids _ _ _ H). by apply list_elem_of_fmap_2. Qed.

(** The lowest of the groups' heads, as [_issueScans] computes it. *)
Definition lowest_head (gs : list Group) : option Z :=
  fold_left (fun l h => match h with
                        | Some h => Some (match l with Some l => Z.min l (h_ts h) | None => h_ts h end)
                        | None => l
                        end) (map group_head gs) None.

Lemma issueScans_spec rel lastTs s deadline :
  source_ok rel lastTs s ->
  exists s', issueScans env s deadline = Ok s' /\ source_ok rel lastTs s' /\ later s s' /\
    forall g, g ∈ s_groups s -> lags g (lowest_head (s_groups s)) = true ->
      is_Some (pending (s_client s') (g_id g)) \/
      exists r, readyAt (s_client s) (g_id g) = Ok r /\ now_at env (c_tick (s_client s)) < r.
Proof.
  intros H. pose proof H as [Hids Hnd Hc Hg Hb]. unfold issueScans, now. rewrite scan_heads_eq.
  set (t := now_at env (c_tick (s_client s))). set (c0 := mkClient _ _ _ _).
  assert (Forall (group_inv rel lastTs c0) (map popped (s_groups s))) as Hinv.
  { rewrite Forall_forall in Hg |- *. intros g Hin.
    apply list_elem_of_fmap in Hin as (g0 & -> & Hin). apply popped_inv. exact (Hg g0 Hin). }
  destruct (issue_loop_spec (s_logGroupIds s) (s_options s) deadline t
    (s_bufferedBytes s - groups_bytes (s_groups s) + groups_bytes (map popped (s_groups s)))
    (lowest_head (s_groups s)) rel lastTs (map popped (s_groups s))
    (map (fun g => is_some (group_head g)) (s_groups s)) c0)
    as (c' & E & Hc' & Hf & Hinv' & Hl).
  - exact (client_ok_now env _ _ Hc).
  - intros g Hin. apply list_elem_of_fmap in Hin as (g0 & -> & Hin). rewrite popped_id.
    by eapply group_in_ids.
  - by rewrite map_popped_id, Hids.
  - by rewrite !length_map.
  - done.
  - fold (lowest_head (s_groups s)). rewrite E. cbn. eexists. split; [reflexivity|]. split_and!.
    + split; cbn; [by rewrite map_popped_id|done|done|done|lia].
    + split_and!; [done|done|]. destruct Hf as [_ Ht]. cbn in *. lia.
    + intros g Hin Hlag. destruct (Hl (popped g)) as [Hp|Hr].
      * by apply list_elem_of_fmap_2.
      * unfold lags in *. by rewrite popped_scannedTs.
      * left. by rewrite popped_id in Hp.
      * right. by rewrite popped_id in Hr.
Qed.

Lemma collect_and_pick_spec rel lastTs s :
  source_ok rel lastTs s ->
  match collect_and_pick env s with
  | Err e => cursor_error e
  | Ok (o, s') => later s s' /\
      match o with
      | None => source_ok rel lastTs s' /\ drained_to rel lastTs s'
      | Some sr => exists r, sr_record sr = Ok r /\ lastTs <= rec_ts r /\
          sr_logGroupId sr ∈ s_logGroupIds s /\
          source_ok (rel_add (sr_logGroupId sr) r rel) (rec_ts r) s'
      end
  end.
Proof.
  intros H. unfold collect_and_pick. pose proof (collectCompletions_spec rel lastTs s H) as H1.
  destruct (collectCompletions env s) as [s1|]; [|done]. destruct H1 as (H1 & Ho & Hi & Ht). cbn.
  destruct (pickReleasable_spec rel lastTs s1 H1) as (o & s2 & -> & Hc2 & Ho2 & Hi2 & Hm).
  split; [split_and!; [congruence|congruence|by rewrite Hc2]|]. by rewrite <- Hi.
Qed.

(** What a call or a pass of [next] may end in. *)
Definition next_outcome (rel : Z -> list LogRecord) (lastTs : Z) (s : CdcScanSource) (deadline : Z)
    (o : option CdcSourceRecord) (s' : CdcScanSource) : Prop :=
  later s s' /\
  match o with
  | None => source_ok rel lastTs s' /\ drained_to rel lastTs s' /\ s_drained s' = true /\
      exists k, deadline <= now_at env k
  | Some sr => exists r, sr_record sr = Ok r /\ lastTs <= rec_ts r /\
      sr_logGroupId sr ∈ s_logGroupIds s /\ s_drained s' = false /\
      source_ok (rel_add (sr_logGroupId sr) r rel) (rec_ts r) s'
  end.

Lemma source_ok_with_client rel lastTs s c :
  source_ok rel lastTs s -> client_ok env (s_logGroupIds s) c -> c_groups c = c_groups (s_client s) ->
  source_ok rel lastTs (with_client s c).
Proof.
  intros [Hids Hnd Hc Hg Hb] Hc' E. split; cbn; try done.
  rewrite Forall_forall in Hg |- *. intros g Hin. destruct (Hg g Hin) as [Hbuf Hcall].
  split; [done|]. intros req. unfold pending. rewrite E. apply Hcall.
Qed.

Lemma source_now_ok rel lastTs s :
  source_ok rel lastTs s -> source_ok rel lastTs (source_now env s).2 /\ later s (source_now env s).2.
Proof.
  intros H. split; [|split_and!; [done|done|cbn; lia]].
  apply source_ok_with_client; [done|exact (client_ok_now env _ _ (so_client _ _ _ H))|done].
Qed.

Lemma source_ok_drained rel lastTs s d :
  source_ok rel lastTs s -> source_ok rel lastTs (with_drained s d).
Proof. by intros []. Qed.

Lemma earliest_loop_total ids c t gs e :
  client_ok env ids c -> (forall g, g ∈ gs -> g_id g ∈ ids) -> exists e', earliest_loop c t gs e = Ok e'.
Proof.
  intros Hc. revert e. induction gs as [|g gs IH]; intros e Hin; cbn; [by eexists|].
  assert (g_id g ∈ ids) as Hid by (apply Hin; left).
  destruct (readyAt_spec env ids c _ Hc Hid) as [r ->]. rewrite (inFlight_spec env ids) by done.
  apply IH. intros; apply Hin; by right.
Qed.

Lemma next_wait_spec rel lastTs s deadline :
  source_ok rel lastTs s ->
  exists e s1, earliestDeferredReady env s = Ok (e, s1) /\
    source_ok rel lastTs (waitUntil s1 (Z.min deadline e)) /\
    later s (waitUntil s1 (Z.min deadline e)) /\
    (c_tick (s_client s) < c_tick (s_client (waitUntil s1 (Z.min deadline e))))%nat.
Proof.
  intros H. destruct (source_now_ok rel lastTs s H) as [H1 Hl1].
  unfold earliestDeferredReady. rewrite (surjective_pairing (source_now env s)).
  destruct (earliest_loop_total (s_logGroupIds s) (s_client (source_now env s).2)
    (source_now env s).1 (s_groups (source_now env s).2) Date_t_max) as [e E].
  - apply H1.
  - intros g Hg. by eapply group_in_ids.
  - rewrite E. cbn [rbind]. eexists e, _. split; [reflexivity|]. split_and!.
    + apply source_ok_with_client; [done|split; apply (so_client _ _ _ H1)|done].
    + split_and!; [done|done|cbn; lia].
    + cbn. lia.
Qed.

(** ** One pass, one call, a sequence of calls *)

(** What a pass that began in [s] may end in; going round again takes time. *)
Definition pass_outcome (rel : Z -> list LogRecord) (lastTs : Z) (s : CdcScanSource) (deadline : Z)
    (p : result (Pass (option CdcSourceRecord * CdcScanSource) CdcScanSource)) : Prop :=
  match p with
  | Err e => cursor_error e
  | Ok (Return (o, s')) => next_outcome rel lastTs s deadline o s'
  | Ok (Again s') => source_ok rel lastTs s' /\ later s s' /\
      (c_tick (s_client s) < c_tick (s_client s'))%nat /\
      exists k, (c_tick (s_client s) <= k)%nat /\ now_at env k < deadline
  end.

Lemma next_end_spec rel lastTs s0 s deadline :
  later s0 s -> source_ok rel lastTs s -> drained_to rel lastTs s ->
  pass_outcome rel lastTs s0 deadline (next_end env s deadline).
Proof.
  intros Hl H Hd. destruct (source_now_ok rel lastTs s H) as [H1 Hl1].
  unfold next_end. rewrite (surjective_pairing (source_now env s)).
  destruct (Z.leb_spec deadline (source_now env s).1) as [Hle|Hlt].
  - split; [by eapply later_trans|]. split_and!; [by apply source_ok_drained|exact Hd|done|].
    by exists (c_tick (s_client s)).
  - destruct (next_wait_spec rel lastTs _ deadline H1) as (e & s1 & -> & H2 & Hl2 & Ht2).
    pose proof (later_trans _ _ _ Hl (later_trans _ _ _ Hl1 Hl2)) as Hl3.
    destruct Hl as (_ & _ & Ht), Hl1 as (_ & _ & Ht1).
    split_and!; [done|done|lia|]. exists (c_tick (s_client s)). split; [lia|done].
Qed.

Lemma next_return_spec rel lastTs s deadline sr s' r :
  later s s' -> sr_record sr = Ok r -> lastTs <= rec_ts r -> sr_logGroupId sr ∈ s_logGroupIds s ->
  source_ok (rel_add (sr_logGroupId sr) r rel) (rec_ts r) s' ->
  pass_outcome rel lastTs s deadline (Ok (Return (Some sr, with_drained s' false))).
Proof.
  intros Hl Hr Hle Hin H. split; [done|]. exists r. split_and!; try done.
  by apply source_ok_drained.
Qed.

Lemma next_scan_spec rel lastTs s0 s deadline go :
  later s0 s -> source_ok rel lastTs s -> drained_to rel lastTs s ->
  pass_outcome rel lastTs s0 deadline (next_scan env s deadline go).
Proof.
  intros Hl H Hd. destruct go; [|by apply next_end_spec]. unfold next_scan.
  destruct (issueScans_spec rel lastTs s deadline H) as (s1 & -> & H1 & Hl1 & _). cbn [rbind].
  pose proof (collect_and_pick_spec rel lastTs s1 H1) as Hcp.
  destruct (collect_and_pick env s1) as [[o s2]|]; [|done]. destruct Hcp as [Hl2 Hcp]. cbn [rbind].
  pose proof (later_trans _ _ _ Hl (later_trans _ _ _ Hl1 Hl2)) as Hl3.
  destruct o as [sr|]; [|destruct Hcp; by apply next_end_spec].
  destruct Hcp as (r & ? & ? & Hin & ?). eapply next_return_spec; try done.
  destruct Hl as (_ & <- & _), Hl1 as (_ & <- & _). done.
Qed.

Lemma next_pass_spec rel lastTs s deadline first :
  source_ok rel lastTs s -> pass_outcome rel lastTs s deadline (next_pass env s deadline first).
Proof.
  intros H. unfold next_pass. pose proof (collect_and_pick_spec rel lastTs s H) as Hcp.
  destruct (collect_and_pick env s) as [[o s1]|]; [|done]. destruct Hcp as [Hl1 Hcp]. cbn [rbind].
  destruct o as [sr|].
  { destruct Hcp as (r & ? & ? & ? & ?). by eapply next_return_spec. }
  destruct Hcp as [H1 Hd1]. destruct first; [by apply next_scan_spec|].
  rewrite (surjective_pairing (source_now env s1)).
  destruct (source_now_ok rel lastTs s1 H1) as [H2 Hl2].
  apply next_scan_spec; [by eapply later_trans|done|exact Hd1].
Qed.

Lemma next_loop_spec rel lastTs fuel s deadline first x :
  source_ok rel lastTs s -> next_loop fuel env s deadline first = Some x ->
  match x with
  | Err e => cursor_error e
  | Ok (o, s') => next_outcome rel lastTs s deadline o s'
  end.
Proof.
  revert s first. induction fuel as [|fuel IH]; intros s first H; cbn; [done|].
  pose proof (next_pass_spec rel lastTs s deadline first H) as Hp.
  destruct (next_pass env s deadline first) as [[[o s1]|s1]|e]; intros E; simplify_eq; [done| |done].
  destruct Hp as (H1 & Hl & _). specialize (IH s1 false H1 E).
  destruct x as [[o s2]|e]; [|done]. destruct IH as [Hl' Ho]. split; [by eapply later_trans|].
  destruct o as [sr|]; [|done]. by rewrite (proj1 (proj2 Hl)) in Ho.
Qed.

Lemma source_ok_started rel lastTs s :
  source_ok rel lastTs s -> forallb g_started (s_groups s) = true.
Proof.
  intros H. apply forallb_forall. intros g Hg%list_elem_of_In.
  apply list_elem_of_lookup in Hg as [i Hi].
  destruct (group_lookup _ _ _ _ _ H Hi) as (buf & Hb & _). apply Hb.
Qed.

Lemma source_next_spec rel lastTs fuel s deadline x :
  source_ok rel lastTs s -> next fuel env s deadline = Some x ->
  match x with
  | Err e => cursor_error e
  | Ok (o, s') => next_outcome rel lastTs s deadline o s'
  end.
Proof.
  intros H. unfold next. rewrite (source_ok_started _ _ _ H). by apply next_loop_spec.
Qed.

(** A pass goes round again only while some reading of the clock is before the deadline. *)
Lemma next_loop_terminates rel lastTs fuel s deadline first K :
  source_ok rel lastTs s -> (forall k, (K <= k)%nat -> deadline <= now_at env k) ->
  (K - c_tick (s_client s) < fuel)%nat -> is_Some (next_loop fuel env s deadline first).
Proof.
  revert s first. induction fuel as [|fuel IH]; intros s first H HK Hf; [lia|]. cbn.
  pose proof (next_pass_spec rel lastTs s deadline first H) as Hp.
  destruct (next_pass env s deadline first) as [[[o s1]|s1]|e]; [by eexists| |by eexists].
  destruct Hp as (H1 & Hl & Ht & k & Hk & Hlt). apply IH; [done|done|].
  destruct (decide (K <= k)%nat) as [HKk|]; [specialize (HK k HKk); lia|lia].
Qed.

(** ** Sequences of calls *)

(** The views name these records of these groups. *)
Definition views (out : list CdcSourceRecord) (recs : list (Z * LogRecord)) : Prop :=
  Forall2 (fun sr p => sr_logGroupId sr = p.1 /\ sr_record sr = Ok p.2) out recs.

Definition of_group (id : Z) (recs : list (Z * LogRecord)) : list LogRecord :=
  map snd (List.filter (fun p => p.1 =? id) recs).

Fixpoint times_from (t : Z) (recs : list (Z * LogRecord)) : Prop :=
  match recs with
  | [] => True
  | p :: recs' => t <= rec_ts p.2 /\ times_from (rec_ts p.2) recs'
  end.

Lemma rel_add_app id r rel recs g :
  rel_add id r rel g ++ of_group g recs = rel g ++ of_group g ((id, r) :: recs).
Proof.
  unfold rel_add, of_group. cbn. rewrite (Z.eqb_sym g id). destruct (id =? g); [|done].
  by rewrite <- app_assoc.
Qed.

Lemma source_ok_ext rel rel' lastTs s :
  (forall g, rel g = rel' g) -> source_ok rel lastTs s -> source_ok rel' lastTs s.
Proof.
  intros E [Hids Hnd Hc Hg Hb]. split; try done. rewrite Forall_forall in Hg |- *.
  intros g Hin. destruct (Hg g Hin) as [[buf H] Hcall]. split; [|done]. exists buf. by rewrite <- E.
Qed.

Lemma drained_to_ext rel rel' lastTs s :
  (forall g, rel g = rel' g) -> drained_to rel lastTs s -> drained_to rel' lastTs s.
Proof. intros E H g buf r Hg Hb. eapply H; [done|]. by rewrite E. Qed.

(** Before the first call and after any: the invariant, and drained means drained. *)
Definition stream_ok (rel : Z -> list LogRecord) (lastTs : Z) (s : CdcScanSource) : Prop :=
  source_ok rel lastTs s /\ (s_drained s = true -> drained_to rel lastTs s).

Lemma pulls_spec fuel ds rel lastTs s x :
  stream_ok rel lastTs s -> pulls fuel env s ds = Some x ->
  match x with
  | Err e => cursor_error e
  | Ok (out, s') => s_logGroupIds s' = s_logGroupIds s /\
      exists recs lastTs', views out recs /\ times_from lastTs recs /\
        stream_ok (fun g => rel g ++ of_group g recs) lastTs' s'
  end.
Proof.
  revert rel lastTs s x. induction ds as [|d ds IH]; intros rel lastTs s x Hs; cbn.
  { intros [= <-]. split; [done|]. exists [], lastTs. split_and!; [constructor|done|].
    assert (forall g, rel g = rel g ++ of_group g []) as E by (intros; by rewrite app_nil_r).
    destruct Hs as [H Hd]. split; [by eapply source_ok_ext|].
    intros Hdr. eapply drained_to_ext; [exact E|auto]. }
  destruct (next fuel env s d) as [[[o s1]|e]|] eqn:En; [| |done].
  2: { intros [= <-]. exact (source_next_spec rel lastTs fuel s d (Err e) (proj1 Hs) En). }
  destruct (source_next_spec rel lastTs fuel s d _ (proj1 Hs) En) as [Hl Ho].
  destruct (pulls fuel env s1 ds) as [y|] eqn:Ep; [|done].
  assert (exists rel1 last1, stream_ok rel1 last1 s1 /\
    match o with
    | None => rel1 = rel /\ last1 = lastTs
    | Some sr => exists r, sr_record sr = Ok r /\ lastTs <= rec_ts r /\ last1 = rec_ts r /\
        rel1 = rel_add (sr_logGroupId sr) r rel
    end) as (rel1 & last1 & Hs1 & Ho1).
  { destruct o as [sr|].
    - destruct Ho as (r & Hr & Hle & _ & Hdr & H1). eexists _, _. split; [split; [exact H1|congruence]|].
      eauto.
    - destruct Ho as (H1 & Hd & _). by exists rel, lastTs. }
  specialize (IH rel1 last1 s1 y Hs1 Ep). destruct y as [[out s2]|e]; intros [= <-]; [|done].
  destruct IH as (Ei & recs & last2 & Hv & Ht & H2). split; [rewrite Ei; apply Hl|].
  destruct o as [sr|]; [|destruct Ho1 as [-> ->]; by exists recs, last2].
  destruct Ho1 as (r & Hr & Hle & -> & ->). exists ((sr_logGroupId sr, r) :: recs), last2.
  split_and!; [by constructor|done|].
  assert (forall g, rel_add (sr_logGroupId sr) r rel g ++ of_group g recs =
    rel g ++ of_group g ((sr_logGroupId sr, r) :: recs)) as E by (intros; apply rel_add_app).
  destruct H2 as [H2 Hd2]. split; [eapply source_ok_ext; [exact E|done]|].
  intros Hdr. eapply drained_to_ext; [exact E|auto].
Qed.

End Source.

(** ** Starting *)

Definition started_group (fromTs : Z) (g : Group) : Group :=
  mkGroup (g_id g) true false [] fromTs (g_arrivalCompleteTs g) (fromTs - 1)
    (g_pages g) (g_idleBackoff g).

Definition start_one (id fromTs : Z) (g : Group) : Group :=
  if g_id g =? id then started_group fromTs g else g.

Lemma start_groups_eq gs id fromTs :
  NoDup (map g_id gs) -> id ∈ map g_id gs -> Forall (fun g => g_pages g = []) gs -> 1 <= fromTs ->
  start_groups gs id fromTs = Ok (map (start_one id fromTs) gs).
Proof.
  intros Hnd Hin Hp Hf. induction gs as [|g gs IH]; [by apply not_elem_of_nil in Hin|]. cbn in *.
  apply NoDup_cons in Hnd as [Hn Hnd]. apply Forall_cons in Hp as [Hg Hp]. unfold start_one at 1.
  destruct (Z.eqb_spec (g_id g) id) as [E|Hne].
  - unfold start_group. rewrite Hg, (proj2 (Z.leb_le _ _)) by done. cbn. do 2 f_equal.
    + unfold started_group. by rewrite Hg.
    + symmetry. rewrite <- (map_id gs) at 2. apply map_ext_in. intros h Hh.
      unfold start_one. destruct (Z.eqb_spec (g_id h) id) as [E'|]; [|done].
      destruct Hn. rewrite E, <- E'. apply list_elem_of_fmap_2. by apply list_elem_of_In.
  - rewrite IH; [done|done| |done]. apply elem_of_cons in Hin as [->|]; [done|done].
Qed.

Lemma start_one_id id fromTs g : g_id (start_one id fromTs g) = g_id g.
Proof. unfold start_one. by destruct (_ =? _). Qed.

Lemma start_one_pages id fromTs g : g_pages (start_one id fromTs g) = g_pages g.
Proof. unfold start_one. by destruct (_ =? _). Qed.

Definition start_all (ids : list Z) (from : Z -> Z) (g : Group) : Group :=
  if bool_decide (g_id g ∈ ids) then started_group (from (g_id g)) g else g.

Lemma start_all_step id ids from g :
  start_all ids from (start_one id (from id) g) = start_all (id :: ids) from g.
Proof.
  unfold start_all. rewrite start_one_id. unfold start_one.
  destruct (Z.eqb_spec (g_id g) id) as [<-|Hne].
  - rewrite (bool_decide_eq_true_2 (g_id g ∈ g_id g :: ids)) by left. by case_bool_decide.
  - repeat case_bool_decide; set_solver.
Qed.

Lemma startEach_eq s ids from :
  NoDup (map g_id (s_groups s)) -> (forall id, id ∈ ids -> id ∈ map g_id (s_groups s) /\ 1 <= from id) ->
  Forall (fun g => g_pages g = []) (s_groups s) ->
  startEach s ids from = Ok (with_groups s (map (start_all ids from) (s_groups s))).
Proof.
  revert s. induction ids as [|id ids IH]; intros s Hnd Hin Hp; cbn.
  - rewrite (map_ext (start_all [] from) (fun g => g)), map_id.
    + by destruct s.
    + intros g. unfold start_all. case_bool_decide; [set_solver|done].
  - destruct (Hin id) as [Hid Hf]; [left|]. unfold startAt.
    rewrite start_groups_eq by done. cbn.
    assert (map g_id (map (start_one id (from id)) (s_groups s)) = map g_id (s_groups s)) as E.
    { rewrite map_map. apply map_ext, start_one_id. }
    rewrite IH; cbn; rewrite ?E.
    + unfold with_groups. cbn. rewrite map_map. do 2 f_equal. apply map_ext. intros g.
      apply start_all_step.
    + done.
    + intros id' Hid'. apply Hin. by right.
    + rewrite Forall_forall in Hp |- *. intros g Hg. apply list_elem_of_fmap in Hg as (g0 & -> & Hg0).
      rewrite start_one_pages. auto.
Qed.

Section Start.

Context {env : Env} `{!ScanContract env}.

(** A source that has not been started: the calls in flight, if any, are probes from the
    maximum timestamp of groups that have reported no bound yet. *)
Record fresh_group (c : CdcScanClient) (g : Group) : Prop := {
  fg_started : g_started g = false;
  fg_pages : g_pages g = [];
  fg_bound : 0 <= g_arrivalCompleteTs g < u64_max;
  fg_call : forall req, pending c (g_id g) = Some req ->
    rq_start req = start_from_ts u64_max /\ g_arrivalCompleteTs g = 0;
}.

Record fresh_ok (s : CdcScanSource) : Prop := {
  fo_ids : map g_id (s_groups s) = s_logGroupIds s;
  fo_nodup : NoDup (s_logGroupIds s);
  fo_ne : s_logGroupIds s <> [];
  fo_client : client_ok env (s_logGroupIds s) (s_client s);
  fo_groups : Forall (fresh_group (s_client s)) (s_groups s);
  fo_bytes : s_bufferedBytes s = 0;
  fo_drained : s_drained s = false;
}.

Lemma newSource_fresh ids o s :
  NoDup ids -> newSource ids o = Ok s ->
  fresh_ok s /\ s_logGroupIds s = ids /\ forall id, pending (s_client s) id = None.
Proof.
  intros Hnd H. unfold newSource in H. destruct (bool_decide_reflect (ids = [])) as [|Hne]; [done|].
  cbn in H. injection H as <-. destruct (newClient_ok env ids (o_client o)) as [Hc Hp].
  split_and!; [|done|done]. split; cbn; try done.
  - rewrite map_map. apply map_id.
  - rewrite Forall_forall. intros g Hg. apply list_elem_of_fmap in Hg as (id & -> & _).
    split; cbn; [done|done|done|]. intros req. by rewrite Hp.
Qed.

Lemma groups_bytes_nil gs : Forall (fun g => g_pages g = []) gs -> groups_bytes gs = 0.
Proof. induction 1 as [|g gs Hg Hgs IH]; cbn; [done|]. rewrite Hg. cbn. lia. Qed.

(** A group right after [startAt] with no call in flight: everything from its timestamp on is
    still to fetch. *)
Lemma started_group_inv from c g :
  fresh_group c g -> pending c (g_id g) = None -> 1 <= from (g_id g) <= u64_max ->
  group_inv from (fun _ => []) 0 c (started_group (from (g_id g)) g).
Proof.
  intros [Hs Hp Hb _] Hn Hf. split; [|by intros req; cbn; rewrite Hn].
  exists []. split; cbn; try done.
  - exists []. rewrite Hp. split; [constructor|done].
  - apply Forall_forall. intros r Hr. unfold unfetched in Hr. cbn in Hr.
    apply list_elem_of_In, filter_In in Hr as [_ Hr]. apply Z.leb_le in Hr. cbn. lia.
  - lia.
  - apply Forall_forall. intros r Hr. unfold unfetched in Hr. cbn in Hr.
    apply list_elem_of_In, filter_In in Hr as [_ Hr]. apply Z.leb_le in Hr. lia.
Qed.

Lemma startEach_ok from s s' :
  fresh_ok s -> (forall id, id ∈ s_logGroupIds s -> pending (s_client s) id = None) ->
  (forall id, id ∈ s_logGroupIds s -> 1 <= from id <= u64_max) ->
  startEach s (s_logGroupIds s) from = Ok s' ->
  stream_ok from (fun _ => []) 0 s' /\ s_logGroupIds s' = s_logGroupIds s.
Proof.
  intros [Hids Hnd Hne Hc Hg Hb Hd] Hn Hf.
  assert (Forall (fun g => g_pages g = []) (s_groups s)) as Hp
    by (eapply Forall_impl; [exact Hg|]; by intros ? []).
  rewrite startEach_eq; [|by rewrite Hids| |done].
  2: { intros id Hid. rewrite Hids. split; [done|]. apply Hf in Hid. lia. }
  intros [= <-]. split; [|done].
  assert (forall g, g ∈ s_groups s ->
    start_all (s_logGroupIds s) from g = started_group (from (g_id g)) g) as E.
  { intros g Hin. unfold start_all. rewrite bool_decide_eq_true_2; [done|].
    rewrite <- Hids. by apply list_elem_of_fmap_2. }
  split; [split; cbn|cbn; by rewrite Hd].
  - rewrite <- Hids, map_map. apply map_ext. intros g. unfold start_all. by case_bool_decide.
  - done.
  - done.
  - apply Forall_forall. intros g' Hin. apply list_elem_of_fmap in Hin as (g & -> & Hin).
    rewrite E by done. rewrite Forall_forall in Hg.
    assert (g_id g ∈ s_logGroupIds s) as Hid by (rewrite <- Hids; by apply list_elem_of_fmap_2).
    apply started_group_inv; auto.
  - rewrite Hb, groups_bytes_nil; [done|]. rewrite Forall_forall in Hp |- *. intros g' Hin.
    apply list_elem_of_fmap in Hin as (g & -> & Hin). rewrite E by done. cbn. auto.
Qed.

(** ** Fixing a start *)

Lemma fresh_group_pending c c' g :
  pending c' (g_id g) = pending c (g_id g) -> fresh_group c g -> fresh_group c' g.
Proof. intros E []. split; try done. rewrite E. done. Qed.

Lemma fresh_groups_frame g0 c c' gs :
  frame g0 c c' -> g0 ∉ map g_id gs -> Forall (fresh_group c) gs -> Forall (fresh_group c') gs.
Proof.
  intros Hf Hn H. rewrite Forall_forall in H |- *. intros g Hg.
  eapply fresh_group_pending; [|by apply H]. eapply frame_pending; [done|].
  intros E. apply Hn. rewrite <- E. by apply list_elem_of_fmap_2.
Qed.

Lemma fresh_ok_with_client s c :
  fresh_ok s -> c_groups c = c_groups (s_client s) -> fresh_ok (with_client s c).
Proof.
  intros [Hids Hnd Hne Hc Hg Hb Hd] E. split; cbn; try done.
  - destruct Hc as [H1 H2]. split; rewrite E; done.
  - eapply Forall_impl; [exact Hg|]. intros g. apply fresh_group_pending. unfold pending. by rewrite E.
Qed.

Lemma waitMs_client o deadline c :
  exists w, waitMs env o deadline c = (w, (now env c).2).
Proof. unfold waitMs, now. destruct (_ <=? 0); eauto. Qed.

Lemma probe_loop_spec ids o deadline t first gs zeros c :
  client_ok env ids c -> (forall g, g ∈ gs -> g_id g ∈ ids) -> NoDup (map g_id gs) ->
  Forall (fresh_group c) gs ->
  exists c', probe_loop env o deadline t first gs zeros c = Ok c' /\ client_ok env ids c' /\
    frame_on (map g_id gs) c c' /\ Forall (fresh_group c') gs.
Proof.
  revert zeros c. induction gs as [|g gs IH]; intros [|z zeros] c Hc Hin Hnd Hg;
    [by exists c; split_and!|by exists c; split_and!|by exists c; split_and!|].
  assert (g_id g ∈ ids) as Hid by (apply Hin; left). cbn [probe_loop map].
  apply NoDup_cons in Hnd as [Hn Hnd]. apply Forall_cons in Hg as [Hg Hgs].
  assert (forall c1, client_ok env ids c1 -> frame (g_id g) c c1 -> fresh_group c1 g ->
    exists c', probe_loop env o deadline t first gs zeros c1 = Ok c' /\ client_ok env ids c' /\
      frame_on (g_id g :: map g_id gs) c c' /\ Forall (fresh_group c') (g :: gs)) as Hgo.
  { intros c1 Hc1 Hf1 Hg1. destruct (IH zeros c1) as (c' & E & Hc' & Hf' & Hg'); try done.
    { intros; apply Hin; by right. } { by eapply fresh_groups_frame. }
    exists c'. split_and!; [done|done|by eapply frame_on_step|].
    constructor; [|done]. eapply fresh_group_pending; [by eapply frame_on_pending|done]. }
  destruct ((_ && _) || _) eqn:Eskip; [by apply Hgo; [done|apply frame_refl|]|].
  apply orb_false_iff in Eskip as [_ Ez]. apply negb_false_iff, Z.eqb_eq in Ez.
  rewrite (inFlight_spec env ids) by done. destruct (readyAt_spec env ids c _ Hc Hid) as [r Hr].
  rewrite Hr. cbn [rbind].
  destruct (is_some (pending c (g_id g)) || (t <? r)) eqn:Eb; [by apply Hgo; [done|apply frame_refl|]|].
  apply orb_false_iff in Eb as [Eb _].
  assert (exists w c1, (if z then waitMs env o deadline c else (0, c)) = (w, c1) /\
    client_ok env ids c1 /\ frame (g_id g) c c1 /\ pending c1 (g_id g) = None) as (w & c1 & -> & Hc1 & Hf1 & Hp1).
  { assert (pending c (g_id g) = None) as Hp by (by destruct (pending c (g_id g))).
    destruct z; [|by exists 0, c]. destruct (waitMs_client o deadline c) as [w E].
    exists w, (now env c).2. split_and!; [done|by apply client_ok_now|apply frame_now, frame_refl|done]. }
  destruct (issue_spec env ids c1 (g_id g) (mkScanRequest (g_id g) (start_from_ts u64_max) 1 w)
    (w + rpcSlack o) Hc1 Hid Hp1) as (c2 & -> & Hc2 & Hf2 & Hp2 & _). cbn [rbind].
  apply Hgo; [done|by eapply frame_trans|]. destruct Hg. split; try done.
  intros req. rewrite Hp2. by intros [= <-].
Qed.

Lemma probe_collect_spec ids o gs zeros c :
  client_ok env ids c -> (forall g, g ∈ gs -> g_id g ∈ ids) -> NoDup (map g_id gs) ->
  length zeros = length gs -> Forall (fresh_group c) gs ->
  match probe_collect env o gs zeros c with
  | Err e => e = CommandNotSupported
  | Ok (gs', zeros', c') => client_ok env ids c' /\ frame_on (map g_id gs) c c' /\
      map g_id gs' = map g_id gs /\ length zeros' = length gs' /\ Forall (fresh_group c') gs'
  end.
Proof.
  revert zeros c. induction gs as [|g gs IH]; intros [|z zeros] c Hc Hin Hnd Hlen Hg; try done.
  assert (g_id g ∈ ids) as Hid by (apply Hin; left). cbn [probe_collect map].
  apply NoDup_cons in Hnd as [Hn Hnd]. apply Forall_cons in Hg as [Hg Hgs].
  destruct (deliver_spec env ids c (g_id g) Hc) as (Hc0 & Hf0 & Hp0).
  destruct (takeCompleted_spec env ids (deliver env c (g_id g)) (g_id g) Hc0 Hid)
    as (cp & c1 & E1 & Hc1 & Hf1 & Hcp). rewrite E1. cbn [rbind].
  pose proof (frame_trans _ _ _ _ Hf0 Hf1) as Hf.
  assert (forall g' (z' : bool) c2, client_ok env ids c2 -> frame (g_id g) c1 c2 -> g_id g' = g_id g ->
    fresh_group c2 g' ->
    match rbind (probe_collect env o gs zeros c2) (fun '(gs', zeros', c) => Ok (g' :: gs', z' :: zeros', c)) with
    | Err e => e = CommandNotSupported
    | Ok (gs', zeros', c') => client_ok env ids c' /\ frame_on (g_id g :: map g_id gs) c c' /\
        map g_id gs' = g_id g :: map g_id gs /\ length zeros' = length gs' /\ Forall (fresh_group c') gs'
    end) as Hgo.
  { intros g' z' c2 Hc2 Hf2 Eid Hg'. pose proof (frame_trans _ _ _ _ Hf Hf2) as Hf3.
    specialize (IH zeros c2 Hc2 ltac:(intros; apply Hin; by right) Hnd ltac:(cbn in Hlen; lia)
      ltac:(by eapply fresh_groups_frame)).
    destruct (probe_collect env o gs zeros c2) as [[[gs' zeros'] c']|]; [|done]. cbn.
    destruct IH as (H1 & H2 & H3 & H4 & H5).
    split_and!; [done|by eapply frame_on_step|by rewrite Eid, H3|lia|].
    constructor; [|done]. eapply fresh_group_pending; [|done]. rewrite Eid. by eapply frame_on_pending. }
  destruct cp as [cp|]; cbn [rbind].
  2: { subst c1. apply Hgo; [done|apply frame_refl|done|]. by eapply fresh_group_pending. }
  destruct Hcp as (Hnone & Hreq & Hok). rewrite Hp0 in Hreq.
  assert (forall x b c2, pending c2 (g_id g) = None -> 0 <= b < u64_max ->
    fresh_group c2 (set_idleBackoff x (set_arrivalCompleteTs b g))) as Hfresh.
  { intros x b c2 Hp Hb. destruct Hg. split; cbn; try done. rewrite Hp. done. }
  destruct (cp_status cp) eqn:Est; cbn [rbind].
  - destruct (Hok eq_refl) as (rs & Hrs & Hsuc & (k & a & Ha & Haf & <-)). rewrite Hrs.
    destruct (sc_page k (g_id g) _ a Ha Haf Hsuc) as (page & Hv & _).
    { destruct (fg_call _ _ Hg _ Hreq) as [-> _]. done. }
    set (g1 := set_arrivalCompleteTs _ g).
    destruct (pauseIfIdleEarly_spec ids o g1 cp (an_response a) (g_arrivalCompleteTs g) c1 Hc1 Hid)
      as (p & x & c2 & E2 & Hc2 & Hf2 & Hp2). rewrite E2. cbn [rbind].
    apply Hgo; [done|done|done|]. apply Hfresh; [by rewrite <- Hnone|].
    pose proof (vp_width _ _ _ _ _ Hv). destruct Hg. lia.
  - apply Hgo; [done|apply frame_refl|done|]. destruct Hg. split; try done. by rewrite Hnone.
  - apply Hgo; [done|apply frame_refl|done|]. destruct Hg. split; try done. by rewrite Hnone.
  - done.
Qed.

Lemma lowestBound_le gs g : g ∈ gs -> lowestBound gs <= g_arrivalCompleteTs g.
Proof. apply fold_min_le. Qed.

Lemma fold_min_in {A} (f : A -> Z) l b :
  fold_left (fun b y => Z.min b (f y)) l b = b \/
  exists x, x ∈ l /\ fold_left (fun b y => Z.min b (f y)) l b = f x.
Proof.
  revert b. induction l as [|y l IH]; intros b; cbn; [by left|].
  destruct (IH (Z.min b (f y))) as [->|(x & Hx & ->)].
  - destruct (Z.min_spec b (f y)) as [[_ ->]|[_ ->]]; [by left|right]. exists y. split; [left|done].
  - right. exists x. split; [by right|done].
Qed.

Lemma lowestBound_in gs :
  gs <> [] -> Forall (fun g => g_arrivalCompleteTs g < u64_max) gs ->
  exists g, g ∈ gs /\ lowestBound gs = g_arrivalCompleteTs g.
Proof.
  intros Hne Hb. destruct (fold_min_in g_arrivalCompleteTs gs u64_max) as [E|?]; [|done].
  destruct gs as [|g gs]; [done|]. exfalso. apply Forall_inv in Hb.
  pose proof (lowestBound_le (g :: gs) g (list_elem_of_here _ _)) as Hle.
  unfold lowestBound in Hle. lia.
Qed.

(** What [fixStart] ends in: every group has reported a bound, the lowest of them is the start
    and every group is started right above it with no call in flight; or the deadline passed
    and the source is as before. *)
Definition fixStart_outcome (s : CdcScanSource) (deadline : Z) (o : option Z) (s' : CdcScanSource) : Prop :=
  s_logGroupIds s' = s_logGroupIds s /\
  match o with
  | Some start =>
      1 <= start < u64_max /\
      (forall g, g ∈ s_groups s' -> start <= g_arrivalCompleteTs g) /\
      (exists g, g ∈ s_groups s' /\ start = g_arrivalCompleteTs g) /\
      stream_ok (fun _ => start + 1) (fun _ => []) 0 s'
  | None => fresh_ok s' /\ exists k, deadline <= now_at env k
  end.

Lemma fixStart_started s start :
  fresh_ok s -> lowestBound (s_groups s) = start -> start <> 0 ->
  exists s', startAllAt s (wrap64 (start + 1)) = Ok s' /\
    s_logGroupIds s' = s_logGroupIds s /\ 1 <= start < u64_max /\
    (forall g, g ∈ s_groups s' -> start <= g_arrivalCompleteTs g) /\
    (exists g, g ∈ s_groups s' /\ start = g_arrivalCompleteTs g) /\
    stream_ok (fun _ => start + 1) (fun _ => []) 0 s'.
Proof.
  intros H <- Hnz. pose proof H as [Hids Hnd Hne Hc Hg Hb Hd].
  assert (s_groups s <> []) as Hgs by (intros E; apply Hne; by rewrite <- Hids, E).
  assert (Forall (fun g => g_arrivalCompleteTs g < u64_max) (s_groups s)) as Hlt
    by (eapply Forall_impl; [exact Hg|]; intros g []; lia).
  destruct (lowestBound_in _ Hgs Hlt) as (g0 & Hg0 & E0). rewrite Forall_forall in Hg.
  assert (1 <= lowestBound (s_groups s) < u64_max) as Hr.
  { destruct (Hg g0 Hg0). rewrite E0 in *. lia. }
  assert (wrap64 (lowestBound (s_groups s) + 1) = lowestBound (s_groups s) + 1) as ->.
  { unfold wrap64, u64_max in *. apply Z.mod_small. lia. }
  assert (Forall (fun g => g_pages g = []) (s_groups s)) as Hp
    by (apply Forall_forall; intros g Hin; by destruct (Hg g Hin)).
  unfold startAllAt.
  set (from := fun _ : Z => lowestBound (s_groups s) + 1).
  assert (startEach s (s_logGroupIds s) from =
    Ok (with_groups s (map (start_all (s_logGroupIds s) from) (s_groups s)))) as E.
  { apply startEach_eq; [by rewrite Hids| |done]. intros id Hid. rewrite Hids.
    split; [done|]. unfold from. lia. }
  assert (forall g, g_arrivalCompleteTs (start_all (s_logGroupIds s) from g) = g_arrivalCompleteTs g) as Ea.
  { intros g. unfold start_all. by case_bool_decide. }
  edestruct (startEach_ok from s) as [Hok Hid]; [done| | |exact E|].
  - intros id Hid. destruct (pending (s_client s) id) as [req|] eqn:Ep; [|done]. exfalso.
    rewrite <- Hids in Hid. apply list_elem_of_fmap in Hid as (g & -> & Hin).
    destruct (fg_call _ _ (Hg g Hin) _ Ep) as [_ Hz]. pose proof (lowestBound_le _ _ Hin). lia.
  - unfold from. lia.
  - eexists. split; [exact E|]. split_and!; [done|lia|lia| | |done].
    + intros g' Hin. apply list_elem_of_fmap in Hin as (g & -> & Hin). rewrite Ea.
      by apply lowestBound_le.
    + exists (start_all (s_logGroupIds s) from g0). rewrite Ea. split; [by apply list_elem_of_fmap_2|done].
Qed.

Lemma probe_wakeAt_total ids c gs w :
  client_ok env ids c -> (forall g, g ∈ gs -> g_id g ∈ ids) -> exists w', probe_wakeAt c gs w = Ok w'.
Proof.
  intros Hc. revert w. induction gs as [|g gs IH]; intros w Hin; cbn; [by eexists|].
  assert (g_id g ∈ ids) as Hid by (apply Hin; left).
  destruct (g_arrivalCompleteTs g =? 0); [|apply IH; intros; apply Hin; by right].
  destruct (readyAt_spec env ids c _ Hc Hid) as [r ->]. rewrite (inFlight_spec env ids) by done.
  apply IH. intros; apply Hin; by right.
Qed.

Lemma fixStart_pass_spec s deadline zeros first :
  fresh_ok s -> length zeros = length (s_groups s) ->
  match fixStart_pass env s deadline zeros first with
  | Err e => e = CommandNotSupported
  | Ok (Return (o, s')) => fixStart_outcome s deadline o s'
  | Ok (Again (s', zeros')) => fresh_ok s' /\ length zeros' = length (s_groups s') /\
      s_logGroupIds s' = s_logGroupIds s /\ (c_tick (s_client s) < c_tick (s_client s'))%nat /\
      exists k, (c_tick (s_client s) <= k)%nat /\ now_at env k < deadline
  end.
Proof.
  intros Hfresh Hlen. unfold fixStart_pass, source_now, now.
  set (c0 := mkClient _ _ _ _). set (t := now_at env _).
  pose proof (fresh_ok_with_client s c0 Hfresh eq_refl) as [Hids Hnd Hne Hc Hg Hb Hd]. cbn in Hids, Hnd, Hne, Hc, Hg.
  assert (forall g, g ∈ s_groups s -> g_id g ∈ s_logGroupIds s) as Hin.
  { intros g Hg'. rewrite <- Hids. by apply list_elem_of_fmap_2. }
  assert (NoDup (map g_id (s_groups s))) as Hnd' by (by rewrite Hids).
  cbn [s_options s_groups s_client with_client].
  destruct (probe_loop_spec (s_logGroupIds s) (s_options s) deadline t first (s_groups s) zeros c0 Hc Hin Hnd' Hg)
    as (c1 & -> & Hc1 & Hf1 & Hg1). cbn [rbind].
  pose proof (probe_collect_spec (s_logGroupIds s) (s_options s) (s_groups s) zeros c1 Hc1 Hin Hnd' Hlen Hg1) as Hp.
  destruct (probe_collect _ _ _ _ _) as [[[gs2 zeros2] c2]|]; [|done].
  destruct Hp as (Hc2 & Hf2 & Hids2 & Hlen2 & Hg2). cbn [rbind].
  set (s2 := with_client _ c2).
  assert (fresh_ok s2) as Hs2 by (split; cbn; try done; congruence).
  assert (c_tick (s_client s) < c_tick c2)%nat as Ht by (destruct Hf1, Hf2; cbn in *; lia).
  destruct (Z.eqb_spec (lowestBound gs2) 0) as [Ez|Enz]; cbn [negb].
  2: { destruct (fixStart_started s2 _ Hs2 eq_refl Enz) as (s3 & E3 & Hid3 & Hrest).
       change (s_groups s2) with gs2 in E3, Hrest. rewrite E3. cbn [rbind]. by split. }
  change (now_at env (c_tick (s_client s2))) with (now_at env (c_tick c2)).
  destruct (Z.leb_spec deadline (now_at env (c_tick c2))) as [Hle|Hlt].
  { split; [done|]. split; [|by eexists]. by apply fresh_ok_with_client. }
  cbn [s_client with_client].
  match goal with |- context [probe_wakeAt ?c ?gs deadline] =>
    destruct (probe_wakeAt_total (s_logGroupIds s) c gs deadline) as [w ->] end.
  - exact (client_ok_now env _ _ Hc2).
  - intros g Hg'. rewrite <- Hids, <- Hids2. by apply list_elem_of_fmap_2.
  - cbn [rbind]. split_and!; [by repeat (apply fresh_ok_with_client; [|done])|done|done|cbn; lia|].
    exists (c_tick c2). split; [lia|done].
Qed.

Lemma fixStart_loop_spec fuel s deadline zeros first x :
  fresh_ok s -> length zeros = length (s_groups s) ->
  fixStart_loop fuel env s deadline zeros first = Some x ->
  match x with
  | Err e => e = CommandNotSupported
  | Ok (o, s') => fixStart_outcome s deadline o s'
  end.
Proof.
  revert s zeros first. induction fuel as [|fuel IH]; intros s zeros first H Hlen; [done|].
  cbn [fixStart_loop].
  pose proof (fixStart_pass_spec s deadline zeros first H Hlen) as Hp.
  destruct (fixStart_pass env s deadline zeros first) as [[[o s1]|[s1 z1]]|e]; intros E;
    [injection E as <-; done| |injection E as <-; done].
  destruct Hp as (H1 & Hl1 & Hid & _). specialize (IH s1 z1 false H1 Hl1 E).
  destruct x as [[o s2]|e]; [|done]. destruct IH as [Hid2 Ho]. split; [congruence|done].
Qed.

Lemma fixStart_loop_terminates fuel s deadline zeros first K :
  fresh_ok s -> length zeros = length (s_groups s) ->
  (forall k, (K <= k)%nat -> deadline <= now_at env k) ->
  (K - c_tick (s_client s) < fuel)%nat -> is_Some (fixStart_loop fuel env s deadline zeros first).
Proof.
  revert s zeros first. induction fuel as [|fuel IH]; intros s zeros first H Hlen HK Hf; [lia|]. cbn [fixStart_loop].
  pose proof (fixStart_pass_spec s deadline zeros first H Hlen) as Hp.
  destruct (fixStart_pass env s deadline zeros first) as [[[o s1]|[s1 z1]]|e]; [by eexists| |by eexists].
  destruct Hp as (H1 & Hl1 & Hid & Ht & k & Hk & Hlt). apply IH; [done|done|done|].
  destruct (decide (K <= k)%nat) as [HKk|]; [specialize (HK k HKk); lia|lia].
Qed.

Lemma fresh_unstarted s : fresh_ok s -> forallb (fun g => negb (g_started g)) (s_groups s) = true.
Proof.
  intros H. apply forallb_forall. intros g Hg%list_elem_of_In.
  destruct (proj1 (Forall_forall _ _) (fo_groups _ H) g Hg). by apply negb_true_iff.
Qed.
End Start.

(** * Properties *)

Section Properties.

Context (env : Env) `{!ScanContract env}.

(** Opening a source at [from]: constructed, then every group started. *)
Definition open_at (ids : list Z) (o : CdcScanSourceOptions) (from : Z -> Z) : result CdcScanSource :=
  let! s := newSource ids o in startEach s ids from.

Lemma open_at_ok ids o from s :
  NoDup ids -> (forall id, id ∈ ids -> 1 <= from id <= u64_max) -> open_at ids o from = Ok s ->
  stream_ok from (fun _ => []) 0 s /\ s_logGroupIds s = ids.
Proof.
  intros Hnd Hf H. unfold open_at in H. destruct (newSource ids o) as [s0|] eqn:E; [|done]. cbn in H.
  destruct (newSource_fresh (env:=env) ids o s0 Hnd E) as (Hfr & Hi & Hp). subst ids.
  destruct (startEach_ok from s0 s Hfr) as [? ?]; auto.
Qed.

Lemma stream_prefix from rel lastTs s id :
  source_ok from rel lastTs s -> id ∈ s_logGroupIds s ->
  exists g buf, g ∈ s_groups s /\ g_id g = id /\ group_ok from (rel id) lastTs g buf.
Proof.
  intros H Hid. rewrite <- (so_ids _ _ _ _ H) in Hid. apply list_elem_of_fmap in Hid as (g & -> & Hg).
  destruct (proj1 (Forall_forall _ _) (so_groups _ _ _ _ H) g Hg) as [[buf Hb] _]. eauto.
Qed.

(** C8. Whatever the timing and the answers of the log service, the records that consecutive
    calls of [next] release are, for each group, a prefix of the group's records from its start
    on, none lost, repeated or reordered, and across groups their timestamps never decrease. *)
Theorem released_in_order ids o from s fuel deadlines out s' :
  NoDup ids -> (forall id, id ∈ ids -> 1 <= from id <= u64_max) ->
  open_at ids o from = Ok s -> pulls fuel env s deadlines = Some (Ok (out, s')) ->
  exists recs, views out recs /\ times_from 0 recs /\
    forall id, id ∈ ids -> of_group id recs `prefix_of` records_from (sc_history id) (from id).
Proof.
  intros Hnd Hf Ho Hp. destruct (open_at_ok ids o from s Hnd Hf Ho) as [Hs Hi].
  destruct (pulls_spec from fuel deadlines _ _ _ _ Hs Hp) as (Hi' & recs & lastTs & Hv & Ht & [Hok _]).
  exists recs. split_and!; [done|done|]. intros id Hid.
  destruct (stream_prefix from _ _ s' id Hok) as (g & buf & _ & Eg & Hg); [by rewrite Hi', Hi|].
  exists (buf ++ unfetched g). rewrite <- Eg. rewrite <- Eg in Hg. exact (go_split _ _ _ _ _ Hg).
Qed.

(** C9. When the last call found nothing more to release, [emitBound] is a watermark: every
    record of every group from its start through the bound has been released. *)
Theorem drained_watermark ids o from s fuel deadlines out s' :
  NoDup ids -> (forall id, id ∈ ids -> 1 <= from id <= u64_max) ->
  open_at ids o from = Ok s -> pulls fuel env s deadlines = Some (Ok (out, s')) ->
  s_drained s' = true ->
  exists recs, views out recs /\
    forall id r, id ∈ ids -> r ∈ sc_history id -> from id <= rec_ts r <= emitBound s' ->
      r ∈ of_group id recs.
Proof.
  intros Hnd Hf Ho Hp Hdr. destruct (open_at_ok ids o from s Hnd Hf Ho) as [Hs Hi].
  destruct (pulls_spec from fuel deadlines _ _ _ _ Hs Hp) as (Hi' & recs & lastTs & Hv & Ht & [Hok Hd]).
  exists recs. split; [done|]. intros id r Hid Hr Hts.
  destruct (stream_prefix from _ _ s' id Hok) as (g & buf & Hg & Eg & Hgo); [by rewrite Hi', Hi|].
  assert (r ∈ stream from id) as Hin.
  { apply list_elem_of_In, filter_In. split; [by apply list_elem_of_In|]. apply Z.leb_le. lia. }
  pose proof (go_split _ _ _ _ _ Hgo) as Hsplit. rewrite Eg in Hsplit. rewrite Hsplit in Hin.
  apply elem_of_app in Hin as [Hin|Hin]; [done|]. exfalso.
  apply elem_of_app in Hin as [Hin|Hin].
  - rewrite <- Eg in Hgo. pose proof (Hd Hdr g buf r Hg Hgo Hin). lia.
  - pose proof (proj1 (Forall_forall _ _) (go_scanned _ _ _ _ _ Hgo) r Hin) as Hgt.
    pose proof (emitBound_le s' g Hg). cbn in Hgt. lia.
Qed.

(** C14. A call of [next] always returns once the clock passes its deadline, and it fails only
    because the position is no longer retained or the log service keeps no history: no internal
    invariant can trip. *)
Theorem next_returns ids o from s fuel deadlines out s' deadline K :
  NoDup ids -> (forall id, id ∈ ids -> 1 <= from id <= u64_max) ->
  open_at ids o from = Ok s -> pulls fuel env s deadlines = Some (Ok (out, s')) ->
  (forall k, (K <= k)%nat -> deadline <= now_at env k) ->
  exists x, next (S K) env s' deadline = Some x /\
    match x with Ok _ => True | Err e => cursor_error e end.
Proof.
  intros Hnd Hf Ho Hp HK. destruct (open_at_ok ids o from s Hnd Hf Ho) as [Hs Hi].
  destruct (pulls_spec from fuel deadlines _ _ _ _ Hs Hp) as (_ & recs & lastTs & _ & _ & [Hok _]).
  destruct (next_loop_terminates from _ lastTs (S K) s' deadline true K Hok HK) as [x Hx]; [lia|].
  assert (next (S K) env s' deadline = Some x) as Hn.
  { unfold next. by rewrite (source_ok_started _ _ _ _ Hok). }
  exists x. split; [done|]. pose proof (source_next_spec from _ _ _ _ _ _ Hok Hn) as Ho'.
  by destruct x as [[? ?]|].
Qed.

(** C15. The buffer cap cannot starve the merge: when records are buffered but none may go out,
    every group that holds the lowest of them back has a scan in flight or a scheduled retry
    once scans have been issued, however full the buffer is. *)
Theorem blocking_group_fetched ids o from s fuel deadlines out s' s1 s2 deadline g l :
  NoDup ids -> (forall id, id ∈ ids -> 1 <= from id <= u64_max) ->
  open_at ids o from = Ok s -> pulls fuel env s deadlines = Some (Ok (out, s')) ->
  pickReleasable s' = Ok (None, s1) -> issueScans env s1 deadline = Ok s2 ->
  lowest_head (s_groups s1) = Some l -> g ∈ s_groups s1 -> g_scannedTs g + 1 < l ->
  is_Some (pending (s_client s2) (g_id g)) \/
  exists t, readyAt (s_client s1) (g_id g) = Ok t /\ now_at env (c_tick (s_client s1)) < t.
Proof.
  intros Hnd Hf Ho Hp Hpick Hiss Hlow Hg Hlt. destruct (open_at_ok ids o from s Hnd Hf Ho) as [Hs Hi].
  destruct (pulls_spec from fuel deadlines _ _ _ _ Hs Hp) as (_ & recs & lastTs & _ & _ & [Hok _]).
  destruct (pickReleasable_spec from _ _ s' Hok) as (o1 & s1' & E & _ & _ & _ & Ho1).
  rewrite Hpick in E. injection E as <- <-. destruct Ho1 as [H1 _].
  destruct (issueScans_spec from _ _ s1 deadline H1) as (s2' & E & _ & _ & Hl).
  rewrite Hiss in E. injection E as <-. apply Hl; [done|]. rewrite Hlow. cbn. apply Z.ltb_lt.
  apply list_elem_of_lookup in Hg as [i Hgi].
  destruct (group_lookup from _ _ s1 i g H1 Hgi) as (buf & Hbuf & _).
  pose proof (go_width _ _ _ _ _ Hbuf). unfold wrap64, u64_max in *. rewrite Z.mod_small by lia. lia.
Qed.

(** C24. [fixStart] on a new source returns once the clock passes its deadline. If it fixes a
    start, that is the lowest bound any group reported, positive and below the maximum, every
    group has reported a bound at or above it, and what the source then releases is in each
    group a prefix of the records strictly above it. *)
Theorem fixStart_fixes ids o s deadline K :
  NoDup ids -> newSource ids o = Ok s -> (forall k, (K <= k)%nat -> deadline <= now_at env k) ->
  exists x, fixStart (S K) env s deadline = Some x /\
    match x with
    | Err e => e = CommandNotSupported
    | Ok (None, _) => exists k, deadline <= now_at env k
    | Ok (Some start, s1) =>
        1 <= start < u64_max /\ (forall g, g ∈ s_groups s1 -> start <= g_arrivalCompleteTs g) /\
        (exists g, g ∈ s_groups s1 /\ start = g_arrivalCompleteTs g) /\
        forall fuel deadlines out s2, pulls fuel env s1 deadlines = Some (Ok (out, s2)) ->
          exists recs, views out recs /\ times_from 0 recs /\
            forall id, id ∈ ids ->
              of_group id recs `prefix_of` records_from (sc_history id) (start + 1)
    end.
Proof.
  intros Hnd Hnew HK. destruct (newSource_fresh (env:=env) ids o s Hnd Hnew) as (Hfr & Hi & _).
  destruct (fixStart_loop_terminates (S K) s deadline (map (fun _ => false) (s_groups s)) true K Hfr)
    as [x Hx]; [by rewrite length_map|done|lia|].
  exists x. split; [unfold fixStart; by rewrite (fresh_unstarted _ Hfr)|].
  pose proof (fixStart_loop_spec (S K) s deadline _ true x Hfr ltac:(by rewrite length_map) Hx) as Ho.
  destruct x as [[[start|] s1]|e]; [|by destruct Ho as (_ & _ & ?)|done].
  destruct Ho as (Hi1 & Hr & Hge & Hex & Hok). split_and!; [lia|lia|done|done|].
  intros fuel ds out s2 Hp.
  destruct (pulls_spec _ fuel ds _ _ _ _ Hok Hp) as (Hi2 & recs & lastTs & Hv & Ht & [Hok2 _]).
  exists recs. split_and!; [done|done|]. intros id Hid.
  destruct (stream_prefix _ _ _ s2 id Hok2) as (g & buf & _ & Eg & Hg); [by rewrite Hi2, Hi1, Hi|].
  exists (buf ++ unfetched g). rewrite <- Eg. rewrite <- Eg in Hg. exact (go_split _ _ _ _ _ Hg).
Qed.

End Properties.

(** ** A concrete world *)

Section Prompt.

(** Groups that answer every scan at once with all they hold, none of it above 100, but for the
    group [silent], which never answers; the clock ticks. *)
Context (history : Z -> list LogRecord) (silent : Z).

Definition prompt_page (g : Z) (s : ScanStart) : list LogRecord :=
  start_rest (history g) (fun _ => []) s.

Definition prompt_response (g : Z) (req : CdcScanRequest) : CdcScanResponse :=
  let page := prompt_page g (rq_start req) in
  mkScanResponse Success [] (data_of page) (ddl_of page) 100 [] false.

Definition prompt_env : Env :=
  mkEnv Z.of_nat
    (fun k g req => if g =? silent then None
                    else Some (mkAnswer None (prompt_response g req) (Some 1) (Z.of_nat k)))
    (fun _ _ _ => None) (fun rs => Z.of_nat (length (rs_data rs))) 1002.

Definition prompt_contract :
  (forall g, wf_history (history g)) -> (forall g, Forall (fun r => rec_ts r <= 100) (history g)) ->
  ScanContract prompt_env.
Proof.
  intros Hw Hb. refine {| sc_history := history; sc_rest _ _ := []; sc_issued _ c := c = [] |}.
  - apply Hw.
  - intros k g req a Ha _ _ Hst. cbn in Ha. destruct (g =? silent); [done|]. injection Ha as <-.
    exists (prompt_page g (rq_start req)). split; [|done].
    split; cbn; try done.
    + by rewrite app_nil_r.
    + apply Forall_forall. intros r Hr. specialize (Hb g). rewrite Forall_forall in Hb.
      destruct (rq_start req); cbn in Hr; [by apply not_elem_of_nil in Hr| |by apply Hb].
      apply list_elem_of_In, filter_In in Hr as [Hr _]. by apply Hb, list_elem_of_In.
Defined.

End Prompt.

Definition ex_data (ts : Z) : LogRecord := LData (mkDataRecord ts 0 ts []).
Definition ex_ddl (ts : Z) : LogRecord := LDdl (mkDdlRecord ts ts ts (mkSchemaOp 3 true [] 0 false [] [])).

Definition ex_history (g : Z) : list LogRecord :=
  if g =? 1 then [ex_data 10; ex_ddl 20] else if g =? 2 then [ex_data 15] else [].

Definition ex_env (silent : Z) : Env := prompt_env ex_history silent.

Lemma ex_history_wf g : wf_history (ex_history g).
Proof.
  unfold ex_history. repeat case_match; split; repeat constructor; cbn; try done.
Qed.

Lemma ex_history_bound g : Forall (fun r => rec_ts r <= 100) (ex_history g).
Proof. unfold ex_history. repeat case_match; repeat constructor; done. Qed.

#[local] Instance ex_contract silent : ScanContract (ex_env silent) :=
  prompt_contract ex_history silent ex_history_wf ex_history_bound.

Definition ex_options : CdcScanSourceOptions :=
  mkSourceOptions 1000 100 30000 5000 100 1000 (mkClientOptions 50 1000).

Definition ex_source : CdcScanSource :=
  match open_at [1; 2] ex_options (fun _ => 1) with
  | Ok s => s
  | Err _ => mkSource ex_options [] (newClient [] (o_client ex_options)) [] 0 false
  end.

Definition ex_run (silent : Z) : list CdcSourceRecord * CdcScanSource :=
  match pulls 100 (ex_env silent) ex_source [50; 50; 50; 50] with
  | Some (Ok x) => x
  | _ => ([], ex_source)
  end.

Lemma ex_start id : id ∈ [1; 2] -> 1 <= (fun _ : Z => 1) id <= u64_max.
Proof. done. Qed.

Lemma ex_nodup : NoDup [1; 2].
Proof. apply (bool_decide_unpack _). vm_compute. done. Qed.

Lemma released_in_order_witness :
  exists recs, views (ex_run 0).1 recs /\ times_from 0 recs /\
    (forall id, id ∈ [1; 2] -> of_group id recs `prefix_of` records_from (ex_history id) 1) /\
    map (fun sr => match sr_record sr with Ok r => rec_ts r | Err _ => 0 end) (ex_run 0).1 = [10; 15; 20].
Proof.
  destruct (released_in_order (ex_env 0) [1; 2] ex_options (fun _ => 1) ex_source 100 [50; 50; 50; 50]
    (ex_run 0).1 (ex_run 0).2) as (recs & Hv & Ht & Hp).
  - exact ex_nodup.
  - exact ex_start.
  - vm_compute. reflexivity.
  - vm_compute. reflexivity.
  - exists recs. split_and!; [done|done|done|]. vm_compute. reflexivity.
Defined.

Lemma drained_watermark_witness :
  emitBound (ex_run 0).2 = 100 /\ exists recs, views (ex_run 0).1 recs /\
    forall id r, id ∈ [1; 2] -> r ∈ ex_history id -> 1 <= rec_ts r <= emitBound (ex_run 0).2 ->
      r ∈ of_group id recs.
Proof.
  split; [vm_compute; reflexivity|].
  destruct (drained_watermark (ex_env 0) [1; 2] ex_options (fun _ => 1) ex_source 100 [50; 50; 50; 50]
    (ex_run 0).1 (ex_run 0).2) as (recs & Hv & Hall).
  - exact ex_nodup.
  - exact ex_start.
  - vm_compute. reflexivity.
  - vm_compute. reflexivity.
  - vm_compute. reflexivity.
  - exists recs. split; [done|exact Hall].
Defined.

Lemma next_returns_witness :
  exists x, next 201 (ex_env 0) (ex_run 0).2 200 = Some x /\
    match x with Ok _ => True | Err e => cursor_error e end.
Proof.
  apply (next_returns (ex_env 0) [1; 2] ex_options (fun _ => 1) ex_source 100 [50; 50; 50; 50]
    (ex_run 0).1 (ex_run 0).2 200 200).
  - exact ex_nodup.
  - exact ex_start.
  - vm_compute. reflexivity.
  - vm_compute. reflexivity.
  - intros k Hk. cbn. lia.
Defined.

Lemma fixStart_fixes_witness :
  exists x, fixStart 51 (ex_env 0)
      (match newSource [1; 2] ex_options with Ok s => s | Err _ => ex_source end) 50 = Some x /\
    match x with Ok (Some start, _) => start = 100 | _ => False end.
Proof.
  destruct (fixStart_fixes (ex_env 0) [1; 2] ex_options
    (match newSource [1; 2] ex_options with Ok s => s | Err _ => ex_source end) 50 50)
    as (x & Hx & _).
  - exact ex_nodup.
  - vm_compute. reflexivity.
  - intros k Hk. cbn. lia.
  - exists x. split; [done|]. vm_compute in Hx. injection Hx as <-. reflexivity.
Defined.

(** Group 2 is silent and holds back group 1's first record. *)
Definition ex_blocked : CdcScanSource :=
  match pickReleasable (ex_run 2).2 with Ok (_, s) => s | Err _ => ex_source end.
Definition ex_issued : CdcScanSource :=
  match issueScans (ex_env 2) ex_blocked 100 with Ok s => s | Err _ => ex_source end.

Lemma blocking_group_fetched_witness :
  exists g, g ∈ s_groups ex_blocked /\ g_id g = 2 /\
    (is_Some (pending (s_client ex_issued) 2) \/
     exists t, readyAt (s_client ex_blocked) 2 = Ok t /\
       now_at (ex_env 2) (c_tick (s_client ex_blocked)) < t).
Proof.
  destruct (s_groups ex_blocked !! 1%nat) as [g|] eqn:Eg; [|vm_compute in Eg; done].
  exists g. assert (g_id g = 2 /\ g_scannedTs g = 0) as [E1 E2]
    by (vm_compute in Eg; injection Eg as <-; done).
  split_and!; [by eapply list_elem_of_lookup_2|done|]. rewrite <- E1.
  eapply (blocking_group_fetched (ex_env 2) [1; 2] ex_options (fun _ => 1) ex_source 100
    [50; 50; 50; 50] (ex_run 2).1 (ex_run 2).2 ex_blocked ex_issued 100 g 10).
  - exact ex_nodup.
  - exact ex_start.
  - vm_compute. reflexivity.
  - vm_compute. reflexivity.
  - vm_compute. reflexivity.
  - vm_compute. reflexivity.
  - vm_compute. reflexivity.
  - by eapply list_elem_of_lookup_2.
  - rewrite E2. done.
Defined.
