(* ===== verification/FakeLogService.v ===== *)
(** * The scripted log service (cdc/cdc_fake_log_service.{h,cpp})

    A transport that serves CdcScan from scripted records with the logger's paging contract.
    Its answers are proved to keep [ScanContract], so everything proved of the scan source
    holds over it, and every call's closure is proved to run exactly once. Record sizes are
    protobuf's ([dataBytes], [ddlBytes], parameters). *)

From stdpp Require Import pretty.
From S2P Require Import Prelude Bytes Bson LogService ScanClient ScanContract.
#[local] Open Scope Z_scope.

(** ** Positions and continuations *)

Record Position := mkPosition {
  p_dataKey : bytes;
  p_ddlKey : bytes;
}.

(** One key of a continuation, and what follows it. *)
Definition readKey (c : bytes) : result (bytes * bytes) :=
  let! _ := invariant (2 <=? blen c) in
  let length := Z.to_nat (readBigEndian (take 2 c)) in
  let c := drop 2 c in
  let! _ := invariant (Z.of_nat length <=? blen c) in
  Ok (take length c, drop length c).

Definition decodeContinuation (c : bytes) : result Position :=
  let! (dataKey, c) := readKey c in
  let! (ddlKey, c) := readKey c in
  let! _ := invariant (bool_decide (c = [])) in
  Ok (mkPosition dataKey ddlKey).

Definition encodeContinuation (p : Position) : bytes :=
  appendBigEndian (blen (p_dataKey p)) 2 ++ p_dataKey p ++
  appendBigEndian (blen (p_ddlKey p)) 2 ++ p_ddlKey p.

(** ** State *)

Inductive FakeCompletion := kInline | kAsync | kHeld.

Record FakeAction := mkFakeAction {
  fa_fail : bool;
  fa_redirect : bytes;
}.

(** A call that has not been answered, named by its controller. *)
Record PendingCall := mkPendingCall {
  pc_cntl : Z;
  pc_request : CdcScanRequest;
}.

(** std::map<std::string, T>: ascending by key. *)
Abbreviation keyed T := (list (bytes * T)).

Record FakeGroup := mkFakeGroup {
  fg_data : keyed CdcDataRecord;
  fg_ddl : keyed CdcDdlRecord;
  fg_bound : Z;
  fg_floor : Z;
  fg_actions : list FakeAction;
  fg_nodes : list (Z * list bytes);
  fg_leader : Z;
  fg_failureCode : Z;
  fg_mode : FakeCompletion;
  fg_held : list PendingCall;
  fg_requests : list CdcScanRequest;
  fg_targets : list Z;
  fg_nodesFollowed : list Z;
  fg_refreshes : Z;
}.

(** How a call was answered: the controller's error code if it failed, and the response. *)
Record FakeAnswer := mkFakeAnswer {
  fan_failed : option Z;
  fan_response : CdcScanResponse;
}.

(** [fs_async] are the calls the answering threads still have to answer; [fs_done] the closures
    run so far, latest first, with the answer each found. *)
Record CdcFakeLogService := mkFake {
  fs_logGroupIds : list Z;
  fs_groups : gmap Z FakeGroup;
  fs_cancelRunsDone : bool;
  fs_cancels : Z;
  fs_async : list (Z * PendingCall);
  fs_done : list (Z * FakeAnswer);
}.

(** ** Ordered maps *)

(** [m\[k\] = v]. *)
Fixpoint map_set {T} (k : bytes) (v : T) (m : keyed T) : keyed T :=
  match m with
  | [] => [(k, v)]
  | (k', v') :: m' =>
      match bytes_compare k k' with
      | Lt => (k, v) :: m
      | Eq => (k, v) :: m'
      | Gt => (k', v') :: map_set k v m'
      end
  end.

Fixpoint upper_bound {T} (m : keyed T) (k : bytes) : keyed T :=
  match m with
  | [] => []
  | (k', _) :: m' => if bytes_ltb k k' then m else upper_bound m' k
  end.

(** ** Answering *)

Section Answer.

Context (dataBytes : CdcDataRecord -> Z) (ddlBytes : CdcDdlRecord -> Z).
(** errno's EHOSTDOWN and ECANCELED. *)
Context (EHOSTDOWN ECANCELED : Z).

(** The paging loop of [_answer]: the records taken, the position after them and whether the
    page was cut. Each round takes one record, so the two maps' lengths bound the rounds. *)
Fixpoint page_loop (fuel : nat) (bound maxBytes : Z) (data : keyed CdcDataRecord)
    (ddl : keyed CdcDdlRecord) (pos : Position) (pageBytes : Z)
    : list CdcDataRecord * list CdcDdlRecord * Position * bool :=
  match fuel with
  | O => ([], [], pos, false)
  | S fuel =>
      let haveData := match data with (_, d) :: _ => dr_commit_ts d <=? bound | [] => false end in
      let haveDdl := match ddl with (_, d) :: _ => lr_ddl_ts d <=? bound | [] => false end in
      let takeData := haveData && (negb haveDdl ||
        match data, ddl with
        | (_, d) :: _, (_, l) :: _ => dr_commit_ts d <=? lr_ddl_ts l
        | _, _ => true
        end) in
      if takeData then
        match data with
        | (k, d) :: data' =>
            if (0 <? pageBytes) && (maxBytes <? pageBytes + dataBytes d) then ([], [], pos, true)
            else
              let '(ds, ls, p, more) :=
                page_loop fuel bound maxBytes data' ddl (mkPosition k (p_ddlKey pos))
                  (pageBytes + dataBytes d) in
              (d :: ds, ls, p, more)
        | [] => ([], [], pos, false)
        end
      else if haveDdl then
        match ddl with
        | (k, l) :: ddl' =>
            if (0 <? pageBytes) && (maxBytes <? pageBytes + ddlBytes l) then ([], [], pos, true)
            else
              let '(ds, ls, p, more) :=
                page_loop fuel bound maxBytes data ddl' (mkPosition (p_dataKey pos) k)
                  (pageBytes + ddlBytes l) in
              (ds, l :: ls, p, more)
        | [] => ([], [], pos, false)
        end
      else ([], [], pos, false)
  end.

(** Where a request starts, and the timestamp the retention floor is checked against. *)
Definition start_position (s : ScanStart) : result (Position * Z) :=
  match s with
  | start_continuation c =>
      let! p := decodeContinuation c in
      Ok (p, if 8 <=? blen (p_dataKey p) then readBigEndian (take 8 (p_dataKey p))
             else if 8 <=? blen (p_ddlKey p) then readBigEndian (take 8 (p_ddlKey p))
             else 0)
  | start_from_ts ts =>
      let key := appendBigEndian ts 8 in Ok (mkPosition key key, ts)
  | start_unset => Ok (mkPosition [] [], 0)
  end.

Definition set_actions (a : list FakeAction) (g : FakeGroup) : FakeGroup :=
  mkFakeGroup (fg_data g) (fg_ddl g) (fg_bound g) (fg_floor g) a (fg_nodes g) (fg_leader g)
    (fg_failureCode g) (fg_mode g) (fg_held g) (fg_requests g) (fg_targets g)
    (fg_nodesFollowed g) (fg_refreshes g).

Definition answer (g : FakeGroup) (request : CdcScanRequest) : result (FakeAnswer * FakeGroup) :=
  if negb (fg_failureCode g =? 0) then
    Ok (mkFakeAnswer (Some (fg_failureCode g)) emptyResponse, g)
  else
    match fg_actions g with
    | action :: actions =>
        let g := set_actions actions g in
        if fa_fail action then Ok (mkFakeAnswer (Some EHOSTDOWN) emptyResponse, g)
        else Ok (mkFakeAnswer None (mkScanResponse NotLeader (fa_redirect action) [] [] 0 [] false), g)
    | [] =>
        let! (pos, positionTs) := start_position (rq_start request) in
        if negb (fg_floor g =? 0) && negb (positionTs =? 0) && (positionTs <=? fg_floor g) then
          Ok (mkFakeAnswer None (mkScanResponse PositionTruncated [] [] [] 0 [] false), g)
        else
          let data := upper_bound (fg_data g) (p_dataKey pos) in
          let ddl := upper_bound (fg_ddl g) (p_ddlKey pos) in
          let '(ds, ls, pos, hasMore) :=
            page_loop (S (length data + length ddl)) (fg_bound g) (rq_max_bytes request) data ddl pos 0 in
          Ok (mkFakeAnswer None
                (mkScanResponse Success [] ds ls (fg_bound g) (encodeContinuation pos) hasMore), g)
    end.

(** ** The service *)

Definition set_data (x : keyed CdcDataRecord) (g : FakeGroup) : FakeGroup :=
  mkFakeGroup x (fg_ddl g) (fg_bound g) (fg_floor g) (fg_actions g) (fg_nodes g) (fg_leader g)
    (fg_failureCode g) (fg_mode g) (fg_held g) (fg_requests g) (fg_targets g)
    (fg_nodesFollowed g) (fg_refreshes g).
Definition set_ddl (x : keyed CdcDdlRecord) (g : FakeGroup) : FakeGroup :=
  mkFakeGroup (fg_data g) x (fg_bound g) (fg_floor g) (fg_actions g) (fg_nodes g) (fg_leader g)
    (fg_failureCode g) (fg_mode g) (fg_held g) (fg_requests g) (fg_targets g)
    (fg_nodesFollowed g) (fg_refreshes g).
Definition set_bound (x : Z) (g : FakeGroup) : FakeGroup :=
  mkFakeGroup (fg_data g) (fg_ddl g) x (fg_floor g) (fg_actions g) (fg_nodes g) (fg_leader g)
    (fg_failureCode g) (fg_mode g) (fg_held g) (fg_requests g) (fg_targets g)
    (fg_nodesFollowed g) (fg_refreshes g).
Definition set_floor (x : Z) (g : FakeGroup) : FakeGroup :=
  mkFakeGroup (fg_data g) (fg_ddl g) (fg_bound g) x (fg_actions g) (fg_nodes g) (fg_leader g)
    (fg_failureCode g) (fg_mode g) (fg_held g) (fg_requests g) (fg_targets g)
    (fg_nodesFollowed g) (fg_refreshes g).
Definition set_nodes (x : list (Z * list bytes)) (g : FakeGroup) : FakeGroup :=
  mkFakeGroup (fg_data g) (fg_ddl g) (fg_bound g) (fg_floor g) (fg_actions g) x (fg_leader g)
    (fg_failureCode g) (fg_mode g) (fg_held g) (fg_requests g) (fg_targets g)
    (fg_nodesFollowed g) (fg_refreshes g).
Definition set_leader (x : Z) (g : FakeGroup) : FakeGroup :=
  mkFakeGroup (fg_data g) (fg_ddl g) (fg_bound g) (fg_floor g) (fg_actions g) (fg_nodes g) x
    (fg_failureCode g) (fg_mode g) (fg_held g) (fg_requests g) (fg_targets g)
    (fg_nodesFollowed g) (fg_refreshes g).
Definition set_failureCode (x : Z) (g : FakeGroup) : FakeGroup :=
  mkFakeGroup (fg_data g) (fg_ddl g) (fg_bound g) (fg_floor g) (fg_actions g) (fg_nodes g)
    (fg_leader g) x (fg_mode g) (fg_held g) (fg_requests g) (fg_targets g)
    (fg_nodesFollowed g) (fg_refreshes g).
Definition set_mode (x : FakeCompletion) (g : FakeGroup) : FakeGroup :=
  mkFakeGroup (fg_data g) (fg_ddl g) (fg_bound g) (fg_floor g) (fg_actions g) (fg_nodes g)
    (fg_leader g) (fg_failureCode g) x (fg_held g) (fg_requests g) (fg_targets g)
    (fg_nodesFollowed g) (fg_refreshes g).
Definition set_held (x : list PendingCall) (g : FakeGroup) : FakeGroup :=
  mkFakeGroup (fg_data g) (fg_ddl g) (fg_bound g) (fg_floor g) (fg_actions g) (fg_nodes g)
    (fg_leader g) (fg_failureCode g) (fg_mode g) x (fg_requests g) (fg_targets g)
    (fg_nodesFollowed g) (fg_refreshes g).
Definition log_scan (rq : CdcScanRequest) (g : FakeGroup) : FakeGroup :=
  mkFakeGroup (fg_data g) (fg_ddl g) (fg_bound g) (fg_floor g) (fg_actions g) (fg_nodes g)
    (fg_leader g) (fg_failureCode g) (fg_mode g) (fg_held g) (fg_requests g ++ [rq])
    (fg_targets g ++ [fg_leader g]) (fg_nodesFollowed g) (fg_refreshes g).
Definition log_follow (node : Z) (g : FakeGroup) : FakeGroup :=
  mkFakeGroup (fg_data g) (fg_ddl g) (fg_bound g) (fg_floor g) (fg_actions g) (fg_nodes g)
    node (fg_failureCode g) (fg_mode g) (fg_held g) (fg_requests g) (fg_targets g)
    (fg_nodesFollowed g ++ [node]) (fg_refreshes g).
Definition log_refresh (g : FakeGroup) : FakeGroup :=
  mkFakeGroup (fg_data g) (fg_ddl g) (fg_bound g) (fg_floor g) (fg_actions g) (fg_nodes g)
    (fg_leader g) (fg_failureCode g) (fg_mode g) (fg_held g) (fg_requests g) (fg_targets g)
    (fg_nodesFollowed g) (fg_refreshes g + 1).

Definition newFakeGroup (id : Z) : FakeGroup :=
  mkFakeGroup [] [] 0 0 []
    [(0, [lit ("log-" +:+ pretty (Z.to_N id) +:+ "-a:9000")])] 0 0 kInline [] [] [] [] 0.

Definition newFake (ids : list Z) : CdcFakeLogService :=
  mkFake ids (list_to_map (map (fun id => (id, newFakeGroup id)) ids)) true 0 [] [].

Definition put_groups (gs : gmap Z FakeGroup) (s : CdcFakeLogService) : CdcFakeLogService :=
  mkFake (fs_logGroupIds s) gs (fs_cancelRunsDone s) (fs_cancels s) (fs_async s) (fs_done s).
Definition put_async (x : list (Z * PendingCall)) (s : CdcFakeLogService) : CdcFakeLogService :=
  mkFake (fs_logGroupIds s) (fs_groups s) (fs_cancelRunsDone s) (fs_cancels s) x (fs_done s).
Definition put_done (x : list (Z * FakeAnswer)) (s : CdcFakeLogService) : CdcFakeLogService :=
  mkFake (fs_logGroupIds s) (fs_groups s) (fs_cancelRunsDone s) (fs_cancels s) (fs_async s) x.

Definition fake_group (s : CdcFakeLogService) (id : Z) : result FakeGroup :=
  match fs_groups s !! id with Some g => Ok g | None => Err InvariantFailure end.

(** Replacing the state of one group. *)
Definition on_group (s : CdcFakeLogService) (id : Z) (f : FakeGroup -> FakeGroup)
    : result CdcFakeLogService :=
  let! g := fake_group s id in Ok (put_groups (<[id := f g]> (fs_groups s)) s).

Definition addDataBlob (s : CdcFakeLogService) (id commitTs ngId txn : Z) (blob : bytes)
    : result CdcFakeLogService :=
  on_group s id (fun g =>
    set_data (map_set (data_key commitTs ngId txn) (mkDataRecord commitTs ngId txn blob) (fg_data g)) g).

Definition addData (s : CdcFakeLogService) (id commitTs ngId txn : Z) (blobBytes : nat)
    : result CdcFakeLogService :=
  addDataBlob s id commitTs ngId txn
    (map (fun i => Z_byte (Z.land (txn + Z.of_nat i) 255)) (seq 0 blobBytes)).

Definition addDdl (s : CdcFakeLogService) (id ddlTs txn : Z) (op : SchemaOpMessage)
    : result CdcFakeLogService :=
  on_group s id (fun g =>
    set_ddl (map_set (ddl_key ddlTs txn) (mkDdlRecord ddlTs ddlTs txn op) (fg_ddl g)) g).

Definition setBound (s : CdcFakeLogService) (id bound : Z) := on_group s id (set_bound bound).
Definition setRetentionFloor (s : CdcFakeLogService) (id floor : Z) := on_group s id (set_floor floor).
Definition failNext (s : CdcFakeLogService) (id : Z) :=
  on_group s id (fun g => set_actions (fg_actions g ++ [mkFakeAction true []]) g).
Definition setFailureCode (s : CdcFakeLogService) (id code : Z) := on_group s id (set_failureCode code).
Definition notLeaderNext (s : CdcFakeLogService) (id : Z) (redirect : bytes) :=
  on_group s id (fun g => set_actions (fg_actions g ++ [mkFakeAction false redirect]) g).
Definition setCompletion (s : CdcFakeLogService) (id : Z) (m : FakeCompletion) :=
  on_group s id (set_mode m).

(** [nodes\[nodeId\]] with the addresses inserted; ascending by node id. *)
Fixpoint add_addresses (nodes : list (Z * list bytes)) (node : Z) (addresses : list bytes)
    : list (Z * list bytes) :=
  match nodes with
  | [] => [(node, addresses)]
  | (n, known) :: nodes' =>
      if node <? n then (node, addresses) :: nodes
      else if node =? n then (n, known ++ addresses) :: nodes'
      else (n, known) :: add_addresses nodes' node addresses
  end.

Definition addNode (s : CdcFakeLogService) (id node : Z) (addresses : list bytes) :=
  on_group s id (fun g => set_nodes (add_addresses (fg_nodes g) node addresses) g).

Definition has_node (g : FakeGroup) (node : Z) : bool := bool_decide (node ∈ map fst (fg_nodes g)).

Definition setLeader (s : CdcFakeLogService) (id node : Z) : result CdcFakeLogService :=
  let! g := fake_group s id in
  let! _ := invariant (has_node g node) in
  on_group s id (set_leader node).

Definition setCancelRunsDone (s : CdcFakeLogService) (b : bool) : CdcFakeLogService :=
  mkFake (fs_logGroupIds s) (fs_groups s) b (fs_cancels s) (fs_async s) (fs_done s).

Definition heldCount (s : CdcFakeLogService) (id : Z) : result Z :=
  let! g := fake_group s id in Ok (Z.of_nat (length (fg_held g))).

(** Answers a call and runs its closure. *)
Definition answer_call (s : CdcFakeLogService) (id : Z) (call : PendingCall)
    : result CdcFakeLogService :=
  let! g := fake_group s id in
  let! (a, g) := answer g (pc_request call) in
  Ok (put_done ((pc_cntl call, a) :: fs_done s) (put_groups (<[id := g]> (fs_groups s)) s)).

Fixpoint answer_calls (s : CdcFakeLogService) (id : Z) (calls : list PendingCall)
    : result CdcFakeLogService :=
  match calls with
  | [] => Ok s
  | call :: calls' => let! s := answer_call s id call in answer_calls s id calls'
  end.

(** The held calls are answered from the script as it is now, then their closures run. *)
Definition releaseHeld (s : CdcFakeLogService) (id : Z) : result CdcFakeLogService :=
  let! g := fake_group s id in
  let! s := on_group s id (set_held []) in
  answer_calls s id (fg_held g).

Definition scan (s : CdcFakeLogService) (id : Z) (call : PendingCall)
    : result (Z * CdcFakeLogService) :=
  let! g := fake_group s id in
  let! s := on_group s id (log_scan (pc_request call)) in
  match fg_mode g with
  | kInline => let! s := answer_call s id call in Ok (fg_leader g, s)
  | kAsync => Ok (fg_leader g, put_async (fs_async s ++ [(id, call)]) s)
  | kHeld =>
      let! s := on_group s id (fun g => set_held (fg_held g ++ [call]) g) in Ok (fg_leader g, s)
  end.

(** An answering thread runs: the [i]th of the calls handed to threads is answered. *)
Definition run_async (s : CdcFakeLogService) (i : nat) : result CdcFakeLogService :=
  match fs_async s !! i with
  | None => Ok s
  | Some (id, call) => answer_call (put_async (delete i (fs_async s)) s) id call
  end.

Definition find_node (nodes : list (Z * list bytes)) (address : bytes) : option Z :=
  match List.find (fun p => bool_decide (address ∈ p.2)) nodes with
  | Some p => Some p.1
  | None => None
  end.

Definition fake_nodeByAddress (s : CdcFakeLogService) (id : Z) (address : bytes) : result (option Z) :=
  let! g := fake_group s id in Ok (find_node (fg_nodes g) address).

Definition followNode (s : CdcFakeLogService) (id node : Z) : result CdcFakeLogService :=
  let! g := fake_group s id in
  let! _ := invariant (has_node g node) in
  on_group s id (log_follow node).

Definition requestLeaderRefresh (s : CdcFakeLogService) (id : Z) := on_group s id log_refresh.

Definition failed (code : Z) : FakeAnswer := mkFakeAnswer (Some code) emptyResponse.

(** The first held call with the controller, over the groups in order of id. *)
Fixpoint take_held (cntl : Z) (held : list PendingCall) : option (list PendingCall) :=
  match held with
  | [] => None
  | c :: held' =>
      if pc_cntl c =? cntl then Some held' else (fun h => c :: h) <$> take_held cntl held'
  end.

Fixpoint cancel_in (s : CdcFakeLogService) (ids : list Z) (cntl : Z) : CdcFakeLogService :=
  match ids with
  | [] => s
  | id :: ids' =>
      match fs_groups s !! id with
      | None => cancel_in s ids' cntl
      | Some g =>
          match take_held cntl (fg_held g) with
          | Some held => put_done ((cntl, failed ECANCELED) :: fs_done s)
                           (put_groups (<[id := set_held held g]> (fs_groups s)) s)
          | None => cancel_in s ids' cntl
          end
      end
  end.

Definition cancel (s : CdcFakeLogService) (cntl : Z) : CdcFakeLogService :=
  let s := mkFake (fs_logGroupIds s) (fs_groups s) (fs_cancelRunsDone s) (fs_cancels s + 1)
             (fs_async s) (fs_done s) in
  if fs_cancelRunsDone s then cancel_in s (fs_logGroupIds s) cntl else s.

(** The destructor: the threads are joined, which answers their calls, and every call still
    held fails. *)
Fixpoint join_all (s : CdcFakeLogService) (n : nat) : result CdcFakeLogService :=
  match n with
  | O => Ok s
  | S n => let! s := run_async s 0 in join_all s n
  end.

Fixpoint fail_held (s : CdcFakeLogService) (ids : list Z) : result CdcFakeLogService :=
  match ids with
  | [] => Ok s
  | id :: ids' =>
      let! g := fake_group s id in
      let! s := on_group s id (set_held []) in
      fail_held (put_done (rev (map (fun c => (pc_cntl c, failed ECANCELED)) (fg_held g)) ++ fs_done s) s) ids'
  end.

Definition destroyFake (s : CdcFakeLogService) : result CdcFakeLogService :=
  let! s := join_all s (length (fs_async s)) in fail_held s (fs_logGroupIds s).
End Answer.

(** * The paging contract holds *)

(** The record lies after the position in its stream. *)
Definition after (p : Position) (r : LogRecord) : bool :=
  bytes_ltb (match r with LData _ => p_dataKey p | LDdl _ => p_ddlKey p end) (rec_key r).

(** The position right after a record that was taken. *)
Definition advance_pos (p : Position) (r : LogRecord) : Position :=
  match r with
  | LData _ => mkPosition (rec_key r) (p_ddlKey p)
  | LDdl _ => mkPosition (p_dataKey p) (rec_key r)
  end.

Definition rest_after (h : list LogRecord) (p : Position) : list LogRecord := List.filter (after p) h.

Abbreviation upto b l := (List.filter (fun r => rec_ts r <=? b) l).

Lemma data_of_filter f h :
  data_of (List.filter f h) = List.filter (fun d => f (LData d)) (data_of h).
Proof. induction h as [|[d|d] h IH]; cbn; [done| |]; destruct (f _); cbn; by rewrite IH. Qed.

Lemma ddl_of_filter f h :
  ddl_of (List.filter f h) = List.filter (fun d => f (LDdl d)) (ddl_of h).
Proof. induction h as [|[d|d] h IH]; cbn; [done| |]; destruct (f _); cbn; by rewrite IH. Qed.

Lemma filter_comm {A} (f g : A -> bool) l :
  List.filter f (List.filter g l) = List.filter g (List.filter f l).
Proof.
  induction l as [|x l IH]; cbn; [done|].
  destruct (f x) eqn:Ef, (g x) eqn:Eg; cbn; rewrite ?Ef, ?Eg, IH; done.
Qed.

Lemma filter_all {A} (f : A -> bool) l : (forall x, x ∈ l -> f x = true) -> List.filter f l = l.
Proof.
  induction l as [|x l IH]; intros H; cbn; [done|]. rewrite H by left.
  f_equal. apply IH. intros; apply H; by right.
Qed.

Lemma filter_none {A} (f : A -> bool) l : (forall x, x ∈ l -> f x = false) -> List.filter f l = [].
Proof.
  induction l as [|x l IH]; intros H; cbn; [done|]. rewrite H by left.
  apply IH. intros; apply H; by right.
Qed.

Lemma filter_imp {A} (f g : A -> bool) l :
  (forall x, x ∈ l -> f x = true -> g x = true) -> List.filter f (List.filter g l) = List.filter f l.
Proof.
  induction l as [|x l IH]; intros H; cbn; [done|].
  assert (List.filter f (List.filter g l) = List.filter f l) as E by (apply IH; intros; apply H; [by right|done]).
  destruct (f x) eqn:Ef.
  - rewrite (H x) by (by left || done). cbn. by rewrite Ef, E.
  - destruct (g x); cbn; by rewrite ?Ef, E.
Qed.

(** Within one stream the merged order is the key order. *)
Lemma rec_lt_key a b :
  wf_record a -> wf_record b -> rec_lt a b ->
  match a, b with LData _, LDdl _ => True | LDdl _, LData _ => True | _, _ => bytes_lt (rec_key a) (rec_key b) end.
Proof.
  intros Ha Hb [Hlt|[_ Hk]]; [|by destruct a, b].
  pose proof (rec_key_ts a b Ha Hb Hlt). by destruct a, b.
Qed.

(** Taking the first record left moves the position exactly past it. *)
Lemma rest_after_advance h p r rest :
  wf_history h -> rest_after h p = r :: rest -> rest_after h (advance_pos p r) = rest.
Proof.
  intros Hh E.
  assert (wf_history (r :: rest)) as [Hw Hs].
  { destruct Hh as [Hw Hs]. rewrite <- E. split; [|by apply StronglySorted_filter].
    apply Forall_forall. intros x Hx. apply list_elem_of_In, filter_In in Hx as [Hx _].
    by apply (proj1 (Forall_forall _ _) Hw), list_elem_of_In. }
  assert (after p r = true) as Hr.
  { assert (r ∈ rest_after h p) as Hin by (rewrite E; left).
    by apply list_elem_of_In, filter_In in Hin as [_ ?]. }
  apply Forall_cons in Hw as [Hwr Hw]. apply StronglySorted_inv in Hs as [_ Hs].
  unfold rest_after. rewrite <- (filter_imp _ (after p)).
  - unfold rest_after in E. rewrite E. cbn.
    assert (after (advance_pos p r) r = false) as ->.
    { apply not_true_is_false. intros H. destruct r; cbn in H; by apply bytes_lt_irrefl in H. }
    apply filter_all. intros x Hx.
    pose proof (rec_lt_key r x Hwr (proj1 (Forall_forall _ _) Hw x Hx) (proj1 (Forall_forall _ _) Hs x Hx)) as Hlt.
    assert (after p x = true) as Hpx.
    { assert (x ∈ List.filter (after p) h) as Hin by (rewrite E; by right).
      by apply list_elem_of_In, filter_In in Hin as [_ ?]. }
    by destruct r, x.
  - intros x _ Hx. destruct r, x; cbn in *; try done; by eapply bytes_lt_trans.
Qed.

Section Paging.

Context (dataBytes : CdcDataRecord -> Z) (ddlBytes : CdcDdlRecord -> Z).
Context (h : list LogRecord) (Hh : wf_history h) (bound maxBytes : Z).

Definition data_upto (m : keyed CdcDataRecord) : list CdcDataRecord :=
  List.filter (fun d => dr_commit_ts d <=? bound) (map snd m).
Definition ddl_upto (m : keyed CdcDdlRecord) : list CdcDdlRecord :=
  List.filter (fun d => lr_ddl_ts d <=? bound) (map snd m).

(** A stream's map: keyed by the records' own keys, in key order. *)
Definition data_map_ok (m : keyed CdcDataRecord) : Prop :=
  Forall (fun p => p.1 = dataKey p.2 /\ wf_record (LData p.2)) m /\
  StronglySorted (fun p q => bytes_lt p.1 q.1) m.
Definition ddl_map_ok (m : keyed CdcDdlRecord) : Prop :=
  Forall (fun p => p.1 = ddlKey p.2 /\ wf_record (LDdl p.2)) m /\
  StronglySorted (fun p q => bytes_lt p.1 q.1) m.

Lemma data_map_inv p m : data_map_ok (p :: m) ->
  data_map_ok m /\ p.1 = dataKey p.2 /\ (bound < dr_commit_ts p.2 -> data_upto (p :: m) = []).
Proof.
  intros [Hk Hs]. apply Forall_cons in Hk as [[Ek Hw] Hk]. apply StronglySorted_inv in Hs as [Hs Hp].
  split_and!; [done|done|]. intros Hb. apply filter_none. intros d Hd. apply Z.leb_gt.
  apply elem_of_cons in Hd as [->|Hd]; [done|].
  apply list_elem_of_fmap in Hd as (q & -> & Hq).
  rewrite Forall_forall in Hk, Hp. destruct (Hk q Hq) as [Eq Hwq]. specialize (Hp q Hq).
  rewrite Ek, Eq in Hp. pose proof (rec_key_le (LData p.2) (LData q.2) Hw Hwq Hp) as Hle. cbn in Hle. lia.
Qed.

Lemma ddl_map_inv p m : ddl_map_ok (p :: m) ->
  ddl_map_ok m /\ p.1 = ddlKey p.2 /\ (bound < lr_ddl_ts p.2 -> ddl_upto (p :: m) = []).
Proof.
  intros [Hk Hs]. apply Forall_cons in Hk as [[Ek Hw] Hk]. apply StronglySorted_inv in Hs as [Hs Hp].
  split_and!; [done|done|]. intros Hb. apply filter_none. intros d Hd. apply Z.leb_gt.
  apply elem_of_cons in Hd as [->|Hd]; [done|].
  apply list_elem_of_fmap in Hd as (q & -> & Hq).
  rewrite Forall_forall in Hk, Hp. destruct (Hk q Hq) as [Eq Hwq]. specialize (Hp q Hq).
  rewrite Ek, Eq in Hp. pose proof (rec_key_le (LDdl p.2) (LDdl q.2) Hw Hwq Hp) as Hle. cbn in Hle. lia.
Qed.

Lemma upto_nil l : upto bound l = [] -> Forall (fun r => bound < rec_ts r) l.
Proof.
  induction l as [|r l IH]; cbn; [done|]. destruct (Z.leb_spec (rec_ts r) bound); [done|]. auto.
Qed.

Lemma upto_cons l r l' :
  wf_history l -> upto bound l = r :: l' -> exists l1, l = r :: l1 /\ l' = upto bound l1 /\ rec_ts r <= bound.
Proof.
  intros [_ Hs] E. destruct l as [|x l]; [done|]. cbn in E.
  destruct (Z.leb_spec (rec_ts x) bound) as [|Hlt]; [injection E as -> <-; by exists l|].
  exfalso. apply sorted_cons_ts in Hs. assert (r ∈ upto bound l) as Hr by (rewrite E; left).
  apply list_elem_of_In, filter_In in Hr as [Hr Hle]. apply list_elem_of_In in Hr.
  apply Z.leb_le in Hle. pose proof (proj1 (Forall_forall _ _) Hs r Hr) as Hle'. cbn in Hle'. lia.
Qed.

(** The loop's state: the iterators are where the position is, and what they reach at or below
    the bound is what is left of the history there. *)
Record loop_ok (pos : Position) (data : keyed CdcDataRecord) (ddl : keyed CdcDdlRecord) : Prop := {
  lo_data : data_map_ok data;
  lo_ddl : ddl_map_ok ddl;
  lo_data_upto : data_upto data = data_of (upto bound (rest_after h pos));
  lo_ddl_upto : ddl_upto ddl = ddl_of (upto bound (rest_after h pos));
}.

Definition have_data (data : keyed CdcDataRecord) : bool :=
  match data with (_, d) :: _ => dr_commit_ts d <=? bound | [] => false end.
Definition have_ddl (ddl : keyed CdcDdlRecord) : bool :=
  match ddl with (_, d) :: _ => lr_ddl_ts d <=? bound | [] => false end.

Lemma data_upto_head data :
  data_map_ok data ->
  match data_upto data with
  | [] => have_data data = false
  | d :: ds => have_data data = true /\ exists data', data = (dataKey d, d) :: data' /\ data_upto data' = ds
  end.
Proof.
  destruct data as [|[k d] data]; [done|]. intros H. destruct (data_map_inv _ _ H) as (_ & Ek & Hn).
  cbn in *. unfold data_upto in *. cbn in *. destruct (Z.leb_spec (dr_commit_ts d) bound) as [Hle|Hlt].
  - subst k. eauto.
  - by rewrite Hn.
Qed.

Lemma ddl_upto_head ddl :
  ddl_map_ok ddl ->
  match ddl_upto ddl with
  | [] => have_ddl ddl = false
  | d :: ds => have_ddl ddl = true /\ exists ddl', ddl = (ddlKey d, d) :: ddl' /\ ddl_upto ddl' = ds
  end.
Proof.
  destruct ddl as [|[k d] ddl]; [done|]. intros H. destruct (ddl_map_inv _ _ H) as (_ & Ek & Hn).
  cbn in *. unfold ddl_upto in *. cbn in *. destruct (Z.leb_spec (lr_ddl_ts d) bound) as [Hle|Hlt].
  - subst k. eauto.
  - by rewrite Hn.
Qed.

Lemma rest_after_wf pos : wf_history (rest_after h pos).
Proof.
  destruct Hh as [Hw Hs]. split; [|by apply StronglySorted_filter].
  apply Forall_forall. intros x Hx. apply list_elem_of_In, filter_In in Hx as [Hx _].
  by apply (proj1 (Forall_forall _ _) Hw), list_elem_of_In.
Qed.

(** What the loop does next is decided by the first record left at or below the bound. *)
Lemma loop_next pos data ddl :
  loop_ok pos data ddl ->
  match upto bound (rest_after h pos) with
  | [] => have_data data = false /\ have_ddl ddl = false
  | LData d :: _ => have_data data = true /\
      (exists data', data = (dataKey d, d) :: data' /\
         loop_ok (advance_pos pos (LData d)) data' ddl) /\
      forall k l ddl', ddl = (k, l) :: ddl' -> have_ddl ddl = true -> dr_commit_ts d <= lr_ddl_ts l
  | LDdl l :: _ => have_ddl ddl = true /\
      (exists ddl', ddl = (ddlKey l, l) :: ddl' /\
         loop_ok (advance_pos pos (LDdl l)) data ddl') /\
      forall k d data', data = (k, d) :: data' -> have_data data = true -> lr_ddl_ts l < dr_commit_ts d
  end.
Proof.
  intros [Hd Hl Ed El]. pose proof (rest_after_wf pos) as Hw.
  pose proof (data_upto_head _ Hd) as Hdh. pose proof (ddl_upto_head _ Hl) as Hlh.
  rewrite Ed in Hdh. rewrite El in Hlh.
  destruct (upto bound (rest_after h pos)) as [|r rest'] eqn:E; [done|].
  destruct (upto_cons _ _ _ Hw E) as (rest & Er & -> & Hle).
  pose proof (rest_after_advance h pos r rest Hh Er) as Hadv.
  rewrite Er in Hw. destruct Hw as [_ Hs]. apply StronglySorted_inv in Hs as [_ Hs].
  rewrite Forall_forall in Hs.
  destruct r as [d|l]; cbn in Hdh, Hlh.
  - destruct Hdh as (Hhave & data' & -> & Edu). split_and!; [done| |].
    + exists data'. split; [done|]. destruct (data_map_inv _ _ Hd) as (Hd' & _).
      split; [done|done|by rewrite Hadv|by rewrite Hadv].
    + intros k l ddl' -> Hh'. destruct (ddl_of (upto bound rest)) as [|l0 ls] eqn:El0; [congruence|].
      destruct Hlh as (_ & ? & [= -> -> ->] & _).
      assert (LDdl l0 ∈ rest) as Hin.
      { assert (LDdl l0 ∈ upto bound rest) as Hin by (apply ddl_of_In; rewrite El0; left).
        apply list_elem_of_In, filter_In in Hin as [Hin _]. by apply list_elem_of_In. }
      apply (rec_lt_ts _ _ (Hs _ Hin)).
  - destruct Hlh as (Hhave & ddl' & -> & Elu). split_and!; [done| |].
    + exists ddl'. split; [done|]. destruct (ddl_map_inv _ _ Hl) as (Hl' & _).
      split; [done|done|by rewrite Hadv|by rewrite Hadv].
    + intros k d data' -> Hh'. destruct (data_of (upto bound rest)) as [|d0 ds] eqn:Ed0; [congruence|].
      destruct Hdh as (_ & ? & [= -> -> ->] & _).
      assert (LData d0 ∈ rest) as Hin.
      { assert (LData d0 ∈ upto bound rest) as Hin by (apply data_of_In; rewrite Ed0; left).
        apply list_elem_of_In, filter_In in Hin as [Hin _]. by apply list_elem_of_In. }
      destruct (Hs _ Hin) as [|[_ []]]; done.
Qed.

(** Keys fit the continuation's 16-bit lengths. *)
Definition pos_ok (p : Position) : Prop :=
  blen (p_dataKey p) < 2 ^ 16 /\ blen (p_ddlKey p) < 2 ^ 16.

Lemma pos_ok_advance p r : pos_ok p -> pos_ok (advance_pos p r).
Proof.
  intros [? ?]. destruct r; split; cbn; try done;
    unfold dataKey, ddlKey, data_key, ddl_key, blen; rewrite !length_app, !length_appendBigEndian; done.
Qed.

Lemma page_loop_spec fuel data ddl pos pageBytes :
  loop_ok pos data ddl -> pos_ok pos -> (length data + length ddl < fuel)%nat ->
  match page_loop dataBytes ddlBytes fuel bound maxBytes data ddl pos pageBytes with
  | (ds, ls, pos', more) => exists page, ds = data_of page /\ ls = ddl_of page /\ pos_ok pos' /\
      rest_after h pos = page ++ rest_after h pos' /\
      Forall (fun r => rec_ts r <= bound) page /\
      (more = true -> page <> [] \/ 0 < pageBytes) /\
      (more = false -> Forall (fun r => bound < rec_ts r) (rest_after h pos'))
  end.
Proof.
  revert data ddl pos pageBytes. induction fuel as [|fuel IH]; intros data ddl pos pageBytes Hok Hp Hf; [lia|].
  cbn [page_loop]. pose proof (loop_next _ _ _ Hok) as Hn. pose proof (rest_after_wf pos) as Hw.
  fold (have_data data) (have_ddl ddl).
  destruct (upto bound (rest_after h pos)) as [|r rest'] eqn:E.
  { destruct Hn as [-> ->]. cbn. exists []. split_and!; [done|done|exact Hp|done|done|done|].
    intros _. by apply upto_nil. }
  destruct (upto_cons _ _ _ Hw E) as (rest & Er & _ & Hle).
  pose proof (rest_after_advance h pos r rest Hh Er) as Hadv. pose proof (pos_ok_advance pos r Hp) as Hp'.
  destruct r as [d|l]; destruct Hn as (Hhave & (m' & -> & Hok') & Hcmp); rewrite Hhave.
  - assert (negb (have_ddl ddl) || match ddl with
      | [] => true | (_, l) :: _ => dr_commit_ts d <=? lr_ddl_ts l end = true) as ->.
    { destruct (have_ddl ddl) eqn:Eh; [|done]. destruct ddl as [|[k l] ddl]; [done|]. cbn.
      apply Z.leb_le. by eapply Hcmp. }
    cbn. destruct ((0 <? pageBytes) && _) eqn:Ecut.
    + exists []. apply andb_true_iff in Ecut as [Ecut _]. apply Z.ltb_lt in Ecut.
      split_and!; [done|done|exact Hp|done|done|by right|done].
    + specialize (IH m' ddl _ (pageBytes + dataBytes d) Hok' Hp' ltac:(cbn in Hf; lia)).
      cbn [advance_pos rec_key] in IH. destruct (page_loop _ _ _ _ _ _ _ _ _) as [[[ds ls] pos'] more].
      destruct IH as (page & -> & -> & Hq & Hrest & Hb & _ & Hd).
      exists (LData d :: page). cbn [advance_pos rec_key] in Hadv. rewrite Hadv in Hrest.
      split_and!; [done|done|exact Hq|by rewrite Er, Hrest|by constructor|by left|done].
  - assert ((have_data data && (negb true || match data with
      | [] => true | (_, d) :: _ => dr_commit_ts d <=? lr_ddl_ts l end)) = false) as Et.
    { destruct (have_data data) eqn:Eh; [|done]. destruct data as [|[k d] data]; [done|]. cbn.
      apply Z.leb_gt. by eapply Hcmp. }
    cbn in Et |- *. rewrite Et. destruct ((0 <? pageBytes) && _) eqn:Ecut.
    + exists []. apply andb_true_iff in Ecut as [Ecut _]. apply Z.ltb_lt in Ecut.
      split_and!; [done|done|exact Hp|done|done|by right|done].
    + specialize (IH data m' _ (pageBytes + ddlBytes l) Hok' Hp' ltac:(cbn in Hf; lia)).
      cbn [advance_pos rec_key] in IH. destruct (page_loop _ _ _ _ _ _ _ _ _) as [[[ds ls] pos'] more].
      destruct IH as (page & -> & -> & Hq & Hrest & Hb & _ & Hd).
      exists (LDdl l :: page). cbn [advance_pos rec_key] in Hadv. rewrite Hadv in Hrest.
      split_and!; [done|done|exact Hq|by rewrite Er, Hrest|by constructor|by left|done].
Qed.
End Paging.

(** ** Continuations *)

Lemma readKey_app key rest :
  blen key < 2 ^ 16 -> readKey (appendBigEndian (blen key) 2 ++ key ++ rest) = Ok (key, rest).
Proof.
  intros Hk. unfold readKey. pose proof (blen_nonneg key).
  rewrite (proj2 (Z.leb_le 2 _)).
  2: { rewrite blen_app. unfold blen at 1. rewrite length_appendBigEndian.
       pose proof (blen_nonneg (key ++ rest)). lia. }
  cbn [uassert invariant rbind].
  rewrite take_app_length', drop_app_length' by (by rewrite length_appendBigEndian).
  rewrite readBigEndian_append, Z.mod_small by (change (256 ^ Z.of_nat 2) with (2 ^ 16); lia).
  assert (Z.to_nat (blen key) = length key) as -> by (unfold blen; lia).
  cbn. rewrite (proj2 (Z.leb_le _ _)) by (rewrite blen_app; pose proof (blen_nonneg rest); unfold blen in *; lia).
  cbn. by rewrite take_app_length, drop_app_length.
Qed.

Lemma decode_encodeContinuation p :
  pos_ok p -> decodeContinuation (encodeContinuation p) = Ok p.
Proof.
  intros [H1 H2]. unfold decodeContinuation, encodeContinuation. rewrite readKey_app by done. cbn.
  rewrite <- (app_nil_r (p_ddlKey p)) at 2. rewrite readKey_app by done. cbn. by destruct p.
Qed.

(** ** Iterators *)

Lemma upper_bound_filter {T} (m : keyed T) k :
  StronglySorted (fun p q => bytes_lt p.1 q.1) m ->
  upper_bound m k = List.filter (fun p => bytes_ltb k p.1) m.
Proof.
  induction 1 as [|[k' v] m Hs IH Hp]; cbn; [done|].
  destruct (bytes_ltb k k') eqn:E; [|done]. f_equal. symmetry. apply filter_all.
  intros q Hq. pose proof (proj1 (Forall_forall _ _) Hp q Hq) as Hlt. cbn in Hlt.
  eapply bytes_lt_trans; [exact E|exact Hlt].
Qed.

Lemma Forall_filter {A} (P : A -> Prop) f l : Forall P l -> Forall P (List.filter f l).
Proof. induction 1; cbn; [done|]. destruct (f _); auto. Qed.

Lemma map_filter_snd {T} (f : T -> bool) (m : keyed T) :
  map snd (List.filter (fun p => f p.2) m) = List.filter f (map snd m).
Proof. induction m as [|p m IH]; cbn; [done|]. destruct (f p.2); cbn; by rewrite IH. Qed.

Lemma filter_ext_Forall {A} (f g : A -> bool) l :
  Forall (fun x => f x = g x) l -> List.filter f l = List.filter g l.
Proof. induction 1 as [|x l Hx Hl IH]; cbn; [done|]. by rewrite Hx, IH. Qed.

(** ** Scripts *)

(** The group's script agrees with the history through the group's bound: the maps are keyed as
    the logger keys them, and at or below the bound they hold the history's records. *)
Record script_ok (h : list LogRecord) (g : FakeGroup) : Prop := {
  sk_data : data_map_ok (fg_data g);
  sk_ddl : ddl_map_ok (fg_ddl g);
  sk_data_upto : data_upto (fg_bound g) (fg_data g) = data_of (upto (fg_bound g) h);
  sk_ddl_upto : ddl_upto (fg_bound g) (fg_ddl g) = ddl_of (upto (fg_bound g) h);
  sk_bound : 0 <= fg_bound g < u64_max;
}.

(** Where a request's start lies, as a position. *)
Lemma script_loop_ok h g pos :
  script_ok h g ->
  loop_ok h (fg_bound g) pos (upper_bound (fg_data g) (p_dataKey pos))
    (upper_bound (fg_ddl g) (p_ddlKey pos)).
Proof.
  intros [[Hdk Hds] [Hlk Hls] Hd Hl _].
  rewrite !upper_bound_filter by done.
  split.
  - split; [by apply Forall_filter|by apply StronglySorted_filter].
  - split; [by apply Forall_filter|by apply StronglySorted_filter].
  - rewrite (filter_ext_Forall _ (fun p => bytes_ltb (p_dataKey pos) (dataKey p.2)))
      by (eapply Forall_impl; [exact Hdk|]; by intros [k d] [-> _]).
    unfold data_upto in *. rewrite (map_filter_snd (fun d => bytes_ltb (p_dataKey pos) (dataKey d))).
    rewrite filter_comm, Hd. unfold rest_after. rewrite filter_comm, (data_of_filter (after pos)). done.
  - rewrite (filter_ext_Forall _ (fun p => bytes_ltb (p_ddlKey pos) (ddlKey p.2)))
      by (eapply Forall_impl; [exact Hlk|]; by intros [k d] [-> _]).
    unfold ddl_upto in *. rewrite (map_filter_snd (fun d => bytes_ltb (p_ddlKey pos) (ddlKey d))).
    rewrite filter_comm, Hl. unfold rest_after. rewrite filter_comm, (ddl_of_filter (after pos)). done.
Qed.

(** A scan from a timestamp starts at the eight-byte key that precedes every record at it. *)
Lemma after_from_ts ts r :
  is_u64 ts -> wf_record r ->
  after (mkPosition (appendBigEndian ts 8) (appendBigEndian ts 8)) r = (ts <=? rec_ts r).
Proof.
  intros Ht Hr. pose proof (wf_record_ts r Hr) as Hr'.
  assert (forall rest, rest <> [] ->
    bytes_ltb (appendBigEndian ts 8) (appendBigEndian (rec_ts r) 8 ++ rest) = (ts <=? rec_ts r)) as H.
  { intros rest Hne. unfold bytes_ltb. rewrite <- (app_nil_r (appendBigEndian ts 8)).
    rewrite key_compare_ts by done. unfold Z.leb. destruct (ts ?= rec_ts r); [|done|done].
    by destruct rest. }
  destruct r as [d|d]; cbn; unfold dataKey, ddlKey, data_key, ddl_key; apply H.
  - intros E. apply (f_equal length) in E. by rewrite length_app, !length_appendBigEndian in E.
  - intros E. apply (f_equal length) in E. by rewrite length_appendBigEndian in E.
Qed.

Lemma after_start r : after (mkPosition [] []) r = true.
Proof.
  assert (rec_key r <> []) as Hk.
  { intros E. apply (f_equal length) in E. destruct r; cbn in E;
      unfold dataKey, ddlKey, data_key, ddl_key in E; by rewrite !length_app, !length_appendBigEndian in E. }
  unfold after. destruct r; cbn; by destruct (rec_key _).
Qed.

Definition fake_issued (c : bytes) : Prop := exists p, pos_ok p /\ c = encodeContinuation p.

Definition fake_rest (h : list LogRecord) (c : bytes) : list LogRecord :=
  match decodeContinuation c with Ok p => rest_after h p | Err _ => [] end.

Lemma start_position_spec h s :
  wf_history h -> start_issued fake_issued s \/ s = start_unset ->
  exists p t, start_position s = Ok (p, t) /\ pos_ok p /\ start_rest h (fake_rest h) s = rest_after h p.
Proof.
  intros [Hw _] [Hs| ->].
  2: { eexists _, _. split_and!; [done|by split|]. symmetry. apply filter_all. intros; apply after_start. }
  destruct s as [c|ts|]; [| |done]; cbn in *.
  - destruct Hs as (p & Hp & ->). unfold fake_rest. rewrite decode_encodeContinuation by done.
    cbn. eauto.
  - eexists _, _. split_and!; [done|split; cbn; unfold blen; by rewrite length_appendBigEndian|].
    symmetry. apply filter_ext_Forall. eapply Forall_impl; [exact Hw|]. intros r Hr.
    apply after_from_ts; [unfold is_u64, u64_max in *; lia|done].
Qed.

Section Contract.

Context (dataBytes : CdcDataRecord -> Z) (ddlBytes : CdcDdlRecord -> Z) (EHOSTDOWN : Z).

Lemma answer_page h g req a g' :
  wf_history h -> script_ok h g ->
  start_issued fake_issued (rq_start req) \/ rq_start req = start_unset ->
  answer dataBytes ddlBytes EHOSTDOWN g req = Ok (a, g') -> fan_failed a = None ->
  rs_status (fan_response a) = Success ->
  exists page, valid_page h (fake_rest h) req (fan_response a) page /\
    fake_issued (rs_continuation (fan_response a)).
Proof.
  intros Hh Hsc Hst H Hf Hsuc. unfold answer in H.
  destruct (negb (fg_failureCode g =? 0)); [by injection H as <- _|].
  destruct (fg_actions g) as [|[[] ?] acts]; [|by injection H as <- _|by injection H as <- _].
  destruct (start_position_spec h _ Hh Hst) as (pos & t & Ep & Hpos & Hrest). rewrite Ep in H. cbn [rbind] in H.
  destruct (_ && _ && _); [by injection H as <- _|].
  pose proof (page_loop_spec dataBytes ddlBytes h Hh (fg_bound g) (rq_max_bytes req)
    (S (length (upper_bound (fg_data g) (p_dataKey pos)) + length (upper_bound (fg_ddl g) (p_ddlKey pos))))
    _ _ pos 0 (script_loop_ok h g pos Hsc) Hpos ltac:(lia)) as Hl.
  destruct (page_loop _ _ _ _ _ _ _ _ _) as [[[ds ls] pos'] more]. injection H as <- <-.
  destruct Hl as (page & -> & -> & Hp' & Hr & Hb & Hm & Hd). exists page.
  assert (fake_rest h (encodeContinuation pos') = rest_after h pos') as Er.
  { unfold fake_rest. by rewrite decode_encodeContinuation. }
  split; [split; cbn|by exists pos'].
  - done.
  - done.
  - by rewrite Er, Hrest.
  - done.
  - intros Hmore. destruct (Hm Hmore) as [|?]; [done|lia].
  - intros Hmore. rewrite Er. auto.
  - apply Hsc.
Qed.

(** ** The service as a world *)

(** A world in which every group answers from its script as of that moment, or has not answered
    yet, or fails because its history cannot be read. *)
Definition fake_respond (script : nat -> Z -> option FakeGroup) (k : nat) (g : Z)
    (req : CdcScanRequest) : option Answer :=
  match script k g with
  | None => None
  | Some fg =>
      match answer dataBytes ddlBytes EHOSTDOWN fg req with
      | Ok (a, _) => Some (mkAnswer (fan_failed a) (fan_response a) (Some (fg_leader fg)) (Z.of_nat k))
      | Err _ => None
      end
  end.

Definition fake_env (script : nat -> Z -> option FakeGroup) (clock : nat -> Z)
    (size : CdcScanResponse -> Z) (enomethod : Z) : Env :=
  mkEnv clock (fake_respond script)
    (fun k g address => match script k g with Some fg => find_node (fg_nodes fg) address | None => None end)
    size enomethod.

Context (script : nat -> Z -> option FakeGroup) (clock : nat -> Z)
        (size : CdcScanResponse -> Z) (enomethod : Z).
Context (history : Z -> list LogRecord) (history_wf : forall g, wf_history (history g)).
Context (script_history : forall k g fg, script k g = Some fg -> script_ok (history g) fg).

(** The scripted service keeps the contract the scan source is proved against. *)
#[local] Instance fake_contract : ScanContract (fake_env script clock size enomethod).
Proof.
  refine {| sc_history := history; sc_rest g := fake_rest (history g);
            sc_issued _ := fake_issued; sc_wf := history_wf |}.
  intros k g req a Ha Hf Hs Hst. cbn in Ha. unfold fake_respond in Ha.
  destruct (script k g) as [fg|] eqn:Es; [|done].
  destruct (answer _ _ _ fg req) as [[fa fg']|] eqn:Ea; [|done]. injection Ha as <-. cbn in *.
  eapply answer_page; [done|by eapply script_history|by left|done|done|done].
Defined.
End Contract.

(** * The service as a state machine *)

(** Everything a test or a client may do to the service. *)
Inductive FakeOp :=
| op_addDataBlob (id commitTs ngId txn : Z) (blob : bytes)
| op_addDdl (id ddlTs txn : Z) (op : SchemaOpMessage)
| op_setBound (id bound : Z)
| op_setRetentionFloor (id floor : Z)
| op_failNext (id : Z)
| op_setFailureCode (id code : Z)
| op_notLeaderNext (id : Z) (redirect : bytes)
| op_addNode (id node : Z) (addresses : list bytes)
| op_setLeader (id node : Z)
| op_setCompletion (id : Z) (mode : FakeCompletion)
| op_setCancelRunsDone (b : bool)
| op_releaseHeld (id : Z)
| op_scan (id : Z) (call : PendingCall)
| op_runAsync (i : nat)
| op_followNode (id node : Z)
| op_requestLeaderRefresh (id : Z)
| op_cancel (cntl : Z).

Section Machine.

Context (dataBytes : CdcDataRecord -> Z) (ddlBytes : CdcDdlRecord -> Z) (EHOSTDOWN ECANCELED : Z).

Definition fake_step (s : CdcFakeLogService) (op : FakeOp) : result CdcFakeLogService :=
  match op with
  | op_addDataBlob id ts ng txn blob => addDataBlob s id ts ng txn blob
  | op_addDdl id ts txn op => addDdl s id ts txn op
  | op_setBound id b => setBound s id b
  | op_setRetentionFloor id f => setRetentionFloor s id f
  | op_failNext id => failNext s id
  | op_setFailureCode id c => setFailureCode s id c
  | op_notLeaderNext id r => notLeaderNext s id r
  | op_addNode id n a => addNode s id n a
  | op_setLeader id n => setLeader s id n
  | op_setCompletion id m => setCompletion s id m
  | op_setCancelRunsDone b => Ok (setCancelRunsDone s b)
  | op_releaseHeld id => releaseHeld dataBytes ddlBytes EHOSTDOWN s id
  | op_scan id call => let! (_, s) := scan dataBytes ddlBytes EHOSTDOWN s id call in Ok s
  | op_runAsync i => run_async dataBytes ddlBytes EHOSTDOWN s i
  | op_followNode id n => followNode s id n
  | op_requestLeaderRefresh id => requestLeaderRefresh s id
  | op_cancel cntl => Ok (cancel ECANCELED s cntl)
  end.

Fixpoint fake_run (s : CdcFakeLogService) (ops : list FakeOp) : result CdcFakeLogService :=
  match ops with
  | [] => Ok s
  | op :: ops' => let! s := fake_step s op in fake_run s ops'
  end.

(** The controllers of the calls a sequence of operations scans. *)
Fixpoint scanned (ops : list FakeOp) : list Z :=
  match ops with
  | [] => []
  | op_scan _ call :: ops' => pc_cntl call :: scanned ops'
  | _ :: ops' => scanned ops'
  end.

(** ** Accounting for calls *)

Definition held_of (s : CdcFakeLogService) (id : Z) : list Z :=
  match fs_groups s !! id with Some g => map pc_cntl (fg_held g) | None => [] end.

Definition helds (s : CdcFakeLogService) : list Z := concat (map (held_of s) (fs_logGroupIds s)).

Definition asyncs (s : CdcFakeLogService) : list Z := map (fun p => pc_cntl p.2) (fs_async s).

(** Calls whose closure has run, and calls still to be answered. *)
Definition accounted (s : CdcFakeLogService) : list Z :=
  map fst (fs_done s) ++ asyncs s ++ helds s.

Definition fake_ok (s : CdcFakeLogService) : Prop :=
  NoDup (fs_logGroupIds s) /\ forall id, is_Some (fs_groups s !! id) <-> id ∈ fs_logGroupIds s.

Lemma held_of_insert s id g id' :
  held_of (put_groups (<[id := g]> (fs_groups s)) s) id' =
    if decide (id' = id) then map pc_cntl (fg_held g) else held_of s id'.
Proof.
  unfold held_of. cbn. destruct (decide (id' = id)) as [->|Hne].
  - by rewrite lookup_insert_eq.
  - by rewrite lookup_insert_ne.
Qed.

Lemma concat_held_ne s id g ids :
  id ∉ ids -> map (held_of (put_groups (<[id := g]> (fs_groups s)) s)) ids = map (held_of s) ids.
Proof.
  intros Hn. apply map_ext_in. intros x Hx. rewrite held_of_insert.
  destruct (decide (x = id)) as [->|]; [|done]. destruct Hn. by apply list_elem_of_In.
Qed.

(** One group's held calls among all. *)
Lemma helds_split s id :
  NoDup (fs_logGroupIds s) -> id ∈ fs_logGroupIds s ->
  exists rest, helds s ≡ₚ held_of s id ++ rest /\
    forall g, helds (put_groups (<[id := g]> (fs_groups s)) s) ≡ₚ map pc_cntl (fg_held g) ++ rest.
Proof.
  intros Hnd Hid. unfold helds. cbn [put_groups fs_logGroupIds].
  revert Hnd Hid. generalize (fs_logGroupIds s) as ids. induction ids as [|x ids IH]; intros Hnd Hid.
  { by apply not_elem_of_nil in Hid. }
  apply NoDup_cons in Hnd as [Hn Hnd]. apply elem_of_cons in Hid as [->|Hid].
  - exists (concat (map (held_of s) ids)). split; [done|]. intros g. cbn.
    rewrite held_of_insert, decide_True by done. by rewrite concat_held_ne.
  - destruct (IH Hnd Hid) as (rest & E & Eg). exists (held_of s x ++ rest). split.
    + cbn. rewrite E. by rewrite Permutation_app_swap_app.
    + intros g. cbn. rewrite held_of_insert, decide_False by (by intros ->).
      rewrite Eg. by rewrite Permutation_app_swap_app.
Qed.

Lemma fake_group_Ok s id g : fake_group s id = Ok g -> fs_groups s !! id = Some g.
Proof. unfold fake_group. by destruct (_ !! id); [intros [= ->]|]. Qed.

Lemma fake_ok_insert s id g g' :
  fake_ok s -> fs_groups s !! id = Some g -> fake_ok (put_groups (<[id := g']> (fs_groups s)) s).
Proof.
  intros [Hnd Hd] Hg. split; cbn; [done|]. intros id'. rewrite <- Hd, lookup_insert_is_Some'.
  split; [intros [<-|]; [by rewrite Hg|done]|by right].
Qed.

(** Replacing a group's state moves only its held calls. *)
Lemma put_group_accounted s id g g' :
  fake_ok s -> fs_groups s !! id = Some g ->
  exists rest, accounted s ≡ₚ map pc_cntl (fg_held g) ++ rest /\
    accounted (put_groups (<[id := g']> (fs_groups s)) s) ≡ₚ map pc_cntl (fg_held g') ++ rest.
Proof.
  intros [Hnd Hd] Hg.
  destruct (helds_split s id Hnd) as (rest & E & Eg); [apply Hd; by rewrite Hg|].
  exists (map fst (fs_done s) ++ asyncs s ++ rest). unfold accounted. split.
  - rewrite E. unfold held_of. rewrite Hg.
    rewrite (Permutation_app_swap_app (asyncs s)). by rewrite Permutation_app_swap_app.
  - rewrite Eg. cbn. unfold asyncs. cbn.
    rewrite (Permutation_app_swap_app (map (fun p => pc_cntl p.2) (fs_async s))).
    by rewrite Permutation_app_swap_app.
Qed.

Lemma on_group_accounted s id f s' :
  (forall g, fg_held (f g) = fg_held g) -> fake_ok s -> on_group s id f = Ok s' ->
  fake_ok s' /\ accounted s' ≡ₚ accounted s.
Proof.
  intros Hf Hok H. unfold on_group in H. destruct (fake_group s id) as [g|] eqn:Eg; [|done].
  injection H as <-. apply fake_group_Ok in Eg. split; [by eapply fake_ok_insert|].
  destruct (put_group_accounted s id g (f g) Hok Eg) as (rest & E1 & E2). by rewrite E1, E2, Hf.
Qed.

Lemma answer_held g req a g' :
  answer dataBytes ddlBytes EHOSTDOWN g req = Ok (a, g') -> fg_held g' = fg_held g.
Proof.
  unfold answer. destruct (negb _); [by intros [= _ <-]|].
  destruct (fg_actions g) as [|[[] ?] ?]; [|by intros [= _ <-]|by intros [= _ <-]].
  destruct (start_position _) as [[p t]|]; [|done]. cbn [rbind]. destruct (_ && _ && _); [by intros [= _ <-]|].
  destruct (page_loop _ _ _ _ _ _ _ _ _) as [[[? ?] ?] ?]. by intros [= _ <-].
Qed.

(** Answering a call runs its closure once. *)
Lemma answer_call_accounted s id call s' :
  fake_ok s -> answer_call dataBytes ddlBytes EHOSTDOWN s id call = Ok s' ->
  fake_ok s' /\ accounted s' ≡ₚ pc_cntl call :: accounted s.
Proof.
  intros Hok H. unfold answer_call in H. destruct (fake_group s id) as [g|] eqn:Eg; [|done].
  cbn in H. destruct (answer _ _ _ g _) as [[a g']|] eqn:Ea; [|done]. injection H as <-.
  apply fake_group_Ok in Eg. split; [exact (fake_ok_insert s id g g' Hok Eg)|].
  destruct (put_group_accounted s id g g' Hok Eg) as (rest & E1 & E2).
  rewrite (answer_held _ _ _ _ Ea) in E2. rewrite <- E1 in E2.
  change (pc_cntl call :: accounted (put_groups (<[id:=g']> (fs_groups s)) s) ≡ₚ pc_cntl call :: accounted s).
  by rewrite E2.
Qed.

Lemma answer_calls_accounted calls s id s' :
  fake_ok s -> answer_calls dataBytes ddlBytes EHOSTDOWN s id calls = Ok s' ->
  fake_ok s' /\ accounted s' ≡ₚ map pc_cntl calls ++ accounted s.
Proof.
  revert s. induction calls as [|call calls IH]; intros s Hok H; cbn in H; [by injection H as <-|].
  destruct (answer_call _ _ _ s id call) as [s1|] eqn:E; [|done]. cbn in H.
  destruct (answer_call_accounted s id call s1 Hok E) as [Hok1 E1].
  destruct (IH s1 Hok1 H) as [Hok2 E2]. split; [done|]. rewrite E2, E1. cbn.
  by rewrite Permutation_middle.
Qed.

Lemma releaseHeld_accounted s id s' :
  fake_ok s -> releaseHeld dataBytes ddlBytes EHOSTDOWN s id = Ok s' ->
  fake_ok s' /\ accounted s' ≡ₚ accounted s.
Proof.
  intros Hok H. unfold releaseHeld, on_group in H.
  destruct (fake_group s id) as [g|] eqn:Eg; [|done]. cbn [rbind] in H. apply fake_group_Ok in Eg.
  destruct (put_group_accounted s id g (set_held [] g) Hok Eg) as (rest & E1 & E2).
  destruct (answer_calls_accounted _ _ _ _ (fake_ok_insert s id g (set_held [] g) Hok Eg) H) as [Hok' E].
  split; [done|]. by rewrite E, E2, E1.
Qed.

Lemma scan_accounted s id call leader s' :
  fake_ok s -> scan dataBytes ddlBytes EHOSTDOWN s id call = Ok (leader, s') ->
  fake_ok s' /\ accounted s' ≡ₚ pc_cntl call :: accounted s.
Proof.
  intros Hok H. unfold scan in H. destruct (fake_group s id) as [g|] eqn:Eg; [|done]. cbn [rbind] in H.
  destruct (on_group s id _) as [s1|] eqn:E1; [|done]. cbn [rbind] in H.
  destruct (on_group_accounted s id (log_scan (pc_request call)) s1 (fun _ => eq_refl) Hok E1) as [Hok1 A1].
  destruct (fg_mode g).
  - destruct (answer_call _ _ _ s1 id call) as [s2|] eqn:E2; [|done]. injection H as <- <-.
    destruct (answer_call_accounted s1 id call s2 Hok1 E2) as [Hok2 A2]. by rewrite A2, A1.
  - injection H as <- <-. split; [by destruct Hok1|]. rewrite <- A1. unfold accounted, asyncs. cbn.
    rewrite map_app, <- app_assoc. cbn. by rewrite <- !Permutation_middle.
  - unfold on_group in H. destruct (fake_group s1 id) as [g1|] eqn:Eg1; [|done]. cbn [rbind] in H.
    injection H as <- <-. apply fake_group_Ok in Eg1. split; [by eapply fake_ok_insert|].
    destruct (put_group_accounted s1 id g1 (set_held (fg_held g1 ++ [call]) g1) Hok1 Eg1) as (rest & B1 & B2).
    rewrite B2, <- A1, B1. cbn. rewrite map_app, <- app_assoc. cbn. by rewrite <- Permutation_middle.
Qed.

Lemma run_async_accounted s i s' :
  fake_ok s -> run_async dataBytes ddlBytes EHOSTDOWN s i = Ok s' ->
  fake_ok s' /\ accounted s' ≡ₚ accounted s /\ (i < length (fs_async s) -> length (fs_async s') = pred (length (fs_async s)))%nat.
Proof.
  intros Hok H. unfold run_async in H. destruct (fs_async s !! i) as [[id call]|] eqn:Ei.
  2: { injection H as <-. split_and!; [done|done|]. intros Hlt. apply lookup_lt_is_Some_2 in Hlt. by rewrite Ei in Hlt. }
  set (s1 := put_async _ s) in H. assert (fake_ok s1) as Hok1 by (by destruct Hok).
  destruct (answer_call_accounted s1 id call s' Hok1 H) as [Hok' A]. split_and!; [done| |].
  - pose proof (Permutation_map (fun p => pc_cntl p.2) (delete_Permutation _ _ _ Ei)) as E. cbn in E.
    rewrite A. unfold accounted, asyncs. cbn. rewrite E. cbn. by rewrite Permutation_middle.
  - intros _. unfold answer_call in H. destruct (fake_group s1 id) as [g|]; [|done]. cbn [rbind] in H.
    destruct (answer _ _ _ _ _) as [[? ?]|]; [|done]. injection H as <-. cbn.
    rewrite length_delete by (by rewrite Ei). lia.
Qed.

Lemma take_held_Permutation cntl held held' :
  take_held cntl held = Some held' -> map pc_cntl held ≡ₚ cntl :: map pc_cntl held'.
Proof.
  revert held'. induction held as [|c held IH]; intros held' H; cbn in H; [done|].
  destruct (Z.eqb_spec (pc_cntl c) cntl) as [<-|]; [by injection H as <-|].
  destruct (take_held cntl held) as [h|]; [|done]. injection H as <-. cbn.
  rewrite (IH h eq_refl). by rewrite Permutation_swap.
Qed.

Lemma cancel_in_accounted ids s cntl :
  fake_ok s -> fake_ok (cancel_in ECANCELED s ids cntl) /\
    accounted (cancel_in ECANCELED s ids cntl) ≡ₚ accounted s.
Proof.
  intros Hok. induction ids as [|id ids IH]; [done|]. cbn.
  destruct (fs_groups s !! id) as [g|] eqn:Eg; [|done].
  destruct (take_held cntl (fg_held g)) as [held|] eqn:Et; [|done].
  split; [exact (fake_ok_insert s id g (set_held held g) Hok Eg)|].
  destruct (put_group_accounted s id g (set_held held g) Hok Eg) as (rest & E1 & E2).
  change (cntl :: accounted (put_groups (<[id:=set_held held g]> (fs_groups s)) s) ≡ₚ accounted s).
  rewrite E2, E1, (take_held_Permutation _ _ _ Et). done.
Qed.

Lemma fake_step_accounted s op s' :
  fake_ok s -> fake_step s op = Ok s' ->
  fake_ok s' /\ accounted s' ≡ₚ scanned [op] ++ accounted s.
Proof.
  intros Hok H. destruct op; cbn in H |- *;
    try (by eapply (on_group_accounted s); [|done|exact H]).
  - unfold setLeader in H. destruct (fake_group s id) as [g|]; [|done]. cbn in H.
    destruct (has_node g node); [|done]. by eapply (on_group_accounted s); [|done|exact H].
  - injection H as <-. by split; [destruct Hok|].
  - by eapply releaseHeld_accounted.
  - destruct (scan _ _ _ s id call) as [[l s1]|] eqn:E; [|done]. injection H as <-.
    by eapply scan_accounted.
  - by destruct (run_async_accounted s i s' Hok H) as (? & ? & _).
  - unfold followNode in H. destruct (fake_group s id) as [g|]; [|done]. cbn in H.
    destruct (has_node g node); [|done]. by eapply (on_group_accounted s); [|done|exact H].
  - injection H as <-. unfold cancel. cbn. destruct (fs_cancelRunsDone s).
    + match goal with |- fake_ok (cancel_in _ ?x _ _) /\ _ =>
        exact (cancel_in_accounted _ x cntl Hok) end.
    + by split; [destruct Hok|].
Qed.

Lemma fake_run_accounted ops s s' :
  fake_ok s -> fake_run s ops = Ok s' ->
  fake_ok s' /\ accounted s' ≡ₚ scanned ops ++ accounted s.
Proof.
  revert s. induction ops as [|op ops IH]; intros s Hok H; cbn [fake_run] in H; [by injection H as <-|].
  destruct (fake_step s op) as [s1|] eqn:E; [|done]. cbn [rbind] in H.
  destruct (fake_step_accounted s op s1 Hok E) as [Hok1 A1]. destruct (IH s1 Hok1 H) as [Hok2 A2].
  split; [done|]. rewrite A2, A1. destruct op; cbn; try done. by rewrite Permutation_middle.
Qed.

Lemma join_all_accounted n s s' :
  fake_ok s -> n = length (fs_async s) -> join_all dataBytes ddlBytes EHOSTDOWN s n = Ok s' ->
  fake_ok s' /\ accounted s' ≡ₚ accounted s /\ fs_async s' = [].
Proof.
  revert s. induction n as [|n IH]; intros s Hok Hn H; cbn in H.
  - injection H as <-. split_and!; [done|done|]. by destruct (fs_async s).
  - destruct (run_async _ _ _ s 0) as [s1|] eqn:E; [|done]. cbn in H.
    destruct (run_async_accounted s 0 s1 Hok E) as (Hok1 & A1 & L1).
    destruct (IH s1 Hok1 ltac:(lia) H) as (Hok2 & A2 & L2). split_and!; [done|by rewrite A2|done].
Qed.

Lemma fail_held_accounted ids s s' :
  fake_ok s -> fail_held ECANCELED s ids = Ok s' ->
  fake_ok s' /\ accounted s' ≡ₚ accounted s /\ fs_async s' = fs_async s /\
  fs_logGroupIds s' = fs_logGroupIds s /\
  forall id, id ∈ ids \/ held_of s id = [] -> held_of s' id = [].
Proof.
  revert s. induction ids as [|id ids IH]; intros s Hok H; cbn in H.
  { injection H as <-. split_and!; try done. intros id [Hid|]; [by apply not_elem_of_nil in Hid|done]. }
  unfold on_group in H. destruct (fake_group s id) as [g|] eqn:Eg; [|done]. cbn in H. apply fake_group_Ok in Eg.
  match type of H with fail_held _ ?x _ = _ => set (s1 := x) in H end.
  assert (fake_ok s1) as Hok1 by exact (fake_ok_insert s id g (set_held [] g) Hok Eg).
  destruct (IH s1 Hok1 H) as (Hok2 & A2 & L2 & I2 & Hh). split_and!; [done| |done|done|].
  - rewrite A2. destruct (put_group_accounted s id g (set_held [] g) Hok Eg) as (rest & E1 & E2).
    unfold s1, accounted. cbn. rewrite map_app, map_rev, map_map. cbn. rewrite <- app_assoc.
    change (rev (map (fun c => pc_cntl c) (fg_held g)) ++
      accounted (put_groups (<[id:=set_held [] g]> (fs_groups s)) s) ≡ₚ accounted s).
    rewrite E2, E1. cbn. by rewrite <- Permutation_rev.
  - intros id' Hid'. apply Hh. destruct (decide (id' = id)) as [->|Hne].
    + right. unfold s1, held_of. cbn. by rewrite lookup_insert_eq.
    + destruct Hid' as [Hid'|Hn]; [left; set_solver|right].
      unfold s1, held_of. cbn. by rewrite lookup_insert_ne.
Qed.

Lemma newFake_ok ids : NoDup ids -> fake_ok (newFake ids) /\ accounted (newFake ids) = [].
Proof.
  intros Hnd. assert (forall id g, fs_groups (newFake ids) !! id = Some g -> g = newFakeGroup id /\ id ∈ ids) as Hg.
  { intros id g H. cbn in H. apply elem_of_list_to_map_2 in H.
    apply list_elem_of_fmap in H as (? & [= -> ->] & ?). done. }
  split; [split; [done|]|].
  - intros id. split; [intros [g H]; by apply Hg in H as [_ ?]|].
    intros Hid. destruct (fs_groups (newFake ids) !! id) eqn:E; [by eexists|]. exfalso.
    apply not_elem_of_list_to_map_2 in E. apply E. apply list_elem_of_fmap.
    exists (id, newFakeGroup id). split; [done|]. apply list_elem_of_fmap. eauto.
  - unfold accounted, helds. cbn [newFake fs_done fs_async asyncs map app fs_logGroupIds].
    replace (map (held_of (newFake ids)) ids) with (map (fun _ : Z => @nil Z) ids).
    + clear. unfold asyncs. cbn. induction ids; done.
    + apply map_ext. intros id. unfold held_of. destruct (_ !! id) as [g|] eqn:E; [|done].
      by apply Hg in E as [-> _].
Qed.
End Machine.

(** ** Histories *)

(** The two streams merged: by timestamp, data before DDL at one timestamp. *)
Fixpoint merge (ds : list CdcDataRecord) : list CdcDdlRecord -> list LogRecord :=
  fix merge_ddl (ls : list CdcDdlRecord) : list LogRecord :=
    match ds, ls with
    | [], _ => map LDdl ls
    | _, [] => map LData ds
    | d :: ds', l :: ls' =>
        if dr_commit_ts d <=? lr_ddl_ts l then LData d :: merge ds' ls else LDdl l :: merge_ddl ls'
    end.

(** All a group's script holds, in merged order. *)
Definition fake_history (g : FakeGroup) : list LogRecord :=
  merge (map snd (fg_data g)) (map snd (fg_ddl g)).

Lemma data_of_LDdl ls : data_of (map LDdl ls) = [].
Proof. by induction ls. Qed.
Lemma ddl_of_LDdl ls : ddl_of (map LDdl ls) = ls.
Proof. induction ls as [|l ls IH]; cbn; by rewrite ?IH. Qed.
Lemma data_of_LData ds : data_of (map LData ds) = ds.
Proof. induction ds as [|l ds IH]; cbn; by rewrite ?IH. Qed.
Lemma ddl_of_LData ds : ddl_of (map LData ds) = [].
Proof. by induction ds. Qed.

Lemma merge_streams ds ls : data_of (merge ds ls) = ds /\ ddl_of (merge ds ls) = ls.
Proof.
  revert ls. induction ds as [|d ds IHd]; intros ls.
  { destruct ls; cbn; by rewrite ?data_of_LDdl, ?ddl_of_LDdl. }
  induction ls as [|l ls IHl]; cbn; [by rewrite data_of_LData, ddl_of_LData|].
  destruct (_ <=? _); cbn.
  - destruct (IHd (l :: ls)) as [E1 E2]. by rewrite E1, E2.
  - destruct IHl as [E1 E2]. cbn in E1, E2. by rewrite E1, E2.
Qed.

Lemma merge_In r ds ls :
  r ∈ merge ds ls -> match r with LData d => d ∈ ds | LDdl l => l ∈ ls end.
Proof.
  destruct (merge_streams ds ls) as [E1 E2]. intros H. destruct r.
  - rewrite <- E1. by apply data_of_In.
  - rewrite <- E2. by apply ddl_of_In.
Qed.

Lemma merge_sorted ds ls :
  StronglySorted (fun a b => rec_lt (LData a) (LData b)) ds ->
  StronglySorted (fun a b => rec_lt (LDdl a) (LDdl b)) ls ->
  StronglySorted rec_lt (merge ds ls).
Proof.
  assert (forall {A} (f : A -> LogRecord) l,
    StronglySorted (fun a b => rec_lt (f a) (f b)) l -> StronglySorted rec_lt (map f l)) as Hmap.
  { intros A f l. induction 1 as [|x l Hl IH Hx]; cbn; constructor; [done|].
    apply Forall_forall. intros y Hy. apply list_elem_of_fmap in Hy as (z & -> & Hz).
    by apply (proj1 (Forall_forall _ _) Hx). }
  intros Hd. revert ls. induction Hd as [|d ds Hd IHd Hfd]; intros ls Hl.
  { destruct ls; by apply Hmap. }
  induction Hl as [|l ls Hl IHl Hfl]; [apply Hmap; by constructor|]. cbn.
  rewrite Forall_forall in Hfd. rewrite Forall_forall in Hfl.
  destruct (Z.leb_spec (dr_commit_ts d) (lr_ddl_ts l)) as [Hle|Hlt]; constructor.
  - apply IHd. constructor; [done|by apply Forall_forall].
  - apply Forall_forall. intros r Hr. apply merge_In in Hr. destruct r as [d'|l']; [by apply Hfd|].
    assert (lr_ddl_ts l <= lr_ddl_ts l') as Hle'.
    { apply elem_of_cons in Hr as [->|Hr]; [lia|]. apply (rec_lt_ts _ _ (Hfl _ Hr)). }
    destruct (Z.eq_dec (dr_commit_ts d) (lr_ddl_ts l')); [by right|left; cbn; lia].
  - exact IHl.
  - apply Forall_forall. intros r Hr. apply (merge_In r (d :: ds) ls) in Hr. destruct r as [d'|l']; [|by apply Hfl].
    left. cbn. apply elem_of_cons in Hr as [->|Hr]; [done|].
    pose proof (rec_lt_ts _ _ (Hfd _ Hr)) as Hle'. cbn in Hle'. lia.
Qed.

Lemma sorted_keys_data m :
  data_map_ok m -> StronglySorted (fun a b => rec_lt (LData a) (LData b)) (map snd m).
Proof.
  intros [Hk Hs]. induction Hs as [|p m Hs IH Hp]; cbn; [constructor|].
  apply Forall_cons in Hk as [[Ek Hw] Hk]. constructor; [by apply IH|].
  apply Forall_forall. intros d Hd. apply list_elem_of_fmap in Hd as (q & -> & Hq).
  rewrite Forall_forall in Hk, Hp. destruct (Hk q Hq) as [Eq Hwq]. specialize (Hp q Hq). rewrite Ek, Eq in Hp.
  by apply rec_key_lt_data.
Qed.

Lemma sorted_keys_ddl m :
  ddl_map_ok m -> StronglySorted (fun a b => rec_lt (LDdl a) (LDdl b)) (map snd m).
Proof.
  intros [Hk Hs]. induction Hs as [|p m Hs IH Hp]; cbn; [constructor|].
  apply Forall_cons in Hk as [[Ek Hw] Hk]. constructor; [by apply IH|].
  apply Forall_forall. intros d Hd. apply list_elem_of_fmap in Hd as (q & -> & Hq).
  rewrite Forall_forall in Hk, Hp. destruct (Hk q Hq) as [Eq Hwq]. specialize (Hp q Hq). rewrite Ek, Eq in Hp.
  by apply rec_key_lt_ddl.
Qed.

(** The maps of a script and its bound are in range. *)
Definition maps_ok (g : FakeGroup) : Prop :=
  data_map_ok (fg_data g) /\ ddl_map_ok (fg_ddl g) /\ 0 <= fg_bound g < u64_max.

Lemma fake_history_ok g : maps_ok g -> wf_history (fake_history g) /\ script_ok (fake_history g) g.
Proof.
  intros (Hd & Hl & Hb). unfold fake_history.
  destruct (merge_streams (map snd (fg_data g)) (map snd (fg_ddl g))) as [E1 E2]. split; [split|split].
  - apply Forall_forall. intros r Hr. apply merge_In in Hr.
    destruct r; apply list_elem_of_fmap in Hr as (p & -> & Hp).
    + by apply (proj1 (Forall_forall _ _) (proj1 Hd)).
    + by apply (proj1 (Forall_forall _ _) (proj1 Hl)).
  - by apply merge_sorted; [apply sorted_keys_data|apply sorted_keys_ddl].
  - done.
  - done.
  - by rewrite data_of_filter, E1.
  - by rewrite ddl_of_filter, E2.
  - done.
Qed.

(** ** Scripts stay well formed *)

Lemma map_set_Forall {T} (P : bytes * T -> Prop) k v m :
  P (k, v) -> Forall P m -> Forall P (map_set k v m).
Proof.
  intros Hv. induction 1 as [|[k' v'] m Hp Hm IH]; cbn; [by constructor|].
  destruct (bytes_compare k k'); repeat constructor; done.
Qed.

Lemma map_set_sorted {T} k (v : T) m :
  StronglySorted (fun p q => bytes_lt p.1 q.1) m ->
  StronglySorted (fun p q => bytes_lt p.1 q.1) (map_set k v m).
Proof.
  induction 1 as [|[k' v'] m Hs IH Hp]; cbn; [repeat constructor|].
  destruct (bytes_compare k k') eqn:E.
  - apply bytes_compare_eq in E as ->. by constructor.
  - assert (bytes_lt k k') as Hlt by (unfold bytes_lt, bytes_ltb; by rewrite E).
    constructor; [by constructor|]. constructor; [done|].
    eapply Forall_impl; [exact Hp|]. intros q Hq. by eapply bytes_lt_trans.
  - constructor; [done|]. apply map_set_Forall; [|done].
    rewrite bytes_compare_antisym in E. unfold bytes_lt, bytes_ltb. cbn.
    by destruct (bytes_compare k' k).
Qed.

(** Operands in range, as the service's callers pass them. *)
Definition wf_op (op : FakeOp) : Prop :=
  match op with
  | op_addDataBlob _ ts ng txn blob => wf_record (LData (mkDataRecord ts ng txn blob))
  | op_addDdl _ ts txn o => wf_record (LDdl (mkDdlRecord ts ts txn o))
  | op_setBound _ b => 0 <= b < u64_max
  | _ => True
  end.

Definition service_maps_ok (s : CdcFakeLogService) : Prop :=
  forall id g, fs_groups s !! id = Some g -> maps_ok g.

Section Reachable.

Context (dataBytes : CdcDataRecord -> Z) (ddlBytes : CdcDdlRecord -> Z) (EHOSTDOWN ECANCELED : Z).

Lemma on_group_maps s id f s' :
  (forall g, maps_ok g -> maps_ok (f g)) -> service_maps_ok s -> on_group s id f = Ok s' ->
  service_maps_ok s'.
Proof.
  intros Hf Hs H. unfold on_group in H. destruct (fake_group s id) as [g|] eqn:Eg; [|done].
  injection H as <-. apply fake_group_Ok in Eg. intros id' g' Hl. cbn in Hl.
  apply lookup_insert_Some in Hl as [[<- <-]|[_ Hl]]; [|by eapply Hs]. apply Hf. by eapply Hs.
Qed.

Lemma answer_call_maps s id call s' :
  service_maps_ok s -> answer_call dataBytes ddlBytes EHOSTDOWN s id call = Ok s' -> service_maps_ok s'.
Proof.
  intros Hs H. unfold answer_call in H. destruct (fake_group s id) as [g|] eqn:Eg; [|done].
  apply fake_group_Ok in Eg. cbn [rbind] in H.
  destruct (answer _ _ _ g (pc_request call)) as [[a g']|] eqn:Ea; [|done]. injection H as <-.
  assert (maps_ok g') as Hg'.
  { pose proof (Hs id g Eg) as Hg. unfold answer in Ea.
    destruct (negb _); [by injection Ea as _ <-|].
    destruct (fg_actions g) as [|[[] ?] ?]; [|by injection Ea as _ <-|by injection Ea as _ <-].
    destruct (start_position _) as [[p t]|]; [|done]. cbn [rbind] in Ea.
    destruct (_ && _ && _); [by injection Ea as _ <-|].
    destruct (page_loop _ _ _ _ _ _ _ _ _) as [[[? ?] ?] ?]. by injection Ea as _ <-. }
  intros id' g1 Hl. cbn in Hl. apply lookup_insert_Some in Hl as [[<- <-]|[_ Hl]]; [done|by eapply Hs].
Qed.

Lemma answer_calls_maps calls s id s' :
  service_maps_ok s -> answer_calls dataBytes ddlBytes EHOSTDOWN s id calls = Ok s' -> service_maps_ok s'.
Proof.
  revert s. induction calls as [|c calls IH]; intros s Hs H; cbn in H; [by injection H as <-|].
  destruct (answer_call _ _ _ s id c) as [s1|] eqn:E; [|done]. cbn in H.
  eapply IH; [|exact H]. by eapply answer_call_maps.
Qed.

Lemma cancel_in_maps ids s cntl : service_maps_ok s -> service_maps_ok (cancel_in ECANCELED s ids cntl).
Proof.
  intros Hs. induction ids as [|id ids IH]; [done|]. cbn.
  destruct (fs_groups s !! id) as [g|] eqn:Eg; [|done].
  destruct (take_held cntl (fg_held g)); [|done]. intros id' g' Hl. cbn in Hl.
  apply lookup_insert_Some in Hl as [[<- <-]|[_ Hl]]; [exact (Hs id g Eg)|by eapply Hs].
Qed.

Lemma fake_step_maps s op s' :
  wf_op op -> service_maps_ok s -> fake_step dataBytes ddlBytes EHOSTDOWN ECANCELED s op = Ok s' ->
  service_maps_ok s'.
Proof.
  intros Hop Hs H. destruct op; cbn in H, Hop;
    try (by eapply (on_group_maps s); [|done|exact H]).
  - eapply (on_group_maps s); [|done|exact H]. intros g ((Hk & Hsd) & Hl & Hb). split; [|exact (conj Hl Hb)].
    split; [by apply map_set_Forall|by apply map_set_sorted].
  - eapply (on_group_maps s); [|done|exact H]. intros g (Hd & (Hk & Hsd) & Hb). split; [exact Hd|].
    split; [split; [by apply map_set_Forall|by apply map_set_sorted]|exact Hb].
  - eapply (on_group_maps s); [|done|exact H]. intros g (Hd & Hl & _). exact (conj Hd (conj Hl Hop)).
  - unfold setLeader in H. destruct (fake_group s id) as [g|]; [|done]. cbn in H.
    destruct (has_node g node); [|done]. by eapply (on_group_maps s); [|done|exact H].
  - by injection H as <-.
  - unfold releaseHeld in H. destruct (fake_group s id) as [g|]; [|done]. cbn [rbind] in H.
    destruct (on_group s id _) as [s1|] eqn:E; [|done]. cbn [rbind] in H.
    eapply answer_calls_maps; [|exact H]. by eapply (on_group_maps s); [|done|exact E].
  - unfold scan in H. destruct (fake_group s id) as [g|]; [|done]. cbn [rbind] in H.
    destruct (on_group s id _) as [s1|] eqn:E; [|done]. cbn [rbind] in H.
    assert (service_maps_ok s1) as Hs1 by (by eapply (on_group_maps s); [|done|exact E]).
    destruct (fg_mode g).
    + destruct (answer_call _ _ _ s1 id call) as [s2|] eqn:E2; [|done]. injection H as <-.
      by eapply answer_call_maps.
    + by injection H as <-.
    + destruct (on_group s1 id _) as [s2|] eqn:E2; [|done]. injection H as <-.
      by eapply (on_group_maps s1); [|done|exact E2].
  - unfold run_async in H. destruct (fs_async s !! i) as [[id call]|]; [|by injection H as <-].
    eapply answer_call_maps; [|exact H]. exact Hs.
  - unfold followNode in H. destruct (fake_group s id) as [g|]; [|done]. cbn in H.
    destruct (has_node g node); [|done]. by eapply (on_group_maps s); [|done|exact H].
  - injection H as <-. unfold cancel. cbn. destruct (fs_cancelRunsDone s); [|done].
    by apply cancel_in_maps.
Qed.

Lemma fake_run_maps ops s s' :
  Forall wf_op ops -> service_maps_ok s ->
  fake_run dataBytes ddlBytes EHOSTDOWN ECANCELED s ops = Ok s' -> service_maps_ok s'.
Proof.
  intros Hops. revert s. induction Hops as [|op ops Hop Hops IH]; intros s Hs H; cbn [fake_run] in H;
    [by injection H as <-|].
  destruct (fake_step _ _ _ _ s op) as [s1|] eqn:E; [|done]. cbn [rbind] in H.
  eapply IH; [|exact H]. by eapply fake_step_maps.
Qed.

Lemma newFake_maps ids : service_maps_ok (newFake ids).
Proof.
  intros id g H. cbn in H. apply elem_of_list_to_map_2 in H.
  apply list_elem_of_fmap in H as (? & [= -> ->] & _).
  split_and!; cbn; [by split; constructor|by split; constructor|done|done].
Qed.

(** C28. However the service was scripted and used, a group that serves a scan from a timestamp
    or from a continuation it handed out returns a page that keeps the logger's paging contract
    over the records scripted so far: a prefix in merged order of what the position leaves at or
    below the bound, complete unless [has_more], nonempty if cut, with a continuation that
    resumes exactly after it; and answering never trips an invariant. *)
Theorem fake_answers_pages ids ops s id g req :
  Forall wf_op ops -> fake_run dataBytes ddlBytes EHOSTDOWN ECANCELED (newFake ids) ops = Ok s ->
  fs_groups s !! id = Some g ->
  start_issued fake_issued (rq_start req) \/ rq_start req = start_unset ->
  exists a g', answer dataBytes ddlBytes EHOSTDOWN g req = Ok (a, g') /\
    (fan_failed a = None -> rs_status (fan_response a) = Success ->
     exists page, valid_page (fake_history g) (fake_rest (fake_history g)) req (fan_response a) page /\
       fake_issued (rs_continuation (fan_response a))).
Proof.
  intros Hops Hrun Hg Hst.
  pose proof (fake_run_maps ops _ s Hops (newFake_maps ids) Hrun id g Hg) as Hm.
  destruct (fake_history_ok g Hm) as [Hw Hsc].
  assert (exists a g', answer dataBytes ddlBytes EHOSTDOWN g req = Ok (a, g')) as (a & g' & Ea).
  { unfold answer. destruct (negb _); [by eexists _, _|].
    destruct (fg_actions g) as [|[[] ?] ?]; [|by eexists _, _|by eexists _, _].
    destruct (start_position_spec _ _ Hw Hst) as (p & t & -> & _). cbn [rbind].
    destruct (_ && _ && _); [by eexists _, _|].
    destruct (page_loop _ _ _ _ _ _ _ _ _) as [[[? ?] ?] ?]. by eexists _, _. }
  exists a, g'. split; [done|]. intros Hf Hs. by eapply answer_page.
Qed.

(** Every call scanned through the service, whichever way it was to complete and whether or
    not it was cancelled, has its closure run exactly once by the time the service is gone. *)
Theorem closures_run_once ids ops s s' :
  NoDup ids -> fake_run dataBytes ddlBytes EHOSTDOWN ECANCELED (newFake ids) ops = Ok s ->
  destroyFake dataBytes ddlBytes EHOSTDOWN ECANCELED s = Ok s' ->
  map fst (fs_done s') ≡ₚ scanned ops.
Proof.
  intros Hnd Hrun Hd. destruct (newFake_ok ids Hnd) as [Hok0 E0].
  destruct (fake_run_accounted dataBytes ddlBytes EHOSTDOWN ECANCELED ops _ s Hok0 Hrun) as [Hok1 A1].
  unfold destroyFake in Hd.
  destruct (join_all _ _ _ s _) as [s1|] eqn:Ej; [|done]. cbn [rbind] in Hd.
  destruct (join_all_accounted dataBytes ddlBytes EHOSTDOWN _ s s1 Hok1 eq_refl Ej) as (Hok2 & A2 & L2).
  destruct (fail_held_accounted ECANCELED _ s1 s' Hok2 Hd) as (_ & A3 & L3 & I3 & Hh).
  assert (accounted s' = map fst (fs_done s')) as E.
  { unfold accounted, asyncs, helds. rewrite L3, L2. cbn.
    replace (concat (map (held_of s') (fs_logGroupIds s'))) with (@nil Z); [by rewrite app_nil_r|].
    symmetry. apply concat_nil_Forall, Forall_forall. intros x Hx.
    apply list_elem_of_fmap in Hx as (id & -> & Hid). apply Hh. left. by rewrite <- I3. }
  rewrite <- E, A3, A2, A1, E0, app_nil_r. done.
Qed.
End Reachable.

(** ** A script *)

Definition ex_op : SchemaOpMessage := mkSchemaOp 3 true [] 0 false [] [].
Definition ex_request : CdcScanRequest := mkScanRequest 7 (start_from_ts 5) 30 0.

(** Three records, a bound below the last, one held call cancelled, one answered inline. *)
Definition ex_ops : list FakeOp :=
  [op_addDataBlob 7 10 0 1 []; op_addDdl 7 10 2 ex_op; op_addDataBlob 7 20 0 3 []; op_setBound 7 15;
   op_scan 7 (mkPendingCall 100 ex_request); op_setCompletion 7 kHeld;
   op_scan 7 (mkPendingCall 101 ex_request); op_scan 7 (mkPendingCall 102 ex_request);
   op_cancel 101; op_setCompletion 7 kAsync; op_scan 7 (mkPendingCall 103 ex_request)].

Definition ex_service : CdcFakeLogService :=
  match fake_run (fun _ => 20) (fun _ => 20) 112 125 (newFake [7]) ex_ops with
  | Ok s => s
  | Err _ => newFake []
  end.

Lemma ex_ops_wf : Forall wf_op ex_ops.
Proof. repeat constructor; done. Qed.

Lemma fake_answers_pages_witness :
  exists g a g', fs_groups ex_service !! 7 = Some g /\
    answer (fun _ => 20) (fun _ => 20) 112 g ex_request = Ok (a, g') /\
    rs_has_more (fan_response a) = true /\
    exists page, valid_page (fake_history g) (fake_rest (fake_history g)) ex_request (fan_response a) page.
Proof.
  destruct (fs_groups ex_service !! 7) as [g|] eqn:Eg; [|vm_compute in Eg; done].
  destruct (fake_answers_pages (fun _ => 20) (fun _ => 20) 112 125 [7] ex_ops ex_service 7 g ex_request)
    as (a & g' & Ea & Hp).
  - exact ex_ops_wf.
  - vm_compute. reflexivity.
  - exact Eg.
  - by left.
  - exists g, a, g'. split; [done|]. split; [done|].
    vm_compute in Eg. injection Eg as <-. vm_compute in Ea. injection Ea as <- <-.
    split; [reflexivity|]. destruct Hp as (page & Hv & _); [reflexivity|reflexivity|]. by exists page.
Defined.

Lemma closures_run_once_witness :
  exists s', destroyFake (fun _ => 20) (fun _ => 20) 112 125 ex_service = Ok s' /\
    map fst (fs_done s') ≡ₚ [100; 101; 102; 103].
Proof.
  destruct (destroyFake (fun _ => 20) (fun _ => 20) 112 125 ex_service) as [s'|] eqn:E;
    [|vm_compute in E; done].
  exists s'. split; [done|].
  apply (closures_run_once (fun _ => 20) (fun _ => 20) 112 125 [7] ex_ops ex_service s').
  - apply NoDup_singleton.
  - vm_compute. reflexivity.
  - exact E.
Defined.
