(* ===== verification/EventStream.v ===== *)
(** * Producing events (cdc/cdc_event_stream.{h,cpp})

    [CdcEventStream] decodes the records the scan source releases, one at a time, and turns each
    change into an event document whose [_id] is the resume token valid once it is delivered. Per
    log group it keeps a cursor, the dedup set of the current timestamp and, after a resume, what
    is still to be skipped. The theorems of [ResumeExact] are stated on these definitions. *)

From S2P Require Import Prelude Bytes Bson RawBson BsonBuilder ResumeToken BlobDecoder LogService.
From S2P Require Import DdlDecoder ScanClient ScanContract ScanSource.
#[local] Open Scope Z_scope.

(** ** Data *)

Definition kEventEnvelopeBytes : Z := 512.

Record CdcStreamStats := mkStats {
  st_emitBound : Z;
  st_producedThrough : Z;
  st_dedupOverflows : Z;
  st_lastPullMillis : Z;
}.

Record ResumeSkip := mkSkip {
  k_ts : Z;
  k_dataKey : bytes;
  k_ddlKey : bytes;
  k_dataAtTs : bool;
  k_ddlAtTs : bool;
  k_atPosition : bool;
  k_section : Z;
  k_entry : Z;
}.

(** A group's dedup set, its timestamp and the bytes it holds. *)
Record Dedup := mkDedup {
  dd_ts : Z;
  dd_set : gset bytes;
  dd_bytes : Z;
}.

(** [CdcEventStream::Group]. *)
Record EGroup := mkEGroup {
  eg_hasCursor : bool;
  eg_dataKey : bytes;
  eg_ddlKey : bytes;
  eg_partial : bool;
  eg_section : Z;
  eg_entry : Z;
  eg_dedup : Dedup;
  eg_skip : option ResumeSkip;
}.

Definition newDedup : Dedup := mkDedup 0 ∅ 0.
Definition newEGroup : EGroup := mkEGroup false [] [] false 0 0 newDedup None.

(** [CdcEventStream::Current]. *)
Record Current := mkCurrent {
  cu_record : CdcSourceRecord;
  cu_key : bytes;
  cu_ts : Z;
  cu_txn : Z;
  cu_decoder : CdcBlobDecoder;
  cu_consumeThrough : option (Z * Z);
}.

Record CdcEventStreamOptions := mkStreamOptions {
  eo_source : CdcScanSourceOptions;
  eo_dedupSetBytes : Z;
}.

Record CdcEventStream := mkEventStream {
  es_source : CdcScanSource;
  es_scope : CdcStreamScope;
  es_options : CdcEventStreamOptions;
  es_groups : gmap Z EGroup;
  es_current : option Current;
  es_openingToken : Document;
  es_ownDropKeys : gmap Z bytes;
  es_resumedFrom : option CdcResumeToken;
  es_pendingInvalidate : option Document;
  es_invalidated : bool;
  es_invalidateToken : Document;
  es_duplicatesSuppressed : Z;
  es_dedupOverflows : Z;
  es_stats : CdcStreamStats;
}.

Definition with_source (st : CdcEventStream) (s : CdcScanSource) : CdcEventStream :=
  mkEventStream s (es_scope st) (es_options st) (es_groups st) (es_current st) (es_openingToken st)
    (es_ownDropKeys st) (es_resumedFrom st) (es_pendingInvalidate st) (es_invalidated st)
    (es_invalidateToken st) (es_duplicatesSuppressed st) (es_dedupOverflows st) (es_stats st).

(** [_groups[id] = g]. *)
Definition with_group (st : CdcEventStream) (id : Z) (g : EGroup) : CdcEventStream :=
  mkEventStream (es_source st) (es_scope st) (es_options st) (<[id := g]> (es_groups st)) (es_current st)
    (es_openingToken st) (es_ownDropKeys st) (es_resumedFrom st) (es_pendingInvalidate st)
    (es_invalidated st) (es_invalidateToken st) (es_duplicatesSuppressed st) (es_dedupOverflows st)
    (es_stats st).

Definition with_current (st : CdcEventStream) (c : option Current) : CdcEventStream :=
  mkEventStream (es_source st) (es_scope st) (es_options st) (es_groups st) c
    (es_openingToken st) (es_ownDropKeys st) (es_resumedFrom st) (es_pendingInvalidate st)
    (es_invalidated st) (es_invalidateToken st) (es_duplicatesSuppressed st) (es_dedupOverflows st)
    (es_stats st).

Definition with_openingToken (st : CdcEventStream) (t : Document) : CdcEventStream :=
  mkEventStream (es_source st) (es_scope st) (es_options st) (es_groups st) (es_current st) t
    (es_ownDropKeys st) (es_resumedFrom st) (es_pendingInvalidate st) (es_invalidated st)
    (es_invalidateToken st) (es_duplicatesSuppressed st) (es_dedupOverflows st) (es_stats st).

Definition with_ownDropKeys (st : CdcEventStream) (m : gmap Z bytes) : CdcEventStream :=
  mkEventStream (es_source st) (es_scope st) (es_options st) (es_groups st) (es_current st)
    (es_openingToken st) m (es_resumedFrom st) (es_pendingInvalidate st) (es_invalidated st)
    (es_invalidateToken st) (es_duplicatesSuppressed st) (es_dedupOverflows st) (es_stats st).

Definition with_resumedFrom (st : CdcEventStream) (t : option CdcResumeToken) : CdcEventStream :=
  mkEventStream (es_source st) (es_scope st) (es_options st) (es_groups st) (es_current st)
    (es_openingToken st) (es_ownDropKeys st) t (es_pendingInvalidate st) (es_invalidated st)
    (es_invalidateToken st) (es_duplicatesSuppressed st) (es_dedupOverflows st) (es_stats st).

Definition with_pendingInvalidate (st : CdcEventStream) (d : option Document) : CdcEventStream :=
  mkEventStream (es_source st) (es_scope st) (es_options st) (es_groups st) (es_current st)
    (es_openingToken st) (es_ownDropKeys st) (es_resumedFrom st) d (es_invalidated st)
    (es_invalidateToken st) (es_duplicatesSuppressed st) (es_dedupOverflows st) (es_stats st).

Definition with_invalidated (st : CdcEventStream) (t : Document) : CdcEventStream :=
  mkEventStream (es_source st) (es_scope st) (es_options st) (es_groups st) (es_current st)
    (es_openingToken st) (es_ownDropKeys st) (es_resumedFrom st) None true t
    (es_duplicatesSuppressed st) (es_dedupOverflows st) (es_stats st).

(** [_duplicatesSuppressed += dups], [_dedupOverflows += ovf]. *)
Definition with_counts (st : CdcEventStream) (dups ovf : Z) : CdcEventStream :=
  mkEventStream (es_source st) (es_scope st) (es_options st) (es_groups st) (es_current st)
    (es_openingToken st) (es_ownDropKeys st) (es_resumedFrom st) (es_pendingInvalidate st)
    (es_invalidated st) (es_invalidateToken st) (wrap64 (es_duplicatesSuppressed st + dups))
    (wrap64 (es_dedupOverflows st + ovf)) (es_stats st).

Definition with_stats (st : CdcEventStream) (x : CdcStreamStats) : CdcEventStream :=
  mkEventStream (es_source st) (es_scope st) (es_options st) (es_groups st) (es_current st)
    (es_openingToken st) (es_ownDropKeys st) (es_resumedFrom st) (es_pendingInvalidate st)
    (es_invalidated st) (es_invalidateToken st) (es_duplicatesSuppressed st) (es_dedupOverflows st) x.

(** [_groups[id]]: a new group if there is none. *)
Definition group_at (st : CdcEventStream) (id : Z) : EGroup := default newEGroup (es_groups st !! id).

(** ** Keys and timestamps *)

(** The timestamp a storage key begins with; 0 for a shorter key. *)
Definition keyTimestamp (key : bytes) : Z :=
  if blen key <? 8 then 0 else readBigEndian (take 8 key).

(** What identifies a change for dedup: the transaction, the namespace and the logged key. *)
Definition dedupKey (txn : Z) (e : Entry) : bytes :=
  appendBigEndian txn 8 ++ e_ns e ++ [Byte.x00] ++ e_keyString e.

Definition operationType (op : CdcOperation) : bytes :=
  match op with
  | kInsert => lit "insert"
  | kUpdate | kUpsert => lit "replace"
  | kDelete => lit "delete"
  end.

(** [Timestamp(secs, inc)], as its 64 bits. *)
Definition Timestamp (secs inc : Z) : Z := wrap32 secs * 2 ^ 32 + wrap32 inc.
Definition getSecs (t : Z) : Z := t / 2 ^ 32.
Definition getInc (t : Z) : Z := t mod 2 ^ 32.

(** Seconds and microseconds of a timestamp in microseconds. *)
Definition clusterTime (ts : Z) : Z := Timestamp (ts / 1000000) (ts mod 1000000).

(** [_seen]: whether the change was recorded at its timestamp, the set with it recorded if it
    fits, and whether it did not fit. *)
Definition seen (limit : Z) (d : Dedup) (ts : Z) (key : bytes) : bool * Dedup * bool :=
  let d := if dd_ts d =? ts then d else mkDedup ts ∅ 0 in
  if bool_decide (key ∈ dd_set d) then (true, d, false)
  else
    let size := blen key + 32 in
    if limit <? dd_bytes d + size then (false, d, true)
    else (false, mkDedup (dd_ts d) ({[key]} ∪ dd_set d) (dd_bytes d + size), false).

Definition bool_Z (b : bool) : Z := if b then 1 else 0.

(** ** Tokens *)

(** The token entry of a group's cursor. *)
Definition cursor_entry (id : Z) (g : EGroup) : CdcResumeTokenEntry :=
  mkTokenEntry id (if eg_partial g then kAtKeyAfterPosition else kAfterKey)
    (eg_dataKey g) (eg_ddlKey g)
    (if eg_partial g then eg_section g else 0) (if eg_partial g then eg_entry g else 0).

Definition cursor_ts (g : EGroup) : Z := Z.max (keyTimestamp (eg_dataKey g)) (keyTimestamp (eg_ddlKey g)).

Definition group_le (a b : Z * EGroup) : Prop := a.1 <= b.1.
#[global] Instance group_le_dec a b : Decision (group_le a b).
Proof. unfold group_le. apply _. Defined.

(** The groups in the order of [std::map]. *)
Definition groups_in_order (st : CdcEventStream) : list (Z * EGroup) :=
  merge_sort group_le (map_to_list (es_groups st)).

(** [_entries]: the cursors beyond what the token's own timestamp covers, in group order. *)
Definition entries (st : CdcEventStream) (coveredThrough : Z) : list CdcResumeTokenEntry :=
  omap (fun '(id, g) =>
    if negb (eg_hasCursor g) || (cursor_ts g <=? coveredThrough) then None
    else Some (cursor_entry id g)) (groups_in_order st).

Definition watermark (st : CdcEventStream) : CdcResumeToken :=
  let bound := emitBound (es_source st) in makeWatermark bound (entries st bound).

(** ** Event documents *)

Definition ns_document (nss : bytes) : bson :=
  BObject [(lit "db", BString (NamespaceString.db nss)); (lit "coll", BString (NamespaceString.coll nss))].

Section Documents.

(** [CdcKeyDecoder::decodeIdKey]: the [_id] a logged key encodes. *)
Context (decodeIdKey : bytes -> result Document).

(** [_event] for a change at [ts], given its token. *)
Definition event_document (token : CdcResumeToken) (ts : Z) (e : Entry) : result Document :=
  let! token := toBSON token in
  let isDelete := bool_decide (e_op e = kDelete) in
  let! data := if isDelete then Ok [] else documentBson e in
  let! fullDocument := if isDelete then Ok [] else BSONObj_init data in
  let fullSize := if isDelete then 0 else signed32 (readNativeBytes (take 4 data)) in
  let! documentKey :=
    match getField fullDocument (lit "_id") with
    | Some id => Ok [(lit "_id", id)]
    | None => decodeIdKey (e_keyString e)
    end in
  let! nss := NamespaceString.make (e_ns e) in
  let estimate := fullSize + objsize token + objsize documentKey + blen (e_keyString e)
    + blen (e_ns e) + kEventEnvelopeBytes in
  let body :=
    if isDelete then []
    else if BSONObjMaxUserSize <? estimate then [(lit "fullDocumentOmitted", BBool true)]
    else [(lit "fullDocument", BObject fullDocument)] in
  Ok ([(lit "_id", BObject token);
       (lit "operationType", BString (operationType (e_op e)));
       (lit "clusterTime", BTimestamp (clusterTime ts))] ++ body ++
      [(lit "ns", ns_document nss);
       (lit "documentKey", BObject documentKey);
       (lit "eloq", BObject [(lit "keyBytes", BBinData 0 (e_keyString e))])]).

(** The event of a DDL record's change, given its token. *)
Definition ddl_document (token : CdcResumeToken) (ts : Z) (change : CdcDdlChange) : result Document :=
  let! nss := NamespaceString.make (dc_ns change) in
  let! token := toBSON token in
  Ok ([(lit "_id", BObject token);
       (lit "operationType", BString (dc_operationType change));
       (lit "clusterTime", BTimestamp (clusterTime ts));
       (lit "ns", ns_document nss)] ++
      if dc_dropsCollection change then []
      else [(lit "operationDescription", BObject (dc_operationDescription change))]).

Definition invalidateEvent (token : CdcResumeToken) (ns : bytes) : result Document :=
  let! nss := NamespaceString.make ns in
  let! t := toBSON token in
  Ok [(lit "_id", BObject t);
      (lit "operationType", BString (lit "invalidate"));
      (lit "clusterTime", BTimestamp (clusterTime (tok_timestamp token)));
      (lit "ns", ns_document nss)].

End Documents.

(** ** The stream *)

Section Stream.

(** The world, the key decoder, [BSONDepth::getMaxAllowableDepth()] and
    [txlog::TableEngine::EloqDoc]. *)
Context (env : Env) (decodeIdKey : bytes -> result Document) (maxDepth EloqDoc : Z).

(** The constructor, over the transport's log groups. *)
Definition newStream (ids : list Z) (scope : CdcStreamScope) (o : CdcEventStreamOptions)
    : result CdcEventStream :=
  let! s := newSource ids (eo_source o) in
  Ok (mkEventStream s scope o ∅ None [] ∅ None None false [] 0 0 (mkStats 0 0 0 0)).

(** *** Opening *)

Definition openFresh (fuel : nat) (st : CdcEventStream) (deadline : Z)
    : option (result (bool * CdcEventStream)) :=
  if negb (bool_decide (length (es_openingToken st) = 0%nat)) then Some (Err InvariantFailure) else
  match fixStart fuel env (es_source st) deadline with
  | None => None
  | Some (Err e) => Some (Err e)
  | Some (Ok (None, s)) => Some (Ok (false, with_source st s))
  | Some (Ok (Some start, s)) =>
      Some (let! t := toBSON (makeWatermark start []) in
            Ok (true, with_openingToken (with_source st s) t))
  end.

(** The form-0 entries of an event token whose DDL key is at the token's timestamp. *)
Definition own_drop_keys (token : CdcResumeToken) : gmap Z bytes :=
  foldl (fun m e =>
    if bool_decide (te_form e = kAfterKey) && (keyTimestamp (te_ddlKey e) =? tok_timestamp token)
       && negb (bool_decide (is_Some (m !! te_logGroupId e)))
    then <[te_logGroupId e := te_ddlKey e]> m else m) ∅ (tok_entries token).

(** The resume point a token entry sets. *)
Definition skip_of (e : CdcResumeTokenEntry) : ResumeSkip :=
  let dataTs := keyTimestamp (te_dataKey e) in
  let ddlTs := keyTimestamp (te_ddlKey e) in
  let ts := Z.max dataTs ddlTs in
  mkSkip ts (te_dataKey e) (te_ddlKey e) (dataTs =? ts) (ddlTs =? ts)
    (bool_decide (te_form e = kAtKeyAfterPosition)) (te_section e) (te_entry e).

Definition resumed_group (e : CdcResumeTokenEntry) (g : EGroup) : EGroup :=
  mkEGroup true (te_dataKey e) (te_ddlKey e) (bool_decide (te_form e = kAtKeyAfterPosition))
    (te_section e) (te_entry e) (eg_dedup g) (Some (skip_of e)).

(** The loop of [openAt] over the log groups. *)
Fixpoint open_groups (token : CdcResumeToken) (absentStart : Z) (ids : list Z) (st : CdcEventStream)
    : result CdcEventStream :=
  match ids with
  | [] => Ok st
  | id :: ids =>
      let entry := entryFor (tok_entries token) id in
      let dataTs := match entry with Some e => keyTimestamp (te_dataKey e) | None => 0 end in
      let ddlTs := match entry with Some e => keyTimestamp (te_ddlKey e) | None => 0 end in
      let! st :=
        if Z.max dataTs ddlTs <? absentStart then
          let! s := startAt (es_source st) id absentStart in Ok (with_source st s)
        else
          match entry with
          | None => Err InvariantFailure
          | Some e =>
              let st := with_group st id (resumed_group e (group_at st id)) in
              let! s := startAt (es_source st) id (k_ts (skip_of e)) in
              Ok (with_source st s)
          end in
      open_groups token absentStart ids st
  end.

Definition openAt (st : CdcEventStream) (token : CdcResumeToken) : result CdcEventStream :=
  let! _ := invariant (bool_decide (length (es_openingToken st) = 0%nat)) in
  let! absentStart := startTimestampForAbsentGroup token in
  let st :=
    if bool_decide (tok_kind token = kEvent) then
      let keys := own_drop_keys token in
      let st := with_ownDropKeys st keys in
      if bool_decide (keys = ∅) then st else with_resumedFrom st (Some token)
    else st in
  let! st := open_groups token absentStart (s_logGroupIds (es_source st)) st in
  let! t := toBSON token in
  Ok (with_openingToken st t).

(** *** Records *)

Definition dropsWatchedCollection (st : CdcEventStream) (change : option CdcDdlChange) : bool :=
  match change with
  | Some c => dc_dropsCollection c && isCollection (es_scope st) (dc_ns c)
  | None => false
  end.

Definition ddlEvent (st : CdcEventStream) (ts : Z) (d : CdcDdlRecord)
    : result (option Document * CdcEventStream) :=
  let! change := decodeCdcDdl maxDepth EloqDoc (lr_schema_op d) in
  match change with
  | None => Ok (None, st)
  | Some c =>
      if negb (includes (es_scope st) (dc_ns c)) then Ok (None, st)
      else
        let es := entries st (wrap64 (ts - 1)) in
        let! event := ddl_document (mkToken ts kEvent es) ts c in
        let! st :=
          if dropsWatchedCollection st (Some c) then
            let! inv := invalidateEvent (mkToken ts kInvalidate es) (dc_ns c) in
            Ok (with_pendingInvalidate st (Some inv))
          else Ok st in
        Ok (Some event, st)
  end.

Definition set_skip (k : option ResumeSkip) (g : EGroup) : EGroup :=
  mkEGroup (eg_hasCursor g) (eg_dataKey g) (eg_ddlKey g) (eg_partial g) (eg_section g) (eg_entry g)
    (eg_dedup g) k.

Definition set_dedup (d : Dedup) (g : EGroup) : EGroup :=
  mkEGroup (eg_hasCursor g) (eg_dataKey g) (eg_ddlKey g) (eg_partial g) (eg_section g) (eg_entry g)
    d (eg_skip g).

(** A DDL record at or below the resume point: produced before the token, but the drop the token
    itself reports leaves its invalidate. *)
Definition skipped_ddl (st : CdcEventStream) (id : Z) (key : bytes) (d : CdcDdlRecord)
    : result (option Document * CdcEventStream) :=
  match es_ownDropKeys st !! id with
  | Some own =>
      if bytes_eqb own key then
        let st := with_ownDropKeys st (delete id (es_ownDropKeys st)) in
        let! change := decodeCdcDdl maxDepth EloqDoc (lr_schema_op d) in
        match change, es_resumedFrom st with
        | Some c, Some from =>
            if dropsWatchedCollection st change then
              let! inv := invalidateEvent (mkToken (tok_timestamp from) kInvalidate (tok_entries from))
                            (dc_ns c) in
              Ok (None, with_pendingInvalidate st (Some inv))
            else Ok (None, st)
        | Some _, None => if dropsWatchedCollection st change then Err InvariantFailure else Ok (None, st)
        | None, _ => Ok (None, st)
        end
      else Ok (None, st)
  | None => Ok (None, st)
  end.

(** Runs a decoder to its end, recording every change in the dedup set. *)
Fixpoint consume (fuel : nat) (limit ts txn : Z) (decoder : CdcBlobDecoder) (d : Dedup) (ovf : Z)
    : result (Dedup * Z) :=
  match fuel with
  | O => Err InvariantFailure
  | S fuel =>
      let! (e, decoder) := BlobDecoder.next decoder in
      match e with
      | None => Ok (d, ovf)
      | Some e =>
          let '(_, d, o) := seen limit d ts (dedupKey txn e) in
          consume fuel limit ts txn decoder d (ovf + bool_Z o)
      end
  end.

(** More calls of a decoder's [next] than it has entries. *)
Definition decoder_fuel (d : CdcBlobDecoder) : nat :=
  S (length (d_sectionEntries d) + length (d_blob d)).

(** Whether a data record at the resume timestamp was produced before the token. *)
Definition producedBefore (k : ResumeSkip) (key : bytes) : bool :=
  k_ddlAtTs k || negb (k_dataAtTs k) || bytes_ltb key (k_dataKey k)
  || (bytes_eqb key (k_dataKey k) && negb (k_atPosition k)).

Definition begin (st : CdcEventStream) (record : CdcSourceRecord)
    : result (option Document * CdcEventStream) :=
  let id := sr_logGroupId record in
  let! ts := sr_timestamp record in
  let g := group_at st id in
  let skip := match eg_skip g with Some k => if k_ts k <? ts then None else Some k | None => None end in
  let g := set_skip skip g in
  let st := with_group st id g in
  match sr_stream record with
  | kDdl =>
      let! d := sr_ddl record in
      let! key := sr_ddlKey record in
      if match skip with Some k => k_ddlAtTs k && bytes_leb key (k_ddlKey k) | None => false end
      then skipped_ddl st id key d
      else
        let g := mkEGroup true (eg_dataKey g) key (eg_partial g) (eg_section g) (eg_entry g)
                   (eg_dedup g) None in
        ddlEvent (with_group st id g) ts d
  | kData =>
      let! d := sr_data record in
      let! key := sr_dataKey record in
      let txn := dr_txn_number d in
      let decoder := newDecoder (dr_blob d) (es_scope st) in
      let current through := Ok (None, with_current st (Some (mkCurrent record key ts txn decoder through))) in
      match skip with
      | Some k =>
          if producedBefore k key then
            let! (dedup, ovf) := consume (decoder_fuel decoder) (eo_dedupSetBytes (es_options st)) ts txn
                                   decoder (eg_dedup g) 0 in
            Ok (None, with_counts (with_group st id (set_dedup dedup g)) 0 ovf)
          else current (if bytes_eqb key (k_dataKey k) then Some (k_section k, k_entry k) else None)
      | None => current None
      end
  end.

(** *** Pulling *)

(** The position through which a resumed record's changes are consumed. *)
Definition consumed_through (through : option (Z * Z)) (e : Entry) : bool :=
  match through with
  | Some (section, entry) => (e_section e <? section) || ((e_section e =? section) && (e_entry e <=? entry))
  | None => false
  end.

(** The decoding loop of [_next]: the next change of the record that is neither consumed nor a
    repeat, the decoder and the dedup set after it, and the repeats and overflows counted. *)
Fixpoint produce (fuel : nat) (limit ts txn : Z) (through : option (Z * Z)) (decoder : CdcBlobDecoder)
    (d : Dedup) (dups ovf : Z) : result (option Entry * CdcBlobDecoder * Dedup * Z * Z) :=
  match fuel with
  | O => Err InvariantFailure
  | S fuel =>
      let! (e, decoder) := BlobDecoder.next decoder in
      match e with
      | None => Ok (None, decoder, d, dups, ovf)
      | Some e =>
          let '(repeat, d, o) := seen limit d ts (dedupKey txn e) in
          let ovf := ovf + bool_Z o in
          if consumed_through through e then produce fuel limit ts txn through decoder d dups ovf
          else if repeat then produce fuel limit ts txn through decoder d (dups + 1) ovf
          else Ok (Some e, decoder, d, dups, ovf)
      end
  end.

(** The record being decoded: its next event, or its end. *)
Definition next_current (st : CdcEventStream) (c : Current) : result (option Document * CdcEventStream) :=
  let id := sr_logGroupId (cu_record c) in
  let g := group_at st id in
  let! (e, decoder, d, dups, ovf) :=
    produce (decoder_fuel (cu_decoder c)) (eo_dedupSetBytes (es_options st)) (cu_ts c) (cu_txn c)
      (cu_consumeThrough c) (cu_decoder c) (eg_dedup g) 0 0 in
  let st := with_counts st dups ovf in
  match e with
  | Some e =>
      let g := mkEGroup true (cu_key c) (eg_ddlKey g) true (e_section e) (e_entry e) d (eg_skip g) in
      let c := mkCurrent (cu_record c) (cu_key c) (cu_ts c) (cu_txn c) decoder (cu_consumeThrough c) in
      let st := with_current (with_group st id g) (Some c) in
      let! event := event_document decodeIdKey (mkToken (cu_ts c) kEvent (entries st (wrap64 (cu_ts c - 1))))
                      (cu_ts c) e in
      Ok (Some event, st)
  | None =>
      let g := mkEGroup true (cu_key c) (eg_ddlKey g) false (eg_section g) (eg_entry g) d (eg_skip g) in
      Ok (None, with_current (with_group st id g) None)
  end.

(** The invalidate event's [_id] document. *)
Definition event_token (event : Document) : result Document :=
  match getField event (lit "_id") with Some (BObject t) => Ok t | _ => Err InvariantFailure end.

(** One round of [_next]: an answer, or another round. *)
Definition next_round (sfuel : nat) (st : CdcEventStream) (deadline : Z)
    : option (result (Pass (option Document * CdcEventStream) CdcEventStream)) :=
  if es_invalidated st then Some (Ok (Return (None, st))) else
  match es_pendingInvalidate st with
  | Some inv => Some (let! t := event_token inv in Ok (Return (Some inv, with_invalidated st t)))
  | None =>
      match es_current st with
      | Some c =>
          Some (let! (event, st) := next_current st c in
                Ok (match event with Some _ => Return (event, st) | None => Again st end))
      | None =>
          match ScanSource.next sfuel env (es_source st) deadline with
          | None => None
          | Some (Err e) => Some (Err e)
          | Some (Ok (None, s)) => Some (Ok (Return (None, with_source st s)))
          | Some (Ok (Some record, s)) =>
              Some (let! (event, st) := begin (with_source st s) record in
                    Ok (match event with Some _ => Return (event, st) | None => Again st end))
          end
      end
  end.

Fixpoint next_rounds (fuel sfuel : nat) (st : CdcEventStream) (deadline : Z)
    : option (result (option Document * CdcEventStream)) :=
  match fuel with
  | O => None
  | S fuel =>
      match next_round sfuel st deadline with
      | None => None
      | Some (Err e) => Some (Err e)
      | Some (Ok (Return x)) => Some (Ok x)
      | Some (Ok (Again st)) => next_rounds fuel sfuel st deadline
      end
  end.

(** [_publishStats]. *)
Definition publishStats (st : CdcEventStream) (event : option Document) : CdcEventStream :=
  let bound := emitBound (es_source st) in
  let produced :=
    match event with
    | Some event =>
        match getField event (lit "clusterTime") with
        | Some (BTimestamp t) => wrap64 (getSecs t * 1000000 + getInc t)
        | _ => st_producedThrough (es_stats st)
        end
    | None => if s_drained (es_source st) then bound else st_producedThrough (es_stats st)
    end in
  let '(now, s) := source_now env (es_source st) in
  with_stats (with_source st s) (mkStats bound produced (es_dedupOverflows st) now).

Definition next (fuel sfuel : nat) (st : CdcEventStream) (deadline : Z)
    : option (result (option Document * CdcEventStream)) :=
  if bool_decide (length (es_openingToken st) = 0%nat) then Some (Err InvariantFailure) else
  match next_rounds fuel sfuel st deadline with
  | Some (Ok (event, st)) => Some (Ok (event, publishStats st event))
  | x => x
  end.

(** Consecutive pulls, and what each returned. *)
Fixpoint pull_events (fuel sfuel : nat) (st : CdcEventStream) (deadlines : list Z)
    : option (result (list (option Document) * CdcEventStream)) :=
  match deadlines with
  | [] => Some (Ok ([], st))
  | d :: ds =>
      match next fuel sfuel st d with
      | None => None
      | Some (Err e) => Some (Err e)
      | Some (Ok (event, st)) =>
          match pull_events fuel sfuel st ds with
          | Some (Ok (events, st)) => Some (Ok (event :: events, st))
          | x => x
          end
      end
  end.

(** [invalidateToken]. *)
Definition invalidateToken (st : CdcEventStream) : Document :=
  if es_invalidated st then es_invalidateToken st else [].

End Stream.
