(* ===== verification/Registry.v ===== *)
(** * The open change streams of a server (cdc/cdc_stream_registry.{h,cpp})

    [CdcStreamRegistry] lists the open streams by the stats each keeps, and serverStatus' section
    reports them. A stats object is an address in a heap of live ones: a stage's stream owns it, the
    registry only points at it. A registry operation is atomic (the registry's lock); the stats of a
    stream change between operations whenever it is pulled. *)

From S2P Require Import Prelude Bytes Bson RawBson BsonBuilder EventStream.
#[local] Open Scope Z_scope.

Module Registry.

(** ** State and operations *)

Abbreviation Address := nat.
Abbreviation Heap := (gmap Address CdcStreamStats).

Record Entry := mkEntry { en_scope : bytes; en_ns : bytes; en_stats : Address }.

Record CdcStreamRegistry := mkRegistry {
  r_entries : gmap Z Entry;
  r_nextId : Z;
  r_closedDedupOverflows : Z;
}.

Definition newRegistry : CdcStreamRegistry := mkRegistry ∅ 1 0.

(** [emplace] leaves an entry already there. *)
Definition add (scope ns : bytes) (stats : Address) (r : CdcStreamRegistry) : Z * CdcStreamRegistry :=
  let id := r_nextId r in
  let entries := match r_entries r !! id with
                 | Some _ => r_entries r
                 | None => <[id := mkEntry scope ns stats]> (r_entries r) end in
  (id, mkRegistry entries (wrap64 (id + 1)) (r_closedDedupOverflows r)).

(** Reads through a stats pointer; [None] is a dangling one. *)
Definition remove (h : Heap) (id : Z) (r : CdcStreamRegistry) : option CdcStreamRegistry :=
  match r_entries r !! id with
  | None => Some r
  | Some e =>
      stats ← h !! en_stats e;
      Some (mkRegistry (delete id (r_entries r)) (r_nextId r)
              (wrap64 (r_closedDedupOverflows r + st_dedupOverflows stats)))
  end.

(** The entries by ascending id, as [forEach] visits them. *)
Definition id_le (a b : Z * Entry) : Prop := a.1 <= b.1.
#[global] Instance id_le_dec a b : Decision (id_le a b).
Proof. unfold id_le. apply _. Defined.

Definition in_order (r : CdcStreamRegistry) : list Entry :=
  map snd (merge_sort id_le (map_to_list (r_entries r))).

(** ** serverStatus' section *)

Definition kMaxListedStreams : Z := 1000.

(** What the visit of the entries accumulates. *)
Record Visit := mkVisit {
  v_open : Z;
  v_maxLag : Z;
  v_overflows : Z;
  v_streams : list Document;
}.

Definition lag_of (stats : CdcStreamStats) : Z :=
  if st_producedThrough stats <? st_emitBound stats
  then signed64 (st_emitBound stats - st_producedThrough stats) else 0.

Definition stream_document (now : Z) (e : Entry) (stats : CdcStreamStats) : Document :=
  [(lit "scope", BString (en_scope e));
   (lit "ns", BString (en_ns e));
   (lit "lagMicros", BLong (lag_of stats));
   (lit "emitBound", BLong (signed64 (st_emitBound stats)));
   (lit "producedThrough", BLong (signed64 (st_producedThrough stats)));
   (lit "dedupSetOverflows", BLong (signed64 (st_dedupOverflows stats)));
   (lit "idleMillis", BLong (if 0 <? st_lastPullMillis stats then now - st_lastPullMillis stats else -1))].

Definition visit (now : Z) (v : Visit) (e : Entry) (stats : CdcStreamStats) : Visit :=
  let open := v_open v + 1 in
  mkVisit open (Z.max (v_maxLag v) (lag_of stats)) (wrap64 (v_overflows v + st_dedupOverflows stats))
    (if open <=? kMaxListedStreams then v_streams v ++ [stream_document now e stats] else v_streams v).

Fixpoint visit_all (h : Heap) (now : Z) (v : Visit) (es : list Entry) : option Visit :=
  match es with
  | [] => Some v
  | e :: es => stats ← h !! en_stats e; visit_all h now (visit now v e stats) es
  end.

Definition forEach (h : Heap) (now : Z) (r : CdcStreamRegistry) : option (Visit * Z) :=
  v ← visit_all h now (mkVisit 0 0 0 []) (in_order r);
  Some (v, r_closedDedupOverflows r).

(** The items of an array are named by their index. *)
Definition array_doc (ds : list Document) : Document := imap (fun i d => (numStr i, BObject d)) ds.

(** [interval]: the checkpointer's interval in seconds. *)
Definition generateSection (h : Heap) (now interval : Z) (r : CdcStreamRegistry) : option Document :=
  '(v, closed) ← forEach h now r;
  let overflows := wrap64 (v_overflows v + closed) in
  Some ([(lit "open", BLong (v_open v));
         (lit "maxLagMicros", BLong (v_maxLag v));
         (lit "dedupSetOverflows", BLong (signed64 overflows));
         (lit "checkpointIntervalMillis", BLong (1000 * interval));
         (lit "streams", BArray (array_doc (v_streams v)))] ++
        if kMaxListedStreams <? v_open v then [(lit "streamsTruncated", BBool true)] else []).

(** ** The life of the streams

    A stage's stream is made with fresh stats and added; pulls change its stats, the overflows never
    backwards; the stage removes it and then destroys it. [w_total]: per id, the overflows of
    the stream, up to its last pull. *)

Record World := mkWorld { w_heap : Heap; w_registry : CdcStreamRegistry; w_total : gmap Z Z }.

Definition init : World := mkWorld ∅ newRegistry ∅.

Definition new_stats : CdcStreamStats := mkStats 0 0 0 0.

Inductive step : World -> World -> Prop :=
| step_open w scope ns p : w_heap w !! p = None -> r_nextId (w_registry w) < u64_max ->
    step w (mkWorld (<[p := new_stats]> (w_heap w)) (add scope ns p (w_registry w)).2
              (<[(add scope ns p (w_registry w)).1 := 0]> (w_total w)))
| step_pull w id e old stats : r_entries (w_registry w) !! id = Some e -> w_heap w !! en_stats e = Some old ->
    st_dedupOverflows old <= st_dedupOverflows stats ->
    step w (mkWorld (<[en_stats e := stats]> (w_heap w)) (w_registry w)
              (<[id := st_dedupOverflows stats]> (w_total w)))
| step_close w id e r : r_entries (w_registry w) !! id = Some e -> remove (w_heap w) id (w_registry w) = Some r ->
    step w (mkWorld (delete (en_stats e) (w_heap w)) r (w_total w)).

Definition sum (m : gmap Z Z) : Z := map_fold (fun _ x n => x + n) 0 m.

(** * Facts *)

(** The overflows of the stream of an entry, and of all open ones. *)
Definition overflow (h : Heap) (e : Entry) : Z :=
  match h !! en_stats e with Some s => st_dedupOverflows s | None => 0 end.

Definition open_sum (h : Heap) (m : gmap Z Entry) : Z := map_fold (fun _ e n => overflow h e + n) 0 m.

Lemma sum_insert_new m i x : m !! i = None -> sum (<[i := x]> m) = x + sum m.
Proof. intros H. unfold sum. rewrite map_fold_insert_L; [done|intros; lia|done]. Qed.

Lemma sum_delete m i x : m !! i = Some x -> sum m = x + sum (delete i m).
Proof. intros H. unfold sum. rewrite (map_fold_delete_L (fun _ x n => x + n) 0 i x m); [done|intros; lia|done]. Qed.

Lemma sum_insert m i x y : m !! i = Some x -> sum (<[i := y]> m) = sum m + (y - x).
Proof.
  intros H. rewrite (sum_delete m i x H), (sum_delete (<[i := y]> m) i y) by apply lookup_insert_eq.
  rewrite delete_insert_eq. lia.
Qed.

Lemma open_sum_delete h m i e : m !! i = Some e -> open_sum h m = overflow h e + open_sum h (delete i m).
Proof.
  intros H. unfold open_sum.
  rewrite (map_fold_delete_L (fun _ e n => overflow h e + n) 0 i e m); [done|intros; lia|done].
Qed.

(** A write nobody listed points at. *)
Lemma open_sum_heap h h' m :
  (forall i e, m !! i = Some e -> h' !! en_stats e = h !! en_stats e) -> open_sum h' m = open_sum h m.
Proof.
  unfold open_sum. induction m as [|i e m Hi IH] using map_ind; intros H; [done|].
  rewrite !map_fold_insert_L by (done || (intros; lia)).
  rewrite IH by (intros j e' Hj; apply (H j); rewrite lookup_insert_ne by congruence; done).
  unfold overflow. by rewrite (H i) by apply lookup_insert_eq.
Qed.

(** ** The invariant *)

Record inv (w : World) : Prop := {
  inv_next : 1 <= r_nextId (w_registry w) <= u64_max;
  inv_ids : forall id, is_Some (r_entries (w_registry w) !! id) \/ is_Some (w_total w !! id) ->
    id < r_nextId (w_registry w);
  inv_live : forall id e, r_entries (w_registry w) !! id = Some e ->
    exists s, w_heap w !! en_stats e = Some s /\ w_total w !! id = Some (st_dedupOverflows s);
  inv_distinct : forall i j e f, r_entries (w_registry w) !! i = Some e ->
    r_entries (w_registry w) !! j = Some f -> en_stats e = en_stats f -> i = j;
  inv_positive : forall id x, w_total w !! id = Some x -> 0 <= x;
  inv_sum : wrap64 (r_closedDedupOverflows (w_registry w) + open_sum (w_heap w) (r_entries (w_registry w)))
    = wrap64 (sum (w_total w));
}.

Lemma inv_init : inv init.
Proof.
  split; cbn; try done.
  - intros id [H|H]; rewrite lookup_empty in H; by destruct H.
Qed.

Lemma wrap64_add a b : wrap64 (wrap64 a + b) = wrap64 (a + b).
Proof. unfold wrap64. apply Zplus_mod_idemp_l. Qed.

Lemma wrap64_shift a b c : wrap64 a = wrap64 b -> wrap64 (a + c) = wrap64 (b + c).
Proof. intros H. rewrite <- (wrap64_add a), H. apply wrap64_add. Qed.

Lemma open_inv w scope ns p : inv w -> w_heap w !! p = None -> r_nextId (w_registry w) < u64_max ->
  inv (mkWorld (<[p := new_stats]> (w_heap w)) (add scope ns p (w_registry w)).2
         (<[(add scope ns p (w_registry w)).1 := 0]> (w_total w))).
Proof.
  intros [In Ii Il Id Ip Is] Hp Hn.
  assert (r_entries (w_registry w) !! r_nextId (w_registry w) = None) as Hf.
  { destruct (r_entries (w_registry w) !! _) eqn:E; [|done]. specialize (Ii _ (or_introl (mk_is_Some _ _ E))). lia. }
  assert (w_total w !! r_nextId (w_registry w) = None) as Ht.
  { destruct (w_total w !! _) eqn:E; [|done]. specialize (Ii _ (or_intror (mk_is_Some _ _ E))). lia. }
  assert (forall i e, r_entries (w_registry w) !! i = Some e -> en_stats e <> p) as Hne.
  { intros i e He <-. destruct (Il _ _ He) as (s & Hs & _). congruence. }
  unfold add. rewrite Hf. split; cbn.
  - unfold wrap64. rewrite Z.mod_small; unfold u64_max in *; lia.
  - intros id Hid. unfold wrap64. rewrite Z.mod_small by (unfold u64_max in *; lia).
    rewrite !lookup_insert_is_Some in Hid. destruct Hid as [[->|[_ H]]|[->|[_ H]]]; [lia| |lia|].
    + specialize (Ii id (or_introl H)). lia.
    + specialize (Ii id (or_intror H)). lia.
  - intros id e. rewrite lookup_insert_Some. intros [[<- <-]|[Hid He]]; cbn.
    + exists new_stats. by rewrite !lookup_insert_eq.
    + destruct (Il _ _ He) as (s & Hs & Hx). exists s. rewrite !lookup_insert_ne; eauto using not_eq_sym.
  - intros i j e f. rewrite !lookup_insert_Some. intros [[<- <-]|[Hi He]] [[<- <-]|[Hj Hf']] E; cbn in *; try done.
    + by destruct (Hne _ _ Hf').
    + by destruct (Hne _ _ He).
    + by eapply Id.
  - intros id x. rewrite lookup_insert_Some. intros [[_ <-]|[_ H]]; [lia|by eapply Ip].
  - rewrite sum_insert_new, Z.add_0_l, <- Is by done. f_equal.
    rewrite (open_sum_delete _ (<[_ := _]> _) (r_nextId (w_registry w)) (mkEntry scope ns p))
      by apply lookup_insert_eq.
    rewrite delete_insert_id by done. unfold overflow. cbn [en_stats]. rewrite lookup_insert_eq.
    rewrite (open_sum_heap (w_heap w)); [cbn [new_stats st_dedupOverflows]; lia|].
    intros i e He. rewrite lookup_insert_ne; eauto using not_eq_sym.
Qed.

Lemma pull_inv w id e old stats : inv w -> r_entries (w_registry w) !! id = Some e ->
  w_heap w !! en_stats e = Some old -> st_dedupOverflows old <= st_dedupOverflows stats ->
  inv (mkWorld (<[en_stats e := stats]> (w_heap w)) (w_registry w) (<[id := st_dedupOverflows stats]> (w_total w))).
Proof.
  intros [In Ii Il Id Ip Is] He Ho Hle.
  destruct (Il _ _ He) as (s & Hs & Ht). assert (s = old) as -> by congruence.
  assert (forall i f, i <> id -> r_entries (w_registry w) !! i = Some f -> en_stats f <> en_stats e) as Hne.
  { intros i f Hi Hf E. by specialize (Id _ _ _ _ Hf He E). }
  split; cbn; try done.
  - intros i [H|H]; [apply Ii; by left|]. apply lookup_insert_is_Some in H as [<-|[_ H]]; apply Ii; [left|right]; by eauto.
  - intros i f Hf. destruct (decide (i = id)) as [->|Hi].
    + assert (f = e) as -> by congruence. exists stats. by rewrite !lookup_insert_eq.
    + destruct (Il _ _ Hf) as (s & Hs' & Hx). exists s. rewrite !lookup_insert_ne; eauto using not_eq_sym.
  - intros i x. rewrite lookup_insert_Some. intros [[_ <-]|[_ H]]; [|by eapply Ip]. specialize (Ip _ _ Ht). lia.
  - rewrite (sum_insert _ _ _ _ Ht), (wrap64_shift _ _ (st_dedupOverflows stats - st_dedupOverflows old) (eq_sym Is)). f_equal.
    rewrite !(open_sum_delete _ (r_entries (w_registry w)) id e) by done. unfold overflow. rewrite lookup_insert_eq, Hs.
    rewrite (open_sum_heap (w_heap w)); [lia|]. intros i f. rewrite lookup_delete_Some. intros [Hi Hf].
    rewrite lookup_insert_ne; [done|]. apply not_eq_sym. eapply Hne; eauto.
Qed.

Lemma close_inv w id e r : inv w -> r_entries (w_registry w) !! id = Some e ->
  remove (w_heap w) id (w_registry w) = Some r -> inv (mkWorld (delete (en_stats e) (w_heap w)) r (w_total w)).
Proof.
  intros [In Ii Il Id Ip Is] He Hr.
  unfold remove in Hr. rewrite He in Hr. destruct (Il _ _ He) as (s & Hs & Ht). rewrite Hs in Hr. cbn in Hr.
  injection Hr as <-. split; cbn; try done.
  - intros i [H|H]; apply Ii; [left|by right]. apply lookup_delete_is_Some in H as [_ H]. done.
  - intros i f. rewrite lookup_delete_Some. intros [Hi Hf]. destruct (Il _ _ Hf) as (s' & Hs' & Hx). exists s'.
    rewrite lookup_delete_ne; [done|]. intros E. apply Hi. by eapply Id.
  - intros i j f g. rewrite !lookup_delete_Some. intros [_ Hf] [_ Hg]. by eapply Id.
  - rewrite wrap64_add, <- Is, (open_sum_delete _ (r_entries (w_registry w)) id e) by done. f_equal.
    unfold overflow. rewrite Hs. rewrite (open_sum_heap (w_heap w)); [lia|].
    intros i f. rewrite lookup_delete_Some. intros [Hi Hf]. rewrite lookup_delete_ne; [done|].
    intros E. apply Hi. by eapply Id.
Qed.

Lemma step_inv w w' : inv w -> step w w' -> inv w'.
Proof. intros I H. destruct H; [by apply open_inv|by eapply pull_inv|by eapply close_inv]. Qed.

Lemma steps_inv w w' : inv w -> rtc step w w' -> inv w'.
Proof. intros I H. induction H; [done|]. eauto using step_inv. Qed.

(** The total only grows. *)
Lemma step_total w w' : inv w -> step w w' -> sum (w_total w) <= sum (w_total w').
Proof.
  intros I H. destruct H as [w scope ns p Hp Hn|w id e old stats He Ho Hle|w id e r He Hr]; cbn; [| |done].
  - rewrite sum_insert_new; [done|]. destruct (w_total w !! _) eqn:E; [|done].
    pose proof (inv_ids w I _ (or_intror (mk_is_Some _ _ E))). lia.
  - destruct (inv_live w I _ _ He) as (s & Hs & Ht). assert (s = old) as -> by congruence.
    rewrite (sum_insert _ _ _ _ Ht). lia.
Qed.

Lemma steps_total w w' : inv w -> rtc step w w' -> sum (w_total w) <= sum (w_total w').
Proof.
  intros I H. induction H as [|a b c Hab _ IH]; [done|]. pose proof (step_total a b I Hab).
  specialize (IH (step_inv _ _ I Hab)). lia.
Qed.

(** ** What a visit accumulates *)

Definition list_sum (h : Heap) (es : list Entry) : Z := foldr (fun e n => overflow h e + n) 0 es.

Lemma visit_all_ok h now v es :
  Forall (fun e => is_Some (h !! en_stats e)) es ->
  exists v', visit_all h now v es = Some v' /\
    v_open v' = v_open v + Z.of_nat (length es) /\
    wrap64 (v_overflows v') = wrap64 (v_overflows v + list_sum h es) /\
    v_maxLag v <= v_maxLag v' /\
    Forall (fun e => forall s, h !! en_stats e = Some s -> lag_of s <= v_maxLag v') es /\
    (v_maxLag v' = v_maxLag v \/
     Exists (fun e => exists s, h !! en_stats e = Some s /\ lag_of s = v_maxLag v') es) /\
    (Z.of_nat (length (v_streams v)) = Z.min (v_open v) kMaxListedStreams ->
     Z.of_nat (length (v_streams v')) = Z.min (v_open v') kMaxListedStreams).
Proof.
  revert v. induction es as [|e es IH]; intros v Hes; cbn [visit_all].
  { exists v. unfold list_sum. cbn. rewrite !Z.add_0_r. split_and!; try done; by left. }
  apply Forall_cons in Hes as [[s Hs] Hes]. rewrite Hs. cbn [mbind option_bind].
  destruct (IH (visit now v e s) Hes) as (v' & Hv & Ho & Hw & Hl & Ha & He & Hn). exists v'.
  assert (overflow h e = st_dedupOverflows s) as Hov by (unfold overflow; by rewrite Hs).
  unfold list_sum in *. cbn in *.
  split_and!; [done|lia| |lia| | |].
  - rewrite Hw, wrap64_add. f_equal. lia.
  - constructor; [|done]. intros s' Hs'. simplify_eq. lia.
  - destruct He as [He|He]; [|right; by right]. rewrite He.
    destruct (Z.max_spec (v_maxLag v) (lag_of s)) as [[_ ->]|[_ ->]]; [right; left; by eexists|by left].
  - intros Hv0. apply Hn. unfold kMaxListedStreams in *. destruct (Z.leb_spec (v_open v + 1) 1000);
      rewrite ?length_app; cbn [length]; lia.
Qed.

Lemma list_sum_permutation h es fs : es ≡ₚ fs -> list_sum h es = list_sum h fs.
Proof. unfold list_sum. induction 1; cbn; lia. Qed.

Lemma in_order_entries r : in_order r ≡ₚ map snd (map_to_list (r_entries r)).
Proof. unfold in_order. by rewrite merge_sort_Permutation. Qed.

Lemma in_order_sum h r : list_sum h (in_order r) = open_sum h (r_entries r).
Proof.
  rewrite (list_sum_permutation h _ _ (in_order_entries r)). unfold open_sum, list_sum. rewrite map_fold_foldr.
  induction (map_to_list (r_entries r)) as [|[i e] l IH]; cbn; [done|]. by rewrite IH.
Qed.

Lemma in_order_length r : length (in_order r) = size (r_entries r).
Proof. rewrite in_order_entries, length_map. apply length_map_to_list. Qed.

Lemma elem_of_in_order r e : e ∈ in_order r <-> exists i, r_entries r !! i = Some e.
Proof.
  rewrite in_order_entries, list_elem_of_fmap. split.
  - intros ([i e'] & -> & H). exists i. by apply elem_of_map_to_list.
  - intros [i H]. exists (i, e). by rewrite elem_of_map_to_list.
Qed.

(** ** What the section says *)

(** [d] reports the streams of [w]: how many are open, the largest lag among them, the overflows of
    all streams there ever were, and at most [kMaxListedStreams] of them one by one. *)
Definition reports (w : World) (d : Document) : Prop :=
  let entries := r_entries (w_registry w) in
  getField d (lit "open") = Some (BLong (Z.of_nat (size entries))) /\
  getField d (lit "dedupSetOverflows") = Some (BLong (sum (w_total w))) /\
  (exists lag, getField d (lit "maxLagMicros") = Some (BLong lag) /\
     (forall i e s, entries !! i = Some e -> w_heap w !! en_stats e = Some s -> lag_of s <= lag) /\
     (lag = 0 \/ exists i e s, entries !! i = Some e /\ w_heap w !! en_stats e = Some s /\ lag_of s = lag)) /\
  exists items, getField d (lit "streams") = Some (BArray items) /\
    Z.of_nat (length items) = Z.min (Z.of_nat (size entries)) kMaxListedStreams.

Lemma sum_positive m : (forall id x, m !! id = Some x -> 0 <= x) -> 0 <= sum m.
Proof.
  induction m as [|i x m Hi IH] using map_ind; intros H; [done|]. rewrite sum_insert_new by done.
  pose proof (H i x (lookup_insert_eq _ _ _)). enough (0 <= sum m) by lia. apply IH.
  intros j y Hj. apply (H j). rewrite lookup_insert_ne by congruence. done.
Qed.

Lemma section_reports w now interval : inv w -> sum (w_total w) < 2 ^ 63 ->
  exists d, generateSection (w_heap w) now interval (w_registry w) = Some d /\ reports w d.
Proof.
  intros I Hb. pose proof (sum_positive _ (inv_positive w I)) as Hp.
  destruct (visit_all_ok (w_heap w) now (mkVisit 0 0 0 []) (in_order (w_registry w)))
    as (v & Hv & Ho & Hw & Hl & Ha & He & Hn).
  { apply Forall_forall. intros e [i Hi]%elem_of_in_order. destruct (inv_live w I _ _ Hi) as (s & Hs & _). by eexists. }
  unfold generateSection, forEach. rewrite Hv. cbn [mbind option_bind]. eexists. split; [done|].
  cbn in Ho, Hw, Hl, He, Hn. rewrite in_order_length in Ho. rewrite in_order_sum in Hw.
  rewrite Forall_forall in Ha. rewrite Exists_exists in He. unfold reports.
  cbn [app]. split_and!; [by rewrite getField_cons_eq, Ho| | |].
  - transitivity (Some (BLong (signed64 (wrap64 (v_overflows v + r_closedDedupOverflows (w_registry w))))));
      [reflexivity|]. do 2 f_equal.
    rewrite (wrap64_shift _ _ (r_closedDedupOverflows (w_registry w)) Hw), Z.add_0_l, (Z.add_comm (open_sum _ _)), (inv_sum w I).
    unfold wrap64, signed64.
    rewrite Z.mod_small by lia. by rewrite (proj2 (Z.ltb_lt _ _)) by lia.
  - exists (v_maxLag v). split; [reflexivity|]. split.
    + intros i e s Hi Hs. apply (Ha e); [by apply elem_of_in_order; eexists|done].
    + destruct He as [->|(e & [i Hi]%elem_of_in_order & s & Hs & Hx)]; [by left|right; by exists i, e, s].
  - exists (array_doc (v_streams v)). split; [reflexivity|]. unfold array_doc. rewrite length_imap, (Hn eq_refl), Ho. done.
Qed.

(** C35. However streams are opened, pulled and closed, serverStatus never follows a stats pointer that
    is gone, and its section counts every stream exactly once: the open ones, the largest lag among
    them, at most a thousand listed, and as dedup-set overflows the total of all streams the server
    ever had, open or closed. That total never goes back from one report to a later one. *)
Theorem section_counts_every_stream w w' now now' interval :
  rtc step init w -> rtc step w w' -> sum (w_total w') < 2 ^ 63 ->
  exists d d',
    generateSection (w_heap w) now interval (w_registry w) = Some d /\
    generateSection (w_heap w') now' interval (w_registry w') = Some d' /\
    reports w d /\ reports w' d' /\ sum (w_total w) <= sum (w_total w').
Proof.
  intros H H' Hb. pose proof (steps_inv _ _ inv_init H) as I. pose proof (steps_inv _ _ I H') as I'.
  pose proof (steps_total _ _ I H') as Ht.
  destruct (section_reports w now interval I ltac:(lia)) as (d & Hd & Hr).
  destruct (section_reports w' now' interval I' Hb) as (d' & Hd' & Hr').
  exists d, d'. split_and!; done.
Qed.

(** Two streams are opened, one overflows three times and is closed. *)
Definition ex_open : World :=
  mkWorld {[0%nat := new_stats]} (add (lit "deployment") [] 0 newRegistry).2 {[1 := 0]}.
Definition ex_pulled : World :=
  mkWorld (<[0%nat := mkStats 9 5 3 7]> (w_heap ex_open)) (w_registry ex_open) (<[1 := 3]> (w_total ex_open)).
Definition ex_closed : World :=
  mkWorld (delete 0%nat (w_heap ex_pulled)) (mkRegistry ∅ 2 3) (w_total ex_pulled).

Lemma ex_steps : rtc step init ex_pulled /\ rtc step ex_pulled ex_closed.
Proof.
  split.
  - eapply rtc_l; [by apply (step_open init (lit "deployment") [] 0)|].
    eapply rtc_l; [by eapply (step_pull ex_open 1 (mkEntry (lit "deployment") [] 0) new_stats (mkStats 9 5 3 7))|].
    apply rtc_refl.
  - eapply rtc_l; [|apply rtc_refl]. by eapply (step_close ex_pulled 1 (mkEntry (lit "deployment") [] 0)).
Qed.

Lemma section_counts_every_stream_witness :
  exists d d', generateSection (w_heap ex_pulled) 8 60 (w_registry ex_pulled) = Some d /\
    generateSection (w_heap ex_closed) 9 60 (w_registry ex_closed) = Some d' /\
    getField d (lit "dedupSetOverflows") = Some (BLong 3) /\ getField d' (lit "dedupSetOverflows") = Some (BLong 3).
Proof.
  destruct (section_counts_every_stream ex_pulled ex_closed 8 9 60 (proj1 ex_steps) (proj2 ex_steps) eq_refl)
    as (d & d' & H & H' & R & R' & _).
  exists d, d'. exact (conj H (conj H' (conj (proj1 (proj2 R)) (proj1 (proj2 R'))))).
Defined.

End Registry.
