(* ===== verification/ChangeStreamStage.v ===== *)
(** * The $changeStream stage (cdc/document_source_eloq_change_stream.{h,cpp})

    How a $changeStream specification becomes a stage: the checks of [createFromBson], the engine's
    stage factory that opens the event stream fresh or at a token, the stage that pulls it and names
    its resume tokens, and the close-cursor stage behind it. The specification's parser is generated
    from its IDL and is a parameter. *)

From S2P Require Import Prelude Bytes Bson RawBson BsonBuilder ResumeToken BlobDecoder LogService.
From S2P Require Import DdlDecoder ScanClient ScanContract ScanSource EventStream Registry.
#[local] Open Scope Z_scope.

(** ** Server parameters *)

(** [CdcScanSourceOptions()] and [CdcEventStreamOptions()]. *)
Definition defaultSourceOptions : CdcScanSourceOptions :=
  mkSourceOptions (64 * 1024 * 1024) (4 * 1024 * 1024) 30000 5000 100 1000 (mkClientOptions 50 1000).
Definition defaultStreamOptions : CdcEventStreamOptions :=
  mkStreamOptions defaultSourceOptions (4 * 1024 * 1024).

Definition kMaxScanPageBytes : Z := 32 * 1024 * 1024.
Definition kMaxCursorBufferBytes : Z := 4 * 1024 * 1024 * 1024.
Definition kMaxDedupSetBytes : Z := 1 * 1024 * 1024 * 1024.
Definition kMaxScanWaitMs : Z := 10 * 60 * 1000.

Inductive ServerParameter :=
| cdc_open_wait_ms
| cdc_scan_max_bytes
| cdc_cursor_buffer_bytes
| cdc_dedup_set_bytes
| cdc_scan_max_wait_ms.

#[global] Instance ServerParameter_eq_dec : EqDecision ServerParameter.
Proof. solve_decision. Defined.

(** The parameters' values and, as [setParameter] runs them, their validators. *)
Abbreviation ServerParameters := (ServerParameter -> Z).

Definition defaultParameters : ServerParameters := fun p =>
  match p with
  | cdc_open_wait_ms => 30000
  | cdc_scan_max_bytes => maxBytesPerScan defaultSourceOptions
  | cdc_cursor_buffer_bytes => bufferBytes defaultSourceOptions
  | cdc_dedup_set_bytes => eo_dedupSetBytes defaultStreamOptions
  | cdc_scan_max_wait_ms => maxWait defaultSourceOptions
  end.

Definition validator (p : ServerParameter) (potentialNewValue : Z) : result unit :=
  let v := potentialNewValue in
  match p with
  | cdc_open_wait_ms => uassert BadValue (negb (v <=? 0))
  | cdc_scan_max_bytes => uassert BadValue (negb ((v <=? 0) || (kMaxScanPageBytes <? v)))
  | cdc_cursor_buffer_bytes => uassert BadValue (negb ((v <=? 0) || (kMaxCursorBufferBytes <? v)))
  | cdc_dedup_set_bytes => uassert BadValue (negb ((v <? 0) || (kMaxDedupSetBytes <? v)))
  | cdc_scan_max_wait_ms => uassert BadValue (negb ((v <=? 0) || (kMaxScanWaitMs <? v)))
  end.

Definition setParameter (p : ServerParameter) (v : Z) (params : ServerParameters) : result ServerParameters :=
  let! _ := validator p v in
  Ok (fun q => if decide (q = p) then v else params q).

(** The options a stream is opened with. *)
Definition streamOptions (params : ServerParameters) : CdcEventStreamOptions :=
  let d := defaultSourceOptions in
  mkStreamOptions
    (mkSourceOptions (params cdc_cursor_buffer_bytes) (wrap32 (params cdc_scan_max_bytes))
       (params cdc_scan_max_wait_ms) (rpcSlack d) (idleBackoffInitial d) (idleBackoffMax d) (o_client d))
    (params cdc_dedup_set_bytes).

(** ** The specification *)

(** A resume token as MongoDB's own [ResumeToken] holds it. *)
Record MongoResumeToken := mkMongoToken {
  mt_keyStringData : bson;
  mt_typeBits : option bson;
}.

Definition generalBinData (v : bson) : bool :=
  match v with BBinData subtype _ => subtype =? 0 | _ => false end.
Definition isString (v : bson) : bool := match v with BString _ => true | _ => false end.

(** [ResumeToken::parse], which the specification's parser calls. *)
Definition mongoToken (resumeDoc : Document) : result MongoResumeToken :=
  match getField resumeDoc (lit "_data") with
  | None => Err (Location 40647)
  | Some data =>
      let! _ := uassert (Location 40647) (generalBinData data || isString data) in
      let typeBits := getField resumeDoc (lit "_typeBits") in
      let! _ := uassert (Location 40648) (match typeBits with None => true | Some t => generalBinData t end) in
      Ok (mkMongoToken data typeBits)
  end.

Record DocumentSourceChangeStreamSpec := mkSpec {
  sp_resumeAfter : option MongoResumeToken;
  sp_startAfter : option Document;
  sp_resumeAfterClusterTimeDeprecated : option Z;
  sp_startAtOperationTime : option Z;
  sp_fullDocument : bytes;
  sp_allChangesForCluster : bool;
}.

(** What the stages read of the [ExpressionContext] and its operation. *)
Record ExpressionContext := mkExpCtx {
  ec_ns : bytes;
  ec_needsMerge : bool;
  ec_deadline : option Z;
}.

(** The deployment: [enable_wal], and the log agent's [LogGroupCount] if there is a log agent. *)
Record Deployment := mkDeployment {
  dp_enable_wal : bool;
  dp_log : option nat;
}.

Definition supportedLog (d : Deployment) : result nat :=
  let! _ := uassert CommandNotSupported (dp_enable_wal d) in
  match dp_log d with
  | Some n => let! _ := uassert CommandNotSupported (0 <? Z.of_nat n) in Ok n
  | None => Err CommandNotSupported
  end.

(** [TxLogCdcScanTransport::logGroupIds]. *)
Definition logGroupIds (count : nat) : list Z := map Z.of_nat (seq 0 count).

Definition startsWith (s prefix : bytes) : bool := bytes_eqb (take (length prefix) s) prefix.

Definition isCollectionlessAggregateNS (ns : bytes) : bool :=
  bytes_eqb (NamespaceString.coll ns) (lit "$cmd.aggregate").
Definition isSystem (ns : bytes) : bool := startsWith (NamespaceString.coll ns) (lit "system.").
Definition isAdminDB (ns : bytes) : bool := bytes_eqb (NamespaceString.db ns) (lit "admin").
Definition isLocal (ns : bytes) : bool := bytes_eqb (NamespaceString.db ns) (lit "local").
Definition isConfigDB (ns : bytes) : bool := bytes_eqb (NamespaceString.db ns) (lit "config").

(** [fcv40]: the feature compatibility version is at least 4.0. *)
Definition assertIsLegalSpecification (ns : bytes) (spec : DocumentSourceChangeStreamSpec) (fcv40 : bool)
    : result unit :=
  let! _ := uassert QueryFeatureNotAllowed (negb (isCollectionlessAggregateNS ns) || fcv40) in
  let! _ := uassert InvalidOptions
    (negb (sp_allChangesForCluster spec) || (isAdminDB ns && isCollectionlessAggregateNS ns)) in
  let! _ := uassert InvalidNamespace
    (if isAdminDB ns then sp_allChangesForCluster spec else negb (isLocal ns) && negb (isConfigDB ns)) in
  uassert InvalidNamespace (negb (isSystem ns)).

(** The scope a specification asks for. *)
Definition specScope (spec : DocumentSourceChangeStreamSpec) (ns : bytes) : CdcStreamScope :=
  if sp_allChangesForCluster spec then scope_deployment
  else if isCollectionlessAggregateNS ns then scope_database (NamespaceString.db ns)
  else scope_collection ns.

(** ** The stage *)

Record DocumentSourceEloqChangeStream := mkStage {
  ds_stream : CdcEventStream;
  ds_spec : Document;
  ds_lastEmitted : Document;
  ds_registryId : Z;
}.

Definition with_stream (s : DocumentSourceEloqChangeStream) (st : CdcEventStream)
    : DocumentSourceEloqChangeStream :=
  mkStage st (ds_spec s) (ds_lastEmitted s) (ds_registryId s).

(** The constructor; [stats]: where the stream's stats live. *)
Definition newStage (ns : bytes) (stream : CdcEventStream) (spec : Document) (stats : Registry.Address)
    (registry : Registry.CdcStreamRegistry) : DocumentSourceEloqChangeStream * Registry.CdcStreamRegistry :=
  let deployment :=
    match getField spec (lit "allChangesForCluster") with Some (BBool b) => b | _ => false end in
  let database := negb deployment && isCollectionlessAggregateNS ns in
  let '(id, registry) :=
    Registry.add
      (if deployment then lit "deployment" else if database then lit "database" else lit "collection")
      (if deployment then [] else if database then NamespaceString.db ns else ns)
      stats registry in
  (mkStage stream spec [] id, registry).

(** The destructor. *)
Definition destroyStage (h : Registry.Heap) (s : DocumentSourceEloqChangeStream)
    (registry : Registry.CdcStreamRegistry) : option Registry.CdcStreamRegistry :=
  Registry.remove h (ds_registryId s) registry.

Definition getPostBatchResumeToken (s : DocumentSourceEloqChangeStream) : result Document :=
  let st := ds_stream s in
  if es_invalidated st then Ok (invalidateToken st)
  else if s_drained (es_source st) then toBSON (watermark st) else Ok (es_openingToken st).

Definition getLastEmittedResumeToken (s : DocumentSourceEloqChangeStream) : Document := ds_lastEmitted s.

(** What [serialize] puts in the pipeline in place of the stage. *)
Definition serialize (s : DocumentSourceEloqChangeStream) : Document :=
  [(lit "$changeStream", BObject (ds_spec s))].

(** [AwaitDataState] of an operation. *)
Record AwaitDataState := mkAwaitData {
  ad_waitForInsertsDeadline : Z;
  ad_shouldWaitForInserts : bool;
}.

(** The specification the stage serializes as: the client's, with the opening token as its resume
    point. *)
Definition serializedSpec (spec : DocumentSourceChangeStreamSpec) (openingToken : Document) : Document :=
  [(lit "fullDocument", BString (sp_fullDocument spec))] ++
  (if sp_allChangesForCluster spec then [(lit "allChangesForCluster", BBool true)] else []) ++
  [(match sp_startAfter spec with Some _ => lit "startAfter" | None => lit "resumeAfter" end,
    BObject openingToken)].

Section Stage.

(** The world, the key decoder, the depth limit and the engine's tag; [reencode]: how
    [ResumeToken::toDocument] writes a token that is not in the hex form; [firstBatchWait]: the
    fail point's [waitMs]. *)
Context (env : Env) (decodeIdKey : bytes -> result Document) (maxDepth EloqDoc : Z).
Context (reencode : MongoResumeToken -> result Document) (firstBatchWait : option Z).

(** [ResumeToken::toDocument(kHexString)]. *)
Definition toDocument (t : MongoResumeToken) : result Document :=
  if isString (mt_keyStringData t) then
    Ok ((lit "_data", mt_keyStringData t) ::
        match mt_typeBits t with Some b => [(lit "_typeBits", b)] | None => [] end)
  else reencode t.

(** The token a specification resumes at. *)
Definition specToken (spec : DocumentSourceChangeStreamSpec) : result (option CdcResumeToken) :=
  match sp_resumeAfter spec, sp_startAfter spec with
  | Some resumeAfter, _ =>
      let! doc := toDocument resumeAfter in
      let! token := parse doc in
      let! _ := uassert InvalidResumeToken (negb (bool_decide (tok_kind token = kInvalidate))) in
      Ok (Some token)
  | None, Some startAfter => let! token := parse startAfter in Ok (Some token)
  | None, None => Ok None
  end.

(** Opening the stream: at the token, or fresh within the operation's time; [start]: the clock. *)
Definition openStream (fuel : nat) (start : Z) (ctx : ExpressionContext) (params : ServerParameters)
    (token : option CdcResumeToken) (st : CdcEventStream) : option (result CdcEventStream) :=
  match token with
  | Some token => Some (openAt st token)
  | None =>
      let deadline := default (start + params cdc_open_wait_ms) (ec_deadline ctx) in
      match openFresh env fuel st deadline with
      | None => None
      | Some (Err e) => Some (Err e)
      | Some (Ok (true, st)) => Some (Ok st)
      | Some (Ok (false, _)) => Some (Err ChangeStreamStartNotReady)
      end
  end.

Definition makeEloqChangeStreamStages (fuel : nat) (start : Z) (d : Deployment) (params : ServerParameters)
    (stats : Registry.Address) (registry : Registry.CdcStreamRegistry)
    (spec : DocumentSourceChangeStreamSpec) (ctx : ExpressionContext)
    : option (result (DocumentSourceEloqChangeStream * Registry.CdcStreamRegistry)) :=
  match
    let! _ := uassert InvalidOptions
      (negb (bool_decide (is_Some (sp_startAtOperationTime spec))) &&
       negb (bool_decide (is_Some (sp_resumeAfterClusterTimeDeprecated spec)))) in
    let! token := specToken spec in
    let! count := supportedLog d in
    let! st := newStream (logGroupIds count) (specScope spec (ec_ns ctx)) (streamOptions params) in
    Ok (token, st)
  with
  | Err e => Some (Err e)
  | Ok (token, st) =>
      match openStream fuel start ctx params token st with
      | None => None
      | Some (Err e) => Some (Err e)
      | Some (Ok st) =>
          Some (Ok (newStage (ec_ns ctx) st (serializedSpec spec (es_openingToken st)) stats registry))
      end
  end.

(** [DocumentSourceChangeStream::createFromBson] with the engine's factory installed; [parseSpec]:
    the specification's parser. The second part is the close-cursor stage, if one follows. *)
Definition createFromBson (fuel : nat) (start : Z) (parseSpec : Document -> result DocumentSourceChangeStreamSpec)
    (fcv40 : bool) (d : Deployment) (params : ServerParameters) (stats : Registry.Address)
    (registry : Registry.CdcStreamRegistry) (elem : bson) (ctx : ExpressionContext)
    : option (result (DocumentSourceEloqChangeStream * option bool * Registry.CdcStreamRegistry)) :=
  match
    match elem with
    | BObject spec =>
        let! spec := parseSpec spec in
        let! _ := assertIsLegalSpecification (ec_ns ctx) spec fcv40 in
        let fullDocOption := sp_fullDocument spec in
        let! _ := uassert (Location 40575)
          (bytes_eqb fullDocOption (lit "updateLookup") || bytes_eqb fullDocOption (lit "default")) in
        let! _ := uassert (Location 40674)
          (negb (bool_decide (is_Some (sp_resumeAfter spec)) && bool_decide (is_Some (sp_startAfter spec)))) in
        Ok spec
    | _ => Err (Location 50808)
    end
  with
  | Err e => Some (Err e)
  | Ok spec =>
      match makeEloqChangeStreamStages fuel start d params stats registry spec ctx with
      | None => None
      | Some (Err e) => Some (Err e)
      | Some (Ok (stage, registry)) =>
          Some (Ok (stage, if ec_needsMerge ctx then None else Some false, registry))
      end
  end.

(** *** Pulling *)

Definition batchDeadline (state : AwaitDataState) (s : DocumentSourceEloqChangeStream)
    : Z * DocumentSourceEloqChangeStream :=
  if ad_shouldWaitForInserts state then (ad_waitForInsertsDeadline state, s)
  else
    let st := ds_stream s in
    let '(now, src) := source_now env (es_source st) in
    (now + default 0 firstBatchWait, with_stream s (with_source st src)).

(** [getNext]: an event, or [None] for EOF. *)
Definition stage_getNext (fuel sfuel : nat) (state : AwaitDataState) (s : DocumentSourceEloqChangeStream)
    : option (result (option Document * DocumentSourceEloqChangeStream)) :=
  let '(deadline, s) := batchDeadline state s in
  match EventStream.next env decodeIdKey maxDepth EloqDoc fuel sfuel (ds_stream s) deadline with
  | None => None
  | Some (Err e) => Some (Err e)
  | Some (Ok (None, st)) => Some (Ok (None, with_stream s st))
  | Some (Ok (Some event, st)) =>
      Some (let! id := event_token event in
            Ok (Some event, mkStage st (ds_spec s) id (ds_registryId s)))
  end.

End Stage.


(** ** Tokens come back *)

(** A token the stream issues is in the hex form, so nothing is reencoded. *)
Lemma issued_document t doc : wf_token t -> toBSON t = Ok doc ->
  parse doc = Ok t /\ exists hex, doc = [(lit "_data", BString hex)].
Proof.
  intros Hwf Hdoc. destruct (toBSON_parse t Hwf) as (doc' & Hdoc' & Hp).
  rewrite Hdoc in Hdoc'. injection Hdoc' as <-. split; [done|].
  unfold toBSON in Hdoc. destruct (encode t) as [bs|]; [|done]. injection Hdoc as <-. eauto.
Qed.

(** A token the stream issued comes back. Given as [resumeAfter], where MongoDB's own
    [ResumeToken] takes it apart and puts it together again before the engine sees it, it is the
    token it was, unless it is an invalidate's, which [resumeAfter] refuses; given as [startAfter] it
    always is. *)
Theorem issued_token_accepted reencode spec t doc :
  wf_token t -> toBSON t = Ok doc ->
  exists m, mongoToken doc = Ok m /\
    (sp_resumeAfter spec = Some m ->
      specToken reencode spec = if decide (tok_kind t = kInvalidate) then Err InvalidResumeToken else Ok (Some t)) /\
    (sp_resumeAfter spec = None -> sp_startAfter spec = Some doc -> specToken reencode spec = Ok (Some t)).
Proof.
  intros Hwf Hdoc. destruct (issued_document t doc Hwf Hdoc) as (Hp & hex & ->).
  exists (mkMongoToken (BString hex) None). split_and!; [done| |].
  - intros Hr. unfold specToken. rewrite Hr. cbn [toDocument isString mt_keyStringData mt_typeBits rbind]. rewrite Hp. cbn [rbind].
    destruct (decide (tok_kind t = kInvalidate)); [by rewrite bool_decide_eq_true_2|by rewrite bool_decide_eq_false_2].
  - intros Hr Hs. unfold specToken. by rewrite Hr, Hs, Hp.
Qed.

Lemma issued_token_accepted_witness :
  exists doc m, toBSON token_ex = Ok doc /\ mongoToken doc = Ok m /\
    specToken (fun _ => Err BadValue) (mkSpec (Some m) None None None (lit "default") false) = Ok (Some token_ex).
Proof.
  destruct (toBSON_parse token_ex wf_token_ex) as (doc & Hd & _). exists doc.
  destruct (issued_token_accepted (fun _ => Err BadValue) (mkSpec None None None None (lit "default") false)
    token_ex doc wf_token_ex Hd) as (m & Hm & _).
  exists m. split_and!; [done|done|].
  destruct (issued_token_accepted (fun _ => Err BadValue) (mkSpec (Some m) None None None (lit "default") false)
    token_ex doc wf_token_ex Hd) as (m' & Hm' & Hr & _).
  rewrite Hm in Hm'. injection Hm' as <-. exact (Hr eq_refl).
Defined.
