(* ===== verification/ChangeStreamCursor.v ===== *)
(** * The change stream cursor: from the stage to the replies

    A change stream's documents leave through the close-cursor stage, the user's stages,
    [PipelineProxyStage] and [PlanExecutor], and the two batch loops (run_aggregate.cpp,
    getmore_cmd.cpp) put them into replies that carry a [postBatchResumeToken]. *)

From S2P Require Import Prelude Bytes Bson RawBson BsonBuilder ResumeToken BlobDecoder LogService.
From S2P Require Import DdlDecoder ScanClient ScanContract ScanSource EventStream Registry ChangeStreamStage.
#[local] Open Scope Z_scope.

(** ** Data *)

(** The pipeline's state: the stream's stage, [_shouldCloseCursor] of the close-cursor stage if
    there is one, and the interrupt checks made so far. The user's stages keep nothing between
    documents. *)
Record Pipeline := mkPipeline {
  pl_stage : DocumentSourceEloqChangeStream;
  pl_close : option bool;
  pl_checks : nat;
}.

(** What a pull yields: a document, EOF, or the CloseChangeStream exception, which the batch loops
    catch and after which they still use the executor. Other exceptions end the request. *)
Inductive Pulled :=
| Advanced (doc : Document)
| AtEOF
| Thrown.

Record PipelineProxyStage := mkProxy {
  px_pipeline : Pipeline;
  px_stash : list Document;
}.

Inductive CurrentState := kUsable | kSaved | kDetached | kDisposed.

#[global] Instance CurrentState_eq_dec : EqDecision CurrentState.
Proof. solve_decision. Defined.

Record PlanExecutor := mkExecutor {
  ex_root : PipelineProxyStage;
  ex_stash : list Document;
  ex_killStatus : option ErrorCode;
  ex_currentState : CurrentState;
}.

(** [PlanExecutor::ExecState]; [DEAD] with the status its status object holds, [THROWN] for the
    CloseChangeStream exception passing through. *)
Inductive ExecState :=
| ADVANCED (obj : Document)
| IS_EOF
| DEAD (status : ErrorCode)
| THROWN.

Record ClientCursor := mkCursor {
  cc_cursorid : Z;
  cc_tailable : bool;
  cc_awaitData : bool;
  cc_pos : Z;
  cc_postBatchResumeToken : Document;
  cc_exec : PlanExecutor;
}.

(** The reply being built; [rb_start]: the bytes of the reply before the batch's first document. *)
Record CursorResponseBuilder := mkResponse {
  rb_isInitialResponse : bool;
  rb_start : Z;
  rb_batch : list Document;
  rb_postBatchResumeToken : Document;
}.

Definition with_root (x : PlanExecutor) (r : PipelineProxyStage) : PlanExecutor :=
  mkExecutor r (ex_stash x) (ex_killStatus x) (ex_currentState x).
Definition with_stash (x : PlanExecutor) (l : list Document) : PlanExecutor :=
  mkExecutor (ex_root x) l (ex_killStatus x) (ex_currentState x).
Definition with_state (x : PlanExecutor) (s : CurrentState) : PlanExecutor :=
  mkExecutor (ex_root x) (ex_stash x) (ex_killStatus x) s.
Definition with_exec (c : ClientCursor) (x : PlanExecutor) : ClientCursor :=
  mkCursor (cc_cursorid c) (cc_tailable c) (cc_awaitData c) (cc_pos c) (cc_postBatchResumeToken c) x.
Definition setPostBatchResumeToken (c : ClientCursor) (t : Document) : ClientCursor :=
  mkCursor (cc_cursorid c) (cc_tailable c) (cc_awaitData c) (cc_pos c) t (cc_exec c).
Definition incPos (c : ClientCursor) (n : Z) : ClientCursor :=
  mkCursor (cc_cursorid c) (cc_tailable c) (cc_awaitData c) (cc_pos c + n) (cc_postBatchResumeToken c) (cc_exec c).

(** ** Replies *)

(** [bytesUsed]: the buffer's length, each document under its index as field name. *)
Definition bytesUsed (r : CursorResponseBuilder) : Z :=
  rb_start r + foldr Z.add 0 (imap (fun i d => blen (numStr i) + 2 + objsize d) (rb_batch r)).

Definition response_append (r : CursorResponseBuilder) (obj : Document) : CursorResponseBuilder :=
  mkResponse (rb_isInitialResponse r) (rb_start r) (rb_batch r ++ [obj]) (rb_postBatchResumeToken r).

Definition response_setToken (r : CursorResponseBuilder) (token : Document) : CursorResponseBuilder :=
  mkResponse (rb_isInitialResponse r) (rb_start r) (rb_batch r) token.

(** [done]: what is appended to the command's reply. *)
Definition response_done (r : CursorResponseBuilder) (cursorId : Z) (ns : bytes) : Document :=
  [(lit "cursor", BObject
     ([(if rb_isInitialResponse r then lit "firstBatch" else lit "nextBatch", BArray (Registry.array_doc (rb_batch r)));
       (lit "id", BLong cursorId); (lit "ns", BString ns)] ++
      match rb_postBatchResumeToken r with
      | [] => []
      | token => [(lit "postBatchResumeToken", BObject token)]
      end))].

Definition enoughForGetMore (effectiveBatchSize numDocs : Z) : bool :=
  negb (effectiveBatchSize =? 0) && (effectiveBatchSize <=? numDocs).

Definition kMaxBytesToReturnToClientAtOnce : Z := BSONObjMaxUserSize.

Definition haveSpaceForNext (nextDoc : Document) (numDocs bytesBuffered : Z) : bool :=
  if numDocs =? 0 then true
  else bytesBuffered + objsize nextDoc <=? kMaxBytesToReturnToClientAtOnce.

(** The batch's token after a document was appended. *)
Definition tokenAfter (tracks : bool) (token : Document) (obj : Document) : Document :=
  if tracks then match getField obj (lit "_id") with Some (BObject id) => id | _ => token end else token.

(** The batch's token after the executor named one. *)
Definition tokenOr (tracks : bool) (token named : Document) : Document :=
  if tracks then match named with [] => token | _ => named end else token.

Definition isEmptyObj (d : Document) : bool := match d with [] => true | _ => false end.

(** ** The executor *)

Definition saveState (x : PlanExecutor) : result PlanExecutor :=
  let! _ := invariant (bool_decide (ex_currentState x = kUsable) || bool_decide (ex_currentState x = kSaved)) in
  Ok (with_state x kSaved).

Definition restoreState (x : PlanExecutor) : result PlanExecutor :=
  let! _ := invariant (bool_decide (ex_currentState x = kSaved)) in
  match ex_killStatus x with Some e => Err e | None => Ok (with_state x kUsable) end.

Definition detachFromOperationContext (x : PlanExecutor) : result PlanExecutor :=
  let! _ := invariant (bool_decide (ex_currentState x = kSaved)) in
  Ok (with_state x kDetached).

Definition reattachToOperationContext (x : PlanExecutor) : result PlanExecutor :=
  let! _ := invariant (bool_decide (ex_currentState x = kDetached)) in
  Ok (with_state x kSaved).

Definition enqueue (x : PlanExecutor) (obj : Document) : PlanExecutor := with_stash x (ex_stash x ++ [obj]).

(** Only the first status is kept. *)
Definition markAsKilled (x : PlanExecutor) (killStatus : ErrorCode) : PlanExecutor :=
  mkExecutor (ex_root x) (ex_stash x) (Some (default killStatus (ex_killStatus x))) (ex_currentState x).

Definition exec_getPostBatchResumeToken (x : PlanExecutor) : result Document :=
  getPostBatchResumeToken (pl_stage (px_pipeline (ex_root x))).

(** ** Pulling a document *)

Section Cursor.

(** The world, the key decoder, the depth limit, the engine's tag and the first batch's wait, as
    for the stage; [interrupt]: what the n-th interrupt check finds; [user]: the user's stages, of
    which every one allowed behind a change stream yields at most one document per document;
    [rounds] and [sfuel] bound the loops below the stage. *)
Context (env : Env) (decodeIdKey : bytes -> result Document) (maxDepth EloqDoc : Z).
Context (firstBatchWait : option Z) (interrupt : nat -> option ErrorCode).
Context (user : Document -> result (option Document)) (rounds sfuel : nat).

Definition checkForInterrupt (p : Pipeline) : result Pipeline :=
  match interrupt (pl_checks p) with
  | Some e => Err e
  | None => Ok (mkPipeline (pl_stage p) (pl_close p) (S (pl_checks p)))
  end.

(** The stage alone, when no close-cursor stage follows it. *)
Definition source_getNext (state : AwaitDataState) (p : Pipeline) : option (result (Pulled * Pipeline)) :=
  match stage_getNext env decodeIdKey maxDepth EloqDoc firstBatchWait rounds sfuel state (pl_stage p) with
  | None => None
  | Some (Err e) => Some (Err e)
  | Some (Ok (None, s)) => Some (Ok (AtEOF, mkPipeline s (pl_close p) (pl_checks p)))
  | Some (Ok (Some doc, s)) => Some (Ok (Advanced doc, mkPipeline s (pl_close p) (pl_checks p)))
  end.

(** [DocumentSourceCloseCursor::getNext]. *)
Definition close_getNext (shouldClose : bool) (state : AwaitDataState) (p : Pipeline)
    : option (result (Pulled * Pipeline)) :=
  match checkForInterrupt p with
  | Err e => Some (Err e)
  | Ok p =>
      if shouldClose then Some (Ok (Thrown, p))
      else
        match source_getNext state p with
        | Some (Ok (Advanced doc, p)) =>
            match getField doc (lit "operationType") with
            | Some (BString operationType) =>
                let close := if bytes_eqb operationType (lit "invalidate") then true else shouldClose in
                Some (Ok (Advanced doc, mkPipeline (pl_stage p) (Some close) (pl_checks p)))
            | _ => Some (Err (Location 40532))
            end
        | x => x
        end
  end.

Definition internal_getNext (state : AwaitDataState) (p : Pipeline) : option (result (Pulled * Pipeline)) :=
  match pl_close p with
  | Some shouldClose => close_getNext shouldClose state p
  | None => source_getNext state p
  end.

(** [Pipeline::getNext]: the user's stages pull until a document passes all of them. *)
Fixpoint pipeline_getNext (fuel : nat) (state : AwaitDataState) (p : Pipeline)
    : option (result (Pulled * Pipeline)) :=
  match fuel with
  | O => None
  | S fuel =>
      match internal_getNext state p with
      | Some (Ok (Advanced doc, p)) =>
          match user doc with
          | Err e => Some (Err e)
          | Ok None => pipeline_getNext fuel state p
          | Ok (Some doc) => Some (Ok (Advanced doc, p))
          end
      | x => x
      end
  end.

Definition verifyResumeTokenIntact (p : Pipeline) (doc : Document) : result unit :=
  let expected := getLastEmittedResumeToken (pl_stage p) in
  if isEmptyObj expected then Ok tt
  else uassert ChangeStreamFatalError
    match getField doc (lit "_id") with Some (BObject id) => binaryEqual id expected | _ => false end.

(** [PipelineProxyStage::getNextBson]; the change stream's stage provides resume tokens. *)
Definition getNextBson (fuel : nat) (state : AwaitDataState) (x : PipelineProxyStage)
    : option (result (Pulled * PipelineProxyStage)) :=
  match pipeline_getNext fuel state (px_pipeline x) with
  | None => None
  | Some (Err e) => Some (Err e)
  | Some (Ok (Advanced doc, p)) =>
      Some (let! _ := verifyResumeTokenIntact p doc in Ok (Advanced doc, mkProxy p (px_stash x)))
  | Some (Ok (pulled, p)) => Some (Ok (pulled, mkProxy p (px_stash x)))
  end.

(** [doWork], which takes the stash from its back. *)
Definition doWork (fuel : nat) (state : AwaitDataState) (x : PipelineProxyStage)
    : option (result (Pulled * PipelineProxyStage)) :=
  match last (px_stash x) with
  | Some doc => Some (Ok (Advanced doc, mkProxy (px_pipeline x) (removelast (px_stash x))))
  | None => getNextBson fuel state x
  end.

(** [PipelineProxyStage::isEOF]: looks ahead into the stash; [None] within: the exception. *)
Definition proxy_isEOF (fuel : nat) (state : AwaitDataState) (x : PipelineProxyStage)
    : option (result (option bool * PipelineProxyStage)) :=
  match px_stash x with
  | _ :: _ => Some (Ok (Some false, x))
  | [] =>
      match getNextBson fuel state x with
      | None => None
      | Some (Err e) => Some (Err e)
      | Some (Ok (Advanced doc, x)) => Some (Ok (Some false, mkProxy (px_pipeline x) (px_stash x ++ [doc])))
      | Some (Ok (AtEOF, x)) => Some (Ok (Some true, x))
      | Some (Ok (Thrown, x)) => Some (Ok (None, x))
      end
  end.

(** [PlanExecutor::getNext] over the proxy, with the NO_YIELD policy and no canonical query: it
    neither yields nor waits for inserts itself. *)
Definition exec_getNext (fuel : nat) (state : AwaitDataState) (x : PlanExecutor)
    : option (result (ExecState * PlanExecutor)) :=
  if negb (bool_decide (ex_currentState x = kUsable)) then Some (Err InvariantFailure) else
  match ex_killStatus x with
  | Some e => Some (Ok (DEAD e, x))
  | None =>
      match ex_stash x with
      | obj :: stash => Some (Ok (ADVANCED obj, with_stash x stash))
      | [] =>
          match doWork fuel state (ex_root x) with
          | None => None
          | Some (Err e) => Some (Err e)
          | Some (Ok (Advanced obj, r)) => Some (Ok (ADVANCED obj, with_root x r))
          | Some (Ok (AtEOF, r)) => Some (Ok (IS_EOF, with_root x r))
          | Some (Ok (Thrown, r)) => Some (Ok (THROWN, with_root x r))
          end
      end
  end.

(** [PlanExecutor::isEOF]. *)
Definition exec_isEOF (fuel : nat) (state : AwaitDataState) (x : PlanExecutor)
    : option (result (option bool * PlanExecutor)) :=
  if negb (bool_decide (ex_currentState x = kUsable)) then Some (Err InvariantFailure) else
  if bool_decide (is_Some (ex_killStatus x)) then Some (Ok (Some true, x)) else
  match ex_stash x with
  | _ :: _ => Some (Ok (Some false, x))
  | [] =>
      match proxy_isEOF fuel state (ex_root x) with
      | None => None
      | Some (Err e) => Some (Err e)
      | Some (Ok (b, r)) => Some (Ok (b, with_root x r))
      end
  end.

(** ** The batch loops *)

(** The executor's token, asked for only by a cursor that tracks one. *)
Definition namedToken (tracks : bool) (x : PlanExecutor) : result Document :=
  if tracks then exec_getPostBatchResumeToken x else Ok [].

(** How many documents the batch has. *)
Definition numDocs (r : CursorResponseBuilder) : Z := Z.of_nat (length (rb_batch r)).

(** The loop of [handleCursorCommand], with [n] rounds left: the reply, its token, whether the
    cursor is kept, and the executor. *)
Fixpoint first_batch (fuel : nat) (tracks tailable : bool) (n : nat) (r : CursorResponseBuilder)
    (token : Document) (x : PlanExecutor)
    : option (result (CursorResponseBuilder * Document * bool * PlanExecutor)) :=
  match n with
  | O => Some (Ok (r, token, true, x))
  | S n =>
      match exec_getNext fuel (mkAwaitData 0 false) x with
      | None => None
      | Some (Err e) => Some (Err e)
      | Some (Ok (THROWN, x)) =>
          Some (let! invalidate := namedToken tracks x in Ok (r, tokenOr tracks token invalidate, false, x))
      | Some (Ok (IS_EOF, x)) =>
          Some (let! watermark := namedToken tracks x in Ok (r, tokenOr tracks token watermark, tailable, x))
      | Some (Ok (DEAD e, _)) => Some (Err e)
      | Some (Ok (ADVANCED next, x)) =>
          if haveSpaceForNext next (numDocs r) (bytesUsed r)
          then first_batch fuel tracks tailable n (response_append r next) (tokenAfter tracks token next) x
          else Some (Ok (r, token, true, enqueue x next))
      end
  end.

(** The executor at rest between requests. *)
Definition park (x : PlanExecutor) : result PlanExecutor :=
  let! x := saveState x in detachFromOperationContext x.

(** [start]: the bytes of the reply before the batch. The reply, and the cursor if it is kept. *)
Definition handleCursorCommand (fuel : nat) (start : Z) (ns : bytes) (batchSize : Z) (c : ClientCursor)
    : option (result (Document * option ClientCursor)) :=
  let token := cc_postBatchResumeToken c in
  let tracks := negb (isEmptyObj token) in
  match first_batch fuel tracks (cc_tailable c) (Z.to_nat batchSize) (mkResponse true start [] []) token (cc_exec c) with
  | None => None
  | Some (Err e) => Some (Err e)
  | Some (Ok (r, token, keep, x)) =>
      let r := if tracks then response_setToken r token else r in
      Some (if keep : bool then
              let! x := park x in
              let c := with_exec c x in
              let c := if tracks then setPostBatchResumeToken c token else c in
              Ok (response_done r (cc_cursorid c) ns, Some c)
            else Ok (response_done r 0 ns, None))
  end.

(** What the loop of [generateBatch] leaves in [*state]; [Closed]: by CloseChangeStream. *)
Inductive LoopEnd := Filled | Drained | Dead (status : ErrorCode) | Closed.

Fixpoint generate_loop (n fuel : nat) (tracks : bool) (batchSize : Z) (state : AwaitDataState)
    (r : CursorResponseBuilder) (token : Document) (x : PlanExecutor)
    : option (result (CursorResponseBuilder * Document * LoopEnd * PlanExecutor)) :=
  match n with
  | O => None
  | S n =>
      if enoughForGetMore batchSize (numDocs r) then Some (Ok (r, token, Filled, x))
      else
        match exec_getNext fuel state x with
        | None => None
        | Some (Err e) => Some (Err e)
        | Some (Ok (THROWN, x)) => Some (Ok (r, token, Closed, x))
        | Some (Ok (IS_EOF, x)) => Some (Ok (r, token, Drained, x))
        | Some (Ok (DEAD e, x)) => Some (Ok (r, token, Dead e, x))
        | Some (Ok (ADVANCED next, x)) =>
            if haveSpaceForNext next (numDocs r) (bytesUsed r)
            then generate_loop n fuel tracks batchSize (mkAwaitData (ad_waitForInsertsDeadline state) false)
                   (response_append r next) (tokenAfter tracks token next) x
            else Some (Ok (r, token, Filled, enqueue x next))
        end
  end.

(** [generateBatch]: the reply so far, the cursor, and how the loop ended. *)
Definition generateBatch (n fuel : nat) (batchSize : Z) (state : AwaitDataState) (r : CursorResponseBuilder)
    (c : ClientCursor) : option (result (CursorResponseBuilder * ClientCursor * LoopEnd)) :=
  let token := cc_postBatchResumeToken c in
  let tracks := negb (isEmptyObj token) in
  match generate_loop n fuel tracks batchSize state r token (cc_exec c) with
  | None => None
  | Some (Err e) => Some (Err e)
  | Some (Ok (r, token, ended, x)) =>
      Some (
        let! named := match ended with Closed | Drained => namedToken tracks x | _ => Ok [] end in
        let token := tokenOr tracks token named in
        let c := with_exec c x in
        let '(r, c) := if tracks then (response_setToken r token, setPostBatchResumeToken c token) else (r, c) in
        match ended with Dead e => Err e | _ => Ok (r, c, ended) end)
  end.

Record GetMoreRequest := mkGetMore {
  gm_batchSize : option Z;
  gm_awaitDataTimeout : option Z;
}.

(** [shouldSaveCursorGetMore]; the lookahead of [isEOF] only for a cursor that is not tailable. *)
Definition shouldSaveCursorGetMore (fuel : nat) (state : AwaitDataState) (ended : LoopEnd) (tailable : bool)
    (x : PlanExecutor) : option (result (bool * PlanExecutor)) :=
  match ended with
  | Dead _ | Closed => Some (Ok (false, x))
  | _ =>
      if tailable then Some (Ok (true, x))
      else
        match exec_isEOF fuel state x with
        | None => None
        | Some (Err e) => Some (Err e)
        | Some (Ok (Some b, x)) => Some (Ok (negb b, x))
        | Some (Ok (None, _)) => Some (Err CloseChangeStream)
        end
  end.

(** The getMore command on a pinned cursor; [now]: the precise clock when it starts. *)
Definition runGetMore (n fuel : nat) (now start : Z) (ns : bytes) (request : GetMoreRequest) (c : ClientCursor)
    : option (result (Document * option ClientCursor)) :=
  let state :=
    if cc_awaitData c then mkAwaitData (now + default 1000 (gm_awaitDataTimeout request)) true
    else mkAwaitData 0 false in
  match
    let! x := reattachToOperationContext (cc_exec c) in
    let! x := restoreState x in Ok (with_exec c x)
  with
  | Err e => Some (Err e)
  | Ok c =>
      match generateBatch n fuel (default 0 (gm_batchSize request)) state (mkResponse false start [] []) c with
      | None => None
      | Some (Err e) => Some (Err e)
      | Some (Ok (r, c, ended)) =>
          match shouldSaveCursorGetMore fuel (mkAwaitData (ad_waitForInsertsDeadline state) false) ended
                  (cc_tailable c) (cc_exec c) with
          | None => None
          | Some (Err e) => Some (Err e)
          | Some (Ok (false, _)) => Some (Ok (response_done r 0 ns, None))
          | Some (Ok (true, x)) =>
              Some (let! x := park x in
                    Ok (response_done r (cc_cursorid c) ns, Some (incPos (with_exec c x) (numDocs r))))
          end
      end
  end.

(** ** A client's session *)

(** The cursor run_aggregate.cpp registers for a change stream: tailable and awaitData, with the
    opening token, which must be known. *)
Definition registerCursor (cursorid : Z) (p : Pipeline) : result ClientCursor :=
  let x := mkExecutor (mkProxy p []) [] None kUsable in
  let! openingToken := exec_getPostBatchResumeToken x in
  let! _ := uassert ChangeStreamFatalError (negb (isEmptyObj openingToken)) in
  Ok (mkCursor cursorid true true 0 openingToken x).

(** A getMore as the server runs it: the precise clock, the bytes before its batch, the request. *)
Record Served := mkServed { sv_now : Z; sv_start : Z; sv_request : GetMoreRequest }.

(** Successive getMores, as long as the cursor is kept: the replies, and the cursor. *)
Fixpoint runGetMores (n fuel : nat) (ns : bytes) (requests : list Served) (c : option ClientCursor)
    : option (result (list Document * option ClientCursor)) :=
  match requests, c with
  | q :: requests, Some c =>
      match runGetMore n fuel (sv_now q) (sv_start q) ns (sv_request q) c with
      | None => None
      | Some (Err e) => Some (Err e)
      | Some (Ok (reply, c)) =>
          match runGetMores n fuel ns requests c with
          | Some (Ok (replies, c)) => Some (Ok (reply :: replies, c))
          | x => x
          end
      end
  | _, _ => Some (Ok ([], c))
  end.

(** The aggregate that opened the stream and the getMores after it. *)
Definition session (n fuel : nat) (cursorid start : Z) (ns : bytes) (batchSize : Z) (requests : list Served)
    (p : Pipeline) : option (result (list Document * option ClientCursor)) :=
  match registerCursor cursorid p with
  | Err e => Some (Err e)
  | Ok c =>
      match handleCursorCommand fuel start ns batchSize c with
      | None => None
      | Some (Err e) => Some (Err e)
      | Some (Ok (reply, c)) =>
          match runGetMores n fuel ns requests c with
          | Some (Ok (replies, c)) => Some (Ok (reply :: replies, c))
          | x => x
          end
      end
  end.

End Cursor.

(** ** What a client reads in a reply *)

Definition reply_cursor (reply : Document) : Document :=
  match getField reply (lit "cursor") with Some (BObject d) => d | _ => [] end.

(** The documents of a batch. *)
Definition reply_batch (reply : Document) : list Document :=
  let c := reply_cursor reply in
  match getField c (lit "firstBatch"), getField c (lit "nextBatch") with
  | Some (BArray items), _ | None, Some (BArray items) =>
      omap (fun e => match e.2 with BObject d => Some d | _ => None end) items
  | _, _ => []
  end.

Definition reply_token (reply : Document) : option Document :=
  match getField (reply_cursor reply) (lit "postBatchResumeToken") with Some (BObject d) => Some d | _ => None end.

Definition reply_id (reply : Document) : option Z :=
  match getField (reply_cursor reply) (lit "id") with Some (BLong i) => Some i | _ => None end.
