(* ===== verification/Changes.v ===== *)
(** * The changes of a log, and positions among them

    What an event stream is to report of a log group: the changes of its records in storage order,
    a repeat of one transaction's entry at one timestamp left out. A token position divides them
    into those reported before it and those left. This is the specification the event stream is
    proved against in [ResumeExact]; it does not depend on how records are fetched, merged or
    skipped. *)

From S2P Require Import Prelude Bytes Bson RawBson BsonBuilder ResumeToken BlobDecoder LogService.
From S2P Require Import DdlDecoder ScanClient ScanContract ScanSource EventStream.
#[local] Open Scope Z_scope.

(** ** Changes *)

Inductive Change :=
| CData (r : CdcDataRecord) (e : Entry)
| CDdl (r : CdcDdlRecord) (c : CdcDdlChange).

Definition ch_record (c : Change) : LogRecord :=
  match c with CData r _ => LData r | CDdl r _ => LDdl r end.

Section Changes.

Context (scope : CdcStreamScope) (limit maxDepth EloqDoc : Z).

(** A data record's in-scope entries and a DDL record's in-scope change. *)
Definition logged_entries (r : CdcDataRecord) : list Entry :=
  match decodeBlob (dr_blob r) scope with Ok es => es | Err _ => [] end.

Definition reported_ddl (r : CdcDdlRecord) : option CdcDdlChange :=
  match decodeCdcDdl maxDepth EloqDoc (lr_schema_op r) with
  | Ok (Some c) => if includes scope (dc_ns c) then Some c else None
  | _ => None
  end.

(** The log holds blobs and schema images that decode. *)
Definition decodable (r : LogRecord) : Prop :=
  match r with
  | LData d => blen (dr_blob d) < 2 ^ 32 /\ exists es, decodeBlob (dr_blob d) scope = Ok es
  | LDdl d => exists c, decodeCdcDdl maxDepth EloqDoc (lr_schema_op d) = Ok c
  end.

(** Entries of one record that do not repeat an earlier one, and the dedup set after them. *)
Fixpoint fresh_entries (r : CdcDataRecord) (d : Dedup) (es : list Entry) : list Change * Dedup :=
  match es with
  | [] => ([], d)
  | e :: es =>
      let '(repeat, d, _) := seen limit d (dr_commit_ts r) (dedupKey (dr_txn_number r) e) in
      let '(cs, d) := fresh_entries r d es in
      (if repeat then cs else CData r e :: cs, d)
  end.

Definition record_changes (d : Dedup) (r : LogRecord) : list Change * Dedup :=
  match r with
  | LData r => fresh_entries r d (logged_entries r)
  | LDdl r => (match reported_ddl r with Some c => [CDdl r c] | None => [] end, d)
  end.

Fixpoint changes (d : Dedup) (h : list LogRecord) : list Change * Dedup :=
  match h with
  | [] => ([], d)
  | r :: h =>
      let '(cs, d) := record_changes d r in
      let '(cs', d) := changes d h in
      (cs ++ cs', d)
  end.

(** What a stream is to report of a history. *)
Definition history_changes (h : list LogRecord) : list Change := (changes newDedup h).1.

(** ** Positions *)

(** From a timestamp on, or after a token entry. *)
Inductive Position := PFrom (ts : Z) | PEntry (e : CdcResumeTokenEntry).

Definition entry_ts (e : CdcResumeTokenEntry) : Z :=
  Z.max (keyTimestamp (te_dataKey e)) (keyTimestamp (te_ddlKey e)).

(** Where a record lies: reported, the one being reported, or to be reported. *)
Inductive Place := Before | At | After.

Definition record_place (e : CdcResumeTokenEntry) (r : LogRecord) : Place :=
  let T := entry_ts e in
  if rec_ts r <? T then Before
  else if T <? rec_ts r then After
  else match r with
       | LDdl d =>
           if (keyTimestamp (te_ddlKey e) =? T) && bytes_leb (ddlKey d) (te_ddlKey e) then Before else After
       | LData d =>
           if keyTimestamp (te_ddlKey e) =? T then Before
           else if bytes_ltb (dataKey d) (te_dataKey e) then Before
           else if bytes_eqb (dataKey d) (te_dataKey e)
           then if bool_decide (te_form e = kAtKeyAfterPosition) then At else Before
           else After
       end.

(** Whether a change is left to report. *)
Definition after (p : Position) (c : Change) : bool :=
  match p with
  | PFrom ts => ts <=? rec_ts (ch_record c)
  | PEntry e =>
      match record_place e (ch_record c) with
      | Before => false
      | After => true
      | At => match c with
              | CData _ x => negb (consumed_through (Some (te_section e, te_entry e)) x)
              | CDdl _ _ => true
              end
      end
  end.

(** The position a token gives a group: its entry, unless the token's own timestamp covers it. *)
Definition token_position (token : CdcResumeToken) (id : Z) : Position :=
  match startTimestampForAbsentGroup token with
  | Err _ => PFrom 0
  | Ok start =>
      match entryFor (tok_entries token) id with
      | Some e => if entry_ts e <? start then PFrom start else PEntry e
      | None => PFrom start
      end
  end.

(** The changes of a history a position leaves to report. *)
Definition left_after (p : Position) (h : list LogRecord) : list Change :=
  List.filter (after p) (history_changes h).

(** ** Facts *)

Lemma changes_app d a b :
  changes d (a ++ b) = ((changes d a).1 ++ (changes (changes d a).2 b).1, (changes (changes d a).2 b).2).
Proof.
  revert d. induction a as [|r a IH]; intros d; cbn [app changes].
  { cbn. by destruct (changes d b). }
  destruct (record_changes d r) as [cs d1]. rewrite IH. destruct (changes d1 a) as [cs1 d2]. cbn.
  destruct (changes d2 b) as [cs2 d3]. cbn. by rewrite <- app_assoc.
Qed.

Lemma fresh_entries_app r d a b :
  fresh_entries r d (a ++ b) =
    ((fresh_entries r d a).1 ++ (fresh_entries r (fresh_entries r d a).2 b).1,
     (fresh_entries r (fresh_entries r d a).2 b).2).
Proof.
  revert d. induction a as [|e a IH]; intros d; cbn [app fresh_entries].
  { cbn. by destruct (fresh_entries r d b). }
  destruct (seen _ _ _ _) as [[rep d1] o]. rewrite IH. destruct (fresh_entries r d1 a) as [cs1 d2]. cbn.
  destruct (fresh_entries r d2 b) as [cs2 d3]. cbn. by destruct rep.
Qed.

(** *** The dedup set starts over with each timestamp *)

Lemma seen_ts d ts key : dd_ts (seen limit d ts key).1.2 = ts.
Proof.
  unfold seen. destruct (Z.eqb_spec (dd_ts d) ts) as [<-|];
    destruct (bool_decide _); try done; destruct (_ <? _); done.
Qed.

Lemma seen_stale d ts key :
  dd_ts d <> ts -> seen limit d ts key = seen limit (mkDedup ts ∅ 0) ts key.
Proof. intros H. unfold seen. cbn. by rewrite (proj2 (Z.eqb_neq _ _) H), Z.eqb_refl. Qed.

Lemma fresh_entries_stale r d1 d2 es :
  es <> [] -> dd_ts d1 <> dr_commit_ts r -> dd_ts d2 <> dr_commit_ts r ->
  fresh_entries r d1 es = fresh_entries r d2 es.
Proof.
  intros He H1 H2. destruct es as [|e es]; [done|]. cbn [fresh_entries].
  by rewrite (seen_stale d1), (seen_stale d2) by done.
Qed.

Lemma changes_stale d1 d2 h :
  Forall (fun r => dd_ts d1 <> rec_ts r /\ dd_ts d2 <> rec_ts r) h ->
  (changes d1 h).1 = (changes d2 h).1.
Proof.
  induction 1 as [|r h [H1 H2] Hh IH]; [done|]. cbn [changes].
  destruct r as [r|r]; cbn [record_changes].
  - destruct (logged_entries r) as [|e es] eqn:E.
    + cbn. destruct (changes d1 h) as [c1 ?], (changes d2 h) as [c2 ?]. exact IH.
    + by rewrite (fresh_entries_stale r d1 d2) by done.
  - destruct (changes d1 h) as [c1 ?], (changes d2 h) as [c2 ?]. cbn in *. by rewrite IH.
Qed.

Lemma fresh_entries_ts r d es :
  dd_ts (fresh_entries r d es).2 = if bool_decide (es = []) then dd_ts d else dr_commit_ts r.
Proof.
  revert d. induction es as [|e es IH]; intros d; [done|]. cbn [fresh_entries].
  pose proof (seen_ts d (dr_commit_ts r) (dedupKey (dr_txn_number r) e)) as Ht.
  destruct (seen _ _ _ _) as [[rep d1] o]. specialize (IH d1). destruct (fresh_entries r d1 es) as [cs d2].
  cbn in *. rewrite IH, Ht. by case_bool_decide.
Qed.

Lemma changes_ts d h :
  dd_ts (changes d h).2 = dd_ts d \/ exists r, r ∈ h /\ dd_ts (changes d h).2 = rec_ts r.
Proof.
  revert d. induction h as [|r h IH]; intros d; cbn [changes]; [by left|].
  assert (dd_ts (record_changes d r).2 = dd_ts d \/ dd_ts (record_changes d r).2 = rec_ts r) as Hr.
  { destruct r as [r|r]; cbn [record_changes]; [|by left]. rewrite fresh_entries_ts.
    case_bool_decide; [by left|by right]. }
  destruct (record_changes d r) as [cs d1]. specialize (IH d1). destruct (changes d1 h) as [cs1 d2]. cbn in *.
  destruct IH as [->|(x & Hx & ->)]; [|right; exists x; set_solver].
  destruct Hr as [->| ->]; [by left|right; exists r; set_solver].
Qed.

Lemma changes_record d h c : c ∈ (changes d h).1 -> ch_record c ∈ h.
Proof.
  revert d. induction h as [|r h IH]; intros d; cbn [changes]; [set_solver|].
  assert (forall c, c ∈ (record_changes d r).1 -> ch_record c = r) as Hr.
  { destruct r as [r|r]; cbn [record_changes].
    - generalize (logged_entries r) as es, d as d0. induction es as [|e es IHe]; intros d0 x; cbn; [set_solver|].
      destruct (seen _ _ _ _) as [[rep d1] o]. specialize (IHe d1). destruct (fresh_entries r d1 es) as [cs d2].
      cbn in *. destruct rep; [auto|]. rewrite elem_of_cons. intros [->|]; auto.
    - intros x. cbn. destruct (reported_ddl r); set_solver. }
  destruct (record_changes d r) as [cs d1]. specialize (IH d1). destruct (changes d1 h) as [cs1 d2]. cbn in *.
  rewrite elem_of_app. intros [Hc|Hc]; [apply Hr in Hc; set_solver|set_solver].
Qed.

Lemma history_split h ts :
  wf_history h -> h = List.filter (fun r => rec_ts r <? ts) h ++ records_from h ts.
Proof.
  intros [_ Hs]. unfold records_from. induction Hs as [|r h Hs IH Hr]; [done|]. cbn.
  destruct (Z.ltb_spec (rec_ts r) ts) as [Hlt|Hge].
  - rewrite (proj2 (Z.leb_gt _ _)) by done. cbn. by rewrite <- IH.
  - rewrite (proj2 (Z.leb_le _ _)) by done.
    assert (Forall (fun x => ts <= rec_ts x) h) as Hall.
    { eapply Forall_impl; [exact Hr|]. intros x Hx. apply rec_lt_ts in Hx. lia. }
    clear -Hall. replace (List.filter (fun r => rec_ts r <? ts) h) with (@nil LogRecord).
    + cbn. f_equal. induction Hall as [|x h Hx _ IH]; [done|]. cbn.
      rewrite (proj2 (Z.leb_le _ _)) by done. by rewrite <- IH.
    + induction Hall as [|x h Hx _ IH]; [done|]. cbn. by rewrite (proj2 (Z.ltb_ge _ _)) by lia.
Qed.

(** Reporting may start at any timestamp. *)
Lemma history_changes_from h ts :
  wf_history h ->
  history_changes h =
    history_changes (List.filter (fun r => rec_ts r <? ts) h) ++ history_changes (records_from h ts).
Proof.
  intros Hh. rewrite (history_split h ts Hh) at 1. unfold history_changes. rewrite changes_app. cbn. f_equal.
  apply changes_stale. apply Forall_forall. intros r Hr.
  assert (ts <= rec_ts r /\ 1 <= rec_ts r) as [Hts H1].
  { apply list_elem_of_In, filter_In in Hr as [Hr Hl]. apply Z.leb_le in Hl. split; [done|].
    destruct Hh as [Hw _]. rewrite Forall_forall in Hw. apply list_elem_of_In in Hr. by apply Hw. }
  cbn. split; [|lia].
  destruct (changes_ts newDedup (List.filter (fun r => rec_ts r <? ts) h)) as [-> | (x & Hx & ->)]; [cbn; lia|].
  apply list_elem_of_In, filter_In in Hx as [_ Hx]. apply Z.ltb_lt in Hx. lia.
Qed.

Lemma left_after_from p h ts :
  wf_history h -> (forall c, after p c = true -> ts <= rec_ts (ch_record c)) ->
  left_after p h = List.filter (after p) (history_changes (records_from h ts)).
Proof.
  intros Hh Hp. unfold left_after. rewrite (history_changes_from h ts Hh), List.filter_app.
  replace (List.filter (after p) _) with (@nil Change); [done|]. symmetry.
  assert (forall c, c ∈ history_changes (List.filter (fun r => rec_ts r <? ts) h) -> after p c = false) as Hn.
  { intros c Hc. apply changes_record, list_elem_of_In, filter_In in Hc as [_ Hlt]. apply Z.ltb_lt in Hlt.
    destruct (after p c) eqn:E; [|done]. apply Hp in E. lia. }
  revert Hn. generalize (history_changes (List.filter (fun r => rec_ts r <? ts) h)) as l.
  induction l as [|c l IH]; intros Hn; [done|]. cbn. rewrite Hn by set_solver. apply IH. set_solver.
Qed.

(** *** Places *)

Lemma keyTimestamp_key r : wf_record r -> keyTimestamp (rec_key r) = rec_ts r.
Proof.
  intros Hr. pose proof (wf_record_ts r Hr) as Hu.
  assert (exists x, rec_key r = appendBigEndian (rec_ts r) 8 ++ x) as [x ->].
  { destruct r as [d|d]; eexists; reflexivity. }
  unfold keyTimestamp. rewrite blen_app. pose proof (blen_nonneg x).
  assert (blen (appendBigEndian (rec_ts r) 8) = 8) as Hl by (unfold blen; by rewrite length_appendBigEndian).
  rewrite Hl, (proj2 (Z.ltb_ge _ _)) by lia.
  rewrite take_app_length' by (by rewrite length_appendBigEndian).
  rewrite readBigEndian_append, Z.mod_small; [done|]. exact Hu.
Qed.

(** The position right at a data record: what is before and after it in the log. *)
Lemma place_data e d x :
  wf_record (LData d) -> te_dataKey e = dataKey d -> keyTimestamp (te_ddlKey e) < dr_commit_ts d ->
  (rec_lt x (LData d) -> record_place e x = Before) /\ (rec_lt (LData d) x -> record_place e x = After) /\
  record_place e (LData d) = if bool_decide (te_form e = kAtKeyAfterPosition) then At else Before.
Proof.
  intros Hd Ek Hlt. pose proof (keyTimestamp_key _ Hd) as Hts. cbn in Hts.
  unfold record_place, entry_ts. rewrite Ek, Hts, Z.max_l by lia.
  rewrite (proj2 (Z.eqb_neq _ _)) by lia. split_and!.
  - intros [Hx|[Hx Hk]]; cbn in Hx; [by rewrite (proj2 (Z.ltb_lt _ _))|].
    rewrite Hx, Z.ltb_irrefl. destruct x as [x|x]; cbn in *; [|done]. by rewrite Hk.
  - intros [Hx|[Hx Hk]]; cbn in Hx.
    + rewrite (proj2 (Z.ltb_ge _ _)) by lia. by rewrite (proj2 (Z.ltb_lt _ _)).
    + rewrite <- Hx, Z.ltb_irrefl. destruct x as [x|x]; cbn in *; [|done].
      rewrite (bytes_lt_asym _ _ Hk). destruct (bytes_eqb (dataKey x) (dataKey d)) eqn:E; [|done].
      apply bytes_eqb_eq in E. rewrite E in Hk. by apply bytes_lt_irrefl in Hk.
  - cbn. rewrite Z.ltb_irrefl. destruct (bytes_ltb (dataKey d) (dataKey d)) eqn:E.
    { by apply bytes_lt_irrefl in E. }
    by rewrite bytes_eqb_refl.
Qed.

(** The position right at a DDL record. *)
Lemma place_ddl e d x :
  wf_record (LDdl d) -> te_ddlKey e = ddlKey d -> keyTimestamp (te_dataKey e) <= lr_ddl_ts d ->
  (rec_lt x (LDdl d) -> record_place e x = Before) /\ (rec_lt (LDdl d) x -> record_place e x = After) /\
  record_place e (LDdl d) = Before.
Proof.
  intros Hd Ek Hle. pose proof (keyTimestamp_key _ Hd) as Hts. cbn in Hts.
  unfold record_place, entry_ts. rewrite Ek, Hts, Z.max_r, Z.eqb_refl by lia. split_and!.
  - intros [Hx|[Hx Hk]]; cbn in Hx; [by rewrite (proj2 (Z.ltb_lt _ _))|].
    rewrite Hx, Z.ltb_irrefl. destruct x as [x|x]; cbn in *; [done|].
    rewrite (proj2 (bytes_leb_iff _ _)); [done|by left].
  - intros [Hx|[Hx Hk]]; cbn in Hx.
    + rewrite (proj2 (Z.ltb_ge _ _)) by lia. by rewrite (proj2 (Z.ltb_lt _ _)).
    + rewrite <- Hx, Z.ltb_irrefl. destruct x as [x|x]; cbn in *; [done|].
      destruct (bytes_leb (ddlKey x) (ddlKey d)) eqn:E; [|done].
      apply bytes_leb_iff in E as [E|E].
      * apply bytes_lt_asym in E. unfold bytes_lt in Hk. congruence.
      * rewrite E in Hk. by apply bytes_lt_irrefl in Hk.
  - cbn. rewrite Z.ltb_irrefl. rewrite (proj2 (bytes_leb_iff _ _)); [done|by right].
Qed.

(** Places follow the order of the log. *)
Lemma place_later e x y :
  wf_record x -> wf_record y -> rec_lt x y -> record_place e x <> Before -> record_place e y = After.
Proof.
  intros Hx Hy Hlt. unfold record_place. set (T := entry_ts e).
  destruct (Z.ltb_spec (rec_ts x) T) as [|Hge]; [done|]. pose proof (rec_lt_ts _ _ Hlt) as Hle.
  rewrite (proj2 (Z.ltb_ge (rec_ts y) T)) by lia.
  destruct (Z.ltb_spec T (rec_ts y)) as [|Hle']; [done|].
  rewrite (proj2 (Z.ltb_ge T (rec_ts x))) by lia.
  destruct Hlt as [Hlt|[_ Hk]]; [lia|]. destruct x as [x|x], y as [y|y]; cbn in Hk; [| |done|].
  - destruct (_ =? T); [done|]. destruct (bytes_ltb (dataKey x) (te_dataKey e)) eqn:E1; [done|].
    destruct (bytes_ltb (dataKey y) (te_dataKey e)) eqn:E2.
    { pose proof (bytes_lt_trans _ _ _ Hk E2). unfold bytes_lt in *. congruence. }
    destruct (bytes_eqb (dataKey y) (te_dataKey e)) eqn:E3; [|done].
    apply bytes_eqb_eq in E3. rewrite E3 in Hk. unfold bytes_lt in Hk. congruence.
  - destruct (keyTimestamp (te_ddlKey e) =? T); done.
  - destruct (keyTimestamp (te_ddlKey e) =? T); cbn; [|done].
    destruct (bytes_leb (ddlKey x) (te_ddlKey e)) eqn:E1; [done|].
    destruct (bytes_leb (ddlKey y) (te_ddlKey e)) eqn:E2; [|done]. intros _. exfalso.
    assert (bytes_leb (ddlKey x) (te_ddlKey e) = true) as E; [|congruence].
    apply bytes_leb_iff. apply bytes_leb_iff in E2 as [E2|<-]; left; [by eapply bytes_lt_trans|done].
Qed.

Lemma place_ts e r : record_place e r <> Before -> entry_ts e <= rec_ts r.
Proof. unfold record_place. destruct (Z.ltb_spec (rec_ts r) (entry_ts e)); [done|lia]. Qed.

Lemma place_gt e r : entry_ts e < rec_ts r -> record_place e r = After.
Proof.
  intros H. unfold record_place. rewrite (proj2 (Z.ltb_ge _ _)) by lia. by rewrite (proj2 (Z.ltb_lt _ _)).
Qed.

Lemma place_lt e r : rec_ts r < entry_ts e -> record_place e r = Before.
Proof. intros H. unfold record_place. by rewrite (proj2 (Z.ltb_lt _ _)). Qed.

(** A data record to be reported lies above the entry's DDL key. *)
Lemma place_data_ddlKey e d : record_place e (LData d) <> Before -> keyTimestamp (te_ddlKey e) < dr_commit_ts d.
Proof.
  intros H. pose proof (place_ts _ _ H) as Hge. cbn in Hge. unfold entry_ts in Hge.
  destruct (Z.eq_dec (keyTimestamp (te_ddlKey e)) (dr_commit_ts d)) as [E|]; [|lia]. exfalso. apply H.
  unfold record_place, entry_ts. cbn. rewrite E, Z.max_r, Z.ltb_irrefl, Z.eqb_refl by lia. done.
Qed.
End Changes.
