(* ===== verification/ResumeExact.v ===== *)
(** * Resuming is exact

    The event stream of [EventStream] against the specification of [Changes]: whatever the timing
    and paging of the log service, a stream opened at a token reports, group by group, the changes
    the token leaves, in order; and the token of each event leaves exactly what the stream had not
    yet reported. So a consumer that resumes from any token it was given misses nothing and sees
    nothing twice. *)

From S2P Require Import Prelude Bytes Bson RawBson BsonBuilder ResumeToken BlobDecoder LogService.
From S2P Require Import DdlDecoder ScanClient ScanContract ScanSource EventStream Changes.
#[local] Open Scope Z_scope.

(** ** Draining a decoder *)

Section Decoding.

Context (scope : CdcStreamScope) (limit : Z).

Lemma decoder_fuel_enough d : (length (entries_left d) + length (blob_left d) < decoder_fuel d)%nat.
Proof. unfold decoder_fuel, entries_left, blob_left. rewrite !length_drop. lia. Qed.

Lemma yields_next d es :
  decoder_ok d -> yields d = Ok es ->
  exists d', BlobDecoder.next d = Ok (hd_error es, d') /\
    match es with
    | [] => True
    | _ :: es' => decoder_ok d' /\ yields d' = Ok es' /\
        (length (entries_left d') + length (blob_left d') < length (entries_left d) + length (blob_left d))%nat
    end.
Proof.
  intros Hok Hy. pose proof (BlobDecoder.next_spec d Hok) as H. rewrite Hy in H.
  destruct (BlobDecoder.next d) as [[[e|] d']|err]; [| |naive_solver].
  - destruct H as (Hok' & Hy' & Hl). destruct (yields d') as [es'|] eqn:E; [|done]. cbn in Hy'.
    injection Hy' as ->. exists d'. done.
  - injection H as ->. exists d'. done.
Qed.

Lemma consume_fresh r fuel d dd ovf es :
  decoder_ok d -> yields d = Ok es ->
  (length (entries_left d) + length (blob_left d) < fuel)%nat ->
  exists ovf', consume fuel limit (dr_commit_ts r) (dr_txn_number r) d dd ovf
    = Ok ((fresh_entries limit r dd es).2, ovf').
Proof.
  revert d dd ovf es. induction fuel as [|fuel IH]; intros d dd ovf es Hok Hy Hf; [lia|].
  cbn [consume]. destruct (yields_next d es Hok Hy) as (d' & -> & Hn). cbn [rbind].
  destruct es as [|e es]; cbn [hd_error]; [by eexists|]. destruct Hn as (Hok' & Hy' & Hl).
  cbn [fresh_entries]. destruct (seen _ _ _ _) as [[rep dd1] o].
  destruct (IH d' dd1 (ovf + bool_Z o) es Hok' Hy' ltac:(lia)) as [ovf' ->].
  destruct (fresh_entries limit r dd1 es) as [cs dd2]. by exists ovf'.
Qed.

(** A change of a record that a resume does not consume. *)
Definition kept (through : option (Z * Z)) (c : Change) : bool :=
  match c with CData _ e => negb (consumed_through through e) | CDdl _ _ => true end.

Lemma produce_fresh r fuel through d dd dups ovf es :
  decoder_ok d -> yields d = Ok es ->
  (length (entries_left d) + length (blob_left d) < fuel)%nat ->
  exists x d' dd' dups' ovf' pre,
    produce fuel limit (dr_commit_ts r) (dr_txn_number r) through d dd dups ovf
      = Ok (x, d', dd', dups', ovf') /\
    List.filter (kept through) (fresh_entries limit r dd pre).1 = [] /\
    match x with
    | Some e => exists rest, es = pre ++ e :: rest /\ decoder_ok d' /\ yields d' = Ok rest /\
        consumed_through through e = false /\
        fresh_entries limit r dd (pre ++ [e]) = ((fresh_entries limit r dd pre).1 ++ [CData r e], dd')
    | None => es = pre /\ dd' = (fresh_entries limit r dd pre).2
    end.
Proof.
  revert d dd dups ovf es. induction fuel as [|fuel IH]; intros d dd dups ovf es Hok Hy Hf; [lia|].
  cbn [produce]. destruct (yields_next d es Hok Hy) as (d1 & -> & Hn). cbn [rbind].
  destruct es as [|e es]; cbn [hd_error].
  { exists None, d1, dd, dups, ovf, []. done. }
  destruct Hn as (Hok1 & Hy1 & Hl).
  destruct (seen limit dd (dr_commit_ts r) (dedupKey (dr_txn_number r) e)) as [[rep dd1] o] eqn:Es.
  assert (forall dups' ovf', (rep = true \/ consumed_through through e = true) ->
    exists x d' dd' dups2 ovf2 pre,
      produce fuel limit (dr_commit_ts r) (dr_txn_number r) through d1 dd1 dups' ovf'
        = Ok (x, d', dd', dups2, ovf2) /\
      List.filter (kept through) (fresh_entries limit r dd pre).1 = [] /\
      match x with
      | Some y => exists rest, e :: es = pre ++ y :: rest /\ decoder_ok d' /\ yields d' = Ok rest /\
          consumed_through through y = false /\
          fresh_entries limit r dd (pre ++ [y]) = ((fresh_entries limit r dd pre).1 ++ [CData r y], dd')
      | None => e :: es = pre /\ dd' = (fresh_entries limit r dd pre).2
      end) as Hskip.
  { intros dups' ovf' Hc.
    destruct (IH d1 dd1 dups' ovf' es Hok1 Hy1 ltac:(lia)) as (x & d' & dd' & dups2 & ovf2 & pre & -> & Hp & Hx).
    exists x, d', dd', dups2, ovf2, (e :: pre). split; [done|]. split.
    - cbn [fresh_entries]. rewrite Es. destruct (fresh_entries limit r dd1 pre) as [cs dd2]. cbn in *.
      destruct Hc as [-> |Hc]; [done|]. destruct rep; [done|]. cbn. by rewrite Hc.
    - destruct x as [y|].
      + destruct Hx as (rest & -> & Hok' & Hy' & Hthr & Hfr). exists rest. split_and!; [done..|].
        cbn [app fresh_entries]. rewrite Es, Hfr. destruct (fresh_entries limit r dd1 pre) as [cs dd2]. cbn.
        by destruct rep.
      + destruct Hx as [-> ->]. split; [done|]. cbn [fresh_entries]. rewrite Es.
        by destruct (fresh_entries limit r dd1 pre). }
  destruct (consumed_through through e) eqn:Ec; [by apply Hskip; right|].
  destruct rep; [by apply Hskip; left|].
  exists (Some e), d1, dd1, dups, (ovf + bool_Z o), []. split_and!; [done|done|].
  exists es. split_and!; [done..|]. cbn. by rewrite Es.
Qed.
End Decoding.

(** ** One group *)

Section Group.

Context (scope : CdcStreamScope) (limit maxDepth EloqDoc : Z).

(** The group and where its stream was opened. *)
Context (id : Z) (P0 : Position).

Abbreviation all_changes := (changes scope limit maxDepth EloqDoc).
Abbreviation chg recs := (all_changes newDedup recs).1.
Abbreviation ded recs := (all_changes newDedup recs).2.
Abbreviation fresh := (fresh_entries limit).

(** The position of the group's cursor. *)
Definition position (g : EGroup) : Position :=
  if eg_hasCursor g then PEntry (cursor_entry id g) else P0.

Definition place (p : Position) (r : LogRecord) : Place :=
  match p with
  | PFrom ts => if rec_ts r <? ts then Before else After
  | PEntry e => record_place e r
  end.

Definition position_ts (p : Position) : Z :=
  match p with PFrom ts => ts | PEntry e => entry_ts e end.

(** What the group skips until it is past the resume point. *)
Definition skip_for (p : Position) : option ResumeSkip :=
  match p with PFrom _ => None | PEntry e => Some (skip_of e) end.

(** Through which position a record's changes are consumed on resume. *)
Definition through_of (p : Position) (r : LogRecord) : option (Z * Z) :=
  match p with
  | PFrom _ => None
  | PEntry e => match record_place e r with At => Some (te_section e, te_entry e) | _ => None end
  end.

(** Nothing reported since the stream was opened. *)
Record untouched (g : EGroup) (rel : list LogRecord) : Prop := {
  un_position : position g = P0;
  un_new : eg_hasCursor g = false -> (exists ts, P0 = PFrom ts) /\ eg_dataKey g = [] /\ eg_ddlKey g = [];
  un_rel : Forall (fun r => place P0 r = Before) rel;
}.

(** The cursor is at the last record taken. *)
Record moved (g : EGroup) (rel rem : list LogRecord) : Prop := {
  mv_cursor : eg_hasCursor g = true;
  mv_ts : position_ts P0 <= cursor_ts g;
  mv_rel : Forall (fun r => place (position g) r = Before) rel;
  mv_rem : Forall (fun r => place (position g) r = After) rem;
  mv_later : Forall (fun r => place P0 r = After) rem;
}.

(** What is left to skip: up to the resume point, or nothing once the group is past it. *)
Definition skips (g : EGroup) (rem : list LogRecord) : Prop :=
  eg_skip g = skip_for P0 \/ (eg_skip g = None /\ Forall (fun r => place P0 r = After) rem).

Record settled (g : EGroup) (rel rem : list LogRecord) : Prop := {
  se_skip : skips g rem;
  se_cursor : untouched g rel \/ moved g rel rem;
}.

(** Between records. *)
Record idle (g : EGroup) (rel rem : list LogRecord) (out : list Change) : Prop := {
  id_settled : settled g rel rem;
  id_dedup : eg_dedup g = ded rel;
  id_out : out = List.filter (after P0) (chg rel);
}.

(** The cursor is within a data record, after its change [e]. *)
Record within (g : EGroup) (d : CdcDataRecord) (e : Entry) : Prop := {
  wi_cursor : eg_hasCursor g = true;
  wi_key : eg_dataKey g = dataKey d;
  wi_partial : eg_partial g = true;
  wi_section : eg_section g = e_section e;
  wi_entry : eg_entry g = e_entry e;
  wi_ddl : keyTimestamp (eg_ddlKey g) < dr_commit_ts d;
}.

(** Within a data record: its entries [before] are taken, [left] are not. *)
Record producing (g : EGroup) (c : Current) (rel rem : list LogRecord) (out : list Change)
    (rel' : list LogRecord) (d : CdcDataRecord) (before left : list Entry) : Prop := {
  pr_rel : rel = rel' ++ [LData d];
  pr_key : cu_key c = dataKey d;
  pr_ts : cu_ts c = dr_commit_ts d;
  pr_txn : cu_txn c = dr_txn_number d;
  pr_decoder : decoder_ok (cu_decoder c);
  pr_yields : yields (cu_decoder c) = Ok left;
  pr_entries : logged_entries scope d = before ++ left;
  pr_dedup : eg_dedup g = (fresh d (ded rel') before).2;
  pr_out : out = List.filter (after P0) (chg rel' ++ (fresh d (ded rel') before).1);
  pr_place : place P0 (LData d) <> Before;
  pr_through : cu_consumeThrough c = through_of P0 (LData d);
  pr_skip : skips g rem;
  pr_cursor :
    (before = [] /\ settled g rel' (LData d :: rem)) \/
    (exists pre e, before = pre ++ [e] /\ within g d e /\ after P0 (CData d e) = true);
}.

(** The group between pulls or in a round, given the record being decoded if it is the group's. *)
Definition group_state (g : EGroup) (c : option Current) (rel rem : list LogRecord) (out : list Change) : Prop :=
  match c with
  | None => idle g rel rem out
  | Some c => exists rel' d before left, producing g c rel rem out rel' d before left
  end.

(** *** Positions and changes *)

Lemma after_place p c :
  after p c = match place p (ch_record c) with
              | Before => false
              | After => true
              | At => kept (through_of p (ch_record c)) c
              end.
Proof.
  destruct p as [ts|e]; cbn [after place through_of].
  - destruct (Z.leb_spec ts (rec_ts (ch_record c))), (Z.ltb_spec (rec_ts (ch_record c)) ts); lia || done.
  - destruct (record_place e (ch_record c)) eqn:E; [done| |done]. by destruct c.
Qed.

Lemma kept_all {A} (f : A -> bool) l : Forall (fun x => f x = true) l -> List.filter f l = l.
Proof. induction 1 as [|x l Hx _ IH]; cbn; [done|]. by rewrite Hx, IH. Qed.

Lemma kept_none {A} (f : A -> bool) l : Forall (fun x => f x = false) l -> List.filter f l = [].
Proof. induction 1 as [|x l Hx _ IH]; cbn; [done|]. by rewrite Hx. Qed.

Lemma changes_places p d recs b :
  Forall (fun r => place p r = if b : bool then After else Before) recs ->
  Forall (fun c => after p c = b) (all_changes d recs).1.
Proof.
  intros H. apply Forall_forall. intros c Hc. apply changes_record in Hc.
  rewrite after_place, (proj1 (Forall_forall _ _) H _ Hc). by destruct b.
Qed.

Lemma fresh_record r d es c : c ∈ (fresh r d es).1 -> exists e, e ∈ es /\ c = CData r e.
Proof.
  revert d. induction es as [|e es IH]; intros d; cbn; [set_solver|].
  destruct (seen _ _ _ _) as [[rep d1] o]. specialize (IH d1). destruct (fresh r d1 es) as [cs d2]. cbn in *.
  destruct rep; [intros Hc; destruct (IH Hc) as (x & ? & ?); exists x; set_solver|].
  rewrite elem_of_cons. intros [-> |Hc]; [exists e; set_solver|destruct (IH Hc) as (x & ? & ?); exists x; set_solver].
Qed.

Lemma idle_remaining g rel rem out :
  idle g rel rem out ->
  List.filter (after P0) (chg (rel ++ rem)) = out ++ List.filter (after (position g)) (chg (rel ++ rem)).
Proof.
  intros [Hset Hd ->]. rewrite changes_app. cbn [fst]. rewrite !List.filter_app. f_equal.
  destruct Hset as [_ [[-> _ Hrel]|[_ _ Hrel Hrem Hlater]]].
  - rewrite (kept_none (after P0) (chg rel)); [done|]. by apply (changes_places _ _ _ false).
  - rewrite (kept_none (after (position g)) (chg rel)) by (by apply (changes_places _ _ _ false)).
    cbn [app]. by rewrite !kept_all by (by apply (changes_places _ _ _ true)).
Qed.

(** *** The entries of a record *)

Lemma logged_sorted d : decodable scope maxDepth EloqDoc (LData d) -> StronglySorted pos_lt (logged_entries scope d).
Proof.
  intros [Hl [es He]]. unfold logged_entries. rewrite He. rewrite decodeBlob_Ref in He by done.
  by apply parse_sections_all in He as [_ ?].
Qed.

(** Entries up to a position, and beyond it. *)
Lemma consumed_at e x :
  consumed_through (Some (e_section e, e_entry e)) x = true <-> ~ pos_lt e x.
Proof.
  unfold consumed_through, pos_lt. split.
  - intros H%orb_true_iff. destruct H as [H%Z.ltb_lt|H%andb_true_iff]; [lia|].
    destruct H as [H1%Z.eqb_eq H2%Z.leb_le]. lia.
  - intros H. apply orb_true_iff. destruct (Z.ltb_spec (e_section x) (e_section e)); [by left|right].
    apply andb_true_iff. split; [apply Z.eqb_eq; lia|apply Z.leb_le; lia].
Qed.

Lemma consumed_later through e x :
  pos_lt e x -> consumed_through through e = false -> consumed_through through x = false.
Proof.
  unfold consumed_through, pos_lt. destruct through as [[s n]|]; [|done].
  intros Hlt H. apply orb_false_iff in H as [H1%Z.ltb_ge H2%andb_false_iff].
  apply orb_false_iff. split; [apply Z.ltb_ge; lia|]. apply andb_false_iff.
  destruct H2 as [H2%Z.eqb_neq|H2%Z.leb_gt]; [left; apply Z.eqb_neq; lia|].
  destruct (Z.eq_dec (e_section x) s); [right; apply Z.leb_gt; lia|left; by apply Z.eqb_neq].
Qed.

Lemma sorted_before pre e left x :
  StronglySorted pos_lt ((pre ++ [e]) ++ left) -> x ∈ pre ++ [e] -> ~ pos_lt e x.
Proof.
  intros H Hx. apply StronglySorted_app in H as (_ & H & _). apply StronglySorted_app in H as (Hlt & _ & _).
  apply elem_of_app in Hx as [Hx|Hx].
  - specialize (Hlt x e Hx ltac:(set_solver)). unfold pos_lt in *. lia.
  - apply list_elem_of_singleton in Hx as ->. unfold pos_lt. lia.
Qed.

Lemma sorted_after pre e left x :
  StronglySorted pos_lt ((pre ++ [e]) ++ left) -> x ∈ left -> pos_lt e x.
Proof.
  intros H Hx. apply StronglySorted_app in H as (Hlt & _ & _). apply Hlt; [set_solver|done].
Qed.

(** The cursor of a group within a record. *)
Lemma within_position g d e :
  wf_record (LData d) -> within g d e ->
  (forall x, rec_lt x (LData d) -> place (position g) x = Before) /\
  (forall x, rec_lt (LData d) x -> place (position g) x = After) /\
  (forall x, after (position g) (CData d x) = negb (consumed_through (Some (e_section e, e_entry e)) x)).
Proof.
  intros Hd [Hc Hk Hp Hs He Hddl]. unfold position. rewrite Hc. cbn [place].
  pose proof (fun x => place_data (cursor_entry id g) d x Hd ltac:(cbn; done) ltac:(cbn; done)) as Hpl.
  split_and!.
  - intros x Hx. by apply (Hpl x).
  - intros x Hx. by apply (Hpl x).
  - intros x. destruct (Hpl (LData d)) as (_ & _ & Hat). cbn [after ch_record]. rewrite Hat.
    cbn [cursor_entry te_form te_section te_entry]. rewrite Hp. cbn. by rewrite Hs, He.
Qed.

Lemma chg_within rel' d rem before left :
  logged_entries scope d = before ++ left ->
  exists D, chg (rel' ++ LData d :: rem) =
    (chg rel' ++ (fresh d (ded rel') before).1) ++
    ((fresh d (fresh d (ded rel') before).2 left).1 ++ (all_changes D rem).1).
Proof.
  intros E. rewrite changes_app. cbn [fst changes record_changes]. rewrite E, fresh_entries_app.
  destruct (fresh d (ded rel') before) as [c1 d1]. cbn. destruct (fresh d d1 left) as [c2 d2]. cbn.
  exists d2. destruct (all_changes d2 rem) as [c3 d3]. cbn. by rewrite <- !app_assoc.
Qed.

(** Records after one to be reported are to be reported. *)
Lemma later_records r rem :
  wf_history (r :: rem) -> place P0 r <> Before -> Forall (fun x => place P0 x = After) rem.
Proof.
  intros [Hw Hs] Hr. apply StronglySorted_inv in Hs as [_ Hs]. apply Forall_cons in Hw as [Hwr Hw].
  rewrite Forall_forall in Hs |- *. intros x Hx. pose proof (Hs x Hx) as Hlt.
  destruct P0 as [ts|e0]; cbn [place] in *.
  - apply rec_lt_ts in Hlt. destruct (Z.ltb_spec (rec_ts r) ts); [done|].
    by rewrite (proj2 (Z.ltb_ge _ _)) by lia.
  - eapply place_later; [done| |done|done]. by apply (proj1 (Forall_forall _ _) Hw).
Qed.

Lemma producing_remaining g c rel rem out rel' d before left :
  wf_history (rel ++ rem) -> decodable scope maxDepth EloqDoc (LData d) ->
  producing g c rel rem out rel' d before left -> before <> [] ->
  List.filter (after P0) (chg (rel ++ rem)) = out ++ List.filter (after (position g)) (chg (rel ++ rem)).
Proof.
  intros Hh Hdec [-> Hk Hts Htx Hdk Hy Hes Hdd -> Hpl Hth _ Hcur] Hne.
  destruct Hcur as [[-> _]|(pre & e & -> & Hin & Hprod)]; [done|].
  pose proof (logged_sorted d Hdec) as Hsort. rewrite Hes in Hsort.
  replace ((rel' ++ [LData d]) ++ rem) with (rel' ++ LData d :: rem) in * by (by rewrite <- app_assoc).
  destruct Hh as [Hw Hsrt].
  assert (wf_record (LData d)) as Hd by (rewrite Forall_forall in Hw; apply Hw; set_solver).
  destruct (within_position g d e Hd Hin) as (Hb & Ha & Hin').
  pose proof Hsrt as (Hrel & _ & Hrem)%StronglySorted_app. apply StronglySorted_inv in Hrem as [_ Hrem].
  destruct (chg_within rel' d rem (pre ++ [e]) left Hes) as [D ->].
  rewrite (List.filter_app (after P0)), (List.filter_app (after (position g))). f_equal.
  rewrite (kept_none (after (position g))).
  2: { apply Forall_app. split.
       - apply (changes_places _ _ _ false). apply Forall_forall. intros x Hx. apply Hb, Hrel; set_solver.
       - apply Forall_forall. intros x Hx. apply fresh_record in Hx as (y & Hy' & ->). rewrite Hin'.
         apply negb_false_iff, consumed_at. by eapply sorted_before. }
  cbn [app]. rewrite !kept_all; [done|..].
  - apply Forall_app. split.
    + apply Forall_forall. intros x Hx. apply fresh_record in Hx as (y & Hy' & ->). rewrite Hin'.
      apply negb_true_iff, not_true_is_false. intros Hc%consumed_at. by eapply Hc, sorted_after.
    + apply (changes_places _ _ _ true). apply Forall_forall. intros x Hx. apply Ha.
      by apply (proj1 (Forall_forall _ _) Hrem).
  - apply Forall_app. split.
    + apply Forall_forall. intros x Hx. apply fresh_record in Hx as (y & Hy' & ->).
      rewrite after_place in *. cbn [ch_record] in *. destruct (place P0 (LData d)); [done| |done].
      cbn [kept] in *. apply negb_true_iff. apply negb_true_iff in Hprod.
      eapply consumed_later; [by eapply sorted_after|done].
    + apply (changes_places _ _ _ true). apply (later_records (LData d)); [|done].
      split; [apply Forall_app in Hw as [_ Hw]; exact Hw|].
      apply StronglySorted_app in Hsrt as (_ & _ & Hs). exact Hs.
Qed.


(** *** Taking a record *)

(** What is left to skip at a timestamp. *)
Definition skip_at (g : EGroup) (ts : Z) : option ResumeSkip :=
  match eg_skip g with Some k => if k_ts k <? ts then None else Some k | None => None end.

Lemma skip_at_cases g rem r :
  skips g (r :: rem) -> position_ts P0 <= rec_ts r ->
  (exists e, P0 = PEntry e /\ skip_at g (rec_ts r) = Some (skip_of e) /\ rec_ts r = entry_ts e) \/
  (skip_at g (rec_ts r) = None /\ place P0 r = After).
Proof.
  intros Hs Hts. unfold skip_at. destruct Hs as [-> |[-> Hall]].
  - destruct P0 as [ts|e]; cbn [skip_for position_ts place] in *.
    + right. split; [done|]. by rewrite (proj2 (Z.ltb_ge _ _)) by lia.
    + change (k_ts (skip_of e)) with (entry_ts e). destruct (Z.ltb_spec (entry_ts e) (rec_ts r)) as [Hlt|].
      * right. split; [done|]. by apply place_gt.
      * left. exists e. split_and!; [done|done|lia].
  - right. split; [done|]. by apply Forall_cons in Hall as [? _].
Qed.

Lemma skip_of_data e d :
  dr_commit_ts d = entry_ts e ->
  (producedBefore (skip_of e) (dataKey d) = true <-> record_place e (LData d) = Before) /\
  (record_place e (LData d) <> Before ->
   (if bytes_eqb (dataKey d) (k_dataKey (skip_of e)) then Some (k_section (skip_of e), k_entry (skip_of e)) else None)
     = through_of (PEntry e) (LData d)).
Proof.
  intros Hts. unfold producedBefore, skip_of, record_place, through_of, record_place.
  cbn [k_ddlAtTs k_dataAtTs k_dataKey k_atPosition k_section k_entry rec_ts].
  fold (entry_ts e). rewrite Hts, Z.ltb_irrefl.
  assert ((keyTimestamp (te_ddlKey e) =? entry_ts e) = false ->
    (keyTimestamp (te_dataKey e) =? entry_ts e) = true) as Hmax.
  { unfold entry_ts. rewrite Z.eqb_neq, Z.eqb_eq. lia. }
  destruct (keyTimestamp (te_ddlKey e) =? entry_ts e); cbn [orb].
  { split; [done|]. intros []; done. }
  rewrite Hmax by done. cbn [orb negb].
  destruct (bytes_ltb (dataKey d) (te_dataKey e)) eqn:El; cbn [orb]; [split; [done|]; intros []; done|].
  destruct (bytes_eqb (dataKey d) (te_dataKey e)); cbn [andb]; [|done].
  by destruct (bool_decide (te_form e = kAtKeyAfterPosition)).
Qed.

Lemma skip_of_ddl e d :
  lr_ddl_ts d = entry_ts e ->
  k_ddlAtTs (skip_of e) && bytes_leb (ddlKey d) (k_ddlKey (skip_of e)) =
    match record_place e (LDdl d) with Before => true | _ => false end.
Proof.
  intros Hts. unfold skip_of, record_place. cbn [k_ddlAtTs k_ddlKey rec_ts]. fold (entry_ts e).
  rewrite Hts, Z.ltb_irrefl. by destruct (_ && _).
Qed.

Lemma place_ddl_cases p d : place p (LDdl d) = Before \/ place p (LDdl d) = After.
Proof.
  destruct p as [ts|e]; cbn [place].
  - destruct (_ <? _); auto.
  - unfold record_place. destruct (_ <? _); [auto|]. destruct (_ <? _); [auto|]. destruct (_ && _); auto.
Qed.

Lemma set_skip_position g k : position (set_skip k g) = position g.
Proof. done. Qed.

Lemma skip_at_settled g rel r rem :
  wf_history (r :: rem) -> settled g rel (r :: rem) -> position_ts P0 <= rec_ts r ->
  settled (set_skip (skip_at g (rec_ts r)) g) rel (r :: rem).
Proof.
  intros Hh [Hs Hc] Hts. split.
  - destruct (skip_at_cases g rem r Hs Hts) as [(e & EP & Hk & _)|[Hk Hp]].
    + left. unfold set_skip. cbn [eg_skip]. rewrite Hk. by rewrite EP.
    + right. unfold set_skip. cbn [eg_skip]. split; [done|]. constructor; [done|].
      eapply later_records; [done|]. by rewrite Hp.
  - destruct Hc as [[H1 H2 H3]|[H1 H2 H3 H4 H5]]; [left|right]; split; done.
Qed.

(** A record at or below the resume point is taken without a report. *)
Lemma settled_before g rel r rem :
  settled g rel (r :: rem) -> place P0 r = Before ->
  untouched g rel /\ settled g (rel ++ [r]) rem.
Proof.
  intros [Hs Hc] Hp. destruct Hc as [Hu|[_ _ _ _ Hl]].
  2: { apply Forall_cons in Hl as [Hl _]. congruence. }
  split; [done|]. destruct Hu as [H1 H2 H3]. split.
  - destruct Hs as [Hs|[Hs Hl]]; [by left|]. apply Forall_cons in Hl as [Hl _]. congruence.
  - left. split; [done|done|]. apply Forall_app. split; [done|]. by constructor.
Qed.

Lemma idle_skipped g g' rel r rem out :
  idle g rel (r :: rem) out -> place P0 r = Before -> settled g' rel (r :: rem) ->
  eg_dedup g' = (record_changes scope limit maxDepth EloqDoc (ded rel) r).2 ->
  idle g' (rel ++ [r]) rem out.
Proof.
  intros [Hs Hd Ho] Hp Hs' Hd'. split.
  - by apply settled_before.
  - rewrite changes_app. cbn [changes snd].
    destruct (record_changes _ _ _ _ (ded rel) r) as [cs d1]. done.
  - rewrite Ho, changes_app. cbn [fst]. rewrite List.filter_app.
    rewrite (kept_none _ (all_changes (ded rel) [r]).1); [by rewrite app_nil_r|].
    apply (changes_places _ _ _ false). by constructor.
Qed.

(** The place of the next record, seen from the cursor. *)
Lemma settled_place g rel r rem :
  settled g rel (r :: rem) -> place P0 r <> Before -> place (position g) r <> Before.
Proof.
  intros [_ [[-> _ _]|[_ _ _ H _]]] Hp; [done|]. apply Forall_cons in H as [-> _]. done.
Qed.

Lemma settled_dataKey g rel r rem :
  wf_record r -> settled g rel (r :: rem) -> place P0 r <> Before ->
  keyTimestamp (eg_dataKey g) <= rec_ts r /\ keyTimestamp (eg_ddlKey g) <= rec_ts r.
Proof.
  intros Hw Hs Hp. pose proof (settled_place _ _ _ _ Hs Hp) as Hpl. unfold position in Hpl.
  destruct (eg_hasCursor g) eqn:Ec.
  - apply place_ts in Hpl. unfold entry_ts in Hpl. cbn in Hpl. lia.
  - destruct Hs as [_ [[_ H _]|[H _ _ _ _]]]; [|congruence]. destruct (H Ec) as (_ & -> & ->).
    destruct Hw as [Hw _]. change (keyTimestamp []) with 0. lia.
Qed.

Lemma settled_ddlKey g rel d rem :
  wf_record (LData d) -> settled g rel (LData d :: rem) -> place P0 (LData d) <> Before ->
  keyTimestamp (eg_ddlKey g) < dr_commit_ts d.
Proof.
  intros Hw Hs Hp. pose proof (settled_place _ _ _ _ Hs Hp) as Hpl. unfold position in Hpl.
  destruct (eg_hasCursor g) eqn:Ec.
  - by apply place_data_ddlKey in Hpl.
  - destruct Hs as [_ [[_ H _]|[H _ _ _ _]]]; [|congruence]. destruct (H Ec) as (_ & _ & ->).
    destruct Hw as [Hw _]. cbn [rec_ts] in Hw. change (keyTimestamp []) with 0. lia.
Qed.

(** A DDL record beyond the resume point moves the cursor to it. *)
Definition at_ddl (g : EGroup) (key : bytes) : EGroup :=
  mkEGroup true (eg_dataKey g) key (eg_partial g) (eg_section g) (eg_entry g) (eg_dedup g) None.

Lemma idle_ddl g rel d rem out :
  wf_history (rel ++ LDdl d :: rem) -> idle g rel (LDdl d :: rem) out -> place P0 (LDdl d) <> Before ->
  position_ts P0 <= lr_ddl_ts d ->
  idle (at_ddl g (ddlKey d)) (rel ++ [LDdl d]) rem
    (out ++ match reported_ddl scope maxDepth EloqDoc d with Some c => [CDdl d c] | None => [] end).
Proof.
  intros [Hw Hsrt] [Hs Hd Ho] Hp Hts. apply Forall_app in Hw as [Hwr Hw]. apply Forall_cons in Hw as [Hwd Hwm].
  apply StronglySorted_app in Hsrt as (Hlt & _ & Hsrt).
  destruct (settled_dataKey _ _ _ _ Hwd Hs Hp) as [Hk _].
  pose proof (fun x => place_ddl (cursor_entry id (at_ddl g (ddlKey d))) d x Hwd eq_refl Hk) as Hpl.
  assert (Forall (fun r => place P0 r = After) rem) as Hl
    by (apply (later_records (LDdl d)); [split; [by constructor|done]|done]).
  assert (place P0 (LDdl d) = After) as Hpa by (destruct (place_ddl_cases P0 d); done).
  split.
  - split; [by right|]. right. split; [done| | | |done].
    + pose proof (keyTimestamp_key _ Hwd) as Hkt. cbn in Hkt. unfold cursor_ts. cbn. lia.
    + apply Forall_app. split; [|constructor; [by apply (Hpl (LDdl d))|constructor]].
      apply Forall_forall. intros x Hx. apply (Hpl x), Hlt; set_solver.
    + apply StronglySorted_inv in Hsrt as [_ Hsrt]. eapply Forall_impl; [exact Hsrt|].
      intros x Hx. by apply (Hpl x).
  - rewrite changes_app. exact Hd.
  - rewrite Ho, changes_app. cbn [fst changes record_changes]. rewrite List.filter_app, app_nil_r. f_equal.
    destruct (reported_ddl _ _ _ d) as [c|]; [|done]. cbn. rewrite after_place. cbn. by rewrite Hpa.
Qed.

(** A data record beyond the resume point, or within it, is decoded. *)
Lemma idle_data g g' c rel d rem out :
  wf_history (rel ++ LData d :: rem) -> decodable scope maxDepth EloqDoc (LData d) ->
  idle g rel (LData d :: rem) out -> place P0 (LData d) <> Before ->
  settled g' rel (LData d :: rem) -> eg_dedup g' = eg_dedup g ->
  cu_key c = dataKey d -> cu_ts c = dr_commit_ts d -> cu_txn c = dr_txn_number d ->
  cu_decoder c = newDecoder (dr_blob d) scope -> cu_consumeThrough c = through_of P0 (LData d) ->
  producing g' c (rel ++ [LData d]) rem out rel d [] (logged_entries scope d).
Proof.
  intros Hh [Hl [es He]] [Hs Hd Ho] Hp Hs' Hdd Hk Hts Htx Hdec Hth.
  assert (yields (newDecoder (dr_blob d) scope) = Ok es) as Hy.
  { rewrite decodeBlob_Ref in He by done. rewrite yields_no_entries by done. exact He. }
  split; try done.
  - rewrite Hdec. by apply newDecoder_ok.
  - rewrite Hdec, Hy. unfold logged_entries. by rewrite He.
  - cbn. by rewrite Hdd.
  - cbn. by rewrite app_nil_r.
  - destruct (se_skip _ _ _ Hs') as [H|[H Hf]]; [by left|right]. split; [done|].
    by apply Forall_cons in Hf as [_ ?].
  - by left.
Qed.

(** *** Decoding a record *)

Lemma after_kept d c :
  place P0 (LData d) <> Before -> ch_record c = LData d -> after P0 c = kept (through_of P0 (LData d)) c.
Proof.
  intros Hp Hc. rewrite after_place, Hc. destruct (place P0 (LData d)) eqn:E; [done|done|].
  destruct P0 as [ts|e]; cbn [place through_of] in *; [by destruct c|]. rewrite E. by destruct c.
Qed.

Lemma filter_fresh d dd es :
  place P0 (LData d) <> Before ->
  List.filter (after P0) (fresh d dd es).1 = List.filter (kept (through_of P0 (LData d))) (fresh d dd es).1.
Proof.
  intros Hp. assert (forall c, c ∈ (fresh d dd es).1 -> ch_record c = LData d) as Hc.
  { intros c Hc. by apply fresh_record in Hc as (e & _ & ->). }
  revert Hc. generalize (fresh d dd es).1 as l. induction l as [|c l IH]; intros Hc; [done|]. cbn.
  rewrite (after_kept d c Hp) by (apply Hc; set_solver). rewrite IH by (intros; apply Hc; set_solver). done.
Qed.

Lemma producing_ddlKey g c rel rem out rel' d before left :
  wf_record (LData d) -> producing g c rel rem out rel' d before left ->
  keyTimestamp (eg_ddlKey g) < dr_commit_ts d.
Proof.
  intros Hw [_ _ _ _ _ _ _ _ _ Hp _ _ [[_ Hs]|(pre & e & _ & Hin & _)]]; [|apply Hin].
  by eapply settled_ddlKey.
Qed.

Definition at_entry (g : EGroup) (key : bytes) (e : Entry) (dd : Dedup) : EGroup :=
  mkEGroup true key (eg_ddlKey g) true (e_section e) (e_entry e) dd (eg_skip g).

Lemma producing_event g c rel rem out rel' d before e pre rest decoder dd :
  wf_record (LData d) -> producing g c rel rem out rel' d before (pre ++ e :: rest) ->
  decoder_ok decoder -> yields decoder = Ok rest ->
  consumed_through (through_of P0 (LData d)) e = false ->
  fresh d (eg_dedup g) (pre ++ [e]) = ((fresh d (eg_dedup g) pre).1 ++ [CData d e], dd) ->
  List.filter (kept (through_of P0 (LData d))) (fresh d (eg_dedup g) pre).1 = [] ->
  producing (at_entry g (cu_key c) e dd)
    (mkCurrent (cu_record c) (cu_key c) (cu_ts c) (cu_txn c) decoder (cu_consumeThrough c))
    rel rem (out ++ [CData d e]) rel' d (before ++ pre ++ [e]) rest.
Proof.
  intros Hw Hp Hok Hy Hc Hfr Hpre. pose proof (producing_ddlKey _ _ _ _ _ _ _ _ _ Hw Hp) as Hddl.
  destruct Hp as [Hrel Hk Hts Htx _ _ Hes Hdd Hout Hpl Hth Hsk _].
  assert (after P0 (CData d e) = true) as Hafter by (rewrite (after_kept d) by done; cbn; by rewrite Hc).
  split; try done.
  - by rewrite Hes, <- !app_assoc.
  - rewrite fresh_entries_app, <- Hdd, Hfr. done.
  - rewrite Hout, fresh_entries_app, <- Hdd, Hfr. cbn [fst].
    rewrite !List.filter_app, (filter_fresh d (eg_dedup g) pre Hpl), Hpre. cbn [List.filter app].
    by rewrite Hafter, <- app_assoc.
  - right. exists (before ++ pre), e. split_and!; [by rewrite <- app_assoc| |done]. by split.
Qed.

Definition at_record (g : EGroup) (key : bytes) (dd : Dedup) : EGroup :=
  mkEGroup true key (eg_ddlKey g) false (eg_section g) (eg_entry g) dd (eg_skip g).

Lemma producing_end g c rel rem out rel' d before left dd :
  wf_history (rel ++ rem) -> producing g c rel rem out rel' d before left -> position_ts P0 <= dr_commit_ts d ->
  dd = (fresh d (eg_dedup g) left).2 ->
  List.filter (kept (through_of P0 (LData d))) (fresh d (eg_dedup g) left).1 = [] ->
  idle (at_record g (cu_key c) dd) rel rem out.
Proof.
  intros Hh Hp Hfrom -> Hleft.
  assert (rel ++ rem = rel' ++ LData d :: rem) as Erel by (rewrite (pr_rel _ _ _ _ _ _ _ _ _ Hp); by rewrite <- app_assoc).
  rewrite Erel in Hh. destruct Hh as [Hw Hsrt]. apply Forall_app in Hw as [Hwr Hw].
  pose proof Hw as [Hwd Hwm]%Forall_cons. apply StronglySorted_app in Hsrt as (Hlt & _ & Hsrt).
  pose proof (producing_ddlKey _ _ _ _ _ _ _ _ _ Hwd Hp) as Hddl.
  destruct Hp as [Hrel Hk Hts Htx _ _ Hes Hdd Hout Hpl Hth Hsk _].
  pose proof (fun x => place_data (cursor_entry id (at_record g (cu_key c) (fresh d (eg_dedup g) left).2)) d x Hwd Hk Hddl)
    as Hplace. split.
  - split; [exact Hsk|]. right. split; [done| | | |].
    + pose proof (keyTimestamp_key _ Hwd) as Hkt. cbn in Hkt. unfold cursor_ts. cbn. rewrite Hk. lia.
    + rewrite Hrel. apply Forall_app. split; [|constructor; [by apply (Hplace (LData d))|constructor]].
      apply Forall_forall. intros x Hx. apply (Hplace x), Hlt; set_solver.
    + apply StronglySorted_inv in Hsrt as [_ Hsrt]. eapply Forall_impl; [exact Hsrt|].
      intros x Hx. by apply (Hplace x).
    + apply (later_records (LData d)); [by split|done].
  - rewrite Hrel, changes_app. cbn [changes record_changes snd]. rewrite Hes, fresh_entries_app, <- Hdd. done.
  - rewrite Hout, Hrel, changes_app. cbn [fst changes record_changes].
    rewrite Hes, fresh_entries_app, <- Hdd, app_nil_r. cbn [fst]. rewrite !List.filter_app. f_equal.
    rewrite (filter_fresh d (eg_dedup g) left Hpl), Hleft. by rewrite app_nil_r.
Qed.
End Group.

(** ** The token of a stream *)

Definition token_entry (coveredThrough : Z) (p : Z * EGroup) : option CdcResumeTokenEntry :=
  if negb (eg_hasCursor p.2) || (cursor_ts p.2 <=? coveredThrough) then None
  else Some (cursor_entry p.1 p.2).

Lemma entries_omap st cov : entries st cov = omap (token_entry cov) (groups_in_order st).
Proof. unfold entries. induction (groups_in_order st) as [|[id g] l IH]; [done|]. cbn. by rewrite IH. Qed.

Lemma entryFor_omap cov l id :
  NoDup l.*1 ->
  (forall g, (id, g) ∈ l -> entryFor (omap (token_entry cov) l) id = token_entry cov (id, g)) /\
  (id ∉ l.*1 -> entryFor (omap (token_entry cov) l) id = None).
Proof.
  induction l as [|[k h] l IH]; intros Hnd; [split; [set_solver|done]|].
  cbn in Hnd. apply NoDup_cons in Hnd as [Hk Hnd]. destruct (IH Hnd) as [IH1 IH2]. cbn [omap list_omap].
  assert (forall e, token_entry cov (k, h) = Some e -> te_logGroupId e = k) as He.
  { intros e. unfold token_entry. destruct (_ || _); [done|]. by intros [= <-]. }
  split.
  - intros g Hg. apply elem_of_cons in Hg as [[= <- <-]|Hg].
    + destruct (token_entry cov (id, g)) as [e|] eqn:E; [|by apply IH2]. cbn.
      rewrite (He e eq_refl), Z.eqb_refl. done.
    + assert (k <> id) by (intros ->; apply Hk; by apply (list_elem_of_fmap_2 fst) in Hg).
      destruct (token_entry cov (k, h)) as [e|] eqn:E; [|by apply IH1]. cbn.
      rewrite (He e eq_refl), (proj2 (Z.eqb_neq _ _)) by done. by apply IH1.
  - cbn. rewrite not_elem_of_cons. intros [Hne Hn].
    destruct (token_entry cov (k, h)) as [e|] eqn:E; [|by apply IH2]. cbn.
    rewrite (He e eq_refl), (proj2 (Z.eqb_neq _ _)) by done. by apply IH2.
Qed.

Lemma entryFor_entries st cov id :
  entryFor (entries st cov) id =
    if negb (eg_hasCursor (group_at st id)) || (cursor_ts (group_at st id) <=? cov) then None
    else Some (cursor_entry id (group_at st id)).
Proof.
  rewrite entries_omap. unfold groups_in_order.
  pose proof (merge_sort_Permutation group_le (map_to_list (es_groups st))) as Hp.
  destruct (entryFor_omap cov (merge_sort group_le (map_to_list (es_groups st))) id) as [H1 H2].
  { rewrite Hp. apply NoDup_fst_map_to_list. }
  unfold group_at. destruct (es_groups st !! id) as [g|] eqn:E; cbn [default].
  - apply H1. rewrite Hp. by apply elem_of_map_to_list.
  - apply H2. rewrite Hp. intros Hin. apply list_elem_of_fmap in Hin as ([k g] & -> & Hin).
    apply elem_of_map_to_list in Hin. cbn in E. congruence.
Qed.

(** ** Phases *)

(** The invalidate token of the event that had this token. *)
Definition as_invalidate (t : CdcResumeToken) : CdcResumeToken :=
  mkToken (tok_timestamp t) kInvalidate (tok_entries t).

(** Reporting; the watched collection was dropped and the invalidate is to come; after it. *)
Inductive Phase := Running | Dropped (t : CdcResumeToken) (ns : bytes) | Ended (t : CdcResumeToken).

Definition phase_ok (st : CdcEventStream) (ph : Phase) : Prop :=
  match ph with
  | Running => es_invalidated st = false /\ es_pendingInvalidate st = None
  | Dropped t ns => es_invalidated st = false /\
      exists doc, es_pendingInvalidate st = Some doc /\ invalidateEvent t ns = Ok doc
  | Ended t => es_invalidated st = true /\ toBSON t = Ok (es_invalidateToken st)
  end.

(** The phase after a change is reported with a token. *)
Definition phase_after (scope : CdcStreamScope) (t : CdcResumeToken) (c : Change) : Phase :=
  match c with
  | CDdl _ x => if dc_dropsCollection x && isCollection scope (dc_ns x)
                then Dropped (as_invalidate t) (dc_ns x) else Running
  | CData _ _ => Running
  end.

(** Every cursor is of a group of the stream, with a position of the width a token holds. *)
Definition cursors_ok (ids : list Z) (m : gmap Z EGroup) : Prop :=
  forall id g, m !! id = Some g -> id ∈ ids /\ is_u32 (eg_section g) /\ is_u32 (eg_entry g).

Lemma cursors_insert ids m id g :
  cursors_ok ids m -> id ∈ ids -> is_u32 (eg_section g) -> is_u32 (eg_entry g) ->
  cursors_ok ids (<[id := g]> m).
Proof.
  intros H Hid Hs He k h Hk. destruct (decide (k = id)) as [-> |Hne].
  - rewrite lookup_insert_eq in Hk. by injection Hk as <-.
  - rewrite lookup_insert_ne in Hk by done. by apply H.
Qed.

Lemma cursors_at ids st id :
  cursors_ok ids (es_groups st) -> is_u32 (eg_section (group_at st id)) /\ is_u32 (eg_entry (group_at st id)).
Proof.
  intros H. unfold group_at. destruct (es_groups st !! id) as [g|] eqn:E; [apply (H id g E)|].
  unfold is_u32. cbn. lia.
Qed.

(** *** Positions fit their width *)

Lemma parse_entries_width fuel sec ns : forall ord s es,
  Ref.parse_entries fuel sec ns ord s = Ok es ->
  Forall (fun e => e_section e = sec /\ ord <= e_entry e < ord + Z.of_nat fuel) es.
Proof.
  induction fuel as [|fuel IH]; intros ord [|b s] es H; cbn -[Ref.parse_entry] in H; simplify_eq;
    try (by constructor).
  ok_inv H. destruct a as [[[op key] record] s']. ok_inv H. injection H as <-. constructor.
  - cbn -[Z.of_nat]. lia.
  - eapply Forall_impl; [by eapply IH|]. cbn -[Z.of_nat]. lia.
Qed.

Lemma parse_sections_width fuel scope : forall i s es,
  Ref.parse_sections fuel scope i s = Ok es ->
  Forall (fun e => i <= e_section e < i + Z.of_nat fuel /\ 0 <= e_entry e < blen s) es.
Proof.
  induction fuel as [|fuel IH]; intros i [|b s] es H; cbn -[Ref.parse_section] in H; simplify_eq;
    try (by constructor).
  ok_inv H. destruct a as [x s']. ok_inv H. ok_inv H. injection H as <-.
  pose proof (parse_section_body _ _ _ E) as Hb. apply Forall_app. split.
  - unfold Ref.section_entries in E0. destruct (Ref.wanted scope x); [|injection E0 as <-; constructor].
    eapply Forall_impl; [by eapply parse_entries_width|]. intros e [? ?]. unfold blen in *. lia.
  - eapply Forall_impl; [by eapply IH|]. intros e [? ?]. unfold blen in *. lia.
Qed.

Lemma logged_width scope maxDepth EloqDoc d e :
  decodable scope maxDepth EloqDoc (LData d) -> e ∈ logged_entries scope d ->
  is_u32 (e_section e) /\ is_u32 (e_entry e).
Proof.
  intros [Hl [es He]] Hin. unfold logged_entries in Hin. rewrite He in Hin. rewrite decodeBlob_Ref in He by done.
  apply parse_sections_width in He. apply (proj1 (Forall_forall _ _) He) in Hin. unfold is_u32, blen in *. lia.
Qed.

(** ** The stream *)

Section Stream.

Context {env : Env} `{!ScanContract env} (decodeIdKey : bytes -> result Document) (maxDepth EloqDoc : Z).

(** What the stream covers, its groups, and where each was opened. *)
Context (scope : CdcStreamScope) (limit : Z) (ids : list Z) (P0 : Z -> Position).

(** Every position is at or above one start: the token's own, for groups it gives no entry. *)
Context (start : Z)
  (Hstart : forall id, id ∈ ids -> P0 id = PFrom start \/ exists e, P0 id = PEntry e /\ start <= entry_ts e).

(** The log's records decode. *)
Context (Hdec : forall id r, r ∈ sc_history id -> decodable scope maxDepth EloqDoc r).

Definition opened_at (id : Z) : Z := position_ts (P0 id).

(** The record being decoded, if it is the group's. *)
Definition current_of (st : CdcEventStream) (id : Z) : option Current :=
  match es_current st with
  | Some c => if sr_logGroupId (cu_record c) =? id then Some c else None
  | None => None
  end.

(** The group's log from its start is what was taken and what is left; and its state is that of a
    group that has reported [out]. *)
Definition group_inv (rel : Z -> list LogRecord) (out : Z -> list Change) (st : CdcEventStream) (id : Z) : Prop :=
  exists rem, stream opened_at id = rel id ++ rem /\
    group_state scope limit maxDepth EloqDoc id (P0 id) (group_at st id) (current_of st id) (rel id) rem (out id).

Record stream_inv (rel : Z -> list LogRecord) (lastTs : Z) (out : Z -> list Change) (st : CdcEventStream) : Prop := {
  si_source : source_ok opened_at rel lastTs (es_source st);
  si_ids : s_logGroupIds (es_source st) = ids;
  si_scope : es_scope st = scope;
  si_limit : eo_dedupSetBytes (es_options st) = limit;
  si_groups : forall id, id ∈ ids -> group_inv rel out st id;
  si_current : forall c, es_current st = Some c -> sr_logGroupId (cu_record c) ∈ ids /\ cu_ts c = lastTs;
}.

Definition out_add (id : Z) (c : Change) (out : Z -> list Change) : Z -> list Change :=
  fun k => if k =? id then out k ++ [c] else out k.

(** The event of a change, given its token. *)
Definition change_event (token : CdcResumeToken) (c : Change) : result Document :=
  match c with
  | CData r e => event_document decodeIdKey token (dr_commit_ts r) e
  | CDdl r x => ddl_document token (lr_ddl_ts r) x
  end.

(** The token of an event at [ts], of a stream that has just reported it. *)
Definition token_at (st : CdcEventStream) (ts : Z) : CdcResumeToken :=
  mkToken ts kEvent (entries st (wrap64 (ts - 1))).

(** *** Frames *)

Lemma group_at_insert st id g k :
  group_at (with_group st id g) k = if decide (k = id) then g else group_at st k.
Proof.
  unfold group_at, with_group. cbn. destruct (decide (k = id)) as [-> |Hne].
  - by rewrite lookup_insert_eq.
  - by rewrite lookup_insert_ne.
Qed.

Lemma source_split rel lastTs s id :
  source_ok opened_at rel lastTs s -> id ∈ s_logGroupIds s ->
  exists rem, stream opened_at id = rel id ++ rem /\ Forall (fun r => lastTs <= rec_ts r) rem.
Proof.
  intros H Hid. destruct (stream_prefix env opened_at rel lastTs s id H Hid) as (g & buf & _ & <- & Hg).
  exists (buf ++ unfetched g). split; apply Hg.
Qed.

(** A step that concerns one group. *)
Lemma inv_update rel lastTs out st rel' lastTs' out' st' id :
  stream_inv rel lastTs out st -> id ∈ ids ->
  source_ok opened_at rel' lastTs' (es_source st') -> s_logGroupIds (es_source st') = ids ->
  es_scope st' = scope -> eo_dedupSetBytes (es_options st') = limit ->
  (forall c, es_current st = Some c -> sr_logGroupId (cu_record c) = id) ->
  (forall c, es_current st' = Some c -> sr_logGroupId (cu_record c) = id /\ cu_ts c = lastTs') ->
  (forall k, k <> id -> rel' k = rel k /\ out' k = out k /\ group_at st' k = group_at st k) ->
  group_inv rel' out' st' id -> stream_inv rel' lastTs' out' st'.
Proof.
  intros H Hid Hsrc Hi Hs Hl Hc Hc' Hfr Hg. split; try done.
  - intros k Hk. destruct (decide (k = id)) as [-> |Hne]; [done|].
    destruct (Hfr k Hne) as (Er & Eo & Eg). destruct (si_groups _ _ _ _ H k Hk) as (rem & Hsp & Hst).
    exists rem. rewrite Er, Eo, Eg. split; [done|].
    assert (current_of st k = None) as E1.
    { unfold current_of. destruct (es_current st) as [c|] eqn:E; [|done].
      by rewrite (Hc c eq_refl), (proj2 (Z.eqb_neq _ _)). }
    assert (current_of st' k = None) as E2.
    { unfold current_of. destruct (es_current st') as [c|] eqn:E; [|done].
      by rewrite (proj1 (Hc' c eq_refl)), (proj2 (Z.eqb_neq _ _)). }
    by rewrite E2, <- E1.
  - intros c Ec. destruct (Hc' c Ec) as [-> ?]. done.
Qed.

Lemma stream_wf_at id : wf_history (stream opened_at id).
Proof. apply records_from_wf, sc_wf. Qed.

Lemma taken_decodes rel rem id r :
  stream opened_at id = rel ++ rem -> r ∈ rel ++ rem ->
  decodable scope maxDepth EloqDoc r /\ opened_at id <= rec_ts r.
Proof.
  intros E Hr. rewrite <- E in Hr. apply list_elem_of_In, filter_In in Hr as [Hr Hts].
  apply Z.leb_le in Hts. split; [|done]. by eapply Hdec, list_elem_of_In.
Qed.

(** *** A round that decodes *)

(** The token resumed at is kept, and no drop of its own is added to those to be met. *)
Definition same_resume (st st' : CdcEventStream) : Prop :=
  es_resumedFrom st' = es_resumedFrom st /\
  forall id key, es_ownDropKeys st' !! id = Some key -> es_ownDropKeys st !! id = Some key.

Lemma next_current_spec rel lastTs out st c ev st' :
  stream_inv rel lastTs out st -> es_current st = Some c ->
  next_current decodeIdKey st c = Ok (ev, st') ->
  es_source st' = es_source st /\ same_resume st st' /\
  (forall ph, phase_ok st ph -> phase_ok st' ph) /\
  (cursors_ok ids (es_groups st) -> cursors_ok ids (es_groups st')) /\
  match ev with
  | None => stream_inv rel lastTs out st' /\ es_current st' = None
  | Some doc => exists x, stream_inv rel lastTs (out_add (sr_logGroupId (cu_record c)) x out) st' /\
      rec_ts (ch_record x) = lastTs /\ change_event (token_at st' lastTs) x = Ok doc /\
      (phase_ok st Running -> phase_ok st' (phase_after scope (token_at st' lastTs) x))
  end.
Proof.
  intros H Ec Hn. set (id := sr_logGroupId (cu_record c)).
  destruct (si_current _ _ _ _ H c Ec) as [Hid Hts]. fold id in Hid.
  destruct (si_groups _ _ _ _ H id Hid) as (rem & Hsp & Hst).
  assert (current_of st id = Some c) as Ecur by (unfold current_of; rewrite Ec; by rewrite Z.eqb_refl).
  rewrite Ecur in Hst. destruct Hst as (rel' & d & before & left & Hp).
  pose proof Hp as [Hrel _ Hpts Hptx Hpd Hpy Hpe _ _ _ Hpth _ _].
  assert (wf_history (rel id ++ rem)) as Hwf by (rewrite <- Hsp; apply stream_wf_at).
  assert (LData d ∈ rel id ++ rem) as Hin by (rewrite Hrel; set_solver).
  assert (wf_record (LData d)) as Hwd by (destruct Hwf as [Hw _]; by apply (proj1 (Forall_forall _ _) Hw)).
  assert (opened_at id <= dr_commit_ts d) as Hfrom 
    by exact (proj2 (taken_decodes _ _ _ _ Hsp Hin)).
  unfold next_current in Hn. fold id in Hn.
  rewrite (si_limit _ _ _ _ H), Hpts, Hptx,
    Hpth in Hn.
  destruct (produce_fresh limit d (decoder_fuel (cu_decoder c)) (through_of (P0 id) (LData d)) (cu_decoder c)
    (eg_dedup (group_at st id)) 0 0 left) as (x & dec' & dd & dups & ovf & pre & Hpr & Hpre & Hx).
  { done. } { done. } { apply decoder_fuel_enough. }
  rewrite Hpr in Hn. cbn [rbind] in Hn. destruct x as [e|].
  - destruct Hx as (rest & -> & Hok & Hy & Hct & Hfr).
    set (st1 := with_current _ _) in Hn.
    destruct (event_document _ _ _ _) as [doc|] eqn:Ed; [|done]. cbn [rbind] in Hn. injection Hn as <- <-.
    split_and!; [done|done|by intros []| |].
    { intros Hcu. apply cursors_insert; [done|done|apply (logged_width scope maxDepth EloqDoc d)..].
      - by eapply taken_decodes.
      - rewrite Hpe. set_solver.
      - by eapply taken_decodes.
      - rewrite Hpe. set_solver. }
    exists (CData d e).
    rewrite Hpts in Hts. split_and!; [|done|by rewrite <- Hts|done].
    pose proof (producing_event _ _ _ _ id (P0 id) _ _ _ _ _ _ _ _ e pre rest dec' dd Hwd Hp Hok Hy Hct Hfr Hpre) as Hp'.
    eapply (inv_update rel lastTs out st _ _ _ _ id); try done; try apply H.
    + intros c' Ec'. rewrite Ec in Ec'. by injection Ec' as <-.
    + cbn. intros c' [= <-]. done.
    + intros k Hk. split_and!; [done| |].
      * unfold out_add. fold id. by rewrite (proj2 (Z.eqb_neq _ _)).
      * unfold st1. change (group_at (with_current ?s ?y) k) with (group_at s k).
        rewrite group_at_insert. by rewrite decide_False.
    + exists rem. split; [done|]. unfold out_add. fold id. rewrite Z.eqb_refl.
      unfold st1 at 1. change (group_at (with_current ?s ?y) id) with (group_at s id).
      rewrite group_at_insert, decide_True by done.
      assert (current_of st1 id = Some (mkCurrent (cu_record c) (cu_key c) (dr_commit_ts d) (dr_txn_number d) dec'
        (through_of (P0 id) (LData d)))) as ->.
      { unfold current_of, st1. cbn. fold id. by rewrite Z.eqb_refl. }
      rewrite Hpts, Hptx, Hpth in Hp'. exists rel', d, (before ++ pre ++ [e]), rest. exact Hp'.
  - destruct Hx as [-> ->]. injection Hn as <- <-. split_and!; [done|done|by intros []| | |done].
    { intros Hcu. apply cursors_insert; [done|done|apply (cursors_at ids); exact Hcu..]. }
    pose proof (producing_end _ _ _ _ id (P0 id) _ _ _ _ _ _ _ _ _ _ Hwf Hp Hfrom eq_refl Hpre) as Hi.
    eapply (inv_update rel lastTs out st _ _ _ _ id); try done; try apply H.
    + intros c' Ec'. rewrite Ec in Ec'. by injection Ec' as <-.
    + intros k Hk. split_and!; [done|done|].
      change (group_at (with_current ?s ?y) k) with (group_at s k).
      rewrite group_at_insert. by rewrite decide_False.
    + exists rem. split; [done|]. change (group_at (with_current ?s ?y) id) with (group_at s id).
      rewrite group_at_insert, decide_True by done. exact Hi.
Qed.

(** *** A round that takes a record *)

(** States that differ in what no group depends on. *)
Definition same_groups (st st' : CdcEventStream) : Prop :=
  es_source st' = es_source st /\ es_groups st' = es_groups st /\ es_current st' = es_current st /\
  es_scope st' = es_scope st /\ es_options st' = es_options st /\ same_resume st st'.

(** The drop a resumed stream's own token reported, met again. *)
Definition own_drop (st : CdcEventStream) (id : Z) (key : bytes) (d : CdcDdlRecord) (st' : CdcEventStream) : Prop :=
  exists t c, es_resumedFrom st = Some t /\ es_ownDropKeys st !! id = Some key /\
    decodeCdcDdl maxDepth EloqDoc (lr_schema_op d) = Ok (Some c) /\ dc_dropsCollection c = true /\
    isCollection (es_scope st) (dc_ns c) = true /\ phase_ok st' (Dropped (as_invalidate t) (dc_ns c)).

Lemma same_resume_delete st id : same_resume st (with_ownDropKeys st (delete id (es_ownDropKeys st))).
Proof. split; [done|]. intros k key H. cbn in H. by apply lookup_delete_Some in H as [_ ?]. Qed.

Lemma skipped_ddl_same st id key d ev st' :
  skipped_ddl maxDepth EloqDoc st id key d = Ok (ev, st') ->
  ev = None /\ same_groups st st' /\ (phase_ok st Running -> phase_ok st' Running \/ own_drop st id key d st').
Proof.
  unfold skipped_ddl. intros H.
  assert (Ok (None, st) = Ok (ev, st') -> ev = None /\ same_groups st st' /\
    (phase_ok st Running -> phase_ok st' Running \/ own_drop st id key d st')) as Hid
    by (intros [= <- <-]; split_and!; [done|done|by left]).
  destruct (es_ownDropKeys st !! id) as [own|] eqn:Eo; [|by apply Hid].
  destruct (bytes_eqb own key) eqn:Ek; [|by apply Hid]. apply bytes_eqb_eq in Ek as ->.
  pose proof (same_resume_delete st id) as Hr.
  destruct (decodeCdcDdl _ _ _) as [[c|]|] eqn:Edec; cbn [rbind] in H; [| |done].
  2: { injection H as <- <-. split_and!; [done|done|by left]. }
  destruct (es_resumedFrom _) as [from|] eqn:Er; cbn in Er.
  2: { destruct (dropsWatchedCollection _ _); [done|]. injection H as <- <-. split_and!; [done|done|by left]. }
  destruct (dropsWatchedCollection _ _) eqn:Ed.
  2: { injection H as <- <-. split_and!; [done|done|by left]. }
  destruct (invalidateEvent _ _) as [inv|] eqn:Ei; cbn [rbind] in H; [|done]. injection H as <- <-.
  split_and!; [done|done|]. intros [Hi Hp]. right. apply andb_true_iff in Ed as [Ed1 Ed2].
  exists from, c. split_and!; try done. split; [done|by exists inv].
Qed.

Lemma ddlEvent_spec st ts d ev st' :
  es_scope st = scope -> ddlEvent maxDepth EloqDoc st ts d = Ok (ev, st') ->
  same_groups st st' /\
  match ev with
  | None => reported_ddl scope maxDepth EloqDoc d = None /\ (phase_ok st Running -> phase_ok st' Running)
  | Some doc => exists c, reported_ddl scope maxDepth EloqDoc d = Some c /\
      ddl_document (token_at st ts) ts c = Ok doc /\
      (phase_ok st Running -> phase_ok st' (phase_after scope (token_at st ts) (CDdl d c)))
  end.
Proof.
  intros Hs H. unfold ddlEvent in H. unfold reported_ddl.
  destruct (decodeCdcDdl _ _ _) as [[c|]|]; cbn [rbind] in H; [| |done].
  2: by injection H as <- <-.
  rewrite Hs in H. destruct (includes scope (dc_ns c)); cbn [negb] in H; [|by injection H as <- <-].
  fold (token_at st ts) in H. destruct (ddl_document (token_at st ts) ts c) as [doc|] eqn:Ed; cbn [rbind] in H; [|done].
  unfold dropsWatchedCollection in H. rewrite Hs in H. cbn [phase_after].
  destruct (dc_dropsCollection c && isCollection scope (dc_ns c)) eqn:Edrop.
  - destruct (invalidateEvent _ _) as [inv|] eqn:Ei; cbn [rbind] in H; [|done]. injection H as <- <-.
    split; [done|]. exists c. split_and!; [done|done|]. rewrite Edrop. intros [? _]. split; [done|]. by exists inv.
  - cbn [rbind] in H. injection H as <- <-. split; [done|]. exists c. by rewrite Edrop.
Qed.

(** The group of the record the source released: it was between records, with this one next. *)
Lemma released_group rel lastTs out st s' id r :
  stream_inv rel lastTs out st -> es_current st = None -> id ∈ ids ->
  source_ok opened_at (rel_add id r rel) (rec_ts r) s' -> s_logGroupIds s' = ids ->
  exists rem, stream opened_at id = rel id ++ r :: rem /\ rel_add id r rel id = rel id ++ [r] /\
    idle scope limit maxDepth EloqDoc id (P0 id) (group_at st id) (rel id) (r :: rem) (out id) /\
    decodable scope maxDepth EloqDoc r /\ opened_at id <= rec_ts r.
Proof.
  intros H Ec Hid Hsrc Hi. destruct (si_groups _ _ _ _ H id Hid) as (rem & Hsp & Hst).
  assert (current_of st id = None) as Ecur by (unfold current_of; by rewrite Ec).
  rewrite Ecur in Hst. destruct (source_split _ _ s' id Hsrc) as (rem' & Hsp' & _); [by rewrite Hi|].
  assert (rel_add id r rel id = rel id ++ [r]) as Er by (unfold rel_add; by rewrite Z.eqb_refl).
  rewrite Er, <- app_assoc in Hsp'. cbn [app] in Hsp'.
  assert (rem = r :: rem') as -> by (eapply app_inv_head; by rewrite <- Hsp).
  exists rem'. split_and!; try done; apply (taken_decodes (rel id) (r :: rem') id r Hsp); set_solver.
Qed.

(** A record of a group taken, with the group's new state. *)
Lemma inv_taken rel lastTs out st s' id r rem out' st' :
  stream_inv rel lastTs out st -> es_current st = None -> id ∈ ids ->
  source_ok opened_at (rel_add id r rel) (rec_ts r) s' -> s_logGroupIds s' = ids ->
  stream opened_at id = rel id ++ r :: rem ->
  es_source st' = s' -> es_scope st' = es_scope st -> es_options st' = es_options st ->
  (forall c, es_current st' = Some c -> sr_logGroupId (cu_record c) = id /\ cu_ts c = rec_ts r) ->
  (forall k, k <> id -> out' k = out k /\ group_at st' k = group_at st k) ->
  group_state scope limit maxDepth EloqDoc id (P0 id) (group_at st' id) (current_of st' id) (rel id ++ [r]) rem (out' id) ->
  stream_inv (rel_add id r rel) (rec_ts r) out' st'.
Proof.
  intros H Ec Hid Hsrc Hi Hsp Es Esc Eo Hc Hfr Hg.
  eapply (inv_update rel lastTs out st _ _ _ _ id); try done.
  - by rewrite Es.
  - by rewrite Es.
  - rewrite Esc. apply H.
  - rewrite Eo. apply H.
  - intros c E. congruence.
  - intros k Hk. destruct (Hfr k Hk). split_and!; try done. unfold rel_add. by rewrite (proj2 (Z.eqb_neq _ _)).
  - exists rem. unfold rel_add. rewrite Z.eqb_refl. split; [by rewrite <- app_assoc|done].
Qed.

Lemma begin_ddl rel lastTs out st s' id d rem k ts ev st' :
  stream_inv rel lastTs out st -> es_current st = None -> id ∈ ids ->
  source_ok opened_at (rel_add id (LDdl d) rel) (rec_ts (LDdl d)) s' -> s_logGroupIds s' = ids ->
  stream opened_at id = rel id ++ LDdl d :: rem -> ts = lr_ddl_ts d -> opened_at id <= lr_ddl_ts d ->
  idle scope limit maxDepth EloqDoc id (P0 id) (group_at st id) (rel id) (LDdl d :: rem) (out id) ->
  place (P0 id) (LDdl d) <> Before ->
  ddlEvent maxDepth EloqDoc
    (with_group (with_group (with_source st s') id (set_skip k (group_at st id))) id
      (at_ddl (group_at st id) (ddlKey d))) ts d = Ok (ev, st') ->
  es_source st' = s' /\ es_current st' = None /\
  match ev with
  | None => stream_inv (rel_add id (LDdl d) rel) (rec_ts (LDdl d)) out st'
  | Some doc => exists x, stream_inv (rel_add id (LDdl d) rel) (rec_ts (LDdl d)) (out_add id x out) st' /\
      rec_ts (ch_record x) = rec_ts (LDdl d) /\ change_event (token_at st' (rec_ts (LDdl d))) x = Ok doc /\
      (phase_ok st Running -> phase_ok st' (phase_after scope (token_at st' (rec_ts (LDdl d))) x))
  end.
Proof.
  intros H Ec Hid Hsrc Hi Hsp -> Hts Hidle Hp Hev.
  apply ddlEvent_spec in Hev as [(Es & Eg & Ecu & Esc & Eo & _) Hev]; [|apply H].
  cbn in Es, Eg, Ecu, Esc, Eo. split; [done|]. split; [by rewrite Ecu|].
  pose proof (idle_ddl _ _ _ _ id (P0 id) _ _ _ _ _ ltac:(rewrite <- Hsp; apply stream_wf_at) Hidle Hp Hts) as Hi'.
  assert (forall k, group_at st' k = if decide (k = id) then at_ddl (group_at st id) (ddlKey d) else group_at st k) as Hga.
  { intros j. unfold group_at at 1. rewrite Eg, insert_insert_eq. fold (group_at (with_group st id (at_ddl (group_at st id) (ddlKey d))) j).
    apply group_at_insert. }
  assert (current_of st' id = None) as Ecur by (unfold current_of; by rewrite Ecu, Ec).
  destruct ev as [doc|].
  - destruct Hev as (c & Hr & Hdoc & Hph). exists (CDdl d c).
    assert (token_at st' (lr_ddl_ts d) = token_at (with_group (with_group (with_source st s') id
      (set_skip k (group_at st id))) id (at_ddl (group_at st id) (ddlKey d))) (lr_ddl_ts d)) as Etok
      by (unfold token_at, entries, groups_in_order; by rewrite Eg).
    split_and!; [|done| |cbn [rec_ts]; by rewrite Etok].
    + eapply (inv_taken rel lastTs out st s' id (LDdl d) rem); try done.
      * intros c' E. congruence.
      * intros j Hj. rewrite Hga, decide_False by done. unfold out_add. by rewrite (proj2 (Z.eqb_neq _ _)).
      * rewrite Hga, decide_True, Ecur by done. unfold out_add. rewrite Z.eqb_refl. rewrite Hr in Hi'. exact Hi'.
    + cbn [change_event rec_ts]. rewrite Etok. exact Hdoc.
  - destruct Hev as [Hev _]. eapply (inv_taken rel lastTs out st s' id (LDdl d) rem); try done.
    + intros c' E. congruence.
    + intros j Hj. by rewrite Hga, decide_False by done.
    + rewrite Hga, decide_True, Ecur by done. rewrite Hev, app_nil_r in Hi'. exact Hi'.
Qed.

Lemma begin_data rel lastTs out st s' id record d rem k through :
  stream_inv rel lastTs out st -> es_current st = None -> id ∈ ids -> sr_logGroupId record = id ->
  source_ok opened_at (rel_add id (LData d) rel) (rec_ts (LData d)) s' -> s_logGroupIds s' = ids ->
  stream opened_at id = rel id ++ LData d :: rem ->
  idle scope limit maxDepth EloqDoc id (P0 id) (group_at st id) (rel id) (LData d :: rem) (out id) ->
  decodable scope maxDepth EloqDoc (LData d) -> place (P0 id) (LData d) <> Before ->
  settled id (P0 id) (set_skip k (group_at st id)) (rel id) (LData d :: rem) ->
  through = through_of (P0 id) (LData d) ->
  stream_inv (rel_add id (LData d) rel) (rec_ts (LData d)) out
    (with_current (with_group (with_source st s') id (set_skip k (group_at st id)))
      (Some (mkCurrent record (dataKey d) (dr_commit_ts d) (dr_txn_number d) (newDecoder (dr_blob d) scope) through))).
Proof.
  intros H Ec Hid Hr Hsrc Hi Hsp Hidle Hd Hp Hs ->.
  eapply (inv_taken rel lastTs out st s' id (LData d) rem); try done.
  - cbn. by intros c' [= <-].
  - intros j Hj. change (group_at (with_current ?s ?y) j) with (group_at s j).
    by rewrite group_at_insert, decide_False.
  - unfold current_of. cbn [es_current with_current cu_record]. rewrite Hr, Z.eqb_refl.
    change (group_at (with_current ?s ?y) id) with (group_at s id). rewrite group_at_insert, decide_True by done.
    eexists _, _, _, _. eapply idle_data; try done. rewrite <- Hsp. apply stream_wf_at.
Qed.

Lemma begin_skipped rel lastTs out st s' id r rem g' st' :
  stream_inv rel lastTs out st -> es_current st = None -> id ∈ ids ->
  source_ok opened_at (rel_add id r rel) (rec_ts r) s' -> s_logGroupIds s' = ids ->
  stream opened_at id = rel id ++ r :: rem ->
  idle scope limit maxDepth EloqDoc id (P0 id) (group_at st id) (rel id) (r :: rem) (out id) ->
  place (P0 id) r = Before -> settled id (P0 id) g' (rel id) (r :: rem) ->
  eg_dedup g' = (record_changes scope limit maxDepth EloqDoc (eg_dedup (group_at st id)) r).2 ->
  same_groups (with_group (with_source st s') id g') st' ->
  stream_inv (rel_add id r rel) (rec_ts r) out st'.
Proof.
  intros H Ec Hid Hsrc Hi Hsp Hidle Hp Hs Hdd (Es & Eg & Ecu & Esc & Eo & _). cbn in Es, Ecu, Esc, Eo.
  assert (forall k, group_at st' k = if decide (k = id) then g' else group_at st k) as Hga.
  { intros j. unfold group_at at 1. rewrite Eg. exact (group_at_insert (with_source st s') id g' j). }
  eapply (inv_taken rel lastTs out st s' id r rem); try done.
  - intros c E. congruence.
  - intros j Hj. by rewrite Hga, decide_False.
  - rewrite Hga, decide_True by done. unfold current_of. rewrite Ecu, Ec.
    eapply idle_skipped; try done. rewrite Hdd. f_equal. f_equal. apply Hidle.
Qed.

Lemma begin_spec rel lastTs out st s' record r ev st' :
  let id := sr_logGroupId record in
  stream_inv rel lastTs out st -> es_current st = None -> sr_record record = Ok r -> id ∈ ids ->
  source_ok opened_at (rel_add id r rel) (rec_ts r) s' -> s_logGroupIds s' = ids ->
  begin maxDepth EloqDoc (with_source st s') record = Ok (ev, st') ->
  es_source st' = s' /\
  match ev with
  | None => stream_inv (rel_add id r rel) (rec_ts r) out st'
  | Some doc => exists x, stream_inv (rel_add id r rel) (rec_ts r) (out_add id x out) st' /\
      rec_ts (ch_record x) = rec_ts r /\ change_event (token_at st' (rec_ts r)) x = Ok doc /\
      (phase_ok st Running -> phase_ok st' (phase_after scope (token_at st' (rec_ts r)) x))
  end.
Proof.
  intros id H Ec Hr Hid Hsrc Hi Hb.
  destruct (released_group _ _ _ _ _ _ _ H Ec Hid Hsrc Hi) as (rem & Hsp & _ & Hidle & Hd & Hts).
  pose proof (id_settled _ _ _ _ _ _ _ _ _ _ Hidle) as Hset.
  assert (wf_history (r :: rem)) as Hwf.
  { pose proof (stream_wf_at id) as Hw. rewrite Hsp in Hw. by apply wf_history_app in Hw as [_ ?]. }
  pose proof (skip_at_settled id (P0 id) _ _ _ _ Hwf Hset Hts) as Hset'.
  pose proof (skip_at_cases (P0 id) _ _ _ (se_skip _ _ _ _ _ Hset) Hts) as Hcases.
  unfold begin in Hb. fold id in Hb.
  change (group_at (with_source st s') id) with (group_at st id) in Hb.
  unfold sr_timestamp, sr_dataKey, sr_ddlKey, sr_record in *.
  destruct (sr_stream record).
  - destruct (sr_data record) as [d|]; [|done]. cbn [rbind] in Hr, Hb. injection Hr as <-.
    cbn [rec_ts] in *. fold (skip_at (group_at st id) (dr_commit_ts d)) in Hb.
    cbn [es_scope with_group with_source es_options eg_dedup set_skip] in Hb.
    rewrite (si_scope _ _ _ _ H), (si_limit _ _ _ _ H) in Hb.
    destruct Hcases as [(e & EP & Hk & Ets)|[Hk Hpl]]; rewrite Hk in Hb, Hset'; cbn [set_skip eg_dedup] in Hb.
    + destruct (skip_of_data e d Ets) as [Hpb Hth]. rewrite EP in *. cbn [place] in *.
      destruct (producedBefore (skip_of e) (dataKey d)) eqn:Epb.
      * pose proof (proj1 Hpb eq_refl) as Hplace.
        destruct Hd as [Hlen [es He]].
        destruct (consume_fresh limit d (decoder_fuel (newDecoder (dr_blob d) scope)) (newDecoder (dr_blob d) scope)
          (eg_dedup (group_at st id)) 0 es) as [ovf Hcon].
        { by apply newDecoder_ok. }
        { rewrite decodeBlob_Ref in He by done. by rewrite yields_no_entries. }
        { apply decoder_fuel_enough. }
        rewrite Hcon in Hb. cbn [rbind] in Hb. injection Hb as <- <-. split; [done|].
        eapply (begin_skipped rel lastTs out st s' id (LData d) rem
          (set_dedup (fresh_entries limit d (eg_dedup (group_at st id)) es).2 (set_skip (Some (skip_of e)) (group_at st id))));
          try done; rewrite ?EP; try done.
        { destruct Hset' as [Hsk [[? ? ?]|[? ? ? ? ?]]]; split; try done; [left|right]; by split. }
        { cbn. unfold logged_entries. by rewrite He. }
        { split_and!; try done. cbn. by rewrite insert_insert_eq. }
      * injection Hb as <- <-. split; [done|].
        eapply begin_data; try done; rewrite ?EP; try done.
        { intros Hc. apply Hpb in Hc. congruence. }
        { apply Hth. intros Hc. apply Hpb in Hc. congruence. }
    + injection Hb as <- <-. split; [done|].
      eapply begin_data; try done; [by rewrite Hpl|].
      destruct (P0 id); [done|]. cbn [place] in Hpl. cbn. by rewrite Hpl.
  - destruct (sr_ddl record) as [d|]; [|done]. cbn [rbind] in Hr, Hb. injection Hr as <-.
    cbn [rec_ts] in *. fold (skip_at (group_at st id) (lr_ddl_ts d)) in Hb.
    assert (match skip_at (group_at st id) (lr_ddl_ts d) with
      | Some k => k_ddlAtTs k && bytes_leb (ddlKey d) (k_ddlKey k) | None => false end = true
      <-> place (P0 id) (LDdl d) = Before) as Hpb.
    { destruct Hcases as [(e & EP & -> & Ets)|[-> Hpl]]; [|rewrite Hpl; done].
      rewrite EP, (skip_of_ddl e d Ets). cbn [place]. by destruct (record_place e (LDdl d)). }
    destruct (match skip_at (group_at st id) (lr_ddl_ts d) with Some _ => _ | None => _ end) eqn:Eb.
    + pose proof (proj1 Hpb eq_refl) as Hplace. apply skipped_ddl_same in Hb as (-> & Hsame & _).
      split; [apply Hsame|].
      by eapply (begin_skipped rel lastTs out st s' id (LDdl d) rem (set_skip (skip_at (group_at st id) (lr_ddl_ts d)) (group_at st id))).
    + eapply begin_ddl in Hb; try done; [by destruct Hb as (? & _ & ?)|].
      intros Hc. apply Hpb in Hc. congruence.
Qed.

(** What else a round that takes a record keeps. *)
Lemma begin_kept st record ev st' :
  sr_logGroupId record ∈ ids -> es_scope st = scope -> begin maxDepth EloqDoc st record = Ok (ev, st') ->
  same_resume st st' /\
  (cursors_ok ids (es_groups st) -> cursors_ok ids (es_groups st')) /\
  (ev = None -> phase_ok st Running -> phase_ok st' Running \/
    exists d, sr_record record = Ok (LDdl d) /\ own_drop st (sr_logGroupId record) (ddlKey d) d st').
Proof.
  intros Hid Hsc Hb. unfold begin in Hb. set (id := sr_logGroupId record) in *.
  destruct (sr_timestamp record) as [ts|]; [|done]. cbn [rbind] in Hb.
  set (skip := match eg_skip (group_at st id) with Some _ => _ | None => _ end) in Hb.
  set (st1 := with_group st id (set_skip skip (group_at st id))) in Hb.
  assert (cursors_ok ids (es_groups st) -> cursors_ok ids (es_groups st1)) as Hc1.
  { intros Hc. apply cursors_insert; [done|done|apply (cursors_at ids); exact Hc..]. }
  destruct (sr_stream record) eqn:Estr.
  - destruct (sr_data record) as [d|]; [|done]. destruct (sr_dataKey record) as [key|]; [|done]. cbn [rbind] in Hb.
    destruct skip as [k|]; [destruct (producedBefore k key)|].
    + destruct (consume _ _ _ _ _ _ _) as [[dd ovf]|]; [|done]. cbn [rbind] in Hb. injection Hb as <- <-.
      split_and!; [done| |by left]. intros Hc. apply cursors_insert; [by apply Hc1|done|apply (cursors_at ids); exact Hc..].
    + injection Hb as <- <-. split_and!; [done|done|by left].
    + injection Hb as <- <-. split_and!; [done|done|by left].
  - unfold sr_ddlKey, sr_record in *. destruct (sr_ddl record) as [d|]; [|done]. cbn [rbind] in Hb |- *.
    destruct (match skip with Some _ => _ | None => _ end).
    + apply skipped_ddl_same in Hb as (-> & (_ & Eg & _ & _ & _ & Er) & Hph).
      split_and!; [done|by rewrite Eg|]. intros _ Hr. destruct (Hph Hr) as [|Hown]; [by left|right].
      exists d. split; [by rewrite Estr|exact Hown].
    + apply ddlEvent_spec in Hb as [(_ & Eg & _ & _ & _ & Er) Hev]; [|done].
      split_and!; [done| |].
      * intros Hc. rewrite Eg. apply cursors_insert; [by apply Hc1|done|apply (cursors_at ids); exact Hc..].
      * intros -> Hr. left. by apply Hev.
Qed.

(** *** What a token leaves *)

Lemma group_remaining g c id rel rem out :
  stream opened_at id = rel ++ rem ->
  group_state scope limit maxDepth EloqDoc id (P0 id) g c rel rem out ->
  List.filter (after (P0 id)) (history_changes scope limit maxDepth EloqDoc (rel ++ rem)) =
    out ++ List.filter (after (position id (P0 id) g)) (history_changes scope limit maxDepth EloqDoc (rel ++ rem)).
Proof.
  intros Hsp Hst. pose proof (stream_wf_at id) as Hwf. rewrite Hsp in Hwf.
  destruct c as [c|]; [|by apply idle_remaining].
  destruct Hst as (rel' & d & before & left & Hp). pose proof Hp as [Hrel _ _ _ _ _ _ Hdd Hout _ _ _ Hcur].
  destruct Hcur as [[-> Hs]|(pre & e & -> & _)].
  - assert (rel ++ rem = rel' ++ LData d :: rem) as -> by (rewrite Hrel; by rewrite <- app_assoc).
    apply idle_remaining. split; [done|done|]. by rewrite Hout, app_nil_r.
  - eapply producing_remaining; [done| |exact Hp|by destruct pre].
    eapply (taken_decodes rel rem id); [done|]. rewrite Hrel. set_solver.
Qed.

(** A group is at a record boundary with everything below [T] taken, or within a record at [T]. *)
Lemma state_cases g c id rel rem out T :
  group_state scope limit maxDepth EloqDoc id (P0 id) g c rel rem out ->
  Forall (fun r => T <= rec_ts r) rem -> (forall x, c = Some x -> T <= cu_ts x) ->
  (exists taken rest, rel ++ rem = taken ++ rest /\ settled id (P0 id) g taken rest /\
     Forall (fun r => T <= rec_ts r) rest) \/
  (exists d e, LData d ∈ rel /\ within g d e /\ T <= dr_commit_ts d).
Proof.
  intros Hst Hrem Hc. destruct c as [c|].
  - destruct Hst as (rel' & d & before & left & [Hrel _ Hts _ _ _ _ _ _ _ _ _ Hcur]).
    specialize (Hc c eq_refl). destruct Hcur as [[_ Hs]|(pre & e & _ & Hw & _)].
    + left. exists rel', (LData d :: rem). split_and!; [rewrite Hrel; by rewrite <- app_assoc|done|].
      constructor; [cbn; lia|done].
    + right. exists d, e. split_and!; [rewrite Hrel; set_solver|done|lia].
  - left. exists rel, rem. split_and!; [done|apply Hst|done].
Qed.

(** The position a token gives the group, if it certifies everything below [T]. *)
Definition covered_position (id : Z) (g : EGroup) (T : Z) : Position :=
  if negb (eg_hasCursor g) || (cursor_ts g <=? T - 1) then PFrom T else PEntry (cursor_entry id g).

Lemma cursor_from g id rel rest :
  settled id (P0 id) g rel rest -> eg_hasCursor g = true -> opened_at id <= cursor_ts g.
Proof.
  intros [_ [[Hpos _ _]|[_ Hts _ _ _]]] Hc; [|done].
  unfold position in Hpos. rewrite Hc in Hpos. unfold opened_at. rewrite <- Hpos. done.
Qed.

Lemma after_opened id c : after (P0 id) c = true -> opened_at id <= rec_ts (ch_record c).
Proof.
  unfold opened_at. rewrite after_place. intros H. destruct (P0 id) as [ts|e]; cbn [place position_ts] in *.
  - destruct (Z.ltb_spec (rec_ts (ch_record c)) ts); [done|lia].
  - apply place_ts. intros E. by rewrite E in H.
Qed.

Lemma filter_ext_in_changes f1 f2 h :
  (forall c, ch_record c ∈ h -> f1 c = f2 c) ->
  List.filter f1 (history_changes scope limit maxDepth EloqDoc h) =
  List.filter f2 (history_changes scope limit maxDepth EloqDoc h).
Proof.
  intros H. apply filter_ext_in. intros c Hc. apply H. apply list_elem_of_In in Hc. by eapply changes_record.
Qed.

(** A boundary below [T] divides the log where the timestamp [T] does. *)
Lemma settled_divides g id taken rest T x :
  settled id (P0 id) g taken rest -> eg_hasCursor g = true -> cursor_ts g < T ->
  Forall (fun r => T <= rec_ts r) rest -> ch_record x ∈ taken ++ rest ->
  after (position id (P0 id) g) x = after (PFrom T) x.
Proof.
  intros [_ Hs] Hc Hlt Hrest Hx. rewrite after_place. cbn [after].
  destruct (Z.leb_spec T (rec_ts (ch_record x))) as [Hge|Hlt'].
  - unfold position. rewrite Hc. cbn [place]. rewrite place_gt; [done|].
    change (entry_ts (cursor_entry id g)) with (cursor_ts g). lia.
  - apply elem_of_app in Hx as [Hx|Hx].
    2: { apply (proj1 (Forall_forall _ _) Hrest) in Hx. cbn in Hx. lia. }
    assert (place (position id (P0 id) g) (ch_record x) = Before) as ->; [|done].
    destruct Hs as [[-> _ Hr]|[_ _ Hr _ _]]; by apply (proj1 (Forall_forall _ _) Hr).
Qed.

Lemma cursor_opened g c id rel rem out :
  stream opened_at id = rel ++ rem ->
  group_state scope limit maxDepth EloqDoc id (P0 id) g c rel rem out -> eg_hasCursor g = true ->
  opened_at id <= cursor_ts g.
Proof.
  intros Hsp Hst Hc. destruct c as [c|].
  2: { eapply cursor_from; [apply Hst|done]. }
  destruct Hst as (rel' & d & before & left & [Hrel _ _ _ _ _ _ _ _ _ _ _ Hcur]).
  destruct Hcur as [[_ Hs]|(pre & e & _ & [_ Hk _ _ _ _] & _)]; [by eapply cursor_from|].
  assert (LData d ∈ rel ++ rem) as Hin by (rewrite Hrel; set_solver).
  pose proof (proj2 (taken_decodes _ _ _ _ Hsp Hin)) as Hop.
  assert (wf_record (LData d)) as Hwd.
  { destruct (stream_wf_at id) as [Hwf _]. rewrite Hsp in Hwf. by apply (proj1 (Forall_forall _ _) Hwf). }
  pose proof (keyTimestamp_key _ Hwd) as Hkt. unfold cursor_ts. rewrite Hk. cbn in Hkt, Hop. lia.
Qed.

Lemma within_ts g id rel rem d e :
  stream opened_at id = rel ++ rem -> LData d ∈ rel -> within g d e -> dr_commit_ts d <= cursor_ts g.
Proof.
  intros Hsp Hin [_ Hk _ _ _ _].
  assert (wf_record (LData d)) as Hwd.
  { destruct (stream_wf_at id) as [Hwf _]. rewrite Hsp in Hwf. apply (proj1 (Forall_forall _ _) Hwf). set_solver. }
  pose proof (keyTimestamp_key _ Hwd) as Hkt. unfold cursor_ts. rewrite Hk. cbn in Hkt. lia.
Qed.

(** The changes the cursor leaves are those the token leaves. *)
Lemma covered_changes g c id rel rem out T :
  id ∈ ids -> stream opened_at id = rel ++ rem ->
  group_state scope limit maxDepth EloqDoc id (P0 id) g c rel rem out ->
  Forall (fun r => T <= rec_ts r) rem -> (forall x, c = Some x -> T <= cu_ts x) -> start <= T ->
  List.filter (after (position id (P0 id) g)) (history_changes scope limit maxDepth EloqDoc (rel ++ rem)) =
  left_after scope limit maxDepth EloqDoc (covered_position id g T) (sc_history id).
Proof.
  intros Hid Hsp Hst Hrem Hc HT. unfold covered_position.
  pose proof (state_cases _ _ _ _ _ _ T Hst Hrem Hc) as Hcases.
  destruct (eg_hasCursor g) eqn:Ecur; cbn [negb orb].
  - pose proof (cursor_opened _ _ _ _ _ _ Hsp Hst Ecur) as Hfrom.
    destruct (Z.leb_spec (cursor_ts g) (T - 1)) as [Hcov|Hunc].
    + rewrite (left_after_from scope limit maxDepth EloqDoc _ _ (opened_at id) (sc_wf id)).
      2: { intros x Hx. cbn in Hx. apply Z.leb_le in Hx. lia. }
      fold (stream opened_at id). rewrite Hsp.
      destruct Hcases as [(taken & rest & E & Hs & Hrest)|(d & e & Hd & Hw & Hts)].
      * apply filter_ext_in_changes. intros x Hx. rewrite E in Hx. by eapply settled_divides; [..|lia| |].
      * pose proof (within_ts _ _ _ _ _ _ Hsp Hd Hw). lia.
    + unfold position. rewrite Ecur.
      rewrite (left_after_from scope limit maxDepth EloqDoc _ _ (opened_at id) (sc_wf id)).
      2: { intros x Hx. etrans; [exact Hfrom|]. apply (place_ts (cursor_entry id g)). intros E.
           cbn in Hx. by rewrite E in Hx. }
      fold (stream opened_at id). by rewrite Hsp.
  - destruct Hcases as [(taken & rest & E & [_ Hs] & Hrest)|(d & e & _ & [Hcu _ _ _ _ _] & _)]; [|congruence].
    destruct Hs as [[_ Hn Hrel]|[Hcu _ _ _ _]]; [|congruence]. destruct (Hn Ecur) as ([ts EP] & _).
    assert (ts = start) as -> by (destruct (Hstart id Hid) as [|(e & ? & _)]; congruence).
    assert (opened_at id = start) as Eo by (unfold opened_at; by rewrite EP).
    rewrite (left_after_from scope limit maxDepth EloqDoc _ _ (opened_at id) (sc_wf id)).
    2: { intros x Hx. cbn in Hx. apply Z.leb_le in Hx. lia. }
    fold (stream opened_at id). rewrite Hsp. apply filter_ext_in_changes. intros x Hx.
    assert (start <= rec_ts (ch_record x)) as Hge
      by (rewrite <- Eo; exact (proj2 (taken_decodes _ _ _ _ Hsp Hx))).
    rewrite E in Hx. apply elem_of_app in Hx as [Hx|Hx].
    + apply (proj1 (Forall_forall _ _) Hrel) in Hx. rewrite EP in Hx. cbn in Hx.
      by rewrite (proj2 (Z.ltb_ge _ _)) in Hx by lia.
    + apply (proj1 (Forall_forall _ _) Hrest) in Hx. cbn in Hx. unfold position. rewrite Ecur, EP. cbn.
      by rewrite !(proj2 (Z.leb_le _ _)) by lia.
Qed.

Lemma covered_left g c id rel rem out T :
  id ∈ ids -> stream opened_at id = rel ++ rem ->
  group_state scope limit maxDepth EloqDoc id (P0 id) g c rel rem out ->
  Forall (fun r => T <= rec_ts r) rem -> (forall x, c = Some x -> T <= cu_ts x) -> start <= T ->
  left_after scope limit maxDepth EloqDoc (P0 id) (sc_history id) =
  out ++ left_after scope limit maxDepth EloqDoc (covered_position id g T) (sc_history id).
Proof.
  intros Hid Hsp Hst Hrem Hc HT.
  rewrite (left_after_from scope limit maxDepth EloqDoc _ _ (opened_at id) (sc_wf id)) by apply after_opened.
  fold (stream opened_at id). rewrite Hsp, (group_remaining _ _ _ _ _ _ Hsp Hst). f_equal.
  by eapply covered_changes.
Qed.
End Stream.
