(* ===== verification/StreamRefinement.v ===== *)
(** * The event stream refines its specification

    The specification is a small machine: it reports changes, each with a token that leaves exactly
    what has not been reported, ends with one invalidate after the watched collection was dropped,
    and rests in between. Consecutive pulls of a stream opened at a token are a run of it. Resuming
    without loss or repeat, the watermark, and the end of a stream follow. *)

From S2P Require Import Prelude Bytes Bson RawBson BsonBuilder ResumeToken BlobDecoder LogService.
From S2P Require Import DdlDecoder ScanClient ScanContract ScanSource EventStream Changes ResumeExact.
#[local] Open Scope Z_scope.

(** ** Tokens of a stream are well formed *)

Lemma encode_entries_keys es bs :
  encode_entries es = Ok bs -> Forall (fun e => blen (te_dataKey e) <= u16_max /\ blen (te_ddlKey e) <= u16_max) es.
Proof.
  revert bs. induction es as [|e es IH]; intros bs H; [constructor|]. cbn in H.
  ok_inv H. ok_inv H. constructor; [|by eapply IH].
  unfold encode_entry, appendSizedString, uassert in E.
  destruct (Z.leb_spec (blen (te_dataKey e)) u16_max), (Z.leb_spec (blen (te_ddlKey e)) u16_max); done.
Qed.

Lemma token_entry_ids cov l :
  (forall k, k ∈ te_logGroupId <$> omap (token_entry cov) l -> k ∈ l.*1) /\
  (NoDup l.*1 -> NoDup (te_logGroupId <$> omap (token_entry cov) l)).
Proof.
  induction l as [|[k g] l [IH1 IH2]]; [split; [set_solver|by intros]|]. cbn [omap list_omap].
  assert (forall e, token_entry cov (k, g) = Some e -> te_logGroupId e = k) as He.
  { intros e. unfold token_entry. destruct (_ || _); [done|]. by intros [= <-]. }
  destruct (token_entry cov (k, g)) as [e|]; cbn.
  - rewrite (He e eq_refl). split; [set_solver|]. intros [Hk Hnd]%NoDup_cons. apply NoDup_cons.
    split; [|by apply IH2]. intros Hin. by apply Hk, IH1.
  - split; [set_solver|]. intros [_ Hnd]%NoDup_cons. by apply IH2.
Qed.

Lemma entries_wf ids st cov :
  cursors_ok ids (es_groups st) -> Forall is_u32 ids ->
  Forall (fun e => blen (te_dataKey e) <= u16_max /\ blen (te_ddlKey e) <= u16_max) (entries st cov) ->
  Forall wf_entry (entries st cov) /\ NoDup (te_logGroupId <$> entries st cov).
Proof.
  intros Hc Hids Hk. rewrite entries_omap in *.
  pose proof (merge_sort_Permutation group_le (map_to_list (es_groups st))) as Hp. split.
  - apply Forall_forall. intros e He. pose proof (proj1 (Forall_forall _ _) Hk e He) as [Hd Hl].
    apply list_elem_of_omap in He as ([id g] & Hin & He).
    unfold groups_in_order in Hin. rewrite Hp in Hin. apply elem_of_map_to_list in Hin.
    destruct (Hc id g Hin) as (Hid & Hs & Hn). apply (proj1 (Forall_forall _ _) Hids) in Hid.
    unfold token_entry in He. destruct (_ || _); [done|]. injection He as <-.
    unfold wf_entry. cbn in *. assert (is_u32 0) by (unfold is_u32; lia).
    destruct (eg_partial g); split_and!; done.
  - apply token_entry_ids. unfold groups_in_order. rewrite Hp. apply NoDup_fst_map_to_list.
Qed.

Lemma issued_wf ids st ts kind cov doc :
  cursors_ok ids (es_groups st) -> Forall is_u32 ids -> 0 <= ts < u64_max -> (kind = kWatermark \/ 1 <= ts) ->
  toBSON (mkToken ts kind (entries st cov)) = Ok doc -> wf_token (mkToken ts kind (entries st cov)).
Proof.
  intros Hc Hids Hts Hk0 H. unfold toBSON in H. ok_inv H. unfold encode in E. ok_inv E. ok_inv E.
  apply uassert_Ok, Z.leb_le in E0. pose proof (encode_entries_keys _ _ E1) as Hk.
  destruct (entries_wf ids st cov Hc Hids Hk) as [Hw Hnd].
  unfold wf_token, is_u64, u64_max in *. cbn in *. split_and!; try done; try lia. by destruct Hk0; [|lia].
Qed.

(** ** The specification *)

(** What a pull reports: a change of a group with its token, the invalidate, or nothing. *)
Inductive Report :=
| Changed (id : Z) (c : Change) (t : CdcResumeToken)
| Invalidated (t : CdcResumeToken) (ns : bytes)
| Idle.

(** The changes of a group among reports. *)
Definition changes_of (id : Z) (reports : list Report) : list Change :=
  omap (fun r => match r with Changed k c _ => if k =? id then Some c else None | _ => None end) reports.

Section Refinement.

Context {env : Env} `{!ScanContract env} (decodeIdKey : bytes -> result Document) (maxDepth EloqDoc : Z).
Context (scope : CdcStreamScope) (limit : Z) (ids : list Z) (P0 : Z -> Position).

(** The event token the stream was opened at, if its own event may be a drop. *)
Context (resumed : option CdcResumeToken).

Abbreviation left_of p id := (left_after scope limit maxDepth EloqDoc p (sc_history id)).

(** The event document a report stands for. *)
Definition describes (ev : option Document) (r : Report) : Prop :=
  match ev, r with
  | Some doc, Changed _ c t => change_event decodeIdKey t c = Ok doc
  | Some doc, Invalidated t ns => invalidateEvent t ns = Ok doc
  | None, Idle => True
  | _, _ => False
  end.

(** The token leaves, in every group, exactly what is not in [out] of what the stream was opened at. *)
Definition exact (out : Z -> list Change) (t : CdcResumeToken) : Prop :=
  forall id, id ∈ ids -> left_of (P0 id) id = out id ++ left_of (token_position t id) id.

(** A stream opened at [t], the token of a drop of the watched collection, meets that drop: the
    record lies before the group's position, and all that was reported so far shares its timestamp. *)
Definition own_drop_met (out : Z -> list Change) (t : CdcResumeToken) (id : Z) (d : CdcDdlRecord)
    (c : CdcDdlChange) : Prop :=
  resumed = Some t /\ id ∈ ids /\ LDdl d ∈ sc_history id /\ lr_ddl_ts d = tok_timestamp t /\
  decodeCdcDdl maxDepth EloqDoc (lr_schema_op d) = Ok (Some c) /\ dc_dropsCollection c = true /\
  isCollection scope (dc_ns c) = true /\ (forall x, ch_record x = LDdl d -> after (P0 id) x = false) /\
  forall g x, g ∈ ids -> x ∈ out g -> rec_ts (ch_record x) = tok_timestamp t.

(** What was reported of each group, and the phase. *)
Definition Spec : Type := (Z -> list Change) * Phase.

Inductive step : Spec -> Report -> Spec -> Prop :=
| step_change out id c t :
    id ∈ ids -> wf_token t -> tok_kind t = kEvent -> rec_ts (ch_record c) = tok_timestamp t ->
    exact (out_add id c out) t ->
    step (out, Running) (Changed id c t) (out_add id c out, phase_after scope t c)
| step_invalidate out t ns :
    step (out, Dropped t ns) (Invalidated t ns) (out, Ended t)
| step_own_drop out t id d c :
    own_drop_met out t id d c ->
    step (out, Running) (Invalidated (as_invalidate t) (dc_ns c)) (out, Ended (as_invalidate t))
| step_idle out : step (out, Running) Idle (out, Running)
| step_ended out t : step (out, Ended t) Idle (out, Ended t).

Inductive run : Spec -> list Report -> Spec -> Prop :=
| run_nil x : run x [] x
| run_cons x r y rs z : step x r y -> run y rs z -> run x (r :: rs) z.

(** *** What a run shows *)

Lemma run_app x rs1 rs2 z : run x (rs1 ++ rs2) z <-> exists y, run x rs1 y /\ run y rs2 z.
Proof.
  revert x. induction rs1 as [|r rs1 IH]; intros x; cbn [app].
  - split; [intros H; exists x; split; [constructor|done]|]. intros (y & H & ?). by inversion H; subst.
  - split.
    + intros H. inversion H as [|? ? y ? ? Hs Hr]; subst. apply IH in Hr as (w & Hw & Hz).
      exists w. split; [by econstructor|done].
    + intros (y & H & Hz). inversion H as [|? ? w ? ? Hs Hr]; subst. econstructor; [done|]. apply IH. by exists y.
Qed.

Lemma changes_of_app id a b : changes_of id (a ++ b) = changes_of id a ++ changes_of id b.
Proof. apply omap_app. Qed.

Lemma run_out x rs y : run x rs y -> forall id, y.1 id = x.1 id ++ changes_of id rs.
Proof.
  induction 1 as [x|x r y rs z Hs Hr IH]; intros id; [by rewrite app_nil_r|].
  rewrite IH. inversion Hs; subst; cbn; try done. unfold out_add. rewrite (Z.eqb_sym id0 id).
  destruct (id =? id0); [|done]. by rewrite <- app_assoc.
Qed.

Lemma run_ended out t rs y : run (out, Ended t) rs y -> Forall (fun r => r = Idle) rs.
Proof.
  intros H. remember (out, Ended t) as x eqn:E. revert E. induction H as [|x r y rs z Hs Hr IH]; [constructor|].
  intros ->. inversion Hs; subst. constructor; [done|]. by apply IH.
Qed.

Lemma lookup_split {A} (l : list A) k x : l !! k = Some x -> exists l2, l = take k l ++ x :: l2.
Proof. intros H. exists (drop (S k) l). symmetry. by apply take_drop_middle. Qed.

(** Each change's token is exact for what has been reported with it. *)
Lemma run_exact rs y k id c t :
  run (fun _ => [], Running) rs y -> rs !! k = Some (Changed id c t) ->
  id ∈ ids /\ wf_token t /\ exact (fun g => changes_of g (take (S k) rs)) t.
Proof.
  intros H Hk. rewrite (take_S_r _ _ _ Hk). destruct (lookup_split _ _ _ Hk) as [l2 E]. rewrite E in H.
  apply run_app in H as (x & Hr & H). pose proof (run_out _ _ _ Hr) as Ho.
  inversion H as [|? ? z ? ? Hs _]; subst. inversion Hs as [out ? ? ? Hid Hw _ _ Hex| | | |]; subst.
  split_and!; [done|done|]. intros g Hg. rewrite (Hex g Hg). f_equal. rewrite changes_of_app. cbn in Ho.
  unfold out_add. rewrite Ho. cbn. rewrite (Z.eqb_sym id g). by destruct (g =? id); rewrite ?app_nil_r.
Qed.

(** A stream is waiting to invalidate only right after the drop it reported. *)
Lemma run_dropped out rs out' t ns :
  run (out, Running) rs (out', Dropped t ns) ->
  exists j id r c t', length rs = S j /\ rs !! j = Some (Changed id (CDdl r c) t') /\ tok_kind t' = kEvent /\
    dc_dropsCollection c = true /\ isCollection scope ns = true /\ dc_ns c = ns /\ t = as_invalidate t'.
Proof.
  destruct rs as [|rep rs _] using rev_ind; intros H; [by inversion H|].
  apply run_app in H as (y & _ & H). inversion H as [|? ? z ? ? Hs Hr]; subst. inversion Hr; subst.
  inversion Hs as [? id c t' _ _ Hk _ _| | | |]; subst. destruct c as [|r c]; [done|].
  match goal with E : _ = Dropped t ns |- _ => cbn in E; destruct (_ && _) eqn:Eb in E; [|done]; injection E as <- <- end.
  apply andb_true_iff in Eb as [? ?]. exists (length rs), id, r, c, t'.
  rewrite length_app, lookup_app_r, Nat.sub_diag by done. cbn. split_and!; try done. lia.
Qed.

Lemma run_invalidated rs y k t ns :
  run (fun _ => [], Running) rs y -> rs !! k = Some (Invalidated t ns) ->
  isCollection scope ns = true /\ Forall (fun r => r = Idle) (drop (S k) rs) /\
  ((exists j id r c t', k = S j /\ rs !! j = Some (Changed id (CDdl r c) t') /\ tok_kind t' = kEvent /\
      dc_dropsCollection c = true /\ dc_ns c = ns /\ t = as_invalidate t') \/
   (exists t' id d c, own_drop_met (fun g => changes_of g (take k rs)) t' id d c /\ dc_ns c = ns /\
      t = as_invalidate t')).
Proof.
  intros H Hk. pose proof (take_drop_middle _ _ _ Hk) as E. pose proof (lookup_lt_Some _ _ _ Hk) as Hlt.
  rewrite <- E in H. apply run_app in H as ([out ph] & Hr & H). pose proof (run_out _ _ _ Hr) as Ho. cbn in Ho.
  inversion H as [|? ? z ? ? Hs Hz]; subst.
  inversion Hs as [|? ? ? | ? t' id d c Hown| |]; subst; apply run_ended in Hz.
  - apply run_dropped in Hr as (j & id & r & c & t' & Hl & Hj & Hk' & Hd & Hc & Hn & ->).
    rewrite length_take_le in Hl by lia. split_and!; [done|done|]. left. exists j, id, r, c, t'.
    rewrite lookup_take_lt in Hj by lia. done.
  - split_and!; [apply Hown|done|]. right. exists t', id, d, c. split_and!; [|done|done].
    destruct Hown as (? & ? & ? & ? & ? & ? & ? & ? & Hall). split_and!; try done.
    intros g x Hg. rewrite <- Ho. by apply Hall.
Qed.

(** The drop of the watched collection is followed by its invalidate. *)
Lemma run_drop rs y k id r c t rep :
  run (fun _ => [], Running) rs y -> rs !! k = Some (Changed id (CDdl r c) t) ->
  dc_dropsCollection c = true -> isCollection scope (dc_ns c) = true -> rs !! S k = Some rep ->
  rep = Invalidated (as_invalidate t) (dc_ns c).
Proof.
  intros H Hk Hd Hc Hn. pose proof (take_drop_middle _ _ _ Hk) as E. rewrite <- E in H.
  apply run_app in H as (x & _ & H). inversion H as [|? ? z ? ? Hs Hz]; subst.
  inversion Hs; subst. cbn in Hz. rewrite Hd, Hc in Hz. cbn in Hz.
  assert (drop (S k) rs !! 0%nat = Some rep) as H0 by (by rewrite lookup_drop, Nat.add_0_r).
  destruct (drop (S k) rs) as [|r0 l]; [done|]. injection H0 as ->. inversion Hz as [|? ? z ? ? Hs' _]; subst.
  by inversion Hs'.
Qed.

(** *** What a pull keeps *)

Context (start : Z)
  (Hstart : forall id, id ∈ ids -> P0 id = PFrom start \/ exists e, P0 id = PEntry e /\ start <= entry_ts e).
Context (Hdec : forall id r, r ∈ sc_history id -> decodable scope maxDepth EloqDoc r).
Context (Hids : Forall is_u32 ids).

Abbreviation inv := (stream_inv maxDepth EloqDoc scope limit ids P0).

Lemma token_covered st T id :
  1 <= T < u64_max -> token_position (token_at st T) id = covered_position id (group_at st id) T.
Proof.
  intros HT. unfold token_position, startTimestampForAbsentGroup. cbn [tok_kind tok_timestamp token_at tok_entries].
  rewrite bool_decide_eq_false_2 by done. cbn [negb]. unfold uassert.
  rewrite (proj2 (Z.eqb_neq _ _)) by lia. cbn [rbind negb]. rewrite entryFor_entries. unfold covered_position.
  assert (wrap64 (T - 1) = T - 1) as -> by (unfold wrap64, u64_max in *; apply Z.mod_small; lia).
  destruct (eg_hasCursor (group_at st id)); cbn [negb orb]; [|done].
  destruct (Z.leb_spec (cursor_ts (group_at st id)) (T - 1)); [done|].
  change (entry_ts (cursor_entry id (group_at st id))) with (cursor_ts (group_at st id)).
  by rewrite (proj2 (Z.ltb_ge _ _)) by lia.
Qed.

Lemma watermark_covered st id :
  0 <= emitBound (es_source st) < u64_max ->
  token_position (watermark st) id = covered_position id (group_at st id) (emitBound (es_source st) + 1).
Proof.
  intros HT. unfold token_position, startTimestampForAbsentGroup, watermark.
  cbn [tok_kind tok_timestamp makeWatermark tok_entries].
  rewrite bool_decide_eq_true_2 by done. cbn [negb]. unfold uassert.
  rewrite (proj2 (Z.eqb_neq _ _)) by lia. cbn [rbind negb]. rewrite entryFor_entries. unfold covered_position.
  set (B := emitBound (es_source st)) in *.
  assert (wrap64 (B + 1) = B + 1) as -> by (unfold wrap64, u64_max in *; apply Z.mod_small; lia).
  rewrite Z.add_simpl_r. destruct (eg_hasCursor (group_at st id)); cbn [negb orb]; [|done].
  destruct (Z.leb_spec (cursor_ts (group_at st id)) B); [done|].
  change (entry_ts (cursor_entry id (group_at st id))) with (cursor_ts (group_at st id)).
  by rewrite (proj2 (Z.ltb_ge _ _)) by lia.
Qed.

(** A token that certifies everything below [T], given that nothing below it is left to take. *)
Lemma covers_exact rel lastTs out st T t :
  inv rel lastTs out st -> start <= T ->
  (forall c, es_current st = Some c -> T <= cu_ts c) ->
  (forall id rem, id ∈ ids -> stream (opened_at P0) id = rel id ++ rem -> Forall (fun r => T <= rec_ts r) rem) ->
  (forall id, token_position t id = covered_position id (group_at st id) T) -> exact out t.
Proof.
  intros H HT Hc Hrem Ht id Hid. rewrite Ht.
  destruct (si_groups _ _ _ _ _ _ _ _ _ _ H id Hid) as (rem & Hsp & Hst).
  eapply covered_left; try done.
  - by eapply Hrem.
  - intros c. unfold current_of. destruct (es_current st) as [c'|]; [|done].
    destruct (_ =? _); [|done]. intros [= <-]. by apply Hc.
Qed.

(** Reported changes are changes of the log at or above where the stream was opened. *)
Lemma reported_change rel lastTs out st id c :
  inv rel lastTs out st -> id ∈ ids -> c ∈ out id ->
  start <= rec_ts (ch_record c) /\ 1 <= rec_ts (ch_record c) < u64_max.
Proof.
  intros H Hid Hc. destruct (si_groups _ _ _ _ _ _ _ _ _ _ H id Hid) as (rem & Hsp & Hst).
  pose proof (group_remaining _ _ _ _ _ _ _ Hstart Hdec _ _ _ _ _ _ Hsp Hst) as E.
  assert (c ∈ List.filter (after (P0 id)) (history_changes scope limit maxDepth EloqDoc (rel id ++ rem))) as Hin
    by (rewrite E; set_solver).
  apply list_elem_of_In, filter_In in Hin as [Hin Ha]. apply after_opened in Ha.
  apply list_elem_of_In, changes_record in Hin. rewrite <- Hsp in Hin. split.
  - destruct (Hstart id Hid) as [E0|(e & E0 & Hle)]; unfold opened_at in Ha; rewrite E0 in Ha; cbn in Ha; lia.
  - destruct (stream_wf_at P0 id) as [Hw _]. apply (proj1 (Forall_forall _ _) Hw) in Hin. apply Hin.
Qed.

Lemma event_exact rel lastTs out st id c :
  inv rel lastTs (out_add id c out) st -> id ∈ ids -> rec_ts (ch_record c) = lastTs ->
  1 <= lastTs < u64_max /\ exact (out_add id c out) (token_at st lastTs).
Proof.
  intros H Hid <-. destruct (reported_change _ _ _ _ id c H Hid) as [Hs Hts].
  { unfold out_add. rewrite Z.eqb_refl. set_solver. }
  split; [done|]. eapply covers_exact; try done.
  - intros c' Ec. apply (si_current _ _ _ _ _ _ _ _ _ _ H) in Ec as [_ ->]. done.
  - intros k rem Hk Hsp. destruct (source_split P0 _ _ _ k (si_source _ _ _ _ _ _ _ _ _ _ H)) as (rem' & Hsp' & Hr).
    { by rewrite (si_ids _ _ _ _ _ _ _ _ _ _ H). }
    assert (rem = rem') as -> by (eapply app_inv_head; by rewrite <- Hsp). done.
  - intros k. by apply token_covered.
Qed.

(** *** The watermark *)

Lemma opened_start id : id ∈ ids -> start <= opened_at P0 id.
Proof.
  intros Hid. unfold opened_at. destruct (Hstart id Hid) as [-> |(e & -> & ?)]; cbn; lia.
Qed.

Lemma emitBound_range rel lastTs s :
  source_ok (opened_at P0) rel lastTs s -> s_logGroupIds s = ids -> ids <> [] ->
  start - 1 <= emitBound s /\ 0 <= emitBound s < u64_max.
Proof.
  intros H Hi Hne.
  assert (forall g, g ∈ s_groups s -> start - 1 <= g_scannedTs g /\ 0 <= g_scannedTs g < u64_max) as Hg.
  { intros g Hg. destruct (proj1 (Forall_forall _ _) (so_groups _ _ _ _ H) g Hg) as [[buf Hb] _].
    pose proof (go_width _ _ _ _ _ Hb). pose proof (group_in_ids _ _ _ _ _ H Hg) as Hin. rewrite Hi in Hin.
    apply opened_start in Hin. lia. }
  destruct (fold_min_in g_scannedTs (s_groups s) u64_max) as [E|(g & Hin & E)]; fold (emitBound s) in E.
  - destruct (s_groups s) as [|g gs] eqn:Egs.
    { pose proof (so_ids _ _ _ _ H) as E'. rewrite Egs, Hi in E'. by subst. }
    assert (g ∈ s_groups s) as Hin by (rewrite Egs; set_solver).
    pose proof (emitBound_le s g Hin). destruct (Hg g); [rewrite <- Egs; done|lia].
  - rewrite E. by apply Hg.
Qed.

Lemma watermark_left rel lastTs out st :
  inv rel lastTs out st -> ids <> [] -> es_current st = None ->
  drained_to (opened_at P0) rel lastTs (es_source st) -> exact out (watermark st).
Proof.
  intros H Hne Ec Hd. pose proof (si_source _ _ _ _ _ _ _ _ _ _ H) as Hs.
  pose proof (si_ids _ _ _ _ _ _ _ _ _ _ H) as Hi.
  destruct (emitBound_range _ _ _ Hs Hi Hne) as [Hlo Hr].
  eapply (covers_exact _ _ _ _ (emitBound (es_source st) + 1)); [done|lia|congruence| |].
  - intros id rem Hid Hsp. rewrite <- Hi in Hid.
    destruct (stream_prefix env _ _ _ _ id Hs Hid) as (g & buf & Hg & Eg & Hgo).
    pose proof (go_split _ _ _ _ _ Hgo) as Hsplit. rewrite Eg, Hsp in Hsplit. apply app_inv_head in Hsplit as ->.
    apply Forall_forall. intros r Hr'. apply elem_of_app in Hr' as [Hb|Hu].
    + rewrite <- Eg in Hgo. pose proof (Hd g buf r Hg Hgo Hb). lia.
    + pose proof (proj1 (Forall_forall _ _) (go_scanned _ _ _ _ _ Hgo) r Hu) as Hgt. cbn in Hgt.
      pose proof (emitBound_le _ g Hg). lia.
  - intros id. by apply watermark_covered.
Qed.

(** *** Rounds *)

(** The token the stream was opened at; the drops of its own it has still to meet are records its
    entries name. *)
Definition resumes (st : CdcEventStream) : Prop :=
  es_resumedFrom st = resumed /\
  forall id key, es_ownDropKeys st !! id = Some key ->
    exists t e, resumed = Some t /\ keyTimestamp key = tok_timestamp t /\ P0 id = PEntry e /\ te_ddlKey e = key.

Lemma resumes_same st st' : same_resume st st' -> resumes st -> resumes st'.
Proof. intros [E Hk] [E' Hk']. split; [congruence|]. intros id key H%Hk. by apply Hk'. Qed.

(** Nothing above a timestamp was reported. *)
Definition upto (ts : Z) (out : Z -> list Change) : Prop :=
  forall g x, g ∈ ids -> x ∈ out g -> rec_ts (ch_record x) <= ts.

Lemma upto_add ts ts' out id c : upto ts out -> ts <= ts' -> rec_ts (ch_record c) = ts' -> upto ts' (out_add id c out).
Proof.
  intros H Hle Hc g x Hg. unfold out_add. destruct (g =? id).
  - rewrite elem_of_app, list_elem_of_singleton. intros [Hx| ->]; [specialize (H g x Hg Hx)|]; lia.
  - intros Hx. specialize (H g x Hg Hx). lia.
Qed.

Lemma upto_le ts ts' out : upto ts out -> ts <= ts' -> upto ts' out.
Proof. intros H Hle g x Hg Hx. specialize (H g x Hg Hx). lia. Qed.

(** The state of a stream that has reported [x.1], in phase [x.2]. *)
Definition matches (x : Spec) (st : CdcEventStream) : Prop :=
  exists rel lastTs, inv rel lastTs x.1 st /\ phase_ok st x.2 /\ resumes st /\
    cursors_ok ids (es_groups st) /\ upto lastTs x.1.

(** A stream that found nothing more: its watermark leaves exactly what is not reported. *)
Definition rested (x : Spec) (st : CdcEventStream) : Prop :=
  x.2 = Running -> s_drained (es_source st) = true /\ exact x.1 (watermark st).

(** A round that reports nothing may meet the drop the stream's own token reported. *)
Definition silent (x y : Spec) : Prop :=
  y = x \/ exists t id d c, own_drop_met x.1 t id d c /\ x.2 = Running /\
    y = (x.1, Dropped (as_invalidate t) (dc_ns c)).

Lemma silent_step x y r z : silent x y -> step y r z -> step x r z.
Proof.
  intros [-> |(t & id & d & c & Hr & Hx & ->)] Hs; [done|]. destruct x as [out ph]. cbn in *. subst ph.
  inversion Hs; subst. by econstructor.
Qed.

Lemma change_event_token t c doc :
  change_event decodeIdKey t c = Ok doc ->
  exists tdoc, toBSON t = Ok tdoc /\ event_token doc = Ok tdoc.
Proof.
  destruct c as [r e|r x]; cbn; unfold event_document, ddl_document; intros H.
  - ok_inv H. exists a. split; [done|]. do 4 ok_inv H. by injection H as <-.
  - ok_inv H. ok_inv H. injection H as <-. by exists a0.
Qed.

Lemma invalidate_event_token t ns doc :
  invalidateEvent t ns = Ok doc -> exists tdoc, toBSON t = Ok tdoc /\ event_token doc = Ok tdoc.
Proof. unfold invalidateEvent. intros H. do 2 ok_inv H. injection H as <-. by exists a0. Qed.

(** A change reported from a state that had reported [out]. *)
Lemma reports_change rel lastTs ts out st id c doc :
  inv rel lastTs (out_add id c out) st -> id ∈ ids -> rec_ts (ch_record c) = lastTs ->
  cursors_ok ids (es_groups st) -> resumes st -> upto ts out -> ts <= lastTs ->
  change_event decodeIdKey (token_at st lastTs) c = Ok doc ->
  phase_ok st (phase_after scope (token_at st lastTs) c) ->
  exists rep y, step (out, Running) rep y /\ describes (Some doc) rep /\ matches y st /\ rep <> Idle.
Proof.
  intros H Hid Hts Hc Hr Hu Hle Hev Hph. destruct (event_exact _ _ _ _ _ _ H Hid Hts) as [Hrange Hex].
  destruct (change_event_token _ _ _ Hev) as (tdoc & Ht & _).
  exists (Changed id c (token_at st lastTs)), (out_add id c out, phase_after scope (token_at st lastTs) c).
  split_and!; [|done| |done].
  - constructor; try done. eapply issued_wf; try done; [lia|right; lia].
  - exists rel, lastTs. split_and!; try done. by eapply upto_add.
Qed.

Context (Hne : ids <> []) (Hown : forall t, resumed = Some t -> start = tok_timestamp t).

Lemma inv_source rel lastTs out st s' :
  inv rel lastTs out st -> source_ok (opened_at P0) rel lastTs s' -> s_logGroupIds s' = ids ->
  inv rel lastTs out (with_source st s').
Proof. by intros [] Hs Hi; split. Qed.

Lemma watermark_wf x st doc : matches x st -> toBSON (watermark st) = Ok doc -> wf_token (watermark st).
Proof.
  intros (rel & lastTs & Hinv & _ & _ & Hc & _) Ht. pose proof Hinv as [Hsrc Hi _ _ _ _].
  destruct (emitBound_range _ _ _ Hsrc Hi Hne) as [_ Hb]. eapply issued_wf; try done. by left.
Qed.

(** A round with a record to decode or to take. *)
Lemma current_round out st c ev st' :
  matches (out, Running) st -> es_current st = Some c -> next_current decodeIdKey st c = Ok (ev, st') ->
  match ev with
  | Some doc => exists rep y, step (out, Running) rep y /\ describes ev rep /\ matches y st' /\ rep <> Idle
  | None => exists y, silent (out, Running) y /\ matches y st'
  end.
Proof.
  intros (rel & lastTs & H & Hph & Hr & Hc & Hu) Ec Hn. cbn in H, Hph, Hu.
  destruct (next_current_spec _ _ _ _ _ _ _ _ Hstart Hdec _ _ _ _ _ _ _ H Ec Hn) as (_ & Er & Hp & Hcu & Hev).
  apply (resumes_same _ _ Er) in Hr. destruct ev as [doc|].
  - destruct Hev as (x & H' & Hts & Hev & Hx).
    destruct (si_current _ _ _ _ _ _ _ _ _ _ H c Ec) as [Hid _].
    eapply reports_change; try done; [by apply Hcu|by apply Hx].
  - exists (out, Running). split; [by left|]. destruct Hev as [H' _]. exists rel, lastTs.
    split_and!; [done|by apply Hp|done|by apply Hcu|done].
Qed.

(** The drop [own_drop] finds is the one the stream's own token reported. *)
Lemma own_drop_spec out st s' st' id d rel lastTs :
  inv rel lastTs out st -> resumes st -> upto lastTs out -> lastTs <= lr_ddl_ts d -> id ∈ ids ->
  source_ok (opened_at P0) (rel_add id (LDdl d) rel) (lr_ddl_ts d) s' -> s_logGroupIds s' = ids ->
  own_drop maxDepth EloqDoc (with_source st s') id (ddlKey d) d st' ->
  exists t c, own_drop_met out t id d c /\ phase_ok st' (Dropped (as_invalidate t) (dc_ns c)).
Proof.
  intros H [Hr Hkeys] Hu Hle Hid Hs Hi (t & c & Et & Ek & Hd & Hdr & Hc & Hph). cbn in Et, Ek, Hc.
  rewrite Hr in Et. rewrite (si_scope _ _ _ _ _ _ _ _ _ _ H) in Hc.
  destruct (Hkeys _ _ Ek) as (t' & e & Et' & Hts & EP & Ee). assert (t' = t) as -> by congruence.
  destruct (source_split P0 _ _ _ id Hs) as (rem & Hsp & _); [by rewrite Hi|].
  assert (LDdl d ∈ stream (opened_at P0) id) as Hin.
  { rewrite Hsp. unfold rel_add. rewrite Z.eqb_refl. set_solver. }
  assert (wf_record (LDdl d)) as Hwf.
  { destruct (stream_wf_at P0 id) as [Hw _]. by apply (proj1 (Forall_forall _ _) Hw). }
  pose proof (keyTimestamp_key _ Hwf) as Hk. change (rec_key (LDdl d)) with (ddlKey d) in Hk. cbn in Hk.
  exists t, c. split; [|done]. split_and!; try done; [|congruence| |].
  - apply list_elem_of_In, filter_In in Hin as [Hin _]. by apply list_elem_of_In.
  - intros x Ex. rewrite EP. cbn. rewrite Ex.
    assert (record_place e (LDdl d) = Before) as ->; [|done].
    destruct (Z.le_gt_cases (keyTimestamp (te_dataKey e)) (lr_ddl_ts d)) as [Hd'|Hd'].
    + by apply (place_ddl e d (LDdl d)).
    + apply place_lt. unfold entry_ts. cbn. lia.
  - intros g x Hg Hx. pose proof (Hu g x Hg Hx). destruct (reported_change _ _ _ _ g x H Hg Hx) as [Hlo _].
    rewrite (Hown t) in Hlo by congruence. lia.
Qed.

Lemma record_round out st s' record r rel lastTs ev st' :
  inv rel lastTs out st -> phase_ok st Running -> resumes st -> cursors_ok ids (es_groups st) -> upto lastTs out ->
  es_current st = None -> sr_record record = Ok r -> sr_logGroupId record ∈ ids -> lastTs <= rec_ts r ->
  source_ok (opened_at P0) (rel_add (sr_logGroupId record) r rel) (rec_ts r) s' -> s_logGroupIds s' = ids ->
  begin maxDepth EloqDoc (with_source st s') record = Ok (ev, st') ->
  match ev with
  | Some doc => exists rep y, step (out, Running) rep y /\ describes ev rep /\ matches y st' /\ rep <> Idle
  | None => exists y, silent (out, Running) y /\ matches y st'
  end.
Proof.
  intros H Hph Hr Hc Hu Ec Hrec Hid Hle Hs Hi Hb.
  pose proof (si_scope _ _ _ _ _ _ _ _ _ _ H) as Hsc.
  destruct (begin_kept maxDepth EloqDoc scope ids (with_source st s') _ _ _ Hid Hsc Hb) as (Er & Hcu & Hdrop).
  destruct (begin_spec decodeIdKey _ _ _ _ _ _ _ Hstart Hdec _ _ _ _ _ _ _ _ _ H Ec Hrec Hid Hs Hi Hb) as [_ Hev].
  assert (resumes st') as Hr' by exact (resumes_same _ _ Er Hr). destruct ev as [doc|].
  - destruct Hev as (x & H' & Hts & Hev & Hx).
    eapply reports_change; try done; [by apply Hcu|by apply Hx].
  - destruct (Hdrop eq_refl Hph) as [Hrun|(d & Ed & Hd)].
    + exists (out, Running). split; [by left|]. eexists _, _. split_and!; [done|done|done|by apply Hcu|by eapply upto_le].
    + rewrite Hrec in Ed. injection Ed as ->.
      destruct (own_drop_spec _ _ _ _ _ _ _ _ H Hr Hu Hle Hid Hs Hi Hd) as (t & c & Hmet & Hph').
      exists (out, Dropped (as_invalidate t) (dc_ns c)). split.
      { right. by exists t, (sr_logGroupId record), d, c. }
      eexists _, _. split_and!; [done|done|done|by apply Hcu|by eapply upto_le].
Qed.

Lemma round_spec x sfuel st deadline p :
  matches x st -> next_round env decodeIdKey maxDepth EloqDoc sfuel st deadline = Some (Ok p) ->
  match p with
  | Again st' => exists y, silent x y /\ matches y st'
  | Return (ev, st') => exists rep y, step x rep y /\ describes ev rep /\ matches y st' /\
      (rep = Idle -> rested y st')
  end.
Proof.
  destruct x as [out ph]. intros Hm Hn. pose proof Hm as (rel & lastTs & H & Hph & Hr & Hc & Hu).
  unfold next_round in Hn. destruct ph as [|t ns|t]; cbn in H, Hph, Hu.
  - destruct Hph as [Hi Hpe]. rewrite Hi, Hpe in Hn.
    destruct (es_current st) as [c|] eqn:Ec.
    + injection Hn as Hn. ok_inv Hn. destruct a as [ev st'].
      pose proof (current_round out st c ev st' Hm Ec E) as Hev.
      destruct ev as [doc|]; injection Hn as <-; [|done]. naive_solver.
    + destruct (ScanSource.next _ _ _ _) as [[[o s']|]|] eqn:En; [|done|done].
      pose proof (source_next_spec (opened_at P0) _ _ _ _ _ _ (si_source _ _ _ _ _ _ _ _ _ _ H) En)
        as [Hl Ho]. pose proof (si_ids _ _ _ _ _ _ _ _ _ _ H) as Hids'.
      assert (s_logGroupIds s' = ids) as Hi' by (rewrite <- Hids'; apply Hl).
      destruct o as [record|].
      * destruct Ho as (r & Hrec & Hle & Hid & _ & Hs). rewrite Hids' in Hid. injection Hn as Hn. ok_inv Hn.
        destruct a as [ev st'].
        pose proof (record_round out st s' record r rel lastTs ev st' H (conj Hi Hpe) Hr Hc Hu Ec Hrec Hid Hle Hs Hi' E) as Hev.
        destruct ev as [doc|]; injection Hn as <-; [|done]. naive_solver.
      * destruct Ho as (Hs & Hd & Hdr & _). injection Hn as <-.
        pose proof (inv_source _ _ _ _ _ H Hs Hi') as H'.
        exists Idle, (out, Running). split_and!; [constructor|done| |].
        { exists rel, lastTs. done. }
        intros _ _. split; [done|]. by eapply watermark_left.
  - destruct Hph as [Hi (doc & Hpe & Hd)]. rewrite Hi, Hpe in Hn. injection Hn as Hn. ok_inv Hn. injection Hn as <-.
    destruct (invalidate_event_token _ _ _ Hd) as (tdoc & Ht & Het). rewrite Het in E. injection E as <-.
    exists (Invalidated t ns), (out, Ended t). split_and!; [constructor|done| |done].
    exists rel, lastTs. split_and!; try done. cbn. by destruct H.
  - rewrite (proj1 Hph) in Hn. injection Hn as <-. exists Idle, (out, Ended t).
    split_and!; [constructor|done| |done]. exists rel, lastTs. done.
Qed.

Lemma rounds_spec fuel sfuel deadline : forall x st ev st',
  matches x st -> next_rounds env decodeIdKey maxDepth EloqDoc fuel sfuel st deadline = Some (Ok (ev, st')) ->
  exists rep y, step x rep y /\ describes ev rep /\ matches y st' /\ (rep = Idle -> rested y st').
Proof.
  induction fuel as [|fuel IH]; intros x st ev st' Hm Hn; [done|]. cbn [next_rounds] in Hn.
  destruct (next_round _ _ _ _ _ _ _) as [[p|]|] eqn:E; [|done|done].
  pose proof (round_spec _ _ _ _ _ Hm E) as Hp. destruct p as [[ev1 st1]|st1]; [by injection Hn as <- <-|].
  destruct Hp as (y & Hs & Hm'). destruct (IH _ _ _ _ Hm' Hn) as (rep & z & Hst & Hrest).
  exists rep, z. split; [by eapply silent_step|done].
Qed.

Lemma pull_spec fuel sfuel deadline x st ev st' :
  matches x st -> EventStream.next env decodeIdKey maxDepth EloqDoc fuel sfuel st deadline = Some (Ok (ev, st')) ->
  exists rep y, step x rep y /\ describes ev rep /\ matches y st' /\ (rep = Idle -> rested y st').
Proof.
  intros Hm Hn. unfold EventStream.next in Hn. destruct (bool_decide _); [done|].
  destruct (next_rounds _ _ _ _ _ _ _ _) as [[[ev1 st1]|]|] eqn:E; [|done|done]. injection Hn as <- <-.
  destruct (rounds_spec _ _ _ _ _ _ _ Hm E) as (rep & y & Hs & Hd & (rel & lastTs & H & Hph & Hr & Hc & Hu) & Hrest).
  exists rep, y. split_and!; [done|done| |done].
  exists rel, lastTs. destruct (source_now_ok _ _ _ _ (si_source _ _ _ _ _ _ _ _ _ _ H)) as [Hs' (_ & Hi & _)].
  split_and!; [|by destruct (y.2)|done|done|done].
  pose proof (inv_source _ _ _ _ _ H Hs') as H'. rewrite Hi in H'. specialize (H' (si_ids _ _ _ _ _ _ _ _ _ _ H)).
  by destruct H'.
Qed.

Lemma pulls_run fuel sfuel deadlines : forall x st events st',
  matches x st -> pull_events env decodeIdKey maxDepth EloqDoc fuel sfuel st deadlines = Some (Ok (events, st')) ->
  exists reports y, Forall2 describes events reports /\ run x reports y /\ matches y st' /\
    (last reports = Some Idle -> rested y st').
Proof.
  induction deadlines as [|d ds IH]; intros x st events st' Hm Hp; cbn in Hp.
  { injection Hp as <- <-. exists [], x. split_and!; [constructor|constructor|done|done]. }
  destruct (EventStream.next _ _ _ _ _ _ _ _) as [[[ev st1]|]|] eqn:En; [|done|done].
  destruct (pull_events _ _ _ _ _ _ _ _) as [[[evs st2]|]|] eqn:Ep; [|done|done]. injection Hp as <- <-.
  destruct (pull_spec _ _ _ _ _ _ _ Hm En) as (rep & y & Hs & Hd & Hm1 & Hrest1).
  destruct (IH _ _ _ _ Hm1 Ep) as (reports & z & Hds & Hr & Hm2 & Hrest2).
  exists (rep :: reports), z. split_and!; [by constructor|by econstructor|done|].
  destruct reports as [|r reports]; [|done]. cbn. intros [= ->].
  inversion Hds; subst. destruct ds as [|d' ds].
  - cbn in Ep. injection Ep as <-. inversion Hr; subst. by apply Hrest1.
  - exfalso. cbn in Ep. destruct (EventStream.next _ _ _ _ _ _ _ d') as [[[? ?]|]|]; [|done|done].
    by destruct (pull_events _ _ _ _ _ _ _ _) as [[[? ?]|]|].
Qed.

(** *** Rounds come to an end *)

(** The records left to take, and the one being decoded. *)
Definition left_in (rel : Z -> list LogRecord) : list nat :=
  map (fun id => length (stream (opened_at P0) id) - length (rel id))%nat ids.

Definition work (rel : Z -> list LogRecord) (st : CdcEventStream) : nat :=
  2 * sum_list (left_in rel) + match es_current st with Some _ => 1 | None => 0 end.

Lemma sum_map_lt {A} (f g : A -> nat) l x :
  (forall y, f y <= g y)%nat -> x ∈ l -> (f x < g x)%nat -> (sum_list (map f l) < sum_list (map g l))%nat.
Proof.
  intros Hle. induction l as [|y l IH]; intros Hx Hlt; [by apply not_elem_of_nil in Hx|]. cbn.
  assert (sum_list (map f l) <= sum_list (map g l))%nat as Hl.
  { clear -Hle. induction l as [|z l IH]; [done|]. cbn. specialize (Hle z). lia. }
  apply elem_of_cons in Hx as [<-|Hx]; [lia|]. specialize (IH Hx Hlt). specialize (Hle y). lia.
Qed.

Lemma taken_work rel id r st st' rem :
  id ∈ ids -> stream (opened_at P0) id = rel_add id r rel id ++ rem -> es_current st = None ->
  (work (rel_add id r rel) st' < work rel st)%nat.
Proof.
  intros Hid Hsp Ec.
  assert (sum_list (left_in (rel_add id r rel)) < sum_list (left_in rel))%nat as Hlt.
  { apply (sum_map_lt _ _ _ id); [|done|].
    - intros k. unfold rel_add. destruct (k =? id); rewrite ?length_app; lia.
    - rewrite Hsp. unfold rel_add. rewrite Z.eqb_refl, !length_app. cbn. lia. }
  unfold work. rewrite Ec. destruct (es_current st'); lia.
Qed.

Abbreviation tick st := (c_tick (s_client (es_source st))).

Lemma again_work rel lastTs out st sfuel deadline st' :
  inv rel lastTs out st -> next_round env decodeIdKey maxDepth EloqDoc sfuel st deadline = Some (Ok (Again st')) ->
  exists rel' lastTs', inv rel' lastTs' out st' /\ (work rel' st' < work rel st)%nat /\
    (tick st <= tick st')%nat.
Proof.
  intros H Hn. unfold next_round in Hn. destruct (es_invalidated st); [done|].
  destruct (es_pendingInvalidate st). { by destruct (event_token _). }
  destruct (es_current st) as [c|] eqn:Ec.
  - injection Hn as Hn. ok_inv Hn. destruct a as [[doc|] st1]; [done|]. injection Hn as <-.
    destruct (next_current_spec _ _ _ _ _ _ _ _ Hstart Hdec _ _ _ _ _ _ _ H Ec E) as (Es & _ & _ & _ & H' & Ec').
    exists rel, lastTs. split_and!; [done| |by rewrite Es]. unfold work. rewrite Ec, Ec'. lia.
  - destruct (ScanSource.next _ _ _ _) as [[[[record|] s']|]|] eqn:En; try done.
    pose proof (source_next_spec (opened_at P0) _ _ _ _ _ _ (si_source _ _ _ _ _ _ _ _ _ _ H) En)
      as [Hl (r & Hrec & _ & Hid & _ & Hs)].
    pose proof (si_ids _ _ _ _ _ _ _ _ _ _ H) as Hids'. rewrite Hids' in Hid.
    assert (s_logGroupIds s' = ids) as Hi' by (rewrite <- Hids'; apply Hl).
    injection Hn as Hn. ok_inv Hn. destruct a as [[doc|] st1]; [done|]. injection Hn as <-.
    destruct (begin_spec decodeIdKey _ _ _ _ _ _ _ Hstart Hdec _ _ _ _ _ _ _ _ _ H Ec Hrec Hid Hs Hi' E) as [Es H'].
    eexists _, _. split_and!; [done| |rewrite Es; apply Hl].
    destruct (source_split P0 _ _ _ (sr_logGroupId record) Hs) as (rem & Hsp & _); [by rewrite Hi'|].
    by eapply taken_work.
Qed.

Lemma rounds_return K deadline : (forall k, (K <= k)%nat -> deadline <= now_at env k) ->
  forall fuel sfuel rel lastTs out st, inv rel lastTs out st -> (work rel st < fuel)%nat -> (K - tick st < sfuel)%nat ->
  is_Some (next_rounds env decodeIdKey maxDepth EloqDoc fuel sfuel st deadline).
Proof.
  intros HK. induction fuel as [|fuel IH]; intros sfuel rel lastTs out st H Hf Hs; [lia|]. cbn [next_rounds].
  assert (is_Some (next_round env decodeIdKey maxDepth EloqDoc sfuel st deadline)) as [p Hp].
  { unfold next_round. destruct (es_invalidated st); [done|]. destruct (es_pendingInvalidate st); [done|].
    destruct (es_current st); [done|]. unfold ScanSource.next.
    pose proof (si_source _ _ _ _ _ _ _ _ _ _ H) as Hso. rewrite (source_ok_started _ _ _ _ Hso).
    destruct (next_loop_terminates _ _ _ sfuel (es_source st) deadline true K Hso HK) as [x ->]; [done|].
    by destruct x as [[[|] ?]|]. }
  rewrite Hp. destruct p as [[[ev st1]|st1]|e]; [done| |done].
  destruct (again_work _ _ _ _ _ _ _ H Hp) as (rel' & lastTs' & H' & Hw & Ht). eapply IH; [done|lia|lia].
Qed.

Lemma work_bound rel st : (work rel st <= 1 + 2 * sum_list (map (fun id => length (sc_history id)) ids))%nat.
Proof.
  unfold work. assert (sum_list (left_in rel) <= sum_list (map (fun id => length (sc_history id)) ids))%nat.
  { unfold left_in. clear. induction ids as [|id l IH]; [done|]. cbn.
    assert (length (stream (opened_at P0) id) <= length (sc_history id))%nat
      by (unfold stream, records_from; apply List.filter_length_le). lia. }
  destruct (es_current st); lia.
Qed.

End Refinement.

(** ** Opening a stream *)

Section Open.

Context {env : Env} `{!ScanContract env} (maxDepth EloqDoc : Z).

(** A stream opened, fresh or at a token; [tok] is the token it issues before any event. *)
Definition opens (ids : list Z) (scope : CdcStreamScope) (o : CdcEventStreamOptions) (tok : CdcResumeToken)
    (st : CdcEventStream) : Prop :=
  parse (es_openingToken st) = Ok tok /\
  exists st0, newStream ids scope o = Ok st0 /\
    (openAt st0 tok = Ok st \/ exists fuel deadline, openFresh env fuel st0 deadline = Some (Ok (true, st))).

(** The state of a group a token gives a position. *)
Definition opened_group (p : Position) (g : EGroup) : EGroup :=
  match p with PFrom _ => g | PEntry e => resumed_group e g end.

(** What opening the groups leaves alone. *)
Definition same_stream (st st' : CdcEventStream) : Prop :=
  es_scope st' = es_scope st /\ es_options st' = es_options st /\ es_current st' = es_current st /\
  es_pendingInvalidate st' = es_pendingInvalidate st /\ es_invalidated st' = es_invalidated st /\
  es_resumedFrom st' = es_resumedFrom st /\ es_ownDropKeys st' = es_ownDropKeys st.

Lemma entryFor_id es id e : entryFor es id = Some e -> te_logGroupId e = id /\ e ∈ es.
Proof.
  induction es as [|x es IH]; cbn; [done|]. destruct (Z.eqb_spec (te_logGroupId x) id) as [E|E].
  - intros [= <-]. set_solver.
  - intros H%IH. set_solver.
Qed.

Lemma entryFor_in es e : NoDup (te_logGroupId <$> es) -> e ∈ es -> entryFor es (te_logGroupId e) = Some e.
Proof.
  induction es as [|x es IH]; cbn; intros Hnd Hin; [by apply not_elem_of_nil in Hin|].
  apply NoDup_cons in Hnd as [Hx Hnd]. apply elem_of_cons in Hin as [-> |Hin]; [by rewrite Z.eqb_refl|].
  destruct (Z.eqb_spec (te_logGroupId x) (te_logGroupId e)) as [E|]; [|by apply IH].
  exfalso. apply Hx. rewrite E. by apply list_elem_of_fmap_2.
Qed.

Lemma own_drop_keys_from tok id key :
  own_drop_keys tok !! id = Some key ->
  exists e, e ∈ tok_entries tok /\ te_logGroupId e = id /\ te_ddlKey e = key /\ keyTimestamp key = tok_timestamp tok.
Proof.
  unfold own_drop_keys. set (f := fun m e => _).
  assert (forall es (m : gmap Z bytes), es ⊆ tok_entries tok ->
    (forall i k, m !! i = Some k -> exists e, e ∈ tok_entries tok /\ te_logGroupId e = i /\ te_ddlKey e = k /\
      keyTimestamp k = tok_timestamp tok) ->
    forall i k, foldl f m es !! i = Some k -> exists e, e ∈ tok_entries tok /\ te_logGroupId e = i /\
      te_ddlKey e = k /\ keyTimestamp k = tok_timestamp tok) as H.
  - induction es as [|e es IH]; intros m Hsub Hm; [done|]. cbn [foldl]. apply IH; [set_solver|].
    intros i k. unfold f. destruct (_ && _ && _) eqn:E; [|apply Hm].
    apply andb_true_iff in E as [[_ E%Z.eqb_eq]%andb_true_iff _].
    destruct (decide (i = te_logGroupId e)) as [-> |Hne]; [|rewrite lookup_insert_ne by done; apply Hm].
    rewrite lookup_insert_eq. intros [= <-]. exists e. split_and!; try done. set_solver.
  - apply H; [done|]. intros i k. by rewrite lookup_empty.
Qed.

Lemma open_groups_spec tok start ids st st' :
  startTimestampForAbsentGroup tok = Ok start -> 1 <= start -> NoDup ids -> wf_token tok ->
  open_groups tok start ids st = Ok st' ->
  startEach (es_source st) ids (opened_at (token_position tok)) = Ok (es_source st') /\
  same_stream st st' /\
  (forall k, group_at st' k = if decide (k ∈ ids) then opened_group (token_position tok k) (group_at st k) else group_at st k) /\
  (forall all, ids ⊆ all -> cursors_ok all (es_groups st) -> cursors_ok all (es_groups st')).
Proof.
  intros Hst Hpos. revert st. induction ids as [|id ids IH]; intros st Hnd Hwf H; cbn [open_groups] in H.
  { injection H as <-. done. }
  apply NoDup_cons in Hnd as [Hnin Hnd]. ok_inv H. rename a into st1.
  assert (exists s1, startAt (es_source st) id (opened_at (token_position tok) id) = Ok s1 /\ es_source st1 = s1 /\
    same_stream st st1 /\
    (forall k, group_at st1 k = if decide (k = id) then opened_group (token_position tok k) (group_at st k) else group_at st k) /\
    (forall all, id ∈ all -> cursors_ok all (es_groups st) -> cursors_ok all (es_groups st1))) as
    (s1 & Hs1 & Es & Hsame & Hg & Hc).
  { clear H IH. unfold opened_at. unfold token_position at 1. rewrite Hst.
    destruct (entryFor (tok_entries tok) id) as [e|] eqn:Ee.
    - destruct (entryFor_id _ _ _ Ee) as [_ Hin]. fold (entry_ts e) in E. destruct (Z.ltb_spec (entry_ts e) start).
      + ok_inv E. injection E as <-. exists a. split_and!; [done|done|done| |done].
        intros k. destruct (decide (k = id)) as [-> |]; [|done].
        unfold token_position. rewrite Hst, Ee, (proj2 (Z.ltb_lt _ _)) by done. done.
      + ok_inv E. injection E as <-. exists a. split_and!; [done|done|done| |].
        * intros k. change (group_at (with_source ?s a) k) with (group_at s k). rewrite group_at_insert.
          destruct (decide (k = id)) as [-> |]; [|done].
          unfold token_position. rewrite Hst, Ee, (proj2 (Z.ltb_ge _ _)) by done. done.
        * intros all Hall Hc. destruct Hwf as (_ & _ & _ & _ & Hw & _).
          apply (proj1 (Forall_forall _ _) Hw) in Hin. apply cursors_insert; [done|done|apply Hin|apply Hin].
    - cbn in E. rewrite (proj2 (Z.ltb_lt _ _)) in E by lia. ok_inv E. injection E as <-. exists a.
      split_and!; [done|done|done| |done]. intros k. destruct (decide (k = id)) as [-> |]; [|done].
      unfold token_position. by rewrite Hst, Ee. }
  destruct (IH st1 Hnd Hwf H) as (H1 & Hsame' & Hg' & Hc'). split_and!.
  - cbn [startEach]. rewrite Hs1. cbn [rbind]. by rewrite <- Es.
  - unfold same_stream in *. intuition congruence.
  - intros k. rewrite Hg', Hg. destruct (decide (k = id)) as [-> |].
    + rewrite decide_False by done. by rewrite decide_True by set_solver.
    + destruct (decide (k ∈ ids)); [by rewrite decide_True by set_solver|by rewrite decide_False by set_solver].
  - intros all Hall Hcu. apply Hc'; [set_solver|]. apply Hc; [set_solver|done].
Qed.

Lemma token_start tok :
  wf_token tok -> exists start, startTimestampForAbsentGroup tok = Ok start /\ 1 <= start <= u64_max.
Proof.
  intros (Hts & Hw & He & _). unfold startTimestampForAbsentGroup, uassert, is_u64, u64_max in *.
  case_bool_decide as Hk; cbn [negb].
  - rewrite (proj2 (Z.eqb_neq _ _)) by auto. eexists. split; [done|]. specialize (Hw Hk).
    unfold wrap64. rewrite Z.mod_small by lia. lia.
  - rewrite (proj2 (Z.eqb_neq _ _)) by auto. eexists. split; [done|]. specialize (He Hk). lia.
Qed.

Lemma token_position_cases tok start id :
  startTimestampForAbsentGroup tok = Ok start ->
  token_position tok id = PFrom start \/
  exists e, token_position tok id = PEntry e /\ start <= entry_ts e /\ te_logGroupId e = id /\ e ∈ tok_entries tok.
Proof.
  intros Hs. unfold token_position. rewrite Hs. destruct (entryFor (tok_entries tok) id) as [e|] eqn:E; [|by left].
  destruct (Z.ltb_spec (entry_ts e) start); [by left|]. right. exists e. by apply entryFor_id in E as [-> ?].
Qed.

Lemma keyTimestamp_range key : 0 <= keyTimestamp key < 2 ^ 64.
Proof.
  unfold keyTimestamp, blen. destruct (Z.ltb_spec (Z.of_nat (length key)) 8); [lia|].
  pose proof (readBigEndian_range (take 8 key)) as Hr. unfold blen in Hr. rewrite length_take in Hr.
  by replace (Z.of_nat (8 `min` length key)) with 8 in Hr by lia.
Qed.

Lemma source_ok_from from from' rel lastTs s :
  (forall id, from id = from' id) -> source_ok from rel lastTs s -> source_ok from' rel lastTs s.
Proof.
  intros E [Hids Hnd Hc Hg Hb]. split; try done. eapply Forall_impl; [exact Hg|].
  intros g [[buf [? Hsp ? ? ? Hw ?]] Hcall]. split; [|done]. exists buf. split; try done.
  - unfold stream in *. by rewrite <- E.
  - by rewrite <- E.
Qed.

(** A group at its opening. *)
Lemma opened_idle scope limit tok start id rem :
  startTimestampForAbsentGroup tok = Ok start -> wf_token tok ->
  idle scope limit maxDepth EloqDoc id (token_position tok id) (opened_group (token_position tok id) newEGroup) [] rem [].
Proof.
  intros Hs (_ & _ & _ & _ & Hw & _). split; [|by destruct (token_position tok id)|done].
  destruct (token_position_cases tok start id Hs) as [-> |(e & -> & _ & Hid & Hin)]; cbn [opened_group].
  - split; [by left|]. left. split; [done| |constructor]. intros _. split_and!; [by exists start|done|done].
  - apply (proj1 (Forall_forall _ _) Hw) in Hin as (_ & _ & _ & _ & _ & Hform).
    split; [by left|]. left. split; [|done|constructor]. unfold position. cbn. f_equal. unfold cursor_entry. cbn.
    destruct e as [lg f dk lk sc en]. cbn in *. subst lg.
    case_bool_decide as Hf; subst; [done|]. destruct f; [|done]. by destruct Hform as [-> ->].
Qed.

(** What opening establishes. *)
Record opened (ids : list Z) (scope : CdcStreamScope) (limit : Z) (tok : CdcResumeToken) (st : CdcEventStream) : Prop := {
  op_ne : ids <> [];
  op_wf : wf_token tok;
  op_from : es_resumedFrom st = None \/ es_resumedFrom st = Some tok /\ tok_kind tok = kEvent;
  op_start : exists start, (forall id, id ∈ ids ->
    token_position tok id = PFrom start \/ exists e, token_position tok id = PEntry e /\ start <= entry_ts e) /\
    forall t, es_resumedFrom st = Some t -> start = tok_timestamp t;
  op_matches : matches maxDepth EloqDoc scope limit ids (token_position tok) (es_resumedFrom st)
    (fun _ => [], Running) st;
}.

(** The state after opening, from the source's and the groups'. *)
Lemma opened_intro ids scope limit tok st start :
  ids <> [] -> wf_token tok -> startTimestampForAbsentGroup tok = Ok start ->
  (es_resumedFrom st = None \/ es_resumedFrom st = Some tok /\ tok_kind tok = kEvent) ->
  (forall id key, es_ownDropKeys st !! id = Some key -> es_resumedFrom st <> None /\ own_drop_keys tok !! id = Some key) ->
  source_ok (opened_at (token_position tok)) (fun _ => []) 0 (es_source st) -> s_logGroupIds (es_source st) = ids ->
  es_scope st = scope -> eo_dedupSetBytes (es_options st) = limit -> es_current st = None ->
  phase_ok st Running -> cursors_ok ids (es_groups st) ->
  (forall id, id ∈ ids -> group_at st id = opened_group (token_position tok id) newEGroup) ->
  opened ids scope limit tok st.
Proof.
  intros Hne Hwf Hs Hfrom Hkeys Hsrc Hi Hsc Hl Ec Hph Hc Hg.
  assert (tok_kind tok = kEvent -> start = tok_timestamp tok) as Hev.
  { intros E. unfold startTimestampForAbsentGroup in Hs. 
    rewrite bool_decide_eq_false_2 in Hs by congruence. cbn [negb] in Hs. unfold uassert in Hs.
    destruct (negb (tok_timestamp tok =? 0)); [|done]. by injection Hs. }
  split; try done.
  - exists start. split.
    + intros id _. destruct (token_position_cases tok start id Hs) as [|(e & ? & ? & _)]; [by left|right; eauto].
    + intros t Ht. destruct Hfrom as [|[? ?]]; [congruence|]. assert (t = tok) as -> by congruence. auto.
  - exists (fun _ => []), 0. split_and!; [|done| |done|by intros ? ? _ ?%not_elem_of_nil].
    2: { split; [done|]. intros id key Hk. destruct (Hkeys id key Hk) as [Hn Hk'].
      destruct Hfrom as [|[Hf Hkind]]; [done|]. rewrite Hf.
      apply own_drop_keys_from in Hk' as (e & Hin & Hid & Hd & Hts). exists tok, e. split_and!; try done.
      unfold token_position. rewrite Hs, <- Hid, (entryFor_in _ e); [|apply Hwf|done].
      rewrite (proj2 (Z.ltb_ge _ _)); [done|]. rewrite (Hev Hkind), <- Hts, <- Hd. unfold entry_ts. lia. }
    split; try done.
    + intros id Hid. exists (stream (opened_at (token_position tok)) id). split; [done|].
      unfold current_of. rewrite Ec, Hg by done. by eapply opened_idle.
    + intros c. congruence.
Qed.

Lemma openAt_opened ids scope o tok st0 st :
  NoDup ids -> wf_token tok -> newStream ids scope o = Ok st0 -> openAt st0 tok = Ok st ->
  opened ids scope (eo_dedupSetBytes o) tok st.
Proof.
  intros Hnd Hwf H0 H. unfold newStream in H0. ok_inv H0. injection H0 as <-.
  destruct (newSource_fresh (env:=env) ids _ _ Hnd E) as (Hfr & Hi & Hp).
  destruct (token_start tok Hwf) as (start & Hs & Hr).
  unfold openAt in H. ok_inv H. rewrite Hs in H. cbn [rbind] in H. set (st1 := if bool_decide _ then _ else _) in H.
  assert (same_stream st1 st1 /\ es_source st1 = a /\ es_scope st1 = scope /\ es_options st1 = o /\
    es_current st1 = None /\ phase_ok st1 Running /\ es_groups st1 = ∅ /\
    (es_resumedFrom st1 = None \/ es_resumedFrom st1 = Some tok /\ tok_kind tok = kEvent) /\
    (forall id key, es_ownDropKeys st1 !! id = Some key ->
      es_resumedFrom st1 <> None /\ own_drop_keys tok !! id = Some key))
    as (_ & Es & Esc & Eo & Ec & Hph & Eg & Hfrom & Hkeys).
  { unfold st1. destruct (bool_decide_reflect (tok_kind tok = kEvent));
      [destruct (bool_decide_reflect (own_drop_keys tok = ∅)) as [Hempty|]|]; split_and!; try done; try (by left); try (by right);
      cbn; intros id key; rewrite ?Hempty, ?lookup_empty; done. }
  ok_inv H. ok_inv H. injection H as <-. rename a1 into st2.
  rewrite Es, Hi in E1. apply (open_groups_spec _ _ _ _ _ Hs) in E1 as (Hst & Hsame & Hg & Hc); [|lia|done|done].
  destruct Hsame as (Esc' & Eo' & Ec' & Ep' & Einv' & Er' & Ek').
  rewrite Es in Hst. rewrite <- Hi in Hst.
  destruct (startEach_ok (opened_at (token_position tok)) a (es_source st2) Hfr) as [[Hok _] Hi2]; [done| |done|].
  { intros id _. unfold opened_at. destruct (token_position_cases tok start id Hs) as [-> |(e & -> & Hle & _)]; cbn; [lia|].
    pose proof (keyTimestamp_range (te_dataKey e)). pose proof (keyTimestamp_range (te_ddlKey e)).
    unfold entry_ts, u64_max in *. lia. }
  eapply opened_intro; try done; cbn.
  - rewrite <- Hi. apply Hfr.
  - by rewrite Er'.
  - by rewrite Ek', Er'.
  - congruence.
  - congruence.
  - congruence.
  - congruence.
  - destruct Hph. split; cbn; congruence.
  - apply Hc; [done|]. rewrite Eg. intros k g. by rewrite lookup_empty.
  - intros id Hid. change (group_at (with_openingToken ?s ?t) id) with (group_at s id).
    rewrite Hg, decide_True by done. unfold group_at. by rewrite Eg, lookup_empty.
Qed.

Lemma openFresh_opened ids scope o tok st0 st fuel deadline :
  NoDup ids -> parse (es_openingToken st) = Ok tok -> newStream ids scope o = Ok st0 ->
  openFresh env fuel st0 deadline = Some (Ok (true, st)) -> opened ids scope (eo_dedupSetBytes o) tok st.
Proof.
  intros Hnd Hparse H0 H. unfold newStream in H0. ok_inv H0. injection H0 as <-.
  destruct (newSource_fresh (env:=env) ids _ _ Hnd E) as (Hfr & Hi & Hp).
  unfold openFresh in H. cbn [es_openingToken length negb bool_decide] in H.
  destruct (negb _); [done|]. cbn [es_source] in H. unfold fixStart in H. rewrite (fresh_unstarted _ Hfr) in H.
  destruct (fixStart_loop _ _ _ _ _ _) as [x|] eqn:Ef; [|done].
  pose proof (fixStart_loop_spec _ _ _ _ _ x Hfr ltac:(by rewrite length_map) Ef) as Ho.
  destruct x as [[[start|] s1]|]; [|done|done].
  destruct Ho as (Hi1 & Hr & _ & _ & [Hok _]).
  assert (wf_token (makeWatermark start [])) as Hwf.
  { unfold wf_token, is_u64, u64_max in *. cbn. split_and!; try done; try lia; constructor. }
  destruct (toBSON_parse _ Hwf) as (doc & Ht & Hd). rewrite Ht in H. cbn [rbind] in H.
  injection H as <-. cbn in Hparse. rewrite Hd in Hparse. injection Hparse as <-.
  assert (startTimestampForAbsentGroup (makeWatermark start []) = Ok (start + 1)) as Hs.
  { unfold startTimestampForAbsentGroup, uassert. cbn [makeWatermark tok_kind tok_timestamp].
    rewrite bool_decide_eq_true_2 by done. cbn [negb].
    rewrite (proj2 (Z.eqb_neq start u64_max)) by lia. cbn [negb rbind].
    f_equal. unfold wrap64, u64_max in *. apply Z.mod_small. lia. }
  assert (forall id, token_position (makeWatermark start []) id = PFrom (start + 1)) as Hpos
    by (intros id; unfold token_position; by rewrite Hs).
  eapply opened_intro; try done; cbn.
  - rewrite <- Hi. apply Hfr.
  - by left.
  - eapply source_ok_from; [|exact Hok]. intros id. unfold opened_at. by rewrite Hpos.
  - congruence.
  - intros id Hid. by rewrite Hpos.
Qed.

Lemma opens_opened ids scope o tok st :
  NoDup ids -> opens ids scope o tok st -> opened ids scope (eo_dedupSetBytes o) tok st.
Proof.
  intros Hnd (Hp & st0 & H0 & [H|(fuel & deadline & H)]).
  - eapply openAt_opened; try done. by eapply parse_wf.
  - by eapply openFresh_opened.
Qed.

End Open.

(** * Properties *)

Section Properties.

Context {env : Env} `{!ScanContract env} (decodeIdKey : bytes -> result Document) (maxDepth EloqDoc : Z).

(** A stream over these groups, opened at [tok], whose consecutive pulls returned [events]. *)
Context (ids : list Z) (scope : CdcStreamScope) (o : CdcEventStreamOptions) (tok : CdcResumeToken).
Context (st : CdcEventStream) (fuel sfuel : nat) (deadlines : list Z).
Context (events : list (option Document)) (st' : CdcEventStream).
Context (Hnd : NoDup ids) (Hids : Forall is_u32 ids).
Context (Hdec : forall id r, r ∈ sc_history id -> decodable scope maxDepth EloqDoc r).
Context (Hopen : opens (env:=env) ids scope o tok st).
Context (Hpull : pull_events env decodeIdKey maxDepth EloqDoc fuel sfuel st deadlines = Some (Ok (events, st'))).

Abbreviation left_of p id := (left_after scope (eo_dedupSetBytes o) maxDepth EloqDoc p (sc_history id)).
Abbreviation opened_run := (run maxDepth EloqDoc scope (eo_dedupSetBytes o) ids (token_position tok) (es_resumedFrom st)).

Lemma pulled_run :
  exists reports y, Forall2 (describes decodeIdKey) events reports /\
    opened_run (fun _ => [], Running) reports y /\
    matches maxDepth EloqDoc scope (eo_dedupSetBytes o) ids (token_position tok) (es_resumedFrom st) y st' /\
    (last reports = Some Idle ->
     rested maxDepth EloqDoc scope (eo_dedupSetBytes o) ids (token_position tok) y st').
Proof.
  destruct (opens_opened maxDepth EloqDoc ids scope o tok st Hnd Hopen) as [Hne Hwf Hfrom (start & Hstart & Hown) Hm].
  exact (pulls_run _ _ _ _ _ _ _ _ _ Hstart Hdec Hids Hne Hown _ _ _ _ _ _ _ Hm Hpull).
Qed.


(** C3. The watermark is exact. When the last pull found nothing to report and the stream has not
    ended, the token [watermark] issues leaves exactly what was not reported, so a consumer that
    stored it while the stream was quiet loses nothing and sees nothing twice; and its document
    parses back to it. *)
Theorem watermark_exact :
  last events = Some None -> es_invalidated st' = false ->
  exists reports, Forall2 (describes decodeIdKey) events reports /\
    (forall g, g ∈ ids ->
      left_of (token_position tok g) g =
        changes_of g reports ++ left_of (token_position (watermark st') g) g) /\
    forall doc, toBSON (watermark st') = Ok doc -> parse doc = Ok (watermark st').
Proof.
  intros Hl Hi. destruct pulled_run as (reports & [out ph] & Hd & Hr & Hm & Hrest). exists reports.
  pose proof Hm as (rel & lastTs & Hinv & Hph & _ & Hc & _). cbn in Hinv, Hph.
  assert (last reports = Some Idle) as Hlast.
  { rewrite last_lookup in Hl. rewrite last_lookup. rewrite <- (Forall2_length _ _ _ Hd).
    destruct (Forall2_lookup_l _ _ _ _ _ Hd Hl) as ([| |] & -> & Hx); done. }
  assert (ph = Running) as ->.
  { destruct ph as [|t ns|t]; [done| |cbn in Hph; destruct Hph; congruence].
    apply run_dropped in Hr as (j & id & r & c & t' & El & Hj & _). rewrite last_lookup, El in Hlast. cbn in Hlast.
    congruence. }
  pose proof (run_out _ _ _ _ _ _ _ _ _ _ Hr) as Hout. cbn in Hout. split_and!; [done| |].
  - intros g Hg. rewrite <- Hout. by apply Hrest.
  - intros doc Ht. destruct (opens_opened maxDepth EloqDoc ids scope o tok st Hnd Hopen) as [Hne _ _ (start & Hstart & _) _].
    pose proof (watermark_wf _ _ _ _ _ _ _ _ Hstart Hdec Hids Hne _ _ _ Hm Ht) as Hwf.
    destruct (toBSON_parse _ Hwf) as (doc' & Ht' & Hp). congruence.
Qed.



End Properties.

(** ** A stream and its log *)

(** Two log groups: in the first a transaction that inserts and deletes in [shop.orders], then the
    drop of it; in the second a replacement in between. *)
Definition ex_insert : LogSection :=
  mkLogSection (lit "shop.orders") 3 0
    (body_entries [mkLogEntry kInsert (lit "k1") [] (obj [(lit "_id", BInt 1); (lit "n", BInt 7)]);
                   mkLogEntry kDelete (lit "k2") [] []]).
Definition ex_replace : LogSection :=
  mkLogSection (lit "shop.orders") 3 0
    (body_entries [mkLogEntry kUpdate (lit "k3") [] (obj [(lit "_id", BInt 3)])]).
Definition ex_dropped : CdcDdlRecord :=
  mkDdlRecord 20 20 9 (mkSchemaOp 3 true (lit "shop.orders") kDropTable false [] []).

Definition ex_log (g : Z) : list LogRecord :=
  if g =? 1 then [LData (mkDataRecord 10 0 7 (encode_blob [ex_insert])); LDdl ex_dropped]
  else if g =? 2 then [LData (mkDataRecord 15 1 8 (encode_blob [ex_replace]))] else [].

Lemma ex_log_wf g : wf_history (ex_log g).
Proof. unfold ex_log. repeat case_match; split; repeat constructor; cbn; done. Qed.

Lemma ex_log_bound g : Forall (fun r => rec_ts r <= 100) (ex_log g).
Proof. unfold ex_log. repeat case_match; repeat constructor; done. Qed.

#[local] Instance ex_log_contract : ScanContract (prompt_env ex_log 0) :=
  prompt_contract ex_log 0 ex_log_wf ex_log_bound.

Definition on_orders : CdcStreamScope := scope_collection (lit "shop.orders").
Definition on_shop : CdcStreamScope := scope_database (lit "shop").

Lemma ex_log_decodable scope id r : scope = on_orders \/ scope = on_shop -> r ∈ ex_log id -> decodable scope 200 3 r.
Proof.
  intros Hs Hr.
  assert (Forall (decodable scope 200 3) (ex_log id)) as H; [|by apply (proj1 (Forall_forall _ _) H)].
  unfold ex_log. destruct Hs as [-> | ->]; repeat case_match; repeat constructor; cbn; eexists; vm_compute; reflexivity.
Qed.

(** The key decoder of a log whose keys are their [_id]. *)
Definition ex_decodeIdKey (key : bytes) : result Document := Ok [(lit "_id", BString key)].

Definition ex_stream_options : CdcEventStreamOptions := mkStreamOptions ScanSource.ex_options 4096.
Definition ex_token : CdcResumeToken := makeWatermark 5 [].

Definition ex_new (scope : CdcStreamScope) : CdcEventStream :=
  match newStream [1; 2] scope ex_stream_options with
  | Ok st => st
  | Err _ => mkEventStream ex_source scope ex_stream_options ∅ None [] ∅ None None false [] 0 0 (mkStats 0 0 0 0)
  end.
Definition ex_opened (scope : CdcStreamScope) : CdcEventStream :=
  match openAt (ex_new scope) ex_token with Ok st => st | Err _ => ex_new scope end.
Definition ex_pulled (scope : CdcStreamScope) : list (option Document) * CdcEventStream :=
  match pull_events (prompt_env ex_log 0) ex_decodeIdKey 200 3 50 100 (ex_opened scope) (repeat 60 6) with
  | Some (Ok x) => x
  | _ => ([], ex_opened scope)
  end.

Lemma ex_opens scope : scope = on_orders \/ scope = on_shop ->
  opens (env:=prompt_env ex_log 0) [1; 2] scope ex_stream_options ex_token (ex_opened scope).
Proof.
  intros Hs. split; [by destruct Hs as [-> | ->]; vm_compute|]. exists (ex_new scope).
  split; [by destruct Hs as [-> | ->]; vm_compute|]. left. by destruct Hs as [-> | ->]; vm_compute.
Qed.

Lemma ex_ids : Forall is_u32 [1; 2].
Proof. repeat constructor; done. Qed.

(** The operation types of events. *)
Definition operations (events : list (option Document)) : list bytes :=
  map (fun ev => match ev with
                 | Some doc => match getField doc (lit "operationType") with Some (BString s) => s | _ => [] end
                 | None => lit "-"
                 end) events.


Lemma watermark_exact_witness :
  operations (ex_pulled on_shop).1 =
    [lit "insert"; lit "delete"; lit "replace"; lit "drop"; lit "-"; lit "-"] /\
  tok_timestamp (watermark (ex_pulled on_shop).2) = 100 /\
  exists reports, Forall2 (describes ex_decodeIdKey) (ex_pulled on_shop).1 reports /\
    (forall g, g ∈ [1; 2] ->
      left_after on_shop 4096 200 3 (token_position ex_token g) (ex_log g) =
        changes_of g reports ++ left_after on_shop 4096 200 3 (token_position (watermark (ex_pulled on_shop).2) g) (ex_log g)) /\
    forall doc, toBSON (watermark (ex_pulled on_shop).2) = Ok doc -> parse doc = Ok (watermark (ex_pulled on_shop).2).
Proof.
  split; [vm_compute; reflexivity|]. split; [vm_compute; reflexivity|].
  exact (watermark_exact ex_decodeIdKey 200 3 [1; 2] on_shop ex_stream_options ex_token (ex_opened on_shop)
    50 100 (repeat 60 6) (ex_pulled on_shop).1 (ex_pulled on_shop).2 ex_nodup ex_ids
    (fun id r => ex_log_decodable on_shop id r (or_intror eq_refl)) (ex_opens _ (or_intror eq_refl))
    ltac:(vm_compute; reflexivity) ltac:(vm_compute; reflexivity) ltac:(vm_compute; reflexivity)).
Defined.


