(* ===== verification/ClientSession.v ===== *)
(** * What a client can resume from

    The replies of a change stream, from its specification to the last getMore: what was delivered
    is what the user's stages made of a prefix of the events, and each reply's token resumes right
    after that prefix. The proof follows a pull outwards, from the event stream ([StreamRefinement])
    through the stage, the pipeline and the executor to the batch loops. *)

From S2P Require Import Prelude Bytes Bson RawBson BsonBuilder ResumeToken BlobDecoder LogService.
From S2P Require Import DdlDecoder ScanClient ScanContract ScanSource EventStream Registry.
From S2P Require Import ChangeStreamStage ChangeStreamCursor Changes ResumeExact StreamRefinement.
#[local] Open Scope Z_scope.

(** ** Operation types *)

Lemma changes_ddl scope limit maxDepth EloqDoc d h r c :
  CDdl r c ∈ (changes scope limit maxDepth EloqDoc d h).1 -> reported_ddl scope maxDepth EloqDoc r = Some c.
Proof.
  revert d. induction h as [|x h IH]; intros d; cbn [changes]; [set_solver|].
  assert (CDdl r c ∈ (record_changes scope limit maxDepth EloqDoc d x).1 -> reported_ddl scope maxDepth EloqDoc r = Some c) as Hx.
  { destruct x as [x|x]; cbn [record_changes].
    - intros Hin. exfalso. revert Hin. generalize (logged_entries scope x) as es, d as d0.
      induction es as [|e es IHe]; intros d0; cbn; [set_solver|].
      destruct (seen _ _ _ _) as [[rep d1] ovf]. specialize (IHe d1). destruct (fresh_entries _ _ _ _) as [cs d2].
      cbn in *. destruct rep; [done|]. rewrite elem_of_cons. by intros [|].
    - cbn. destruct (reported_ddl scope maxDepth EloqDoc x) eqn:E; [|set_solver].
      rewrite list_elem_of_singleton. by intros [= -> ->]. }
  destruct (record_changes _ _ _ _ d x) as [cs d1]. specialize (IH d1). destruct (changes _ _ _ _ d1 h) as [cs1 d2].
  cbn in *. rewrite elem_of_app. tauto.
Qed.

Lemma decoded_type maxDepth EloqDoc op c :
  decodeCdcDdl maxDepth EloqDoc op = Ok (Some c) -> dc_operationType c <> lit "invalidate".
Proof.
  unfold decodeCdcDdl. intros H. destruct (negb _ || negb _); [done|]. ok_inv H.
  destruct (negb _); [done|]. destruct (_ =? kCreateTable).
  { destruct (op_rolled_back op); [done|]. ok_inv H. by injection H as <-. }
  destruct (_ =? kDropTable). { destruct (op_rolled_back op); [done|]. by injection H as <-. }
  destruct (_ =? kAddIndex).
  { ok_inv H. ok_inv H. destruct (op_rolled_back op); by injection H as <-. }
  destruct (_ =? kDropIndex); [|done]. destruct (op_rolled_back op); [done|]. do 2 ok_inv H. by injection H as <-.
Qed.

(** The type of a change's event. *)
Definition change_type (c : Change) : bytes :=
  match c with CData _ e => operationType (e_op e) | CDdl _ x => dc_operationType x end.

Lemma change_event_type decodeIdKey t c doc :
  change_event decodeIdKey t c = Ok doc -> getField doc (lit "operationType") = Some (BString (change_type c)).
Proof.
  destruct c as [r e|r x]; cbn; unfold event_document, ddl_document; intros H.
  - do 5 ok_inv H. by injection H as <-.
  - do 2 ok_inv H. by injection H as <-.
Qed.

Lemma invalidate_event_type t ns doc :
  invalidateEvent t ns = Ok doc -> getField doc (lit "operationType") = Some (BString (lit "invalidate")).
Proof. unfold invalidateEvent. intros H. do 2 ok_inv H. by injection H as <-. Qed.

(** ** A stream just opened *)

Lemma startEach_drained from ids : forall s s', startEach s ids from = Ok s' -> s_drained s' = s_drained s.
Proof.
  induction ids as [|id ids IH]; intros s s' H; cbn [startEach] in H; [by injection H as <-|].
  ok_inv H. rewrite (IH _ _ H). unfold startAt in E. ok_inv E. by injection E as <-.
Qed.

Lemma fixStart_drained env deadline fuel : forall s zeros first o s',
  fixStart_loop fuel env s deadline zeros first = Some (Ok (o, s')) -> s_drained s' = s_drained s.
Proof.
  induction fuel as [|fuel IH]; intros s zeros first o s' H; [done|]. cbn [fixStart_loop] in H.
  destruct (fixStart_pass env s deadline zeros first) as [p|] eqn:Ep; [|done].
  unfold fixStart_pass in Ep. cbn in Ep. ok_inv Ep. ok_inv Ep. destruct a0 as [[gs zs] c].
  destruct (negb _).
  - ok_inv Ep. injection Ep as <-. injection H as <- <-. by apply startEach_drained in E1.
  - cbn in Ep. destruct (_ <=? _); [injection Ep as <-; by injection H as <- <-|].
    ok_inv Ep. injection Ep as <-. by apply IH in H.
Qed.

Lemma open_groups_drained tok start ids : forall st st',
  open_groups tok start ids st = Ok st' -> s_drained (es_source st') = s_drained (es_source st).
Proof.
  induction ids as [|id ids IH]; intros st st' H; cbn [open_groups] in H; [by injection H as <-|].
  ok_inv H. rewrite (IH _ _ H). clear H. unfold startAt in E. destruct (_ <? _).
  - ok_inv E. ok_inv E0. injection E0 as <-. by injection E as <-.
  - destruct (entryFor _ _); [|done]. ok_inv E. ok_inv E0. injection E0 as <-. by injection E as <-.
Qed.

Lemma opens_undrained env ids scope o tok st :
  opens (env:=env) ids scope o tok st -> s_drained (es_source st) = false.
Proof.
  intros (_ & st0 & H0 & H). unfold newStream, newSource in H0. ok_inv H0. ok_inv E. injection E as <-.
  injection H0 as <-. destruct H as [H|(fuel & deadline & H)].
  - unfold openAt in H. do 2 ok_inv H. ok_inv H. ok_inv H. injection H as <-. cbn.
    apply open_groups_drained in E2. rewrite E2.
    destruct (bool_decide (tok_kind tok = kEvent)); [destruct (bool_decide (own_drop_keys tok = ∅))|]; done.
  - unfold openFresh in H. rewrite bool_decide_eq_true_2 in H by done. cbn [negb es_source] in H.
    destruct (fixStart _ _ _ _) as [[[[start|] s]|]|] eqn:Ef; try done.
    injection H as <-. cbn. unfold fixStart in Ef. destruct (forallb _ _); [|done].
    by apply fixStart_drained in Ef.
Qed.

(** ** The session *)

Section Session.

Context {env : Env} `{!ScanContract env} (decodeIdKey : bytes -> result Document) (maxDepth EloqDoc : Z).
Context (ids : list Z) (scope : CdcStreamScope) (o : CdcEventStreamOptions) (tok : CdcResumeToken).
Context (Hnd : NoDup ids) (Hids : Forall is_u32 ids).
Context (Hdec : forall id r, r ∈ sc_history id -> decodable scope maxDepth EloqDoc r).

(** No write of a collection and no other DDL on it shares the timestamp of its drop. *)
Definition drops_alone : Prop :=
  forall g d c, g ∈ ids -> LDdl d ∈ sc_history g ->
    decodeCdcDdl maxDepth EloqDoc (lr_schema_op d) = Ok (Some c) -> dc_dropsCollection c = true ->
    isCollection scope (dc_ns c) = true ->
    forall g' x, g' ∈ ids -> x ∈ history_changes scope (eo_dedupSetBytes o) maxDepth EloqDoc (sc_history g') ->
      rec_ts (ch_record x) = lr_ddl_ts d -> g' = g /\ ch_record x = LDdl d.

Context (Halone : drops_alone).

Abbreviation left_of p id := (left_after scope (eo_dedupSetBytes o) maxDepth EloqDoc p (sc_history id)).

(** The token leaves exactly what [rs] does not report. *)
Definition leaves (rs : list Report) (t : CdcResumeToken) : Prop :=
  forall g, g ∈ ids -> left_of (token_position tok g) g = changes_of g rs ++ left_of (token_position t g) g.

(** The document names such a token; [carries]: its bytes do. *)
Definition names (rs : list Report) (doc : Document) : Prop :=
  exists t, parse doc = Ok t /\ leaves rs t.

Definition carries (rs : list Report) (doc : Document) : Prop :=
  exists doc', obj doc' = obj doc /\ names rs doc'.

Definition report_token (r : Report) : option CdcResumeToken :=
  match r with Changed _ _ t | Invalidated t _ => Some t | Idle => None end.

(** The changes of all groups. *)
Definition changes_count (f : Z -> list Change) : nat := sum_list (map (fun g => length (f g)) ids).

(** The stream after the events [evs], which [rs] describe, in the state [x] of its specification. *)
Record stage_inv (evs : list Document) (rs : list Report) (x : Spec) (s : DocumentSourceEloqChangeStream)
    (resumed : option CdcResumeToken) : Prop := {
  gi_matches : matches maxDepth EloqDoc scope (eo_dedupSetBytes o) ids (token_position tok) resumed x (ds_stream s);
  gi_out : forall g, x.1 g = changes_of g rs;
  gi_describes : Forall2 (fun d r => describes decodeIdKey (Some d) r) evs rs;
  gi_prefix : forall g, g ∈ ids -> exists rest, left_of (token_position tok g) g = changes_of g rs ++ rest;
  gi_tokens : forall k r, rs !! k = Some r -> exists t, report_token r = Some t /\ wf_token t /\ leaves (take (S k) rs) t;
  gi_dropped : forall t ns, x.2 = Dropped t ns -> wf_token t /\ leaves rs t;
  gi_ended : forall t, x.2 = Ended t -> wf_token t /\ leaves rs t /\ exists ns, last rs = Some (Invalidated t ns);
  gi_last : match last evs with None => ds_lastEmitted s = [] | Some d => event_token d = Ok (ds_lastEmitted s) end;
  gi_count : (length rs <= changes_count (fun g => changes_of g rs) + match x.2 with Ended _ => 1 | _ => 0 end)%nat;
}.

Lemma invalidate_position t g : tok_kind t = kEvent -> token_position (as_invalidate t) g = token_position t g.
Proof. intros E. unfold token_position, startTimestampForAbsentGroup. cbn. by rewrite E. Qed.

Lemma invalidate_wf t : tok_kind t = kEvent -> wf_token t -> wf_token (as_invalidate t).
Proof.
  intros E (H1 & _ & H3 & H4 & H5 & H6). split_and!; cbn; try done. intros _. apply H3. congruence.
Qed.

Lemma invalidate_leaves rs t : tok_kind t = kEvent -> leaves rs t -> leaves rs (as_invalidate t).
Proof. intros E H g Hg. rewrite invalidate_position by done. by apply H. Qed.

Context (st0 : CdcEventStream) (Hop : opened maxDepth EloqDoc ids scope (eo_dedupSetBytes o) tok st0).

Abbreviation stage_ok evs rs x s := (stage_inv evs rs x s (es_resumedFrom st0)).

(** A stream that meets the drop its own token reported has reported nothing. *)
Lemma own_drop_first evs rs x s t id d c :
  stage_ok evs rs x s ->
  own_drop_met maxDepth EloqDoc scope ids (token_position tok) (es_resumedFrom st0) x.1 t id d c ->
  t = tok /\ tok_kind tok = kEvent /\ forall g, g ∈ ids -> changes_of g rs = [].
Proof.
  intros H (Ht & Hid & Hin & Hts & Hd & Hdr & Hc & Hbefore & Hall).
  destruct (op_from _ _ _ _ _ _ _ Hop) as [|[Hf Hk]]; [congruence|].
  assert (t = tok) as -> by congruence. split_and!; [done|done|]. intros g Hg.
  destruct (changes_of g rs) as [|y l] eqn:E; [done|exfalso].
  assert (y ∈ x.1 g) as Hy by (rewrite (gi_out _ _ _ _ _ H g), E; set_solver).
  destruct (gi_prefix _ _ _ _ _ H g Hg) as [rest Hrest]. rewrite E in Hrest.
  assert (y ∈ left_of (token_position tok g) g) as Hl by (rewrite Hrest; set_solver).
  unfold left_after in Hl. apply list_elem_of_In, filter_In in Hl as [Hl Ha]. apply list_elem_of_In in Hl.
  destruct (Halone id d c Hid Hin Hd Hdr Hc g y Hg Hl) as [-> Er]; [rewrite Hts; by apply (Hall g)|].
  rewrite (Hbefore y Er) in Ha. done.
Qed.

(** Reporting one more change or the invalidate. *)
Lemma tokens_snoc rs r t :
  (forall k r, rs !! k = Some r -> exists t, report_token r = Some t /\ wf_token t /\ leaves (take (S k) rs) t) ->
  report_token r = Some t -> wf_token t -> leaves (rs ++ [r]) t ->
  forall k r', (rs ++ [r]) !! k = Some r' ->
    exists t, report_token r' = Some t /\ wf_token t /\ leaves (take (S k) (rs ++ [r])) t.
Proof.
  intros H Hr Hw Hl k r' Hk. destruct (decide (k < length rs)%nat) as [Hlt|Hge].
  - rewrite lookup_app_l in Hk by done. rewrite take_app_le by lia. by apply H.
  - rewrite lookup_app_r in Hk by lia. destruct (k - length rs)%nat eqn:E; [|done]. injection Hk as <-.
    exists t. split_and!; try done. by rewrite take_ge by (rewrite length_app; cbn; lia).
Qed.

Lemma changes_snoc_changed g rs id c t :
  changes_of g (rs ++ [Changed id c t]) = if g =? id then changes_of g rs ++ [c] else changes_of g rs.
Proof. rewrite changes_of_app. cbn. rewrite Z.eqb_sym. by destruct (g =? id); rewrite ?app_nil_r. Qed.

Lemma changes_snoc_invalidated g rs t ns : changes_of g (rs ++ [Invalidated t ns]) = changes_of g rs.
Proof. rewrite changes_of_app. by rewrite app_nil_r. Qed.

Lemma stage_changed evs rs out s s' id c t doc :
  stage_ok evs rs (out, Running) s -> wf_token t -> tok_kind t = kEvent ->
  exact maxDepth EloqDoc scope (eo_dedupSetBytes o) ids (token_position tok) (out_add id c out) t ->
  matches maxDepth EloqDoc scope (eo_dedupSetBytes o) ids (token_position tok) (es_resumedFrom st0)
    (out_add id c out, phase_after scope t c) (ds_stream s') ->
  change_event decodeIdKey t c = Ok doc -> event_token doc = Ok (ds_lastEmitted s') -> id ∈ ids ->
  stage_ok (evs ++ [doc]) (rs ++ [Changed id c t]) (out_add id c out, phase_after scope t c) s'.
Proof.
  intros H Hw Hk Hex Hm Hev Ht Hid.
  assert (forall g, out_add id c out g = changes_of g (rs ++ [Changed id c t])) as Ho.
  { intros g. rewrite changes_snoc_changed. unfold out_add. by rewrite <- (gi_out _ _ _ _ _ H). }
  assert (leaves (rs ++ [Changed id c t]) t) as Hl by (intros g Hg; rewrite <- Ho; by apply Hex).
  split; try done.
  - apply Forall2_app; [apply H|]. by repeat constructor.
  - intros g Hg. eexists. by apply Hl.
  - eapply tokens_snoc; [apply H|done..].
  - cbn. intros t' ns. unfold phase_after. destruct c as [|r x]; [done|]. destruct (_ && _); [|done].
    intros [= <- <-]. split; [by apply invalidate_wf|by apply invalidate_leaves].
  - cbn. intros t'. unfold phase_after. destruct c as [|r x]; [done|]. by destruct (_ && _).
  - by rewrite last_snoc.
  - pose proof (gi_count _ _ _ _ _ H) as Hc. cbn in Hc. rewrite length_app. cbn [length].
    assert (changes_count (fun g => changes_of g rs) < changes_count (fun g => changes_of g (rs ++ [Changed id c t])))%nat; [|lia].
    apply (sum_map_lt _ _ _ id); [|done|].
    + intros g. rewrite changes_snoc_changed. destruct (g =? id); rewrite ?length_app; lia.
    + rewrite changes_snoc_changed, Z.eqb_refl, length_app. cbn. lia.
Qed.

Lemma stage_invalidated evs rs out ph s s' t ns doc :
  stage_ok evs rs (out, ph) s -> wf_token t -> leaves rs t ->
  matches maxDepth EloqDoc scope (eo_dedupSetBytes o) ids (token_position tok) (es_resumedFrom st0)
    (out, Ended t) (ds_stream s') ->
  invalidateEvent t ns = Ok doc -> event_token doc = Ok (ds_lastEmitted s') -> (forall t, ph <> Ended t) ->
  stage_ok (evs ++ [doc]) (rs ++ [Invalidated t ns]) (out, Ended t) s'.
Proof.
  intros H Hw Hl Hm Hev Ht Hph.
  assert (leaves (rs ++ [Invalidated t ns]) t) as Hl'.
  { intros g Hg. rewrite changes_snoc_invalidated. by apply Hl. }
  split; try done.
  - intros g. rewrite changes_snoc_invalidated. apply H.
  - apply Forall2_app; [apply H|]. by repeat constructor.
  - intros g Hg. rewrite changes_snoc_invalidated. by apply H.
  - eapply tokens_snoc; [apply H|done..].
  - cbn. intros t' [= <-]. split_and!; [done|done|]. exists ns. by rewrite last_snoc.
  - by rewrite last_snoc.
  - pose proof (gi_count _ _ _ _ _ H) as Hc. rewrite length_app. cbn [length] in *.
    assert (changes_count (fun g => changes_of g (rs ++ [Invalidated t ns])) = changes_count (fun g => changes_of g rs)) as ->.
    { unfold changes_count. f_equal. apply map_ext. intros g. by rewrite changes_snoc_invalidated. }
    cbn in Hc |- *. destruct ph; [lia|lia|by edestruct Hph].
Qed.

(** Whether the specification's phase is the last. *)
Definition ended (x : Spec) : Prop := exists t, x.2 = Ended t.

Lemma changed_type evs rs x s id c t :
  stage_ok evs rs x s -> last rs = Some (Changed id c t) -> id ∈ ids -> change_type c <> lit "invalidate".
Proof.
  intros H Hl Hid. destruct c as [r e|r c]; cbn; [by destruct (e_op e)|].
  destruct (gi_prefix _ _ _ _ _ H id Hid) as [rest Hrest].
  assert (CDdl r c ∈ left_of (token_position tok id) id) as Hin.
  { rewrite Hrest. apply elem_of_app. left. apply list_elem_of_omap. exists (Changed id (CDdl r c) t).
    split; [|by rewrite Z.eqb_refl]. rewrite last_lookup in Hl. by eapply list_elem_of_lookup_2. }
  unfold left_after in Hin. apply list_elem_of_In, filter_In in Hin as [Hin _]. apply list_elem_of_In, changes_ddl in Hin.
  unfold reported_ddl in Hin. destruct (decodeCdcDdl _ _ _) as [[x'|]|] eqn:Ed; try done.
  destruct (includes _ _); [|done]. injection Hin as ->. by eapply decoded_type.
Qed.

(** A pull of the stream. *)
Lemma pull_step rounds sfuel deadline evs rs x s ev st' :
  stage_ok evs rs x s ->
  EventStream.next env decodeIdKey maxDepth EloqDoc rounds sfuel (ds_stream s) deadline = Some (Ok (ev, st')) ->
  match ev with
  | Some doc => exists rep y tdoc type, event_token doc = Ok tdoc /\
      stage_ok (evs ++ [doc]) (rs ++ [rep]) y (mkStage st' (ds_spec s) tdoc (ds_registryId s)) /\
      getField doc (lit "operationType") = Some (BString type) /\ (type = lit "invalidate" -> ended y) /\ ~ ended x
  | None => exists y, stage_ok evs rs y (with_stream s st') /\
      rested maxDepth EloqDoc scope (eo_dedupSetBytes o) ids (token_position tok) y st' /\
      (ended x -> ended y) /\ (forall t ns, y.2 <> Dropped t ns)
  end.
Proof.
  intros H Hn. destruct (op_start _ _ _ _ _ _ _ Hop) as (start & Hstart & Hown).
  destruct (pull_spec _ _ _ _ _ _ _ _ _ Hstart Hdec Hids (op_ne _ _ _ _ _ _ _ Hop) Hown _ _ _ _ _ _ _
    (gi_matches _ _ _ _ _ H) Hn) as (rep & y & Hs & Hd & Hm & Hrest).
  inversion Hs as [out id c t Hid Hw Hk Hts Hex|out t ns|out t id d c Hmet|out|out t]; subst;
    destruct ev as [doc|]; try done; cbn in Hd.
  - destruct (change_event_token _ _ _ _ Hd) as (tdoc & Ht & He).
    exists (Changed id c t), (out_add id c out, phase_after scope t c), tdoc, (change_type c).
    assert (stage_ok (evs ++ [doc]) (rs ++ [Changed id c t]) (out_add id c out, phase_after scope t c)
      (mkStage st' (ds_spec s) tdoc (ds_registryId s))) as H' by (by eapply stage_changed).
    split_and!; [done|done|by eapply change_event_type| |by intros [? ?]].
    intros E. exfalso. revert E. eapply (changed_type _ _ _ _ id c t H'); [by rewrite last_snoc|done].
  - destruct (invalidate_event_token _ _ _ Hd) as (tdoc & Ht & He).
    destruct (gi_dropped _ _ _ _ _ H t ns eq_refl) as [Hw Hl].
    exists (Invalidated t ns), (out, Ended t), tdoc, (lit "invalidate").
    split_and!; [done| |by eapply invalidate_event_type|by exists t|by intros [? ?]].
    by eapply stage_invalidated.
  - destruct (invalidate_event_token _ _ _ Hd) as (tdoc & Ht & He).
    destruct (own_drop_first _ _ _ _ _ _ _ _ H Hmet) as (-> & Hk & Hnone).
    exists (Invalidated (as_invalidate tok) (dc_ns c)), (out, Ended (as_invalidate tok)), tdoc, (lit "invalidate").
    split_and!; [done| |by eapply invalidate_event_type|by eexists|by intros [? ?]].
    eapply stage_invalidated; try done.
    + apply invalidate_wf; [done|apply (op_wf _ _ _ _ _ _ _ Hop)].
    + apply invalidate_leaves; [done|]. intros g Hg. by rewrite Hnone.
  - exists (out, Running). split_and!; [|by apply Hrest|done|done]. by destruct H.
  - exists (out, Ended t). split_and!; [|by apply Hrest|done|done]. by destruct H.
Qed.

(** What the stage names at the end of its events. *)
Lemma named_at_rest evs rs y s doc :
  stage_ok evs rs y s -> (forall t ns, y.2 <> Dropped t ns) ->
  rested maxDepth EloqDoc scope (eo_dedupSetBytes o) ids (token_position tok) y (ds_stream s) ->
  getPostBatchResumeToken s = Ok doc -> names rs doc.
Proof.
  intros H Hnd' Hrest Hg. pose proof (gi_matches _ _ _ _ _ H) as Hm.
  pose proof Hm as (rel & lastTs & _ & Hph & _). unfold getPostBatchResumeToken in Hg.
  destruct y as [out [|t ns|t]]; cbn in Hph.
  - destruct (Hrest eq_refl) as [Hdr Hex]. rewrite (proj1 Hph), Hdr in Hg.
    destruct (op_start _ _ _ _ _ _ _ Hop) as (start & Hstart & _).
    pose proof (watermark_wf _ _ _ _ _ _ _ _ Hstart Hdec Hids (op_ne _ _ _ _ _ _ _ Hop) _ _ _ Hm Hg) as Hwf.
    destruct (toBSON_parse _ Hwf) as (doc' & Ht & Hp). rewrite Hg in Ht. injection Ht as <-.
    exists (watermark (ds_stream s)). split; [done|]. intros g Hid. rewrite <- (gi_out _ _ _ _ _ H g). by apply Hex.
  - by destruct (Hnd' t ns).
  - destruct Hph as [Hi Ht]. unfold invalidateToken in Hg. rewrite Hi in Hg. injection Hg as <-.
    destruct (gi_ended _ _ _ _ _ H t eq_refl) as (Hw & Hl & _).
    destruct (toBSON_parse _ Hw) as (doc' & Ht' & Hp). rewrite Ht in Ht'. injection Ht' as <-. by exists t.
Qed.

(** The event's own [_id]. *)
Lemma event_names evs rs x s d :
  stage_ok evs rs x s -> last evs = Some d -> names rs (ds_lastEmitted s) /\ ds_lastEmitted s <> [].
Proof.
  intros H Hl. pose proof (gi_last _ _ _ _ _ H) as He. rewrite Hl in He.
  pose proof (gi_describes _ _ _ _ _ H) as Hd. rewrite last_lookup in Hl.
  destruct (Forall2_lookup_l _ _ _ _ _ Hd Hl) as (r & Hr & Hdr).
  destruct (gi_tokens _ _ _ _ _ H _ _ Hr) as (t & Ht & Hw & Hlv).
  assert (exists tdoc, toBSON t = Ok tdoc /\ event_token d = Ok tdoc) as (tdoc & Hb & He').
  { destruct r as [id c t'|t' ns|]; [| |done]; injection Ht as ->; cbn in Hdr.
    - by eapply change_event_token.
    - by eapply invalidate_event_token. }
  rewrite He in He'. injection He' as ->.
  assert (take (S (pred (length evs))) rs = rs) as Et.
  { apply take_ge. rewrite <- (Forall2_length _ _ _ Hd). lia. }
  rewrite Et in Hlv. destruct (toBSON_parse _ Hw) as (doc' & Hb' & Hp). rewrite Hb in Hb'. injection Hb' as <-.
  split; [by exists t|]. intros E. rewrite E in Hb. unfold toBSON in Hb. by ok_inv Hb.
Qed.

(** *** The stage *)

Context (firstBatchWait : option Z) (interrupt : nat -> option ErrorCode).
Context (user : Document -> result (option Document)) (rounds sfuel : nat).

Lemma stage_now evs rs x s :
  stage_ok evs rs x s ->
  stage_ok evs rs x (with_stream s (with_source (ds_stream s) (source_now env (es_source (ds_stream s))).2)).
Proof.
  intros [(rel & lastTs & H & Hph & Hr & Hc & Hu) ? ? ? ? ? ? ?]. split; try done.
  destruct (source_now_ok _ _ _ _ (si_source _ _ _ _ _ _ _ _ _ _ H)) as [Hs (_ & Hi & _)].
  exists rel, lastTs. split_and!; try done.
  apply inv_source; [done|done|]. rewrite Hi. apply (si_ids _ _ _ _ _ _ _ _ _ _ H).
Qed.

Lemma deadline_ok state evs rs x s :
  stage_ok evs rs x s -> stage_ok evs rs x (batchDeadline env firstBatchWait state s).2.
Proof. intros H. unfold batchDeadline. destruct (ad_shouldWaitForInserts state); [done|]. by apply stage_now. Qed.

Lemma stage_step state evs rs x s ev s' :
  stage_ok evs rs x s ->
  stage_getNext env decodeIdKey maxDepth EloqDoc firstBatchWait rounds sfuel state s = Some (Ok (ev, s')) ->
  match ev with
  | Some doc => exists rep y type, stage_ok (evs ++ [doc]) (rs ++ [rep]) y s' /\
      getField doc (lit "operationType") = Some (BString type) /\ (type = lit "invalidate" -> ended y) /\ ~ ended x
  | None => exists y, stage_ok evs rs y s' /\ (ended x -> ended y) /\
      forall doc, getPostBatchResumeToken s' = Ok doc -> names rs doc
  end.
Proof.
  intros H Hg. unfold stage_getNext in Hg. pose proof (deadline_ok state _ _ _ _ H) as H'.
  destruct (batchDeadline env firstBatchWait state s) as [d s1]. cbn in H'.
  destruct (EventStream.next _ _ _ _ _ _ _ _) as [[[[doc|] st']|]|] eqn:En; try done.
  - destruct (pull_step _ _ _ _ _ _ _ _ _ H' En) as (rep & y & tdoc & type & He & Hok & Hrest).
    injection Hg as Hg. rewrite He in Hg. cbn in Hg. injection Hg as <- <-. by exists rep, y, type.
  - destruct (pull_step _ _ _ _ _ _ _ _ _ H' En) as (y & Hok & Hrest & Hen & Hnd').
    injection Hg as <- <-. exists y. split_and!; [done|done|]. intros doc. by apply (named_at_rest evs rs y).
Qed.

(** *** The pipeline *)

(** The close-cursor stage closes only a stream that has ended. *)
Definition pipeline_ok (evs : list Document) (rs : list Report) (p : Pipeline) : Prop :=
  exists x, stage_ok evs rs x (pl_stage p) /\ (pl_close p = Some true -> ended x).

(** At the end of the events: nothing is left to name but what they did not report. *)
Definition at_end (rs : list Report) (p : Pipeline) : Prop :=
  forall doc, getPostBatchResumeToken (pl_stage p) = Ok doc -> names rs doc.

Lemma ended_named evs rs x s doc :
  stage_ok evs rs x s -> ended x -> getPostBatchResumeToken s = Ok doc -> names rs doc.
Proof. intros H [t E]. apply (named_at_rest evs rs x s doc H); [congruence|]. intros Hr. congruence. Qed.

Definition pulled_ok (evs : list Document) (rs : list Report) (r : Pulled) (p : Pipeline) : Prop :=
  match r with
  | Advanced doc => exists rep, pipeline_ok (evs ++ [doc]) (rs ++ [rep]) p
  | AtEOF => pipeline_ok evs rs p /\ at_end rs p
  | Thrown => pipeline_ok evs rs p /\ at_end rs p /\ exists t ns, last rs = Some (Invalidated t ns)
  end.

Lemma source_step state evs rs p r p' :
  pipeline_ok evs rs p ->
  source_getNext env decodeIdKey maxDepth EloqDoc firstBatchWait rounds sfuel state p = Some (Ok (r, p')) ->
  pl_close p' = pl_close p /\
  match r with
  | Advanced doc => exists rep y type, stage_ok (evs ++ [doc]) (rs ++ [rep]) y (pl_stage p') /\
      getField doc (lit "operationType") = Some (BString type) /\ (type = lit "invalidate" -> ended y) /\
      pl_close p <> Some true
  | AtEOF => pipeline_ok evs rs p' /\ at_end rs p'
  | Thrown => False
  end.
Proof.
  intros (x & H & Hc) Hg. unfold source_getNext in Hg.
  destruct (stage_getNext _ _ _ _ _ _ _ _ _) as [[[[doc|] s']|]|] eqn:Es; try done; injection Hg as <- <-; (split; [done|]).
  - destruct (stage_step _ _ _ _ _ _ _ H Es) as (rep & y & type & Hok & Ht & Hi & Hn).
    exists rep, y, type. split_and!; try done. intros E. by apply Hn, Hc.
  - destruct (stage_step _ _ _ _ _ _ _ H Es) as (y & Hok & He & Hnm). split; [|done].
    exists y. split; [done|]. cbn. intros E. by apply He, Hc.
Qed.

Lemma internal_step state evs rs p r p' :
  pipeline_ok evs rs p ->
  internal_getNext env decodeIdKey maxDepth EloqDoc firstBatchWait interrupt rounds sfuel state p = Some (Ok (r, p')) ->
  pulled_ok evs rs r p'.
Proof.
  intros H Hg. unfold internal_getNext in Hg. destruct (pl_close p) as [b|] eqn:Ec.
  - unfold close_getNext, checkForInterrupt in Hg. destruct (interrupt (pl_checks p)); [done|].
    set (p1 := mkPipeline (pl_stage p) (pl_close p) (S (pl_checks p))) in Hg.
    assert (pipeline_ok evs rs p1) as H1 by exact H.
    destruct b.
    + injection Hg as <- <-. split; [done|]. destruct H as (x & H & Hc). specialize (Hc Ec).
      split; [intros doc; by eapply ended_named|]. destruct Hc as [t Et].
      destruct (gi_ended _ _ _ _ _ H t Et) as (_ & _ & ns & ?). by exists t, ns.
    + destruct (source_getNext _ _ _ _ _ _ _ _ _) as [[[[doc| |] p2]|]|] eqn:Es; try done;
        destruct (source_step _ _ _ _ _ _ H1 Es) as [Ec2 Hs]; [|by injection Hg as <- <-|done].
      destruct Hs as (rep & y & type & Hok & Ht & Hi & _). rewrite Ht in Hg. injection Hg as <- <-.
      exists rep, y. split; [done|]. cbn [pl_close]. destruct (bytes_eqb type (lit "invalidate")) eqn:Eb; [|by intros [=]].
      intros _. by apply Hi, bytes_eqb_eq.
  - destruct (source_step _ _ _ _ _ _ H Hg) as [Ec2 Hs]. destruct r as [doc| |]; [|done|done].
    destruct Hs as (rep & y & type & Hok & _). exists rep, y. split; [done|]. congruence.
Qed.

(** What the user's stages make of an event. *)
Definition passed (e : Document) : option Document := match user e with Ok d => d | Err _ => None end.

(** What a pull of the whole pipeline adds to the events: those the user's stages drop, and, if a
    document came out, the one it was made of. *)
Definition pipeline_pulled (evs : list Document) (rs : list Report) (r : Pulled) (p : Pipeline) : Prop :=
  exists evs2 rs2,
    match r with
    | Advanced doc => exists dropped e, evs2 = dropped ++ [e] /\ omap passed dropped = [] /\ passed e = Some doc /\
        pipeline_ok (evs ++ evs2) (rs ++ rs2) p
    | _ => omap passed evs2 = [] /\ pulled_ok (evs ++ evs2) (rs ++ rs2) r p
    end.

Lemma pipeline_step fuel state : forall evs rs p r p',
  pipeline_ok evs rs p ->
  pipeline_getNext env decodeIdKey maxDepth EloqDoc firstBatchWait interrupt user rounds sfuel fuel state p =
    Some (Ok (r, p')) ->
  pipeline_pulled evs rs r p'.
Proof.
  induction fuel as [|fuel IH]; intros evs rs p r p' H Hg; [done|]. cbn [pipeline_getNext] in Hg.
  destruct (internal_getNext _ _ _ _ _ _ _ _ _ _) as [[[[doc| |] p1]|]|] eqn:Ei; try done;
    pose proof (internal_step _ _ _ _ _ _ H Ei) as Hp.
  - destruct Hp as [rep Hp]. destruct (user doc) as [[d|]|] eqn:Eu; [| |done].
    + injection Hg as <- <-. exists [doc], [rep], [], doc. split_and!; try done. unfold passed. by rewrite Eu.
    + destruct (IH _ _ _ _ _ Hp Hg) as (evs2 & rs2 & Hr). exists (doc :: evs2), (rep :: rs2).
      assert (passed doc = None) as En by (unfold passed; by rewrite Eu).
      rewrite !(cons_middle _ evs), !(cons_middle _ rs), !app_assoc. destruct r as [d| |].
      * destruct Hr as (dropped & e & -> & Hd & He & Hok). exists (doc :: dropped), e.
        split_and!; [done| |done|done]. cbn [omap list_omap]. rewrite En. done.
      * cbn [omap list_omap]. by rewrite En.
      * cbn [omap list_omap]. by rewrite En.
  - injection Hg as <- <-. exists [], []. by rewrite !app_nil_r.
  - injection Hg as <- <-. exists [], []. by rewrite !app_nil_r.
Qed.

(** *** The executor *)

Lemma names_nonempty rs doc : names rs doc -> doc <> [].
Proof. intros (t & Hp & _) ->. done. Qed.

Lemma obj_nonempty a b : obj a = obj b -> b <> [] -> a <> [].
Proof.
  intros E Hb ->. destruct b as [|[n v] b]; [done|].
  assert (objsize [] = objsize ((n, v) :: b)) as Es by (unfold objsize; by rewrite E).
  rewrite !objsize_eq, doc_bytes_cons in Es. unfold blen in Es. cbn [length] in Es. cbn in Es. lia.
Qed.

(** A document whose [_id] resumes after the events so far. *)
Definition tokened (rs : list Report) (d : Document) : Prop :=
  exists id, getField d (lit "_id") = Some (BObject id) /\ id <> [] /\ carries rs id.

Definition exec_ok (evs : list Document) (rs : list Report) (x : PlanExecutor) : Prop :=
  pipeline_ok evs rs (px_pipeline (ex_root x)) /\ px_stash (ex_root x) = [].

(** The events after the first [k] came to nothing, or to the stashed document. *)
Definition pending (k : nat) (evs : list Document) (rs : list Report) (stash : list Document) : Prop :=
  omap passed (drop k evs) = stash /\
  match stash with [] => True | [d] => tokened rs d | _ => False end.

Definition resting (rs : list Report) (x : PlanExecutor) : Prop :=
  ex_stash x = [] /\ at_end rs (px_pipeline (ex_root x)).

Lemma proxy_step fuel state evs rs p r p' :
  pipeline_ok evs rs (px_pipeline p) -> px_stash p = [] ->
  doWork env decodeIdKey maxDepth EloqDoc firstBatchWait interrupt user rounds sfuel fuel state p = Some (Ok (r, p')) ->
  px_stash p' = [] /\ pipeline_pulled evs rs r (px_pipeline p') /\
  match r with
  | Advanced d => forall evs' rs', pipeline_ok evs' rs' (px_pipeline p') -> evs' <> [] -> tokened rs' d
  | _ => True
  end.
Proof.
  intros H Hs Hg. unfold doWork in Hg. rewrite Hs in Hg. cbn [last] in Hg. unfold getNextBson in Hg.
  destruct (pipeline_getNext _ _ _ _ _ _ _ _ _ _ _ _) as [[[[d| |] p1]|]|] eqn:Ep; try done;
    pose proof (pipeline_step _ _ _ _ _ _ _ H Ep) as Hp.
  2, 3: by injection Hg as <- <-.
  injection Hg as Hg. ok_inv Hg. injection Hg as <- <-. split_and!; [done|done|].
  intros evs' rs' (x & Hok & _) Hne. destruct (last evs') as [e|] eqn:El; [|by apply last_None in El].
  destruct (event_names _ _ _ _ _ Hok El) as [Hn Hne'].
  unfold verifyResumeTokenIntact, getLastEmittedResumeToken in E. cbn in Hok, Hn, Hne'.
  destruct (isEmptyObj (ds_lastEmitted (pl_stage p1))) eqn:Ee; [by destruct (ds_lastEmitted (pl_stage p1))|].
  apply uassert_Ok in E. destruct (getField d (lit "_id")) as [v|] eqn:Ei; [|done]. destruct v as [| | | | | | | | | | | | | | | | | | |id|]; try done.
  apply bytes_eqb_eq in E. exists id. split_and!; [done|by eapply obj_nonempty|]. by exists (ds_lastEmitted (pl_stage p1)).
Qed.

Lemma exec_step fuel state k evs rs x r x' :
  exec_ok evs rs x -> (k <= length evs)%nat -> pending k evs rs (ex_stash x) ->
  exec_getNext env decodeIdKey maxDepth EloqDoc firstBatchWait interrupt user rounds sfuel fuel state x = Some (Ok (r, x')) ->
  exists evs2 rs2, ex_currentState x' = kUsable /\
    match r with
    | ADVANCED d => exec_ok (evs ++ evs2) (rs ++ rs2) x' /\ ex_stash x' = [] /\
        omap passed (drop k (evs ++ evs2)) = [d] /\ tokened (rs ++ rs2) d
    | IS_EOF | THROWN => exec_ok (evs ++ evs2) (rs ++ rs2) x' /\ resting (rs ++ rs2) x' /\
        pending k (evs ++ evs2) (rs ++ rs2) [] /\
        (r = THROWN -> exists t ns, last (rs ++ rs2) = Some (Invalidated t ns))
    | DEAD _ => True
    end.
Proof.
  intros [Hp Hs] Hk [Hpend Hst] Hg. unfold exec_getNext in Hg.
  destruct (bool_decide_reflect (ex_currentState x = kUsable)) as [Eu|]; [cbn [negb] in Hg|done].
  destruct (ex_killStatus x). { injection Hg as <- <-. by exists [], []. }
  destruct (ex_stash x) as [|d l] eqn:Es.
  - destruct (doWork _ _ _ _ _ _ _ _ _ _ _ _) as [[[r0 p1]|]|] eqn:Ed; [|by injection Hg|done].
    destruct (proxy_step _ _ _ _ _ _ _ Hp Hs Ed) as (Hs1 & (evs2 & rs2 & Hr) & Htok).
    exists evs2, rs2.
    assert (omap passed (drop k (evs ++ evs2)) = omap passed evs2) as Eo.
    { rewrite drop_app_le, omap_app, Hpend by done. done. }
    destruct r0 as [d| |]; injection Hg as <- <-; (split; [done|]).
    + destruct Hr as (dropped & e & -> & Hd & He & Hok). split_and!; [done|done| |].
      * rewrite Eo, omap_app, Hd. cbn. by rewrite He.
      * eapply Htok; [done|]. by destruct evs, dropped.
    + destruct Hr as (Hd & Hok & Hend). split_and!; [done|done|split; [by rewrite Eo|done]|done].
    + destruct Hr as (Hd & Hok & Hend & Hlast). split_and!; [done|done|split; [by rewrite Eo|done]|done].
  - destruct l; [|done]. injection Hg as <- <-. exists [], []. rewrite !app_nil_r. done.
Qed.

(** *** The batch loops *)

(** A cursor that has delivered [D] and reports [token]: [D] is what the user's stages made of a
    prefix of the events, and [token] resumes right after that prefix. *)
Definition cursor_at (D evs : list Document) (rs : list Report) (token : Document) (x : PlanExecutor) : Prop :=
  exists k, (k <= length evs)%nat /\ D = omap passed (take k evs) /\ token <> [] /\ carries (take k rs) token /\
    exec_ok evs rs x /\ pending k evs rs (ex_stash x).

Lemma exec_lengths evs rs x : exec_ok evs rs x -> length evs = length rs.
Proof. intros [(y & H & _) _]. apply (Forall2_length _ _ _ (gi_describes _ _ _ _ _ H)). Qed.

Lemma carries_mono rs rs2 k token : (k <= length rs)%nat -> carries (take k rs) token -> carries (take k (rs ++ rs2)) token.
Proof. intros Hk. by rewrite take_app_le. Qed.

(** All events are accounted for. *)
Lemma cursor_all k evs rs token x l :
  (k <= length evs)%nat -> exec_ok evs rs x -> ex_stash x = [] -> omap passed (drop k evs) = l -> token <> [] -> carries rs token ->
  cursor_at (omap passed (take k evs) ++ l) evs rs token x.
Proof.
  intros Hk Hx Hs <- Ht Hc. exists (length evs). pose proof (exec_lengths _ _ _ Hx) as El.
  rewrite (take_ge evs (length evs)), (take_ge rs (length evs)) by lia. split_and!; [done| |done|done|done|].
  - by rewrite <- omap_app, take_drop.
  - rewrite Hs. split; [|done]. by rewrite drop_all.
Qed.

(** A cursor's next pull. *)
Lemma cursor_step fuel state D evs rs token x r x' :
  cursor_at D evs rs token x ->
  exec_getNext env decodeIdKey maxDepth EloqDoc firstBatchWait interrupt user rounds sfuel fuel state x = Some (Ok (r, x')) ->
  exists evs2 rs2, let evs := evs ++ evs2 in let rs := rs ++ rs2 in ex_currentState x' = kUsable /\
    match r with
    | ADVANCED d => cursor_at (D ++ [d]) evs rs (tokenAfter true token d) x' /\ cursor_at D evs rs token (enqueue x' d)
    | IS_EOF | THROWN => cursor_at D evs rs token x' /\
        (forall named, exec_getPostBatchResumeToken x' = Ok named -> cursor_at D evs rs (tokenOr true token named) x') /\
        (r = THROWN -> exists t ns, last rs = Some (Invalidated t ns))
    | DEAD _ => True
    end.
Proof.
  intros (k & Hk & -> & Ht & Hc & Hx & Hp) Hg. pose proof (exec_lengths _ _ _ Hx) as El.
  destruct (exec_step _ _ _ _ _ _ _ _ Hx Hk Hp Hg) as (evs2 & rs2 & Hu & Hr).
  exists evs2, rs2. cbn zeta. split; [done|].
  assert (omap passed (take k evs) = omap passed (take k (evs ++ evs2))) as -> by (by rewrite take_app_le).
  assert (k <= length (evs ++ evs2))%nat as Hk' by (rewrite length_app; lia).
  assert (carries (take k (rs ++ rs2)) token) as Hc' by (apply carries_mono; [lia|done]).
  destruct r as [d| | |]; [| |done|].
  - destruct Hr as (Hx' & Hs & Ho & Hd). pose proof Hd as (id & Hi & Hne & Hcid). split.
    + unfold tokenAfter. rewrite Hi. by apply cursor_all.
    + exists k. split_and!; try done. unfold enqueue. cbn. rewrite Hs. split; [done|exact Hd].
  - destruct Hr as (Hx' & [Hs Hend] & [Ho _] & Hth). split_and!; [| |done].
    + exists k. split_and!; try done. by rewrite Hs.
    + intros named Hn. specialize (Hend named Hn). pose proof (names_nonempty _ _ Hend). unfold tokenOr.
      destruct named; [done|]. rewrite <- (app_nil_r (omap passed _)). apply cursor_all; try done. by eexists.
  - destruct Hr as (Hx' & [Hs Hend] & [Ho _] & Hth). split_and!; [| |done].
    + exists k. split_and!; try done. by rewrite Hs.
    + intros named Hn. specialize (Hend named Hn). pose proof (names_nonempty _ _ Hend). unfold tokenOr.
      destruct named; [done|]. rewrite <- (app_nil_r (omap passed _)). apply cursor_all; try done. by eexists.
Qed.

(** What a loop did: it appended [B] and went on to more events. *)
Definition loop_did (D evs : list Document) (rs : list Report) (r r' : CursorResponseBuilder) (token' : Document)
    (x' : PlanExecutor) (B evs2 : list Document) (rs2 : list Report) : Prop :=
  rb_batch r' = rb_batch r ++ B /\ rb_isInitialResponse r' = rb_isInitialResponse r /\
  ex_currentState x' = kUsable /\ cursor_at (D ++ B) (evs ++ evs2) (rs ++ rs2) token' x'.

Lemma first_batch_spec fuel n : forall D evs rs r token x r' token' keep x',
  cursor_at D evs rs token x -> ex_currentState x = kUsable ->
  first_batch env decodeIdKey maxDepth EloqDoc firstBatchWait interrupt user rounds sfuel fuel true true n r token x =
    Some (Ok (r', token', keep, x')) ->
  exists B evs2 rs2, loop_did D evs rs r r' token' x' B evs2 rs2 /\
    (keep = false -> exists t ns, last (rs ++ rs2) = Some (Invalidated t ns)).
Proof.
  induction n as [|n IH]; intros D evs rs r token x r' token' keep x' H Hu Hg; cbn [first_batch] in Hg.
  { injection Hg as <- <- <- <-. exists [], [], []. unfold loop_did. by rewrite !app_nil_r. }
  destruct (exec_getNext _ _ _ _ _ _ _ _ _ _ _ _) as [[[s x1]|]|] eqn:Ex; [|done|done].
  destruct (cursor_step _ _ _ _ _ _ _ _ _ H Ex) as (evs2 & rs2 & Hu1 & Hs).
  destruct s as [d| |e|]; [| |done|].
  - destruct Hs as [Ha Hq]. destruct (haveSpaceForNext _ _ _).
    + destruct (IH _ _ _ _ _ _ _ _ _ _ Ha Hu1 Hg) as (B & evs3 & rs3 & (Eb & Ei & Eu & Hc) & Hk).
      exists (d :: B), (evs2 ++ evs3), (rs2 ++ rs3). unfold loop_did. rewrite !app_assoc.
      split; [|done]. cbn in Eb. rewrite <- app_assoc in Eb, Hc. by split_and!.
    + injection Hg as <- <- <- <-. exists [], evs2, rs2. unfold loop_did. by rewrite !app_nil_r.
  - destruct Hs as (Ha & Hn & _). injection Hg as Hg. ok_inv Hg. injection Hg as <- <- <- <-.
    exists [], evs2, rs2. unfold loop_did. rewrite !app_nil_r. split_and!; try done. by apply Hn.
  - destruct Hs as (Ha & Hn & Hth). injection Hg as Hg. ok_inv Hg. injection Hg as <- <- <- <-.
    exists [], evs2, rs2. unfold loop_did. rewrite !app_nil_r. split_and!; try done; [by apply Hn|]. by intros _; apply Hth.
Qed.

Lemma generate_loop_spec fuel n batchSize : forall state D evs rs r token x r' token' e x',
  cursor_at D evs rs token x -> ex_currentState x = kUsable ->
  generate_loop env decodeIdKey maxDepth EloqDoc firstBatchWait interrupt user rounds sfuel n fuel true batchSize state r
    token x = Some (Ok (r', token', e, x')) ->
  match e with Dead _ => True | _ =>
    exists B evs2 rs2, loop_did D evs rs r r' token' x' B evs2 rs2 /\
      (e <> Filled -> forall named, exec_getPostBatchResumeToken x' = Ok named ->
        cursor_at (D ++ B) (evs ++ evs2) (rs ++ rs2) (tokenOr true token' named) x') /\
      (e = Closed -> exists t ns, last (rs ++ rs2) = Some (Invalidated t ns))
  end.
Proof.
  induction n as [|n IH]; intros state D evs rs r token x r' token' e x' H Hu Hg; [done|]; cbn [generate_loop] in Hg.
  destruct (enoughForGetMore _ _).
  { injection Hg as <- <- <- <-. exists [], [], []. unfold loop_did. by rewrite !app_nil_r. }
  destruct (exec_getNext _ _ _ _ _ _ _ _ _ _ _ _) as [[[s x1]|]|] eqn:Ex; [|done|done].
  destruct (cursor_step _ _ _ _ _ _ _ _ _ H Ex) as (evs2 & rs2 & Hu1 & Hs).
  destruct s as [d| |dead|].
  - destruct Hs as [Ha Hq]. destruct (haveSpaceForNext _ _ _).
    + specialize (IH _ _ _ _ _ _ _ _ _ _ _ Ha Hu1 Hg). destruct e; try done;
        destruct IH as (B & evs3 & rs3 & (Eb & Ei & Eu & Hc) & Hn & Hk);
        exists (d :: B), (evs2 ++ evs3), (rs2 ++ rs3); unfold loop_did; rewrite !app_assoc;
        cbn in Eb; rewrite <- app_assoc in Eb; rewrite <- (app_assoc D) in Hc, Hn; by split_and!.
    + injection Hg as <- <- <- <-. exists [], evs2, rs2. unfold loop_did. by rewrite !app_nil_r.
  - destruct Hs as (Ha & Hn & _). injection Hg as <- <- <- <-.
    exists [], evs2, rs2. unfold loop_did. rewrite !app_nil_r. by split_and!.
  - by injection Hg as <- <- <- <-.
  - destruct Hs as (Ha & Hn & Hth). injection Hg as <- <- <- <-.
    exists [], evs2, rs2. unfold loop_did. rewrite !app_nil_r. split_and!; try done. intros _. by apply Hth.
Qed.

(** *** Replies *)

Lemma array_docs ds :
  omap (fun e : bytes * bson => match e.2 with BObject d => Some d | _ => None end) (Registry.array_doc ds) = ds.
Proof.
  unfold Registry.array_doc.
  assert (forall name : nat -> bytes,
    omap (fun e : bytes * bson => match e.2 with BObject d => Some d | _ => None end)
      (imap (fun i d => (name i, BObject d)) ds) = ds) as H; [|apply H].
  induction ds as [|d ds IH]; intros name; cbn; [done|]. f_equal. apply (IH (name ∘ S)).
Qed.

Lemma done_reads r id ns : rb_postBatchResumeToken r <> [] ->
  reply_batch (response_done r id ns) = rb_batch r /\
  reply_token (response_done r id ns) = Some (rb_postBatchResumeToken r).
Proof.
  destruct r as [init start batch [|f token]]; intros H; [done|]. split; [|by destruct init].
  rewrite <- (array_docs batch) at 2. by destruct init.
Qed.

(** [D] is what the user's stages made of some first events, and [tk] resumes after those. *)
Definition delivered (D evs : list Document) (rs : list Report) (tk : Document) : Prop :=
  exists k, (k <= length evs)%nat /\ D = omap passed (take k evs) /\ carries (take k rs) tk.

Lemma delivered_mono D evs rs tk evs2 rs2 :
  length evs = length rs -> delivered D evs rs tk -> delivered D (evs ++ evs2) (rs ++ rs2) tk.
Proof.
  intros El (k & Hk & -> & Hc). exists k. rewrite length_app, !take_app_le by lia. split_and!; [lia|done|done].
Qed.

Lemma cursor_delivered D evs rs token x :
  cursor_at D evs rs token x -> delivered D evs rs token /\ token <> [] /\
  Forall2 (fun d r => describes decodeIdKey (Some d) r) evs rs.
Proof.
  intros (k & Hk & -> & Ht & Hc & [(y & Hy & _) _] & _). split_and!; [by exists k|done|apply Hy].
Qed.

(** A cursor between requests. *)
Definition parked (D evs : list Document) (rs : list Report) (c : ClientCursor) : Prop :=
  cursor_at D evs rs (cc_postBatchResumeToken c) (cc_exec c) /\ cc_tailable c = true.

Definition invalidated (rs : list Report) : Prop := exists t ns, last rs = Some (Invalidated t ns).

(** What serving a request did. *)
Definition request_did (D evs : list Document) (rs : list Report) (reply : Document) (c : option ClientCursor)
    (evs2 : list Document) (rs2 : list Report) : Prop :=
  let D' := D ++ reply_batch reply in let evs' := evs ++ evs2 in let rs' := rs ++ rs2 in
  Forall2 (fun d r => describes decodeIdKey (Some d) r) evs' rs' /\
  (exists tk, reply_token reply = Some tk /\ delivered D' evs' rs' tk) /\
  match c with Some c => parked D' evs' rs' c | None => invalidated rs' end.

Lemma reply_did D evs rs r r' token x B evs2 rs2 id ns :
  loop_did D evs rs r r' token x B evs2 rs2 -> rb_batch r = [] ->
  let reply := response_done (response_setToken r' token) id ns in
  Forall2 (fun d r => describes decodeIdKey (Some d) r) (evs ++ evs2) (rs ++ rs2) /\
  reply_batch reply = B /\ exists tk, reply_token reply = Some tk /\ delivered (D ++ B) (evs ++ evs2) (rs ++ rs2) tk.
Proof.
  intros (Eb & _ & _ & Hc) Er. cbn zeta. destruct (cursor_delivered _ _ _ _ _ Hc) as (Hd & Ht & Hf).
  destruct (done_reads (response_setToken r' token) id ns Ht) as [-> Etk]. split_and!; [done|by cbn; rewrite Eb, Er|].
  exists token. split; [exact Etk|done].
Qed.

Definition same_exec (x y : PlanExecutor) : Prop := ex_root y = ex_root x /\ ex_stash y = ex_stash x.

Lemma park_same x y : park x = Ok y -> same_exec x y.
Proof.
  unfold park, saveState, detachFromOperationContext, uassert. destruct (_ || _); [cbn|done].
  by intros [= <-].
Qed.

Lemma cursor_same D evs rs token x y : same_exec x y -> cursor_at D evs rs token x -> cursor_at D evs rs token y.
Proof.
  intros [Er Es] (k & Hk & HD & Ht & Hc & Hx & Hp). exists k. split_and!; try done; [|by rewrite Es].
  unfold exec_ok in *. by rewrite Er.
Qed.

Lemma handle_spec fuel start ns batchSize D evs rs c reply c' :
  parked D evs rs c -> ex_currentState (cc_exec c) = kUsable ->
  handleCursorCommand env decodeIdKey maxDepth EloqDoc firstBatchWait interrupt user rounds sfuel fuel start ns batchSize c =
    Some (Ok (reply, c')) ->
  exists evs2 rs2, request_did D evs rs reply c' evs2 rs2.
Proof.
  intros [Hc Ht] Hu Hg. unfold handleCursorCommand in Hg. rewrite Ht in Hg.
  destruct (cursor_delivered _ _ _ _ _ Hc) as (_ & Hne & _).
  assert (negb (isEmptyObj (cc_postBatchResumeToken c)) = true) as Etr by (by destruct (cc_postBatchResumeToken c)).
  rewrite Etr in Hg.
  destruct (first_batch _ _ _ _ _ _ _ _ _ _ _ _ _ _ _ _) as [[[[[r token] keep] x]|]|] eqn:Ef; [|done|done].
  destruct (first_batch_spec _ _ _ _ _ _ _ _ _ _ _ _ Hc Hu Ef) as (B & evs2 & rs2 & Hl & Hk).
  exists evs2, rs2. injection Hg as Hg. destruct keep.
  - ok_inv Hg. injection Hg as <- <-. destruct (reply_did _ _ _ _ _ _ _ _ _ _ (cc_cursorid c) ns Hl eq_refl) as (Hf & Eb & Htk).
    unfold request_did. cbn in Eb, Htk |- *. rewrite Eb. split_and!; [done|done|]. split; [|done].
    eapply cursor_same; [by apply park_same|apply Hl].
  - injection Hg as <- <-. destruct (reply_did _ _ _ _ _ _ _ _ _ _ 0 ns Hl eq_refl) as (Hf & Eb & Htk).
    unfold request_did. rewrite Eb. split_and!; [done|done|]. by apply Hk.
Qed.

Lemma unpark_same x y :
  (let! x := reattachToOperationContext x in restoreState x) = Ok y -> same_exec x y /\ ex_currentState y = kUsable.
Proof.
  unfold reattachToOperationContext, restoreState, uassert. destruct (bool_decide _); [cbn|done].
  destruct (ex_killStatus x); [done|]. by intros [= <-].
Qed.

Lemma generate_spec fuel n batchSize state D evs rs r c r' c' e :
  parked D evs rs c -> ex_currentState (cc_exec c) = kUsable -> rb_batch r = [] ->
  generateBatch env decodeIdKey maxDepth EloqDoc firstBatchWait interrupt user rounds sfuel n fuel batchSize state r c =
    Some (Ok (r', c', e)) ->
  exists B evs2 rs2, rb_postBatchResumeToken r' = cc_postBatchResumeToken c' /\ rb_batch r' = B /\
    parked (D ++ B) (evs ++ evs2) (rs ++ rs2) c' /\ (e = Closed -> invalidated (rs ++ rs2)) /\
    (forall s, e <> Dead s).
Proof.
  intros [Hc Ht] Hu Er Hg. unfold generateBatch in Hg. destruct (cursor_delivered _ _ _ _ _ Hc) as (_ & Hne & _).
  assert (negb (isEmptyObj (cc_postBatchResumeToken c)) = true) as Etr by (by destruct (cc_postBatchResumeToken c)).
  rewrite Etr in Hg.
  destruct (generate_loop _ _ _ _ _ _ _ _ _ _ _ _ _ _ _ _ _) as [[[[[r1 token] e1] x]|]|] eqn:Ef; [|done|done].
  pose proof (generate_loop_spec _ _ _ _ _ _ _ _ _ _ _ _ _ _ Hc Hu Ef) as Hl.
  injection Hg as Hg. ok_inv Hg. cbn in Hg. destruct e1 as [| |s|]; try done; injection Hg as <- <- <-;
    destruct Hl as (B & evs2 & rs2 & (Eb & _ & _ & Hc') & Hn & Hi); exists B, evs2, rs2;
    rewrite Er in Eb; (split_and!; [done|done|split; [|done]|done|done]).
  - injection E as <-. exact Hc'.
  - by apply Hn.
  - by apply Hn.
Qed.

Lemma getMore_spec fuel n now start ns request D evs rs c reply c' :
  parked D evs rs c ->
  runGetMore env decodeIdKey maxDepth EloqDoc firstBatchWait interrupt user rounds sfuel n fuel now start ns request c =
    Some (Ok (reply, c')) ->
  exists evs2 rs2, request_did D evs rs reply c' evs2 rs2.
Proof.
  intros [Hc Ht] Hg. unfold runGetMore in Hg.
  set (state := if cc_awaitData c then _ else _) in Hg.
  destruct (reattachToOperationContext (cc_exec c)) as [x0|] eqn:E0; [cbn in Hg|done].
  destruct (restoreState x0) as [x1|] eqn:E1; [cbn in Hg|done].
  destruct (unpark_same (cc_exec c) x1) as [Hsame Hu]; [by rewrite E0|].
  assert (parked D evs rs (with_exec c x1)) as Hp by (split; [by eapply cursor_same|done]).
  destruct (generateBatch _ _ _ _ _ _ _ _ _ _ _ _ _ _ _) as [[[[r1 c1] e]|]|] eqn:Eg; [|done|done].
  destruct (generate_spec _ _ _ _ _ _ _ (mkResponse false start [] []) _ _ _ _ Hp Hu eq_refl Eg)
    as (B & evs2 & rs2 & Etk & Eb & [Hc1 Ht1] & Hi & Hd).
  exists evs2, rs2. destruct (cursor_delivered _ _ _ _ _ Hc1) as (Hdel & Hne & Hf).
  rewrite <- Etk in Hne, Hdel.
  assert (forall id c2, match c2 with Some c => parked (D ++ B) (evs ++ evs2) (rs ++ rs2) c | None => invalidated (rs ++ rs2) end ->
    request_did D evs rs (response_done r1 id ns) c2 evs2 rs2) as Hdone.
  { intros id c2 Hc2. destruct (done_reads r1 id ns Hne) as [E2 E3]. unfold request_did. rewrite E2, E3, Eb.
    split_and!; [done|by eexists|done]. }
  unfold shouldSaveCursorGetMore in Hg. rewrite Ht1 in Hg. destruct e as [| |s|]; [| |by destruct (Hd s)|].
  - injection Hg as Hg. ok_inv Hg. injection Hg as <- <-. apply Hdone. split; [|done].
    eapply cursor_same; [by apply park_same|done].
  - injection Hg as Hg. ok_inv Hg. injection Hg as <- <-. apply Hdone. split; [|done].
    eapply cursor_same; [by apply park_same|done].
  - injection Hg as <- <-. apply Hdone. by apply Hi.
Qed.

(** *** Sessions *)

(** The replies after a point at which [D] was delivered. *)
Definition replies_ok (D evs : list Document) (rs : list Report) (replies : list Document) (c : option ClientCursor) : Prop :=
  Forall2 (fun d r => describes decodeIdKey (Some d) r) evs rs /\
  (forall i reply, replies !! i = Some reply -> exists tk, reply_token reply = Some tk /\
    delivered (D ++ concat (map reply_batch (take (S i) replies))) evs rs tk) /\
  (c = None -> invalidated rs).

Lemma replies_cons D evs rs evs2 rs2 reply replies c :
  length evs = length rs -> (exists tk, reply_token reply = Some tk /\ delivered (D ++ reply_batch reply) evs rs tk) ->
  replies_ok (D ++ reply_batch reply) (evs ++ evs2) (rs ++ rs2) replies c ->
  replies_ok D (evs ++ evs2) (rs ++ rs2) (reply :: replies) c.
Proof.
  intros El (tk & Htk & Hd) (Hf & Hr & Hc). split_and!; [done| |done]. intros [|i] r Hi; cbn in Hi |- *.
  - injection Hi as <-. exists tk. split; [done|]. rewrite app_nil_r. by apply delivered_mono.
  - destruct (Hr i r Hi) as (tk' & ? & ?). exists tk'. by rewrite app_assoc.
Qed.

Lemma getMores_spec fuel n ns requests : forall D evs rs c replies c',
  Forall2 (fun d r => describes decodeIdKey (Some d) r) evs rs ->
  match c with Some c => parked D evs rs c | None => invalidated rs end ->
  runGetMores env decodeIdKey maxDepth EloqDoc firstBatchWait interrupt user rounds sfuel n fuel ns requests c =
    Some (Ok (replies, c')) ->
  exists evs2 rs2, replies_ok D (evs ++ evs2) (rs ++ rs2) replies c'.
Proof.
  induction requests as [|q requests IH]; intros D evs rs c replies c' Hf Hc Hg; cbn [runGetMores] in Hg.
  { injection Hg as <- <-. exists [], []. rewrite !app_nil_r. split_and!; [done|done|by intros ->]. }
  destruct c as [c|].
  2: { injection Hg as <- <-. exists [], []. rewrite !app_nil_r. split_and!; [done|done|done]. }
  destruct (runGetMore _ _ _ _ _ _ _ _ _ _ _ _ _ _ _ _) as [[[reply c1]|]|] eqn:E1; [|done|done].
  destruct (runGetMores _ _ _ _ _ _ _ _ _ _ _ _ _ _) as [[[replies1 c2]|]|] eqn:E2; [|done|done].
  injection Hg as <- <-.
  destruct (getMore_spec _ _ _ _ _ _ _ _ _ _ _ _ Hc E1) as (evs2 & rs2 & Hf1 & Htk & Hc1).
  destruct (IH _ _ _ _ _ _ Hf1 Hc1 E2) as (evs3 & rs3 & Hr).
  exists (evs2 ++ evs3), (rs2 ++ rs3). rewrite !app_assoc. apply replies_cons; [|done|done].
  apply (Forall2_length _ _ _ Hf1).
Qed.

Lemma session_spec fuel n cursorid start ns batchSize requests p replies c :
  cursor_at [] [] [] (es_openingToken (ds_stream (pl_stage p))) (mkExecutor (mkProxy p []) [] None kUsable) ->
  getPostBatchResumeToken (pl_stage p) = Ok (es_openingToken (ds_stream (pl_stage p))) ->
  session env decodeIdKey maxDepth EloqDoc firstBatchWait interrupt user rounds sfuel n fuel cursorid start ns batchSize
    requests p = Some (Ok (replies, c)) ->
  exists evs rs, replies_ok [] evs rs replies c.
Proof.
  intros Hc Hop' Hg. unfold session in Hg.
  destruct (registerCursor cursorid p) as [c0|] eqn:E0; [|done].
  unfold registerCursor, exec_getPostBatchResumeToken in E0. cbn in E0. rewrite Hop' in E0. cbn in E0. ok_inv E0. injection E0 as <-.
  destruct (handleCursorCommand _ _ _ _ _ _ _ _ _ _ _ _ _ _) as [[[reply c1]|]|] eqn:E1; [|done|done].
  destruct (runGetMores _ _ _ _ _ _ _ _ _ _ _ _ _ _) as [[[replies1 c2]|]|] eqn:E2; [|done|done].
  injection Hg as <- <-.
  pose proof (fun H1 H2 => handle_spec _ _ _ _ [] [] [] _ _ _ H1 H2 E1) as Hh.
  destruct Hh as (evs2 & rs2 & Hf1 & Htk & Hc1); [split; [exact Hc|done]|done|].
  destruct (getMores_spec _ _ _ _ _ _ _ _ _ _ Hf1 Hc1 E2) as (evs3 & rs3 & Hr).
  exists (evs2 ++ evs3), (rs2 ++ rs3). cbn [app] in *. apply replies_cons; [|done|done].
  apply (Forall2_length _ _ _ Hf1).
Qed.

Lemma opened_cursor p :
  ds_stream (pl_stage p) = st0 -> ds_lastEmitted (pl_stage p) = [] -> pl_close p <> Some true ->
  parse (es_openingToken st0) = Ok tok -> s_drained (es_source st0) = false ->
  cursor_at [] [] [] (es_openingToken (ds_stream (pl_stage p))) (mkExecutor (mkProxy p []) [] None kUsable) /\
  getPostBatchResumeToken (pl_stage p) = Ok (es_openingToken (ds_stream (pl_stage p))).
Proof.
  intros Es El Hc Hp Hdr. pose proof (op_matches _ _ _ _ _ _ _ Hop) as Hm.
  pose proof Hm as (rel & lastTs & _ & [Hi _] & _). split.
  - assert (names [] (es_openingToken st0)) as Hn by (by exists tok). rewrite Es.
    exists 0%nat. split_and!; [done|done|by eapply names_nonempty|by eexists| |done]. split; [|done].
    exists (fun _ => [], Running). split; [|done]. cbn. split; cbn; try done; [by rewrite Es| |lia].
    intros g Hg. by eexists.
  - unfold getPostBatchResumeToken. by rewrite Es, Hi, Hdr.
Qed.

(** *** Every request returns *)

(** The most events there can be. *)
Definition most_events : nat := S (changes_count (fun g => left_of (token_position tok g) g)).

Lemma reported_bound evs rs x s : stage_ok evs rs x s -> (length rs <= most_events)%nat.
Proof.
  intros H. pose proof (gi_count _ _ _ _ _ H) as Hc.
  assert (changes_count (fun g => changes_of g rs) <= changes_count (fun g => left_of (token_position tok g) g))%nat as Hle.
  { unfold changes_count. pose proof (gi_prefix _ _ _ _ _ H) as Hp. clear -Hp.
    induction ids as [|g l IH]; [done|]. cbn. destruct (Hp g) as [rest E]; [set_solver|].
    assert (length (changes_of g rs) <= length (left_of (token_position tok g) g))%nat by (rewrite E, length_app; lia).
    assert (forall g', g' ∈ l -> exists rest, left_of (token_position tok g') g' = changes_of g' rs ++ rest) as Hl
      by (intros; apply Hp; set_solver).
    specialize (IH Hl). lia. }
  unfold most_events. destruct (x.2); lia.
Qed.

Context (Hclock : forall j k, (j <= k)%nat -> now_at env j <= now_at env k) (Hwait : firstBatchWait = None).
Context (K : nat) (latest : Z) (HK : forall k, (K <= k)%nat -> latest <= now_at env k).
Context (Hrounds : (2 + 2 * sum_list (map (fun id => length (sc_history id)) ids) <= rounds)%nat) (Hsfuel : (K < sfuel)%nat).

(** The request waits no longer than that. *)
Definition timely (state : AwaitDataState) : Prop :=
  ad_shouldWaitForInserts state = true -> ad_waitForInsertsDeadline state <= latest.

Lemma stream_returns evs rs x s j deadline :
  stage_ok evs rs x s -> (forall k, (j <= k)%nat -> deadline <= now_at env k) ->
  (j - c_tick (s_client (es_source (ds_stream s))) < sfuel)%nat ->
  is_Some (EventStream.next env decodeIdKey maxDepth EloqDoc rounds sfuel (ds_stream s) deadline).
Proof.
  intros H Hj Hs. destruct (gi_matches _ _ _ _ _ H) as (rel & lastTs & Hinv & _).
  destruct (op_start _ _ _ _ _ _ _ Hop) as (start & Hstart & _).
  unfold EventStream.next. destruct (bool_decide _); [done|].
  destruct (rounds_return decodeIdKey maxDepth EloqDoc scope (eo_dedupSetBytes o) ids (token_position tok) start
    Hstart Hdec j deadline Hj rounds sfuel _ _ _ _ Hinv) as [y ->]; [|done|by destruct y as [[? ?]|]].
  pose proof (work_bound ids (token_position tok) rel (ds_stream s)). lia.
Qed.

Lemma stage_returns state evs rs x s : timely state -> stage_ok evs rs x s ->
  is_Some (stage_getNext env decodeIdKey maxDepth EloqDoc firstBatchWait rounds sfuel state s).
Proof.
  intros Ht H. unfold stage_getNext. pose proof (deadline_ok state _ _ _ _ H) as H'.
  destruct (batchDeadline env firstBatchWait state s) as [d s1] eqn:Eb. cbn in H'.
  assert (exists j, (forall k, (j <= k)%nat -> d <= now_at env k) /\
    (j - c_tick (s_client (es_source (ds_stream s1))) < sfuel)%nat) as (j & Hj & Hs).
  { unfold batchDeadline in Eb. destruct (ad_shouldWaitForInserts state) eqn:Ew.
    - injection Eb as <- <-. exists K. split; [|lia]. intros k Hk. specialize (HK k Hk). specialize (Ht Ew). lia.
    - cbn in Eb. injection Eb as <- <-. exists (c_tick (s_client (es_source (ds_stream s)))). rewrite Hwait. cbn.
      split; [|lia]. intros k Hk. specialize (Hclock _ _ Hk). lia. }
  destruct (stream_returns _ _ _ _ _ _ H' Hj Hs) as [y ->]. by destruct y as [[[|] ?]|].
Qed.

Lemma internal_returns state evs rs p : timely state -> pipeline_ok evs rs p ->
  is_Some (internal_getNext env decodeIdKey maxDepth EloqDoc firstBatchWait interrupt rounds sfuel state p).
Proof.
  intros Ht (x & H & _). unfold internal_getNext, close_getNext, checkForInterrupt, source_getNext.
  destruct (stage_returns state _ _ _ _ Ht H) as [y Hy].
  destruct (pl_close p) as [b|]; [|rewrite Hy; by destruct y as [[[|] ?]|]].
  destruct (interrupt _); [done|]. destruct b; [done|]. cbn [pl_stage]. rewrite Hy.
  destruct y as [[[doc|] ?]|]; [|done|done]. destruct (getField doc _) as [[]|]; done.
Qed.

Lemma pipeline_returns fuel state : timely state -> forall evs rs p,
  pipeline_ok evs rs p -> (most_events - length rs < fuel)%nat ->
  is_Some (pipeline_getNext env decodeIdKey maxDepth EloqDoc firstBatchWait interrupt user rounds sfuel fuel state p).
Proof.
  intros Ht. induction fuel as [|fuel IH]; intros evs rs p H Hf; [lia|]. cbn [pipeline_getNext].
  destruct (internal_returns state _ _ _ Ht H) as [y Hy]. rewrite Hy.
  destruct y as [[[doc| |] p1]|]; [|done..]. destruct (user doc) as [[|]|]; [done| |done].
  destruct (internal_step _ _ _ _ _ _ H Hy) as [rep H1]. apply (IH _ _ _ H1).
  destruct H1 as (x & H1 & _). apply reported_bound in H1. rewrite length_app in H1 |- *. cbn [length] in *. lia.
Qed.

Context (fuel n : nat) (Hfuel : (most_events < fuel)%nat) (Hn : (most_events < n)%nat).

Lemma exec_returns state evs rs x : timely state -> exec_ok evs rs x ->
  is_Some (exec_getNext env decodeIdKey maxDepth EloqDoc firstBatchWait interrupt user rounds sfuel fuel state x).
Proof.
  intros Ht [Hp Hs]. unfold exec_getNext. destruct (negb _); [done|]. destruct (ex_killStatus x); [done|].
  destruct (ex_stash x); [|done]. unfold doWork, getNextBson. rewrite Hs. cbn [last].
  destruct (pipeline_returns fuel state Ht _ _ _ Hp) as [y ->]; [lia|].
  destruct y as [[[d| |] p]|]; [|done..]. cbn. by destruct (verifyResumeTokenIntact p d).
Qed.

(** A cursor has delivered no more documents than there are events. *)
Lemma cursor_bound D evs rs token x : cursor_at D evs rs token x -> (length D <= most_events)%nat /\ exec_ok evs rs x.
Proof.
  intros (k & Hk & -> & _ & _ & Hx & _). split; [|done]. pose proof (exec_lengths _ _ _ Hx) as El.
  destruct Hx as [(y & H & _) _]. apply reported_bound in H.
  assert (length (omap passed (take k evs)) <= length (take k evs))%nat.
  { generalize (take k evs) as l. induction l as [|e l IH]; cbn; [done|]. destruct (passed e); cbn; lia. }
  rewrite length_take in *. lia.
Qed.

Lemma first_batch_returns m : forall D evs rs r token x, cursor_at D evs rs token x ->
  is_Some (first_batch env decodeIdKey maxDepth EloqDoc firstBatchWait interrupt user rounds sfuel fuel true true m r token x).
Proof.
  induction m as [|m IH]; intros D evs rs r token x H; cbn [first_batch]; [done|].
  destruct (exec_returns (mkAwaitData 0 false) evs rs x) as [y Hy]; [done|by eapply cursor_bound|]. rewrite Hy.
  destruct y as [[[d| | |] x1]|]; [|done..]. destruct (haveSpaceForNext _ _ _); [|done].
  destruct (cursor_step _ _ _ _ _ _ _ _ _ H Hy) as (evs2 & rs2 & _ & Ha & _). by eapply IH.
Qed.

Lemma generate_loop_returns m batchSize : forall state D evs rs r token x,
  timely state -> cursor_at D evs rs token x -> (most_events - length D < m)%nat ->
  is_Some (generate_loop env decodeIdKey maxDepth EloqDoc firstBatchWait interrupt user rounds sfuel m fuel true batchSize
    state r token x).
Proof.
  induction m as [|m IH]; intros state D evs rs r token x Ht H Hm; [lia|]. cbn [generate_loop].
  destruct (enoughForGetMore _ _); [done|].
  destruct (exec_returns state evs rs x Ht) as [y Hy]; [by eapply cursor_bound|]. rewrite Hy.
  destruct y as [[[d| | |] x1]|]; [|done..]. destruct (haveSpaceForNext _ _ _); [|done].
  destruct (cursor_step _ _ _ _ _ _ _ _ _ H Hy) as (evs2 & rs2 & _ & Ha & _).
  eapply IH; [by intros [=]|done|]. destruct (cursor_bound _ _ _ _ _ Ha) as [Hb _]. rewrite length_app in Hb |- *. cbn [length] in *. lia.
Qed.

Lemma handle_returns start ns batchSize D evs rs c : parked D evs rs c ->
  is_Some (handleCursorCommand env decodeIdKey maxDepth EloqDoc firstBatchWait interrupt user rounds sfuel fuel start ns
    batchSize c).
Proof.
  intros [Hc Ht]. unfold handleCursorCommand. rewrite Ht. destruct (cursor_delivered _ _ _ _ _ Hc) as (_ & Hne & _).
  assert (negb (isEmptyObj (cc_postBatchResumeToken c)) = true) as -> by (by destruct (cc_postBatchResumeToken c)).
  destruct (first_batch_returns (Z.to_nat batchSize) _ _ _ (mkResponse true start [] []) _ _ Hc) as [y ->].
  by destruct y as [[[[? ?] []] ?]|].
Qed.

(** When a getMore must be back. *)
Definition served_by (q : Served) : Z := sv_now q + default 1000 (gm_awaitDataTimeout (sv_request q)).

Lemma getMore_returns q ns D evs rs c : parked D evs rs c -> served_by q <= latest ->
  is_Some (runGetMore env decodeIdKey maxDepth EloqDoc firstBatchWait interrupt user rounds sfuel n fuel (sv_now q)
    (sv_start q) ns (sv_request q) c).
Proof.
  intros [Hc Ht] Hq. unfold runGetMore. set (state := if cc_awaitData c then _ else _).
  destruct (reattachToOperationContext (cc_exec c)) as [x0|] eqn:E0; [cbn|done].
  destruct (restoreState x0) as [x1|] eqn:E1; [cbn|done].
  destruct (unpark_same (cc_exec c) x1) as [Hsame Hu]; [by rewrite E0|].
  assert (parked D evs rs (with_exec c x1)) as Hp by (split; [by eapply cursor_same|done]). pose proof Hp as [Hc1 _].
  assert (timely state) as Hti by (unfold state; destruct (cc_awaitData c); [exact (fun _ => Hq)|done]).
  destruct (cursor_delivered _ _ _ _ _ Hc1) as (_ & Hne & _).
  assert (is_Some (generateBatch env decodeIdKey maxDepth EloqDoc firstBatchWait interrupt user rounds sfuel n fuel
    (default 0 (gm_batchSize (sv_request q))) state (mkResponse false (sv_start q) [] []) (with_exec c x1))) as [y Hy].
  { unfold generateBatch.
    assert (negb (isEmptyObj (cc_postBatchResumeToken (with_exec c x1))) = true) as ->
      by (by destruct (cc_postBatchResumeToken (with_exec c x1))).
    destruct (generate_loop_returns n (default 0 (gm_batchSize (sv_request q))) state _ _ _
      (mkResponse false (sv_start q) [] []) _ _ Hti Hc1) as [y ->]; [lia|]. by destruct y as [[[[? ?] ?] ?]|]. }
  rewrite Hy. destruct y as [[[r1 c1] e]|]; [|done].
  destruct (generate_spec _ _ _ _ _ _ _ (mkResponse false (sv_start q) [] []) _ _ _ _ Hp Hu eq_refl Hy)
    as (_ & _ & _ & _ & _ & [_ Ht1] & _). unfold shouldSaveCursorGetMore. rewrite Ht1. by destruct e.
Qed.

Lemma getMores_return ns requests : Forall (fun q => served_by q <= latest) requests -> forall D evs rs c,
  match c with Some c => parked D evs rs c | None => invalidated rs end ->
  is_Some (runGetMores env decodeIdKey maxDepth EloqDoc firstBatchWait interrupt user rounds sfuel n fuel ns requests c).
Proof.
  induction 1 as [|q requests Hq _ IH]; intros D evs rs c Hc; cbn [runGetMores]; [done|]. destruct c as [c|]; [|done].
  destruct (getMore_returns q ns _ _ _ _ Hc Hq) as [y Hy]. rewrite Hy. destruct y as [[reply c1]|]; [|done].
  destruct (getMore_spec _ _ _ _ _ _ _ _ _ _ _ _ Hc Hy) as (evs2 & rs2 & _ & _ & Hc1).
  destruct (IH _ _ _ _ Hc1) as [z ->]. by destruct z as [[? ?]|].
Qed.

Lemma session_returns cursorid start ns batchSize requests p :
  cursor_at [] [] [] (es_openingToken (ds_stream (pl_stage p))) (mkExecutor (mkProxy p []) [] None kUsable) ->
  getPostBatchResumeToken (pl_stage p) = Ok (es_openingToken (ds_stream (pl_stage p))) ->
  Forall (fun q => served_by q <= latest) requests ->
  is_Some (session env decodeIdKey maxDepth EloqDoc firstBatchWait interrupt user rounds sfuel n fuel cursorid start ns
    batchSize requests p).
Proof.
  intros Hc Hop' Hq. unfold session.
  destruct (registerCursor cursorid p) as [c0|] eqn:E0; [|done].
  unfold registerCursor, exec_getPostBatchResumeToken in E0. cbn in E0. rewrite Hop' in E0. cbn in E0. ok_inv E0. injection E0 as <-.
  match goal with |- context [handleCursorCommand _ _ _ _ _ _ _ _ _ _ _ _ _ ?c] =>
    assert (parked [] [] [] c) as Hpk by (split; [exact Hc|done]);
    destruct (handle_returns start ns batchSize _ _ _ c Hpk) as [y Hy] end.
  rewrite Hy. destruct y as [[reply c1]|]; [|done].
  destruct (handle_spec _ _ _ _ _ _ _ _ _ _ Hpk eq_refl Hy) as (evs2 & rs2 & _ & _ & Hc1).
  destruct (getMores_return ns requests Hq _ _ _ _ Hc1) as [z ->]. by destruct z as [[? ?]|].
Qed.

End Session.

Lemma deadlines_bound (l : list Z) : exists latest, Forall (fun d => d <= latest) l.
Proof.
  induction l as [|d l [b IH]]; [by exists 0|]. exists (Z.max d b). constructor; [lia|].
  eapply Forall_impl; [done|]. intros x. cbn. lia.
Qed.


(** ** From the specification *)

Section Client.

Context {env : Env} `{!ScanContract env}.

Lemma openFresh_parses ids scope o st0 st fuel deadline :
  NoDup ids -> newStream ids scope o = Ok st0 -> openFresh env fuel st0 deadline = Some (Ok (true, st)) ->
  exists tok, parse (es_openingToken st) = Ok tok.
Proof.
  intros Hnd H0 H. unfold newStream in H0. ok_inv H0. injection H0 as <-.
  destruct (newSource_fresh (env:=env) ids _ _ Hnd E) as (Hfr & Hi & Hp).
  unfold openFresh in H. rewrite bool_decide_eq_true_2 in H by done. cbn [negb es_source] in H.
  unfold fixStart in H. rewrite (fresh_unstarted _ Hfr) in H.
  destruct (fixStart_loop _ _ _ _ _ _) as [x|] eqn:Ef; [|done].
  pose proof (fixStart_loop_spec _ _ _ _ _ x Hfr ltac:(by rewrite length_map) Ef) as Ho.
  destruct x as [[[start|] s1]|]; [|done|done]. destruct Ho as (_ & Hr & _).
  assert (wf_token (makeWatermark start [])) as Hwf.
  { unfold wf_token, is_u64, u64_max in *. cbn. split_and!; try done; try lia; constructor. }
  destruct (toBSON_parse _ Hwf) as (doc & Ht & Hd). rewrite Ht in H. cbn [rbind] in H. injection H as <-. by eexists.
Qed.

Lemma logGroupIds_ok count : NoDup (logGroupIds count) /\ (Z.of_nat count <= 2 ^ 32 -> Forall is_u32 (logGroupIds count)).
Proof.
  unfold logGroupIds. split.
  - apply NoDup_fmap_2; [intros ? ?; lia|apply NoDup_seq].
  - intros H. apply Forall_map, Forall_seq. intros j Hj. unfold is_u32. cbn. lia.
Qed.

(** What the stage factory promises. *)
Lemma stages_open reencode fuel start d params stats registry spec ctx stage registry' :
  makeEloqChangeStreamStages env reencode fuel start d params stats registry spec ctx = Some (Ok (stage, registry')) ->
  exists count tok, supportedLog d = Ok count /\ ds_lastEmitted stage = [] /\
    opens (env:=env) (logGroupIds count) (specScope spec (ec_ns ctx)) (streamOptions params) tok (ds_stream stage).
Proof.
  intros H. unfold makeEloqChangeStreamStages in H.
  destruct (uassert InvalidOptions _); [cbn [rbind] in H|done].
  destruct (specToken reencode spec) as [token|] eqn:Et; [cbn [rbind] in H|done].
  destruct (supportedLog d) as [count|] eqn:Ed; [cbn [rbind] in H|done].
  destruct (newStream _ _ _) as [st0|] eqn:E0; [cbn [rbind] in H|done].
  destruct (openStream _ _ _ _ _ _ _) as [[st|]|] eqn:Eo; [|done|done].
  assert (exists tok, opens (env:=env) (logGroupIds count) (specScope spec (ec_ns ctx)) (streamOptions params) tok st)
    as [tok Hopen].
  { unfold openStream in Eo. destruct token as [tok|].
    - exists tok. injection Eo as Eo. split; [|by exists st0; split; [|left]].
      assert (exists doc, parse doc = Ok tok) as [doc Hp].
      { unfold specToken in Et. destruct (sp_resumeAfter spec).
        - do 2 ok_inv Et. ok_inv Et. injection Et as <-. by eexists.
        - destruct (sp_startAfter spec); [|done]. ok_inv Et. injection Et as <-. by eexists. }
      apply parse_wf in Hp. destruct (toBSON_parse _ Hp) as (doc' & Ht & Hp').
      unfold openAt in Eo. do 4 ok_inv Eo. injection Eo as <-. cbn. congruence.
    - destruct (openFresh _ _ _ _) as [[[[] st1]|]|] eqn:Ef; try done. injection Eo as <-.
      destruct (openFresh_parses _ _ _ _ _ _ _ (proj1 (logGroupIds_ok count)) E0 Ef) as [tok Hp].
      exists tok. split; [done|]. exists st0. split; [done|]. right. by eexists _, _. }
  exists count, tok. unfold newStage in H. cbn in H. injection H as <- <-. done.
Qed.

End Client.

(** * Properties *)

Section Properties.

Context {env : Env} `{!ScanContract env} (decodeIdKey : bytes -> result Document) (maxDepth EloqDoc : Z).
Context (reencode : MongoResumeToken -> result Document).

(** What opening a stream gives its cursor. *)
Lemma created ofuel opened_at parseSpec fcv40 d params stats registry elem ctx stage close registry' :
  createFromBson env reencode ofuel opened_at parseSpec fcv40 d params stats registry elem ctx =
    Some (Ok (stage, close, registry')) ->
  let ids := s_logGroupIds (es_source (ds_stream stage)) in
  exists tok, NoDup ids /\
    opened maxDepth EloqDoc ids (es_scope (ds_stream stage)) (params cdc_dedup_set_bytes) tok (ds_stream stage) /\
    parse (es_openingToken (ds_stream stage)) = Ok tok /\ ds_lastEmitted stage = [] /\ close <> Some true /\
    s_drained (es_source (ds_stream stage)) = false.
Proof.
  intros Hc ids. unfold createFromBson in Hc.
  destruct elem; try done. destruct (parseSpec fields) as [spec|]; [cbn [rbind] in Hc|done].
  destruct (assertIsLegalSpecification _ _ _); [cbn [rbind] in Hc|done].
  do 2 (destruct (uassert _ _); [cbn [rbind] in Hc|done]).
  destruct (makeEloqChangeStreamStages _ _ _ _ _ _ _ _ _ _) as [[[stage' reg]|]|] eqn:Em; [|done|done].
  injection Hc as -> <- <-. destruct (stages_open _ _ _ _ _ _ _ _ _ _ _ Em) as (count & tok & _ & Hl & Hopen).
  pose proof (opens_opened maxDepth EloqDoc _ _ _ _ _ (proj1 (logGroupIds_ok count)) Hopen) as Hop.
  pose proof (op_matches _ _ _ _ _ _ _ Hop) as (rel & lastTs & Hinv & _).
  assert (logGroupIds count = ids) as Ei by (symmetry; apply (si_ids _ _ _ _ _ _ _ _ _ _ Hinv)).
  rewrite <- (si_scope _ _ _ _ _ _ _ _ _ _ Hinv), Ei in Hop. exists tok.
  split_and!; [rewrite <- Ei; apply logGroupIds_ok|exact Hop|apply Hopen|done|by destruct (ec_needsMerge ctx)|].
  by eapply opens_undrained.
Qed.



End Properties.

(** ** A session *)

#[local] Instance ex_session_contract : ScanContract (prompt_env ex_log 9) :=
  prompt_contract ex_log 9 ex_log_wf ex_log_bound.

(** The collection of the example log, from the token before its first change. *)
Definition ex_spec : DocumentSourceChangeStreamSpec :=
  mkSpec None (match toBSON ex_token with Ok doc => Some doc | Err _ => None end) None None (lit "default") false.
Definition ex_created : option (result (DocumentSourceEloqChangeStream * option bool * Registry.CdcStreamRegistry)) :=
  createFromBson (prompt_env ex_log 9) (fun _ => Err BadValue) 10 0 (fun _ => Ok ex_spec) true
    (mkDeployment true (Some 3%nat)) defaultParameters 0%nat Registry.newRegistry (BObject [])
    (mkExpCtx (lit "shop.orders") false None).
Definition ex_stage : DocumentSourceEloqChangeStream :=
  match ex_created with
  | Some (Ok (s, _, _)) => s
  | _ => mkStage (ex_opened on_orders) [] [] 0
  end.
Definition ex_registry : Registry.CdcStreamRegistry :=
  match ex_created with Some (Ok (_, _, r)) => r | _ => Registry.newRegistry end.

(** The user's stages drop deletes; a first batch of one document, then getMores of two. *)
Definition ex_user (d : Document) : result (option Document) :=
  match getField d (lit "operationType") with
  | Some (BString type) => Ok (if bytes_eqb type (lit "delete") then None else Some d)
  | _ => Err BadValue
  end.
Definition ex_requests : list Served := repeat (mkServed 60 50 (mkGetMore (Some 2) (Some 40))) 3.
Definition ex_served : option (result (list Document * option ClientCursor)) :=
  session (prompt_env ex_log 9) ex_decodeIdKey 200 3 None (fun _ => None) ex_user 50 100 20 20 7 50
    (lit "shop.orders") 1 ex_requests (mkPipeline ex_stage (Some false) 0).
Definition ex_session : list Document * option ClientCursor :=
  match ex_served with
  | Some (Ok x) => x
  | _ => ([], None)
  end.

Definition reply_types (reply : Document) : list bytes :=
  map (fun d => match getField d (lit "operationType") with Some (BString s) => s | _ => [] end) (reply_batch reply).


Lemma ex_drops_alone : drops_alone 200 3 [0; 1; 2] on_orders (streamOptions defaultParameters).
Proof.
  intros g d c Hg Hd _ _ _ g' x Hg' Hx Hts. apply changes_record in Hx.
  assert (g = 1 /\ d = ex_dropped) as [-> ->]
    by (cbn in Hd; unfold ex_log in Hd; repeat case_match; set_solver by lia).
  cbn in Hx. unfold ex_log in Hx. destruct (Z.eqb_spec g' 1) as [->|].
  - split; [done|]. apply elem_of_cons in Hx as [Hx|Hx%list_elem_of_singleton]; [by rewrite Hx in Hts|done].
  - destruct (g' =? 2); [|by apply not_elem_of_nil in Hx]. apply list_elem_of_singleton in Hx. by rewrite Hx in Hts.
Qed.

Lemma ex_created_eq :
  createFromBson (prompt_env ex_log 9) (fun _ => Err BadValue) 10 0 (fun _ => Ok ex_spec) true
    (mkDeployment true (Some 3%nat)) defaultParameters 0%nat Registry.newRegistry (BObject [])
    (mkExpCtx (lit "shop.orders") false None) = Some (Ok (ex_stage, Some false, ex_registry)).
Proof. vm_compute. reflexivity. Qed.
Lemma ex_session_eq :
  session (prompt_env ex_log 9) ex_decodeIdKey 200 3 None (fun _ => None) ex_user 50 100 20 20 7 50
    (lit "shop.orders") 1 ex_requests (mkPipeline ex_stage (Some false) 0) = Some (Ok (ex_session.1, None)).
Proof. vm_compute. reflexivity. Qed.
Lemma ex_stage_ids : s_logGroupIds (es_source (ds_stream ex_stage)) = [0; 1; 2].
Proof. vm_compute. reflexivity. Qed.
Lemma ex_stage_scope : es_scope (ds_stream ex_stage) = on_orders.
Proof. vm_compute. reflexivity. Qed.


